(* ===== verification/_CoqProject ===== *)
-Q . S2P
Prelude.v
BTree.v
Hex.v
Vt.v
DhiLog.v
LogReader.v
LogRoundtrip.v
Splice.v
DhSnap.v
DhSnapSections.v
Agenda.v
SlotState.v
SlotManager.v
SlotInvariants.v
SlotLifecycle.v
Status.v
RuntimeTable.v
Lapic.v
DevCtx.v
Devices.v
DevicesOk.v
Detchannel.v
DetchannelOk.v
Bus.v
Blk.v
BlkDisk.v
Bisect.v
Dirty.v
Reader.v
Config.v
ImageResolver.v
Msr.v
Cpuid.v
Xsave.v
Kvm.v
SlotVm.v
Bzimage.v
BzimageOk.v
LinuxPlan.v
LinuxPlanOk.v
ReprC.v
VcpuState.v
StateHash.v
Boundary.v
Inject.v
RunCtl.v
RunCtlOk.v
RunKeeps.v
Recording.v
ProtoMap.v
RecordingOk.v
Snapshot.v
Restore.v
Runtime.v
Inputs.v
Capture.v
Worker.v
WorkerOk.v
Boot.v
BootOk.v
SnapshotOk.v
SnapshotStore.v
SnapshotCompare.v
Fork.v
SnapshotExample.v
BootExample.v
Replay.v
ReplayOk.v
Verify.v
ReplayRun.v
RunService.v
RunServiceOk.v
VerifyReplay.v
ReplayRunOk.v
ReplayExample.v
WorkerExample.v
GuestExample.v
RunServiceExample.v
RunExample.v
