(* ===== verification/Prelude.v ===== *)
(** * A verification development for determinism-hypervisor

    determinism-hypervisor runs virtual machines so that a run can be recorded,
    snapshotted, forked and replayed bit for bit.  Guest time is the count of
    retired instructions; every input is logged at the count it was applied at;
    the machine's state is hashed on a grid of counts.  This library models the
    program from its sources under [src/] and proves what makes it correct.

    ** The program and the files that model it

    Paths are relative to [src/crates/].

    - The input log, [dh-inputlog]: [DhiLog] is the writer [dhilog.rs],
      [LogReader] the validating reader and the crash inspector [reader.rs],
      [LogRoundtrip] their composition, [Splice] the lineages of [splice.rs].
    - Snapshots, [dh-snapshot] and [dh-worker]: [DhSnap] and [DhSnapSections] are
      the container and the typed sections of [dhsnap.rs]; [Snapshot] and
      [Restore] the engines [snapshot_engine.rs] and [restore_engine.rs];
      [SnapshotOk] and [SnapshotStore] their agreement; [SnapshotCompare] is
      [snapshot_compare.rs]; [Fork] is [fork_engine.rs].
    - The devices, [dh-devices]: [DevCtx] is the context of a device access
      ([ctx.rs], [lib.rs]), [Devices] the register devices ([clock.rs], [pad.rs],
      [entropy.rs], [net.rs], [serial.rs]) with their contract in [DevicesOk];
      [Blk] and [BlkDisk] are [blk.rs]; [Bus] is [bus.rs]; [Detchannel] and
      [DetchannelOk] the guest channel's host, [detchannel.rs].
    - The virtual machine, [dh-vmm]: [Vt] is the virtual clock [vt.rs], [Config]
      the machine configuration [config.rs] over the cursor monad of [Reader],
      [Kvm] the kernel interface, [Msr], [Cpuid], [Xsave] and [Lapic] the files of
      those names, [SlotVm] the bring-up [kvm.rs], [Dirty] the dirty-page harvest
      [dirty.rs], [ReprC] and [VcpuState] the vCPU capture [vcpu_state.rs],
      [StateHash] the hash chain [hash.rs], [SlotState] the slot states of
      [lib.rs].
    - Booting: [Bzimage], [BzimageOk], [LinuxPlan] and [LinuxPlanOk] are
      [dh-vmm/src/boot/linux_bzimage.rs]; [Boot] and [BootOk] are
      [dh-vmm/src/boot.rs].
    - Running: [Boundary] lands a vCPU on an exact count ([boundary.rs] and
      [dh-detclock/src/counter.rs]), [Inject] queues a vector ([inject.rs]),
      [Agenda] compiles a request to stop points ([agenda.rs]), [RunCtl] walks
      them ([runctl.rs], [tsc.rs]), with [RunCtlOk] and [RunKeeps] about it;
      [Recording] is the device rail that services exits and logs inputs
      ([recording.rs]), with [RecordingOk].
    - Replaying: [Bisect] is the checkpoint index [bisection_index.rs], [Replay]
      and [ReplayRun] are [replay_engine.rs], [VerifyReplay] is
      [verify_replay.rs], [Verify] is the crate [dh-verify]; [ReplayOk] and
      [ReplayRunOk] are about them.
    - The worker, [dh-worker]: [SlotManager] is the slot table [slot_manager.rs]
      with [SlotInvariants] and [SlotLifecycle]; [RuntimeTable] and [Runtime] are
      [runtime.rs]; [Status], [Inputs] and [Worker] with [WorkerOk] are the
      errors, the inputs and the lifecycle of [service.rs], [Capture] its guest
      events and captures, [RunService] with [RunServiceOk] its run request
      ([drive_recorded_run]); [ProtoMap] is the wire mapping [proto_map.rs];
      [ImageResolver] the image cache [image_resolver.rs] and the base image
      [dh-vmm/src/blkfile.rs].
    - [BTree] is the standard library's ordered map, [Hex] lower-case
      hexadecimal.  [SnapshotExample], [BootExample], [ReplayExample],
      [WorkerExample], [RunServiceExample], [GuestExample] and [RunExample]
      instantiate the interfaces by small machines.

    ** How the code is modelled

    - A [Result] is an [outcome]: [Ok], [Err] or [Panic].  [Panic] is every panic
      of the source: an index out of range, an [unwrap] or [expect], and also an
      arithmetic overflow of an unchecked operator and a failed [debug_assert!],
      which panic in builds with checks.  A theorem that excludes [Panic] covers
      both kinds of build.
    - A [&mut self] method is a [method]: the state is returned beside the
      outcome, also on an error.  Code that can run forever is a [prog], whose
      [None] is fuel that ran out, never an answer of the code.
    - Integers are [Z] in their width: [u8] to [u64] are the ranges, wrapping,
      saturating and checked operators are written out.  Bytes are lists of [Z].
      Slot ids and indices are [nat].  A [BTreeMap] is a sorted association list
      where it is iterated and a [gmap] where it is only looked up.
    - Code outside the repository is a type class whose laws, where a theorem
      needs them, are a second class: the vCPU, its counter and its ioctls
      ([Vcpu], [VcpuGets], [VcpuSets], [Follows], [Takes]), guest RAM ([SlotMem],
      [SlotRam], [RamAlias]), KVM's VM calls ([VmKernel], [RamKernel]), the dirty
      ring ([RingKernel]), BLAKE3 ([Blake3]), the snapshot store ([Snapstore]), the
      guest SDK ([GuestSdk], [FaultPlan]), the ChaCha20 stream ([DetEntropy]),
      [postcard] ([Postcard]), threads ([ThreadHost], [PauseFlag]), the image cache's
      files ([CacheFs], [Pread]), the SDK's region reader ([RegionSdk],
      [RegionReads]) and LZ4 ([Lz4]).  Each class with
      laws has an instance in one of the example files.
    - A handler of the worker runs alone on the tables it locks; what another
      thread does between two of its locks is an argument or part of an
      interface (the clock readings, the pause flag, the live inputs).
    - A formatted message is a constructor or a list of pieces that carries what
      is printed.

    ** What the theorems show

    - The log is a codec: a session sealed by the writer reads back as the calls
      made, the reader accepts exactly sealed images and is total.
    - Recording is complete: a sealed rail's log holds every canonical input that
      was applied, in order.  Inputs accepted by the worker are queued exactly
      as described, and live inputs are applied exactly once.
    - Execution is deterministic: landing is exact, a vector goes in at the first
      open window, and the outcome, the hash chain and the epoch hashes of a
      segment are a function of the guest, the agenda and the inputs, not of the
      landing margins or of the host's kicks.
    - The hash chain binds history: equal values mean equal histories, unless
      the digest collides on them; an accepted replay ran from the restored base
      to the recording's end, met every recorded hash and consumed every answer.
    - Snapshots, incremental snapshots and forks restore the machine; the DHSNAP
      container, the configuration, the vCPU section, the EVTC section and the
      APIC section are exact codecs; XSAVE images are canonical; the CPUID table
      does not show the host.
    - Booting leaves the image, the page tables and the boot data where the guest
      looks for them; the Linux plan's ranges are disjoint and reserved.
    - The slot table keeps its books over every history, a fork's baseline is
      protected, and publishing, forking and destroying are transactions over
      the slot table and the runtime table.  When a run returns, the slot table
      and the runtime agree about where it is, unless its lease ran out; when its
      segment panics, the slot stays Running.  A capture holds exactly the published bytes that were asked for.
    - A configuration crosses the wire exactly, and a machine starts from images
      that have the digests it names.
    - Devices keep their contract; pv-blk is a flat disk over its base image; the
      dirty harvest loses no page.

    ** Fuel

    Loops that are structural in the data need none.  The readers' loops take
    the length of the image, and running out is [Panic], which is proved not to
    happen.  [land_at], the injection loop and the agenda walk take fuel as the
    code's own loops are unbounded, and so does the image cache's read loop, for
    which [resolved_images_verified] gives an amount; [land_at_exact], [inject_first_window] and
    [run_segment_deterministic] give an amount that is enough
    ([run_fuel]) and show that the result is reached with it.

    ** Not modelled

    - Text: [Display] impls, metrics, the Prometheus and HTTP pages, the reports
      of the command-line tool.
    - Host I/O: signal handlers and thread pinning ([dh-vmm/src/run.rs]),
      preflight probes, sockets, the gRPC transport and the
      generated protocol code.
    - The [ChaCha20] generator, BLAKE3, the snapshot store and the guest SDK are
      other projects' code and enter as interfaces.
    - Of [service.rs], the handlers that only compose engines modelled here with
      the wire types. *)

From Stdlib Require Export ZArith Lia Bool ZifyBool ZifyNat.
From stdpp Require Export base tactics option list numbers sets.

Declare Scope dh_scope.
Delimit Scope dh_scope with dh.
Open Scope Z_scope.
Open Scope dh_scope.

(** ** Outcomes: Rust's [Result] plus the panics of checked code *)

Inductive outcome (E A : Type) : Type :=
| Ok (a : A)
| Err (e : E)
| Panic.
Arguments Ok {E A} a.
Arguments Err {E A} e.
Arguments Panic {E A}.

#[export] Instance outcome_ret {E} : MRet (outcome E) := fun _ a => Ok a.
#[export] Instance outcome_bind {E} : MBind (outcome E) := fun _ _ k m =>
  match m with Ok a => k a | Err e => Err e | Panic => Panic end.

(** [ok_or e o]: Rust's [Option::ok_or]. *)
Definition ok_or {E A} (e : E) (o : option A) : outcome E A :=
  match o with Some a => Ok a | None => Err e end.

(** [guard_or e b k]: an early return [if b { return Err(e) }] followed by [k]. *)
Notation "'fail' e 'when' b ; k" := (if b then Err e else k)
  (at level 100, e at level 20, b at level 80, k at level 200, right associativity,
   format "'fail'  e  'when'  b ;  '/' k") : dh_scope.

(** [&mut self] methods: the state is returned beside the outcome, also when
    the method fails. *)
Definition method (S E A : Type) : Type := S -> outcome E A * S.
#[export] Instance method_ret {S E} : MRet (method S E) := fun _ a s => (Ok a, s).
#[export] Instance method_bind {S E} : MBind (method S E) := fun _ _ k m s =>
  match m s with (Ok a, s) => k a s | (Err e, s) => (Err e, s) | (Panic, s) => (Panic, s) end.

Definition is_ok {E A} (o : outcome E A) : bool :=
  match o with Ok _ => true | _ => false end.

Lemma bind_ok {E A B} (m : outcome E A) (k : A -> outcome E B) b :
  (m ≫= k) = Ok b -> exists a, m = Ok a /\ k a = Ok b.
Proof. destruct m; simpl; naive_solver. Qed.

Lemma bind_not_panic {E A B} (m : outcome E A) (k : A -> outcome E B) :
  m <> Panic -> (forall a, m = Ok a -> k a <> Panic) -> (m ≫= k) <> Panic.
Proof. destruct m; simpl; naive_solver. Qed.

(** Membership in a boolean filter. *)
Lemma elem_of_bfilter {A} (f : A -> bool) l x : x ∈ List.filter f l <-> x ∈ l /\ f x = true.
Proof. rewrite !list_elem_of_In. apply List.filter_In. Qed.

(** ** Machine integers *)

Definition u8_max : Z := 2 ^ 8 - 1.
Definition u16_max : Z := 2 ^ 16 - 1.
Definition u32_max : Z := 2 ^ 32 - 1.
Definition u64_max : Z := 2 ^ 64 - 1.
Definition u8 (z : Z) : Prop := 0 <= z < 2 ^ 8.
Definition u16 (z : Z) : Prop := 0 <= z < 2 ^ 16.
Definition u32 (z : Z) : Prop := 0 <= z < 2 ^ 32.
Definition u64 (z : Z) : Prop := 0 <= z < 2 ^ 64.
Definition u128 (z : Z) : Prop := 0 <= z < 2 ^ 128.

#[export] Instance u8_dec z : Decision (u8 z).
Proof. unfold u8; apply _. Defined.
#[export] Instance u16_dec z : Decision (u16 z).
Proof. unfold u16; apply _. Defined.
#[export] Instance u32_dec z : Decision (u32 z).
Proof. unfold u32; apply _. Defined.
#[export] Instance u64_dec z : Decision (u64 z).
Proof. unfold u64; apply _. Defined.

(** Width conversions and the arithmetic the source uses on them. *)
Definition to_u16 (z : Z) : Z := z mod 2 ^ 16.
Definition to_u32 (z : Z) : Z := z mod 2 ^ 32.
Definition to_u64 (z : Z) : Z := z mod 2 ^ 64.
Definition try_u32 (z : Z) : option Z := if z <=? u32_max then Some z else None.
Definition try_u64 (z : Z) : option Z := if z <=? u64_max then Some z else None.
Definition checked_add (a b : Z) : option Z := try_u64 (a + b).
Definition checked_sub (a b : Z) : option Z := if b <=? a then Some (a - b) else None.
Definition saturating_add (a b : Z) : Z := Z.min (a + b) u64_max.
Definition saturating_sub (a b : Z) : Z := Z.max (a - b) 0.

(** Arithmetic with every width predicate and bound unfolded. *)
Ltac width_unfold :=
  unfold u8, u16, u32, u64, u128, u8_max, u16_max, u32_max, u64_max in *.
Ltac ulia := width_unfold; lia.

(** The next early return of a straight-line body: its error branch is closed,
    the condition's falsity stays as a hypothesis. *)
Ltac pass_guard :=
  match goal with
  | |- context [if ?c then Err _ else _] =>
      let H := fresh "Hg" in destruct c eqn:H; [solve [exact I | discriminate | done]|]
  end.

(** Case analysis on every [if]/[match] of the goal or a hypothesis. *)
Ltac split_ifs :=
  repeat match goal with
  | |- context [if ?b then _ else _] => destruct b eqn:?
  | H : context [if ?b then _ else _] |- _ => destruct b eqn:?
  end; try discriminate; simplify_eq.

Lemma land_lnot_ones a k : 0 <= k -> 0 <= a < 2 ^ k -> Z.land a (Z.lnot (Z.ones k)) = 0.
Proof.
  intros Hk Ha. rewrite <- Z.ldiff_land, Z.ldiff_ones_r by lia.
  rewrite Z.shiftr_div_pow2, Z.div_small by lia. apply Z.shiftl_0_l.
Qed.

Lemma land_bit a k : 0 <= k -> negb (Z.land a (Z.shiftl 1 k) =? 0) = Z.testbit a k.
Proof.
  intros Hk. rewrite Z.shiftl_1_l. destruct (Z.testbit a k) eqn:E.
  - destruct (Z.eqb_spec (Z.land a (2 ^ k)) 0) as [H|]; [|done].
    assert (Z.testbit (Z.land a (2 ^ k)) k = false) as H1 by (rewrite H; apply Z.bits_0).
    by rewrite Z.land_spec, E, Z.pow2_bits_true in H1 by done.
  - apply negb_false_iff, Z.eqb_eq. apply Z.bits_inj'. intros i Hi.
    rewrite Z.land_spec, Z.pow2_bits_eqb, Z.bits_0 by done.
    destruct (Z.eqb_spec k i) as [->|]; [by rewrite E|apply andb_false_r].
Qed.

(** Bits and bounds. *)
Lemma bits_bound n z : 0 <= n -> 0 <= z -> (forall i, n <= i -> Z.testbit z i = false) -> z < 2 ^ n.
Proof.
  intros Hn Hz H. destruct (Z.lt_ge_cases z (2 ^ n)) as [|Hge]; [done|].
  assert (0 < z) by (pose proof (Z.pow_pos_nonneg 2 n ltac:(lia) Hn); lia).
  assert (n <= Z.log2 z) as Hl by by apply Z.log2_le_pow2.
  specialize (H _ Hl). by rewrite Z.bit_log2 in H.
Qed.
Lemma testbit_above z n i : 0 <= z < 2 ^ n -> n <= i -> Z.testbit z i = false.
Proof.
  intros [Hz Hlt] Hi. destruct (decide (z = 0)) as [->|]; [apply Z.bits_0|].
  apply Z.bits_above_log2; [done|]. apply Z.log2_lt_pow2; [lia|].
  eapply Z.lt_le_trans; [exact Hlt|]. by apply Z.pow_le_mono_r.
Qed.
Lemma lor_bound n a b : 0 <= n -> 0 <= a < 2 ^ n -> 0 <= b < 2 ^ n -> 0 <= Z.lor a b < 2 ^ n.
Proof.
  intros Hn Ha Hb. assert (0 <= Z.lor a b) by (apply Z.lor_nonneg; lia). split; [done|].
  apply bits_bound; [done..|]. intros i Hi. rewrite Z.lor_spec.
  by rewrite (testbit_above a n), (testbit_above b n).
Qed.
Lemma land_bound n a b : 0 <= n -> 0 <= a < 2 ^ n -> 0 <= Z.land a b < 2 ^ n.
Proof.
  intros Hn Ha. assert (0 <= Z.land a b) by (apply Z.land_nonneg; lia). split; [done|].
  apply bits_bound; [done..|]. intros i Hi. rewrite Z.land_spec. by rewrite (testbit_above a n).
Qed.
Lemma ldiff_bound n a b : 0 <= n -> 0 <= a < 2 ^ n -> 0 <= Z.ldiff a b < 2 ^ n.
Proof.
  intros Hn Ha. assert (0 <= Z.ldiff a b) by (apply Z.ldiff_nonneg; lia). split; [done|].
  apply bits_bound; [done..|]. intros i Hi. rewrite Z.ldiff_spec. by rewrite (testbit_above a n).
Qed.

(** ** Bytes and slices *)

(** Large offsets are kept in binary. *)
Notation "# n" := (N.to_nat n%N) (at level 1, format "# n") : dh_scope.

Notation bytes := (list Z).
Definition bytes_ok (l : bytes) : Prop := Forall u8 l.

Section lists.
Context {A : Type}.
Implicit Types (l s d : list A) (o n : nat).

(** [l[o..o+n]] when in range. *)
Definition slice (o n : nat) (l : list A) : list A := take n (drop o l).

(** [d[o..o+s.len()].copy_from_slice(s)] when in range. *)
Definition put (o : nat) (s d : list A) : list A :=
  take o d ++ s ++ drop (o + length s) d.

Lemma length_slice o n l : (o + n <= length l)%nat -> length (slice o n l) = n.
Proof. intros. unfold slice. rewrite length_take, length_drop. lia. Qed.

Lemma length_put o s d : (o + length s <= length d)%nat -> length (put o s d) = length d.
Proof. intros. unfold put. rewrite !length_app, length_take, length_drop. lia. Qed.

Lemma slice_put_same o n s d :
  n = length s -> (o + length s <= length d)%nat -> slice o n (put o s d) = s.
Proof.
  intros -> ?. unfold slice, put.
  rewrite drop_app_length' by (rewrite length_take; lia).
  by rewrite take_app_length.
Qed.

Lemma slice_put_ne o n s d o' :
  (o + length s <= length d)%nat -> (o + length s <= o' \/ o' + n <= o)%nat ->
  slice o' n (put o s d) = slice o' n d.
Proof.
  intros Hl Hd. apply list_eq; intros i. unfold slice, put.
  destruct (decide (i < n)%nat) as [Hi|Hi].
  2:{ rewrite !lookup_take_ge by lia. done. }
  rewrite !lookup_take_lt, !lookup_drop by lia.
  destruct Hd as [Hd|Hd].
  - rewrite lookup_app_r by (rewrite length_take; lia).
    rewrite lookup_app_r by (rewrite length_take; lia).
    rewrite lookup_drop, length_take. f_equal. lia.
  - rewrite lookup_app_l by (rewrite length_take; lia).
    by rewrite lookup_take_lt by lia.
Qed.

Lemma slice_replicate o n m (x : A) :
  (o + n <= m)%nat -> slice o n (replicate m x) = replicate n x.
Proof. intros. unfold slice. rewrite drop_replicate, take_replicate. f_equal. lia. Qed.

Lemma slice_app_l o n l l' :
  (o + n <= length l)%nat -> slice o n (l ++ l') = slice o n l.
Proof.
  intros. unfold slice. rewrite drop_app_le by lia.
  rewrite take_app_le; [done|rewrite length_drop; lia].
Qed.

Lemma slice_app_r o n l l' :
  (length l <= o)%nat -> slice o n (l ++ l') = slice (o - length l) n l'.
Proof. intros. unfold slice. by rewrite drop_app_ge by lia. Qed.

Lemma slice_all n l : length l = n -> slice 0 n l = l.
Proof. intros <-. unfold slice. by rewrite drop_0, firstn_all. Qed.

Lemma slice_exact o n s l l' :
  o = length l -> n = length s -> slice o n (l ++ s ++ l') = s.
Proof.
  intros -> ->. unfold slice. by rewrite drop_app_length, take_app_length.
Qed.

Lemma slice_drop o o' n l : slice o n (drop o' l) = slice (o' + o) n l.
Proof. unfold slice. by rewrite drop_drop. Qed.

Lemma slice_slice o n o' n' l :
  (o' + n' <= n)%nat -> slice o' n' (slice o n l) = slice (o + o') n' l.
Proof.
  intros. unfold slice. rewrite skipn_firstn_comm, take_take, drop_drop.
  f_equal. lia.
Qed.

Lemma drop_slice_cons o n l :
  drop o l = slice o n l ++ drop (o + n) l.
Proof. unfold slice. by rewrite <- (take_drop n (drop o l)) at 1; rewrite drop_drop. Qed.

End lists.

Lemma Forall_slice {A} (P : A -> Prop) o n l : Forall P l -> Forall P (slice o n l).
Proof. intros. unfold slice. by apply Forall_take, Forall_drop. Qed.

Lemma Forall_put {A} (P : A -> Prop) o s d : Forall P s -> Forall P d -> Forall P (put o s d).
Proof. intros. unfold put. auto using Forall_app_2, Forall_take, Forall_drop. Qed.

(** ** Little-endian integers *)

(** [to_le_bytes] at a width of [n] bytes. *)
Fixpoint le_bytes (n : nat) (z : Z) : bytes :=
  match n with
  | O => []
  | S n => z mod 256 :: le_bytes n (z / 256)
  end.

(** [from_le_bytes]. *)
Fixpoint of_le (l : bytes) : Z :=
  match l with
  | [] => 0
  | b :: l => b + 256 * of_le l
  end.

Lemma length_le_bytes n z : length (le_bytes n z) = n.
Proof. revert z; induction n; simpl; auto. Qed.

Lemma le_bytes_ok n z : bytes_ok (le_bytes n z).
Proof.
  revert z; induction n; simpl; constructor; [|apply IHn].
  pose proof (Z.mod_pos_bound z 256). ulia.
Qed.

Lemma of_le_bound l : bytes_ok l -> 0 <= of_le l < 256 ^ Z.of_nat (length l).
Proof.
  induction 1 as [|b l Hb Hl IH]; cbn [of_le length]; [lia|].
  rewrite Nat2Z.inj_succ, Z.pow_succ_r by lia. ulia.
Qed.

Lemma of_le_le_bytes n z : 0 <= z < 256 ^ Z.of_nat n -> of_le (le_bytes n z) = z.
Proof.
  revert z; induction n as [|n IH]; intros z Hz; [simpl in *; lia|].
  cbn [le_bytes of_le]. rewrite IH.
  - pose proof (Z.div_mod z 256). lia.
  - rewrite Nat2Z.inj_succ, Z.pow_succ_r in Hz by lia.
    split; [apply Z.div_pos; lia|apply Z.div_lt_upper_bound; lia].
Qed.

Lemma le_bytes_of_le l : bytes_ok l -> le_bytes (length l) (of_le l) = l.
Proof.
  induction 1 as [|b l Hb Hl IH]; [done|].
  cbn [length of_le le_bytes]. unfold u8 in Hb.
  rewrite (Z.mul_comm 256), Z_mod_plus_full, Z.mod_small by lia.
  rewrite Z_div_plus_full, Z.div_small by lia. rewrite Z.add_0_l. by rewrite IH.
Qed.

Lemma of_le_u16 z : u16 z -> of_le (le_bytes 2 z) = z.
Proof. intros. apply of_le_le_bytes. exact H. Qed.
Lemma of_le_u32 z : u32 z -> of_le (le_bytes 4 z) = z.
Proof. intros. apply of_le_le_bytes. exact H. Qed.
Lemma of_le_u64 z : u64 z -> of_le (le_bytes 8 z) = z.
Proof. intros. apply of_le_le_bytes. exact H. Qed.

Lemma of_le_u128 z : u128 z -> of_le (le_bytes 16 z) = z.
Proof. intros. apply of_le_le_bytes. exact H. Qed.

Lemma le_bytes_inj n x y :
  0 <= x < 256 ^ Z.of_nat n -> 0 <= y < 256 ^ Z.of_nat n ->
  le_bytes n x = le_bytes n y -> x = y.
Proof. intros Hx Hy H. rewrite <- (of_le_le_bytes n x), H, of_le_le_bytes; auto. Qed.

Lemma bytes_ok_replicate n : bytes_ok (replicate n 0).
Proof. apply Forall_replicate. ulia. Qed.

(** Byte literals are decided by computation. *)
Definition bytes_okb (l : bytes) : bool := forallb (fun z => (0 <=? z) && (z <? 256)) l.

Lemma bytes_okb_ok l : bytes_okb l = true -> bytes_ok l.
Proof.
  intros H. apply Forall_forall. intros x Hx.
  unfold bytes_okb in H. rewrite forallb_forall in H. apply list_elem_of_In in Hx.
  specialize (H x Hx). ulia.
Qed.

(** Zero padding to the next multiple of eight. *)
Definition pad_len (payload_len : nat) : nat := (8 - payload_len mod 8) mod 8.

#[global] Arguments pad_len : simpl never.

Lemma pad_len_lt n : (pad_len n < 8)%nat.
Proof. unfold pad_len. apply Nat.mod_upper_bound. lia. Qed.

Lemma pad_len_Z n : Z.of_nat (pad_len n) = (8 - Z.of_nat n mod 8) mod 8.
Proof.
  unfold pad_len. pose proof (Nat.mod_upper_bound n 8).
  rewrite Nat2Z.inj_mod, Nat2Z.inj_sub, Nat2Z.inj_mod by lia. done.
Qed.

Lemma of_le_single x : of_le [x] = x.
Proof. simpl. lia. Qed.

Lemma existsb_nonzero_replicate n : existsb (fun x => negb (x =? 0)) (replicate n 0) = false.
Proof. induction n; auto. Qed.
Lemma existsb_nonzero_false l :
  existsb (fun x => negb (x =? 0)) l = false -> l = replicate (length l) 0.
Proof.
  induction l as [|x l IH]; [done|]. simpl. intros [H1 H2]%orb_false_iff.
  f_equal; [lia|auto].
Qed.

Lemma le_bytes_slice o n b :
  bytes_ok b -> (o + n <= length b)%nat -> le_bytes n (of_le (slice o n b)) = slice o n b.
Proof.
  intros Hb Hl. rewrite <- (length_slice o n b Hl) at 1.
  apply le_bytes_of_le. by apply Forall_slice.
Qed.

Lemma of_le_slice_bound o n b :
  bytes_ok b -> (o + n <= length b)%nat -> 0 <= of_le (slice o n b) < 256 ^ Z.of_nat n.
Proof.
  intros Hb Hl. pose proof (of_le_bound (slice o n b) (Forall_slice _ _ _ _ Hb)) as H.
  by rewrite length_slice in H by done.
Qed.

Lemma to_u16_small z : u16 z -> to_u16 z = z.
Proof. intros. unfold to_u16. apply Z.mod_small. exact H. Qed.
Lemma to_u32_small z : u32 z -> to_u32 z = z.
Proof. intros. unfold to_u32. apply Z.mod_small. exact H. Qed.

(** Sized little-endian reads at an offset; [Panic] where Rust's slice
    indexing panics. *)
Definition read_le {E} (n o : nat) (b : bytes) : outcome E Z :=
  if (o + n <=? length b)%nat then Ok (of_le (slice o n b)) else Panic.
Definition read_bytes {E} (n o : nat) (b : bytes) : outcome E bytes :=
  if (o + n <=? length b)%nat then Ok (slice o n b) else Panic.

Lemma read_le_ok {E} n o b :
  (o + n <= length b)%nat -> @read_le E n o b = Ok (of_le (slice o n b)).
Proof. intros. unfold read_le. by rewrite (proj2 (Nat.leb_le _ _) H). Qed.
Lemma read_bytes_ok {E} n o b :
  (o + n <= length b)%nat -> @read_bytes E n o b = Ok (slice o n b).
Proof. intros. unfold read_bytes. by rewrite (proj2 (Nat.leb_le _ _) H). Qed.

(** Fixed-size byte arrays, as the digests and seeds of the source. *)
Definition array (n : nat) (b : bytes) : Prop := length b = n /\ bytes_ok b.

(** ** BLAKE3

    The hash function is a dependency of the program: a parameter of every
    definition that hashes.  What the code relies on is its output size (it
    stores the digest in [[u8; 32]] fields). *)
Class Blake3 := blake3 : bytes -> bytes.
Class Blake3Spec (B : Blake3) : Prop := {
  length_blake3 : forall b, length (blake3 b) = 32%nat;
  blake3_ok : forall b, bytes_ok (blake3 b);
}.

(** A concrete 32-byte function, to evaluate the definitions on examples. *)
Definition example_hash : Blake3 :=
  fun b => le_bytes 32 (foldl (fun a x => (a * 31 + x) mod 2 ^ 256) 7 b).
Lemma example_hash_spec : Blake3Spec example_hash.
Proof. split; intros; [apply length_le_bytes|apply le_bytes_ok]. Qed.

(** ** Hint databases and the layout tactics *)
Create HintDb dh.
#[export] Hint Resolve le_bytes_ok bytes_ok_replicate Forall_slice Forall_put
  Forall_app_2 Forall_take Forall_drop : dh.

(** Lengths of the pieces a layout is made of. *)
Ltac len_rw :=
  repeat first
    [ rewrite length_le_bytes | rewrite length_replicate
    | rewrite length_app | rewrite length_take | rewrite length_drop
    | rewrite length_slice | rewrite length_blake3
    | match goal with H : length ?x = _ |- context [length ?x] => rewrite H end ];
  cbn [length].
Ltac len_lia := len_rw; try lia.

(** Stores into a buffer of at least [N] bytes, with every side condition a
    closed boolean: [b] is [d] after storing the [m] bytes [s] at [o]. *)
Section put_steps.
Context {A : Type} (N : nat).
Implicit Types (b d s : list A).

Lemma put_length {b o s d} m :
  b = put o s d -> (N <= length d)%nat -> length s = m -> (o + m <=? N)%nat = true ->
  (N <= length b)%nat.
Proof. intros -> ? ? ?. rewrite length_put; lia. Qed.

Lemma slice_at_put {b o s d} m :
  b = put o s d -> (N <= length d)%nat -> length s = m -> (o + m <=? N)%nat = true ->
  slice o m b = s.
Proof. intros -> ? ? ?. apply slice_put_same; lia. Qed.

Lemma slice_past_put {b o s d} m o' n :
  b = put o s d -> (N <= length d)%nat -> length s = m -> (o + m <=? N)%nat = true ->
  (o + m <=? o')%nat || (o' + n <=? o)%nat = true -> slice o' n b = slice o' n d.
Proof. intros -> ? ? ? ?. apply slice_put_ne; lia. Qed.

Lemma drop_past_put {b o s d} m k :
  b = put o s d -> (N <= length d)%nat -> length s = m -> (o + m <=? N)%nat = true ->
  (o + m <=? k)%nat = true -> drop k b = drop k d.
Proof.
  intros -> ? ? ? Hk. apply list_eq; intros i. rewrite !lookup_drop. unfold put.
  rewrite lookup_app_r by (rewrite length_take; lia).
  rewrite lookup_app_r by (rewrite length_take; lia).
  rewrite lookup_drop, length_take. f_equal. lia.
Qed.
End put_steps.

(** [name_puts N] names every store of a chain of [put]s, innermost first;
    [walk_puts] then resolves reads of slices through the chain. *)
Ltac solve_length :=
  first [eassumption | apply length_le_bytes | apply length_blake3 | apply length_replicate
        | match goal with |- length ?s = _ =>
            let m := eval vm_compute in (length s) in exact (@eq_refl nat m) end].

Ltac name_puts N :=
  repeat match goal with
  | |- context [put ?o ?s ?d] =>
      lazymatch d with
      | context [put _ _ _] => fail
      | _ =>
          let b := fresh "b" in let E := fresh "E" in let S := fresh "S" in
          remember (put o s d) as b eqn:E;
          eassert (length s = _) as S by solve_length;
          let L := fresh "L" in
          assert (N <= length d)%nat as L by (first [eassumption|len_lia]);
          assert (N <= length b)%nat by (eapply (put_length N _ E); [exact L|exact S|reflexivity])
      end
  end.

(** The facts [name_puts] left about the buffer [b], passed to [k]. *)
Ltac with_put b k :=
  match goal with
  | E : b = put ?o ?s ?d |- _ =>
      lazymatch goal with S : length s = ?m |- _ =>
        match goal with L : (?N <= length d)%nat |- _ => k N m E L S end
      end
  end.

(** Prove [slice o n b = ?x] or [drop k b = ?x] by walking down the stores. *)
Ltac walk_eq :=
  lazymatch goal with
  | |- slice ?o ?n ?b = _ =>
      first
        [ with_put b ltac:(fun N m E L S => exact (slice_at_put N m E L S eq_refl))
        | with_put b ltac:(fun N m E L S =>
            refine (eq_trans (slice_past_put N m o n E L S eq_refl eq_refl) _)); walk_eq
        | apply slice_replicate; lia
        | reflexivity ]
  | |- drop ?k ?b = _ =>
      first
        [ with_put b ltac:(fun N m E L S =>
            refine (eq_trans (drop_past_put N m k E L S eq_refl eq_refl) _)); walk_eq
        | reflexivity ]
  end.

Ltac walk_puts :=
  repeat match goal with
  | |- context [slice ?o ?n ?b] =>
      is_var b; let H := fresh in eassert (slice o n b = _) as H by walk_eq;
      progress rewrite H; clear H
  | |- context [drop ?k ?b] =>
      is_var b; let H := fresh in eassert (drop k b = _) as H by walk_eq;
      progress rewrite H; clear H
  end.

(** A store at the end of the written prefix of a zeroed buffer. *)
Lemma put_next o (pre s : bytes) n :
  o = length pre -> (length s <= n)%nat ->
  put o s (pre ++ replicate n 0) = (pre ++ s) ++ replicate (n - length s) 0.
Proof.
  intros -> Hn. unfold put. rewrite take_app_length, drop_app_ge by lia.
  rewrite Nat.add_comm, Nat.add_sub, drop_replicate. by rewrite <- app_assoc.
Qed.

(** Lengths through stores into buffers of known size. *)
Ltac put_len :=
  first [lia | reflexivity | rewrite length_put by put_len; put_len | progress len_rw; put_len].

(** Decide the comparisons of closed numbers that select a branch. *)
Ltac pick_branch :=
  repeat match goal with
  | |- context [if ?c then _ else _] =>
      lazymatch c with context [length _] => fail | _ => idtac end;
      let v := eval vm_compute in c in
      lazymatch v with true => idtac | false => idtac end;
      change c with v; cbv iota
  end.

(** Resolve the sized reads of a parser whose bounds are in the context. *)
Ltac reads :=
  repeat (first [rewrite read_le_ok by (repeat len_lia) | rewrite read_bytes_ok by (repeat len_lia)];
          cbn [mbind outcome_bind]).

(** ** Programs over a shared world

    Code that drives the vCPU: it passes a state [S] along, may fail with an
    error of [E], may panic, and [None] stands for a loop still running when its
    fuel is spent. *)

Definition prog (S E A : Type) : Type := S -> option (outcome E A * S).

Section prog.
Context {S E F : Type}.

Definition throw {A} (e : E) : prog S E A := fun s => Some (Err e, s).
Definition crash {A} : prog S E A := fun s => Some (Panic, s).
Definition spin {A} : prog S E A := fun _ => None.
(** A call that changes the world, and one that only observes it. *)
Definition io {A} (f : S -> outcome E A * S) : prog S E A := fun s => Some (f s).
Definition observe {A} (f : S -> outcome E A) : prog S E A := fun s => Some (f s, s).
Definition pass : prog S E unit := fun s => Some (Ok tt, s).
Definition modify (f : S -> S) : prog S E unit := fun s => Some (Ok tt, f s).

(** [Result::map_err] at a call site. *)
Definition err_map {E E' A} (f : E -> E') (o : outcome E A) : outcome E' A :=
  match o with Ok a => Ok a | Err e => Err (f e) | Panic => Panic end.
Definition map_err {A} (f : E -> F) (m : prog S E A) : prog S F A := fun s =>
  match m s with Some (o, s) => Some (err_map f o, s) | None => None end.
(** The [Result] of a call as a value: a call whose error is matched on, not
    propagated with [?]. *)
Definition reify {A} (m : prog S E A) : prog S F (outcome E A) := fun s =>
  match m s with
  | Some (Panic, s) => Some (Panic, s)
  | Some (o, s) => Some (Ok o, s)
  | None => None
  end.
(** A [Result] value as the outcome of the call. *)
Definition of_outcome {A} (o : outcome E A) : prog S E A := fun s => Some (o, s).
End prog.

#[export] Instance prog_ret {S E} : MRet (prog S E) := fun _ a s => Some (Ok a, s).
#[export] Instance prog_bind {S E} : MBind (prog S E) := fun _ _ k m s =>
  match m s with
  | Some (Ok a, s) => k a s
  | Some (Err e, s) => Some (Err e, s)
  | Some (Panic, s) => Some (Panic, s)
  | None => None
  end.

Lemma prog_bind_ok {S E A B} (m : prog S E A) (k : A -> prog S E B) s a s' :
  m s = Some (Ok a, s') -> (m ≫= k) s = k a s'.
Proof. intros H. unfold mbind, prog_bind. by rewrite H. Qed.
Lemma prog_bind_err {S E A B} (m : prog S E A) (k : A -> prog S E B) s e s' :
  m s = Some (Err e, s') -> (m ≫= k) s = Some (Err e, s').
Proof. intros H. unfold mbind, prog_bind. by rewrite H. Qed.
Lemma map_err_ok {S E F A} (f : E -> F) (m : prog S E A) s a s' :
  m s = Some (Ok a, s') -> map_err f m s = Some (Ok a, s').
Proof. intros H. unfold map_err. by rewrite H. Qed.
Lemma prog_bind_inv {S E A B} (m : prog S E A) (k : A -> prog S E B) s o s' :
  (m ≫= k) s = Some (o, s') ->
  (exists a s1, m s = Some (Ok a, s1) /\ k a s1 = Some (o, s')) \/
  (exists e, m s = Some (Err e, s') /\ o = Err e) \/ (m s = Some (Panic, s') /\ o = Panic).
Proof.
  unfold mbind, prog_bind. destruct (m s) as [[[a|e|] s1]|]; [|intros [= <- <-]..|done]; eauto.
Qed.

(** [triple P m Q X]: from a world in [P], [m] returns only in [Q] and fails
    only in [X]; nothing is said of panics and of unfinished loops. *)
Section triple.
Context {S E : Type}.
Implicit Types (P : S -> Prop) (X : E -> S -> Prop).

Definition triple {A} P (m : prog S E A) (Q : A -> S -> Prop) X : Prop := forall s, P s ->
  match m s with
  | Some (Ok a, s') => Q a s'
  | Some (Err e, s') => X e s'
  | _ => True
  end.

Lemma triple_ret {A} P (a : A) Q X : (forall s, P s -> Q a s) -> triple P (mret a) Q X.
Proof. intros H s Hs. by apply H. Qed.
Lemma triple_bind {A B} P (m : prog S E A) (k : A -> prog S E B) R Q X :
  triple P m R X -> (forall a, triple (R a) (k a) Q X) -> triple P (m ≫= k) Q X.
Proof.
  intros Hm Hk s Hs. specialize (Hm s Hs). unfold mbind, prog_bind.
  destruct (m s) as [[[a|e|] s']|]; try done. by apply Hk.
Qed.
Lemma triple_pre {A} P P' (m : prog S E A) Q X :
  triple P' m Q X -> (forall s, P s -> P' s) -> triple P m Q X.
Proof. intros H HP s Hs. apply H; auto. Qed.
End triple.
