(* ===== verification/BTree.v ===== *)
(** * Ordered maps: [std::collections::BTreeMap]

    An ordered map with integer keys is the list of its entries in ascending key
    order, which is the order every iteration of the source sees. *)

From stdpp Require Import sorting.
From S2P Require Import Prelude.

Notation btree V := (list (Z * V)).

Section BTree.
Context {V : Type}.
Implicit Types (l : btree V) (k : Z) (v : V).

Definition bt_sorted l : Prop := StronglySorted Z.lt l.*1.

Fixpoint bt_get k l : option V :=
  match l with
  | [] => None
  | (k', v) :: l => if k =? k' then Some v else bt_get k l
  end.

Fixpoint bt_insert k v l : btree V :=
  match l with
  | [] => [(k, v)]
  | (k', v') :: l =>
      if k =? k' then (k, v) :: l else if k <? k' then (k, v) :: (k', v') :: l else (k', v') :: bt_insert k v l
  end.

Fixpoint bt_remove k l : btree V :=
  match l with
  | [] => []
  | (k', v') :: l => if k =? k' then l else (k', v') :: bt_remove k l
  end.

(** [keys().next_back()] *)
Definition bt_last_key l : option Z := last l.*1.

Lemma bt_sorted_cons k v l : bt_sorted ((k, v) :: l) <-> bt_sorted l /\ Forall (Z.lt k) l.*1.
Proof. unfold bt_sorted. cbn. split; [by intros [? ?]%StronglySorted_inv|intros [? ?]; by constructor]. Qed.

Lemma bt_keys_insert k v l x : x ∈ (bt_insert k v l).*1 <-> x = k \/ x ∈ l.*1.
Proof.
  induction l as [|[k' v'] l IH]; cbn; [set_solver|].
  destruct (Z.eqb_spec k k') as [->|]; cbn; [set_solver|]. destruct (k <? k'); cbn; [set_solver|].
  rewrite !elem_of_cons, IH. tauto.
Qed.

Lemma bt_keys_remove k l x : x ∈ (bt_remove k l).*1 -> x ∈ l.*1.
Proof.
  induction l as [|[k' v'] l IH]; cbn; [done|]. destruct (k =? k'); cbn; [set_solver|].
  rewrite !elem_of_cons. tauto.
Qed.

Lemma bt_insert_sorted k v l : bt_sorted l -> bt_sorted (bt_insert k v l).
Proof.
  induction l as [|[k' v'] l IH]; cbn; [intros _; repeat constructor|]. rewrite bt_sorted_cons. intros [Hs Hf].
  destruct (Z.eqb_spec k k') as [->|Hne]; [by rewrite bt_sorted_cons|].
  destruct (Z.ltb_spec k k') as [Hlt|Hge]; rewrite !bt_sorted_cons; cbn.
  - split; [done|]. constructor; [done|]. eapply Forall_impl; [exact Hf|]. cbn. lia.
  - split; [auto|]. rewrite Forall_forall in Hf |- *. intros x [->|Hx]%bt_keys_insert; [lia|]. by apply Hf.
Qed.

Lemma bt_remove_sorted k l : bt_sorted l -> bt_sorted (bt_remove k l).
Proof.
  induction l as [|[k' v'] l IH]; cbn; [done|]. rewrite bt_sorted_cons. intros [Hs Hf].
  destruct (k =? k'); [done|]. rewrite bt_sorted_cons. split; [auto|].
  rewrite Forall_forall in Hf |- *. intros x Hx%bt_keys_remove. by apply Hf.
Qed.

Lemma bt_get_insert k v l x : bt_get x (bt_insert k v l) = if x =? k then Some v else bt_get x l.
Proof.
  induction l as [|[k' v'] l IH]; cbn; [done|].
  destruct (Z.eqb_spec k k') as [->|Hne]; cbn; [by destruct (x =? k')|].
  destruct (k <? k'); cbn; [done|]. rewrite IH.
  destruct (Z.eqb_spec x k'), (Z.eqb_spec x k); congruence.
Qed.

Lemma bt_get_key k l : bt_get k l <> None <-> k ∈ l.*1.
Proof.
  induction l as [|[k' v'] l IH]; cbn; [set_solver|]. rewrite elem_of_cons.
  destruct (Z.eqb_spec k k') as [->|]; [split; [auto|done]|]. rewrite IH. tauto.
Qed.

Lemma bt_get_remove k l x : bt_sorted l -> bt_get x (bt_remove k l) = if x =? k then None else bt_get x l.
Proof.
  induction l as [|[k' v'] l IH]; cbn; [by destruct (x =? k)|]. rewrite bt_sorted_cons. intros [Hs Hf].
  destruct (Z.eqb_spec k k') as [->|Hne]; cbn.
  - destruct (Z.eqb_spec x k') as [Hx|]; [|done]. rewrite Hx in *.
    destruct (bt_get k' l) eqn:E; [|done]. exfalso. rewrite Forall_forall in Hf.
    assert (k' ∈ l.*1) as Hin%Hf by (apply bt_get_key; by rewrite E). lia.
  - rewrite IH by done. destruct (Z.eqb_spec x k'), (Z.eqb_spec x k); congruence.
Qed.

Lemma bt_insert_last k v l : Forall (fun x => x < k) l.*1 -> bt_insert k v l = l ++ [(k, v)].
Proof.
  induction l as [|[k' v'] l IH]; cbn; [done|]. intros [Hk Hf]%Forall_cons.
  destruct (Z.eqb_spec k k'); [lia|]. destruct (Z.ltb_spec k k'); [lia|]. by rewrite IH.
Qed.

Lemma bt_sorted_snoc l k v : bt_sorted (l ++ [(k, v)]) <-> bt_sorted l /\ Forall (fun x => x < k) l.*1.
Proof.
  induction l as [|[k' v'] l IH]; cbn [app].
  - split; [intros _; split; [constructor|done]|intros _; repeat constructor].
  - rewrite !bt_sorted_cons, IH, fmap_app, Forall_app. cbn. rewrite !Forall_cons. naive_solver.
Qed.

(** The last key is the greatest. *)
Lemma bt_last_key_max l k : bt_sorted l -> bt_last_key l = Some k -> k ∈ l.*1 /\ Forall (fun x => x <= k) l.*1.
Proof.
  unfold bt_last_key. intros Hs Hl. apply last_Some in Hl as [ks Hl]. unfold bt_sorted in Hs. rewrite Hl in Hs |- *.
  split; [set_solver|]. apply Forall_app. split; [|constructor; [lia|done]].
  apply StronglySorted_app in Hs as (H & _ & _). rewrite Forall_forall. intros x Hx.
  assert (x < k) by (apply H; set_solver). lia.
Qed.
End BTree.
