(* ===== verification/Hex.v ===== *)
(** * Hexadecimal text

    The lower-case encoding of bytes that file names, messages and log lines
    share ([hex32], [lowercase_hex], [cache_key]). *)

From Stdlib Require Import String Ascii.
From S2P Require Import Prelude.

Definition hex_digit (z : Z) : ascii := ascii_of_N (Z.to_N (if z <? 10 then 48 + z else 87 + z)).
Definition hex_string (b : bytes) : string :=
  foldr (fun z s => String (hex_digit (z / 16)) (String (hex_digit (z mod 16)) s)) EmptyString b.

Lemma hex_digit_inj a b : 0 <= a < 16 -> 0 <= b < 16 -> hex_digit a = hex_digit b -> a = b.
Proof.
  intros Ha Hb H. apply (f_equal N_of_ascii) in H. unfold hex_digit in H. rewrite !N_ascii_embedding in H by (split_ifs; lia).
  revert H. split_ifs; lia.
Qed.
(** Distinct byte strings have distinct encodings. *)
Lemma hex_string_inj a b : bytes_ok a -> bytes_ok b -> hex_string a = hex_string b -> a = b.
Proof.
  intros Ha. revert b. induction Ha as [|x a Hx Ha IH]; intros [|y b] Hb H; try done.
  apply Forall_cons in Hb as [Hy Hb]. unfold u8 in *. cbn [hex_string foldr] in H. injection H as H1 H2 H3.
  apply hex_digit_inj in H1; [|split; [apply Z.div_pos; lia|apply Z.div_lt_upper_bound; lia]..].
  apply hex_digit_inj in H2; [|apply Z.mod_pos_bound; lia..].
  f_equal; [|by apply IH]. rewrite (Z.div_mod x 16), (Z.div_mod y 16) by lia. congruence.
Qed.
