(* ===== verification/Vt.v ===== *)
(** * Virtual time: [dh-vmm/src/vt.rs]

    The per-VM clock rational and its two conversions.  Products are taken in
    u128 in the source; the bound lemmas show that they fit, so [Z] products are
    the same numbers. *)

From S2P Require Import Prelude.

Record ClockRatio := mkClockRatio { clock_num : Z; clock_den : Z }.

#[export] Instance ClockRatio_eq_dec : EqDecision ClockRatio.
Proof. solve_decision. Defined.

Definition ClockRatio_default : ClockRatio := mkClockRatio 1 1.

(** [ClockRatio::new]: both terms nonzero. *)
Definition ClockRatio_new (num den : Z) : option ClockRatio :=
  if negb (num =? 0) && negb (den =? 0) then Some (mkClockRatio num den) else None.

(** [vns = icount * num / den]; [None] when the quotient exceeds u64. *)
Definition vns_from_icount (r : ClockRatio) (icount : Z) : option Z :=
  try_u64 (icount * clock_num r / clock_den r).

(** [u128::div_ceil]. *)
Definition div_ceil (a b : Z) : Z := a / b + (if a mod b >? 0 then 1 else 0).

Definition icount_for_vns_target (r : ClockRatio) (target_vns : Z) : option Z :=
  try_u64 (div_ceil (target_vns * clock_den r) (clock_num r)).

(** The type invariant [ClockRatio::new] establishes: nonzero u32 terms. *)
Definition ratio_wf (r : ClockRatio) : Prop :=
  0 < clock_num r < 2 ^ 32 /\ 0 < clock_den r < 2 ^ 32.

Lemma ClockRatio_new_spec num den r :
  u32 num -> u32 den ->
  ClockRatio_new num den = Some r <-> r = mkClockRatio num den /\ ratio_wf r.
Proof.
  intros. unfold ClockRatio_new, ratio_wf. split_ifs.
  - split; [intros [= <-]; simpl; split_and!; [done|ulia..]|naive_solver].
  - split; [done|intros [-> ?]; simpl in *; ulia].
Qed.

Lemma try_u64_Some z v : try_u64 z = Some v <-> v = z /\ z <= u64_max.
Proof. unfold try_u64. split_ifs; split; try naive_solver lia. Qed.

Lemma try_u64_None z : try_u64 z = None <-> u64_max < z.
Proof. unfold try_u64. split_ifs; split; try naive_solver lia. Qed.

(** [div_ceil] is the ceiling: the least multiplier that covers [a]. *)
Lemma div_ceil_spec a b j : 0 <= a -> 0 < b -> a <= j * b <-> div_ceil a b <= j.
Proof.
  intros Ha Hb. unfold div_ceil.
  pose proof (Z.div_mod a b). pose proof (Z.mod_pos_bound a b).
  split_ifs; split; intros; nia.
Qed.

Lemma le_div_iff t a b : 0 < b -> t <= a / b <-> t * b <= a.
Proof.
  intros. split; intros.
  - pose proof (Z.mul_div_le a b). nia.
  - apply Z.div_le_lower_bound; lia.
Qed.

(** The u128 intermediates of both conversions never overflow. *)
Lemma vt_products_fit_u128 r x :
  ratio_wf r -> u64 x -> x * clock_num r < 2 ^ 128 /\ x * clock_den r < 2 ^ 128.
Proof. unfold ratio_wf. intros. ulia || (width_unfold; nia). Qed.

(** Timer conversion is exact.  The icount [icount_for_vns_target]
    computes for a deadline is the smallest icount whose virtual time reaches
    the deadline: an icount [j] has reached it precisely when [i <= j]. *)
Theorem icount_for_vns_target_least r t i j v :
  ratio_wf r -> u64 t -> u64 j ->
  icount_for_vns_target r t = Some i ->
  vns_from_icount r j = Some v ->
  t <= v <-> i <= j.
Proof.
  intros [Hn Hd] Ht Hj Hi Hv. unfold icount_for_vns_target, vns_from_icount in *.
  apply try_u64_Some in Hi as [-> _]. apply try_u64_Some in Hv as [-> _].
  rewrite le_div_iff by lia. rewrite div_ceil_spec by ulia. done.
Qed.

Lemma icount_for_vns_target_least_witness :
  (10 <= 12 <-> 4 <= 4) /\ icount_for_vns_target (mkClockRatio 3 1) 10 = Some 4.
Proof.
  split; [|reflexivity].
  apply (icount_for_vns_target_least (mkClockRatio 3 1) 10 4 4 12);
    try reflexivity; unfold ratio_wf; simpl; ulia.
Defined.

(** Virtual time is monotone in the instruction count, and a result is
    refused exactly when the true quotient does not fit u64 (never saturated). *)
Theorem vns_from_icount_monotone r i j :
  ratio_wf r -> 0 <= i <= j ->
  match vns_from_icount r i, vns_from_icount r j with
  | Some v, Some w => v <= w /\ u64 v /\ u64 w
  | None, Some _ => False
  | _, None => u64_max < j * clock_num r / clock_den r
  end.
Proof.
  intros [Hn Hd] Hij. unfold vns_from_icount.
  assert (i * clock_num r / clock_den r <= j * clock_num r / clock_den r)
    by (apply Z.div_le_mono; nia).
  assert (0 <= i * clock_num r / clock_den r) by (apply Z.div_pos; nia).
  unfold try_u64. split_ifs; ulia.
Qed.

Lemma vns_from_icount_monotone_witness :
  match vns_from_icount (mkClockRatio 3 2) 5, vns_from_icount (mkClockRatio 3 2) 6 with
  | Some v, Some w => v <= w /\ u64 v /\ u64 w
  | None, Some _ => False
  | _, None => u64_max < 6 * clock_num (mkClockRatio 3 2) / clock_den (mkClockRatio 3 2)
  end.
Proof.
  apply (vns_from_icount_monotone (mkClockRatio 3 2) 5 6);
    [unfold ratio_wf; simpl; lia|lia].
Defined.
