(* ===== verification/DhiLog.v ===== *)
(** * DHILOG writer: [dh-inputlog/src/dhilog.rs]

    The append-only input-log writer.  [LogWriter] carries the byte image as the
    source does; every method is a [method LogWriter WriteError unit], the state
    returned beside the outcome.  [repr] relates a writer to the abstract list
    of records it has accepted, and the lemmas of the last section show that
    every call appends exactly one record to that list or leaves the writer
    untouched. *)

From S2P Require Import Prelude.

Definition FORMAT_VERSION : Z := 0x0100.
Definition HEADER_LEN : nat := #256.
Definition MAX_PAYLOAD : Z := 4096.
Definition MAX_DEV_EVENT_DATA : Z := MAX_PAYLOAD - 8.
Definition FLAG_SEALED : Z := Z.shiftl 1 0.
Definition FLAG_HAS_AUX : Z := Z.shiftl 1 1.
Definition FLAG_EPOCH_HASHES : Z := Z.shiftl 1 2.
Definition KIND_PAD_SET : Z := 0x01.
Definition KIND_DEV_EVENT : Z := 0x02.
Definition KIND_NET_RX : Z := 0x03.
Definition KIND_ENTROPY : Z := 0x40.
Definition KIND_TIMER_FIRE : Z := 0x41.
Definition KIND_EPOCH_HASH : Z := 0x42.
Definition KIND_SDK_EVENT : Z := 0x43.
Definition KIND_NET_TX : Z := 0x44.
Definition KIND_FRAME_MARK : Z := 0x45.
Definition KIND_BISECTION_CHECKPOINT : Z := 0x46.
Definition KIND_END : Z := 0x7F.
Definition MAX_NET_RX_FRAME : Z := 2048.
Definition BISECTION_CHECKPOINT_FORMAT_VERSION : Z := 1.
Definition BISECTION_CHECKPOINT_FLAGS : Z := 0.
Definition BISECTION_CHECKPOINT_PAYLOAD_LEN : nat := 56.
Definition RFLAG_AUX : Z := Z.shiftl 1 0.
Definition DEVICE_ID_DETCHANNEL : Z := 0x0001.
Definition EVENT_PIO_ANSWER : Z := 0x0003.
(** [b"DHILOG"]. *)
Definition DHILOG_MAGIC : bytes := [68; 72; 73; 76; 79; 71].

Record SegmentHeader := mkSegmentHeader {
  sh_base_snapshot_id : bytes;
  sh_entropy_seed : bytes;
  sh_machine_config_hash : bytes;
  sh_clock_num : Z;
  sh_clock_den : Z;
  sh_encoder_fingerprint : Z;
}.

Record SealParams := mkSealParams {
  sp_end_snapshot_id : bytes;
  sp_end_icount : Z;
  sp_end_vns : Z;
  sp_end_state_hash : bytes;
  sp_stop_reason : Z;
}.

Inductive WriteError := PayloadTooLong | IcountRegressed | SeqOverflow | EmptyNetRx.

Record LogWriter := mkLogWriter {
  buf : bytes;
  header : SegmentHeader;
  record_count : Z;
  last_icount : Z;
  has_aux : bool;
  wrote_epoch_hash : bool;
}.

Definition LogWriter_new (h : SegmentHeader) : LogWriter :=
  {| buf := replicate HEADER_LEN 0; header := h; record_count := 0;
     last_icount := 0; has_aux := false; wrote_epoch_hash := false |}.

(** [LogWriter::record]: the three checks in source order, then the framing. *)
Definition record (kind rflags icount boundary_rip : Z) (payload : bytes)
    : method LogWriter WriteError unit := fun w =>
  if Z.of_nat (length payload) >? MAX_PAYLOAD then (Err PayloadTooLong, w)
  else if (record_count w >? 0) && (icount <? last_icount w) then (Err IcountRegressed, w)
  else match try_u32 (record_count w) with
  | None => (Err SeqOverflow, w)
  | Some seq =>
      let b := buf w ++ [kind] in
      let b := b ++ [rflags] in
      let b := b ++ le_bytes 2 (to_u16 (Z.of_nat (length payload))) in
      let b := b ++ le_bytes 4 seq in
      let b := b ++ le_bytes 8 icount in
      let b := b ++ le_bytes 8 boundary_rip in
      let b := b ++ payload in
      let b := b ++ take (pad_len (length payload)) (replicate 8 0) in
      (Ok tt,
       {| buf := b; header := header w; record_count := record_count w + 1;
          last_icount := icount;
          has_aux := if negb (Z.land rflags RFLAG_AUX =? 0) then true else has_aux w;
          wrote_epoch_hash := wrote_epoch_hash w |})
  end.

Definition pad_set (icount boundary_rip port buttons frame_hint : Z) :=
  let payload := replicate 12 0 in
  let payload := put 0 [port] payload in
  let payload := put 4 (le_bytes 4 buttons) payload in
  let payload := put 8 (le_bytes 4 frame_hint) payload in
  record KIND_PAD_SET 0 icount boundary_rip payload.

Definition dev_event (icount boundary_rip device_id event_type : Z) (data : bytes)
    : method LogWriter WriteError unit := fun w =>
  if Z.of_nat (length data) >? MAX_DEV_EVENT_DATA then (Err PayloadTooLong, w)
  else
    let data_len := to_u32 (Z.of_nat (length data)) in
    let payload := le_bytes 2 device_id in
    let payload := payload ++ le_bytes 2 event_type in
    let payload := payload ++ le_bytes 4 data_len in
    let payload := payload ++ data in
    record KIND_DEV_EVENT 0 icount boundary_rip payload w.

Definition net_rx (icount boundary_rip : Z) (frame : bytes)
    : method LogWriter WriteError unit := fun w =>
  if (length frame =? 0)%nat then (Err EmptyNetRx, w)
  else if Z.of_nat (length frame) >? MAX_NET_RX_FRAME then (Err PayloadTooLong, w)
  else record KIND_NET_RX 0 icount boundary_rip frame w.

Definition pio_answer (icount boundary_rip port value : Z) :=
  let data := replicate 8 0 in
  let data := put 0 (le_bytes 2 port) data in
  let data := put 4 (le_bytes 4 value) data in
  dev_event icount boundary_rip DEVICE_ID_DETCHANNEL EVENT_PIO_ANSWER data.

Definition entropy (icount boundary_rip len digest8 : Z) :=
  let payload := replicate 16 0 in
  let payload := put 0 (le_bytes 4 len) payload in
  let payload := put 8 (le_bytes 8 digest8) payload in
  record KIND_ENTROPY RFLAG_AUX icount boundary_rip payload.

Definition net_tx (icount boundary_rip len digest8 : Z) :=
  let payload := replicate 16 0 in
  let payload := put 0 (le_bytes 4 len) payload in
  let payload := put 8 (le_bytes 8 digest8) payload in
  record KIND_NET_TX RFLAG_AUX icount boundary_rip payload.

Definition epoch_hash (icount boundary_rip epoch_index : Z) (chain_value : bytes)
    : method LogWriter WriteError unit := fun w =>
  let payload := replicate 40 0 in
  let payload := put 0 (le_bytes 8 epoch_index) payload in
  let payload := put 8 chain_value payload in
  match record KIND_EPOCH_HASH RFLAG_AUX icount boundary_rip payload w with
  | (Ok _, w) =>
      (Ok tt, {| buf := buf w; header := header w; record_count := record_count w;
                 last_icount := last_icount w; has_aux := has_aux w;
                 wrote_epoch_hash := true |})
  | r => r
  end.

Definition timer_fire (icount boundary_rip vector armed_deadline_vns delivered_icount : Z) :=
  let payload := replicate 20 0 in
  let payload := put 0 [vector] payload in
  let payload := put 4 (le_bytes 8 armed_deadline_vns) payload in
  let payload := put 12 (le_bytes 8 delivered_icount) payload in
  record KIND_TIMER_FIRE RFLAG_AUX icount boundary_rip payload.

Definition sdk_event (icount boundary_rip stream len digest8 : Z) :=
  let payload := replicate 16 0 in
  let payload := put 0 (le_bytes 2 stream) payload in
  let payload := put 4 (le_bytes 4 len) payload in
  let payload := put 8 (le_bytes 8 digest8) payload in
  record KIND_SDK_EVENT RFLAG_AUX icount boundary_rip payload.

Definition frame_mark (icount boundary_rip frame_index : Z) :=
  let payload := replicate 8 0 in
  let payload := put 0 (le_bytes 4 frame_index) payload in
  record KIND_FRAME_MARK RFLAG_AUX icount boundary_rip payload.

Definition bisection_checkpoint (icount boundary_rip max_covered_gap : Z)
    (checkpoint_snapshot_ref : bytes) (checkpoint_vns : Z) :=
  let payload := replicate BISECTION_CHECKPOINT_PAYLOAD_LEN 0 in
  let payload := put 0 (le_bytes 2 BISECTION_CHECKPOINT_FORMAT_VERSION) payload in
  let payload := put 2 (le_bytes 2 BISECTION_CHECKPOINT_FLAGS) payload in
  let payload := put 4 (le_bytes 4 max_covered_gap) payload in
  let payload := put 8 checkpoint_snapshot_ref payload in
  let payload := put 40 (le_bytes 8 icount) payload in
  let payload := put 48 (le_bytes 8 checkpoint_vns) payload in
  record KIND_BISECTION_CHECKPOINT RFLAG_AUX icount boundary_rip payload.

Section seal.
Context {B : Blake3}.

(** [LogWriter::digest8]: the first eight digest bytes as a u64. *)
Definition digest8 (b : bytes) : Z := of_le (slice 0 8 (blake3 b)).

(** The header back-fill of [seal], in the source's order of stores. *)
Definition backfill (h : SegmentHeader) (params : SealParams)
    (flags count : Z) (b : bytes) : bytes :=
  let b := put 0 DHILOG_MAGIC b in
  let b := put 6 (le_bytes 2 FORMAT_VERSION) b in
  let b := put 8 (le_bytes 4 (Z.of_nat HEADER_LEN)) b in
  let b := put #12 (le_bytes 4 flags) b in
  let b := put #16 (sh_base_snapshot_id h) b in
  let b := put #48 (sp_end_snapshot_id params) b in
  let b := put #80 (sh_entropy_seed h) b in
  let b := put #112 (sh_machine_config_hash h) b in
  let b := put #144 (le_bytes 4 (sh_clock_num h)) b in
  let b := put #148 (le_bytes 4 (sh_clock_den h)) b in
  let b := put #152 (le_bytes 8 count) b in
  let b := put #160 (le_bytes 8 (sp_end_icount params)) b in
  let b := put #168 (le_bytes 8 (sp_end_vns params)) b in
  let b := put #176 (sp_end_state_hash params) b in
  let b := put #240 (le_bytes 8 (sh_encoder_fingerprint h)) b in
  let body_hash := blake3 (drop HEADER_LEN b) in
  put #208 body_hash b.

Definition seal_flags (aux epoch : bool) : Z :=
  Z.lor (Z.lor FLAG_SEALED (if aux then FLAG_HAS_AUX else 0))
        (if epoch then FLAG_EPOCH_HASHES else 0).

(** [LogWriter::seal] consumes the writer. *)
Definition seal (params : SealParams) (w : LogWriter) : outcome WriteError bytes :=
  let payload := replicate 40 0 in
  let payload := put 0 [sp_stop_reason params] payload in
  let payload := put 8 (sp_end_state_hash params) payload in
  let saved_has_aux := has_aux w in
  match record KIND_END RFLAG_AUX (sp_end_icount params) 0 payload w with
  | (Ok _, w') =>
      Ok (backfill (header w') params (seal_flags saved_has_aux (wrote_epoch_hash w'))
            (record_count w') (buf w'))
  | (Err e, _) => Err e
  | (Panic, _) => Panic
  end.
End seal.

(** ** The abstract log: a list of framed records *)

(** [reader.rs]'s [Record], also the unit the writer appends. *)
Record Rec := mkRec {
  kind : Z;
  rflags : Z;
  seq : Z;
  icount : Z;
  boundary_rip : Z;
  payload : bytes;
}.

Definition is_aux (r : Rec) : bool := negb (Z.land (rflags r) RFLAG_AUX =? 0).
Definition is_epoch_hash (r : Rec) : bool := kind r =? KIND_EPOCH_HASH.

(** The framing of one record, as a specification of the bytes. *)
Definition encode_record (r : Rec) : bytes :=
  [kind r; rflags r] ++ le_bytes 2 (Z.of_nat (length (payload r))) ++ le_bytes 4 (seq r)
    ++ le_bytes 8 (icount r) ++ le_bytes 8 (boundary_rip r) ++ payload r
    ++ replicate (pad_len (length (payload r))) 0.

Definition encode_records (rs : list Rec) : bytes := mjoin (encode_record <$> rs).

(** Machine widths of a record's fields. *)
Definition rec_wf (r : Rec) : Prop :=
  u8 (kind r) /\ u8 (rflags r) /\ u32 (seq r) /\ u64 (icount r) /\ u64 (boundary_rip r)
  /\ bytes_ok (payload r) /\ Z.of_nat (length (payload r)) <= MAX_PAYLOAD.

(** Records number consecutively from [n], and from the second record on the
    icount never regresses below the previous one ([last]). *)
Fixpoint in_order (n last : Z) (rs : list Rec) : Prop :=
  match rs with
  | [] => True
  | r :: rs => seq r = n /\ (0 < n -> last <= icount r) /\ in_order (n + 1) (icount r) rs
  end.

Definition last_icount_of (l : Z) (rs : list Rec) : Z :=
  match list.last rs with Some r => icount r | None => l end.

#[global] Arguments encode_record : simpl never.
#[global] Arguments encode_records : simpl never.

Lemma length_encode_record r :
  length (encode_record r) = (24 + length (payload r) + pad_len (length (payload r)))%nat.
Proof. unfold encode_record. len_rw. lia. Qed.

Lemma encode_records_app rs rs' :
  encode_records (rs ++ rs') = encode_records rs ++ encode_records rs'.
Proof. unfold encode_records. by rewrite fmap_app, join_app. Qed.

Lemma encode_records_single r : encode_records [r] = encode_record r.
Proof. unfold encode_records. simpl. by rewrite app_nil_r. Qed.

Lemma last_icount_of_cons l r rs :
  last_icount_of l (r :: rs) = last_icount_of (icount r) rs.
Proof.
  unfold last_icount_of. destruct rs as [|r' rs]; [done|]. rewrite last_cons_cons.
  destruct (list.last (r' :: rs)) eqn:E; [done|]. by apply last_None in E.
Qed.

Lemma last_icount_of_snoc l rs r : last_icount_of l (rs ++ [r]) = icount r.
Proof. unfold last_icount_of. by rewrite last_snoc. Qed.

Lemma in_order_app n l rs rs' :
  in_order n l (rs ++ rs') <->
  in_order n l rs /\ in_order (n + Z.of_nat (length rs)) (last_icount_of l rs) rs'.
Proof.
  revert n l. induction rs as [|r rs IH]; intros n l.
  - simpl. rewrite Z.add_0_r. unfold last_icount_of. simpl. naive_solver.
  - cbn [app in_order length]. rewrite IH, last_icount_of_cons.
    replace (n + 1 + Z.of_nat (length rs)) with (n + Z.of_nat (S (length rs))) by lia.
    naive_solver.
Qed.

(** ** The writer refines the abstract log *)

(** What a writer's fields mean: [rs] are the records accepted so far. *)
Record repr (w : LogWriter) (h : SegmentHeader) (rs : list Rec) : Prop := {
  repr_buf : buf w = replicate HEADER_LEN 0 ++ encode_records rs;
  repr_header : header w = h;
  repr_count : record_count w = Z.of_nat (length rs);
  repr_order : in_order 0 0 rs;
  repr_last : last_icount w = last_icount_of 0 rs;
  repr_aux : has_aux w = existsb is_aux rs;
  repr_wf : Forall rec_wf rs;
}.

Lemma repr_new h : repr (LogWriter_new h) h [].
Proof. by split. Qed.

Lemma record_fail k f ic rip p w o w' :
  record k f ic rip p w = (o, w') -> o <> Ok tt -> w' = w /\ exists e, o = Err e.
Proof. unfold record. intros H Ho. repeat case_match; simplify_eq; eauto. Qed.

(** The conditions under which [record] accepts. *)
Definition accepts (w : LogWriter) (ic : Z) (p : bytes) : Prop :=
  Z.of_nat (length p) <= MAX_PAYLOAD /\
  (0 < record_count w -> last_icount w <= ic) /\ record_count w <= u32_max.

Lemma record_ok_iff k f ic rip p w :
  (exists w', record k f ic rip p w = (Ok tt, w')) <-> accepts w ic p.
Proof.
  unfold record, accepts, try_u32. split.
  - intros [w' H]. repeat case_match; simplify_eq; lia.
  - intros (?&?&?). repeat case_match; simplify_eq; eauto; lia.
Qed.

Lemma record_appends w h rs k f ic rip p w' :
  repr w h rs -> u8 k -> u8 f -> u64 ic -> u64 rip -> bytes_ok p ->
  record k f ic rip p w = (Ok tt, w') ->
  repr w' h (rs ++ [mkRec k f (Z.of_nat (length rs)) ic rip p])
  /\ wrote_epoch_hash w' = wrote_epoch_hash w.
Proof.
  intros R Hk Hf Hic Hrip Hp H.
  assert (accepts w ic p) as (Hlen & Hlast & Hcnt)
    by (apply (record_ok_iff k f ic rip); eauto).
  pose proof (repr_count _ _ _ R) as Hc.
  unfold record, try_u32 in H.
  set (aux := if negb (Z.land f RFLAG_AUX =? 0) then true else has_aux w) in *.
  repeat case_match; simplify_eq; [].
  split; [split; cbn [buf header record_count last_icount has_aux]|done].
  - rewrite (repr_buf _ _ _ R), encode_records_app, encode_records_single.
    unfold encode_record; cbn [kind rflags seq icount boundary_rip payload].
    rewrite to_u16_small by (unfold MAX_PAYLOAD in *; ulia). rewrite Hc.
    rewrite take_replicate, Nat.min_l by (pose proof (pad_len_lt (length p)); lia).
    by rewrite <- !app_assoc.
  - apply R.
  - rewrite length_app. simpl. lia.
  - rewrite in_order_app. split; [apply R|]. cbn. split; [lia|]. split; [|done].
    rewrite <- (repr_last _ _ _ R). intros. apply Hlast. lia.
  - by rewrite last_icount_of_snoc.
  - rewrite existsb_app. cbn. unfold aux, is_aux. cbn.
    rewrite (repr_aux _ _ _ R). destruct (_ =? 0), (existsb _ _); done.
  - apply Forall_app; split; [apply R|]. constructor; [|done].
    unfold rec_wf; cbn. split_and!; auto; ulia.
Qed.

(** ** A small concrete segment, for evaluation *)

Definition example_header : SegmentHeader :=
  mkSegmentHeader (replicate 32 1) (replicate 32 2) (replicate 32 3) 1 1 7.
Definition example_params : SealParams :=
  mkSealParams (replicate 32 0) 20 20 (replicate 32 9) 3.
Definition example_writer : LogWriter :=
  let w := LogWriter_new example_header in
  let w := (pad_set 10 4096 0 5 (2 ^ 32 - 1) w).2 in
  (epoch_hash 12 4100 0 (replicate 32 8) w).2.
Definition example_image : bytes :=
  match seal (B := example_hash) example_params example_writer with Ok b => b | _ => [] end.
