(* ===== verification/LogReader.v ===== *)
(** * DHILOG reader: [dh-inputlog/src/reader.rs]

    The validating reader, the record iterator and the crash-artifact
    inspector.  Every slice index of the source is a [read_le]/[read_bytes] that
    yields [Panic] out of range, the [expect]/[unwrap]/[unreachable!] sites are
    [Panic] too, and the loops carry fuel whose exhaustion is again [Panic]: the
    theorems that exclude [Panic] therefore show that the reader is total and
    never indexes out of bounds. *)

From S2P Require Import Prelude DhiLog.

(** The [what] strings of [ReadError::EndMismatch]. *)
Inductive EndWhat := WhatBoundaryRip | WhatPadBytes | WhatIcount | WhatStateHash.

(** Constructors carry an [R] where the writer's error type has the same name. *)
Inductive ReadError :=
| TooShort
| BadMagic
| UnsupportedVersion (found : Z)
| BadHeaderLen (found : Z)
| UnknownHeaderFlags (flags : Z)
| NotSealed
| ReservedNonzero
| BodyHashMismatch
| Truncated (seq : Z)
| RPayloadTooLong (seq : Z)
| SeqMismatch (expected found : Z)
| RIcountRegressed (seq : Z)
| UnknownRecordFlags (rflags seq : Z)
| UnknownCanonicalKind (kind seq : Z)
| KindAuxMismatch (kind seq : Z)
| BadPayloadLayout (kind seq : Z)
| UnsupportedBisectionCheckpointVersion (found seq : Z)
| InvalidBisectionCheckpointFlags (flags seq : Z)
| BisectionCheckpointIcountMismatch (seq record_icount checkpoint_icount : Z)
| NonzeroPadding (seq : Z)
| RecordCountMismatch (header actual : Z)
| EndNotLast
| EndMismatch (what : EndWhat)
| BadClock
| HasAuxFlagMismatch
| EpochHashesFlagMismatch.

Record Header := mkHeader {
  h_version : Z;
  h_flags : Z;
  h_base_snapshot_id : bytes;
  h_end_snapshot_id : bytes;
  h_entropy_seed : bytes;
  h_machine_config_hash : bytes;
  h_clock_num : Z;
  h_clock_den : Z;
  h_record_count : Z;
  h_end_icount : Z;
  h_end_vns : Z;
  h_end_state_hash : bytes;
  h_body_hash : bytes;
  h_encoder_fingerprint : Z;
}.

Definition Header_has_aux (h : Header) : bool := negb (Z.land (h_flags h) FLAG_HAS_AUX =? 0).
Definition Header_has_epoch_hashes (h : Header) : bool :=
  negb (Z.land (h_flags h) FLAG_EPOCH_HASHES =? 0).

Inductive RecordBody :=
| PadSet (port buttons frame_hint : Z)
| DevEvent (device_id event_type : Z) (data : bytes)
| NetRx (frame : bytes)
| Entropy (len digest8 : Z)
| TimerFire (vector armed_deadline_vns delivered_icount : Z)
| EpochHash (epoch_index : Z) (chain_value : bytes)
| SdkEvent (stream len digest8 : Z)
| NetTx (len digest8 : Z)
| FrameMark (frame_index : Z)
| BisectionCheckpoint (format_version flags max_covered_gap : Z)
    (checkpoint_snapshot_ref : bytes) (checkpoint_icount checkpoint_vns : Z)
| End (stop_reason : Z) (end_state_hash : bytes)
| Unknown (kind : Z) (payload : bytes).

(** [Record::body]. *)
Definition body (r : Rec) : outcome ReadError RecordBody :=
  let p := payload r in
  let u8at o := read_le 1 o p in
  let u16at o := read_le 2 o p in
  let u32at o := read_le 4 o p in
  let u64at o := read_le 8 o p in
  if kind r =? KIND_PAD_SET then
    port ← u8at 0%nat; buttons ← u32at 4%nat; hint ← u32at 8%nat; Ok (PadSet port buttons hint)
  else if kind r =? KIND_DEV_EVENT then
    id ← u16at 0%nat; ty ← u16at 2%nat; data ← read_bytes (length p - 8) 8 p;
    Ok (DevEvent id ty data)
  else if kind r =? KIND_NET_RX then Ok (NetRx p)
  else if kind r =? KIND_ENTROPY then
    len ← u32at 0%nat; d ← u64at 8%nat; Ok (Entropy len d)
  else if kind r =? KIND_TIMER_FIRE then
    v ← u8at 0%nat; a ← u64at 4%nat; d ← u64at 12%nat; Ok (TimerFire v a d)
  else if kind r =? KIND_EPOCH_HASH then
    i ← u64at 0%nat; c ← read_bytes 32 8 p; Ok (EpochHash i c)
  else if kind r =? KIND_SDK_EVENT then
    s ← u16at 0%nat; len ← u32at 4%nat; d ← u64at 8%nat; Ok (SdkEvent s len d)
  else if kind r =? KIND_NET_TX then
    len ← u32at 0%nat; d ← u64at 8%nat; Ok (NetTx len d)
  else if kind r =? KIND_FRAME_MARK then
    f ← u32at 0%nat; Ok (FrameMark f)
  else if kind r =? KIND_BISECTION_CHECKPOINT then
    v ← u16at 0%nat; f ← u16at 2%nat; g ← u32at 4%nat; c ← read_bytes 32 8 p;
    i ← u64at 40%nat; n ← u64at 48%nat; Ok (BisectionCheckpoint v f g c i n)
  else if kind r =? KIND_END then
    s ← u8at 0%nat; h ← read_bytes 32 8 p; Ok (End s h)
  else Ok (Unknown (kind r) p).

(** [parse_header_with_seal]. *)
Definition parse_header_with_seal (b : bytes) (require_sealed : bool) : outcome ReadError Header :=
  if (length b <? HEADER_LEN)%nat then Err TooShort else
  magic ← read_bytes 6 0 b;
  if negb (bool_decide (magic = DHILOG_MAGIC)) then Err BadMagic else
  version ← read_le 2 6 b;
  if negb (Z.shiftr version 8 =? 1) then Err (UnsupportedVersion version) else
  header_len ← read_le 4 8 b;
  if negb (header_len =? Z.of_nat HEADER_LEN) then Err (BadHeaderLen header_len) else
  flags ← read_le 4 #12 b;
  if negb (Z.land flags (Z.lnot (Z.lor (Z.lor FLAG_SEALED FLAG_HAS_AUX) FLAG_EPOCH_HASHES)) =? 0)
  then Err (UnknownHeaderFlags flags) else
  if require_sealed && (Z.land flags FLAG_SEALED =? 0) then Err NotSealed else
  reserved ← read_bytes 8 #248 b;
  if negb (bool_decide (reserved = replicate 8 0)) then Err ReservedNonzero else
  den ← read_le 4 #148 b;
  if den =? 0 then Err BadClock else
  base ← read_bytes 32 #16 b;
  end_snap ← read_bytes 32 #48 b;
  seed ← read_bytes 32 #80 b;
  cfg ← read_bytes 32 #112 b;
  num ← read_le 4 #144 b;
  den ← read_le 4 #148 b;
  count ← read_le 8 #152 b;
  end_icount ← read_le 8 #160 b;
  end_vns ← read_le 8 #168 b;
  end_hash ← read_bytes 32 #176 b;
  body_hash ← read_bytes 32 #208 b;
  fp ← read_le 8 #240 b;
  Ok {| h_version := version; h_flags := flags; h_base_snapshot_id := base;
        h_end_snapshot_id := end_snap; h_entropy_seed := seed; h_machine_config_hash := cfg;
        h_clock_num := num; h_clock_den := den; h_record_count := count;
        h_end_icount := end_icount; h_end_vns := end_vns; h_end_state_hash := end_hash;
        h_body_hash := body_hash; h_encoder_fingerprint := fp |}.

Definition parse_header (b : bytes) := parse_header_with_seal b true.
Definition parse_header_for_inspection (b : bytes) := parse_header_with_seal b false.

(** The class of a known kind: [Some true] for AUX kinds, [Some false] for
    canonical ones. *)
Definition class_aux (kind : Z) : option bool :=
  if (kind =? KIND_PAD_SET) || (kind =? KIND_DEV_EVENT) || (kind =? KIND_NET_RX) then Some false
  else if (kind =? KIND_ENTROPY) || (kind =? KIND_TIMER_FIRE) || (kind =? KIND_EPOCH_HASH)
       || (kind =? KIND_SDK_EVENT) || (kind =? KIND_NET_TX) || (kind =? KIND_FRAME_MARK)
       || (kind =? KIND_BISECTION_CHECKPOINT) || (kind =? KIND_END) then Some true
  else None.

(** The [layout_ok] match of [validate_kind]; its BISECTION_CHECKPOINT arm
    returns errors of its own. *)
Definition layout_ok (kind : Z) (p : bytes) (seq record_icount : Z) : outcome ReadError bool :=
  if kind =? KIND_PAD_SET then Ok (length p =? 12)%nat
  else if kind =? KIND_DEV_EVENT then
    if (8 <=? length p)%nat then n ← read_le 4 4 p; Ok (n =? Z.of_nat (length p) - 8)
    else Ok false
  else if kind =? KIND_NET_RX then
    Ok ((1 <=? Z.of_nat (length p)) && (Z.of_nat (length p) <=? MAX_NET_RX_FRAME))
  else if (kind =? KIND_ENTROPY) || (kind =? KIND_SDK_EVENT) || (kind =? KIND_NET_TX) then
    Ok (length p =? 16)%nat
  else if kind =? KIND_TIMER_FIRE then Ok (length p =? 20)%nat
  else if (kind =? KIND_EPOCH_HASH) || (kind =? KIND_END) then Ok (length p =? 40)%nat
  else if kind =? KIND_FRAME_MARK then Ok (length p =? 8)%nat
  else if kind =? KIND_BISECTION_CHECKPOINT then
    if negb (length p =? BISECTION_CHECKPOINT_PAYLOAD_LEN)%nat then Ok false
    else
      format_version ← read_le 2 0 p;
      if negb (format_version =? BISECTION_CHECKPOINT_FORMAT_VERSION)
      then Err (UnsupportedBisectionCheckpointVersion format_version seq) else
      flags ← read_le 2 2 p;
      if negb (flags =? BISECTION_CHECKPOINT_FLAGS)
      then Err (InvalidBisectionCheckpointFlags flags seq) else
      checkpoint_icount ← read_le 8 40 p;
      if negb (checkpoint_icount =? record_icount)
      then Err (BisectionCheckpointIcountMismatch seq record_icount checkpoint_icount)
      else Ok true
  else Ok true.

Definition validate_kind (kind : Z) (aux : bool) (p : bytes) (seq record_icount : Z)
    : outcome ReadError unit :=
  match class_aux kind with
  | None => if aux then Ok tt else Err (UnknownCanonicalKind kind seq)
  | Some c =>
      if negb (eqb c aux) then Err (KindAuxMismatch kind seq) else
      ok ← layout_ok kind p seq record_icount;
      if negb ok then Err (BadPayloadLayout kind seq) else Ok tt
  end.

Record RecordScan := mkScan { scan_offset : nat; scan_count : Z; scan_last_icount : Z }.
Definition RecordScan_default : RecordScan := mkScan 0 0 0.

(** [scan_next_record].  The scan state is only stored on success, so it is
    returned with the record. *)
Definition scan_next_record (bd : bytes) (scan : RecordScan)
    : outcome ReadError (option (Rec * RecordScan)) :=
  let off := scan_offset scan in
  if (length bd <=? off)%nat then Ok None else
  let seq_for_err := default u32_max (try_u32 (scan_count scan)) in
  if (length bd - off <? 24)%nat then Err (Truncated seq_for_err) else
  let b := drop off bd in
  kind ← read_le 1 0 b;
  rflags ← read_le 1 1 b;
  payload_len_z ← read_le 2 2 b;
  let payload_len := Z.to_nat payload_len_z in
  seq ← read_le 4 4 b;
  icount ← read_le 8 8 b;
  boundary_rip ← read_le 8 16 b;
  if Z.of_nat payload_len >? MAX_PAYLOAD then Err (RPayloadTooLong seq_for_err) else
  let padded := (24 + payload_len + pad_len payload_len)%nat in
  if (length bd - off <? padded)%nat then Err (Truncated seq_for_err) else
  if negb (seq =? scan_count scan) then Err (SeqMismatch seq_for_err seq) else
  if (scan_count scan >? 0) && (icount <? scan_last_icount scan)
  then Err (RIcountRegressed seq) else
  if negb (Z.land rflags (Z.lnot RFLAG_AUX) =? 0) then Err (UnknownRecordFlags rflags seq) else
  padding ← read_bytes (padded - (24 + payload_len)) (24 + payload_len) b;
  if existsb (fun x => negb (x =? 0)) padding then Err (NonzeroPadding seq) else
  let aux := negb (Z.land rflags RFLAG_AUX =? 0) in
  payload ← read_bytes payload_len 24 b;
  _ ← validate_kind kind aux payload seq icount;
  Ok (Some (mkRec kind rflags seq icount boundary_rip payload,
            mkScan (off + padded) (scan_count scan + 1) icount)).

(** The END arm of [validate_records]. *)
Definition check_end (h : Header) (r : Rec) : outcome ReadError unit :=
  if negb (boundary_rip r =? 0) then Err (EndMismatch WhatBoundaryRip) else
  pad ← read_bytes 7 1 (payload r);
  if negb (bool_decide (pad = replicate 7 0)) then Err (EndMismatch WhatPadBytes) else
  if negb (icount r =? h_end_icount h) then Err (EndMismatch WhatIcount) else
  hash ← read_bytes 32 8 (payload r);
  if negb (bool_decide (hash = h_end_state_hash h)) then Err (EndMismatch WhatStateHash) else
  Ok tt.

(** The three [saw_*] locals of [validate_records]. *)
Record Saw := mkSaw { saw_end : bool; saw_aux_non_end : bool; saw_epoch_hash : bool }.

Definition validate_step (h : Header) (r : Rec) (s : Saw) : outcome ReadError Saw :=
  if kind r =? KIND_END then
    _ ← check_end h r; Ok (mkSaw true (saw_aux_non_end s) (saw_epoch_hash s))
  else if kind r =? KIND_EPOCH_HASH then Ok (mkSaw (saw_end s) (saw_aux_non_end s) true)
  else if is_aux r then Ok (mkSaw (saw_end s) true (saw_epoch_hash s))
  else Ok s.

(** The [while scan.offset < body.len()] loop. *)
Fixpoint validate_loop (fuel : nat) (h : Header) (bd : bytes) (scan : RecordScan) (s : Saw)
    : outcome ReadError (RecordScan * Saw) :=
  match fuel with
  | O => Panic
  | S fuel =>
      if (scan_offset scan <? length bd)%nat then
        if saw_end s then Err EndNotLast else
        next ← scan_next_record bd scan;
        match next with
        | None => Panic
        | Some (r, scan) => s ← validate_step h r s; validate_loop fuel h bd scan s
        end
      else Ok (scan, s)
  end.

Definition validate_records (h : Header) (bd : bytes) : outcome ReadError unit :=
  '(scan, s) ← validate_loop (S (length bd)) h bd RecordScan_default (mkSaw false false false);
  if negb (saw_end s) then Err EndNotLast else
  if negb (scan_count scan =? h_record_count h)
  then Err (RecordCountMismatch (h_record_count h) (scan_count scan)) else
  if negb (eqb (Header_has_aux h) (saw_aux_non_end s || saw_epoch_hash s))
  then Err HasAuxFlagMismatch else
  if negb (eqb (Header_has_epoch_hashes h) (saw_epoch_hash s))
  then Err EpochHashesFlagMismatch else
  Ok tt.

Record LogReader := mkLogReader { rd_header : Header; rd_body : bytes }.

Section parse.
Context {B : Blake3}.

Definition LogReader_parse (b : bytes) : outcome ReadError LogReader :=
  h ← parse_header b;
  let bd := drop HEADER_LEN b in
  if negb (bool_decide (blake3 bd = h_body_hash h)) then Err BodyHashMismatch else
  _ ← validate_records h bd;
  Ok (mkLogReader h bd).
End parse.

(** [Records::next]: the infallible iterator over the validated body. *)
Definition Records_next (bd : bytes) (offset : nat) : outcome ReadError (option (Rec * nat)) :=
  if (length bd <=? offset)%nat then Ok None else
  let b := drop offset bd in
  payload_len_z ← read_le 2 2 b;
  let payload_len := Z.to_nat payload_len_z in
  kind ← read_le 1 0 b;
  rflags ← read_le 1 1 b;
  seq ← read_le 4 4 b;
  icount ← read_le 8 8 b;
  boundary_rip ← read_le 8 16 b;
  payload ← read_bytes payload_len 24 b;
  Ok (Some (mkRec kind rflags seq icount boundary_rip payload,
            offset + (24 + payload_len + pad_len payload_len))%nat).

Fixpoint Records_collect (fuel : nat) (bd : bytes) (offset : nat) : outcome ReadError (list Rec) :=
  match fuel with
  | O => Panic
  | S fuel =>
      next ← Records_next bd offset;
      match next with
      | None => Ok []
      | Some (r, offset) => rs ← Records_collect fuel bd offset; Ok (r :: rs)
      end
  end.

(** [LogReader::records], [canonical], [aux] as collected sequences. *)
Definition records (rd : LogReader) : outcome ReadError (list Rec) :=
  Records_collect (S (length (rd_body rd))) (rd_body rd) 0.
Definition canonical (rd : LogReader) : outcome ReadError (list Rec) :=
  rs ← records rd; Ok (List.filter (fun r => negb (is_aux r)) rs).
Definition aux (rd : LogReader) : outcome ReadError (list Rec) :=
  rs ← records rd; Ok (List.filter is_aux rs).

(** [LogReader::end]. *)
Definition LogReader_end (rd : LogReader) : outcome ReadError (Z * bytes) :=
  rs ← records rd;
  match list.last rs with
  | None => Panic
  | Some r =>
      b ← body r;
      match b with End stop hash => Ok (stop, hash) | _ => Panic end
  end.

Inductive InspectionStop := Eof | Corrupt (e : ReadError).
Record LogInspection := mkLogInspection {
  li_header : Header; li_records : list Rec; li_stop : InspectionStop }.

(** The [loop] of [LogInspection::parse_unsealed]. *)
Fixpoint inspect_loop (fuel : nat) (bd : bytes) (scan : RecordScan)
    : outcome ReadError (list Rec * InspectionStop) :=
  match fuel with
  | O => Panic
  | S fuel =>
      match scan_next_record bd scan with
      | Ok (Some (r, scan)) =>
          '(rs, stop) ← inspect_loop fuel bd scan; Ok (r :: rs, stop)
      | Ok None => Ok ([], Eof)
      | Err e => Ok ([], Corrupt e)
      | Panic => Panic
      end
  end.

Definition parse_unsealed (b : bytes) : outcome ReadError LogInspection :=
  h ← parse_header_for_inspection b;
  let bd := drop HEADER_LEN b in
  '(rs, stop) ← inspect_loop (S (length bd)) bd RecordScan_default;
  Ok (mkLogInspection h rs stop).

(** ** Framing: one record *)

(** The checks a framed record passes besides order and widths. *)
Definition rec_valid (r : Rec) : Prop :=
  Z.land (rflags r) (Z.lnot RFLAG_AUX) = 0 /\
  validate_kind (kind r) (is_aux r) (payload r) (seq r) (icount r) = Ok tt.

Lemma slice_encode_kind r t : slice 0 1 (encode_record r ++ t) = [kind r].
Proof. reflexivity. Qed.
Lemma slice_encode_rflags r t : slice 1 1 (encode_record r ++ t) = [rflags r].
Proof. reflexivity. Qed.
Lemma slice_encode_len r t :
  slice 2 2 (encode_record r ++ t) = le_bytes 2 (Z.of_nat (length (payload r))).
Proof. reflexivity. Qed.
Lemma slice_encode_seq r t : slice 4 4 (encode_record r ++ t) = le_bytes 4 (seq r).
Proof. reflexivity. Qed.
Lemma slice_encode_icount r t : slice 8 8 (encode_record r ++ t) = le_bytes 8 (icount r).
Proof. reflexivity. Qed.
Lemma slice_encode_rip r t : slice 16 8 (encode_record r ++ t) = le_bytes 8 (boundary_rip r).
Proof. reflexivity. Qed.
Lemma drop_encode_24 r t :
  drop 24 (encode_record r ++ t)
  = payload r ++ replicate (pad_len (length (payload r))) 0 ++ t.
Proof. unfold encode_record. simpl. by rewrite <- app_assoc. Qed.
Lemma slice_encode_payload r t :
  slice 24 (length (payload r)) (encode_record r ++ t) = payload r.
Proof. unfold slice. by rewrite drop_encode_24, take_app_length. Qed.
Lemma slice_encode_pad r t :
  slice (24 + length (payload r)) (pad_len (length (payload r))) (encode_record r ++ t)
  = replicate (pad_len (length (payload r))) 0.
Proof.
  unfold slice. rewrite <- drop_drop, drop_encode_24, drop_app_length.
  by rewrite take_app_length' by (by rewrite length_replicate).
Qed.

(** Splitting 24 + n bytes into the fields of the record header. *)
Lemma split_record (b : bytes) n :
  b = slice 0 1 b ++ slice 1 1 b ++ slice 2 2 b ++ slice 4 4 b ++ slice 8 8 b ++ slice 16 8 b
      ++ slice 24 n b ++ slice (24 + n) (pad_len n) b ++ drop (24 + n + pad_len n) b.
Proof.
  rewrite <- (drop_slice_cons (24 + n) (pad_len n)), <- (drop_slice_cons 24 n).
  rewrite <- (drop_slice_cons 16 8), <- (drop_slice_cons 8 8), <- (drop_slice_cons 4 4).
  rewrite <- (drop_slice_cons 2 2), <- (drop_slice_cons 1 1), <- (drop_slice_cons 0 1).
  by rewrite drop_0.
Qed.

(** The record framed at the front of [b]. *)
Definition rec_at (b : bytes) : Rec :=
  mkRec (of_le (slice 0 1 b)) (of_le (slice 1 1 b)) (of_le (slice 4 4 b)) (of_le (slice 8 8 b))
    (of_le (slice 16 8 b)) (slice 24 (Z.to_nat (of_le (slice 2 2 b))) b).

Lemma encode_rec_at b :
  bytes_ok b -> (24 <= length b)%nat ->
  let n := Z.to_nat (of_le (slice 2 2 b)) in
  (24 + n + pad_len n <= length b)%nat ->
  slice (24 + n) (pad_len n) b = replicate (pad_len n) 0 ->
  b = encode_record (rec_at b) ++ drop (24 + n + pad_len n) b.
Proof.
  intros Hb H24 n Hn Hpad. unfold encode_record, rec_at. cbn [kind rflags seq icount boundary_rip payload].
  fold n. rewrite (length_slice 24 n) by lia.
  pose proof (of_le_slice_bound 2 2 b Hb ltac:(lia)).
  unfold n at 1. rewrite Z2Nat.id by lia.
  rewrite !le_bytes_slice by (done || lia). rewrite <- Hpad.
  rewrite (split_record b n) at 1. rewrite <- !app_assoc.
  assert (forall o, (o + 1 <= length b)%nat -> slice o 1 b = [of_le (slice o 1 b)]) as Hs.
  { intros o Ho. pose proof (length_slice o 1 b Ho).
    destruct (slice o 1 b) as [|x [|]]; simpl in *; try lia. by rewrite Z.add_0_r. }
  rewrite (Hs 0%nat), (Hs 1%nat) at 1 by lia. done.
Qed.

Lemma layout_ok_no_panic k p n ic : layout_ok k p n ic <> Panic.
Proof.
  unfold layout_ok, BISECTION_CHECKPOINT_PAYLOAD_LEN.
  repeat match goal with
  | |- context [if ?b then _ else _] => destruct b eqn:?; try discriminate
  | |- context [read_le _ _ _] => rewrite read_le_ok by lia; cbn [mbind outcome_bind]
  end; discriminate.
Qed.

Lemma validate_kind_no_panic k a p n ic : validate_kind k a p n ic <> Panic.
Proof.
  unfold validate_kind. repeat case_match; try discriminate.
  apply bind_not_panic; [apply layout_ok_no_panic|]. intros ok _. by case_match.
Qed.

Lemma scan_no_panic bd s : scan_next_record bd s <> Panic.
Proof.
  unfold scan_next_record. case_match; [done|]. case_match; [done|].
  set (b := drop (scan_offset s) bd).
  assert (length b = length bd - scan_offset s)%nat as Hb by (unfold b; by rewrite length_drop).
  reads. repeat (case_match; [done|]). reads. case_match; [done|]. reads.
  apply bind_not_panic; [apply validate_kind_no_panic|done].
Qed.

Lemma scan_none bd s : scan_next_record bd s = Ok None <-> (length bd <= scan_offset s)%nat.
Proof.
  unfold scan_next_record. destruct (Nat.leb_spec (length bd) (scan_offset s)); [naive_solver|].
  split; [|lia]. case_match; [done|].
  set (b := drop (scan_offset s) bd).
  assert (length b = length bd - scan_offset s)%nat as Hb by (unfold b; by rewrite length_drop).
  reads. repeat (case_match; [done|]). reads. case_match; [done|]. reads.
  by destruct (validate_kind _ _ _ _ _).
Qed.

(** What a successful [scan_next_record] has read. *)
Definition scanned (bd : bytes) (s : RecordScan) (r : Rec) (s' : RecordScan) : Prop :=
  drop (scan_offset s) bd = encode_record r ++ drop (scan_offset s') bd /\
  rec_wf r /\ rec_valid r /\ seq r = scan_count s /\
  (0 < scan_count s -> scan_last_icount s <= icount r) /\
  s' = mkScan (scan_offset s + length (encode_record r)) (scan_count s + 1) (icount r).

Lemma scan_sound bd s r s' :
  bytes_ok bd -> scan_next_record bd s = Ok (Some (r, s')) -> scanned bd s r s'.
Proof.
  intros Hok. unfold scan_next_record. case_match; [done|]. case_match; [done|].
  set (b := drop (scan_offset s) bd).
  assert (length b = length bd - scan_offset s)%nat as Hb by (unfold b; by rewrite length_drop).
  assert (bytes_ok b) as Hokb by (by apply Forall_drop).
  reads. repeat (case_match; [done|]). reads. case_match; [done|]. reads.
  set (n := Z.to_nat (of_le (slice 2 2 b))) in *.
  destruct (validate_kind _ _ _ _ _) as [[]| |] eqn:Hv; [|done..]. cbn. intros [= Hr Hs].
  assert (r = rec_at b) as -> by done. clear Hr.
  pose proof (pad_len_lt n).
  assert (slice (24 + n) (pad_len n) b = replicate (pad_len n) 0) as Hpad.
  { replace (24 + n + pad_len n - (24 + n))%nat with (pad_len n) in * by lia.
    match goal with H : existsb _ _ = false |- _ => apply existsb_nonzero_false in H as -> end.
    by rewrite length_slice by lia. }
  pose proof (encode_rec_at b Hokb ltac:(lia) ltac:(fold n; lia) Hpad) as Hb'. fold n in Hb'.
  pose proof (fun o k => of_le_slice_bound o k b Hokb) as Hbnd.
  assert (length (payload (rec_at b)) = n) as Hpl by (unfold rec_at; cbn; rewrite length_slice; lia).
  unfold scanned. rewrite <- Hs. cbn [scan_offset scan_count scan_last_icount].
  split_and!.
  - fold b. rewrite Hb' at 1. unfold b. by rewrite drop_drop.
  - pose proof (Hbnd 0 1 ltac:(lia))%nat. pose proof (Hbnd 1 1 ltac:(lia))%nat.
    pose proof (Hbnd 4 4 ltac:(lia))%nat. pose proof (Hbnd 8 8 ltac:(lia))%nat.
    pose proof (Hbnd 16 8 ltac:(lia))%nat.
    unfold rec_wf. rewrite Hpl. unfold rec_at; cbn [kind rflags seq icount boundary_rip payload].
    split_and!; try done; [|lia]. by apply Forall_slice.
  - split; [unfold rec_at; cbn; lia|exact Hv].
  - unfold rec_at; cbn; lia.
  - unfold rec_at; cbn [icount]; lia.
  - rewrite length_encode_record, Hpl. done.
Qed.

Lemma scan_complete bd s r s' :
  scanned bd s r s' -> scan_next_record bd s = Ok (Some (r, s')).
Proof.
  intros (Hd & Hwf & [Hfl Hv] & Hseq & Hlast & ->). cbn [scan_offset] in Hd.
  set (t := drop (scan_offset s + length (encode_record r)) bd) in *.
  assert (length (encode_record r ++ t) = length bd - scan_offset s)%nat as Hl
    by (rewrite <- Hd; apply length_drop).
  destruct Hwf as (Hk & Hf & Hsq & Hic & Hrip & Hp & Hmax). unfold MAX_PAYLOAD in *.
  pose proof (length_encode_record r) as He. rewrite length_app in Hl.
  unfold scan_next_record. rewrite Hd.
  do 2 (case_match; [exfalso; lia|]).
  assert (length (encode_record r ++ t) >= 24)%nat by (rewrite length_app; lia).
  reads. rewrite slice_encode_kind, slice_encode_rflags, slice_encode_len, slice_encode_seq,
    slice_encode_icount, slice_encode_rip, !of_le_single.
  rewrite of_le_u32, !of_le_u64, of_le_u16 by ulia. rewrite Nat2Z.id.
  assert (24 + length (payload r) + pad_len (length (payload r))
          <= length (encode_record r ++ t))%nat by (rewrite length_app; lia).
  repeat (case_match; [exfalso; unfold MAX_PAYLOAD in *; lia|]). reads.
  replace (24 + length (payload r) + pad_len (length (payload r)) - (24 + length (payload r)))%nat
    with (pad_len (length (payload r))) by lia.
  rewrite slice_encode_pad, existsb_nonzero_replicate. reads.
  rewrite slice_encode_payload. fold (is_aux r). rewrite Hv. cbn [mbind outcome_bind].
  rewrite <- He. by destruct r.
Qed.

Lemma scan_iff bd s r s' :
  bytes_ok bd -> scan_next_record bd s = Ok (Some (r, s')) <-> scanned bd s r s'.
Proof. split; [by apply scan_sound|apply scan_complete]. Qed.

Lemma scanned_offset bd s r s' :
  scanned bd s r s' ->
  (scan_offset s + 24 <= scan_offset s' <= length bd)%nat.
Proof.
  intros (Hd & _ & _ & _ & _ & ->). cbn [scan_offset] in *.
  apply (f_equal length) in Hd. rewrite length_app, !length_drop in Hd.
  pose proof (length_encode_record r). lia.
Qed.

(** ** The record walk *)

(** [validate_records]'s bookkeeping over an already framed list of records. *)
Fixpoint saw_all (h : Header) (rs : list Rec) (s : Saw) : outcome ReadError Saw :=
  match rs with
  | [] => Ok s
  | r :: rs => if saw_end s then Err EndNotLast else s ← validate_step h r s; saw_all h rs s
  end.

(** The records [rs] are what a body holds from a scan position on. *)
Definition framed (bd : bytes) (s : RecordScan) (rs : list Rec) : Prop :=
  drop (scan_offset s) bd = encode_records rs /\
  in_order (scan_count s) (scan_last_icount s) rs /\ Forall rec_wf rs /\ Forall rec_valid rs.

Lemma encode_records_cons r rs : encode_records (r :: rs) = encode_record r ++ encode_records rs.
Proof. reflexivity. Qed.

Lemma framed_nil bd s : (length bd <= scan_offset s)%nat -> framed bd s [].
Proof. intros. unfold framed. rewrite drop_ge by done. by repeat constructor. Qed.

Lemma framed_cons bd s r rs :
  (exists s', scanned bd s r s' /\ framed bd s' rs) <-> framed bd s (r :: rs).
Proof.
  unfold framed. split.
  - intros (s' & (Hd & Hwf & Hv & Hseq & Hl & ->) & Hd' & Ho & Hw & Hvs). cbn in *.
    rewrite encode_records_cons, Hd, Hd'. split_and!; auto.
  - intros (Hd & Ho & Hw & Hv). rewrite encode_records_cons in Hd.
    inversion Hw; inversion Hv; subst. destruct Ho as (Hs & Hl & Ho).
    set (off' := (scan_offset s + length (encode_record r))%nat).
    assert (drop off' bd = encode_records rs) as Hd'
      by (unfold off'; rewrite <- drop_drop, Hd; apply drop_app_length).
    exists (mkScan off' (scan_count s + 1) (icount r)). split; [|done].
    unfold scanned. cbn. rewrite Hd'. split_and!; auto.
Qed.

Lemma framed_cons_nonempty bd s r rs : framed bd s (r :: rs) -> (scan_offset s < length bd)%nat.
Proof. intros (s' & Hs & _)%framed_cons. apply scanned_offset in Hs. lia. Qed.

(** A body is the encoding of at most one list of records. *)
Lemma framed_inj bd s rs rs' : framed bd s rs -> framed bd s rs' -> rs = rs'.
Proof.
  revert s rs'. induction rs as [|r rs IH]; intros s [|r' rs'] H H'; [done| | |].
  - apply framed_cons_nonempty in H'. destruct H as [H _]. apply (f_equal length) in H.
    rewrite length_drop in H. simpl in H. lia.
  - apply framed_cons_nonempty in H. destruct H' as [H' _]. apply (f_equal length) in H'.
    rewrite length_drop in H'. simpl in H'. lia.
  - apply framed_cons in H as (s1 & Hs1%scan_complete & H).
    apply framed_cons in H' as (s2 & Hs2%scan_complete & H'). rewrite Hs1 in Hs2.
    injection Hs2 as <- <-. f_equal. by apply (IH s1).
Qed.

Lemma validate_step_no_panic h r s : rec_valid r -> validate_step h r s <> Panic.
Proof.
  intros [_ Hv]. unfold validate_step.
  destruct (kind r =? KIND_END) eqn:Hk; [|by repeat case_match].
  assert (length (payload r) = 40)%nat as Hl.
  { apply Z.eqb_eq in Hk. rewrite Hk in Hv. unfold validate_kind in Hv. cbn in Hv.
    repeat case_match; try done. lia. }
  apply bind_not_panic; [|done]. unfold check_end. case_match; [done|]. reads.
  by repeat (case_match; [done|]).
Qed.

Lemma validate_loop_iff fuel h bd scan s res :
  bytes_ok bd -> (length bd - scan_offset scan < fuel)%nat ->
  validate_loop fuel h bd scan s = Ok res <->
  exists rs s', framed bd scan rs /\ saw_all h rs s = Ok s' /\
    res = (mkScan (Nat.max (scan_offset scan) (length bd)) (scan_count scan + Z.of_nat (length rs))
             (last_icount_of (scan_last_icount scan) rs), s').
Proof.
  intros Hok. revert scan s. induction fuel as [|fuel IH]; intros scan s Hf; [lia|].
  cbn [validate_loop]. destruct (Nat.ltb_spec (scan_offset scan) (length bd)) as [Hlt|Hge].
  - split.
    + destruct (saw_end s) eqn:Hse; [done|].
      intros ([[r scan']|] & Hscan & H)%bind_ok; [|done].
      apply (scan_sound _ _ _ _ Hok) in Hscan as Hs. pose proof (scanned_offset _ _ _ _ Hs).
      apply bind_ok in H as (s1 & Hstep & H).
      apply IH in H as (rs & s' & Hfr & Hsaw & ->); [|lia].
      exists (r :: rs), s'. split; [apply framed_cons; eauto|]. split.
      { cbn. rewrite Hse, Hstep. done. }
      destruct Hs as (_ & _ & _ & _ & _ & ->). cbn [scan_offset scan_count scan_last_icount length] in *.
      rewrite last_icount_of_cons. do 2 f_equal; lia.
    + intros (rs & s' & Hfr & Hsaw & ->). destruct rs as [|r rs].
      { destruct Hfr as [Hd _]. apply (f_equal length) in Hd. rewrite length_drop in Hd.
        simpl in Hd. lia. }
      apply framed_cons in Hfr as (scan' & Hs & Hfr).
      pose proof (scanned_offset _ _ _ _ Hs).
      cbn in Hsaw. destruct (saw_end s); [done|].
      apply bind_ok in Hsaw as (s1 & Hstep & Hsaw).
      rewrite (scan_complete _ _ _ _ Hs). cbn. rewrite Hstep. cbn.
      apply IH; [lia|]. exists rs, s'. split_and!; auto.
      destruct Hs as (_ & _ & _ & _ & _ & ->). cbn [scan_offset scan_count scan_last_icount length] in *.
      rewrite last_icount_of_cons. do 2 f_equal; lia.
  - split.
    + intros [= <-]. exists [], s. split; [by apply framed_nil|]. split; [done|].
      rewrite Nat.max_l by lia. simpl. rewrite Z.add_0_r. by destruct scan.
    + intros (rs & s' & Hfr & Hsaw & ->). destruct rs as [|r rs].
      * injection Hsaw as ->. rewrite Nat.max_l by lia. simpl. rewrite Z.add_0_r.
        by destruct scan.
      * apply framed_cons_nonempty in Hfr. lia.
Qed.

Lemma validate_loop_no_panic fuel h bd scan s :
  bytes_ok bd -> (length bd - scan_offset scan < fuel)%nat ->
  validate_loop fuel h bd scan s <> Panic.
Proof.
  intros Hok. revert scan s. induction fuel as [|fuel IH]; intros scan s Hf; [lia|].
  cbn [validate_loop]. case_match; [|done]. case_match; [done|].
  apply bind_not_panic; [apply scan_no_panic|]. intros [[r scan']|] Hs.
  - apply (scan_sound _ _ _ _ Hok) in Hs. pose proof (scanned_offset _ _ _ _ Hs).
    apply bind_not_panic; [apply validate_step_no_panic, Hs|]. intros. apply IH. lia.
  - apply scan_none in Hs. lia.
Qed.

(** ** Sealed logs: the abstract specification of what [parse] accepts *)

Definition is_end (r : Rec) : bool := kind r =? KIND_END.

(** The END record agrees with the header. *)
Definition end_matches (h : Header) (r : Rec) : Prop :=
  boundary_rip r = 0 /\ icount r = h_end_icount h /\
  slice 1 7 (payload r) = replicate 7 0 /\ slice 8 32 (payload r) = h_end_state_hash h.

(** The records of a sealed log: [pre] then one END, numbered and ordered, each
    of a valid layout, with the header's count and flag bits telling the truth. *)
Record sealed_log (h : Header) (pre : list Rec) (e : Rec) : Prop := {
  sl_order : in_order 0 0 (pre ++ [e]);
  sl_wf : Forall rec_wf (pre ++ [e]);
  sl_valid : Forall rec_valid (pre ++ [e]);
  sl_no_end : Forall (fun r => is_end r = false) pre;
  sl_end : is_end e = true;
  sl_end_matches : end_matches h e;
  sl_count : h_record_count h = Z.of_nat (length (pre ++ [e]));
  sl_has_aux : Header_has_aux h = existsb is_aux pre;
  sl_has_epoch : Header_has_epoch_hashes h = existsb is_epoch_hash pre;
}.

Lemma check_end_iff h r : (40 <= length (payload r))%nat -> check_end h r = Ok tt <-> end_matches h r.
Proof.
  intros Hl. unfold check_end, end_matches. reads.
  repeat case_bool_decide; repeat case_match; split; intros; try done; naive_solver lia.
Qed.

Lemma rec_valid_end_length r : rec_valid r -> is_end r = true -> length (payload r) = 40%nat.
Proof.
  unfold is_end. intros [_ Hv] Hk%Z.eqb_eq. rewrite Hk in Hv. unfold validate_kind in Hv.
  cbn in Hv. repeat case_match; try done. lia.
Qed.

Lemma rec_valid_epoch_aux r : rec_valid r -> is_epoch_hash r = true -> is_aux r = true.
Proof.
  unfold is_epoch_hash. intros [_ Hv] Hk%Z.eqb_eq. rewrite Hk in Hv. unfold validate_kind in Hv.
  cbn in Hv. by destruct (is_aux r).
Qed.

Definition saw_result (a e : bool) (pre : list Rec) : Saw :=
  mkSaw true (a || existsb (fun r => is_aux r && negb (is_epoch_hash r)) pre)
    (e || existsb is_epoch_hash pre).

Lemma saw_all_end h rs a e s :
  Forall rec_valid rs ->
  (saw_all h rs (mkSaw false a e) = Ok s /\ saw_end s = true) <->
  exists pre r, rs = pre ++ [r] /\ is_end r = true /\ end_matches h r /\
    Forall (fun r => is_end r = false) pre /\ s = saw_result a e pre.
Proof.
  intros Hv. revert a e. induction Hv as [|r rs Hr Hrs IH]; intros a e.
  { split; [intros [[= <-] ?]; done|intros ([] & ? & ? & _); done]. }
  cbn [saw_all saw_end]. unfold validate_step; cbn [saw_end saw_aux_non_end saw_epoch_hash].
  fold (is_end r) (is_epoch_hash r). destruct (is_end r) eqn:He.
  - pose proof (rec_valid_end_length r Hr He) as Hl. split.
    + intros [H Hs]. apply bind_ok in H as (s1 & (? & Hc & [= <-])%bind_ok & H).
      destruct x. apply check_end_iff in Hc; [|lia].
      destruct rs as [|r' rs]; [|done]. injection H as <-.
      exists [], r. split_and!; auto. unfold saw_result. simpl. by rewrite !orb_false_r.
    + intros (pre & r' & Heq & Hr' & Hm & Hpre & ->). destruct pre as [|p pre].
      * injection Heq as <- ->. apply check_end_iff in Hm as ->; [|lia].
        split; [|done]. unfold saw_result. simpl. by rewrite !orb_false_r.
      * injection Heq as <- ->. inversion Hpre. congruence.
  - set (s0 := mkSaw false (a || is_aux r && negb (is_epoch_hash r)) (e || is_epoch_hash r)).
    transitivity (saw_all h rs s0 = Ok s /\ saw_end s = true).
    { unfold s0. destruct (is_epoch_hash r), (is_aux r); simpl; rewrite ?orb_false_r, ?orb_true_r; done. }
    unfold s0. rewrite IH. unfold saw_result. split.
    + intros (pre & r' & -> & ? & ? & ? & ->). exists (r :: pre), r'. split_and!; auto.
      simpl. by rewrite !orb_assoc.
    + intros (pre & r' & Heq & Hr' & Hm & Hpre & ->). destruct pre as [|p pre].
      * injection Heq as <- ->. congruence.
      * injection Heq as <- ->. inversion Hpre; subst. exists pre, r'. split_and!; auto.
        simpl. by rewrite !orb_assoc.
Qed.

Lemma existsb_aux_split rs :
  Forall rec_valid rs ->
  existsb (fun r => is_aux r && negb (is_epoch_hash r)) rs || existsb is_epoch_hash rs
  = existsb is_aux rs.
Proof.
  induction 1 as [|r rs Hr Hrs IH]; [done|]. simpl. rewrite <- IH.
  pose proof (rec_valid_epoch_aux r Hr).
  destruct (is_epoch_hash r), (is_aux r), (existsb _ rs), (existsb is_epoch_hash rs);
    naive_solver.
Qed.

Lemma framed_default_iff bd rs :
  framed bd RecordScan_default rs <->
  bd = encode_records rs /\ in_order 0 0 rs /\ Forall rec_wf rs /\ Forall rec_valid rs.
Proof. unfold framed. cbn [scan_offset scan_count scan_last_icount RecordScan_default]. by rewrite drop_0. Qed.

(** The record walk accepts exactly the bodies of sealed logs. *)
Lemma validate_records_iff h bd :
  bytes_ok bd ->
  validate_records h bd = Ok tt <->
  exists pre e, bd = encode_records (pre ++ [e]) /\ sealed_log h pre e.
Proof.
  intros Hok. unfold validate_records. split.
  - intros ([scan s] & Hl & H)%bind_ok.
    apply validate_loop_iff in Hl as (rs & s' & Hfr & Hsaw & [= -> ->]); [|done|simpl; lia].
    apply framed_default_iff in Hfr as (-> & Ho & Hw & Hv).
    destruct (saw_end s') eqn:Hse; [|done].
    destruct (proj1 (saw_all_end h rs false false s' Hv)) as (pre & e & -> & He & Hm & Hpre & ->);
      [done|].
    exists pre, e. split; [done|]. cbn in H. repeat case_match; try done.
    split; auto; try lia; rewrite <- ?existsb_aux_split by (by apply Forall_app in Hv as []);
      destruct (Header_has_aux h), (Header_has_epoch_hashes h), (existsb _ pre),
        (existsb is_epoch_hash pre); done.
  - intros (pre & e & -> & [Ho Hw Hv Hpre He Hm Hc Ha Hep]).
    set (bd := encode_records (pre ++ [e])) in *.
    assert (saw_all h (pre ++ [e]) (mkSaw false false false) = Ok (saw_result false false pre)) as Hs.
    { apply saw_all_end; [done|]. exists pre, e. auto. }
    erewrite (proj2 (validate_loop_iff (S (length bd)) h bd RecordScan_default
      (mkSaw false false false) _ Hok ltac:(simpl; lia))).
    2:{ exists (pre ++ [e]), (saw_result false false pre).
        split; [by apply framed_default_iff|]. split; [done|reflexivity]. }
    cbn [mbind outcome_bind saw_result saw_end scan_count saw_aux_non_end saw_epoch_hash
           RecordScan_default orb negb].
    rewrite existsb_aux_split by (by apply Forall_app in Hv as []).
    rewrite Ha, Hep, Hc, !eqb_reflx, Z.add_0_l, Z.eqb_refl. done.
Qed.

Lemma validate_records_no_panic h bd : bytes_ok bd -> validate_records h bd <> Panic.
Proof.
  intros Hok. unfold validate_records. apply bind_not_panic.
  - apply validate_loop_no_panic; [done|simpl; lia].
  - intros [scan s] _. by repeat (case_match; [done|]).
Qed.

Lemma parse_header_no_panic b sealed : parse_header_with_seal b sealed <> Panic.
Proof.
  unfold parse_header_with_seal, HEADER_LEN. case_match; [done|].
  repeat (reads; repeat (case_match; [done|])). done.
Qed.

(** ** The infallible accessors *)

Lemma validate_kind_known k a p n ic c :
  validate_kind k a p n ic = Ok tt -> class_aux k = Some c ->
  a = c /\ layout_ok k p n ic = Ok true.
Proof.
  unfold validate_kind. intros H Hc. rewrite Hc in H.
  destruct (eqb c a) eqn:E; [|done]. apply eqb_prop in E as ->.
  apply bind_ok in H as ([] & H & ?); done.
Qed.

(** Every record a scan lets through has a typed body. *)
Lemma body_ok r : rec_valid r -> exists b, body r = Ok b.
Proof.
  intros [_ Hv]. unfold body.
  repeat match goal with
  | |- exists _, (if kind r =? ?k then _ else _) = _ =>
      destruct (kind r =? k) eqn:?;
      [match goal with H : (kind r =? k) = true |- _ =>
         apply Z.eqb_eq in H; rewrite H in Hv;
         eapply validate_kind_known in Hv as [_ Hv]; [|reflexivity];
         cbn in Hv; unfold BISECTION_CHECKPOINT_PAYLOAD_LEN in Hv;
         repeat case_match; try discriminate Hv; simplify_eq; reads; eauto
       end|]
  end. eauto.
Qed.

Lemma Records_next_end bd off : (length bd <= off)%nat -> Records_next bd off = Ok None.
Proof. intros. unfold Records_next. by rewrite (proj2 (Nat.leb_le _ _)). Qed.

Lemma Records_next_framed bd s r s' :
  scanned bd s r s' -> Records_next bd (scan_offset s) = Ok (Some (r, scan_offset s')).
Proof.
  intros Hs. pose proof (scanned_offset _ _ _ _ Hs).
  destruct Hs as (Hd & Hwf & _ & _ & _ & ->). cbn [scan_offset] in *.
  destruct Hwf as (Hk & Hf & Hsq & Hic & Hrip & Hp & Hmax). unfold MAX_PAYLOAD in *.
  unfold Records_next. case_match; [lia|]. rewrite Hd.
  set (t := drop _ bd) in *. pose proof (length_encode_record r) as He.
  assert (24 + length (payload r) <= length (encode_record r ++ t))%nat
    by (rewrite length_app; lia).
  reads. rewrite slice_encode_kind, slice_encode_rflags, slice_encode_len, slice_encode_seq,
    slice_encode_icount, slice_encode_rip, !of_le_single.
  rewrite of_le_u32, !of_le_u64, of_le_u16 by ulia. rewrite Nat2Z.id. reads.
  rewrite slice_encode_payload, He. by destruct r.
Qed.

Lemma Records_collect_framed fuel bd s rs :
  (length bd - scan_offset s < fuel)%nat -> framed bd s rs ->
  Records_collect fuel bd (scan_offset s) = Ok rs.
Proof.
  revert s rs. induction fuel as [|fuel IH]; intros s rs Hf Hfr; [lia|]. cbn.
  destruct rs as [|r rs].
  - rewrite Records_next_end; [done|]. destruct Hfr as [Hd _]. apply (f_equal length) in Hd.
    rewrite length_drop in Hd. simpl in Hd. lia.
  - apply framed_cons in Hfr as (s' & Hs & Hfr). pose proof (scanned_offset _ _ _ _ Hs).
    rewrite (Records_next_framed _ _ _ _ Hs). cbn. by rewrite (IH s' rs) by (done || lia).
Qed.

Lemma sealed_framed h pre e :
  sealed_log h pre e -> framed (encode_records (pre ++ [e])) RecordScan_default (pre ++ [e]).
Proof. intros []. by apply framed_default_iff. Qed.

(** ** Inspection of crash artifacts *)

Lemma inspect_loop_spec fuel bd s :
  bytes_ok bd -> (length bd - scan_offset s < fuel)%nat ->
  exists rs stop, inspect_loop fuel bd s = Ok (rs, stop) /\ Forall rec_valid rs /\
    in_order (scan_count s) (scan_last_icount s) rs /\
    (exists t, drop (scan_offset s) bd = encode_records rs ++ t /\ (stop = Eof <-> t = [])) /\
    (forall rs', framed bd s rs' -> rs = rs' /\ stop = Eof).
Proof.
  intros Hok. revert s. induction fuel as [|fuel IH]; intros s Hf; [lia|]. cbn [inspect_loop].
  destruct (scan_next_record bd s) as [[[r s']|]|e|] eqn:Hs; [| | |by apply scan_no_panic in Hs].
  - apply (scan_sound _ _ _ _ Hok) in Hs. pose proof (scanned_offset _ _ _ _ Hs).
    destruct (IH s') as (rs & stop & -> & Hv & Ho & (t & Ht & Hstop) & Hfr); [lia|].
    exists (r :: rs), stop. cbn [mbind outcome_bind]. pose proof Hs as (Hd & _ & Hr & Hseq & Hl & ->).
    split_and!; auto.
    + cbn. auto.
    + exists t. rewrite encode_records_cons, <- app_assoc, <- Ht. auto.
    + intros [|r' rs'] H'.
      { destruct H' as [H' _]. apply (f_equal length) in H'. rewrite length_drop in H'.
        simpl in H'. lia. }
      apply framed_cons in H' as (s2 & Hs2%scan_complete & H').
      rewrite (scan_complete _ _ _ _ Hs) in Hs2. injection Hs2 as <- <-.
      apply Hfr in H' as [-> ->]. auto.
  - apply scan_none in Hs. exists [], Eof. split_and!; auto; [done| |].
    + exists []. rewrite drop_ge by done. done.
    + intros rs' H'. split; [|done]. eapply framed_inj; [|exact H']. by apply framed_nil.
  - exists [], (Corrupt e). split_and!; auto; [done| |].
    + exists (drop (scan_offset s) bd). split; [done|]. split; [done|].
      intros H%(f_equal length). rewrite length_drop in H. simpl in H.
      rewrite (proj2 (scan_none bd s)) in Hs by lia. done.
    + intros [|r' rs'] H'.
      * destruct H' as [H' _]. apply (f_equal length) in H'. rewrite length_drop in H'.
        simpl in H'. rewrite (proj2 (scan_none bd s)) in Hs by lia. done.
      * apply framed_cons in H' as (s2 & Hs2%scan_complete & H'). congruence.
Qed.

Lemma rec_valid_end_aux r : rec_valid r -> is_end r = true -> is_aux r = true.
Proof.
  unfold is_end. intros [_ Hv] Hk%Z.eqb_eq. rewrite Hk in Hv.
  by eapply validate_kind_known in Hv as [? _].
Qed.

Lemma end_body h e :
  rec_valid e -> is_end e = true -> end_matches h e ->
  body e = Ok (End (of_le (slice 0 1 (payload e))) (h_end_state_hash h)).
Proof.
  intros Hv He (_ & _ & _ & <-). pose proof (rec_valid_end_length e Hv He).
  unfold is_end in He. apply Z.eqb_eq in He. unfold body. rewrite He. cbn [Z.eqb KIND_END].
  reads. done.
Qed.

Section reader_theorems.
Context {B : Blake3}.

Lemma parse_iff b rd :
  bytes_ok b ->
  LogReader_parse b = Ok rd <->
  exists h pre e, parse_header b = Ok h /\ blake3 (drop HEADER_LEN b) = h_body_hash h /\
    drop HEADER_LEN b = encode_records (pre ++ [e]) /\ sealed_log h pre e /\
    rd = mkLogReader h (drop HEADER_LEN b).
Proof.
  intros Hok. assert (bytes_ok (drop HEADER_LEN b)) by (by apply Forall_drop).
  unfold LogReader_parse. split.
  - intros (h & Hh & H')%bind_ok. case_bool_decide; [|done]. cbn [negb] in H'.
    apply bind_ok in H' as ([] & Hv & [= <-]).
    apply validate_records_iff in Hv as (pre & e & ? & ?); naive_solver.
  - intros (h & pre & e & -> & Hhash & Hbd & Hsl & ->). cbn [mbind outcome_bind].
    rewrite bool_decide_true by done. cbn [negb].
    by rewrite (proj2 (validate_records_iff h _ ltac:(done))) by eauto.
Qed.

(** The records of a parsed log. *)
Lemma parsed_records b rd :
  bytes_ok b -> LogReader_parse b = Ok rd ->
  exists pre e, records rd = Ok (pre ++ [e]) /\ rd_body rd = encode_records (pre ++ [e]) /\
    sealed_log (rd_header rd) pre e.
Proof.
  intros Hok (h & pre & e & _ & _ & Hbd & Hsl & ->)%parse_iff; [|done]. exists pre, e.
  cbn [rd_body rd_header]. split_and!; [|done|done]. unfold records. cbn [rd_body].
  apply (Records_collect_framed _ _ RecordScan_default); [simpl; lia|]. rewrite Hbd. by eapply sealed_framed.
Qed.

(** C4: totality of the readers.  On every byte string, sealed or not,
    well-formed or not, both parsers return a value or a typed error: no slice
    index is out of range, no [expect]/[unwrap] fires and the record loops end
    within one iteration per byte. *)
Theorem readers_total b :
  bytes_ok b -> LogReader_parse b <> Panic /\ parse_unsealed b <> Panic.
Proof.
  intros Hok. assert (bytes_ok (drop HEADER_LEN b)) by (by apply Forall_drop). split.
  - unfold LogReader_parse. apply bind_not_panic; [apply parse_header_no_panic|]. intros h _. case_match; [done|].
    apply bind_not_panic; [by apply validate_records_no_panic|done].
  - unfold parse_unsealed. apply bind_not_panic; [apply parse_header_no_panic|]. intros h _.
    destruct (inspect_loop_spec (S (length (drop HEADER_LEN b))) (drop HEADER_LEN b)
      RecordScan_default) as (rs & stop & -> & _); [done|simpl; lia|done].
Qed.

(** C2: the reader accepts exactly the sealed logs.  [parse] succeeds if and
    only if the header parses, the body hash matches, and the body is, byte for
    byte, the encoding of a list of records that satisfies [sealed_log]:
    consecutive sequence numbers, non-regressing icounts, valid layouts, one
    END at the end that agrees with the header, and honest count and flags. *)
Theorem parse_accepts_exactly_sealed_logs b rd :
  bytes_ok b ->
  LogReader_parse b = Ok rd <->
  exists h pre e, parse_header b = Ok h /\ blake3 (drop HEADER_LEN b) = h_body_hash h /\
    drop HEADER_LEN b = encode_records (pre ++ [e]) /\ sealed_log h pre e /\
    rd = mkLogReader h (drop HEADER_LEN b).
Proof. apply parse_iff. Qed.

(** After a successful [parse] every accessor is infallible: the iterator
    yields precisely the records of the sealed log, each with a typed body; the
    canonical view drops the AUX records (END among them), the AUX view ends in
    END, and [end()] returns the header's state hash. *)
Theorem accessors_infallible b rd :
  bytes_ok b -> LogReader_parse b = Ok rd ->
  exists pre e stop,
    records rd = Ok (pre ++ [e]) /\
    rd_body rd = encode_records (pre ++ [e]) /\
    Forall (fun r => exists bd, body r = Ok bd) (pre ++ [e]) /\
    canonical rd = Ok (List.filter (fun r => negb (is_aux r)) pre) /\
    aux rd = Ok (List.filter is_aux pre ++ [e]) /\
    LogReader_end rd = Ok (stop, h_end_state_hash (rd_header rd)).
Proof.
  intros Hok Hp. destruct (parsed_records b rd Hok Hp) as (pre & e & Hr & Hbd & Hsl).
  pose proof (sl_valid _ _ _ Hsl) as Hv.
  assert (rec_valid e) as Hve by (apply Forall_app in Hv as [_ Hv]; by inversion Hv).
  pose proof (rec_valid_end_aux e Hve (sl_end _ _ _ Hsl)) as Hea.
  exists pre, e, (of_le (slice 0 1 (payload e))).
  unfold canonical, aux, LogReader_end. rewrite Hr. cbn [mbind outcome_bind].
  rewrite !List.filter_app, last_snoc. cbn. rewrite Hea. cbn. rewrite app_nil_r.
  rewrite (end_body (rd_header rd)) by (apply Hsl || done).
  split_and!; auto. eapply Forall_impl; [exact Hv|]. intros r. apply body_ok.
Qed.

(** Inspection never disagrees with replay.  On any artifact whose
    header shape is right, inspection returns a prefix of valid, ordered
    records that is byte for byte the start of the body and reports [Eof]
    exactly when nothing is left; on a log [parse] accepts it returns the same
    records as the reader and stops at [Eof]. *)
Theorem inspection_agrees b li :
  bytes_ok b -> parse_unsealed b = Ok li ->
  Forall rec_valid (li_records li) /\ in_order 0 0 (li_records li) /\
  (exists t, drop HEADER_LEN b = encode_records (li_records li) ++ t /\ (li_stop li = Eof <-> t = [])) /\
  (forall rd, LogReader_parse b = Ok rd -> records rd = Ok (li_records li) /\ li_stop li = Eof).
Proof.
  intros Hok H. assert (bytes_ok (drop HEADER_LEN b)) as Hbd by (by apply Forall_drop).
  unfold parse_unsealed in H. apply bind_ok in H as (h & _ & H).
  destruct (inspect_loop_spec (S (length (drop HEADER_LEN b))) (drop HEADER_LEN b)
      RecordScan_default) as (rs & stop & Hl & Hv & Ho & Ht & Hfr); [done|simpl; lia|].
  rewrite Hl in H. injection H as <-. cbn [li_records li_stop].
  split_and!; auto. intros rd (h' & pre & e & _ & _ & Heq & Hsl & ->)%parse_iff; [|done].
  assert (framed (drop HEADER_LEN b) RecordScan_default (pre ++ [e])) as Hf
    by (rewrite Heq; by eapply sealed_framed).
  destruct (Hfr _ Hf) as [-> ->]. split; [|done].
  apply (Records_collect_framed _ _ RecordScan_default); [simpl; lia|done].
Qed.

End reader_theorems.

(** ** Evaluation on a concrete image *)

Definition example_reader : LogReader :=
  match LogReader_parse (B := example_hash) example_image with
  | Ok rd => rd
  | _ => mkLogReader (mkHeader 0 0 [] [] [] [] 0 0 0 0 0 [] [] 0) []
  end.
Lemma example_image_ok : bytes_ok example_image.
Proof. apply bytes_okb_ok. vm_compute. reflexivity. Qed.
Lemma example_parses : LogReader_parse (B := example_hash) example_image = Ok example_reader.
Proof. vm_compute. reflexivity. Qed.

Lemma readers_total_witness :
  LogReader_parse (B := example_hash) example_image <> Panic /\ parse_unsealed example_image <> Panic.
Proof. apply (readers_total (B := example_hash) example_image example_image_ok). Defined.

Lemma parse_accepts_exactly_sealed_logs_witness :
  exists h pre e, parse_header example_image = Ok h /\
    blake3 (Blake3 := example_hash) (drop HEADER_LEN example_image) = h_body_hash h /\
    drop HEADER_LEN example_image = encode_records (pre ++ [e]) /\ sealed_log h pre e /\
    example_reader = mkLogReader h (drop HEADER_LEN example_image).
Proof.
  apply (parse_accepts_exactly_sealed_logs (B := example_hash) example_image example_reader
    example_image_ok). apply example_parses.
Defined.

Lemma accessors_infallible_witness :
  exists pre e stop,
    records example_reader = Ok (pre ++ [e]) /\
    rd_body example_reader = encode_records (pre ++ [e]) /\
    Forall (fun r => exists bd, body r = Ok bd) (pre ++ [e]) /\
    canonical example_reader = Ok (List.filter (fun r => negb (is_aux r)) pre) /\
    aux example_reader = Ok (List.filter is_aux pre ++ [e]) /\
    LogReader_end example_reader = Ok (stop, h_end_state_hash (rd_header example_reader)).
Proof.
  apply (accessors_infallible (B := example_hash) example_image example_reader
    example_image_ok example_parses).
Defined.

Definition example_inspection : LogInspection :=
  match parse_unsealed example_image with
  | Ok li => li
  | _ => mkLogInspection (rd_header example_reader) [] Eof
  end.

Lemma inspection_agrees_witness :
  Forall rec_valid (li_records example_inspection) /\
  in_order 0 0 (li_records example_inspection) /\
  (exists t, drop HEADER_LEN example_image = encode_records (li_records example_inspection) ++ t /\
     (li_stop example_inspection = Eof <-> t = [])) /\
  (forall rd, LogReader_parse (B := example_hash) example_image = Ok rd ->
     records rd = Ok (li_records example_inspection) /\ li_stop example_inspection = Eof).
Proof.
  apply (inspection_agrees (B := example_hash) example_image example_inspection example_image_ok).
  vm_compute. reflexivity.
Defined.
