(* ===== verification/LogRoundtrip.v ===== *)
(** * DHILOG round trip: [dhilog.rs] against [reader.rs]

    The writer's public calls as a data type, the effect of a whole session of
    calls, and the theorem that sealing any session gives an image the reader
    accepts and decodes back to the calls that were made. *)

From S2P Require Import Prelude DhiLog LogReader.

Definition hash32 (b : bytes) : Prop := length b = 32%nat /\ bytes_ok b.

Definition seg_wf (h : SegmentHeader) : Prop :=
  hash32 (sh_base_snapshot_id h) /\ hash32 (sh_entropy_seed h) /\
  hash32 (sh_machine_config_hash h) /\ u32 (sh_clock_num h) /\ u32 (sh_clock_den h) /\
  u64 (sh_encoder_fingerprint h).

Definition params_wf (p : SealParams) : Prop :=
  hash32 (sp_end_snapshot_id p) /\ u64 (sp_end_icount p) /\ u64 (sp_end_vns p) /\
  hash32 (sp_end_state_hash p) /\ u8 (sp_stop_reason p).

(** ** The writer's interface as data *)

Inductive call :=
| CPadSet (icount rip port buttons frame_hint : Z)
| CDevEvent (icount rip device_id event_type : Z) (data : bytes)
| CNetRx (icount rip : Z) (frame : bytes)
| CPioAnswer (icount rip port value : Z)
| CEntropy (icount rip len digest8 : Z)
| CNetTx (icount rip len digest8 : Z)
| CEpochHash (icount rip epoch_index : Z) (chain_value : bytes)
| CTimerFire (icount rip vector armed_deadline_vns delivered_icount : Z)
| CSdkEvent (icount rip stream len digest8 : Z)
| CFrameMark (icount rip frame_index : Z)
| CBisectionCheckpoint (icount rip max_covered_gap : Z) (snapshot_ref : bytes) (vns : Z).

Definition run_call (c : call) : method LogWriter WriteError unit :=
  match c with
  | CPadSet i r p b f => pad_set i r p b f
  | CDevEvent i r d e x => dev_event i r d e x
  | CNetRx i r f => net_rx i r f
  | CPioAnswer i r p v => pio_answer i r p v
  | CEntropy i r l d => entropy i r l d
  | CNetTx i r l d => net_tx i r l d
  | CEpochHash i r e v => epoch_hash i r e v
  | CTimerFire i r v a d => timer_fire i r v a d
  | CSdkEvent i r s l d => sdk_event i r s l d
  | CFrameMark i r f => frame_mark i r f
  | CBisectionCheckpoint i r g s v => bisection_checkpoint i r g s v
  end.

(** The Rust types of the arguments. *)
Definition call_wf (c : call) : Prop :=
  match c with
  | CPadSet i r p b f => u64 i /\ u64 r /\ u8 p /\ u32 b /\ u32 f
  | CDevEvent i r d e x => u64 i /\ u64 r /\ u16 d /\ u16 e /\ bytes_ok x
  | CNetRx i r f => u64 i /\ u64 r /\ bytes_ok f
  | CPioAnswer i r p v => u64 i /\ u64 r /\ u16 p /\ u32 v
  | CEntropy i r l d => u64 i /\ u64 r /\ u32 l /\ u64 d
  | CNetTx i r l d => u64 i /\ u64 r /\ u32 l /\ u64 d
  | CEpochHash i r e v => u64 i /\ u64 r /\ u64 e /\ hash32 v
  | CTimerFire i r v a d => u64 i /\ u64 r /\ u8 v /\ u64 a /\ u64 d
  | CSdkEvent i r s l d => u64 i /\ u64 r /\ u16 s /\ u32 l /\ u64 d
  | CFrameMark i r f => u64 i /\ u64 r /\ u32 f
  | CBisectionCheckpoint i r g s v => u64 i /\ u64 r /\ u32 g /\ hash32 s /\ u64 v
  end.

Definition call_icount (c : call) : Z :=
  match c with
  | CPadSet i _ _ _ _ | CDevEvent i _ _ _ _ | CNetRx i _ _ | CPioAnswer i _ _ _
  | CEntropy i _ _ _ | CNetTx i _ _ _ | CEpochHash i _ _ _ | CTimerFire i _ _ _ _
  | CSdkEvent i _ _ _ _ | CFrameMark i _ _ | CBisectionCheckpoint i _ _ _ _ => i
  end.

Definition call_rip (c : call) : Z :=
  match c with
  | CPadSet _ r _ _ _ | CDevEvent _ r _ _ _ | CNetRx _ r _ | CPioAnswer _ r _ _
  | CEntropy _ r _ _ | CNetTx _ r _ _ | CEpochHash _ r _ _ | CTimerFire _ r _ _ _
  | CSdkEvent _ r _ _ _ | CFrameMark _ r _ | CBisectionCheckpoint _ r _ _ _ => r
  end.

(** Canonical calls are inputs replay applies; the others are AUX. *)
Definition call_is_aux (c : call) : bool :=
  match c with CPadSet _ _ _ _ _ | CDevEvent _ _ _ _ _ | CNetRx _ _ _ | CPioAnswer _ _ _ _ => false
  | _ => true end.

(** The typed body the reader is expected to show for a call. *)
Definition call_body (c : call) : RecordBody :=
  match c with
  | CPadSet _ _ p b f => PadSet p b f
  | CDevEvent _ _ d e x => DevEvent d e x
  | CNetRx _ _ f => NetRx f
  | CPioAnswer _ _ p v =>
      DevEvent DEVICE_ID_DETCHANNEL EVENT_PIO_ANSWER (le_bytes 2 p ++ [0; 0] ++ le_bytes 4 v)
  | CEntropy _ _ l d => Entropy l d
  | CNetTx _ _ l d => NetTx l d
  | CEpochHash _ _ e v => EpochHash e v
  | CTimerFire _ _ v a d => TimerFire v a d
  | CSdkEvent _ _ s l d => SdkEvent s l d
  | CFrameMark _ _ f => FrameMark f
  | CBisectionCheckpoint i _ g s v => BisectionCheckpoint 1 0 g s i v
  end.

(** The record [r] at position [n] of the log is what call [c] recorded. *)
Definition call_matches (n : nat) (c : call) (r : Rec) : Prop :=
  seq r = Z.of_nat n /\ icount r = call_icount c /\ boundary_rip r = call_rip c /\
  is_aux r = call_is_aux c /\ body r = Ok (call_body c).

(** A writer session: every call in turn, the refused ones leaving no record.
    The result lists the accepted calls. *)
Fixpoint drive (cs : list call) (w : LogWriter) : list call * LogWriter :=
  match cs with
  | [] => ([], w)
  | c :: cs =>
      match run_call c w with
      | (Ok _, w') => let (acc, w'') := drive cs w' in (c :: acc, w'')
      | (_, w') => drive cs w'
      end
  end.

(** ** One call *)

(** [repr] plus what only the typed calls guarantee. *)
Definition wrepr (w : LogWriter) (h : SegmentHeader) (rs : list Rec) : Prop :=
  repr w h rs /\ wrote_epoch_hash w = existsb is_epoch_hash rs /\
  Forall rec_valid rs /\ Forall (fun r => is_end r = false) rs.

(** A refused call leaves the writer untouched. *)
Lemma run_call_fail c w o w' : run_call c w = (o, w') -> o <> Ok tt -> w' = w /\ exists e, o = Err e.
Proof.
  destruct c; cbn [run_call]; unfold pio_answer, dev_event, net_rx, epoch_hash; intros Hr Ho;
    try (by eapply record_fail); repeat case_match; simplify_eq; eauto;
    by eapply record_fail.
Qed.

(** What remains to show for a call that boils down to [record]. *)
Lemma record_call w h rs k f p ic rip w' :
  wrepr w h rs -> u8 k -> u64 ic -> u64 rip -> bytes_ok p ->
  Z.land f (Z.lnot RFLAG_AUX) = 0 -> u8 f ->
  (k =? KIND_END) = false -> (k =? KIND_EPOCH_HASH) = false ->
  record k f ic rip p w = (Ok tt, w') ->
  (forall n, validate_kind k (negb (Z.land f RFLAG_AUX =? 0)) p n ic = Ok tt) ->
  wrepr w' h (rs ++ [mkRec k f (Z.of_nat (length rs)) ic rip p]).
Proof.
  intros (R & Hw & Hv & He) Hk Hic Hrip Hp Hf1 Hf Hend Hep H Hval.
  destruct (record_appends _ _ _ _ _ _ _ _ _ R Hk Hf Hic Hrip Hp H) as [R' Hw'].
  split; [done|]. rewrite Hw', Hw, existsb_app. cbn. unfold is_epoch_hash at 3. cbn. rewrite Hep.
  split; [by rewrite orb_false_r|].
  split; apply Forall_app; (split; [done|]); (constructor; [|done]); [|done].
  split; [done|]. apply Hval.
Qed.

(** The payload of a fixed-layout call decodes to the call's body. *)
Ltac solve_body :=
  unfold body; cbn [kind payload]; pick_branch;
  match goal with |- context [replicate ?n 0] => name_puts n end;
  reads; walk_puts;
  rewrite ?of_le_single, ?of_le_u16, ?of_le_u32, ?of_le_u64 by (done || ulia);
  reflexivity.

Ltac solve_bytes :=
  first
    [ assumption | apply le_bytes_ok | apply bytes_ok_replicate
    | apply Forall_put; solve_bytes
    | match goal with |- context [_ ++ _] => apply Forall_app; split; solve_bytes end
    | solve [repeat first [apply Forall_nil_2 | apply Forall_cons_2; [done|]]] ].

Ltac solve_layout :=
  intros; unfold validate_kind, layout_ok;
  match goal with |- context [class_aux ?k] =>
    let c := eval vm_compute in (class_aux k) in change (class_aux k) with c end;
  cbv iota beta; change (negb (Z.land 0 RFLAG_AUX =? 0)) with false;
  change (negb (Z.land RFLAG_AUX RFLAG_AUX =? 0)) with true;
  cbn [eqb negb]; cbn [orb]; pick_branch;
  match goal with |- context [(length ?p =? ?n)%nat] =>
    assert (length p = n) as -> by put_len; rewrite Nat.eqb_refl end;
  reflexivity.

(** A call whose body is one [record] of a fixed-size payload. *)
Ltac fixed_call :=
  match goal with H : record _ _ _ _ _ _ = (Ok tt, _) |- _ =>
    eexists; split; [eapply record_call; [eassumption|..|exact H|];
      first [done | ulia | solve_bytes | solve_layout]
    |split_and!; [done|done|done|done|solve_body]] end.

(** DEV_EVENT: the caller's data behind an 8-byte preamble. *)
Definition dev_payload (d e : Z) (x : bytes) : bytes :=
  le_bytes 2 d ++ le_bytes 2 e ++ le_bytes 4 (Z.of_nat (length x)) ++ x.

Lemma dev_event_ok ic rip d e x w h rs w' :
  wrepr w h rs -> u64 ic -> u64 rip -> u16 d -> u16 e -> bytes_ok x ->
  dev_event ic rip d e x w = (Ok tt, w') ->
  exists r, wrepr w' h (rs ++ [r]) /\ seq r = Z.of_nat (length rs) /\ icount r = ic /\
    boundary_rip r = rip /\ is_aux r = false /\ body r = Ok (DevEvent d e x).
Proof.
  intros R Hic Hrip Hd He Hx H. unfold dev_event, MAX_DEV_EVENT_DATA, MAX_PAYLOAD in H.
  case_match; [done|]. cbv zeta in H. rewrite to_u32_small in H by ulia.
  rewrite <- !app_assoc in H. fold (dev_payload d e x) in H.
  assert (length (dev_payload d e x) = 8 + length x)%nat as Hl by (unfold dev_payload; len_lia).
  assert (forall y, slice 0 2 (dev_payload d e x ++ y) = le_bytes 2 d) as S0 by done.
  assert (slice 4 4 (dev_payload d e x) = le_bytes 4 (Z.of_nat (length x))) as S4 by done.
  eexists; split; [eapply record_call; [eassumption|..|exact H|]; try (done || ulia)|].
  - unfold dev_payload. solve_bytes.
  - intros n. unfold validate_kind, layout_ok. cbn [class_aux]. pick_branch. cbn [negb eqb].
    rewrite Hl. cbn [Nat.leb Nat.add]. rewrite read_le_ok, S4, of_le_u32 by (rewrite ?Hl; ulia || lia).
    cbn [mbind outcome_bind].
    replace (Z.of_nat (length x) =? Z.of_nat (S (S (S (S (S (S (S (S (length x))))))))) - 8)
      with true by lia. done.
  - split_and!; try done. unfold body. cbn [kind payload]. pick_branch. reads.
    change (slice 0 2 (dev_payload d e x)) with (le_bytes 2 d).
    change (slice 2 2 (dev_payload d e x)) with (le_bytes 2 e).
    rewrite !of_le_u16 by done. do 2 f_equal. unfold slice.
    change (drop 8 (dev_payload d e x)) with x. rewrite Hl. apply take_ge. lia.
Qed.

(** NET_RX: the payload is the frame. *)
Lemma net_rx_ok ic rip f w h rs w' :
  wrepr w h rs -> u64 ic -> u64 rip -> bytes_ok f -> net_rx ic rip f w = (Ok tt, w') ->
  exists r, wrepr w' h (rs ++ [r]) /\ call_matches (length rs) (CNetRx ic rip f) r.
Proof.
  intros R Hic Hrip Hf H. unfold net_rx in H. do 2 (case_match; [done|]).
  eexists; split; [eapply record_call; [eassumption|..|exact H|]; try (done || ulia)|done].
  intros n. unfold validate_kind, layout_ok. cbn [class_aux]. pick_branch. cbn [negb eqb].
  replace ((1 <=? Z.of_nat (length f)) && (Z.of_nat (length f) <=? MAX_NET_RX_FRAME)) with true by lia.
  done.
Qed.

(** EPOCH_HASH also raises the writer's epoch flag. *)
Lemma epoch_hash_ok ic rip i c w h rs w' :
  wrepr w h rs -> u64 ic -> u64 rip -> u64 i -> hash32 c ->
  epoch_hash ic rip i c w = (Ok tt, w') ->
  exists r, wrepr w' h (rs ++ [r]) /\ call_matches (length rs) (CEpochHash ic rip i c) r.
Proof.
  intros (R & Hw & Hv & He) Hic Hrip Hi [Hc1 Hc2] H. unfold epoch_hash in H. cbv zeta in H.
  destruct (record _ _ _ _ _ _) as [[[]|err|] w1] eqn:Hr; [|done..]. injection H as <-.
  eapply record_appends in Hr as [R1 Hw1]; [|exact R|done|done|done|done|solve_bytes].
  match type of R1 with repr _ _ (_ ++ [?r]) => exists r end.
  split; [split_and!|split_and!; try done; solve_body].
  - destruct R1. split; done.
  - cbn [wrote_epoch_hash]. rewrite existsb_app. cbn. by rewrite orb_true_r.
  - apply Forall_app; split; [done|]. constructor; [|done]. split; [done|].
    cbn [kind payload seq icount is_aux]. unfold is_aux; cbn [rflags]. solve_layout.
  - apply Forall_app; split; [done|]. by constructor.
Qed.

Lemma bisection_payload_layout ic g s v n :
  hash32 s -> u64 ic ->
  validate_kind KIND_BISECTION_CHECKPOINT true
    (put 48 (le_bytes 8 v) (put 40 (le_bytes 8 ic) (put 8 s (put 4 (le_bytes 4 g)
      (put 2 (le_bytes 2 BISECTION_CHECKPOINT_FLAGS)
        (put 0 (le_bytes 2 BISECTION_CHECKPOINT_FORMAT_VERSION)
          (replicate BISECTION_CHECKPOINT_PAYLOAD_LEN 0))))))) n ic = Ok tt.
Proof.
  intros [Hs _] Hic. unfold validate_kind, layout_ok, BISECTION_CHECKPOINT_PAYLOAD_LEN.
  cbn [class_aux]. pick_branch. cbn [negb eqb].
  match goal with |- context [(length ?p =? ?n)%nat] =>
    assert (length p = n) as Hl by put_len; rewrite Hl; cbn [Nat.eqb negb] end.
  name_puts 56%nat. reads. walk_puts. rewrite of_le_u64 by done.
  change (of_le (le_bytes 2 BISECTION_CHECKPOINT_FORMAT_VERSION)) with 1.
  change (of_le (le_bytes 2 BISECTION_CHECKPOINT_FLAGS)) with 0.
  cbn [Z.eqb Pos.eqb negb BISECTION_CHECKPOINT_FORMAT_VERSION BISECTION_CHECKPOINT_FLAGS].
  by rewrite Z.eqb_refl.
Qed.

Lemma run_call_ok c w h rs w' :
  wrepr w h rs -> call_wf c -> run_call c w = (Ok tt, w') ->
  exists r, wrepr w' h (rs ++ [r]) /\ call_matches (length rs) c r.
Proof.
  intros R Hwf H. destruct c; cbn in Hwf; destruct_and?; cbn [run_call] in H;
    unfold pad_set, entropy, net_tx, timer_fire, sdk_event, frame_mark in H; cbv zeta in H;
    try fixed_call.
  - eapply dev_event_ok; eauto.
  - by eapply net_rx_ok.
  - eapply dev_event_ok in H; [exact H|done..|solve_bytes].
  - by eapply epoch_hash_ok.
  - unfold bisection_checkpoint, hash32 in *. cbv zeta in H. destruct_and?.
    eexists; split; [eapply record_call; [eassumption|..|exact H|];
      first [done|ulia|solve_bytes|intros; by apply bisection_payload_layout]|].
    split_and!; try done. unfold BISECTION_CHECKPOINT_PAYLOAD_LEN. solve_body.
Qed.

(** ** The header *)

Section roundtrip.
Context {B : Blake3} {BS : Blake3Spec B}.

(** The header a reader finds in a sealed image. *)
Definition header_of (h : SegmentHeader) (p : SealParams) (flags count : Z) (bd : bytes) : Header :=
  {| h_version := FORMAT_VERSION; h_flags := flags;
     h_base_snapshot_id := sh_base_snapshot_id h; h_end_snapshot_id := sp_end_snapshot_id p;
     h_entropy_seed := sh_entropy_seed h; h_machine_config_hash := sh_machine_config_hash h;
     h_clock_num := sh_clock_num h; h_clock_den := sh_clock_den h; h_record_count := count;
     h_end_icount := sp_end_icount p; h_end_vns := sp_end_vns p;
     h_end_state_hash := sp_end_state_hash p; h_body_hash := blake3 bd;
     h_encoder_fingerprint := sh_encoder_fingerprint h |}.

Lemma backfill_body h p flags count bd :
  seg_wf h -> params_wf p ->
  drop HEADER_LEN (backfill h p flags count (replicate HEADER_LEN 0 ++ bd)) = bd.
Proof.
  intros ((? & ?) & (? & ?) & (? & ?) & _) ((? & ?) & _ & _ & (? & ?) & _).
  unfold backfill, HEADER_LEN; cbv zeta. remember (replicate #256 0 ++ bd) as d eqn:Ed.
  assert (#256 <= length d)%nat by (rewrite Ed; len_lia).
  assert (length DHILOG_MAGIC = 6%nat) by done. name_puts #256. walk_puts.
  rewrite Ed. by rewrite drop_app_length' by (by rewrite length_replicate).
Qed.

Lemma backfill_ok h p flags count bd :
  seg_wf h -> params_wf p -> bytes_ok bd ->
  bytes_ok (backfill h p flags count (replicate HEADER_LEN 0 ++ bd)).
Proof.
  intros ((? & ?) & (? & ?) & (? & ?) & _) ((? & ?) & _ & _ & (? & ?) & _) ?.
  unfold backfill. pose proof blake3_ok.
  repeat first [apply Forall_put; [first [done|apply le_bytes_ok|by apply bytes_okb_ok|by apply blake3_ok]|]].
  apply Forall_app; split; [apply bytes_ok_replicate|done].
Qed.

Lemma parse_header_backfill h p flags count bd :
  seg_wf h -> params_wf p -> u64 count -> 0 < sh_clock_den h ->
  0 <= flags < 8 -> Z.land flags FLAG_SEALED <> 0 ->
  parse_header (backfill h p flags count (replicate HEADER_LEN 0 ++ bd))
  = Ok (header_of h p flags count bd).
Proof.
  intros Hh Hp Hc Hden Hfl Hse. pose proof (backfill_body h p flags count bd Hh Hp) as Hbd.
  destruct Hh as ((? & ?) & (? & ?) & (? & ?) & ? & ? & ?).
  destruct Hp as ((? & ?) & ? & ? & (? & ?) & ?).
  unfold parse_header, parse_header_with_seal, backfill, header_of, HEADER_LEN in *.
  cbv zeta in *.
  remember (replicate #256 0 ++ bd) as d eqn:Ed.
  assert (#256 <= length d)%nat by (rewrite Ed; len_lia).
  assert (length DHILOG_MAGIC = 6%nat) by done. name_puts #256. reads. walk_puts.
  assert (forall o n, (o + n <= #256)%nat -> slice o n d = replicate n 0) as Hd0.
  { intros o n Hon. rewrite Ed, slice_app_l by (rewrite length_replicate; lia).
    by apply slice_replicate. }
  rewrite !Hd0 by lia. rewrite of_le_u16, !of_le_u32, !of_le_u64 by (unfold FORMAT_VERSION; ulia).
  rewrite !bool_decide_true by done.
  assert (Z.land flags (Z.lnot (Z.lor (Z.lor FLAG_SEALED FLAG_HAS_AUX) FLAG_EPOCH_HASHES)) = 0)
    as -> by (apply (land_lnot_ones flags 3); lia).
  rewrite Ed. rewrite drop_app_length' by (by rewrite length_replicate).
  rewrite (proj2 (Nat.ltb_ge _ _)) by done.
  replace (Z.land flags FLAG_SEALED =? 0) with false by lia.
  by replace (sh_clock_den h =? 0) with false by lia.
Qed.

(** ** Sealing *)

(** The END record [seal] appends. *)
Definition end_record (p : SealParams) (n : nat) : Rec :=
  mkRec KIND_END RFLAG_AUX (Z.of_nat n) (sp_end_icount p) 0
    (put 8 (sp_end_state_hash p) (put 0 [sp_stop_reason p] (replicate 40 0))).

Lemma end_record_valid p n : params_wf p -> rec_valid (end_record p n).
Proof.
  intros (_ & _ & _ & (? & ?) & ?). split; [done|].
  cbn [kind payload seq icount end_record]. unfold is_aux; cbn [rflags end_record]. solve_layout.
Qed.

Lemma end_record_matches p n h :
  params_wf p -> h_end_icount h = sp_end_icount p -> h_end_state_hash h = sp_end_state_hash p ->
  end_matches h (end_record p n).
Proof.
  intros (_ & _ & _ & (? & ?) & ?) Hi Hh. unfold end_matches. rewrite Hi, Hh.
  cbn [boundary_rip icount payload end_record]. name_puts 40%nat. walk_puts. done.
Qed.

Lemma end_record_body p n :
  params_wf p -> body (end_record p n) = Ok (End (sp_stop_reason p) (sp_end_state_hash p)).
Proof. intros (_ & _ & _ & (? & ?) & ?). unfold end_record. solve_body. Qed.

Lemma seal_flags_aux a e : negb (Z.land (seal_flags a e) FLAG_HAS_AUX =? 0) = a.
Proof. by destruct a, e. Qed.
Lemma seal_flags_epoch a e : negb (Z.land (seal_flags a e) FLAG_EPOCH_HASHES =? 0) = e.
Proof. by destruct a, e. Qed.
Lemma seal_flags_range a e : 0 <= seal_flags a e < 8 /\ Z.land (seal_flags a e) FLAG_SEALED <> 0.
Proof. destruct a, e; vm_compute; naive_solver. Qed.

(** [seal] of a writer that holds [rs]. *)
Lemma seal_inv p w h rs img :
  wrepr w h rs -> params_wf p -> seal p w = Ok img ->
  let all := rs ++ [end_record p (length rs)] in
  img = backfill h p (seal_flags (existsb is_aux rs) (existsb is_epoch_hash rs))
          (Z.of_nat (length all)) (replicate HEADER_LEN 0 ++ encode_records all)
  /\ Z.of_nat (length all) <= 2 ^ 32 /\ in_order 0 0 all /\ Forall rec_wf all.
Proof.
  intros (R & Hw & Hv & He) Hp H all. destruct Hp as (? & ? & ? & (? & ?) & ?).
  unfold seal in H. cbv zeta in H.
  destruct (record _ _ _ _ _ _) as [[[]|err|] w1] eqn:Hr; [|done..]. injection H as <-.
  assert (accepts w (sp_end_icount p) (payload (end_record p 0))) as (_ & _ & Hc)
    by (eapply record_ok_iff; eauto).
  eapply record_appends in Hr as [R1 Hw1]; [|exact R|done|done|done|done|solve_bytes].
  fold (end_record p (length rs)) in R1. fold all in R1.
  rewrite (repr_buf _ _ _ R1), (repr_header _ _ _ R1), (repr_count _ _ _ R1), Hw1, Hw,
    (repr_aux _ _ _ R).
  split; [done|]. split; [|split; apply R1].
  rewrite (repr_count _ _ _ R) in Hc. unfold all. rewrite length_app. cbn [length]. ulia.
Qed.

Lemma encode_record_ok r : rec_wf r -> bytes_ok (encode_record r).
Proof.
  intros (? & ? & _ & _ & _ & ? & _). unfold encode_record, bytes_ok.
  repeat (apply Forall_app; split); try (done || apply le_bytes_ok || apply bytes_ok_replicate).
  by repeat (apply Forall_cons_2; [done|]).
Qed.

Lemma encode_records_ok rs : Forall rec_wf rs -> bytes_ok (encode_records rs).
Proof.
  induction 1; [by constructor|]. rewrite encode_records_cons.
  apply Forall_app; split; [by apply encode_record_ok|done].
Qed.

(** Sealing a writer gives an image the reader accepts, with the same records. *)
Lemma seal_parses p w h rs img :
  wrepr w h rs -> seg_wf h -> 0 < sh_clock_den h -> params_wf p -> seal p w = Ok img ->
  let all := rs ++ [end_record p (length rs)] in
  let hd := header_of h p (seal_flags (existsb is_aux rs) (existsb is_epoch_hash rs))
              (Z.of_nat (length all)) (encode_records all) in
  bytes_ok img /\ LogReader_parse img = Ok (mkLogReader hd (encode_records all)) /\
  records (mkLogReader hd (encode_records all)) = Ok all.
Proof.
  intros R Hh Hden Hp H all hd.
  destruct (seal_inv _ _ _ _ _ R Hp H) as (-> & Hc & Ho & Hwf). fold all in Hc, Ho, Hwf |- *.
  destruct R as (R & Hw & Hv & He).
  pose proof (seal_flags_range (existsb is_aux rs) (existsb is_epoch_hash rs)) as [Hf1 Hf2].
  assert (sealed_log hd rs (end_record p (length rs))) as Hsl.
  { split; auto.
    - apply Forall_app; split; [done|]. constructor; [|done]. by apply end_record_valid.
    - by apply end_record_matches.
    - apply seal_flags_aux.
    - apply seal_flags_epoch. }
  assert (bytes_ok (encode_records all)) by (by apply encode_records_ok).
  split; [by apply backfill_ok|]. split.
  - apply parse_iff; [by apply backfill_ok|]. exists hd, rs, (end_record p (length rs)).
    rewrite backfill_body by done. split_and!; try done.
    apply parse_header_backfill; auto. ulia.
  - apply (Records_collect_framed _ _ RecordScan_default); [simpl; lia|].
    by eapply sealed_framed.
Qed.

(** ** Sessions *)

Fixpoint calls_match (n : nat) (cs : list call) (rs : list Rec) : Prop :=
  match cs, rs with
  | [], [] => True
  | c :: cs, r :: rs => call_matches n c r /\ calls_match (S n) cs rs
  | _, _ => False
  end.

Lemma drive_repr cs w h rs acc w' :
  wrepr w h rs -> Forall call_wf cs -> drive cs w = (acc, w') ->
  exists rs', wrepr w' h (rs ++ rs') /\ calls_match (length rs) acc rs'.
Proof.
  intros R Hwf. revert w rs acc R. induction Hwf as [|c cs Hc Hcs IH]; intros w rs acc R H.
  { injection H as <- <-. exists []. by rewrite app_nil_r. }
  cbn in H. destruct (run_call c w) as [o w1] eqn:Hr. destruct o as [[]|e|].
  - destruct (drive cs w1) as [acc' w2] eqn:Hd. injection H as <- <-.
    destruct (run_call_ok _ _ _ _ _ R Hc Hr) as (r & R1 & Hm).
    destruct (IH _ _ _ R1 Hd) as (rs' & R2 & Hm2). exists (r :: rs').
    rewrite <- app_assoc in R2. split; [done|]. split; [done|].
    rewrite length_app in Hm2. by rewrite Nat.add_comm in Hm2.
  - apply run_call_fail in Hr as [-> _]; [|done]. eauto.
  - apply run_call_fail in Hr as [-> _]; [|done]. eauto.
Qed.

Lemma wrepr_new h : wrepr (LogWriter_new h) h [].
Proof. by split_and!. Qed.

Lemma calls_match_length n cs rs : calls_match n cs rs -> length rs = length cs.
Proof. revert n rs. induction cs; intros n [|]; simpl; naive_solver. Qed.
Lemma calls_match_aux n cs rs : calls_match n cs rs -> existsb is_aux rs = existsb call_is_aux cs.
Proof.
  revert n rs. induction cs as [|c cs IH]; intros n [|r rs]; try done. cbn [calls_match existsb].
  intros [(_ & _ & _ & -> & _) H]. f_equal. eauto.
Qed.

(** C1: the DHILOG round trip.  Drive the writer with any sequence of calls
    (refused calls included) and seal it: the reader accepts the image, and
    its records are precisely the accepted calls, in order, each at its
    position with the icount, rip, class and typed body it was recorded with,
    followed by one END carrying the stop reason and end hash; the parsed
    header carries the segment's identities, clock, counts and flags. *)
Theorem session_roundtrip h p cs acc w img :
  seg_wf h -> 0 < sh_clock_den h -> params_wf p -> Forall call_wf cs ->
  drive cs (LogWriter_new h) = (acc, w) -> seal p w = Ok img ->
  exists rd rs e flags,
    LogReader_parse img = Ok rd /\ records rd = Ok (rs ++ [e]) /\
    calls_match 0 acc rs /\
    body e = Ok (End (sp_stop_reason p) (sp_end_state_hash p)) /\
    icount e = sp_end_icount p /\
    rd_header rd = header_of h p flags (Z.of_nat (S (length acc))) (drop HEADER_LEN img) /\
    Header_has_aux (rd_header rd) = existsb call_is_aux acc.
Proof.
  intros Hh Hden Hp Hcs Hd Hs.
  destruct (drive_repr _ _ _ _ _ _ (wrepr_new h) Hcs Hd) as (rs & R & Hm).
  destruct (seal_parses _ _ _ _ _ R Hh Hden Hp Hs) as (_ & Hparse & Hrec).
  destruct (seal_inv _ _ _ _ _ R Hp Hs) as (-> & _).
  cbn [app] in *. rewrite backfill_body by done.
  rewrite length_app, (calls_match_length _ _ _ Hm), Nat.add_comm in *.
  eexists _, rs, (end_record p (length acc)), _. split_and!; try done.
  - by apply end_record_body.
  - cbn. rewrite <- (calls_match_aux _ _ _ Hm). apply seal_flags_aux.
Qed.

(** The writer refines the abstract append-only log.  Each call either
    appends exactly one record that decodes to the call, or returns an error
    and leaves the writer bit-for-bit as it was. *)
Theorem run_call_refines c w h rs o w' :
  wrepr w h rs -> call_wf c -> run_call c w = (o, w') ->
  (o = Ok tt /\ exists r, wrepr w' h (rs ++ [r]) /\ call_matches (length rs) c r) \/
  (w' = w /\ exists e, o = Err e).
Proof.
  intros R Hc H. destruct o as [[]|e|].
  - left. split; [done|]. by eapply run_call_ok.
  - right. by apply (run_call_fail c w (Err e)).
  - by apply run_call_fail in H as [_ [? ?]].
Qed.

End roundtrip.

(** ** Evaluation on a concrete session *)

(** The second call regresses the icount and is refused. *)
Definition example_session : list call :=
  [CPadSet 10 4096 0 5 (2 ^ 32 - 1); CFrameMark 3 4096 1; CTimerFire 12 4100 32 11 12].

Lemma example_header_wf : seg_wf example_header.
Proof. unfold seg_wf, hash32; cbn [example_header sh_base_snapshot_id sh_entropy_seed
  sh_machine_config_hash sh_clock_num sh_clock_den sh_encoder_fingerprint].
  split_and!; try done; try ulia; by apply bytes_okb_ok. Qed.
Lemma example_params_wf : params_wf example_params.
Proof. unfold params_wf, hash32; cbn [example_params sp_end_snapshot_id sp_end_icount sp_end_vns
  sp_end_state_hash sp_stop_reason]. split_and!; try done; try ulia; by apply bytes_okb_ok. Qed.
Lemma example_session_wf : Forall call_wf example_session.
Proof. repeat constructor; done. Qed.

Definition example_writer_after : LogWriter :=
  (drive example_session (LogWriter_new example_header)).2.
Definition example_sealed : bytes :=
  match seal (B := example_hash) example_params example_writer_after with Ok b => b | _ => [] end.

Lemma session_roundtrip_witness :
  exists rd rs e flags,
    LogReader_parse (B := example_hash) example_sealed = Ok rd /\ records rd = Ok (rs ++ [e]) /\
    calls_match 0 [CPadSet 10 4096 0 5 (2 ^ 32 - 1); CTimerFire 12 4100 32 11 12] rs /\
    body e = Ok (End 3 (replicate 32 9)) /\
    icount e = 20 /\
    rd_header rd = header_of (B := example_hash) example_header example_params flags 3
                     (drop HEADER_LEN example_sealed) /\
    Header_has_aux (rd_header rd) = true.
Proof.
  apply (session_roundtrip (B := example_hash) (BS := example_hash_spec) example_header
    example_params example_session
    [CPadSet 10 4096 0 5 (2 ^ 32 - 1); CTimerFire 12 4100 32 11 12] example_writer_after example_sealed
    example_header_wf ltac:(cbn; lia) example_params_wf example_session_wf);
    vm_compute; reflexivity.
Defined.

Lemma run_call_refines_witness :
  exists r, wrepr (run_call (CPadSet 10 4096 0 5 6) (LogWriter_new example_header)).2 example_header [r]
    /\ call_matches 0 (CPadSet 10 4096 0 5 6) r.
Proof.
  destruct (run_call_refines (CPadSet 10 4096 0 5 6) (LogWriter_new example_header) example_header []
    (Ok tt) _ (wrepr_new _) ltac:(repeat constructor; done) eq_refl) as [[_ H]|[_ [e He]]];
    [exact H|discriminate He].
Defined.
