(* ===== verification/Splice.v ===== *)
(** * Lineage splicing: [dh-inputlog/src/splice.rs]

    A lineage is a validated sequence of sealed segments.  [Lineage_new]
    validates a whole path, [extend] only the new edge; the section's theorems
    show that the two agree and what a validated lineage guarantees. *)

From S2P Require Import Prelude DhiLog LogReader.

Inductive SpliceError :=
| Empty
| Segment (index : nat) (err : ReadError)
| BrokenStitch (index : nat)
| MissingEndSnapshot (index : nat)
| ConfigMismatch (index : nat)
| ClockMismatch (index : nat).

(** The validated segments: bytes and parsed header. *)
Record Lineage := mkLineage { segments : list (bytes * Header) }.

Record Edge := mkEdge { edge_index : nat; edge_base_snapshot_id : bytes; edge_log : LogReader }.

Definition zero_id : bytes := replicate 32 0.

Section splice.
Context {B : Blake3}.

(** [LogReader::parse(bytes).map_err(|err| Segment { index, err })]. *)
Definition parse_segment (index : nat) (b : bytes) : outcome SpliceError (bytes * Header) :=
  match LogReader_parse b with
  | Ok log => Ok (b, rd_header log)
  | Err err => Err (Segment index err)
  | Panic => Panic
  end.

(** The first loop of [Lineage::new]. *)
Fixpoint parse_segments (index : nat) (segs : list bytes) : outcome SpliceError (list (bytes * Header)) :=
  match segs with
  | [] => Ok []
  | b :: segs =>
      p ← parse_segment index b;
      ps ← parse_segments (S index) segs;
      Ok (p :: ps)
  end.

(** One machine: the checks against segment 0's header. *)
Definition check_machine (first h : Header) (index : nat) : outcome SpliceError unit :=
  if negb (bool_decide (h_machine_config_hash h = h_machine_config_hash first))
  then Err (ConfigMismatch index)
  else if negb (h_clock_num h =? h_clock_num first) || negb (h_clock_den h =? h_clock_den first)
  then Err (ClockMismatch index)
  else Ok tt.

Fixpoint check_machines (first : Header) (index : nat) (ps : list (bytes * Header))
    : outcome SpliceError unit :=
  match ps with
  | [] => Ok tt
  | (_, h) :: ps => _ ← check_machine first h index; check_machines first (S index) ps
  end.

(** One stitch: the end of segment [index] against the base of the next. *)
Definition check_stitch (h next : Header) (index : nat) : outcome SpliceError unit :=
  if bool_decide (h_end_snapshot_id h = zero_id) then Err (MissingEndSnapshot index)
  else if negb (bool_decide (h_end_snapshot_id h = h_base_snapshot_id next))
  then Err (BrokenStitch index)
  else Ok tt.

Fixpoint check_stitches (index : nat) (ps : list (bytes * Header)) : outcome SpliceError unit :=
  match ps with
  | (_, h) :: ((_, next) :: _) as ps' =>
      _ ← check_stitch h next index; check_stitches (S index) ps'
  | _ => Ok tt
  end.

Definition Lineage_new (segs : list bytes) : outcome SpliceError Lineage :=
  if (length segs =? 0)%nat then Err Empty else
  parsed ← parse_segments 0 segs;
  match parsed with
  | [] => Panic
  | (_, first) :: _ =>
      _ ← check_machines first 0 parsed;
      _ ← check_stitches 0 parsed;
      Ok (mkLineage parsed)
  end.

Definition extend (l : Lineage) (child : bytes) : outcome SpliceError Lineage :=
  let index := length (segments l) in
  p ← parse_segment index child;
  match segments l !! 0%nat, segments l !! (index - 1)%nat with
  | Some (_, first), Some (_, lst) =>
      _ ← check_machine first p.2 index;
      _ ← check_stitch lst p.2 (index - 1);
      Ok (mkLineage (segments l ++ [p]))
  | _, _ => Panic
  end.

Definition root_base (l : Lineage) : outcome SpliceError bytes :=
  match segments l with (_, h) :: _ => Ok (h_base_snapshot_id h) | [] => Panic end.

Definition end_identity (l : Lineage) : outcome SpliceError (bytes * bytes * Z) :=
  match list.last (segments l) with
  | Some (_, h) => Ok (h_end_snapshot_id h, h_end_state_hash h, h_end_icount h)
  | None => Panic
  end.

Fixpoint edges_from (index : nat) (ps : list (bytes * Header)) : outcome SpliceError (list Edge) :=
  match ps with
  | [] => Ok []
  | (b, h) :: ps =>
      match LogReader_parse b with
      | Ok log =>
          es ← edges_from (S index) ps;
          Ok (mkEdge index (h_base_snapshot_id h) log :: es)
      | _ => Panic
      end
  end.
Definition edges (l : Lineage) : outcome SpliceError (list Edge) := edges_from 0 (segments l).

(** ** Validated lineages *)

(** What the three loops establish of the parsed segments. *)
Record lineage_ok (ps : list (bytes * Header)) : Prop := {
  lo_nonempty : ps <> [];
  lo_parsed : Forall (fun p => exists rd, LogReader_parse p.1 = Ok rd /\ rd_header rd = p.2) ps;
  lo_machine : forall p q, p ∈ ps -> q ∈ ps ->
    h_machine_config_hash p.2 = h_machine_config_hash q.2 /\
    h_clock_num p.2 = h_clock_num q.2 /\ h_clock_den p.2 = h_clock_den q.2;
  lo_stitched : forall i p q, ps !! i = Some p -> ps !! S i = Some q ->
    h_end_snapshot_id p.2 = h_base_snapshot_id q.2 /\ h_end_snapshot_id p.2 <> zero_id;
}.

Lemma parse_segments_app i segs c :
  parse_segments i (segs ++ [c]) =
  ps ← parse_segments i segs; p ← parse_segment (i + length segs) c; Ok (ps ++ [p]).
Proof.
  revert i. induction segs as [|b segs IH]; intros i; cbn [app parse_segments length].
  - rewrite Nat.add_0_r. by destruct (parse_segment i c).
  - destruct (parse_segment i b); [|done..]. cbn. rewrite IH. cbn.
    destruct (parse_segments (S i) segs); [|done..]. cbn. rewrite Nat.add_succ_r.
    by destruct (parse_segment _ c).
Qed.

Lemma parse_segments_length i segs ps : parse_segments i segs = Ok ps -> length ps = length segs.
Proof.
  revert i ps. induction segs as [|b segs IH]; intros i ps; cbn; [by intros [= <-]|].
  intros (p & _ & (ps' & H & [= <-])%bind_ok)%bind_ok. cbn. f_equal. eauto.
Qed.

Lemma check_machines_app first i ps p :
  check_machines first i (ps ++ [p]) =
  _ ← check_machines first i ps; check_machine first p.2 (i + length ps).
Proof.
  revert i. induction ps as [|[b h] ps IH]; intros i; cbn [app check_machines length].
  - rewrite Nat.add_0_r. destruct p as [b h]. cbn. by destruct (check_machine first h i) as [[]| |].
  - destruct (check_machine first h i); [|done..]. cbn. by rewrite IH, Nat.add_succ_r.
Qed.

Lemma check_stitches_app i ps q p :
  check_stitches i ((ps ++ [q]) ++ [p]) =
  _ ← check_stitches i (ps ++ [q]); check_stitch q.2 p.2 (i + length ps).
Proof.
  revert i. induction ps as [|[b h] ps IH]; intros i.
  - destruct q as [bq hq], p as [bp hp]. cbn. rewrite Nat.add_0_r.
    by destruct (check_stitch hq hp i) as [[]| |].
  - cbn [app length]. rewrite Nat.add_succ_r, <- Nat.add_succ_l.
    destruct (ps ++ [q]) as [|[b' h'] r] eqn:E; [by destruct ps|]. cbn [check_stitches app].
    destruct (check_stitch h h' i); [|done..]. cbn [mbind outcome_bind].
    exact (IH (S i)).
Qed.

Lemma Lineage_new_inv segs l :
  Lineage_new segs = Ok l ->
  exists b first rest, segments l = (b, first) :: rest /\
    parse_segments 0 segs = Ok (segments l) /\
    check_machines first 0 (segments l) = Ok tt /\ check_stitches 0 (segments l) = Ok tt.
Proof.
  unfold Lineage_new. case_match; [done|]. intros (ps & Hp & H')%bind_ok.
  destruct ps as [|[b first] rest]; [done|].
  apply bind_ok in H' as ([] & Hm & ([] & Hs & [= <-])%bind_ok). cbn [segments]. eauto 10.
Qed.

Lemma parse_segments_sound i segs ps :
  parse_segments i segs = Ok ps ->
  ps.*1 = segs /\
  Forall (fun p => exists rd, LogReader_parse p.1 = Ok rd /\ rd_header rd = p.2) ps.
Proof.
  revert i ps. induction segs as [|b segs IH]; intros i ps; cbn; [by intros [= <-]|].
  intros (p & Hp & (ps' & H & [= <-])%bind_ok)%bind_ok. apply IH in H as [<- Hf].
  unfold parse_segment in Hp. destruct (LogReader_parse b) as [rd| |] eqn:E; simplify_eq.
  cbn. split; [done|]. constructor; eauto.
Qed.

Lemma check_machine_ok first h i :
  check_machine first h i = Ok tt <->
  h_machine_config_hash h = h_machine_config_hash first /\
  h_clock_num h = h_clock_num first /\ h_clock_den h = h_clock_den first.
Proof. unfold check_machine. case_bool_decide; cbn; [|naive_solver]. case_match; naive_solver lia. Qed.

Lemma check_machines_ok first i ps :
  check_machines first i ps = Ok tt ->
  Forall (fun p => h_machine_config_hash p.2 = h_machine_config_hash first /\
    h_clock_num p.2 = h_clock_num first /\ h_clock_den p.2 = h_clock_den first) ps.
Proof.
  revert i. induction ps as [|[b h] ps IH]; intros i; cbn; [by constructor|].
  intros ([] & ?%check_machine_ok & ?)%bind_ok. constructor; eauto.
Qed.

Lemma check_stitch_ok h next i :
  check_stitch h next i = Ok tt <->
  h_end_snapshot_id h = h_base_snapshot_id next /\ h_end_snapshot_id h <> zero_id.
Proof. unfold check_stitch. repeat case_bool_decide; cbn; naive_solver. Qed.

Lemma check_stitches_ok k ps i p q :
  check_stitches k ps = Ok tt -> ps !! i = Some p -> ps !! S i = Some q ->
  h_end_snapshot_id p.2 = h_base_snapshot_id q.2 /\ h_end_snapshot_id p.2 <> zero_id.
Proof.
  revert k i. induction ps as [|[b h] [|[b' h'] ps] IH]; intros k i H; [done..|].
  cbn in H. apply bind_ok in H as ([] & Hs & H). destruct i as [|i]; cbn.
  - intros [= <-] [= <-]. by apply check_stitch_ok in Hs.
  - intros. by eapply IH.
Qed.

Lemma lineage_new_ok segs l : Lineage_new segs = Ok l -> lineage_ok (segments l).
Proof.
  intros (b & first & rest & Heq & Hp & Hm & Hs)%Lineage_new_inv.
  apply parse_segments_sound in Hp as [_ Hp]. apply check_machines_ok in Hm.
  rewrite Forall_forall in Hm. split; auto.
  - by rewrite Heq.
  - intros p q Hpin Hqin. apply Hm in Hpin. apply Hm in Hqin.
    naive_solver congruence.
  - intros i p q. by eapply check_stitches_ok.
Qed.

Lemma edges_from_ok i ps :
  Forall (fun p => exists rd, LogReader_parse p.1 = Ok rd /\ rd_header rd = p.2) ps ->
  exists es, edges_from i ps = Ok es /\
    edge_index <$> es = List.seq i (length ps) /\
    edge_base_snapshot_id <$> es = (fun p => h_base_snapshot_id p.2) <$> ps /\
    (fun e => rd_header (edge_log e)) <$> es = ps.*2.
Proof.
  revert i. induction ps as [|[b h] ps IH]; intros i Hf; [by exists []|].
  inversion Hf as [|? ? (rd & Hrd & Hh) Hf']; subst. cbn in *.
  destruct (IH (S i) Hf') as (es & He & Hi & Hb & Hl). rewrite Hrd, He.
  eexists; split; [reflexivity|]. cbn. by rewrite Hi, Hb, Hl, Hh.
Qed.

(** A validated lineage composes.  Every segment is a sealed log the
    reader accepts, all segments are of one machine (configuration hash and
    clock), and each segment's end snapshot is present and is the base of the
    next; the per-edge plan is total and walks the segments root first, each
    edge replaying from the snapshot the previous one ended in. *)
Theorem lineage_sound segs l :
  Lineage_new segs = Ok l ->
  (segments l).*1 = segs /\ lineage_ok (segments l) /\
  (exists b, root_base l = Ok b) /\ (exists x, end_identity l = Ok x) /\
  exists es, edges l = Ok es /\ edge_index <$> es = List.seq 0 (length segs) /\
    forall i e e', es !! i = Some e -> es !! S i = Some e' ->
      edge_base_snapshot_id e' = h_end_snapshot_id (rd_header (edge_log e)).
Proof.
  intros H. pose proof (lineage_new_ok _ _ H) as Hok.
  apply Lineage_new_inv in H as (b & first & rest & Heq & Hp & _ & _).
  apply parse_segments_sound in Hp as [Hfst _].
  split; [done|]. split; [done|]. split; [unfold root_base; rewrite Heq; eauto|]. split.
  { unfold end_identity. rewrite Heq.
    destruct (list.last _) as [[]|] eqn:E; [eauto|]. by apply last_None in E. }
  destruct (edges_from_ok 0 _ (lo_parsed _ Hok)) as (es & He & Hi & Hb & Hl).
  exists es. split; [done|]. split.
  { rewrite Hi, <- Hfst. by rewrite length_fmap. }
  intros i e e' Hei Hei'.
  assert (forall j x, es !! j = Some x -> exists p, segments l !! j = Some p /\
    edge_base_snapshot_id x = h_base_snapshot_id p.2 /\ rd_header (edge_log x) = p.2) as Hx.
  { intros j x Hj.
    pose proof (f_equal (fun z => z !! j) Hb) as Hb'. pose proof (f_equal (fun z => z !! j) Hl) as Hl'.
    cbn beta in Hb', Hl'. rewrite !list_lookup_fmap, Hj in Hb'. rewrite !list_lookup_fmap, Hj in Hl'.
    destruct (segments l !! j) as [p|]; naive_solver. }
  apply Hx in Hei as (p & Hp & _ & ->). apply Hx in Hei' as (q & Hq & -> & _).
  symmetry. by eapply (lo_stitched _ Hok).
Qed.

(** Validating only the new edge is enough.  On a validated lineage,
    [extend] returns exactly what validating the whole extended path from
    scratch returns, success or the same error. *)
Theorem extend_agrees_with_new segs l c :
  Lineage_new segs = Ok l -> extend l c = Lineage_new (segs ++ [c]).
Proof.
  intros (b & first & rest & Heq & Hp & Hm & Hs)%Lineage_new_inv.
  pose proof (parse_segments_length _ _ _ Hp) as Hlen.
  unfold extend, Lineage_new. rewrite length_app. cbn [length].
  replace (length segs + 1 =? 0)%nat with false by lia. rewrite parse_segments_app, Hp.
  cbn [mbind outcome_bind]. rewrite Hlen. cbn [Nat.add].
  destruct (parse_segment (length segs) c) as [[cb ch]|err|]; [|done..]. cbn [mbind outcome_bind snd].
  destruct (exists_last (l := segments l)) as (pre & [qb qh] & Hq); [by rewrite Heq|].
  assert (length segs = S (length pre)) as Hl1 by (rewrite <- Hlen, Hq, length_app; cbn; lia).
  assert (segments l !! (length segs - 1)%nat = Some (qb, qh)) as ->.
  { rewrite Hq, Hl1. replace (S (length pre) - 1)%nat with (length pre) by lia.
    by rewrite lookup_app_r, Nat.sub_diag by lia. }
  assert (segments l !! 0%nat = Some (b, first)) as -> by (by rewrite Heq).
  destruct (segments l ++ [(cb, ch)]) as [|[b0 f0] r0] eqn:Ea; [by destruct (segments l)|].
  assert (f0 = first) as -> by (rewrite Heq in Ea; by injection Ea).
  rewrite <- Ea, check_machines_app, Hm. cbn [mbind outcome_bind snd Nat.add]. rewrite Hlen.
  destruct (check_machine first ch (length segs)) as [[]| |]; [|done..]. cbn [mbind outcome_bind].
  rewrite Hq, check_stitches_app, <- Hq, Hs. cbn [mbind outcome_bind snd Nat.add].
  rewrite Hl1. replace (S (length pre) - 1)%nat with (length pre) by lia. done.
Qed.
End splice.

(** ** A two-segment path *)

Definition example_segment (base end_snap : Z) : bytes :=
  match seal (B := example_hash)
          (mkSealParams (replicate 32 end_snap) 20 20 (replicate 32 9) 3)
          (LogWriter_new (mkSegmentHeader (replicate 32 base) (replicate 32 2) (replicate 32 3) 1 1 7))
  with Ok b => b | _ => [] end.
Definition example_path : list bytes := [example_segment 1 4; example_segment 4 5].
Definition example_lineage : Lineage :=
  match Lineage_new (B := example_hash) example_path with Ok l => l | _ => mkLineage [] end.

Lemma lineage_sound_witness :
  (segments example_lineage).*1 = example_path /\
  lineage_ok (B := example_hash) (segments example_lineage) /\
  (exists b, root_base example_lineage = Ok b) /\ (exists x, end_identity example_lineage = Ok x) /\
  exists es, edges (B := example_hash) example_lineage = Ok es /\
    edge_index <$> es = List.seq 0 (length example_path) /\
    forall i e e', es !! i = Some e -> es !! S i = Some e' ->
      edge_base_snapshot_id e' = h_end_snapshot_id (rd_header (edge_log e)).
Proof.
  apply (lineage_sound (B := example_hash) example_path example_lineage).
  vm_compute. reflexivity.
Defined.

Lemma extend_agrees_with_new_witness :
  extend (B := example_hash) example_lineage (example_segment 5 0)
  = Lineage_new (B := example_hash) (example_path ++ [example_segment 5 0]).
Proof.
  apply (extend_agrees_with_new (B := example_hash) example_path example_lineage).
  vm_compute. reflexivity.
Defined.
