(* ===== verification/DhSnap.v ===== *)
(** * DHSNAP container: [dh-snapshot/src/dhsnap.rs], framing half

    The device-blob container: the append-only writer and the total decoder.
    Section contents are opaque here; the typed sections are in
    [DhSnapSections]. *)

From S2P Require Import Prelude.

Definition MAGIC : bytes := [68; 72; 83; 78; 65; 80].
Definition FORMAT_VERSION : Z := 0x0100.
Definition HEADER_LEN : nat := 16.
Definition SECTION_HEADER_LEN : nat := 12.

(** The tag table, as ASCII codes. *)
Definition MCFG : bytes := [77; 67; 70; 71].
Definition VCPU : bytes := [86; 67; 80; 85].
Definition LAPC : bytes := [76; 65; 80; 67].
Definition TIME : bytes := [84; 73; 77; 69].
Definition ENTR : bytes := [69; 78; 84; 82].
Definition CLKD : bytes := [67; 76; 75; 68].
Definition PADD : bytes := [80; 65; 68; 68].
Definition EVTC : bytes := [69; 86; 84; 67].
Definition BLKO : bytes := [66; 76; 75; 79].
Definition NETL : bytes := [78; 69; 84; 76].
Definition SERL : bytes := [83; 69; 82; 76].
Definition KNOWN_TAGS : list bytes :=
  [MCFG; VCPU; LAPC; TIME; ENTR; CLKD; PADD; EVTC; BLKO; NETL; SERL].

Definition tag_for_device_id (device_id : Z) : option bytes :=
  if device_id =? 1 then Some EVTC
  else if device_id =? 2 then Some CLKD
  else if device_id =? 3 then Some PADD
  else if device_id =? 4 then Some ENTR
  else if device_id =? 5 then Some BLKO
  else if device_id =? 6 then Some SERL
  else if device_id =? 7 then Some NETL
  else None.

Inductive WriteError :=
| SectionTooLong
| WUnknownTag (tag : bytes)
| WDuplicateTag (tag : bytes).

Record ContainerWriter := mkContainerWriter {
  cw_buf : bytes; cw_count : Z; cw_seen : list bytes }.

Definition ContainerWriter_new : ContainerWriter := mkContainerWriter (replicate HEADER_LEN 0) 0 [].

Definition push_section (tag : bytes) (sec_version : Z) (contents : bytes)
    : method ContainerWriter WriteError unit := fun w =>
  if negb (bool_decide (tag ∈ KNOWN_TAGS)) then (Err (WUnknownTag tag), w)
  else if bool_decide (tag ∈ cw_seen w) then (Err (WDuplicateTag tag), w)
  else match try_u32 (Z.of_nat (length contents)) with
  | None => (Err SectionTooLong, w)
  | Some len =>
      let b := cw_buf w ++ tag in
      let b := b ++ le_bytes 2 sec_version in
      let b := b ++ replicate 2 0 in
      let b := b ++ le_bytes 4 len in
      let b := b ++ contents in
      let b := b ++ take (pad_len (length contents)) (replicate 8 0) in
      (Ok tt, mkContainerWriter b (cw_count w + 1) (cw_seen w ++ [tag]))
  end.

Definition finish (w : ContainerWriter) : bytes :=
  let b := put 0 MAGIC (cw_buf w) in
  let b := put 6 (le_bytes 2 FORMAT_VERSION) b in
  put 8 (le_bytes 4 (cw_count w)) b.

Inductive ReadError :=
| TooShort
| BadMagic
| UnsupportedVersion (found : Z)
| NonzeroHeaderPad
| Truncated (index : Z)
| UnknownTag (tag : bytes) (index : Z)
| DuplicateTag (tag : bytes)
| NonzeroPadding (index : Z)
| SectionCountMismatch (header actual : Z).

Record Section_ := mkSection { tag : bytes; sec_version : Z; contents : bytes }.
#[export] Instance Section_eq_dec : EqDecision Section_.
Proof. solve_decision. Defined.
Record Container := mkContainer { sections : list Section_ }.

(** One iteration of the section loop at [offset]: the section and the offset
    past its padding. *)
Definition parse_section (b0 : bytes) (offset : nat) (index : Z) (seen : list Section_)
    : outcome ReadError (Section_ * nat) :=
  if (length b0 - offset <? SECTION_HEADER_LEN)%nat then Err (Truncated index) else
  let b := drop offset b0 in
  tg ← read_bytes 4 0 b;
  sec_version ← read_le 2 4 b;
  hpad ← read_bytes 2 6 b;
  if negb (bool_decide (hpad = replicate 2 0)) then Err (NonzeroPadding index) else
  len ← read_le 4 8 b;
  contents_end ← ok_or (Truncated index) (checked_add (Z.of_nat SECTION_HEADER_LEN) len);
  padded_end ← ok_or (Truncated index) (checked_add contents_end ((8 - len mod 8) mod 8));
  if Z.of_nat (length b0 - offset) <? padded_end then Err (Truncated index) else
  if negb (bool_decide (tg ∈ KNOWN_TAGS)) then Err (UnknownTag tg index) else
  if existsb (fun s => bool_decide (tag s = tg)) seen then Err (DuplicateTag tg) else
  pad ← read_bytes (Z.to_nat (padded_end - contents_end)) (Z.to_nat contents_end) b;
  if existsb (fun x => negb (x =? 0)) pad then Err (NonzeroPadding index) else
  contents ← read_bytes (Z.to_nat contents_end - SECTION_HEADER_LEN) SECTION_HEADER_LEN b;
  Ok (mkSection tg sec_version contents, offset + Z.to_nat padded_end)%nat.

(** The [while offset < bytes.len()] loop.  [seen] are the sections pushed so
    far, [index] their number; out of fuel is [Panic]. *)
Fixpoint parse_sections (fuel : nat) (b : bytes) (offset : nat) (index : Z) (seen : list Section_)
    : outcome ReadError (list Section_ * Z) :=
  match fuel with
  | O => Panic
  | S fuel =>
      if (offset <? length b)%nat then
        '(s, offset) ← parse_section b offset index seen;
        parse_sections fuel b offset (index + 1) (seen ++ [s])
      else Ok (seen, index)
  end.

Definition parse (b : bytes) : outcome ReadError Container :=
  if (length b <? HEADER_LEN)%nat then Err TooShort else
  magic ← read_bytes 6 0 b;
  if negb (bool_decide (magic = MAGIC)) then Err BadMagic else
  version ← read_le 2 6 b;
  if negb (Z.shiftr version 8 =? 1) then Err (UnsupportedVersion version) else
  section_count ← read_le 4 8 b;
  hpad ← read_bytes 4 12 b;
  if negb (bool_decide (hpad = replicate 4 0)) then Err NonzeroHeaderPad else
  '(secs, index) ← parse_sections (S (length b)) b HEADER_LEN 0 [];
  if negb (index =? section_count) then Err (SectionCountMismatch section_count index)
  else Ok (mkContainer secs).

Definition get (c : Container) (tg : bytes) : option Section_ :=
  List.find (fun s => bool_decide (tag s = tg)) (sections c).
Definition has (c : Container) (tg : bytes) : bool :=
  match get c tg with Some _ => true | None => false end.

(** ** The abstract container: a list of sections *)

Definition encode_section (s : Section_) : bytes :=
  tag s ++ le_bytes 2 (sec_version s) ++ [0; 0] ++ le_bytes 4 (Z.of_nat (length (contents s)))
    ++ contents s ++ replicate (pad_len (length (contents s))) 0.
Definition encode_sections (ss : list Section_) : bytes := mjoin (encode_section <$> ss).
#[global] Arguments encode_section : simpl never.
#[global] Arguments encode_sections : simpl never.

Definition sec_wf (s : Section_) : Prop :=
  tag s ∈ KNOWN_TAGS /\ u16 (sec_version s) /\ bytes_ok (contents s) /\
  Z.of_nat (length (contents s)) <= u32_max.

Definition tags (ss : list Section_) : list bytes := tag <$> ss.

Lemma known_tag_length t : t ∈ KNOWN_TAGS -> length t = 4%nat.
Proof.
  intros H. assert (Forall (fun t => length t = 4%nat) KNOWN_TAGS) as Hf by (by repeat constructor).
  rewrite Forall_forall in Hf. by apply Hf.
Qed.
Lemma known_tag_ok t : t ∈ KNOWN_TAGS -> bytes_ok t.
Proof.
  intros H. assert (Forall bytes_ok KNOWN_TAGS) as Hf
    by (repeat (apply Forall_cons_2; [by apply bytes_okb_ok|]); apply Forall_nil_2).
  rewrite Forall_forall in Hf. by apply Hf.
Qed.

Lemma length_encode_section s :
  sec_wf s ->
  length (encode_section s) = (12 + length (contents s) + pad_len (length (contents s)))%nat.
Proof. intros [Ht _]. apply known_tag_length in Ht. unfold encode_section. len_rw. lia. Qed.

Lemma encode_sections_cons s ss : encode_sections (s :: ss) = encode_section s ++ encode_sections ss.
Proof. reflexivity. Qed.
Lemma encode_sections_app ss ss' :
  encode_sections (ss ++ ss') = encode_sections ss ++ encode_sections ss'.
Proof. unfold encode_sections. by rewrite fmap_app, join_app. Qed.

Lemma encode_sections_single s : encode_sections [s] = encode_section s.
Proof. apply app_nil_r. Qed.

Lemma existsb_tag_seen seen t :
  existsb (fun s => bool_decide (tag s = t)) seen = bool_decide (t ∈ tags seen).
Proof.
  induction seen as [|s seen IH]; [done|]. cbn [existsb tags fmap list_fmap]. rewrite IH.
  repeat case_bool_decide; try done; exfalso; set_solver.
Qed.

(** What one step of the section loop has read. *)
Definition sec_read (b : bytes) (off : nat) (seen : list Section_) (s : Section_) (off' : nat) : Prop :=
  sec_wf s /\ tag s ∉ tags seen /\
  drop off b = encode_section s ++ drop off' b /\ off' = (off + length (encode_section s))%nat.

Lemma slice_sec_fields s t :
  length (tag s) = 4%nat ->
  let e := encode_section s ++ t in
  slice 0 4 e = tag s /\ slice 4 2 e = le_bytes 2 (sec_version s) /\ slice 6 2 e = [0; 0] /\
  slice 8 4 e = le_bytes 4 (Z.of_nat (length (contents s))) /\
  drop 12 e = contents s ++ replicate (pad_len (length (contents s))) 0 ++ t.
Proof.
  intros Ht e. unfold e, encode_section. destruct (tag s) as [|a [|b [|c [|d []]]]]; try done.
  split_and!; try done. cbn. by rewrite <- !app_assoc.
Qed.

Lemma parse_section_complete b off idx seen s off' :
  (off <= length b)%nat -> sec_read b off seen s off' ->
  parse_section b off idx seen = Ok (s, off').
Proof.
  intros Hoff (Hwf & Hnew & Hd & ->). pose proof (length_encode_section s Hwf) as He.
  set (t := drop (off + length (encode_section s)) b) in *.
  assert (length (encode_section s ++ t) = length b - off)%nat as Hl
    by (rewrite <- Hd; apply length_drop). rewrite length_app in Hl.
  destruct Hwf as (Hk & Hver & Hc & Hlen). pose proof (known_tag_length _ Hk) as Ht.
  destruct (slice_sec_fields s t Ht) as (S0 & S4 & S6 & S8 & S12).
  unfold parse_section, SECTION_HEADER_LEN. rewrite Hd. case_match; [lia|].
  assert (12 + length (contents s) + pad_len (length (contents s))
          <= length (encode_section s ++ t))%nat as Hle by (rewrite length_app; lia).
  reads. rewrite S0, S4, S6, S8. rewrite of_le_u16, of_le_u32 by ulia.
  cbn [bool_decide negb replicate]. rewrite bool_decide_true by done. cbn [negb].
  unfold checked_add, try_u64. rewrite <- pad_len_Z.
  pose proof (pad_len_lt (length (contents s))).
  replace (Z.of_nat 12 + Z.of_nat (length (contents s)) <=? u64_max) with true by ulia.
  cbn [ok_or mbind outcome_bind].
  replace (_ <=? u64_max) with true by ulia. cbn [ok_or mbind outcome_bind].
  case_match; [lia|]. rewrite bool_decide_true by done. cbn [negb].
  rewrite existsb_tag_seen, bool_decide_false by done.
  match goal with |- context [read_bytes (Z.to_nat ?z)] =>
    replace (Z.to_nat z) with (pad_len (length (contents s))) by lia end.
  replace (Z.to_nat (Z.of_nat 12 + Z.of_nat (length (contents s)))) with (12 + length (contents s))%nat by lia.
  reads. unfold slice at 1. rewrite <- drop_drop, S12, drop_app_length, take_app_length'
    by (by rewrite length_replicate).
  rewrite existsb_nonzero_replicate. replace (12 + length (contents s) - 12)%nat with (length (contents s)) by lia.
  reads. unfold slice. rewrite S12, take_app_length. destruct s; cbn in *. do 3 f_equal. lia.
Qed.

(** The section framed at the front of [b]. *)
Definition sec_at (b : bytes) : Section_ :=
  mkSection (slice 0 4 b) (of_le (slice 4 2 b)) (slice 12 (Z.to_nat (of_le (slice 8 4 b))) b).

Lemma encode_sec_at b :
  bytes_ok b -> (12 <= length b)%nat ->
  let n := Z.to_nat (of_le (slice 8 4 b)) in
  (12 + n + pad_len n <= length b)%nat ->
  slice 6 2 b = [0; 0] -> slice (12 + n) (pad_len n) b = replicate (pad_len n) 0 ->
  b = encode_section (sec_at b) ++ drop (12 + n + pad_len n) b.
Proof.
  intros Hb H12 n Hn H6 Hpad. unfold encode_section, sec_at. cbn [tag sec_version contents].
  fold n. rewrite (length_slice 12 n) by lia.
  pose proof (of_le_slice_bound 8 4 b Hb ltac:(lia)).
  unfold n at 1. rewrite Z2Nat.id by lia.
  rewrite !le_bytes_slice by (done || lia). rewrite <- Hpad, <- H6, <- !app_assoc.
  rewrite <- (drop_slice_cons (12 + n) (pad_len n)), <- (drop_slice_cons 12 n),
    <- (drop_slice_cons 8 4), <- (drop_slice_cons 6 2), <- (drop_slice_cons 4 2),
    <- (drop_slice_cons 0 4). by rewrite drop_0.
Qed.

(** Reduces [parse_section] to the facts its checks leave; used for soundness
    and for panic freedom. *)
Lemma parse_section_cases b off idx seen :
  bytes_ok b -> (off < length b)%nat ->
  match parse_section b off idx seen with
  | Ok (s, off') => sec_read b off seen s off' /\ (off + 12 <= off' <= length b)%nat
  | Err _ => True
  | Panic => False
  end.
Proof.
  intros Hok Hoff. unfold parse_section, SECTION_HEADER_LEN. pass_guard.
  set (d := drop off b).
  assert (length d = length b - off)%nat as Hl by (unfold d; by rewrite length_drop).
  assert (bytes_ok d) as Hd by (by apply Forall_drop).
  reads. pass_guard. apply negb_false_iff, bool_decide_eq_true in Hg0 as H6. reads.
  pose proof (of_le_slice_bound 8 4 d Hd ltac:(lia)) as Hlen. change (256 ^ Z.of_nat 4) with (2 ^ 32) in Hlen.
  pose proof (of_le_slice_bound 4 2 d Hd ltac:(lia)) as Hver.
  set (n := Z.to_nat (of_le (slice 8 4 d))).
  assert (of_le (slice 8 4 d) = Z.of_nat n) as Hn by lia. rewrite Hn in *. clearbody n.
  rewrite <- pad_len_Z. pose proof (pad_len_lt n). unfold checked_add, try_u64.
  replace (Z.of_nat 12 + Z.of_nat n <=? u64_max) with true by ulia. cbn [ok_or mbind outcome_bind].
  replace (_ <=? u64_max) with true by ulia. cbn [ok_or mbind outcome_bind].
  do 3 pass_guard. apply negb_false_iff, bool_decide_eq_true in Hg2 as Hk.
  rewrite existsb_tag_seen in Hg3. apply bool_decide_eq_false in Hg3 as Hs.
  match goal with |- context [read_bytes (Z.to_nat ?z)] =>
    replace (Z.to_nat z) with (pad_len n) by lia end.
  replace (Z.to_nat (Z.of_nat 12 + Z.of_nat n)) with (12 + n)%nat by lia.
  reads. pass_guard. rename Hg4 into Hpad. replace (12 + n - 12)%nat with n by lia. reads.
  apply existsb_nonzero_false in Hpad. rewrite length_slice in Hpad by lia.
  pose proof (encode_sec_at d Hd ltac:(lia)) as Henc. cbv zeta in Henc. rewrite Hn, Nat2Z.id in Henc.
  specialize (Henc ltac:(lia) H6 Hpad).
  replace (Z.to_nat (_ + _)) with (12 + n + pad_len n)%nat by lia.
  assert (sec_at d = mkSection (slice 0 4 d) (of_le (slice 4 2 d)) (slice 12 n d)) as Hsec
    by (unfold sec_at; by rewrite Hn, Nat2Z.id).
  rewrite <- Hsec in *.
  assert (sec_wf (sec_at d)) as Hwf.
  { rewrite Hsec. unfold sec_wf; cbn [tag sec_version contents]. rewrite length_slice by lia.
    split_and!; [done|done|by apply Forall_slice|ulia]. }
  split; [|lia]. unfold sec_read. split_and!; [done|rewrite Hsec; exact Hs| |].
  - fold d. rewrite Henc at 1. f_equal. unfold d. by rewrite drop_drop.
  - rewrite length_encode_section by done. rewrite Hsec. cbn [contents].
    rewrite length_slice by lia. done.
Qed.

(** The sections [ss] are what a body holds from [off] on, none of them
    already in [seen]. *)
Definition secs_framed (b : bytes) (off : nat) (seen ss : list Section_) : Prop :=
  drop off b = encode_sections ss /\ Forall sec_wf ss /\ NoDup (tags ss) /\
  (forall t, t ∈ tags seen -> t ∉ tags ss).

Lemma secs_framed_cons b off seen s ss :
  secs_framed b off seen (s :: ss) <->
  exists off', sec_read b off seen s off' /\ secs_framed b off' (seen ++ [s]) ss.
Proof.
  unfold secs_framed, sec_read, tags. rewrite encode_sections_cons. setoid_rewrite fmap_app. split.
  - intros (Hd & Hwf & Hnd & Hs). inversion Hwf; subst. cbn in Hnd, Hs. inversion Hnd; subst.
    exists (off + length (encode_section s))%nat.
    assert (drop (off + length (encode_section s)) b = encode_sections ss) as ->
      by (rewrite <- drop_drop, Hd; apply drop_app_length).
    split_and!; auto; set_solver.
  - intros (off' & (Hwf & Hnew & Hd & ->) & Hd' & Hwfs & Hnd & Hs). rewrite Hd, Hd'. cbn in *.
    split_and!; [done|by constructor| |].
    + constructor; [|done]. apply Hs, elem_of_app. right. apply list_elem_of_here.
    + intros t Ht. apply not_elem_of_cons. split; [by intros ->|]. apply Hs, elem_of_app. by left.
Qed.

Lemma secs_framed_nil b off seen : secs_framed b off seen [] <-> (length b <= off)%nat.
Proof.
  unfold secs_framed. split.
  - intros (Hd & _). apply (f_equal length) in Hd. rewrite length_drop in Hd.
    change (length (encode_sections [])) with 0%nat in Hd. lia.
  - intros. rewrite drop_ge by done. split_and!; try done; [constructor|]. intros t _ Ht.
    by apply not_elem_of_nil in Ht.
Qed.

Lemma parse_sections_spec fuel b off idx seen :
  bytes_ok b -> (length b - off < fuel)%nat ->
  match parse_sections fuel b off idx seen with
  | Ok (res, idx') => exists ss, res = seen ++ ss /\ idx' = idx + Z.of_nat (length ss) /\
      secs_framed b off seen ss
  | Err _ => forall ss, ~ secs_framed b off seen ss
  | Panic => False
  end.
Proof.
  intros Hok. revert off idx seen. induction fuel as [|fuel IH]; intros off idx seen Hf; [lia|].
  cbn [parse_sections]. destruct (off <? length b)%nat eqn:Hlt.
  - pose proof (parse_section_cases b off idx seen Hok ltac:(lia)) as Hc.
    destruct (parse_section b off idx seen) as [[s off']|e|] eqn:Hp; [|..|done]; cbn [mbind outcome_bind].
    + destruct Hc as [Hr Hb]. specialize (IH off' (idx + 1) (seen ++ [s]) ltac:(lia)).
      destruct (parse_sections _ _ _ _ _) as [[res idx']|e'|]; [| |done].
      * destruct IH as (ss & -> & -> & Hfr). exists (s :: ss).
        split; [by rewrite <- app_assoc|]. split; [cbn [length]; lia|].
        apply secs_framed_cons. eauto.
      * intros [|s' ss] Hfr; [apply secs_framed_nil in Hfr; lia|].
        apply secs_framed_cons in Hfr as (off'' & Hr' & Hfr).
        apply (parse_section_complete _ _ idx) in Hr' as Hp'; [|lia].
        rewrite Hp in Hp'. injection Hp' as <- <-. by eapply IH.
    + intros [|s' ss] Hfr; [apply secs_framed_nil in Hfr; lia|].
      apply secs_framed_cons in Hfr as (off'' & Hr' & Hfr).
      apply (parse_section_complete _ _ idx) in Hr' as Hp'; [|lia]. congruence.
  - exists []. rewrite app_nil_r. cbn [length]. split; [done|]. split; [lia|].
    apply secs_framed_nil. lia.
Qed.

(** Section lists are determined by their encoding. *)
Lemma secs_framed_inj b off seen ss ss' :
  (off <= length b)%nat -> secs_framed b off seen ss -> secs_framed b off seen ss' -> ss = ss'.
Proof.
  revert off seen ss'. induction ss as [|s ss IH]; intros off seen [|s' ss'] Hoff H H'; [done|..].
  - apply secs_framed_nil in H.
    apply secs_framed_cons in H' as (off' & (Hwf & _ & Hd & _) & _).
    apply (f_equal length) in Hd. rewrite length_drop, length_app in Hd.
    pose proof (length_encode_section _ Hwf). lia.
  - apply secs_framed_nil in H'.
    apply secs_framed_cons in H as (off' & (Hwf & _ & Hd & _) & _).
    apply (f_equal length) in Hd. rewrite length_drop, length_app in Hd.
    pose proof (length_encode_section _ Hwf). lia.
  - apply secs_framed_cons in H as (o1 & Hr1 & H).
    apply secs_framed_cons in H' as (o2 & Hr2 & H').
    pose proof (parse_section_complete _ _ 0 _ _ _ Hoff Hr1) as Hp1.
    pose proof (parse_section_complete _ _ 0 _ _ _ Hoff Hr2) as Hp2.
    rewrite Hp1 in Hp2. injection Hp2 as <- <-. f_equal. eapply IH; [|done|done].
    destruct Hr1 as (Hwf & _ & Hd & ->). apply (f_equal length) in Hd.
    rewrite length_drop, length_app in Hd. lia.
Qed.

(** ** The whole container *)

Definition snap_header (version count : Z) : bytes :=
  MAGIC ++ le_bytes 2 version ++ le_bytes 4 count ++ replicate 4 0.

(** The container image of a list of sections, for a v1.x minor version. *)
Definition container_image (version : Z) (ss : list Section_) : bytes :=
  snap_header version (Z.of_nat (length ss)) ++ encode_sections ss.
Definition container_ok (ss : list Section_) : Prop := Forall sec_wf ss /\ NoDup (tags ss).

Lemma container_ok_length ss : container_ok ss -> (length ss <= 11)%nat.
Proof.
  intros [Hwf Hnd]. replace (length ss) with (length (tags ss)) by apply length_fmap.
  change 11%nat with (length KNOWN_TAGS). apply submseteq_length, NoDup_submseteq; [done|].
  intros t Ht. apply list_elem_of_fmap in Ht as (s & -> & Hs).
  rewrite Forall_forall in Hwf. by apply Hwf.
Qed.

Lemma split_snap_header b :
  bytes_ok b -> (16 <= length b)%nat -> slice 0 6 b = MAGIC -> slice 12 4 b = replicate 4 0 ->
  b = snap_header (of_le (slice 6 2 b)) (of_le (slice 8 4 b)) ++ drop 16 b.
Proof.
  intros Hok Hl Hm Hp. unfold snap_header. rewrite !le_bytes_slice by (done || lia).
  rewrite <- Hm, <- Hp, <- !app_assoc.
  rewrite <- (drop_slice_cons 12 4), <- (drop_slice_cons 8 4), <- (drop_slice_cons 6 2),
    <- (drop_slice_cons 0 6). by rewrite drop_0.
Qed.

Lemma secs_framed_all b ss :
  secs_framed b HEADER_LEN [] ss <-> drop HEADER_LEN b = encode_sections ss /\ container_ok ss.
Proof.
  unfold secs_framed, container_ok. split; [naive_solver|]. intros (-> & Hwf & Hnd).
  split_and!; auto. intros t Ht. by apply not_elem_of_nil in Ht.
Qed.

Lemma container_parse_iff b c :
  bytes_ok b ->
  parse b = Ok c <->
  exists version, u16 version /\ Z.shiftr version 8 = 1 /\ container_ok (sections c) /\
    b = container_image version (sections c).
Proof.
  intros Hok. unfold parse. split.
  - case_match; [done|]. unfold HEADER_LEN in *. reads.
    do 2 (case_match; [done|]). reads. case_match; [done|].
    repeat match goal with H : negb _ = false |- _ => apply negb_false_iff in H end.
    repeat match goal with H : bool_decide _ = true |- _ => apply bool_decide_eq_true in H end.
    pose proof (parse_sections_spec (S (length b)) b HEADER_LEN 0 [] Hok ltac:(unfold HEADER_LEN; lia)) as Hs.
    fold HEADER_LEN. destruct (parse_sections _ _ _ _ _) as [[res idx]| |]; [|done..].
    destruct Hs as (ss & -> & -> & Hfr). apply secs_framed_all in Hfr as [Hd Hc].
    cbn [mbind outcome_bind app]. case_match eqn:Hcount; [done|]. intros [= <-]. cbn [sections].
    exists (of_le (slice 6 2 b)).
    pose proof (of_le_slice_bound 6 2 b Hok ltac:(lia)). split_and!; [done|lia|done|].
    unfold container_image. rewrite <- Hd.
    rewrite (split_snap_header b) at 1 by (done || lia). repeat f_equal. lia.
  - intros (version & Hv & Hmaj & Hc & Hb).
    pose proof (container_ok_length _ Hc).
    assert (drop HEADER_LEN b = encode_sections (sections c)) as Hd by (by rewrite Hb).
    pose proof (proj2 (secs_framed_all b (sections c)) (conj Hd Hc)) as Hfr.
    assert (16 <= length b)%nat by (rewrite Hb; unfold container_image, snap_header, MAGIC; len_lia).
    pose proof (parse_sections_spec (S (length b)) b HEADER_LEN 0 [] Hok ltac:(unfold HEADER_LEN; lia)) as Hs.
    rewrite (proj2 (Nat.ltb_ge (length b) HEADER_LEN)) by (unfold HEADER_LEN; lia). reads.
    assert (slice 0 6 b = MAGIC) as -> by (by rewrite Hb).
    assert (slice 6 2 b = le_bytes 2 version) as -> by (by rewrite Hb).
    assert (slice 8 4 b = le_bytes 4 (Z.of_nat (length (sections c)))) as -> by (by rewrite Hb).
    assert (slice 12 4 b = replicate 4 0) as -> by (by rewrite Hb).
    rewrite of_le_u16, of_le_u32 by (done || ulia). rewrite !bool_decide_true by done.
    rewrite Hmaj. cbn [negb Z.eqb Pos.eqb].
    destruct (parse_sections _ _ _ _ _) as [[res idx]| |]; [|by eapply Hs in Hfr|done].
    destruct Hs as (ss & -> & -> & Hfr'). apply secs_framed_all in Hfr' as [Hd' Hc'].
    cbn [mbind outcome_bind app].
    assert (ss = sections c) as ->.
    { eapply (secs_framed_inj b HEADER_LEN []); [unfold HEADER_LEN; lia| |done].
      by apply secs_framed_all. }
    rewrite Z.add_0_l, Z.eqb_refl. cbn. by destruct c.
Qed.

(** ** The writer *)

(** A writer that has accepted the sections [ss]. *)
Definition cw_repr (w : ContainerWriter) (ss : list Section_) : Prop :=
  cw_buf w = replicate HEADER_LEN 0 ++ encode_sections ss /\
  cw_count w = Z.of_nat (length ss) /\ cw_seen w = tags ss /\ container_ok ss.

Lemma push_section_cases s w ss o w' :
  cw_repr w ss -> u16 (sec_version s) -> bytes_ok (contents s) ->
  push_section (tag s) (sec_version s) (contents s) w = (o, w') ->
  match o with
  | Ok _ => cw_repr w' (ss ++ [s])
  | Err (WUnknownTag t) => w' = w /\ t = tag s /\ t ∉ KNOWN_TAGS
  | Err (WDuplicateTag t) => w' = w /\ t = tag s /\ t ∈ tags ss
  | Err SectionTooLong => w' = w /\ u32_max < Z.of_nat (length (contents s))
  | Panic => False
  end.
Proof.
  intros (Hb & Hc & Hs & Hwf & Hnd) Hv Hok. unfold push_section.
  case_bool_decide as Hk; cbn [negb]; [|by intros [= <- <-]].
  rewrite Hs. case_bool_decide as Hd; [by intros [= <- <-]|]. unfold try_u32.
  destruct (_ <=? u32_max) eqn:Hl; [|intros [= <- <-]; split; [done|lia]].
  intros H; simplify_eq. unfold cw_repr; cbn [cw_buf cw_count cw_seen]. split_and!.
  - rewrite Hb, encode_sections_app, encode_sections_single.
    unfold encode_section. pose proof (pad_len_lt (length (contents s))).
    rewrite take_replicate, Nat.min_l by lia. by rewrite <- !app_assoc.
  - rewrite length_app. cbn. lia.
  - unfold tags. by rewrite fmap_app.
  - split.
    + apply Forall_app; split; [done|]. constructor; [|done]. split_and!; auto. lia.
    + unfold tags. rewrite fmap_app. apply NoDup_app. split_and!; [done| |apply NoDup_singleton].
      intros t Ht ->%list_elem_of_singleton. done.
Qed.

Lemma finish_image w ss : cw_repr w ss -> finish w = container_image FORMAT_VERSION ss.
Proof.
  intros (Hb & Hc & _). unfold finish. rewrite Hb, Hc. done.
Qed.

(** Push every section in order, stopping at the first refusal. *)
Fixpoint push_all (ss : list Section_) (w : ContainerWriter) : outcome WriteError unit * ContainerWriter :=
  match ss with
  | [] => (Ok tt, w)
  | s :: ss =>
      match push_section (tag s) (sec_version s) (contents s) w with
      | (Ok _, w) => push_all ss w
      | r => r
      end
  end.

Lemma push_all_ok ss w done_ :
  cw_repr w done_ -> container_ok (done_ ++ ss) ->
  exists w', push_all ss w = (Ok tt, w') /\ cw_repr w' (done_ ++ ss).
Proof.
  revert w done_. induction ss as [|s ss IH]; intros w dn R Hok; cbn [push_all].
  { rewrite app_nil_r. eauto. }
  destruct Hok as [Hwf Hnd]. apply Forall_app in Hwf as [Hwf1 Hwf2].
  inversion Hwf2 as [|? ? Hs Hss]; subst. destruct Hs as (Hk & Hv & Hc & Hl).
  destruct (push_section _ _ _ w) as [o w1] eqn:Hp.
  pose proof (push_section_cases s w dn o w1 R Hv Hc Hp) as Hcase.
  destruct o as [[]|[|t|t]|]; [..|done].
  - replace (dn ++ s :: ss) with ((dn ++ [s]) ++ ss) in * by (by rewrite <- app_assoc).
    apply IH; [done|]. split; [|done]. rewrite <- app_assoc. by apply Forall_app.
  - lia.
  - naive_solver.
  - destruct Hcase as (_ & -> & Hin). unfold tags in Hnd, Hin. rewrite fmap_app in Hnd.
    apply NoDup_app in Hnd as (_ & Hnd & _). exfalso. apply (Hnd _ Hin). apply list_elem_of_here.
Qed.

Lemma container_image_ok v ss : container_ok ss -> bytes_ok (container_image v ss).
Proof.
  intros [Hwf _]. unfold container_image, snap_header, bytes_ok.
  rewrite !Forall_app. split_and!; try apply le_bytes_ok; try apply bytes_ok_replicate;
    [by apply bytes_okb_ok|].
  induction Hwf as [|s ss (Ht & _ & Hc & _) _ IH]; [constructor|]. rewrite encode_sections_cons.
  unfold encode_section. rewrite !Forall_app.
  split_and!; auto; try apply le_bytes_ok; try apply bytes_ok_replicate.
  - by apply known_tag_ok.
  - by apply bytes_okb_ok.
Qed.

Lemma cw_repr_new : cw_repr ContainerWriter_new [].
Proof. split_and!; try done. split; constructor. Qed.

(** C19: the container round trip.  Writing any list of sections with known,
    pairwise distinct tags succeeds, and parsing the finished image returns
    exactly those sections, in order. *)
Theorem container_roundtrip ss :
  container_ok ss ->
  exists w, push_all ss ContainerWriter_new = (Ok tt, w) /\
    finish w = container_image FORMAT_VERSION ss /\ parse (finish w) = Ok (mkContainer ss).
Proof.
  intros Hok. destruct (push_all_ok ss ContainerWriter_new [] cw_repr_new Hok) as (w & Hp & R).
  exists w. split; [done|]. rewrite (finish_image w ss R). split; [done|].
  apply container_parse_iff; [by apply container_image_ok|]. exists FORMAT_VERSION. cbn [sections].
  split_and!; try done.
Qed.

Definition example_sections : list Section_ :=
  [mkSection TIME 1 (replicate 56 7); mkSection SERL 1 []; mkSection PADD 2 [1; 2; 3]].
Lemma example_sections_ok : container_ok example_sections.
Proof.
  split.
  - repeat (apply Forall_cons_2; [split_and!|]); try apply Forall_nil_2; try (by apply bytes_okb_ok);
      try (vm_compute; done); by apply (bool_decide_unpack _).
  - by apply (bool_decide_unpack _).
Qed.
Lemma container_roundtrip_witness :
  exists w, push_all example_sections ContainerWriter_new = (Ok tt, w) /\
    finish w = container_image FORMAT_VERSION example_sections /\
    parse (finish w) = Ok (mkContainer example_sections).
Proof. apply (container_roundtrip example_sections example_sections_ok). Defined.

(** C23: the decoder is total and canonical.  Parsing any byte string yields a
    value or a typed error, never an index out of range; it yields a container
    exactly when the bytes are a v1.x header and the byte-exact encoding of
    sections with known, distinct tags, so a v1.0 image is reproduced bit for
    bit by writing its sections again. *)
Theorem container_parse_exact b :
  bytes_ok b ->
  parse b <> Panic /\
  (forall c, parse b = Ok c <->
     exists version, u16 version /\ Z.shiftr version 8 = 1 /\ container_ok (sections c) /\
       b = container_image version (sections c)) /\
  (forall c, parse b = Ok c -> slice 6 2 b = le_bytes 2 FORMAT_VERSION ->
     exists w, push_all (sections c) ContainerWriter_new = (Ok tt, w) /\ finish w = b).
Proof.
  intros Hok. split_and!.
  - unfold parse. case_match; [done|]. unfold HEADER_LEN in *. reads.
    do 2 (case_match; [done|]). reads. case_match; [done|].
    pose proof (parse_sections_spec (S (length b)) b HEADER_LEN 0 [] Hok ltac:(unfold HEADER_LEN; lia)) as Hs.
    fold HEADER_LEN. destruct (parse_sections _ _ _ _ _) as [[res idx]| |]; [|done..].
    cbn [mbind outcome_bind]. by case_match.
  - intros c. by apply container_parse_iff.
  - intros c (v & Hv & _ & Hc & Hb)%container_parse_iff H6; [|done].
    assert (slice 6 2 b = le_bytes 2 v) as H6' by (by rewrite Hb).
    assert (v = FORMAT_VERSION) as ->.
    { apply (le_bytes_inj 2); [done|done|congruence]. }
    destruct (push_all_ok (sections c) ContainerWriter_new [] cw_repr_new Hc) as (w & Hp & R).
    exists w. split; [done|]. by rewrite (finish_image w _ R).
Qed.

Lemma container_parse_exact_witness :
  parse (container_image FORMAT_VERSION example_sections) <> Panic.
Proof.
  apply (container_parse_exact (container_image FORMAT_VERSION example_sections)).
  apply container_image_ok, example_sections_ok.
Defined.

(** Lookups by tag are unambiguous: in a parsed container every section is
    the one [get] returns for its tag, and [has] holds of exactly the tags
    present. *)
Theorem get_unique b c :
  bytes_ok b -> parse b = Ok c ->
  (forall s, s ∈ sections c -> get c (tag s) = Some s) /\
  (forall t, has c t = bool_decide (t ∈ tags (sections c))).
Proof.
  intros Hok (v & _ & _ & [_ Hnd] & _)%container_parse_iff; [|done]. unfold has, get.
  induction (sections c) as [|s0 ss IH]; cbn in *.
  { split; [intros s Hs; by apply not_elem_of_nil in Hs|done]. }
  apply NoDup_cons in Hnd as [Hn Hnd]. destruct (IH Hnd) as [IH1 IH2]. split.
  - intros s [->|Hs]%elem_of_cons; [by rewrite bool_decide_true|].
    rewrite bool_decide_false; [by apply IH1|]. intros E. apply Hn. rewrite E.
    by apply list_elem_of_fmap_2.
  - intros t. case_bool_decide as Ht.
    + rewrite bool_decide_true; [done|]. rewrite Ht. apply list_elem_of_here.
    + rewrite IH2. apply bool_decide_ext. rewrite elem_of_cons. naive_solver.
Qed.

Lemma get_unique_witness :
  get (mkContainer example_sections) SERL = Some (mkSection SERL 1 []) /\
  has (mkContainer example_sections) NETL = false.
Proof.
  destruct (get_unique (container_image FORMAT_VERSION example_sections) (mkContainer example_sections))
    as [H1 H2]; [apply container_image_ok, example_sections_ok|vm_compute; reflexivity|].
  split; [apply (H1 (mkSection SERL 1 []))|rewrite H2; reflexivity].
  by apply (bool_decide_unpack _).
Defined.
