(* ===== verification/DhSnapSections.v ===== *)
(** * DHSNAP typed sections: [dh-snapshot/src/dhsnap.rs], engine-owned sections

    [TIME], [LAPC] and [ENTR] (both versions).  [LapcSection] is encoded with
    the source's cursor helpers; the others with stores at fixed offsets. *)

From S2P Require Import Prelude.

Inductive SectionError :=
| BadVersion (found : Z)
| BadLength (found : nat)
| NonzeroReserved (offset : nat).

Record TimeSection := mkTimeSection {
  cumulative_icount : Z; vns : Z; epoch_index : Z; hash_chain : bytes }.

Definition TimeSection_LEN : nat := 56.
Definition TimeSection_VERSION : Z := 1.

Definition TimeSection_encode (t : TimeSection) : bytes :=
  let out := replicate TimeSection_LEN 0 in
  let out := put 0 (le_bytes 8 (cumulative_icount t)) out in
  let out := put 8 (le_bytes 8 (vns t)) out in
  let out := put 16 (le_bytes 8 (epoch_index t)) out in
  put 24 (hash_chain t) out.

(** The version and length gate every section decoder starts with. *)
Definition section_gate (version len : Z) (b : bytes) (sec_version : Z) : outcome SectionError unit :=
  if negb (sec_version =? version) then Err (BadVersion sec_version)
  else if negb (Z.of_nat (length b) =? len) then Err (BadLength (length b))
  else Ok tt.

Definition TimeSection_decode (b : bytes) (sec_version : Z) : outcome SectionError TimeSection :=
  _ ← section_gate TimeSection_VERSION (Z.of_nat TimeSection_LEN) b sec_version;
  i ← read_le 8 0 b; v ← read_le 8 8 b; e ← read_le 8 16 b; h ← read_bytes 32 24 b;
  Ok (mkTimeSection i v e h).

Record EntrSection := mkEntrSection { seed : bytes; stream : Z; word_pos : Z }.
Definition EntrSection_LEN : nat := 56.
Definition EntrSection_VERSION : Z := 1.

Definition EntrSection_encode (s : EntrSection) : bytes :=
  let out := replicate EntrSection_LEN 0 in
  let out := put 0 (seed s) out in
  let out := put 32 (le_bytes 8 (stream s)) out in
  put 40 (le_bytes 16 (word_pos s)) out.

Definition EntrSection_decode (b : bytes) (sec_version : Z) : outcome SectionError EntrSection :=
  _ ← section_gate EntrSection_VERSION (Z.of_nat EntrSection_LEN) b sec_version;
  s ← read_bytes 32 0 b; st ← read_le 8 32 b; w ← read_le 16 40 b;
  Ok (mkEntrSection s st w).

Record EntrSectionV2 := mkEntrSectionV2 {
  v2_seed : bytes; v2_stream : Z; v2_word_pos : Z; v2_buf_gpa : Z; v2_len : Z; v2_status : Z }.
Definition EntrSectionV2_LEN : nat := 72.
Definition EntrSectionV2_VERSION : Z := 2.

Definition prng (s : EntrSectionV2) : EntrSection :=
  mkEntrSection (v2_seed s) (v2_stream s) (v2_word_pos s).

Definition from_parts (p : EntrSection) (device_regs : bytes) : outcome SectionError EntrSectionV2 :=
  if negb (length device_regs =? 16)%nat then Err (BadLength (length device_regs)) else
  g ← read_le 8 0 device_regs; l ← read_le 4 8 device_regs; s ← read_le 4 12 device_regs;
  Ok (mkEntrSectionV2 (seed p) (stream p) (word_pos p) g l s).

Definition device_regs (s : EntrSectionV2) : bytes :=
  let out := replicate 16 0 in
  let out := put 0 (le_bytes 8 (v2_buf_gpa s)) out in
  let out := put 8 (le_bytes 4 (v2_len s)) out in
  put 12 (le_bytes 4 (v2_status s)) out.

Definition EntrSectionV2_encode (s : EntrSectionV2) : bytes :=
  let out := replicate EntrSectionV2_LEN 0 in
  let out := put 0 (v2_seed s) out in
  let out := put 32 (le_bytes 8 (v2_stream s)) out in
  let out := put 40 (le_bytes 16 (v2_word_pos s)) out in
  put 56 (device_regs s) out.

Definition EntrSectionV2_decode (b : bytes) (sec_version : Z) : outcome SectionError EntrSectionV2 :=
  _ ← section_gate EntrSectionV2_VERSION (Z.of_nat EntrSectionV2_LEN) b sec_version;
  s ← read_bytes 32 0 b; st ← read_le 8 32 b; w ← read_le 16 40 b;
  g ← read_le 8 56 b; l ← read_le 4 64 b; x ← read_le 4 68 b;
  Ok (mkEntrSectionV2 s st w g l x).

Record LapcSection := mkLapcSection {
  apic_base_msr : Z; id : Z; tpr : Z; ldr : Z; dfr : Z; svr : Z;
  isr : list Z; tmr : list Z; irr : list Z;
  esr : Z; icr_low : Z; icr_high : Z;
  lvt_timer : Z; lvt_thermal : Z; lvt_perf : Z; lvt_lint0 : Z; lvt_lint1 : Z; lvt_error : Z;
  timer_initial : Z; timer_divide : Z }.

Definition LapcSection_default : LapcSection :=
  {| apic_base_msr := Z.lor (Z.lor 0xfee00000 (Z.shiftl 1 8)) (Z.shiftl 1 11);
     id := 0; tpr := 0; ldr := 0; dfr := 0xffffffff; svr := 0xff;
     isr := replicate 8 0; tmr := replicate 8 0; irr := replicate 8 0;
     esr := 0; icr_low := 0; icr_high := 0;
     lvt_timer := Z.shiftl 1 16; lvt_thermal := Z.shiftl 1 16; lvt_perf := Z.shiftl 1 16;
     lvt_lint0 := Z.shiftl 1 16; lvt_lint1 := Z.shiftl 1 16; lvt_error := Z.shiftl 1 16;
     timer_initial := 0; timer_divide := 0 |}.

Definition LapcSection_LEN : nat := #168.
Definition LapcSection_VERSION : Z := 2.
Definition LEGACY_EMPTY_VERSION : Z := 1.

(** The encoder's cursor: output buffer and position. *)
Definition put_u64 (v : Z) (c : bytes * nat) : bytes * nat := (put c.2 (le_bytes 8 v) c.1, c.2 + 8)%nat.
Definition put_u32 (v : Z) (c : bytes * nat) : bytes * nat := (put c.2 (le_bytes 4 v) c.1, c.2 + 4)%nat.
Definition put_u8 (v : Z) (c : bytes * nat) : bytes * nat := (put c.2 [v] c.1, c.2 + 1)%nat.
Definition skip (n : nat) (c : bytes * nat) : bytes * nat := (c.1, c.2 + n)%nat.
Fixpoint put_u32s (vs : list Z) (c : bytes * nat) : bytes * nat :=
  match vs with [] => c | v :: vs => put_u32s vs (put_u32 v c) end.

Definition LapcSection_encode (s : LapcSection) : bytes :=
  let c := (replicate LapcSection_LEN 0, 0%nat) in
  let c := put_u64 (apic_base_msr s) c in
  let c := put_u8 (id s) c in
  let c := put_u8 (tpr s) c in
  let c := skip 6 c in
  let c := put_u32 (ldr s) c in
  let c := put_u32 (dfr s) c in
  let c := put_u32 (svr s) c in
  let c := put_u32s (isr s) c in
  let c := put_u32s (tmr s) c in
  let c := put_u32s (irr s) c in
  let c := put_u32 (esr s) c in
  let c := put_u32 (icr_low s) c in
  let c := put_u32 (icr_high s) c in
  let c := put_u32 (lvt_timer s) c in
  let c := put_u32 (lvt_thermal s) c in
  let c := put_u32 (lvt_perf s) c in
  let c := put_u32 (lvt_lint0 s) c in
  let c := put_u32 (lvt_lint1 s) c in
  let c := put_u32 (lvt_error s) c in
  let c := put_u32 (timer_initial s) c in
  let c := put_u32 (timer_divide s) c in
  c.1.

(** The decoder's cursor reads return the value and the advanced position. *)
Definition take_le (n : nat) (b : bytes) (at_ : nat) : outcome SectionError (Z * nat) :=
  v ← read_le n at_ b; Ok (v, at_ + n)%nat.
Definition take_u64 := take_le 8.
Definition take_u32 := take_le 4.
Definition take_u8 := take_le 1.
Fixpoint take_u32s (k : nat) (b : bytes) (at_ : nat) : outcome SectionError (list Z * nat) :=
  match k with
  | O => Ok ([], at_)
  | S k => '(v, at_) ← take_u32 b at_; '(vs, at_) ← take_u32s k b at_; Ok (v :: vs, at_)
  end.

Definition LapcSection_decode (b : bytes) (sec_version : Z) : outcome SectionError LapcSection :=
  _ ← section_gate LapcSection_VERSION (Z.of_nat LapcSection_LEN) b sec_version;
  '(apic_base_msr, a) ← take_u64 b 0;
  '(id, a) ← take_u8 b a;
  '(tpr, a) ← take_u8 b a;
  reserved ← read_bytes 6 a b;
  if negb (bool_decide (reserved = replicate 6 0)) then Err (NonzeroReserved a) else
  let a := (a + 6)%nat in
  '(ldr, a) ← take_u32 b a;
  '(dfr, a) ← take_u32 b a;
  '(svr, a) ← take_u32 b a;
  '(isr, a) ← take_u32s 8 b a;
  '(tmr, a) ← take_u32s 8 b a;
  '(irr, a) ← take_u32s 8 b a;
  '(esr, a) ← take_u32 b a;
  '(icr_low, a) ← take_u32 b a;
  '(icr_high, a) ← take_u32 b a;
  '(lvt_timer, a) ← take_u32 b a;
  '(lvt_thermal, a) ← take_u32 b a;
  '(lvt_perf, a) ← take_u32 b a;
  '(lvt_lint0, a) ← take_u32 b a;
  '(lvt_lint1, a) ← take_u32 b a;
  '(lvt_error, a) ← take_u32 b a;
  '(timer_initial, a) ← take_u32 b a;
  '(timer_divide, a) ← take_u32 b a;
  Ok (mkLapcSection apic_base_msr id tpr ldr dfr svr isr tmr irr esr icr_low icr_high
        lvt_timer lvt_thermal lvt_perf lvt_lint0 lvt_lint1 lvt_error timer_initial timer_divide).

Definition decode_compat (b : bytes) (sec_version : Z) : outcome SectionError LapcSection :=
  if (sec_version =? LEGACY_EMPTY_VERSION) && (length b =? 0)%nat then Ok LapcSection_default
  else LapcSection_decode b sec_version.

(** ** Well-formed values *)

Definition time_wf (t : TimeSection) : Prop :=
  u64 (cumulative_icount t) /\ u64 (vns t) /\ u64 (epoch_index t) /\ array 32 (hash_chain t).
Definition entr_wf (s : EntrSection) : Prop :=
  array 32 (seed s) /\ u64 (stream s) /\ u128 (word_pos s).
Definition entr2_wf (s : EntrSectionV2) : Prop :=
  entr_wf (prng s) /\ u64 (v2_buf_gpa s) /\ u32 (v2_len s) /\ u32 (v2_status s).
Definition u32_array (k : nat) (l : list Z) : Prop := length l = k /\ Forall u32 l.
Definition lapc_wf (s : LapcSection) : Prop :=
  u64 (apic_base_msr s) /\ u8 (id s) /\ u8 (tpr s) /\ u32 (ldr s) /\ u32 (dfr s) /\ u32 (svr s) /\
  u32_array 8 (isr s) /\ u32_array 8 (tmr s) /\ u32_array 8 (irr s) /\
  u32 (esr s) /\ u32 (icr_low s) /\ u32 (icr_high s) /\ u32 (lvt_timer s) /\ u32 (lvt_thermal s) /\
  u32 (lvt_perf s) /\ u32 (lvt_lint0 s) /\ u32 (lvt_lint1 s) /\ u32 (lvt_error s) /\
  u32 (timer_initial s) /\ u32 (timer_divide s).

Lemma section_gate_ok version len b v :
  section_gate version len b v = Ok tt <-> v = version /\ Z.of_nat (length b) = len.
Proof. unfold section_gate. repeat case_match; split; try naive_solver lia. Qed.

Lemma section_gate_no_panic version len b v : section_gate version len b v <> Panic.
Proof. unfold section_gate. by repeat case_match. Qed.

(** ** TIME and ENTR: fixed offsets *)

(** The encodings as concatenations. *)
Lemma time_encode_cat t :
  time_wf t -> TimeSection_encode t =
  le_bytes 8 (cumulative_icount t) ++ le_bytes 8 (vns t) ++ le_bytes 8 (epoch_index t) ++ hash_chain t.
Proof.
  intros (_ & _ & _ & Hl & _). unfold TimeSection_encode, TimeSection_LEN.
  change (replicate 56 0) with ([] ++ replicate 56 0).
  rewrite !put_next by (rewrite ?Hl, ?length_le_bytes; done || lia).
  rewrite !length_le_bytes, Hl. cbn [replicate Nat.sub]. by rewrite app_nil_r, <- !app_assoc.
Qed.

Lemma entr_encode_cat s :
  entr_wf s -> EntrSection_encode s =
  seed s ++ le_bytes 8 (stream s) ++ le_bytes 16 (word_pos s).
Proof.
  intros ((Hl & _) & _ & _). unfold EntrSection_encode, EntrSection_LEN.
  change (replicate 56 0) with ([] ++ replicate 56 0).
  rewrite !put_next by (rewrite ?length_app, ?Hl, ?length_le_bytes; done || lia).
  rewrite !length_le_bytes, Hl. cbn [replicate Nat.sub]. by rewrite app_nil_r, <- !app_assoc.
Qed.

Lemma device_regs_cat s :
  device_regs s = le_bytes 8 (v2_buf_gpa s) ++ le_bytes 4 (v2_len s) ++ le_bytes 4 (v2_status s).
Proof. reflexivity. Qed.

Lemma entr2_encode_cat s :
  entr2_wf s -> EntrSectionV2_encode s =
  v2_seed s ++ le_bytes 8 (v2_stream s) ++ le_bytes 16 (v2_word_pos s) ++
  le_bytes 8 (v2_buf_gpa s) ++ le_bytes 4 (v2_len s) ++ le_bytes 4 (v2_status s).
Proof.
  intros (((Hl & _) & _ & _) & _). cbn in Hl. unfold EntrSectionV2_encode, EntrSectionV2_LEN.
  rewrite device_regs_cat. change (replicate 72 0) with ([] ++ replicate 72 0).
  rewrite !put_next by (rewrite ?length_app, ?Hl, ?length_le_bytes; done || lia).
  rewrite !length_app, !length_le_bytes, Hl. cbn [replicate Nat.sub Nat.add].
  by rewrite app_nil_r, <- !app_assoc.
Qed.

(** ** Cursor reads *)

(** A read at a position whose tail starts with an encoded number. *)
Lemma read_le_drop {E} n v b a rest :
  (0 < n)%nat -> 0 <= v < 256 ^ Z.of_nat n -> drop a b = le_bytes n v ++ rest ->
  @read_le E n a b = Ok v /\ drop (a + n) b = rest.
Proof.
  intros Hn Hv Hd. pose proof (f_equal length Hd) as Hl.
  rewrite length_drop, length_app, length_le_bytes in Hl.
  rewrite read_le_ok by lia. split.
  - unfold slice. rewrite Hd, take_app_length' by (by rewrite length_le_bytes).
    by rewrite of_le_le_bytes.
  - rewrite <- drop_drop, Hd. apply drop_app_length'. by rewrite length_le_bytes.
Qed.

Lemma read_le_drop_inv {E} n b a v :
  bytes_ok b -> @read_le E n a b = Ok v ->
  0 <= v < 256 ^ Z.of_nat n /\ drop a b = le_bytes n v ++ drop (a + n) b /\ (a + n <= length b)%nat.
Proof.
  intros Hok H. unfold read_le in H. case_match eqn:Hl; [|done]. injection H as <-.
  apply Nat.leb_le in Hl. split; [by apply of_le_slice_bound|]. split; [|done].
  rewrite le_bytes_slice by done. apply drop_slice_cons.
Qed.

Lemma read_bytes_drop {E} n s b a rest :
  length s = n -> (0 < n)%nat -> drop a b = s ++ rest ->
  @read_bytes E n a b = Ok s /\ drop (a + n) b = rest.
Proof.
  intros <- Hn Hd. pose proof (f_equal length Hd) as Hl. rewrite length_drop, length_app in Hl.
  rewrite read_bytes_ok by lia. split.
  - unfold slice. by rewrite Hd, take_app_length.
  - rewrite <- drop_drop, Hd. apply drop_app_length.
Qed.

Lemma read_bytes_drop_inv {E} n b a s :
  bytes_ok b -> @read_bytes E n a b = Ok s ->
  array n s /\ drop a b = s ++ drop (a + n) b /\ (a + n <= length b)%nat.
Proof.
  intros Hok H. unfold read_bytes in H. case_match eqn:Hl; [|done]. injection H as <-.
  apply Nat.leb_le in Hl. split; [split; [by apply length_slice|by apply Forall_slice]|].
  split; [|done]. apply drop_slice_cons.
Qed.

(** Forward: resolve the next read against the known tail of the input. *)
Ltac read_next :=
  match goal with
  | Hd : drop ?a ?b = le_bytes ?n ?v ++ ?rest |- context [read_le ?n ?a ?b] =>
      let H := fresh in let Hd' := fresh "Hd" in
      destruct (@read_le_drop SectionError n v b a rest ltac:(lia) ltac:(assumption) Hd) as [H Hd'];
      rewrite H; clear H Hd; cbn [mbind outcome_bind Nat.add] in Hd' |- *
  | Hd : drop ?a ?b = ?s ++ ?rest |- context [read_bytes ?n ?a ?b] =>
      let H := fresh in let Hd' := fresh "Hd" in
      destruct (@read_bytes_drop SectionError n s b a rest ltac:(assumption || reflexivity) ltac:(lia) Hd) as [H Hd'];
      rewrite H; clear H Hd; cbn [mbind outcome_bind Nat.add] in Hd' |- *
  end.

(** Backward: turn a successful decode into facts about the input's tails. *)
Ltac unread :=
  repeat match goal with
  | H : mbind _ _ = Ok _ |- _ => apply bind_ok in H as (? & ? & H)
  | Hok : bytes_ok ?b, H : read_le _ _ ?b = Ok _ |- _ =>
      apply (read_le_drop_inv _ _ _ _ Hok) in H as (? & ? & ?)
  | Hok : bytes_ok ?b, H : read_bytes _ _ ?b = Ok _ |- _ =>
      apply (read_bytes_drop_inv _ _ _ _ Hok) in H as (? & ? & ?)
  end.

(** Start a forward proof: the gate passes and the tail at 0 is the input. *)
Ltac decode_start LEN :=
  rewrite (proj2 (section_gate_ok _ _ _ _)) by (split; [done|unfold LEN; len_lia]);
  cbn [mbind outcome_bind];
  match goal with |- context [?r 0%nat ?b] =>
    let b0 := fresh "b" in pose (b0 := b);
    assert (drop 0 b0 = b ++ []) as Hd by (by rewrite drop_0, app_nil_r);
    change b with b0; clearbody b0; rewrite <- ?app_assoc in Hd end.

Lemma drop_all_nil (b : bytes) n : length b = n -> drop n b = [].
Proof. intros <-. apply drop_all. Qed.

Lemma time_encode_decode t :
  time_wf t -> TimeSection_decode (TimeSection_encode t) TimeSection_VERSION = Ok t.
Proof.
  intros Hwf. rewrite time_encode_cat by done. destruct Hwf as (? & ? & ? & ? & ?).
  unfold TimeSection_decode. decode_start TimeSection_LEN. repeat read_next. by destruct t.
Qed.

Lemma entr_encode_decode s :
  entr_wf s -> EntrSection_decode (EntrSection_encode s) EntrSection_VERSION = Ok s.
Proof.
  intros Hwf. rewrite entr_encode_cat by done. destruct Hwf as ((? & ?) & ? & ?).
  unfold EntrSection_decode. decode_start EntrSection_LEN. repeat read_next. by destruct s.
Qed.

Lemma entr2_encode_decode s :
  entr2_wf s -> EntrSectionV2_decode (EntrSectionV2_encode s) EntrSectionV2_VERSION = Ok s.
Proof.
  intros Hwf. rewrite entr2_encode_cat by done. destruct Hwf as (((? & ?) & ? & ?) & ? & ? & ?).
  cbn [prng seed stream word_pos] in *.
  unfold EntrSectionV2_decode. decode_start EntrSectionV2_LEN. repeat read_next. by destruct s.
Qed.

(** Finish a backward proof: chain the tails back into the input. *)
Ltac rebuild n :=
  cbn [Nat.add] in *; rewrite drop_0 in *;
  match goal with Hl : length ?b = n |- _ =>
    rewrite (drop_all_nil b n Hl), ?app_nil_r in *; congruence end.

Lemma time_decode_encode b v t :
  bytes_ok b -> TimeSection_decode b v = Ok t ->
  v = TimeSection_VERSION /\ time_wf t /\ TimeSection_encode t = b.
Proof.
  intros Hok H. unfold TimeSection_decode in H.
  apply bind_ok in H as ([] & (-> & Hl)%section_gate_ok & H).
  assert (length b = 56%nat) as Hlb by (unfold TimeSection_LEN in Hl; lia).
  unread. injection H as <-.
  assert (time_wf (mkTimeSection x x0 x1 x2)) as Hwf by (split_and!; done).
  split; [done|]. split; [done|]. rewrite time_encode_cat by done.
  cbn [cumulative_icount vns epoch_index hash_chain]. rebuild 56%nat.
Qed.

Lemma entr_decode_encode b v s :
  bytes_ok b -> EntrSection_decode b v = Ok s ->
  v = EntrSection_VERSION /\ entr_wf s /\ EntrSection_encode s = b.
Proof.
  intros Hok H. unfold EntrSection_decode in H.
  apply bind_ok in H as ([] & (-> & Hl)%section_gate_ok & H).
  assert (length b = 56%nat) as Hlb by (unfold EntrSection_LEN in Hl; lia).
  unread. injection H as <-.
  assert (entr_wf (mkEntrSection x x0 x1)) as Hwf by (split_and!; done).
  split; [done|]. split; [done|]. rewrite entr_encode_cat by done.
  cbn [seed stream word_pos]. rebuild 56%nat.
Qed.

Lemma entr2_decode_encode b v s :
  bytes_ok b -> EntrSectionV2_decode b v = Ok s ->
  v = EntrSectionV2_VERSION /\ entr2_wf s /\ EntrSectionV2_encode s = b.
Proof.
  intros Hok H. unfold EntrSectionV2_decode in H.
  apply bind_ok in H as ([] & (-> & Hl)%section_gate_ok & H).
  assert (length b = 72%nat) as Hlb by (unfold EntrSectionV2_LEN in Hl; lia).
  unread. injection H as <-.
  assert (entr2_wf (mkEntrSectionV2 x x0 x1 x2 x3 x4)) as Hwf by (split_and!; done).
  split; [done|]. split; [done|]. rewrite entr2_encode_cat by done.
  cbn [v2_seed v2_stream v2_word_pos v2_buf_gpa v2_len v2_status]. rebuild 72%nat.
Qed.

(** ** LAPC: the cursor encoder *)

Definition u32s (vs : list Z) : bytes := mjoin (le_bytes 4 <$> vs).

(** A cursor behind the written prefix [pre], [n] zero bytes ahead. *)
Definition cur (pre : bytes) (n : nat) : bytes * nat := (pre ++ replicate n 0, length pre).

Lemma cur_put_le k v pre n :
  (k <= n)%nat ->
  (put (cur pre n).2 (le_bytes k v) (cur pre n).1, (cur pre n).2 + k)%nat
  = cur (pre ++ le_bytes k v) (n - k).
Proof.
  intros Hk. unfold cur; cbn [fst snd]. rewrite put_next by (rewrite ?length_le_bytes; done).
  by rewrite length_app, length_le_bytes.
Qed.
Lemma cur_put_u64 v pre n : (8 <= n)%nat -> put_u64 v (cur pre n) = cur (pre ++ le_bytes 8 v) (n - 8).
Proof. apply cur_put_le. Qed.
Lemma cur_put_u32 v pre n : (4 <= n)%nat -> put_u32 v (cur pre n) = cur (pre ++ le_bytes 4 v) (n - 4).
Proof. apply cur_put_le. Qed.
Lemma cur_put_u8 v pre n : u8 v -> (1 <= n)%nat -> put_u8 v (cur pre n) = cur (pre ++ le_bytes 1 v) (n - 1).
Proof.
  intros Hv Hn. rewrite <- cur_put_le by done. unfold put_u8. cbn [le_bytes].
  by rewrite Z.mod_small by exact Hv.
Qed.
Lemma cur_skip k pre n : (k <= n)%nat -> skip k (cur pre n) = cur (pre ++ replicate k 0) (n - k).
Proof.
  intros Hk. unfold skip, cur; cbn [fst snd]. rewrite length_app, length_replicate, <- app_assoc.
  rewrite <- replicate_add. by replace (k + (n - k))%nat with n by lia.
Qed.
Lemma cur_put_u32s vs pre n :
  (4 * length vs <= n)%nat -> put_u32s vs (cur pre n) = cur (pre ++ u32s vs) (n - 4 * length vs).
Proof.
  revert pre n. induction vs as [|v vs IH]; intros pre n Hn; cbn [put_u32s length] in *.
  - unfold u32s; cbn. by rewrite app_nil_r, Nat.sub_0_r.
  - rewrite cur_put_u32 by lia. rewrite IH by lia. unfold u32s; cbn [fmap list_fmap mjoin list_join].
    rewrite <- app_assoc. f_equal. lia.
Qed.

Lemma length_u32s vs : length (u32s vs) = (4 * length vs)%nat.
Proof.
  induction vs as [|v vs IH]; [done|].
  change (u32s (v :: vs)) with (le_bytes 4 v ++ u32s vs).
  rewrite length_app, IH, length_le_bytes. cbn [length]. lia.
Qed.

Lemma lapc_encode_cat s :
  lapc_wf s -> LapcSection_encode s =
  le_bytes 8 (apic_base_msr s) ++ le_bytes 1 (id s) ++ le_bytes 1 (tpr s) ++ replicate 6 0 ++
  le_bytes 4 (ldr s) ++ le_bytes 4 (dfr s) ++ le_bytes 4 (svr s) ++
  u32s (isr s) ++ u32s (tmr s) ++ u32s (irr s) ++
  le_bytes 4 (esr s) ++ le_bytes 4 (icr_low s) ++ le_bytes 4 (icr_high s) ++
  le_bytes 4 (lvt_timer s) ++ le_bytes 4 (lvt_thermal s) ++ le_bytes 4 (lvt_perf s) ++
  le_bytes 4 (lvt_lint0 s) ++ le_bytes 4 (lvt_lint1 s) ++ le_bytes 4 (lvt_error s) ++
  le_bytes 4 (timer_initial s) ++ le_bytes 4 (timer_divide s).
Proof.
  intros (_ & Hid & Htpr & _ & _ & _ & (Hi & _) & (Ht & _) & (Hr & _) & _).
  unfold LapcSection_encode. change (replicate LapcSection_LEN 0, 0%nat) with (cur [] LapcSection_LEN).
  rewrite cur_put_u64 by (unfold LapcSection_LEN; lia). rewrite !cur_put_u8 by (done || (unfold LapcSection_LEN; lia)).
  rewrite cur_skip by (unfold LapcSection_LEN; lia).
  rewrite !cur_put_u32 by (unfold LapcSection_LEN; lia).
  rewrite !cur_put_u32s by (unfold LapcSection_LEN; lia).
  rewrite Hi, Ht, Hr. rewrite !cur_put_u32 by (unfold LapcSection_LEN; lia).
  unfold cur; cbn [fst]. replace (_ - _)%nat with 0%nat by (unfold LapcSection_LEN; lia).
  cbn [replicate app]. by rewrite app_nil_r, <- !app_assoc.
Qed.

Lemma take_u32s_drop k vs b a rest :
  u32_array k vs -> drop a b = u32s vs ++ rest ->
  take_u32s k b a = Ok (vs, a + 4 * k)%nat /\ drop (a + 4 * k) b = rest.
Proof.
  intros [<- Hv]. revert a. induction Hv as [|v vs Hv Hvs IH]; intros a Hd; cbn [take_u32s length].
  - by rewrite Nat.add_0_r.
  - change (u32s (v :: vs)) with (le_bytes 4 v ++ u32s vs) in Hd. rewrite <- app_assoc in Hd.
    destruct (@read_le_drop SectionError 4 v b a _ ltac:(lia) Hv Hd) as [Hr Hd'].
    unfold take_u32, take_le. rewrite Hr. cbn [mbind outcome_bind].
    destruct (IH _ Hd') as [-> Hd'']. cbn [mbind outcome_bind].
    replace (a + 4 + 4 * length vs)%nat with (a + 4 * S (length vs))%nat in * by lia. done.
Qed.

Lemma take_u32s_drop_inv k b a vs a' :
  bytes_ok b -> take_u32s k b a = Ok (vs, a') ->
  u32_array k vs /\ a' = (a + 4 * k)%nat /\ drop a b = u32s vs ++ drop (a + 4 * k) b.
Proof.
  intros Hok. revert a vs. induction k as [|k IH]; intros a vs; cbn [take_u32s].
  { intros [= <- <-]. rewrite Nat.add_0_r. done. }
  intros ([v a1] & (x & Hx & [= <- <-])%bind_ok & ([vs' a2] & Ht & [= <- <-])%bind_ok)%bind_ok.
  apply (read_le_drop_inv _ _ _ _ Hok) in Hx as (Hx & Hd & _).
  apply IH in Ht as ([<- Hvs] & -> & Hd').
  split; [split; [done|by constructor]|].
  replace (a + 4 + 4 * length vs')%nat with (a + 4 * S (length vs'))%nat in * by lia.
  split; [done|]. change (u32s (x :: vs')) with (le_bytes 4 x ++ u32s vs').
  rewrite <- app_assoc. congruence.
Qed.

Lemma lapc_encode_decode s :
  lapc_wf s -> LapcSection_decode (LapcSection_encode s) LapcSection_VERSION = Ok s.
Proof.
  intros Hwf. rewrite lapc_encode_cat by done.
  destruct Hwf as (? & ? & ? & ? & ? & ? & Hi & Ht & Hr & ? & ? & ? & ? & ? & ? & ? & ? & ? & ? & ?).
  unfold LapcSection_decode, take_u64, take_u8, take_u32, take_le.
  rewrite (proj2 (section_gate_ok _ _ _ _)).
  2:{ split; [done|]. unfold LapcSection_LEN. destruct Hi as [Hi _], Ht as [Ht _], Hr as [Hr _].
      rewrite !length_app, !length_u32s, !length_le_bytes, Hi, Ht, Hr. done. }
  cbn [mbind outcome_bind].
  match goal with |- context [read_le _ 0 ?b] =>
    pose (b0 := b); assert (drop 0 b0 = b ++ []) as Hd by (by rewrite drop_0, app_nil_r);
    change b with b0; clearbody b0; rewrite <- ?app_assoc in Hd end.
  repeat read_next. rewrite bool_decide_true by done. cbn [negb]. repeat read_next.
  repeat (match goal with
  | Ha : u32_array ?k ?vs, Hd : drop ?a ?b = u32s ?vs ++ ?rest |- context [take_u32s ?k ?b ?a] =>
      let Hd' := fresh "Hd" in destruct (take_u32s_drop k vs b a rest Ha Hd) as [-> Hd'];
      clear Hd; cbn [mbind outcome_bind Nat.add Nat.mul] in Hd' |- *
  end). repeat read_next. by destruct s.
Qed.

(** Backward steps of the cursor decoder. *)
Lemma bind_take {A} n b a (k : Z * nat -> outcome SectionError A) r :
  bytes_ok b -> mbind k (take_le n b a) = Ok r ->
  exists v, 0 <= v < 256 ^ Z.of_nat n /\ drop a b = le_bytes n v ++ drop (a + n) b /\
    k (v, a + n)%nat = Ok r.
Proof.
  intros Hok ([v a'] & (x & Hx & [= <- <-])%bind_ok & H)%bind_ok.
  apply (read_le_drop_inv _ _ _ _ Hok) in Hx as (? & ? & _). eauto.
Qed.
Lemma bind_take_u32s {A} m b a (k : list Z * nat -> outcome SectionError A) r :
  bytes_ok b -> mbind k (take_u32s m b a) = Ok r ->
  exists vs, u32_array m vs /\ drop a b = u32s vs ++ drop (a + 4 * m) b /\
    k (vs, a + 4 * m)%nat = Ok r.
Proof.
  intros Hok ([vs a'] & (Hv & -> & Hd)%take_u32s_drop_inv & Hk)%bind_ok; eauto.
Qed.

Ltac untake H :=
  repeat first
    [ apply bind_take in H as (? & ? & ? & H); [|assumption]
    | apply bind_take_u32s in H as (? & ? & ? & H); [|assumption] ];
  cbn [Nat.add Nat.mul] in *.

Lemma lapc_decode_encode b v s :
  bytes_ok b -> LapcSection_decode b v = Ok s ->
  v = LapcSection_VERSION /\ lapc_wf s /\ LapcSection_encode s = b.
Proof.
  intros Hok H. unfold LapcSection_decode in H.
  apply bind_ok in H as ([] & (-> & Hl)%section_gate_ok & H).
  assert (length b = 168%nat) as Hlb by (unfold LapcSection_LEN in Hl; lia).
  unfold take_u64, take_u8, take_u32 in H. untake H.
  apply bind_ok in H as (res & Hres & H). 
  destruct (bool_decide (res = replicate 6 0)) eqn:Hz; [|done].
  apply bool_decide_eq_true in Hz as ->. cbn [negb] in H.
  apply (read_bytes_drop_inv _ _ _ _ Hok) in Hres as (_ & ? & _). untake H.
  injection H as <-. split; [done|].
  match goal with |- lapc_wf ?s /\ _ => assert (lapc_wf s) as Hwf by (split_and!; done) end.
  split; [done|]. rewrite lapc_encode_cat by done.
  cbn [apic_base_msr id tpr ldr dfr svr isr tmr irr esr icr_low icr_high lvt_timer lvt_thermal
    lvt_perf lvt_lint0 lvt_lint1 lvt_error timer_initial timer_divide]. clear Hwf.
  rewrite drop_0 in *. rewrite (drop_all_nil b 168 Hlb), ?app_nil_r in *.
  repeat match goal with Hd : drop ?a b = _ |- _ => rewrite Hd in *; clear Hd end. done.
Qed.

(** ** Properties *)

(** Every typed section survives a snapshot.  Decoding the encoding of a
    well-typed [TIME], [ENTR] (v1 and v2) or [LAPC] value returns that value, at
    the section's own version. *)
Theorem sections_roundtrip t e e2 l :
  time_wf t -> entr_wf e -> entr2_wf e2 -> lapc_wf l ->
  TimeSection_decode (TimeSection_encode t) TimeSection_VERSION = Ok t /\
  EntrSection_decode (EntrSection_encode e) EntrSection_VERSION = Ok e /\
  EntrSectionV2_decode (EntrSectionV2_encode e2) EntrSectionV2_VERSION = Ok e2 /\
  LapcSection_decode (LapcSection_encode l) LapcSection_VERSION = Ok l.
Proof.
  intros. split_and!; [by apply time_encode_decode|by apply entr_encode_decode
    |by apply entr2_encode_decode|by apply lapc_encode_decode].
Qed.

Definition example_time : TimeSection := mkTimeSection 1000 2000 3 (replicate 32 5).
Definition example_entr : EntrSection := mkEntrSection (replicate 32 1) 7 (2 ^ 100).
Definition example_entr2 : EntrSectionV2 := mkEntrSectionV2 (replicate 32 1) 7 9 4096 64 1.

Lemma replicate_array n v : u8 v -> array n (replicate n v).
Proof. split; [apply length_replicate|by apply Forall_replicate]. Qed.
Lemma lapc_default_wf : lapc_wf LapcSection_default.
Proof. split_and!; try done; split; try done; by apply Forall_replicate. Qed.

Lemma sections_roundtrip_witness :
  TimeSection_decode (TimeSection_encode example_time) TimeSection_VERSION = Ok example_time /\
  EntrSection_decode (EntrSection_encode example_entr) EntrSection_VERSION = Ok example_entr /\
  EntrSectionV2_decode (EntrSectionV2_encode example_entr2) EntrSectionV2_VERSION = Ok example_entr2 /\
  LapcSection_decode (LapcSection_encode LapcSection_default) LapcSection_VERSION = Ok LapcSection_default.
Proof.
  apply (sections_roundtrip example_time example_entr example_entr2 LapcSection_default);
    [split_and!; try done; by apply replicate_array
    |split_and!; try done; by apply replicate_array
    |split_and!; try done; split_and!; try done; by apply replicate_array
    |apply lapc_default_wf].
Defined.

(** The section decoders are canonical.  A decoder accepts a byte string
    only at its version, only well-typed, and the value it returns encodes back
    to the very same bytes, reserved bytes included. *)
Theorem sections_canonical b v :
  bytes_ok b ->
  (forall t, TimeSection_decode b v = Ok t -> time_wf t /\ TimeSection_encode t = b) /\
  (forall e, EntrSection_decode b v = Ok e -> entr_wf e /\ EntrSection_encode e = b) /\
  (forall e, EntrSectionV2_decode b v = Ok e -> entr2_wf e /\ EntrSectionV2_encode e = b) /\
  (forall l, LapcSection_decode b v = Ok l -> lapc_wf l /\ LapcSection_encode l = b) /\
  (forall l, decode_compat b v = Ok l ->
     (v = LEGACY_EMPTY_VERSION /\ b = [] /\ l = LapcSection_default) \/ LapcSection_encode l = b).
Proof.
  intros Hok. split_and!.
  - by intros t (_ & ? & ?)%time_decode_encode.
  - by intros t (_ & ? & ?)%entr_decode_encode.
  - by intros t (_ & ? & ?)%entr2_decode_encode.
  - by intros t (_ & ? & ?)%lapc_decode_encode.
  - intros l. unfold decode_compat. case_match eqn:Hc.
    + intros [= <-]. left.
      destruct b; [split_and!; (done || lia)|exfalso; cbn [length] in Hc; lia].
    + intros (_ & _ & ?)%lapc_decode_encode; [by right|done].
Qed.

Lemma sections_canonical_witness :
  TimeSection_encode example_time = TimeSection_encode example_time /\
  (forall l, decode_compat [] 1 = Ok l ->
     (1 = LEGACY_EMPTY_VERSION /\ @nil Z = [] /\ l = LapcSection_default) \/ LapcSection_encode l = []).
Proof.
  split; [|apply (sections_canonical [] 1); constructor].
  apply (sections_canonical (TimeSection_encode example_time) TimeSection_VERSION);
    [by apply bytes_okb_ok|reflexivity].
Defined.

(** The ENTR v2 section splits and joins without loss: combining the PRNG
    state with the device's register blob and taking the two halves back
    returns them, in the device's own register layout. *)
Theorem entr_parts_roundtrip p regs :
  entr_wf p -> array 16 regs ->
  exists s, from_parts p regs = Ok s /\ prng s = p /\ device_regs s = regs /\ entr2_wf s /\
    EntrSectionV2_decode (EntrSectionV2_encode s) EntrSectionV2_VERSION = Ok s.
Proof.
  intros Hp [Hl Hok]. unfold from_parts. rewrite Hl. cbn [Nat.eqb negb]. reads.
  eexists; split; [reflexivity|].
  set (s := mkEntrSectionV2 _ _ _ _ _ _).
  assert (entr2_wf s) as Hwf.
  { unfold s. split_and!; try apply Hp; cbn [v2_buf_gpa v2_len v2_status].
    - apply (of_le_slice_bound 0 8 regs Hok); lia.
    - apply (of_le_slice_bound 8 4 regs Hok); lia.
    - apply (of_le_slice_bound 12 4 regs Hok); lia. }
  split_and!; [by destruct p| |done|by apply entr2_encode_decode].
  rewrite device_regs_cat. unfold s; cbn [v2_buf_gpa v2_len v2_status].
  rewrite !le_bytes_slice by (done || lia).
  rewrite <- (app_nil_r (slice 12 4 regs)), <- (drop_all_nil regs 16 Hl).
  rewrite <- (drop_slice_cons 12 4), <- (drop_slice_cons 8 4), <- (drop_slice_cons 0 8). apply drop_0.
Qed.

Lemma entr_parts_roundtrip_witness :
  exists s, from_parts example_entr (replicate 16 3) = Ok s /\ prng s = example_entr /\
    device_regs s = replicate 16 3 /\ entr2_wf s /\
    EntrSectionV2_decode (EntrSectionV2_encode s) EntrSectionV2_VERSION = Ok s.
Proof.
  apply (entr_parts_roundtrip example_entr (replicate 16 3));
    [split_and!; try done; by apply replicate_array|by apply replicate_array].
Defined.
