(* ===== verification/Agenda.v ===== *)
(** * Agenda compilation: [dh-vmm/src/agenda.rs]

    A run request compiles to a strictly increasing sequence of stop points.
    [AgendaIter] is the streaming merge of the source; the last section gives a
    declarative agenda and shows that collecting the iterator computes it. *)

From stdpp Require Import sorting.
From S2P Require Import Prelude Vt.

Inductive FinalStop :=
| IcountBudget (b : Z)
| VnsBudget (b : Z)
| HardCap (b : Z).

Inductive StopKind := KBudget | KHardCap.

Record AgendaInputs := mkAgendaInputs {
  start_icount : Z;
  scheduled_inputs : list Z;
  injections : list Z;
  epoch_len : option Z;
  goal_poll_period : option Z;
  final_stop : FinalStop;
  clock : ClockRatio;
}.

Record StopPoint := mkStopPoint {
  sp_icount : Z;
  sp_inputs : list nat;
  sp_injections : list nat;
  sp_epoch_hash : bool;
  sp_goal_poll : bool;
  sp_final_stop : option StopKind;
}.

Inductive AgendaError := BudgetOverflow.

Record AgendaIter := mkAgendaIter {
  it_final_icount : Z;
  it_stop_kind : StopKind;
  it_inputs : list (Z * nat);
  it_injections : list (Z * nat);
  it_epoch_next : option Z;
  it_epoch_len : Z;
  it_goal_next : option Z;
  it_goal_period : Z;
  it_done : bool;
}.

(** The final icount and stop kind of a request. *)
Definition resolve_final (i : AgendaInputs) : outcome AgendaError (Z * StopKind) :=
  let start := start_icount i in
  match final_stop i with
  | IcountBudget b => f ← ok_or BudgetOverflow (checked_add start b); Ok (f, KBudget)
  | HardCap b => f ← ok_or BudgetOverflow (checked_add start b); Ok (f, KHardCap)
  | VnsBudget b =>
      start_vns ← ok_or BudgetOverflow (vns_from_icount (clock i) start);
      target_vns ← ok_or BudgetOverflow (checked_add start_vns b);
      target ← ok_or BudgetOverflow (icount_for_vns_target (clock i) target_vns);
      Ok (Z.max target start, KBudget)
  end.

(** [enumerate] into (icount, index) pairs. *)
Fixpoint enumerate (k : nat) (l : list Z) : list (Z * nat) :=
  match l with [] => [] | a :: l => (a, k) :: enumerate (S k) l end.

(** [sort_unstable] on (u64, usize) pairs: lexicographic order, no equal
    elements, so every sort gives the same list. *)
Definition pair_le (p q : Z * nat) : bool :=
  (p.1 <? q.1) || ((p.1 =? q.1) && (p.2 <=? q.2)%nat).
Fixpoint insert_pair (p : Z * nat) (l : list (Z * nat)) : list (Z * nat) :=
  match l with
  | [] => [p]
  | q :: l => if pair_le p q then p :: q :: l else q :: insert_pair p l
  end.
Fixpoint sort_pairs (l : list (Z * nat)) : list (Z * nat) :=
  match l with [] => [] | p :: l => insert_pair p (sort_pairs l) end.

Definition window_pairs (start final : Z) (l : list Z) : list (Z * nat) :=
  sort_pairs (List.filter (fun p => (start <? p.1) && (p.1 <=? final)) (enumerate 0 l)).

Definition filter_le (final : Z) (o : option Z) : option Z :=
  match o with Some a => if a <=? final then Some a else None | None => None end.

Definition checked_mul (a b : Z) : option Z := try_u64 (a * b).

(** [AgendaIter::new].  [start / len + 1] is plain u64 addition: an overflow
    there is a panic of checked builds. *)
Definition AgendaIter_new (i : AgendaInputs) : outcome AgendaError AgendaIter :=
  let start := start_icount i in
  '(final, kind) ← resolve_final i;
  let ins := window_pairs start final (scheduled_inputs i) in
  let injs := window_pairs start final (injections i) in
  '(elen, enext) ←
    match epoch_len i with
    | Some len =>
        if u64_max <? start / len + 1 then Panic
        else Ok (len, filter_le final (checked_mul (start / len + 1) len))
    | None => Ok (0, None)
    end;
  let '(gper, gnext) :=
    match goal_poll_period i with
    | Some period => (period, filter_le final (checked_add start period))
    | None => (0, None)
    end in
  Ok {| it_final_icount := final; it_stop_kind := kind; it_inputs := ins; it_injections := injs;
        it_epoch_next := enext; it_epoch_len := elen; it_goal_next := gnext;
        it_goal_period := gper; it_done := false |}.

(** [while peek().is_some_and(|a| a == at) { push(next().1) }]. *)
Fixpoint drain_at (at_ : Z) (l : list (Z * nat)) : list nat * list (Z * nat) :=
  match l with
  | (a, i) :: l' => if a =? at_ then let '(d, r) := drain_at at_ l' in (i :: d, r) else ([], l)
  | [] => ([], [])
  end.

Definition min_opt (at_ : Z) (o : option Z) : Z :=
  match o with Some a => Z.min at_ a | None => at_ end.

Definition AgendaIter_next (it : AgendaIter) : option (StopPoint * AgendaIter) :=
  if it_done it then None else
  let final := it_final_icount it in
  let at_ := final in
  let at_ := min_opt at_ (head (it_inputs it).*1) in
  let at_ := min_opt at_ (head (it_injections it).*1) in
  let at_ := min_opt at_ (it_epoch_next it) in
  let at_ := min_opt at_ (it_goal_next it) in
  let '(pins, ins) := drain_at at_ (it_inputs it) in
  let '(pinjs, injs) := drain_at at_ (it_injections it) in
  let epoch_hash := bool_decide (it_epoch_next it = Some at_) in
  let epoch_next :=
    if epoch_hash then filter_le final (checked_add at_ (it_epoch_len it)) else it_epoch_next it in
  let goal_poll := bool_decide (it_goal_next it = Some at_) in
  let goal_next :=
    if goal_poll then filter_le final (checked_add at_ (it_goal_period it)) else it_goal_next it in
  let is_final := at_ =? final in
  Some (mkStopPoint at_ pins pinjs epoch_hash goal_poll
          (if is_final then Some (it_stop_kind it) else None),
        {| it_final_icount := final; it_stop_kind := it_stop_kind it; it_inputs := ins;
           it_injections := injs; it_epoch_next := epoch_next; it_epoch_len := it_epoch_len it;
           it_goal_next := goal_next; it_goal_period := it_goal_period it;
           it_done := if is_final then true else it_done it |}).

Fixpoint collect (fuel : nat) (it : AgendaIter) : outcome AgendaError (list StopPoint) :=
  match fuel with
  | O => Panic
  | S fuel =>
      match AgendaIter_next it with
      | None => Ok []
      | Some (p, it) => ps ← collect fuel it; Ok (p :: ps)
      end
  end.

(** One point per icount of (start, final] at most, plus the exhausted call. *)
Definition compile (i : AgendaInputs) : outcome AgendaError (list StopPoint) :=
  it ← AgendaIter_new i;
  collect (Z.to_nat (it_final_icount it - start_icount i) + 2) it.

(** ** Scheduled landings: the sorted window *)

Lemma filter_filter {A} (f g : A -> bool) l :
  List.filter f (List.filter g l) = List.filter (fun x => g x && f x) l.
Proof. induction l as [|x l IH]; [done|]. cbn. destruct (g x); cbn; by rewrite IH. Qed.

Lemma filter_ext_in' {A} (f g : A -> bool) l :
  (forall x, x ∈ l -> f x = g x) -> List.filter f l = List.filter g l.
Proof.
  intros H. apply List.filter_ext_in. intros x Hx. apply H. by apply list_elem_of_In.
Qed.

Lemma filter_none {A} (l : list A) : List.filter (fun _ => false) l = [].
Proof. by induction l. Qed.
Lemma filter_all {A} (l : list A) : List.filter (fun _ => true) l = l.
Proof. induction l; cbn; congruence. Qed.


Lemma enumerate_elem k l a i :
  (a, i) ∈ enumerate k l <-> (k <= i)%nat /\ l !! (i - k)%nat = Some a.
Proof.
  revert k. induction l as [|b l IH]; intros k; cbn [enumerate].
  - split; [intros H; by apply not_elem_of_nil in H|]. by intros [_ H].
  - rewrite elem_of_cons, IH. split.
    + intros [[= <- <-]|[Hk Hl]]; [by rewrite Nat.sub_diag|].
      replace (i - k)%nat with (S (i - S k)) by lia. split; [lia|done].
    + intros [Hk Hl]. destruct (decide (i = k)) as [->|Hne].
      * rewrite Nat.sub_diag in Hl. injection Hl as <-. by left.
      * right. replace (i - k)%nat with (S (i - S k)) in Hl by lia. split; [lia|done].
Qed.

Lemma insert_pair_elem p l q : q ∈ insert_pair p l <-> q = p \/ q ∈ l.
Proof.
  induction l as [|r l IH]; cbn; [set_solver|]. case_match; [set_solver|].
  rewrite !elem_of_cons, IH. naive_solver.
Qed.
Lemma sort_pairs_elem l q : q ∈ sort_pairs l <-> q ∈ l.
Proof. induction l as [|p l IH]; cbn; [done|]. rewrite insert_pair_elem, elem_of_cons, IH. done. Qed.

Definition fst_le (p q : Z * nat) : Prop := p.1 <= q.1.

Lemma insert_pair_sorted p l : StronglySorted fst_le l -> StronglySorted fst_le (insert_pair p l).
Proof.
  induction 1 as [|q l Hl IH Hq]; cbn; [by repeat constructor|]. case_match eqn:E; unfold pair_le in E.
  - constructor; [by constructor|]. constructor; [unfold fst_le; lia|].
    eapply Forall_impl; [exact Hq|]. unfold fst_le. lia.
  - constructor; [done|]. apply Forall_forall. intros r [->|Hr]%insert_pair_elem; [unfold fst_le; lia|].
    rewrite Forall_forall in Hq. auto.
Qed.
Lemma sort_pairs_sorted l : StronglySorted fst_le (sort_pairs l).
Proof. induction l; cbn; [constructor|by apply insert_pair_sorted]. Qed.

(** The sort keeps pairs of one icount in index order. *)
Lemma insert_pair_filter x p l :
  Forall (fun q => (p.2 < q.2)%nat) l ->
  List.filter (fun q => q.1 =? x) (insert_pair p l) =
  if p.1 =? x then p :: List.filter (fun q => q.1 =? x) l else List.filter (fun q => q.1 =? x) l.
Proof.
  induction 1 as [|q l Hq Hl IH]; cbn; [by case_match|]. unfold pair_le.
  destruct (_ || _) eqn:E; cbn.
  - by destruct (p.1 =? x).
  - rewrite IH. destruct (p.1 =? x) eqn:Ep, (q.1 =? x) eqn:Eq; try done. exfalso. lia.
Qed.

Lemma enumerate_index k l : Forall (fun q => (k <= q.2)%nat) (enumerate k l).
Proof.
  apply Forall_forall. intros [a i] Hi. cbn. by apply enumerate_elem in Hi as [? _].
Qed.

Lemma sort_pairs_filter x f k l :
  List.filter (fun q => q.1 =? x) (sort_pairs (List.filter f (enumerate k l)))
  = List.filter (fun q => q.1 =? x) (List.filter f (enumerate k l)).
Proof.
  revert k. induction l as [|a l IH]; intros k; cbn; [done|]. destruct (f (a, k)); [|done]. cbn.
  rewrite insert_pair_filter, IH; [done|].
  apply Forall_forall. intros q Hq. cbn. apply sort_pairs_elem, elem_of_bfilter in Hq as [Hq _].
  pose proof (enumerate_index (S k) l) as Hf. rewrite Forall_forall in Hf. apply Hf in Hq. lia.
Qed.

Lemma window_pairs_elem s f l a i :
  (a, i) ∈ window_pairs s f l <-> l !! i = Some a /\ s < a <= f.
Proof.
  unfold window_pairs. rewrite sort_pairs_elem, elem_of_bfilter, enumerate_elem, Nat.sub_0_r. cbn.
  split; [intros [[_ ?] ?]|intros [? ?]]; split_and!; try done; lia.
Qed.

(** ** Draining the pairs of one icount *)

Lemma StronglySorted_filter {A} (R : A -> A -> Prop) f l :
  StronglySorted R l -> StronglySorted R (List.filter f l).
Proof.
  induction 1 as [|x l Hl IH Hx]; cbn; [constructor|]. case_match; [|done].
  constructor; [done|]. apply Forall_forall. intros y [Hy _]%elem_of_bfilter.
  rewrite Forall_forall in Hx. auto.
Qed.

Lemma drain_at_spec x l :
  StronglySorted fst_le l -> Forall (fun p => x <= p.1) l ->
  drain_at x l = ((List.filter (fun p => p.1 =? x) l).*2, List.filter (fun p => x <? p.1) l).
Proof.
  induction 1 as [|[a i] l Hl IH Ha]; intros Hx; [done|]. inversion Hx; subst. cbn in *.
  destruct (a =? x) eqn:E.
  - rewrite IH by done. cbn. replace (x <? a) with false by lia. done.
  - replace (x <? a) with true by lia. f_equal.
    + rewrite (filter_ext_in' _ (fun _ => false)); [by rewrite filter_none|].
      intros p Hp. rewrite Forall_forall in Ha. apply Ha in Hp. unfold fst_le in Hp. cbn in Hp. lia.
    + rewrite (filter_ext_in' _ (fun _ => true)); [by rewrite filter_all|].
      intros p Hp. rewrite Forall_forall in Ha. apply Ha in Hp. unfold fst_le in Hp. cbn in Hp. lia.
Qed.

(** ** Arithmetic grids *)

(** The least point of [{base + k * len}] beyond [c]. *)
Definition grid_next (base len c : Z) : Z := base + ((c - base) / len + 1) * len.
Definition on_grid (base len x : Z) : bool := (x - base) mod len =? 0.

Lemma grid_next_spec base len c x :
  0 < len -> (c < x /\ on_grid base len x = true) ->
  c < grid_next base len c <= x /\ on_grid base len (grid_next base len c) = true.
Proof.
  intros Hl [Hc Hx]. unfold on_grid, grid_next in *.
  replace (base + ((c - base) / len + 1) * len - base) with (((c - base) / len + 1) * len) by lia.
  rewrite Z.mod_mul by lia.
  pose proof (Z.div_mod (c - base) len ltac:(lia)). pose proof (Z.mod_pos_bound (c - base) len ltac:(lia)).
  pose proof (Z.div_mod (x - base) len ltac:(lia)).
  assert ((c - base) / len < (x - base) / len) by nia.
  split; [split; nia|done].
Qed.

Lemma grid_next_gt base len c : 0 < len -> c < grid_next base len c.
Proof.
  intros Hl. unfold grid_next. pose proof (Z.div_mod (c - base) len ltac:(lia)).
  pose proof (Z.mod_pos_bound (c - base) len ltac:(lia)). nia.
Qed.

Lemma grid_next_on base len c : 0 < len -> on_grid base len (grid_next base len c) = true.
Proof.
  intros Hl. unfold on_grid, grid_next.
  replace (base + ((c - base) / len + 1) * len - base) with (((c - base) / len + 1) * len) by lia.
  by rewrite Z.mod_mul by lia.
Qed.

Lemma grid_next_at base len x : 0 < len -> on_grid base len x = true -> grid_next base len x = x + len.
Proof.
  intros Hl Hx. unfold on_grid, grid_next in *. pose proof (Z.div_mod (x - base) len ltac:(lia)). nia.
Qed.

Lemma grid_next_stable base len c d :
  0 < len -> c <= d < grid_next base len c -> grid_next base len d = grid_next base len c.
Proof.
  intros Hl Hd. pose proof (grid_next_gt base len d Hl). pose proof (grid_next_on base len d Hl).
  pose proof (grid_next_on base len c Hl).
  destruct (grid_next_spec base len c (grid_next base len d) Hl) as [[_ ?] _]; [split; [lia|done]|].
  destruct (grid_next_spec base len d (grid_next base len c) Hl) as [[_ ?] _]; [split; [lia|done]|].
  lia.
Qed.

(** ** The declarative agenda *)

Section agenda.
Context (i : AgendaInputs) (final : Z) (kind : StopKind).
Let start := start_icount i.

Definition landing (l : list Z) (x : Z) : list nat :=
  if start <? x then (List.filter (fun p => p.1 =? x) (enumerate 0 l)).*2 else [].
Definition epoch_at (x : Z) : bool :=
  match epoch_len i with Some len => (start <? x) && on_grid 0 len x | None => false end.
Definition goal_at (x : Z) : bool :=
  match goal_poll_period i with Some p => (start <? x) && on_grid start p x | None => false end.

(** The stop point of icount [x]: every action that is due there. *)
Definition point_at (x : Z) : StopPoint :=
  mkStopPoint x (landing (scheduled_inputs i) x) (landing (injections i) x)
    (epoch_at x) (goal_at x) (if x =? final then Some kind else None).

(** Something is due at [x]. *)
Definition due (x : Z) : Prop :=
  x ∈ scheduled_inputs i \/ x ∈ injections i \/ epoch_at x = true \/ goal_at x = true.

Definition next_grid (base : Z) (len : option Z) (c : Z) : option Z :=
  match len with Some len => filter_le final (Some (grid_next base len c)) | None => None end.

(** The iterator's state once everything up to [c] has been yielded. *)
Record iter_at (c : Z) (it : AgendaIter) : Prop := {
  ia_final : it_final_icount it = final;
  ia_kind : it_stop_kind it = kind;
  ia_inputs : it_inputs it = List.filter (fun p => c <? p.1) (window_pairs start final (scheduled_inputs i));
  ia_injections : it_injections it = List.filter (fun p => c <? p.1) (window_pairs start final (injections i));
  ia_epoch : it_epoch_next it = next_grid 0 (epoch_len i) c;
  ia_epoch_len : it_epoch_len it = default 0 (epoch_len i);
  ia_goal : it_goal_next it = next_grid start (goal_poll_period i) c;
  ia_goal_len : it_goal_period it = default 0 (goal_poll_period i);
  ia_done : it_done it = false;
}.

Context (Hepoch : forall len, epoch_len i = Some len -> 0 < len).
Context (Hgoal : forall p, goal_poll_period i = Some p -> 0 < p).
Context (Hfinal : start <= final <= u64_max).

Lemma head_min c l m :
  min_opt m (head (List.filter (fun p => c <? p.1) (window_pairs start final l)).*1) <= m /\
  (forall a k, (a, k) ∈ window_pairs start final l -> c < a ->
     min_opt m (head (List.filter (fun p => c <? p.1) (window_pairs start final l)).*1) <= a) /\
  (min_opt m (head (List.filter (fun p => c <? p.1) (window_pairs start final l)).*1) = m \/
   exists a, min_opt m (head (List.filter (fun p => c <? p.1) (window_pairs start final l)).*1) = a /\
     c < a /\ a ∈ l).
Proof.
  pose proof (StronglySorted_filter fst_le (fun p => c <? p.1) _ (sort_pairs_sorted
    (List.filter (fun p => (start <? p.1) && (p.1 <=? final)) (enumerate 0 l)))) as Hs.
  fold (window_pairs start final l) in Hs.
  destruct (List.filter _ (window_pairs start final l)) as [|[a k] r] eqn:E; cbn [fmap list_fmap head min_opt].
  - split; [done|]. split; [|by left]. intros a k Ha Hc. exfalso.
    assert ((a, k) ∈ List.filter (fun p => c <? p.1) (window_pairs start final l)) as H
      by (apply elem_of_bfilter; split; [done|cbn; lia]).
    rewrite E in H. by apply not_elem_of_nil in H.
  - assert ((a, k) ∈ List.filter (fun p => c <? p.1) (window_pairs start final l)) as Hin
      by (rewrite E; apply list_elem_of_here).
    apply elem_of_bfilter in Hin as [Hin Hc]. cbn in Hc.
    apply window_pairs_elem in Hin as [Hl _]. apply list_elem_of_lookup_2 in Hl.
    split; [cbn; lia|]. split.
    + intros b k' Hb Hcb.
      assert ((b, k') ∈ List.filter (fun p => c <? p.1) (window_pairs start final l)) as H
        by (apply elem_of_bfilter; split; [done|cbn; lia]).
      rewrite E in H. apply elem_of_cons in H as [[= -> ->]|H]; [cbn; lia|].
      inversion Hs as [|? ? ? Hall]; subst. rewrite Forall_forall in Hall.
      apply Hall in H. unfold fst_le in H. cbn in H |- *. lia.
    + cbn. destruct (Z.min_spec m a) as [[? ->]|[? ->]]; [by left|]. right. exists a. split_and!; auto; lia.
Qed.

Lemma grid_min base len c m :
  (forall n, len = Some n -> 0 < n) ->
  min_opt m (next_grid base len c) <= m /\
  (forall n x, len = Some n -> c < x <= final -> on_grid base n x = true ->
     min_opt m (next_grid base len c) <= x) /\
  (min_opt m (next_grid base len c) = m \/
   exists n, len = Some n /\ c < min_opt m (next_grid base len c) /\
     on_grid base n (min_opt m (next_grid base len c)) = true).
Proof.
  intros Hpos. destruct len as [n|]; cbn; [|naive_solver]. specialize (Hpos n eq_refl).
  pose proof (grid_next_gt base n c Hpos). pose proof (grid_next_on base n c Hpos).
  case_match; cbn.
  - split; [lia|]. split.
    + intros n' x [= <-] Hx Hg. destruct (grid_next_spec base n c x Hpos) as [? _]; [split; [lia|done]|]. lia.
    + destruct (Z.min_spec m (grid_next base n c)) as [[? ->]|[? ->]]; [by left|]. right. eauto.
  - split; [lia|]. split; [|by left].
    intros n' x [= <-] Hx Hg. destruct (grid_next_spec base n c x Hpos) as [? _]; [split; [lia|done]|]. lia.
Qed.

(** Draining the landings of the next icount. *)
Lemma drain_landing c x l :
  start <= c -> (c < x \/ x = final /\ c = start) -> x <= final ->
  (forall a k, (a, k) ∈ window_pairs start final l -> c < a -> x <= a) ->
  drain_at x (List.filter (fun p => c <? p.1) (window_pairs start final l))
  = (landing l x, List.filter (fun p => x <? p.1) (window_pairs start final l)).
Proof.
  intros Hc Hx Hxf Hmin.
  rewrite drain_at_spec.
  2:{ apply StronglySorted_filter, sort_pairs_sorted. }
  2:{ apply Forall_forall. intros [a k] [Ha Hca]%elem_of_bfilter. cbn in *. apply (Hmin a k); [done|lia]. }
  rewrite !filter_filter. f_equal.
  - unfold landing. destruct (start <? x) eqn:Hsx.
    + f_equal. unfold window_pairs.
      rewrite (filter_ext_in' _ (fun p => p.1 =? x)).
      * rewrite sort_pairs_filter, filter_filter. apply filter_ext_in'. intros p _. lia.
      * intros [a k] Ha. apply sort_pairs_elem, elem_of_bfilter in Ha as [_ Ha]. cbn in *. lia.
    + rewrite (filter_ext_in' _ (fun _ => false)); [by rewrite filter_none|].
      intros [a k] Ha%window_pairs_elem. cbn. lia.
  - apply filter_ext_in'. intros [a k] Ha%window_pairs_elem. cbn. lia.
Qed.

(** Advancing a grid past the yielded icount. *)
Lemma advance_grid base len c x :
  (forall n, len = Some n -> 0 < n) -> start <= c -> x <= final ->
  (c < x \/ x = final /\ c = start) ->
  (forall n y, len = Some n -> c < y <= final -> on_grid base n y = true -> x <= y) ->
  bool_decide (next_grid base len c = Some x)
    = match len with Some n => (start <? x) && on_grid base n x | None => false end /\
  (x < final ->
   (if bool_decide (next_grid base len c = Some x)
    then filter_le final (checked_add x (default 0 len)) else next_grid base len c)
   = next_grid base len x).
Proof.
  intros Hpos Hc Hxf Hx Hmin. destruct len as [n|]; cbn [next_grid filter_le default from_option].
  2:{ split; [done|]. by intros _. }
  specialize (Hpos n eq_refl). specialize (Hmin n).
  pose proof (grid_next_gt base n c Hpos) as Hgt. pose proof (grid_next_on base n c Hpos) as Hon.
  destruct (decide (grid_next base n c = x)) as [Hx'|Hne].
  - subst x. assert (grid_next base n c <=? final = true) as -> by lia.
    rewrite bool_decide_true by done.
    split; [rewrite Hon; lia|]. intros Hlt. rewrite (grid_next_at base n (grid_next base n c)) by done.
    unfold checked_add, try_u64, id. cbn [filter_le].
    destruct (grid_next base n c + n <=? u64_max) eqn:E1; cbn [filter_le]; [done|].
    destruct (grid_next base n c + n <=? final) eqn:E2; [lia|done].
  - assert (x < grid_next base n c) as Hlt.
    { destruct (decide (grid_next base n c <= final)); [|lia].
      specialize (Hmin (grid_next base n c) eq_refl ltac:(lia) Hon). lia. }
    rewrite bool_decide_false by (cbn; case_match; naive_solver).
    split.
    + destruct (on_grid base n x) eqn:Hox; [|lia].
      destruct (start <? x) eqn:Hsx; [|done]. exfalso.
      destruct (grid_next_spec base n c x Hpos) as [? _]; [split; [lia|done]|]. lia.
    + intros _. cbn. rewrite (grid_next_stable base n c x Hpos); [done|lia].
Qed.

Lemma next_spec c it :
  iter_at c it -> start <= c -> (c < final \/ c = start) ->
  exists x it', AgendaIter_next it = Some (point_at x, it') /\
    (c < x \/ x = final /\ c = start) /\ x <= final /\
    (x < final -> due x) /\ (forall y, c < y < x -> ~ due y) /\
    (if x =? final then it_done it' = true else iter_at x it').
Proof.
  intros [Hf Hk Hi Hj He Hel Hg Hgl Hd] Hsc Hcf.
  unfold AgendaIter_next. rewrite Hd, Hf, Hk, Hi, Hj, He, Hg. cbv zeta.
  pose proof (head_min c (scheduled_inputs i) final) as (L1 & M1 & O1).
  set (m1 := min_opt final _) in *.
  pose proof (head_min c (injections i) m1) as (L2 & M2 & O2). set (m2 := min_opt m1 _) in *.
  pose proof (grid_min 0 (epoch_len i) c m2 Hepoch) as (L3 & M3 & O3). set (m3 := min_opt m2 _) in *.
  pose proof (grid_min start (goal_poll_period i) c m3 Hgoal) as (L4 & M4 & O4). set (x := min_opt m3 _) in *.
  assert (c < x \/ x = final /\ c = start) as Hcx.
  { destruct O4 as [E4|(n & _ & ? & _)]; [|lia]. destruct O3 as [E3|(n & _ & ? & _)]; [|lia].
    destruct O2 as [E2|(a & E2 & ? & _)]; [|lia]. destruct O1 as [E1|(a & E1 & ? & _)]; lia. }
  rewrite (drain_landing c x (scheduled_inputs i)); [|done|done|lia|intros a k Ha Hca; specialize (M1 a k Ha Hca); lia].
  rewrite (drain_landing c x (injections i)); [|done|done|lia|intros a k Ha Hca; specialize (M2 a k Ha Hca); lia].
  destruct (advance_grid 0 (epoch_len i) c x Hepoch) as [Ee1 Ee2];
    [done|lia|done|intros n y Hn Hy Hon; specialize (M3 n y Hn Hy Hon); lia|].
  destruct (advance_grid start (goal_poll_period i) c x Hgoal) as [Eg1 Eg2];
    [done|lia|done|intros n y Hn Hy Hon; specialize (M4 n y Hn Hy Hon); lia|].
  clearbody x m3 m2 m1. rewrite Hel, Hgl. eexists x, _. split; [|split; [done|split; [lia|]]].
  { rewrite Ee1, Eg1. unfold point_at, epoch_at, goal_at. reflexivity. }
  split_and!.
  - intros Hlt. unfold due, epoch_at, goal_at. fold start.
    destruct O4 as [E4|(n & -> & ? & Hon)]; [|do 3 right; rewrite Hon; lia].
    destruct O3 as [E3|(n & -> & ? & Hon)]; [|do 2 right; left; rewrite E4, Hon; lia].
    destruct O2 as [E2|(a & E2 & ? & ?)]; [|replace x with a by lia; auto].
    destruct O1 as [E1|(a & E1 & ? & ?)]; [lia|replace x with a by lia; auto].
  - intros y Hy Hdue. unfold due, epoch_at, goal_at in Hdue. fold start in Hdue.
    destruct Hdue as [Hin|[Hin|[Hin|Hin]]].
    + apply list_elem_of_lookup in Hin as [k Hk']. specialize (M1 y k).
      rewrite window_pairs_elem in M1. specialize (M1 ltac:(split; [done|lia]) ltac:(lia)). lia.
    + apply list_elem_of_lookup in Hin as [k Hk']. specialize (M2 y k).
      rewrite window_pairs_elem in M2. specialize (M2 ltac:(split; [done|lia]) ltac:(lia)). lia.
    + destruct (epoch_len i) as [n|]; [|done]. apply andb_true_iff in Hin as [_ Hin].
      specialize (M3 n y eq_refl ltac:(lia) Hin). lia.
    + destruct (goal_poll_period i) as [n|]; [|done]. apply andb_true_iff in Hin as [_ Hin].
      specialize (M4 n y eq_refl ltac:(lia) Hin). lia.
  - destruct (x =? final) eqn:Hxf; [done|]. split; cbn; auto.
    + rewrite <- Ee1. apply Ee2. lia.
    + rewrite <- Eg1. apply Eg2. lia.
Qed.

Lemma collect_spec fuel c it :
  iter_at c it -> start <= c -> (c < final \/ c = start) -> (Z.to_nat (final - c) + 2 <= fuel)%nat ->
  exists xs, collect fuel it = Ok (point_at <$> xs) /\ StronglySorted Z.lt xs /\
    Forall (fun x => c < x \/ x = final /\ c = start) xs /\
    forall x, x ∈ xs <-> (x = final \/ c < x < final /\ due x).
Proof.
  revert c it. induction fuel as [|fuel IH]; intros c it Hit Hsc Hcf Hfuel; [lia|].
  destruct (next_spec c it Hit Hsc Hcf) as (x & it' & Hn & Hcx & Hxf & Hdue & Hnone & Hit').
  cbn [collect]. rewrite Hn. destruct (x =? final) eqn:Hx.
  - assert (x = final) by lia. subst x. exists [final].
    destruct fuel as [|fuel]; [lia|]. cbn [collect]. unfold AgendaIter_next. rewrite Hit'. cbn.
    split; [done|]. split; [by repeat constructor|]. split; [apply Forall_singleton, Hcx|].
    intros y. rewrite list_elem_of_singleton. split; [by left|]. intros [->|[Hy1 Hy2]]; [done|].
    exfalso. destruct Hcx as [Hcx|[_ ->]]; eapply (Hnone y); auto; lia.
  - destruct (IH x it' Hit') as (xs & Hc & Hs & Hge & Hin); [lia|lia|lia|].
    rewrite Hc. exists (x :: xs). split; [done|]. split; [constructor; [done|]|].
    { eapply Forall_impl; [exact Hge|]. cbn. intros y. lia. }
    split.
    { constructor; [done|]. eapply Forall_impl; [exact Hge|]. cbn. intros y. lia. }
    intros y. rewrite elem_of_cons, Hin. split.
    + intros [->|[->|[? ?]]]; [right; split; [lia|apply Hdue; lia]|by left|right; split; [lia|done]].
    + intros [->|[? ?]]; [by right; left|]. destruct (Z.lt_trichotomy y x) as [?|[?|?]]; [|by left|].
      * exfalso. eapply (Hnone y); [lia|done].
      * right. right. split; [lia|done].
Qed.
End agenda.

(** The largest element of a strictly sorted list is its last. *)
Lemma sorted_last xs f :
  StronglySorted Z.lt xs -> f ∈ xs -> Forall (fun x => x <= f) xs -> list.last xs = Some f.
Proof.
  induction 1 as [|x xs Hs IH Hx]; intros Hin Hle; [by apply not_elem_of_nil in Hin|].
  destruct xs as [|y xs].
  - apply list_elem_of_singleton in Hin as ->. done.
  - rewrite last_cons_cons. inversion Hle; subst. apply IH; [|done].
    apply elem_of_cons in Hin as [->|?]; [|done]. inversion Hx; inversion Hle; subst.
    match goal with H : Forall _ (y :: xs) |- _ => inversion H; subst; lia end.
Qed.

(** ** Requests *)

Definition inputs_wf (i : AgendaInputs) : Prop :=
  u64 (start_icount i) /\ ratio_wf (clock i) /\
  (forall len, epoch_len i = Some len -> 0 < len <= u64_max) /\
  (forall p, goal_poll_period i = Some p -> 0 < p <= u64_max) /\
  match final_stop i with IcountBudget b | VnsBudget b | HardCap b => u64 b end.

Lemma checked_add_Some a b c : checked_add a b = Some c <-> c = a + b /\ a + b <= u64_max.
Proof. unfold checked_add. apply try_u64_Some. Qed.

Lemma resolve_final_range i f k :
  inputs_wf i -> resolve_final i = Ok (f, k) -> start_icount i <= f <= u64_max.
Proof.
  intros (Hs & Hr & _ & _ & Hb). unfold resolve_final. destruct (final_stop i) as [b|b|b].
  - destruct (checked_add _ _) as [z|] eqn:E; [|done]. apply checked_add_Some in E.
    intros [= <- <-]. ulia.
  - destruct (vns_from_icount _ _) as [v|]; [|done]. cbn.
    destruct (checked_add _ _) as [z|]; [|done]. cbn.
    destruct (icount_for_vns_target _ _) as [t|] eqn:E; [|done]. cbn.
    apply try_u64_Some in E. intros [= <- <-]. ulia.
  - destruct (checked_add _ _) as [z|] eqn:E; [|done]. apply checked_add_Some in E.
    intros [= <- <-]. ulia.
Qed.

Lemma resolve_final_no_panic i : resolve_final i <> Panic.
Proof.
  unfold resolve_final. destruct (final_stop i);
    repeat (apply bind_not_panic; [unfold ok_or; by case_match|intros]); done.
Qed.

(** [start / len + 1] fits unless the run starts at u64::MAX with a grid of 1. *)
Definition grid_start_ok (i : AgendaInputs) : Prop :=
  start_icount i < u64_max \/ epoch_len i <> Some 1.

Lemma new_spec i f k :
  inputs_wf i -> grid_start_ok i -> resolve_final i = Ok (f, k) ->
  exists it, AgendaIter_new i = Ok it /\ it_final_icount it = f /\ iter_at i f k (start_icount i) it.
Proof.
  intros Hwf Hgs Hr. pose proof (resolve_final_range _ _ _ Hwf Hr) as Hf.
  destruct Hwf as (Hs & _ & He & Hg & _). unfold AgendaIter_new. rewrite Hr. cbn [mbind outcome_bind].
  assert (forall l, List.filter (fun p => start_icount i <? p.1) (window_pairs (start_icount i) f l)
                    = window_pairs (start_icount i) f l) as Hall.
  { intros l. rewrite (filter_ext_in' _ (fun _ => true)); [apply filter_all|].
    intros [a n] Ha%window_pairs_elem. cbn. lia. }
  assert (forall z, filter_le f (try_u64 z) = filter_le f (Some z)) as Hle.
  { intros z. unfold try_u64. case_match; [done|]. cbn. case_match; [lia|done]. }
  unfold grid_start_ok in Hgs.
  destruct (epoch_len i) as [len|] eqn:Hel.
  - specialize (He len eq_refl).
    assert ((u64_max <? start_icount i / len + 1) = false) as ->.
    { pose proof (Z.div_mod (start_icount i) len ltac:(lia)).
      pose proof (Z.mod_pos_bound (start_icount i) len ltac:(lia)).
      destruct (decide (len = 1)); [subst; rewrite Z.div_1_r; destruct Hgs as [?|[]]; [ulia|done]|].
      width_unfold; nia. }
    cbn [mbind outcome_bind]. unfold checked_mul, checked_add. rewrite Hle.
    destruct (goal_poll_period i) as [p|] eqn:Hgp; eexists; (split; [reflexivity|]); (split; [done|]);
      split; cbn [it_final_icount it_stop_kind it_inputs it_injections it_epoch_next it_epoch_len
        it_goal_next it_goal_period it_done]; rewrite ?Hall, ?Hel, ?Hgp, ?Hle; try done;
      cbn [next_grid]; unfold grid_next; do 2 f_equal;
      try specialize (Hg p eq_refl); rewrite ?Z.sub_0_r, ?Z.sub_diag, ?Z.div_0_l; lia.
  - cbn [mbind outcome_bind]. unfold checked_add.
    destruct (goal_poll_period i) as [p|] eqn:Hgp; eexists; (split; [reflexivity|]); (split; [done|]);
      split; cbn [it_final_icount it_stop_kind it_inputs it_injections it_epoch_next it_epoch_len
        it_goal_next it_goal_period it_done]; rewrite ?Hall, ?Hel, ?Hgp, ?Hle; try done;
      cbn [next_grid]; unfold grid_next; do 2 f_equal; specialize (Hg p eq_refl);
      rewrite Z.sub_diag, Z.div_0_l; lia.
Qed.

Lemma compile_spec i f k :
  inputs_wf i -> grid_start_ok i -> resolve_final i = Ok (f, k) ->
  exists xs, compile i = Ok (point_at i f k <$> xs) /\ StronglySorted Z.lt xs /\
    list.last xs = Some f /\
    forall x, x ∈ xs <-> (x = f \/ start_icount i < x < f /\ due i x).
Proof.
  intros Hwf Hgs Hr. pose proof (resolve_final_range _ _ _ Hwf Hr) as Hf.
  destruct (new_spec i f k Hwf Hgs Hr) as (it & Hnew & Hfi & Hit).
  destruct Hwf as (Hs & _ & He & Hg & _).
  destruct (collect_spec i f k) with (fuel := (Z.to_nat (it_final_icount it - start_icount i) + 2)%nat)
    (c := start_icount i) (it := it) as (xs & Hc & Hsort & _ & Hin); auto.
  - intros len Hl. specialize (He len Hl). lia.
  - intros p Hp. specialize (Hg p Hp). lia.
  - lia.
  - rewrite Hfi. lia.
  - exists xs. unfold compile. rewrite Hnew. cbn [mbind outcome_bind]. split; [done|]. split; [done|].
    split; [|done].
    apply sorted_last; [done|apply Hin; by left|]. apply Forall_forall. intros x [->|?]%Hin; lia.
Qed.

Lemma compile_ok i f k :
  inputs_wf i -> grid_start_ok i -> resolve_final i = Ok (f, k) -> exists ps, compile i = Ok ps.
Proof. intros Hwf Hg Hr. destruct (compile_spec i f k Hwf Hg Hr) as (xs & H & _). eauto. Qed.

(** C9: the compiled agenda is exactly the declarative one.  A request whose
    budget fits u64 compiles (the streaming merge terminates) to strictly
    ascending stop points: one for the final icount and one for every icount of
    (start, final) at which an input, an injection, an epoch-grid point or a
    goal poll is due; each point carries all and only the actions due there,
    with input and injection indices in caller order, and only the last point
    carries the stop kind. *)
Theorem compile_correct i f k :
  inputs_wf i -> grid_start_ok i -> resolve_final i = Ok (f, k) ->
  exists xs, compile i = Ok (point_at i f k <$> xs) /\ StronglySorted Z.lt xs /\
    list.last xs = Some f /\
    forall x, x ∈ xs <-> (x = f \/ start_icount i < x < f /\ due i x).
Proof. apply compile_spec. Qed.

Definition example_request : AgendaInputs :=
  mkAgendaInputs 0 [15; 30] [15; 5; 30] (Some 10) (Some 15) (IcountBudget 30) ClockRatio_default.
Lemma example_request_wf : inputs_wf example_request.
Proof. split_and!; try done; unfold ratio_wf; cbn; try lia; by intros ? [= <-]. Qed.

Lemma compile_correct_witness :
  exists xs, compile example_request = Ok (point_at example_request 30 KBudget <$> xs) /\
    StronglySorted Z.lt xs /\ list.last xs = Some 30 /\
    forall x, x ∈ xs <-> (x = 30 \/ 0 < x < 30 /\ due example_request x).
Proof.
  apply (compile_correct example_request 30 KBudget example_request_wf);
    [left; reflexivity|reflexivity].
Defined.

(** A virtual-time budget stops at the first icount that has spent it:
    among the icounts from the start on, exactly those at or past the final stop
    have reached the start's virtual time plus the budget. *)
Theorem vns_budget_exact i b f k v0 j v :
  inputs_wf i -> final_stop i = VnsBudget b -> resolve_final i = Ok (f, k) ->
  vns_from_icount (clock i) (start_icount i) = Some v0 ->
  start_icount i <= j <= u64_max -> vns_from_icount (clock i) j = Some v ->
  k = KBudget /\ (v0 + b <= v <-> f <= j).
Proof.
  intros (Hs & [Hn Hd] & _ & _ & Hb) Hfs. unfold resolve_final. rewrite Hfs in *. intros Hr Hv0 Hj Hv.
  rewrite Hv0 in Hr. cbn [ok_or mbind outcome_bind] in Hr.
  destruct (checked_add v0 b) as [t|] eqn:Ht; [|done]. apply checked_add_Some in Ht as [-> Ht].
  cbn [ok_or mbind outcome_bind] in Hr.
  destruct (icount_for_vns_target _ _) as [x|] eqn:Hx; [|done]. injection Hr as <- <-.
  split; [done|]. apply try_u64_Some in Hx as [-> _]. apply try_u64_Some in Hv as [-> _].
  apply try_u64_Some in Hv0 as [-> _].
  assert (0 <= start_icount i * clock_num (clock i) / clock_den (clock i)) by (apply Z.div_pos; ulia || nia).
  rewrite le_div_iff by lia. rewrite div_ceil_spec by ulia. lia.
Qed.

Definition example_vns_request : AgendaInputs :=
  mkAgendaInputs 10 [] [] None None (VnsBudget 5) (mkClockRatio 1 3).
Lemma vns_budget_exact_witness : KBudget = KBudget /\ (3 + 5 <= 8 <-> 24 <= 24).
Proof.
  apply (vns_budget_exact example_vns_request 5 24 KBudget 3 24 8);
    try reflexivity; [|vm_compute; intuition discriminate].
  split_and!; try done; unfold ratio_wf; cbn; lia.
Defined.

(** The budget names an icount past u64: the sum does not fit, or the virtual
    time it ends at does not fit or comes after that of every u64 icount. *)
Definition budget_leaves_u64 (i : AgendaInputs) : Prop :=
  let start := start_icount i in
  match final_stop i with
  | IcountBudget b | HardCap b => u64_max < start + b
  | VnsBudget b =>
      let target := start * clock_num (clock i) / clock_den (clock i) + b in
      u64_max < target \/ u64_max * clock_num (clock i) < target * clock_den (clock i)
  end.

Lemma resolve_final_fails i : inputs_wf i -> resolve_final i = Err BudgetOverflow <-> budget_leaves_u64 i.
Proof.
  intros (Hs & [Hn Hd] & _ & _ & Hb). unfold resolve_final, budget_leaves_u64. cbv zeta. destruct (final_stop i) as [b|b|b].
  1,3: unfold checked_add, try_u64; destruct (_ <=? u64_max) eqn:E; cbn; split; try done; lia.
  unfold vns_from_icount, icount_for_vns_target, checked_add, try_u64. set (v := start_icount i * _ / _).
  assert (0 <= v) as Hv by (apply Z.div_pos; ulia || nia).
  destruct (v <=? u64_max) eqn:E1; cbn; [|split; [intros _; left; ulia|done]].
  destruct (v + b <=? u64_max) eqn:E2; cbn; [|split; [intros _; left; ulia|done]].
  pose proof (div_ceil_spec ((v + b) * clock_den (clock i)) (clock_num (clock i)) u64_max ltac:(ulia || nia) ltac:(lia)) as Hc.
  destruct (div_ceil _ _ <=? u64_max) eqn:E3; cbn; split; try done; intros H.
  - apply Z.leb_le in E2, E3. apply Hc in E3. lia.
  - right. apply Z.leb_gt in E3. lia.
Qed.

(** C39: budget arithmetic fails loudly and nothing else does.  A request errs
    exactly when its budget leaves u64: the sum of the start and an instruction
    budget, or the virtual time a time budget ends at, or that no u64 icount
    reaches that time.  A request that does not err panics exactly when it starts
    at u64::MAX with an epoch grid of 1, where the grid's unchecked
    [start / len + 1] overflows; every other request compiles. *)
Theorem compile_failures i :
  inputs_wf i ->
  (compile i = Err BudgetOverflow <-> budget_leaves_u64 i) /\
  (compile i = Panic <-> ~ budget_leaves_u64 i /\ start_icount i = u64_max /\ epoch_len i = Some 1) /\
  ((exists ps, compile i = Ok ps) <-> ~ budget_leaves_u64 i /\ ~ (start_icount i = u64_max /\ epoch_len i = Some 1)).
Proof.
  intros Hwf. rewrite <- (resolve_final_fails i Hwf).
  destruct (resolve_final i) as [[f k]|[]|] eqn:Hr; [| |by apply resolve_final_no_panic in Hr].
  2:{ assert (compile i = Err BudgetOverflow) as -> by (unfold compile, AgendaIter_new; by rewrite Hr). naive_solver. }
  destruct (decide (start_icount i = u64_max /\ epoch_len i = Some 1)) as [[Hs He]|Hne].
  - assert (compile i = Panic) as -> by (unfold compile, AgendaIter_new; by rewrite Hr, He, Hs). naive_solver.
  - destruct (compile_ok i f k Hwf) as (ps & ->); [|done|naive_solver].
    unfold grid_start_ok. destruct Hwf as (Hs & _).
    destruct (decide (start_icount i = u64_max)); [right; naive_solver|left; ulia].
Qed.

(** Each of the three ways. *)
Definition huge_budget : AgendaInputs := mkAgendaInputs 1 [] [] None None (VnsBudget u64_max) ClockRatio_default.
Definition last_icount : AgendaInputs := mkAgendaInputs u64_max [] [] (Some 1) None (IcountBudget 0) ClockRatio_default.
Lemma compile_failures_witness :
  compile huge_budget = Err BudgetOverflow /\ compile last_icount = Panic /\ exists ps, compile example_request = Ok ps.
Proof.
  split; [|split].
  - apply (compile_failures huge_budget); [|vm_compute; left; reflexivity].
    split_and!; try done; unfold ratio_wf; cbn; lia.
  - apply (compile_failures last_icount); [|split; [intros H; vm_compute in H; discriminate H|split; reflexivity]].
    split_and!; try done; unfold ratio_wf; cbn; try lia. intros len [= <-]. by vm_compute.
  - apply (compile_failures example_request example_request_wf). split; [vm_compute; intuition discriminate|].
    intros [H _]. discriminate H.
Defined.
