(* ===== verification/SlotState.v ===== *)
(** * Slot states: [dh-vmm/src/lib.rs]

    The slot state machine, its write-path gate and the KVM capability list. *)

From Stdlib Require Import String.
From S2P Require Import Prelude.

Inductive SlotState := Empty | Running | Paused | Frozen | Faulted.
#[export] Instance SlotState_eq_dec : EqDecision SlotState.
Proof. solve_decision. Defined.

Inductive SlotStateError :=
| InvalidTransition (from to : SlotState)
| FrozenWriteDenied (api : String.string)
| EmptyWriteDenied (api : String.string)
| FaultedWriteDenied (api : String.string).

Definition can_transition (from to : SlotState) : bool :=
  match from, to with
  | Empty, Paused
  | Paused, Running
  | Running, Paused
  | Paused, Frozen
  | Frozen, Paused
  | Paused, Empty
  | Frozen, Empty
  | Running, Faulted
  | Paused, Faulted
  | Faulted, Empty => true
  | _, _ => false
  end.

Definition transition (from to : SlotState) : outcome SlotStateError SlotState :=
  if can_transition from to then Ok to else Err (InvalidTransition from to).

Definition ensure_write_path (s : SlotState) (api : String.string) : outcome SlotStateError unit :=
  match s with
  | Paused | Running => Ok tt
  | Frozen => Err (FrozenWriteDenied api)
  | Empty => Err (EmptyWriteDenied api)
  | Faulted => Err (FaultedWriteDenied api)
  end.

Definition initial_slot_state : SlotState := Empty.

Record KvmCaps := mkKvmCaps {
  user_space_msr : bool; msr_filter : bool; dirty_ring : bool;
  immediate_exit : bool; no_in_kernel_irqchip : bool }.
Definition required_caps_template : KvmCaps := mkKvmCaps true true true true true.
Definition missing_caps (c : KvmCaps) : list String.string :=
  omap (fun p : bool * String.string => if negb p.1 then Some p.2 else None)
    [(user_space_msr c, "KVM_CAP_X86_USER_SPACE_MSR"%string);
     (msr_filter c, "KVM_MSR_EXIT_REASON_FILTER"%string);
     (dirty_ring c, "KVM_CAP_DIRTY_LOG_RING"%string);
     (immediate_exit c, "KVM_CAP_IMMEDIATE_EXIT"%string);
     (no_in_kernel_irqchip c, "no in-kernel irqchip"%string)].

Lemma transition_ok from to s : transition from to = Ok s <-> s = to /\ can_transition from to = true.
Proof. unfold transition. destruct (can_transition from to); naive_solver. Qed.
Lemma transition_no_panic from to : transition from to <> Panic.
Proof. unfold transition. by destruct (can_transition from to). Qed.

(** Runs of the state machine. *)
Inductive reaches : SlotState -> SlotState -> Prop :=
| reaches_refl s : reaches s s
| reaches_step s t u : reaches s t -> can_transition t u = true -> reaches s u.

(** The state machine's shape.  Writes are possible exactly in Paused and
    Running; a slot starts running only from Paused, so a Frozen or Faulted
    slot never runs without first leaving that state through Paused or Empty;
    a Faulted slot has no exit but Empty, every state is reachable from the
    initial one and every slot can be returned to Empty. *)
Theorem slot_machine_shape :
  (forall s api, ensure_write_path s api = Ok tt <-> s = Paused \/ s = Running) /\
  (forall s, can_transition s Running = true -> s = Paused) /\
  (forall s, can_transition Faulted s = true -> s = Empty) /\
  (forall s, can_transition s s = false) /\
  (forall s, reaches initial_slot_state s /\ reaches s Empty) /\
  (forall c, missing_caps c = [] <-> c = required_caps_template).
Proof.
  split_and!.
  - intros [] api; cbn; naive_solver.
  - by intros [].
  - by intros [].
  - by intros [].
  - unfold initial_slot_state.
    assert (forall s t, can_transition s t = true -> reaches s t) as H1
      by (intros s t; apply reaches_step, reaches_refl).
    assert (reaches Empty Paused) as HP by by apply H1.
    assert (reaches Empty Running) as HR by by apply (reaches_step _ Paused).
    assert (reaches Empty Frozen) as HF by by apply (reaches_step _ Paused).
    assert (reaches Empty Faulted) as HX by by apply (reaches_step _ Paused).
    intros s. split; [by destruct s; [apply reaches_refl|..]|].
    destruct s; [apply reaches_refl| |by apply H1..].
    apply (reaches_step _ Paused); [by apply H1|done].
  - intros [[] [] [] [] []]; cbn; naive_solver.
Qed.
