(* ===== verification/SlotManager.v ===== *)
(** * The slot table: [dh-worker/src/slot_manager.rs]

    Leases, fork accounting, destruction and the expiry sweep, over the table
    the source keeps behind one mutex: each operation is one atomic step of the
    table, and returns the transition events it publishes.  The token source is
    a parameter: [token_source k] is the result of its [k]-th call. *)

From Stdlib Require Import String.
From S2P Require Import Prelude SlotState.

Record Lease := mkLease { slot_id : nat; token : bytes }.

Record SlotInfo := mkSlotInfo {
  si_slot_id : nat; si_state : SlotState; si_icount : Z;
  si_base_snapshot_id : option bytes; si_live_children : Z }.

Inductive SlotError :=
| NoSuchSlot (slot : nat)
| State (e : SlotStateError)
| StaleLease (slot : nat)
| LeaseExpired (slot : nat)
| LiveChildren (slot : nat) (children : Z)
| CowChildCannotFork (slot : nat)
| ZeroChildFork (slot : nat)
| NoFreeSlot
| NotEnoughCores (slots cores : nat)
| DuplicateCore (core : Z).

Record SlotEntry := mkSlotEntry {
  state : SlotState;
  lease : option (bytes * option Z);
  live_children : Z;
  parent : option nat;
  ram_is_cow : bool;
  icount : Z;
  base_snapshot_id : option bytes;
}.

Definition SlotEntry_empty : SlotEntry := mkSlotEntry Empty None 0 None false 0 None.

(** Field stores. *)
Definition with_state (s : SlotState) (e : SlotEntry) : SlotEntry :=
  mkSlotEntry s (lease e) (live_children e) (parent e) (ram_is_cow e) (icount e) (base_snapshot_id e).
Definition with_lease (l : option (bytes * option Z)) (e : SlotEntry) : SlotEntry :=
  mkSlotEntry (state e) l (live_children e) (parent e) (ram_is_cow e) (icount e) (base_snapshot_id e).
Definition with_children (n : Z) (e : SlotEntry) : SlotEntry :=
  mkSlotEntry (state e) (lease e) n (parent e) (ram_is_cow e) (icount e) (base_snapshot_id e).
Definition with_parent (p : option nat) (e : SlotEntry) : SlotEntry :=
  mkSlotEntry (state e) (lease e) (live_children e) p (ram_is_cow e) (icount e) (base_snapshot_id e).
Definition with_cow (c : bool) (e : SlotEntry) : SlotEntry :=
  mkSlotEntry (state e) (lease e) (live_children e) (parent e) c (icount e) (base_snapshot_id e).
Definition with_position (i : Z) (b : option bytes) (e : SlotEntry) : SlotEntry :=
  mkSlotEntry (state e) (lease e) (live_children e) (parent e) (ram_is_cow e) i b.

(** The manager: table, core map, lease policy, number of tokens minted. *)
Record SlotManager := mkSlotManager {
  slots : list SlotEntry; cores : list Z; ttl_ms : option Z; minted : nat }.
Definition with_slots (t : list SlotEntry) (m : SlotManager) : SlotManager :=
  mkSlotManager t (cores m) (ttl_ms m) (minted m).

(** An operation: its outcome, the manager after it, the events it publishes. *)
Definition op (A : Type) : Type := SlotManager -> outcome SlotError A * SlotManager * list SlotInfo.

Definition default_slot_count (physical_cores : nat) : nat := Nat.max (physical_cores - 2) 1.

(** [HashSet::insert] over the core map: the first repeated core. *)
Fixpoint first_duplicate (seen : list Z) (l : list Z) : option Z :=
  match l with
  | [] => None
  | c :: l => if bool_decide (c ∈ seen) then Some c else first_duplicate (c :: seen) l
  end.

Definition with_token_source (n_slots : nat) (cs : list Z) (policy : option Z)
    : outcome SlotError SlotManager :=
  match first_duplicate [] cs with
  | Some c => Err (DuplicateCore c)
  | None =>
      if (length cs <? n_slots)%nat then Err (NotEnoughCores n_slots (length cs))
      else Ok (mkSlotManager (replicate n_slots SlotEntry_empty) cs policy 0)
  end.

Definition core_for (m : SlotManager) (slot : nat) : option Z := cores m !! slot.

Definition info_of (e : SlotEntry) (slot : nat) : SlotInfo :=
  mkSlotInfo slot (state e) (icount e) (base_snapshot_id e) (live_children e).

Definition validate_entry (e : SlotEntry) (l : Lease) (now_ms : Z) : outcome SlotError unit :=
  match lease e with
  | Some (tok, expires) =>
      if bool_decide (tok = token l) then
        match expires with
        | Some at_ => if at_ <=? now_ms then Err (LeaseExpired (slot_id l)) else Ok tt
        | None => Ok tt
        end
      else Err (StaleLease (slot_id l))
  | None => Err (StaleLease (slot_id l))
  end.

(** [?] on a [SlotStateError] through the [From] impl. *)
Definition lift_state {A} (o : outcome SlotStateError A) : outcome SlotError A :=
  match o with Ok a => Ok a | Err e => Err (State e) | Panic => Panic end.

Definition get_entry (m : SlotManager) (slot : nat) : outcome SlotError SlotEntry :=
  ok_or (NoSuchSlot slot) (slots m !! slot).

Definition validate (m : SlotManager) (l : Lease) (now_ms : Z) : outcome SlotError unit :=
  e ← get_entry m (slot_id l); validate_entry e l now_ms.

Definition checkout_write (m : SlotManager) (l : Lease) (api : String.string) (now_ms : Z)
    : outcome SlotError unit :=
  e ← get_entry m (slot_id l);
  _ ← validate_entry e l now_ms;
  lift_state (ensure_write_path (state e) api).

(** Operations that update the one entry a lease names: the checks give the
    new entry, which is stored; [publish] says whether an event is sent. *)
Definition on_entry (slot : nat) (publish : bool) (f : SlotEntry -> outcome SlotError SlotEntry)
    : op unit := fun m =>
  match get_entry m slot with
  | Ok e =>
      match f e with
      | Ok e' => (Ok tt, with_slots (<[slot := e']> (slots m)) m,
                  if publish then [info_of e' slot] else [])
      | Err err => (Err err, m, [])
      | Panic => (Panic, m, [])
      end
  | Err err => (Err err, m, [])
  | Panic => (Panic, m, [])
  end.

Definition renew (l : Lease) (now_ms : Z) : op unit := fun m =>
  on_entry (slot_id l) false (fun e =>
    _ ← validate_entry e l now_ms;
    match ttl_ms m, lease e with
    | Some ttl, Some (tok, _) => Ok (with_lease (Some (tok, Some (saturating_add now_ms ttl))) e)
    | _, _ => Ok e
    end) m.

Definition mark_running (l : Lease) (now_ms : Z) : op unit :=
  on_entry (slot_id l) true (fun e =>
    _ ← validate_entry e l now_ms;
    _ ← lift_state (ensure_write_path (state e) "Run"%string);
    s ← lift_state (transition (state e) Running);
    Ok (with_state s e)).

Definition mark_paused (l : Lease) (now_ms : Z) : op unit :=
  on_entry (slot_id l) true (fun e =>
    _ ← validate_entry e l now_ms;
    s ← lift_state (transition (state e) Paused);
    Ok (with_state s e)).

(** The position is stored before the transition is checked, so a refused
    transition leaves the new position behind. *)
Definition mark_paused_at_position (l : Lease) (ic : Z) (base : option bytes) (now_ms : Z) : op unit :=
  fun m =>
  match get_entry m (slot_id l) with
  | Ok e =>
      match validate_entry e l now_ms with
      | Ok _ =>
          let e1 := with_position ic base e in
          let m1 := with_slots (<[slot_id l := e1]> (slots m)) m in
          match lift_state (transition (state e1) Paused) with
          | Ok s =>
              let e2 := with_state s e1 in
              (Ok tt, with_slots (<[slot_id l := e2]> (slots m1)) m1, [info_of e2 (slot_id l)])
          | Err err => (Err err, m1, [])
          | Panic => (Panic, m1, [])
          end
      | Err err => (Err err, m, [])
      | Panic => (Panic, m, [])
      end
  | Err err => (Err err, m, [])
  | Panic => (Panic, m, [])
  end.

Definition set_position (l : Lease) (ic : Z) (base : option bytes) (now_ms : Z) : op unit :=
  on_entry (slot_id l) false (fun e =>
    _ ← validate_entry e l now_ms; Ok (with_position ic base e)).

Definition mark_faulted (slot : nat) : op unit :=
  on_entry slot true (fun e =>
    s ← lift_state (transition (state e) Faulted); Ok (with_state s e)).

Definition check_destroy_entry (e : SlotEntry) (l : Lease) (now_ms : Z) : outcome SlotError unit :=
  _ ← validate_entry e l now_ms;
  if 0 <? live_children e then Err (LiveChildren (slot_id l) (live_children e))
  else _ ← lift_state (transition (state e) Empty); Ok tt.

Definition check_destroy (m : SlotManager) (l : Lease) (now_ms : Z) : outcome SlotError unit :=
  e ← get_entry m (slot_id l); check_destroy_entry e l now_ms.

(** [release]: reset the entry; the last child's release thaws the parent. *)
Definition release (t : list SlotEntry) (idx : nat) : list SlotEntry * list SlotInfo :=
  let par := e ← t !! idx; parent e in
  let t1 := <[idx := SlotEntry_empty]> t in
  let ev := [info_of SlotEntry_empty idx] in
  match par with
  | Some pid =>
      match t1 !! pid with
      | Some p =>
          let p1 := with_children (saturating_sub (live_children p) 1) p in
          if (live_children p1 =? 0) && bool_decide (state p1 = Frozen) then
            let p2 := with_state Paused p1 in
            (<[pid := p2]> t1, ev ++ [info_of p2 pid])
          else (<[pid := p1]> t1, ev)
      | None => (t1, ev)
      end
  | None => (t1, ev)
  end.

Definition destroy (l : Lease) (now_ms : Z) : op unit := fun m =>
  match check_destroy m l now_ms with
  | Ok _ => let r := release (slots m) (slot_id l) in (Ok tt, with_slots r.1 m, r.2)
  | Err err => (Err err, m, [])
  | Panic => (Panic, m, [])
  end.

(** One child of a force-destroyed parent: fault it where the edge is legal,
    unlink it either way. *)
Definition orphan (slot : nat) (acc : list SlotEntry * list SlotInfo) (i : nat)
    : list SlotEntry * list SlotInfo :=
  match acc.1 !! i with
  | Some e =>
      if bool_decide (parent e = Some slot) && negb (bool_decide (state e = Empty)) then
        if can_transition (state e) Faulted then
          let e1 := with_state Faulted e in
          (<[i := with_parent None e1]> acc.1, acc.2 ++ [info_of e1 i])
        else (<[i := with_parent None e]> acc.1, acc.2)
      else acc
  | None => acc
  end.

Definition force_destroy (slot : nat) : op unit := fun m =>
  match get_entry m slot with
  | Ok e =>
      match lift_state (transition (state e) Empty) with
      | Ok _ =>
          let a := if 0 <? live_children e
                   then foldl (orphan slot) (slots m, []) (seq 0 (length (slots m)))
                   else (slots m, []) in
          let r := release a.1 slot in
          (Ok tt, with_slots r.1 m, a.2 ++ r.2)
      | Err err => (Err err, m, [])
      | Panic => (Panic, m, [])
      end
  | Err err => (Err err, m, [])
  | Panic => (Panic, m, [])
  end.

(** The expiry sweep: one pass over the states seen at its start. *)
Definition lease_expired (e : SlotEntry) (now_ms : Z) : bool :=
  match lease e with Some (_, Some at_) => at_ <=? now_ms | _ => false end.

Definition sweep_step (sweep : list (bool * SlotState))
    (acc : list SlotEntry * list nat * list SlotInfo) (idx : nat)
    : list SlotEntry * list nat * list SlotInfo :=
  let '(t, reclaimed, events) := acc in
  match sweep !! idx, t !! idx with
  | Some (expired, state_at_sweep_start), Some e =>
      if negb expired then acc else
      match state_at_sweep_start with
      | Paused | Faulted =>
          if live_children e =? 0 then
            let r := release t idx in (r.1, reclaimed ++ [idx], events ++ r.2)
          else acc
      | Running =>
          let e1 := with_state Faulted e in
          (<[idx := e1]> t, reclaimed, events ++ [info_of e1 idx])
      | _ => acc
      end
  | _, _ => acc
  end.

Definition reclaim_expired (now_ms : Z) : op (list nat) := fun m =>
  let sweep := map (fun e => (lease_expired e now_ms, state e)) (slots m) in
  let '(t, reclaimed, events) :=
    foldl (sweep_step sweep) (slots m, [], []) (seq 0 (length (slots m))) in
  (Ok reclaimed, with_slots t m, events).

Definition slot_info (m : SlotManager) (slot : nat) : outcome SlotError SlotInfo :=
  e ← get_entry m slot; Ok (info_of e slot).
Definition list_slots (m : SlotManager) : list SlotInfo :=
  imap (fun i e => info_of e i) (slots m).

(** The indices of the Empty slots, in table order. *)
Definition is_empty_at (t : list SlotEntry) (i : nat) : bool :=
  match t !! i with Some e => bool_decide (state e = Empty) | None => false end.
Definition empty_slots (t : list SlotEntry) : list nat :=
  List.filter (is_empty_at t) (seq 0 (length t)).

Definition check_fork_entries (t : list SlotEntry) (l : Lease) (children : nat) (now_ms : Z)
    : outcome SlotError (nat * SlotState * list nat) :=
  e ← ok_or (NoSuchSlot (slot_id l)) (t !! slot_id l);
  _ ← validate_entry e l now_ms;
  if (children =? 0)%nat then Err (ZeroChildFork (slot_id l))
  else if ram_is_cow e then Err (CowChildCannotFork (slot_id l))
  else
    frozen ← lift_state (transition (state e) Frozen);
    let free := take children (empty_slots t) in
    if (length free <? children)%nat then Err NoFreeSlot else Ok (slot_id l, frozen, free).

Definition check_fork (m : SlotManager) (l : Lease) (children : nat) (now_ms : Z)
    : outcome SlotError unit :=
  _ ← check_fork_entries (slots m) l children now_ms; Ok tt.

Section Minting.
Context (token_source : nat -> bytes).

Definition mint (m : SlotManager) (now_ms : Z) : (bytes * option Z) * SlotManager :=
  ((token_source (minted m), (fun ttl => saturating_add now_ms ttl) <$> ttl_ms m),
   mkSlotManager (slots m) (cores m) (ttl_ms m) (S (minted m))).

(** [lease_into]: a fresh token stored in the entry. *)
Definition lease_into (e : SlotEntry) (slot : nat) (now_ms : Z) (m : SlotManager)
    : SlotEntry * Lease * SlotManager :=
  let '(t, m1) := mint m now_ms in
  (with_lease (Some t) e, mkLease slot t.1, m1).

Definition allocate (now_ms : Z) : op Lease := fun m =>
  match empty_slots (slots m) with
  | [] => (Err NoFreeSlot, m, [])
  | idx :: _ =>
      match slots m !! idx with
      | None => (Panic, m, [])
      | Some e =>
          match lift_state (transition (state e) Paused) with
          | Ok s =>
              let '(e2, lse, m1) := lease_into (with_state s e) idx now_ms m in
              (Ok lse, with_slots (<[idx := e2]> (slots m1)) m1, [info_of e2 idx])
          | Err err => (Err err, m, [])
          | Panic => (Panic, m, [])
          end
      end
  end.

(** The fork loop over the claimed slots. *)
Fixpoint fork_children (parent_id : nat) (ic : Z) (base : option bytes) (now_ms : Z)
    (free : list nat) (m : SlotManager) : outcome SlotError (list Lease) * SlotManager * list SlotInfo :=
  match free with
  | [] => (Ok [], m, [])
  | idx :: rest =>
      match slots m !! idx with
      | None => (Panic, m, [])
      | Some e =>
          match transition (state e) Paused with
          | Ok s =>
              let e1 := with_position ic base (with_cow true (with_parent (Some parent_id) (with_state s e))) in
              let '(e2, lse, m1) := lease_into e1 idx now_ms m in
              let m2 := with_slots (<[idx := e2]> (slots m1)) m1 in
              let '(r, m3, ev) := fork_children parent_id ic base now_ms rest m2 in
              ((ls ← r; Ok (lse :: ls)), m3, info_of e2 idx :: ev)
          | _ => (Panic, m, [])
          end
      end
  end.

Definition saturating_add_u32 (a b : Z) : Z := Z.min (a + b) u32_max.

Definition fork (l : Lease) (children : nat) (now_ms : Z) : op (list Lease) := fun m =>
  match check_fork_entries (slots m) l children now_ms with
  | Ok (parent_idx, frozen, free) =>
      match slots m !! parent_idx with
      | None => (Panic, m, [])
      | Some p =>
          let m1 := with_slots (<[parent_idx := with_state frozen p]> (slots m)) m in
          let '(r, m2, ev) := fork_children (slot_id l) (icount p) (base_snapshot_id p) now_ms free m1 in
          match r with
          | Ok ls =>
              match slots m2 !! parent_idx, try_u32 (Z.of_nat children) with
              | Some p2, Some n =>
                  let p3 := with_children (saturating_add_u32 (live_children p2) n) p2 in
                  (Ok ls, with_slots (<[parent_idx := p3]> (slots m2)) m2,
                   ev ++ [info_of p3 (slot_id l)])
              | _, _ => (Panic, m2, [])
              end
          | Err err => (Err err, m2, [])
          | Panic => (Panic, m2, [])
          end
      end
  | Err err => (Err err, m, [])
  | Panic => (Panic, m, [])
  end.
End Minting.

(** ** The calls the daemon makes on the table *)
Inductive call :=
| CAllocate
| CFork (l : Lease) (children : nat)
| CRenew (l : Lease)
| CRunning (l : Lease)
| CPaused (l : Lease)
| CPausedAt (l : Lease) (ic : Z) (base : option bytes)
| CSetPosition (l : Lease) (ic : Z) (base : option bytes)
| CFaulted (slot : nat)
| CDestroy (l : Lease)
| CForceDestroy (slot : nat)
| CReclaim.

(** Forget the result, keep how the call ended. *)
Definition ended {A} (r : outcome SlotError A * SlotManager * list SlotInfo)
    : outcome SlotError unit * SlotManager * list SlotInfo :=
  (match r.1.1 with Ok _ => Ok tt | Err e => Err e | Panic => Panic end, r.1.2, r.2).

Definition run_call (token_source : nat -> bytes) (c : call) (now_ms : Z) : op unit := fun m =>
  match c with
  | CAllocate => ended (allocate token_source now_ms m)
  | CFork l n => ended (fork token_source l n now_ms m)
  | CRenew l => renew l now_ms m
  | CRunning l => mark_running l now_ms m
  | CPaused l => mark_paused l now_ms m
  | CPausedAt l ic b => mark_paused_at_position l ic b now_ms m
  | CSetPosition l ic b => set_position l ic b now_ms m
  | CFaulted i => mark_faulted i m
  | CDestroy l => destroy l now_ms m
  | CForceDestroy i => force_destroy i m
  | CReclaim => ended (reclaim_expired now_ms m)
  end.
