(* ===== verification/SlotInvariants.v ===== *)
(** * Invariants and behaviour of the slot table

    The fork accounting of [SlotManager], which every operation keeps; the
    freeze discipline, which holds as long as a pause is only reported for a
    slot that runs; the event stream, the fork and the expiry sweep. *)

From S2P Require Import Prelude SlotState SlotManager.

(** ** The invariant *)

Definition b2z (b : bool) : Z := if b then 1 else 0.
Definition child_of (i : nat) (e : SlotEntry) : bool := bool_decide (parent e = Some i).
(** The number of entries whose parent link is [i]. *)
Fixpoint children (t : list SlotEntry) (i : nat) : Z :=
  match t with [] => 0 | e :: t => b2z (child_of i e) + children t i end.

Record entry_ok (t : list SlotEntry) (e : SlotEntry) : Prop := {
  ok_empty : state e = Empty -> e = SlotEntry_empty;
  ok_frozen : state e = Frozen -> 0 < live_children e;
  ok_parent : forall p, parent e = Some p ->
    ram_is_cow e = true /\ exists pe, t !! p = Some pe /\ ram_is_cow pe = false }.

(** The accounting, with the child count of at most one slot left out. *)
Definition acct_but (k : option nat) (t : list SlotEntry) : Prop :=
  Z.of_nat (length t) <= u32_max /\
  forall i e, t !! i = Some e ->
    entry_ok t e /\ (k <> Some i -> live_children e = children t i).
Definition accounted (t : list SlotEntry) : Prop := acct_but None t.
Definition freeze_ok (t : list SlotEntry) : Prop :=
  forall i e, t !! i = Some e -> 0 < live_children e -> state e = Frozen.

(** The discipline: a pause is reported only for a slot that is not Frozen. *)
Definition pause_ok (c : call) (m : SlotManager) : Prop :=
  match c with
  | CPaused l | CPausedAt l _ _ =>
      forall e, slots m !! slot_id l = Some e -> state e <> Frozen
  | _ => True
  end.

(** ** Counting children *)

Lemma children_insert t k e e' i :
  t !! k = Some e ->
  children (<[k := e']> t) i = children t i - b2z (child_of i e) + b2z (child_of i e').
Proof.
  revert k. induction t as [|a t IH]; intros [|k] H; simplify_eq/=; [lia|].
  rewrite IH by done. lia.
Qed.
Lemma children_insert_same t k e e' i :
  t !! k = Some e -> parent e' = parent e -> children (<[k := e']> t) i = children t i.
Proof. intros H Hp. rewrite (children_insert _ _ e) by done. unfold child_of. rewrite Hp. lia. Qed.
Lemma children_nonneg t i : 0 <= children t i.
Proof. induction t; cbn; unfold b2z; [done|]. case_match; lia. Qed.
Lemma children_le t i : children t i <= Z.of_nat (length t).
Proof. induction t; cbn; unfold b2z; [done|]. case_match; lia. Qed.
Lemma children_pos t i j e : t !! j = Some e -> parent e = Some i -> 0 < children t i.
Proof.
  revert j. induction t as [|a t IH]; intros [|j] H Hp; simplify_eq/=; unfold b2z.
  - unfold child_of. rewrite bool_decide_true by done. pose proof (children_nonneg t i). lia.
  - pose proof (IH _ H Hp). case_match; lia.
Qed.
Lemma children_zero t i : (forall e, e ∈ t -> parent e <> Some i) -> children t i = 0.
Proof.
  induction t as [|a t IH]; intros H; cbn; [done|].
  unfold child_of. rewrite bool_decide_false by (apply H; left). rewrite IH; [done|].
  intros e He. apply H. by right.
Qed.

(** ** Updates that keep the links *)

Definition same_links (e e' : SlotEntry) : Prop :=
  parent e' = parent e /\ ram_is_cow e' = ram_is_cow e /\ live_children e' = live_children e.

Lemma entry_ok_insert t k e e' f :
  t !! k = Some e -> ram_is_cow e' = ram_is_cow e -> entry_ok t f -> entry_ok (<[k := e']> t) f.
Proof.
  intros Hk Hc [H1 H2 H3]. split; [done..|]. intros p Hp.
  destruct (H3 p Hp) as [Hcow (pe & Hpe & Hf)]. split; [done|].
  destruct (decide (p = k)) as [->|].
  - exists e'. rewrite list_lookup_insert_eq by (by eapply lookup_lt_Some).
    split; [done|]. congruence.
  - exists pe. by rewrite list_lookup_insert_ne.
Qed.

Lemma accounted_update t k e e' :
  accounted t -> t !! k = Some e -> same_links e e' ->
  state e' <> Empty -> (state e' = Frozen -> 0 < live_children e) ->
  accounted (<[k := e']> t).
Proof.
  intros [Hlen H] Hk (Hp & Hc & Hn) Hne Hfz. split; [by rewrite length_insert|].
  intros i f Hf. rewrite (children_insert_same _ _ e) by done.
  destruct (decide (i = k)) as [->|].
  - rewrite list_lookup_insert_eq in Hf by (by eapply lookup_lt_Some). simplify_eq.
    destruct (H _ _ Hk) as [Hok Hch]. split; [|by rewrite Hn].
    apply (entry_ok_insert _ _ e); [done..|]. destruct Hok as [H1 H2 H3].
    split; [done|by rewrite Hn|]. rewrite Hp, Hc. done.
  - rewrite list_lookup_insert_ne in Hf by done. destruct (H _ _ Hf).
    split; [|done]. by apply (entry_ok_insert _ _ e).
Qed.

Lemma freeze_update t k e e' :
  freeze_ok t -> t !! k = Some e -> (0 < live_children e' -> state e' = Frozen) ->
  freeze_ok (<[k := e']> t).
Proof.
  intros H Hk Hz i f Hf. destruct (decide (i = k)) as [->|].
  - rewrite list_lookup_insert_eq in Hf by (by eapply lookup_lt_Some). by simplify_eq.
  - rewrite list_lookup_insert_ne in Hf by done. by eapply H.
Qed.

(** ** Release *)

(** What releasing a slot with parent link [par] does to entry [j]. *)
Definition unlink (par : option nat) (j : nat) (q : SlotEntry) : SlotEntry :=
  if bool_decide (par = Some j) then
    let p1 := with_children (saturating_sub (live_children q) 1) q in
    if (live_children p1 =? 0) && bool_decide (state p1 = Frozen) then with_state Paused p1 else p1
  else q.

Lemma unlink_parent par j q : parent (unlink par j q) = parent q.
Proof. unfold unlink. by repeat case_match. Qed.
Lemma unlink_cow par j q : ram_is_cow (unlink par j q) = ram_is_cow q.
Proof. unfold unlink. by repeat case_match. Qed.
Lemma unlink_live par j q :
  live_children (unlink par j q) =
  if bool_decide (par = Some j) then saturating_sub (live_children q) 1 else live_children q.
Proof. unfold unlink. by repeat case_match. Qed.
Lemma unlink_state par j q :
  state (unlink par j q) = state q \/
  state q = Frozen /\ state (unlink par j q) = Paused /\ live_children (unlink par j q) = 0.
Proof.
  unfold unlink. destruct (bool_decide (par = Some j)); [|by left].
  destruct (_ =? 0) eqn:E; [|by left].
  cbn [state with_children]. destruct (bool_decide_reflect (state q = Frozen)); [right|by left].
  cbn in *. split_and!; [done..|lia].
Qed.

Section Release.
Context (t : list SlotEntry) (idx : nat) (e : SlotEntry).
Context (He : t !! idx = Some e) (Hself : parent e <> Some idx).

Lemma release_table :
  (release t idx).1 =
  let t1 := <[idx := SlotEntry_empty]> t in
  match parent e with
  | Some pid => match t !! pid with Some q => <[pid := unlink (parent e) pid q]> t1 | None => t1 end
  | None => t1
  end.
Proof.
  unfold release, unlink. rewrite He. cbn [mbind option_bind].
  destruct (parent e) as [pid|] eqn:Hp; [|done]. cbv zeta.
  assert (idx <> pid) by congruence. rewrite list_lookup_insert_ne by done.
  destruct (t !! pid); [|done]. rewrite (bool_decide_true (Some pid = Some pid)) by done.
  by destruct (_ && _).
Qed.

Lemma release_length : length (release t idx).1 = length t.
Proof. rewrite release_table. cbv zeta. repeat case_match; by rewrite ?length_insert. Qed.

Lemma release_lookup j :
  (release t idx).1 !! j =
  if decide (j = idx) then Some SlotEntry_empty else unlink (parent e) j <$> t !! j.
Proof.
  rewrite release_table. cbv zeta. pose proof (lookup_lt_Some _ _ _ He).
  assert (forall par, par <> Some j -> unlink par j <$> t !! j = t !! j) as Hid.
  { intros par Hn. unfold unlink. rewrite bool_decide_false by done. by destruct (t !! j). }
  destruct (parent e) as [pid|] eqn:Hp.
  2:{ destruct (decide (j = idx)) as [->|].
      - by rewrite list_lookup_insert_eq.
      - by rewrite list_lookup_insert_ne, Hid. }
  assert (pid <> idx) by congruence.
  destruct (t !! pid) as [q|] eqn:Hq.
  - destruct (decide (j = pid)) as [->|].
    + rewrite list_lookup_insert_eq by (rewrite length_insert; by eapply lookup_lt_Some).
      by rewrite decide_False, Hq by congruence.
    + rewrite list_lookup_insert_ne by done. destruct (decide (j = idx)) as [->|].
      * by rewrite list_lookup_insert_eq.
      * rewrite list_lookup_insert_ne, Hid by congruence. done.
  - destruct (decide (j = idx)) as [->|]; [by rewrite list_lookup_insert_eq|].
    rewrite list_lookup_insert_ne by done. destruct (decide (j = pid)) as [->|].
    + by rewrite Hq.
    + rewrite Hid by congruence. done.
Qed.

Lemma release_children i : children (release t idx).1 i = children t i - b2z (child_of i e).
Proof.
  rewrite release_table. cbv zeta.
  assert (children (<[idx := SlotEntry_empty]> t) i = children t i - b2z (child_of i e)) as H0.
  { rewrite (children_insert _ _ e) by done. change (child_of i SlotEntry_empty) with false. cbn [b2z]. lia. }
  destruct (parent e) as [pid|] eqn:Hp; [|done]. destruct (t !! pid) as [q|] eqn:Hq; [|done].
  rewrite (children_insert_same _ _ q), H0; [done| |apply unlink_parent].
  rewrite list_lookup_insert_ne by congruence. done.
Qed.

Lemma release_accounted :
  acct_but (Some idx) t -> children t idx = 0 -> accounted (release t idx).1.
Proof.
  intros [Hlen H] Hz. split; [by rewrite release_length|]. intros j f Hf.
  rewrite release_lookup in Hf. rewrite release_children. case_decide as Hj; simplify_eq.
  { split; [split; cbn; naive_solver|]. intros _. unfold child_of.
    rewrite bool_decide_false by done. cbn. lia. }
  destruct (t !! j) as [q|] eqn:Hq; simplify_eq/=.
  destruct (H _ _ Hq) as [[H1 H2 H3] Hlive]. specialize (Hlive ltac:(congruence)).
  assert (parent e = Some j -> 0 < live_children q) as Hpos
    by (intros X; rewrite Hlive; apply (children_pos _ _ _ _ He X)).
  assert (0 <= live_children q) by (rewrite Hlive; apply children_nonneg).
  split.
  - split.
    + intros Hs. destruct (unlink_state (parent e) j q) as [Hu|(_ & Hu & _)]; [|congruence].
      rewrite Hu in Hs. rewrite (H1 Hs) in Hpos. unfold unlink.
      rewrite bool_decide_false; [by apply H1|]. cbn in Hpos. intros X. specialize (Hpos X). lia.
    + intros Hs. rewrite unlink_live. destruct (unlink_state (parent e) j q) as [Hu|(_ & Hu & _)]; [|congruence].
      rewrite Hu in Hs. case_bool_decide as X; [|by apply H2]. revert Hu. unfold unlink.
      rewrite bool_decide_true by done. cbn. rewrite Hs, andb_true_r. unfold saturating_sub.
      destruct (_ =? 0) eqn:E; [done|]. lia.
    + rewrite unlink_parent, unlink_cow. intros p Hp. destruct (H3 _ Hp) as [Hc (pe & Hpe & Hpc)].
      split; [done|]. exists (unlink (parent e) p pe). rewrite unlink_cow. split; [|done].
      rewrite release_lookup, decide_False, Hpe; [done|]. intros ->.
      pose proof (children_pos _ _ _ _ Hq Hp). lia.
  - intros _. rewrite unlink_live, Hlive. unfold child_of.
    case_bool_decide as X; cbn; [|lia]. specialize (Hpos X). unfold saturating_sub. lia.
Qed.

Lemma release_freeze : freeze_ok t -> freeze_ok (release t idx).1.
Proof.
  intros H j f Hf Hpos. rewrite release_lookup in Hf. case_decide; simplify_eq/=.
  destruct (t !! j) as [q|] eqn:Hq; simplify_eq/=.
  assert (0 < live_children q) as Hl.
  { rewrite unlink_live in Hpos. unfold saturating_sub in Hpos. case_bool_decide; lia. }
  destruct (unlink_state (parent e) j q) as [->|(_ & _ & Hz)]; [by eapply H|]. lia.
Qed.
End Release.

Lemma acct_but_weaken k t : accounted t -> acct_but k t.
Proof. intros [Hl H]. split; [done|]. intros i e He. destruct (H i e He). naive_solver. Qed.
(** No entry is its own parent. *)
Lemma no_self_parent k t i e : acct_but k t -> t !! i = Some e -> parent e <> Some i.
Proof. intros [_ H] He Hp. destruct (H _ _ He) as [[_ _ H3] _]. destruct (H3 _ Hp) as [? (pe & ? & ?)]. congruence. Qed.

Lemma release_ok t idx e :
  accounted t -> t !! idx = Some e -> live_children e = 0 ->
  accounted (release t idx).1 /\ (freeze_ok t -> freeze_ok (release t idx).1).
Proof.
  intros H He Hz. pose proof (no_self_parent _ _ _ _ H He).
  split; [|by apply (release_freeze _ _ e)].
  apply (release_accounted _ _ e); [done..|by apply acct_but_weaken|].
  destruct H as [_ H]. destruct (H _ _ He) as [_ Hl]. rewrite <- Hl by done. done.
Qed.

(** ** Observing the table through its events *)

(** An observer's copy of the states, updated by one event. *)
Definition observe (sts : list SlotState) (ev : SlotInfo) : list SlotState :=
  <[si_slot_id ev := si_state ev]> sts.
Definition observed (t : list SlotEntry) (evs : list SlotInfo) (t' : list SlotEntry) : Prop :=
  foldl observe (state <$> t) evs = state <$> t'.

Lemma observed_app t evs1 t1 evs2 t2 :
  observed t evs1 t1 -> observed t1 evs2 t2 -> observed t (evs1 ++ evs2) t2.
Proof. unfold observed. intros H1 H2. by rewrite foldl_app, H1. Qed.
Lemma observed_insert t k e' : observed t [info_of e' k] (<[k := e']> t).
Proof. unfold observed, observe. cbn. by rewrite list_fmap_insert. Qed.
Lemma observed_silent t k e e' : t !! k = Some e -> state e' = state e -> observed t [] (<[k := e']> t).
Proof.
  intros Hk Hs. unfold observed. cbn. rewrite list_fmap_insert, Hs.
  symmetry. apply list_insert_id. by rewrite list_lookup_fmap, Hk.
Qed.

Lemma release_observed t idx : observed t (release t idx).2 (release t idx).1.
Proof.
  unfold release. cbv zeta.
  destruct (t !! idx ≫= parent) as [pid|]; [|apply observed_insert].
  destruct (_ !! pid) as [p|] eqn:Hp; [|apply observed_insert].
  destruct (_ && _); cbn [fst snd].
  - apply (observed_app _ _ (<[idx := SlotEntry_empty]> t)); apply observed_insert.
  - rewrite <- (app_nil_r [info_of SlotEntry_empty idx]).
    apply (observed_app _ _ (<[idx := SlotEntry_empty]> t)); [apply observed_insert|].
    by apply (observed_silent _ _ p).
Qed.

(** What every call promises of the table it leaves. *)
Record keeps (pause : Prop) (t : list SlotEntry) (evs : list SlotInfo) (t' : list SlotEntry) : Prop := {
  keeps_acct : accounted t -> accounted t';
  keeps_freeze : accounted t -> pause -> freeze_ok t -> freeze_ok t';
  keeps_observed : observed t evs t' }.

Lemma keeps_refl P t : keeps P t [] t.
Proof. by split. Qed.

Lemma keeps_weaken (P Q : Prop) t evs t' : keeps Q t evs t' -> (P -> Q) -> keeps P t evs t'.
Proof. intros [A B C] HPQ. split; [done| |done]. intros Ha HP. apply B; [done|by apply HPQ]. Qed.

(** ** Operations on one entry *)

Lemma on_entry_cases slot pub f m r m' ev :
  on_entry slot pub f m = (r, m', ev) ->
  (m' = m /\ ev = [] /\ r <> Ok tt /\
   (r = Panic -> exists e, slots m !! slot = Some e /\ f e = Panic)) \/
  (r = Ok tt /\ exists e e', slots m !! slot = Some e /\ f e = Ok e' /\
   m' = with_slots (<[slot := e']> (slots m)) m /\ ev = if pub then [info_of e' slot] else []).
Proof.
  unfold on_entry, get_entry. destruct (slots m !! slot) as [e|] eqn:He; cbn.
  - destruct (f e) as [e'|err|] eqn:Hf; intros H; simplify_eq.
    + right. split; [done|]. by exists e, e'.
    + left. naive_solver.
    + left. naive_solver.
  - intros H; simplify_eq. left. naive_solver.
Qed.

Lemma on_entry_keeps (P : Prop) slot pub f m r m' ev :
  on_entry slot pub f m = (r, m', ev) ->
  (forall e e', slots m !! slot = Some e -> f e = Ok e' ->
    same_links e e' /\
    (accounted (slots m) -> state e' <> Empty) /\
    (state e' = Frozen -> state e = Frozen) /\
    (P -> state e = Frozen -> state e' = Frozen) /\
    (pub = false -> state e' = state e)) ->
  keeps P (slots m) ev (slots m').
Proof.
  intros Hc H. apply on_entry_cases in Hc as [(-> & -> & _)|(_ & e & e' & He & Hf & -> & ->)];
    [apply keeps_refl|].
  destruct (H _ _ He Hf) as (Hl & Hne & Hfz & Hfz' & Hst). cbn [slots with_slots]. split.
  - intros [Hlen Hacct]. destruct (Hacct _ _ He) as [[_ H2 _] _].
    apply (accounted_update _ _ e); [done..| |].
    + by apply Hne.
    + intros X. by apply H2, Hfz.
  - intros Hacct HP Hfr. apply (freeze_update _ _ e); [done..|].
    destruct Hl as (_ & _ & ->). intros Hpos. apply Hfz'; [done|]. by apply (Hfr _ _ He).
  - destruct pub; [apply observed_insert|]. apply (observed_silent _ _ e); auto.
Qed.

Lemma accounted_leased t i e l now :
  accounted t -> t !! i = Some e -> validate_entry e l now = Ok tt -> state e <> Empty.
Proof.
  intros [_ H] He Hv Hs. destruct (H _ _ He) as [[H1 _ _] _]. rewrite (H1 Hs) in Hv. done.
Qed.

Lemma lift_state_ok {A} (o : outcome SlotStateError A) a : lift_state o = Ok a <-> o = Ok a.
Proof. destruct o; cbn; naive_solver. Qed.

(** Take apart a successful chain of checks. *)
Ltac open_checks :=
  cbv beta in *; repeat match goal with
  | H : (_ ≫= _) = Ok _ |- _ => apply bind_ok in H as (? & ? & H); cbv beta in H
  | H : lift_state _ = Ok _ |- _ => apply lift_state_ok in H
  | H : transition _ _ = Ok _ |- _ => apply transition_ok in H as [-> H]
  | u : unit |- _ => destruct u
  end.

Lemma renew_keeps P l now m r m' ev : renew l now m = (r, m', ev) -> keeps P (slots m) ev (slots m').
Proof.
  intros H. apply (on_entry_keeps P) in H; [done|]. intros e e' He Hf. open_checks.
  assert (state e' = state e /\ same_links e e') as [Hs Hl] by (unfold same_links; repeat case_match; simplify_eq; done).
  rewrite Hs. split_and!; [done| |done..]. intros Ha. by eapply accounted_leased.
Qed.
Lemma set_position_keeps P l ic b now m r m' ev :
  set_position l ic b now m = (r, m', ev) -> keeps P (slots m) ev (slots m').
Proof.
  intros H. apply (on_entry_keeps P) in H; [done|]. intros e e' He Hf. open_checks. simplify_eq.
  split_and!; [done| |done..]. intros Ha. by apply (accounted_leased (slots m) (slot_id l) e l now).
Qed.
Lemma mark_running_keeps P l now m r m' ev :
  mark_running l now m = (r, m', ev) -> keeps P (slots m) ev (slots m').
Proof.
  intros H. apply (on_entry_keeps P) in H; [done|]. intros e e' He Hf. open_checks. simplify_eq.
  split_and!; try done. intros _ Hs. by destruct (state e).
Qed.
Lemma mark_paused_keeps l now m r m' ev :
  mark_paused l now m = (r, m', ev) -> keeps (pause_ok (CPaused l) m) (slots m) ev (slots m').
Proof.
  intros H. eapply on_entry_keeps; [done|]. intros e e' He Hf. open_checks. simplify_eq.
  split_and!; try done. intros HP Hs. by destruct (HP _ He).
Qed.
Lemma mark_faulted_keeps P i m r m' ev :
  mark_faulted i m = (r, m', ev) -> keeps P (slots m) ev (slots m').
Proof.
  intros H. apply (on_entry_keeps P) in H; [done|]. intros e e' He Hf. open_checks. simplify_eq.
  split_and!; try done. intros _ Hs. by destruct (state e).
Qed.

(** A reported pause is a [set_position] followed by a [mark_paused]. *)
Lemma mark_paused_at_position_split l ic b now m :
  mark_paused_at_position l ic b now m =
  match set_position l ic b now m with
  | (Ok _, m1, _) => mark_paused l now m1
  | r => r
  end.
Proof.
  unfold mark_paused_at_position, set_position, mark_paused, on_entry, get_entry.
  destruct (slots m !! slot_id l) as [e|] eqn:He; cbn; [|done].
  destruct (validate_entry e l now) as [[]| |] eqn:Hv; cbn; [|done..].
  rewrite list_lookup_insert_eq by (by eapply lookup_lt_Some). cbn.
  change (validate_entry (with_position ic b e) l now) with (validate_entry e l now). rewrite Hv. cbn.
  by destruct (transition _ _).
Qed.

Lemma keeps_trans (P Q : Prop) t e1 t1 e2 t2 :
  keeps True t e1 t1 -> keeps Q t1 e2 t2 -> (P -> Q) -> keeps P t (e1 ++ e2) t2.
Proof.
  intros [A1 B1 C1] [A2 B2 C2] HPQ. split; [auto| |by eapply observed_app].
  intros Ha HP Hf. apply B2; auto.
Qed.

Lemma mark_paused_at_keeps l ic b now m r m' ev :
  mark_paused_at_position l ic b now m = (r, m', ev) ->
  keeps (pause_ok (CPausedAt l ic b) m) (slots m) ev (slots m').
Proof.
  rewrite mark_paused_at_position_split.
  destruct (set_position l ic b now m) as [[r1 m1] ev1] eqn:H1. intros H.
  pose proof (set_position_keeps True _ _ _ _ _ _ _ _ H1) as K1.
  pose proof H1 as H1'. apply on_entry_cases in H1'.
  destruct r1 as [[]| |]; simplify_eq.
  - destruct H1' as [(_ & _ & [] & _)|(_ & e & e' & He & Hf & -> & ->)]; [done|].
    open_checks. simplify_eq. apply mark_paused_keeps in H.
    eapply (keeps_trans _ _ _ [] _ ev); [exact K1|exact H|].
    intros HP e1 He1. cbn in He1. rewrite list_lookup_insert_eq in He1 by (by eapply lookup_lt_Some).
    simplify_eq. exact (HP _ He).
  - by apply (keeps_weaken _ True).
  - by apply (keeps_weaken _ True).
Qed.

Lemma destroy_keeps P l now m r m' ev :
  destroy l now m = (r, m', ev) -> accounted (slots m) -> keeps P (slots m) ev (slots m').
Proof.
  unfold destroy, check_destroy, get_entry. intros H Ha.
  destruct (slots m !! slot_id l) as [e|] eqn:He; cbn in H; [|simplify_eq; apply keeps_refl].
  destruct (check_destroy_entry e l now) as [[]| |] eqn:Hc; simplify_eq; [|apply keeps_refl..].
  unfold check_destroy_entry in Hc. apply bind_ok in Hc as (_ & _ & Hc).
  destruct (0 <? live_children e) eqn:Hz; [done|].
  assert (live_children e = 0) as Hz0.
  { destruct Ha as [_ Ha]. destruct (Ha _ _ He) as [_ Hl]. specialize (Hl ltac:(done)).
    pose proof (children_nonneg (slots m) (slot_id l)). lia. }
  destruct (release_ok _ _ _ Ha He Hz0) as [K1 K2].
  split; [done|by auto|apply release_observed].
Qed.

(** ** Forced destruction *)

Definition orphan_entry (slot : nat) (e : SlotEntry) : SlotEntry :=
  if bool_decide (parent e = Some slot) && negb (bool_decide (state e = Empty)) then
    with_parent None (if can_transition (state e) Faulted then with_state Faulted e else e)
  else e.

Lemma orphan_lookup slot acc i j :
  (orphan slot acc i).1 !! j = if decide (j = i) then orphan_entry slot <$> acc.1 !! j else acc.1 !! j.
Proof.
  unfold orphan. case_decide as Hj; subst.
  - destruct (acc.1 !! i) as [e|] eqn:He; [|by rewrite He]. unfold orphan_entry. cbn.
    pose proof (lookup_lt_Some _ _ _ He).
    repeat case_match; cbn; by rewrite ?list_lookup_insert_eq.
  - repeat case_match; cbn; by rewrite ?list_lookup_insert_ne.
Qed.

Lemma orphan_observed slot t acc i :
  observed t acc.2 acc.1 -> observed t (orphan slot acc i).2 (orphan slot acc i).1.
Proof.
  intros H. unfold orphan. destruct (acc.1 !! i) as [e|] eqn:He; [|done].
  destruct (_ && _); [|done]. destruct (can_transition _ _); cbn [fst snd].
  - eapply observed_app; [exact H|]. apply (observed_insert _ _ (with_parent None (with_state Faulted e))).
  - rewrite <- (app_nil_r acc.2). eapply observed_app; [exact H|]. by apply (observed_silent _ _ e).
Qed.

Lemma orphans_lookup slot n acc k j :
  (foldl (orphan slot) acc (seq k n)).1 !! j =
  if decide (k <= j < k + n)%nat then orphan_entry slot <$> acc.1 !! j else acc.1 !! j.
Proof.
  revert k acc. induction n as [|n IH]; intros k acc; cbn.
  { by rewrite decide_False by lia. }
  rewrite IH, orphan_lookup. repeat case_decide; done || lia.
Qed.

Lemma orphans_table slot t :
  (foldl (orphan slot) (t, []) (seq 0 (length t))).1 = orphan_entry slot <$> t.
Proof.
  apply list_eq. intros j. rewrite orphans_lookup, list_lookup_fmap. cbn.
  case_decide; [done|]. by rewrite (lookup_ge_None_2 t) by lia.
Qed.

Lemma orphans_observed slot t l acc :
  observed t acc.2 acc.1 ->
  observed t (foldl (orphan slot) acc l).2 (foldl (orphan slot) acc l).1.
Proof. revert acc. induction l; intros acc H; cbn; [done|]. by apply IHl, orphan_observed. Qed.

Lemma orphan_cow slot e : ram_is_cow (orphan_entry slot e) = ram_is_cow e.
Proof. unfold orphan_entry. by repeat case_match. Qed.
Lemma orphan_live slot e : live_children (orphan_entry slot e) = live_children e.
Proof. unfold orphan_entry. by repeat case_match. Qed.
Lemma orphan_state slot e :
  state (orphan_entry slot e) = state e \/
  state (orphan_entry slot e) = Faulted /\ can_transition (state e) Faulted = true.
Proof. unfold orphan_entry. repeat case_match; auto. Qed.
Lemma orphan_parent slot e :
  (state e = Empty -> parent e = None) ->
  parent (orphan_entry slot e) = if decide (parent e = Some slot) then None else parent e.
Proof.
  intros H. unfold orphan_entry. case_decide as Hp.
  - rewrite bool_decide_true by done. case_bool_decide as Hs; [by rewrite H in Hp|].
    done.
  - by rewrite bool_decide_false.
Qed.

Section Orphans.
Context (t : list SlotEntry) (slot : nat) (Ha : accounted t).

Lemma empty_unlinked i e : t !! i = Some e -> state e = Empty -> parent e = None.
Proof. intros He Hs. destruct Ha as [_ H]. destruct (H _ _ He) as [[H1 _ _] _]. by rewrite (H1 Hs). Qed.

Lemma orphans_children_ne i : i <> slot -> children (orphan_entry slot <$> t) i = children t i.
Proof.
  intros Hi. assert (forall i e, t !! i = Some e -> state e = Empty -> parent e = None) as H
    by apply empty_unlinked. clear Ha. revert H. induction t as [|a t' IH]; intros H; cbn; [done|].
  rewrite IH by (intros k e; apply (H (S k))). f_equal. f_equal. unfold child_of.
  rewrite orphan_parent by (by apply (H 0%nat)). apply bool_decide_ext. case_decide; naive_solver.
Qed.
Lemma orphans_children_slot : children (orphan_entry slot <$> t) slot = 0.
Proof.
  apply children_zero. intros e' He'. apply list_elem_of_fmap in He' as (e & -> & He).
  apply list_elem_of_lookup in He as [i He]. rewrite orphan_parent by by apply (empty_unlinked i).
  by case_decide.
Qed.

Lemma orphans_accounted : acct_but (Some slot) (orphan_entry slot <$> t).
Proof.
  pose proof Ha as [Hlen H]. split; [by rewrite length_fmap|]. intros i e' He'.
  rewrite list_lookup_fmap in He'. destruct (t !! i) as [e|] eqn:He; simplify_eq/=.
  destruct (H _ _ He) as [[H1 H2 H3] Hl]. specialize (Hl ltac:(done)). split.
  - split.
    + intros Hs. destruct (orphan_state slot e) as [Hu|[Hu _]]; [|congruence]. rewrite Hu in Hs.
      unfold orphan_entry. rewrite (bool_decide_true (state e = Empty)) by done.
      rewrite andb_false_r. by apply H1.
    + intros Hs. rewrite orphan_live. destruct (orphan_state slot e) as [Hu|[Hu _]]; [|congruence].
      apply H2. congruence.
    + intros p. rewrite orphan_cow, orphan_parent by by apply (empty_unlinked i).
      case_decide; [done|]. intros Hp. destruct (H3 _ Hp) as [Hc (pe & Hpe & Hpc)].
      split; [done|]. exists (orphan_entry slot pe). by rewrite list_lookup_fmap, Hpe, orphan_cow.
  - intros Hi. rewrite orphan_live, Hl, orphans_children_ne by congruence. done.
Qed.

Lemma orphans_freeze : freeze_ok t -> freeze_ok (orphan_entry slot <$> t).
Proof.
  intros Hf i e' He'. rewrite list_lookup_fmap in He'. destruct (t !! i) as [e|] eqn:He; simplify_eq/=.
  rewrite orphan_live. intros Hpos. pose proof (Hf _ _ He Hpos) as Hs.
  destruct (orphan_state slot e) as [->|[_ Hc]]; [done|]. by rewrite Hs in Hc.
Qed.
End Orphans.

Lemma force_destroy_keeps P i m r m' ev :
  force_destroy i m = (r, m', ev) -> accounted (slots m) -> keeps P (slots m) ev (slots m').
Proof.
  unfold force_destroy, get_entry. intros H Ha.
  destruct (slots m !! i) as [e|] eqn:He; cbn in H; [|simplify_eq; apply keeps_refl].
  destruct (lift_state _); simplify_eq; [|apply keeps_refl..].
  destruct (0 <? live_children e) eqn:Hz; simplify_eq; cbn [slots with_slots fst snd].
  - rewrite orphans_table. set (g := orphan_entry i).
    assert ((g <$> slots m) !! i = Some (g e)) as Hg by by rewrite list_lookup_fmap, He.
    pose proof (orphans_accounted _ i Ha) as Hb.
    pose proof (no_self_parent _ _ _ _ Hb Hg) as Hself. split.
    + intros _. apply (release_accounted _ _ (g e)); [done..|]. by apply orphans_children_slot.
    + intros _ _ Hf. apply (release_freeze _ _ (g e)); [done..|]. by apply orphans_freeze.
    + eapply observed_app; [|apply release_observed].
      rewrite <- (orphans_table i). by apply orphans_observed.
  - pose proof Ha as [_ Hl]. destruct (Hl _ _ He) as [_ Hch]. specialize (Hch ltac:(done)).
    pose proof (children_nonneg (slots m) i).
    destruct (release_ok _ _ _ Ha He ltac:(lia)) as [K1 K2].
    split; [done|by auto|apply release_observed].
Qed.

(** ** Claiming Empty slots *)

Lemma elem_of_empty_slots t i : i ∈ empty_slots t <-> exists e, t !! i = Some e /\ state e = Empty.
Proof.
  unfold empty_slots. rewrite elem_of_bfilter, elem_of_seq.
  unfold is_empty_at. split.
  - intros [_ H]. destruct (t !! i) as [e|]; [|done]. exists e. split; [done|].
    by apply bool_decide_eq_true in H.
  - intros (e & He & Hs). rewrite He. pose proof (lookup_lt_Some _ _ _ He).
    split; [lia|]. by apply bool_decide_eq_true.
Qed.
Lemma NoDup_empty_slots t : NoDup (empty_slots t).
Proof. unfold empty_slots. apply NoDup_ListNoDup, List.NoDup_filter, NoDup_ListNoDup, NoDup_seq. Qed.
Lemma empty_slots_entry t i : accounted t -> i ∈ empty_slots t -> t !! i = Some SlotEntry_empty.
Proof.
  intros [_ H] (e & He & Hs)%elem_of_empty_slots. destruct (H _ _ He) as [[H1 _ _] _]. by rewrite <- (H1 Hs).
Qed.

Section Claims.
Context (token_source : nat -> bytes).

Definition expiry (m : SlotManager) (now : Z) : option Z := saturating_add now <$> ttl_ms m.

Lemma allocate_eq now m r m' ev :
  allocate token_source now m = (r, m', ev) -> accounted (slots m) ->
  (r = Err NoFreeSlot /\ m' = m /\ ev = [] /\ empty_slots (slots m) = []) \/
  exists i, head (empty_slots (slots m)) = Some i /\ slots m !! i = Some SlotEntry_empty /\
    let e := mkSlotEntry Paused (Some (token_source (minted m), expiry m now)) 0 None false 0 None in
    r = Ok (mkLease i (token_source (minted m))) /\
    m' = mkSlotManager (<[i := e]> (slots m)) (cores m) (ttl_ms m) (S (minted m)) /\
    ev = [info_of e i].
Proof.
  unfold allocate. intros H Ha. destruct (empty_slots (slots m)) as [|i rest] eqn:He; [naive_solver|].
  right. exists i. assert (slots m !! i = Some SlotEntry_empty) as Hi.
  { apply empty_slots_entry; [done|]. rewrite He. left. }
  rewrite Hi in H. cbn in H. naive_solver.
Qed.

Lemma allocate_keeps P now m r m' ev :
  allocate token_source now m = (r, m', ev) -> accounted (slots m) -> keeps P (slots m) ev (slots m').
Proof.
  intros H Ha. apply allocate_eq in H as [(-> & -> & -> & _)|(i & _ & Hi & -> & -> & ->)];
    [apply keeps_refl| |done].
  split; cbn [slots].
  - intros _. by apply (accounted_update _ _ SlotEntry_empty).
  - intros _ _ Hf. by apply (freeze_update _ _ SlotEntry_empty).
  - apply observed_insert.
Qed.

(** The entry a fork gives its child, with the [k]-th token. *)
Definition child_entry (p : nat) (ic : Z) (base : option bytes) (exp : option Z) (k : nat) : SlotEntry :=
  mkSlotEntry Paused (Some (token_source k, exp)) 0 (Some p) true ic base.
Fixpoint fork_table (p : nat) (ic : Z) (base : option bytes) (exp : option Z) (k : nat)
    (free : list nat) (t : list SlotEntry) : list SlotEntry :=
  match free with
  | [] => t
  | i :: free => fork_table p ic base exp (S k) free (<[i := child_entry p ic base exp k]> t)
  end.
Fixpoint fork_leases (k : nat) (free : list nat) : list Lease :=
  match free with [] => [] | i :: free => mkLease i (token_source k) :: fork_leases (S k) free end.
Fixpoint fork_events (p : nat) (ic : Z) (base : option bytes) (exp : option Z) (k : nat)
    (free : list nat) : list SlotInfo :=
  match free with
  | [] => []
  | i :: free => info_of (child_entry p ic base exp k) i :: fork_events p ic base exp (S k) free
  end.

Lemma fork_children_eq p ic base now free m :
  NoDup free -> (forall i, i ∈ free -> slots m !! i = Some SlotEntry_empty) ->
  fork_children token_source p ic base now free m =
  (Ok (fork_leases (minted m) free),
   mkSlotManager (fork_table p ic base (expiry m now) (minted m) free (slots m))
     (cores m) (ttl_ms m) (minted m + length free),
   fork_events p ic base (expiry m now) (minted m) free).
Proof.
  revert m. induction free as [|i free IH]; intros m Hnd Hfree; cbn.
  { rewrite Nat.add_0_r. by destruct m. }
  apply NoDup_cons in Hnd as [Hi Hnd]. rewrite (Hfree i) by left. cbn.
  rewrite IH; [|done|].
  - cbn. by rewrite Nat.add_succ_r.
  - intros j Hj. cbn. rewrite list_lookup_insert_ne by (by intros ->). apply Hfree. by right.
Qed.

Lemma fork_table_length p ic base exp k free t : length (fork_table p ic base exp k free t) = length t.
Proof. revert k t. induction free; intros k t; cbn; [done|]. by rewrite IHfree, length_insert. Qed.
Lemma fork_table_other p ic base exp k free t j :
  j ∉ free -> fork_table p ic base exp k free t !! j = t !! j.
Proof.
  revert k t. induction free as [|i free IH]; intros k t Hj; cbn; [done|].
  apply not_elem_of_cons in Hj as [? ?]. rewrite IH by done. by rewrite list_lookup_insert_ne.
Qed.
Lemma fork_table_child p ic base exp k free t n i :
  NoDup free -> (forall i, i ∈ free -> is_Some (t !! i)) -> free !! n = Some i ->
  fork_table p ic base exp k free t !! i = Some (child_entry p ic base exp (k + n)).
Proof.
  revert k t n. induction free as [|j free IH]; intros k t n Hnd Hin Hn; [done|].
  apply NoDup_cons in Hnd as [Hj Hnd]. destruct n as [|n]; simplify_eq/=.
  - rewrite fork_table_other by done. destruct (Hin i) as [e He]; [left|].
    rewrite list_lookup_insert_eq by (by eapply lookup_lt_Some). by rewrite Nat.add_0_r.
  - rewrite (IH _ _ n); [by rewrite Nat.add_succ_r|done| |done].
    intros q Hq. destruct (Hin q) as [e He]; [by right|].
    rewrite list_lookup_insert_ne by (by intros ->). by exists e.
Qed.
Lemma fork_table_observed p ic base exp k free t :
  observed t (fork_events p ic base exp k free) (fork_table p ic base exp k free t).
Proof.
  revert k t. induction free as [|i free IH]; intros k t; cbn; [done|].
  eapply (observed_app _ [_] _ _); [apply observed_insert|apply IH].
Qed.

End Claims.

(** Claiming one child keeps the accounting of every slot but the parent's. *)
Lemma claim_child t p pe i ce :
  acct_but (Some p) t -> t !! p = Some pe -> ram_is_cow pe = false ->
  t !! i = Some SlotEntry_empty -> i <> p ->
  state ce = Paused -> live_children ce = 0 -> parent ce = Some p -> ram_is_cow ce = true ->
  acct_but (Some p) (<[i := ce]> t) /\ children (<[i := ce]> t) p = children t p + 1.
Proof.
  intros [Hlen H] Hp Hcow Hi Hne Hs Hl Hpar Hc.
  assert (forall j, children (<[i := ce]> t) j = children t j + b2z (bool_decide (p = j))) as Hch.
  { intros j. rewrite (children_insert _ _ SlotEntry_empty) by done.
    change (child_of j SlotEntry_empty) with false. unfold child_of. rewrite Hpar.
    rewrite (bool_decide_ext (Some p = Some j) (p = j)) by naive_solver. cbn. lia. }
  pose proof (lookup_lt_Some _ _ _ Hi). split.
  2:{ rewrite Hch, bool_decide_true by done. done. }
  assert (children t i = 0) as Hi0.
  { destruct (H _ _ Hi) as [_ X]. rewrite <- X by congruence. done. }
  assert (forall q qe, t !! q = Some qe -> (exists j f, t !! j = Some f /\ parent f = Some q) ->
    (<[i := ce]> t) !! q = Some qe) as Hkeep.
  { intros q qe Hq (j & f & Hf & Hpf). rewrite list_lookup_insert_ne; [done|]. intros <-.
    pose proof (children_pos _ _ _ _ Hf Hpf). lia. }
  split; [by rewrite length_insert|]. intros j f Hf. rewrite Hch.
  destruct (decide (j = i)) as [->|].
  - rewrite list_lookup_insert_eq in Hf by done. simplify_eq. split.
    + split; [congruence..|]. intros q Hq. rewrite Hpar in Hq. injection Hq as <-.
      split; [done|]. exists pe. by rewrite list_lookup_insert_ne.
    + intros _. rewrite bool_decide_false by done. cbn. lia.
  - rewrite list_lookup_insert_ne in Hf by done. destruct (H _ _ Hf) as [[H1 H2 H3] Hlive]. split.
    + split; [done..|]. intros q Hq. destruct (H3 _ Hq) as [? (qe & Hqe & ?)]. split; [done|].
      exists qe. split; [|done]. apply Hkeep; [done|]. by exists j, f.
    + intros Hj. rewrite Hlive by done. rewrite bool_decide_false by congruence. cbn. lia.
Qed.
