(* ===== verification/SlotLifecycle.v ===== *)
(** * Forks, sweeps and whole histories of the slot table *)

From S2P Require Import Prelude SlotState SlotManager SlotInvariants.

#[local] Arguments Nat.ltb : simpl never.

(** ** Fork *)

Lemma check_fork_entries_ok t l n now r :
  check_fork_entries t l n now = Ok r <->
  exists p, t !! slot_id l = Some p /\ validate_entry p l now = Ok tt /\ (0 < n)%nat /\
    ram_is_cow p = false /\ state p = Paused /\ (n <= length (empty_slots t))%nat /\
    r = (slot_id l, Frozen, take n (empty_slots t)).
Proof.
  unfold check_fork_entries. split.
  - intros H. apply bind_ok in H as (p & Hp & H). unfold ok_or in Hp.
    destruct (t !! slot_id l) as [p'|] eqn:E; simplify_eq. exists p. open_checks.
    destruct (n =? 0)%nat eqn:Hn; [done|]. destruct (ram_is_cow p) eqn:Hc; [done|]. open_checks.
    rewrite length_take in H. destruct (_ <? _)%nat eqn:Hlen; [done|]. simplify_eq.
    apply Nat.eqb_neq in Hn. apply Nat.ltb_ge in Hlen.
    split_and!; try done; [lia| |lia]. by destruct (state p).
  - intros (p & Hp & Hv & Hn & Hc & Hs & Hlen & ->). rewrite Hp. cbn. rewrite Hv. cbn.
    rewrite (proj2 (Nat.eqb_neq n 0)) by lia. rewrite Hc, Hs. cbn.
    rewrite length_take, (proj2 (Nat.ltb_ge _ _)) by lia. done.
Qed.

Lemma accounted_settle t p pe pe' :
  acct_but (Some p) t -> t !! p = Some pe ->
  parent pe' = parent pe -> ram_is_cow pe' = ram_is_cow pe -> state pe' = Frozen ->
  live_children pe' = children t p -> 0 < children t p -> accounted (<[p := pe']> t).
Proof.
  intros [Hlen H] Hp Hpar Hcow Hs Hl Hpos. split; [by rewrite length_insert|]. intros i f Hf.
  rewrite (children_insert_same _ _ pe) by done. destruct (decide (i = p)) as [->|].
  - rewrite list_lookup_insert_eq in Hf by (by eapply lookup_lt_Some). simplify_eq.
    split; [|done]. apply (entry_ok_insert _ _ pe); [done..|].
    destruct (H _ _ Hp) as [[_ _ H3] _]. split; [congruence|by rewrite Hl|]. by rewrite Hpar, Hcow.
  - rewrite list_lookup_insert_ne in Hf by done. destruct (H _ _ Hf) as [Hok Hlive].
    split; [by apply (entry_ok_insert _ _ pe)|]. intros _. apply Hlive. congruence.
Qed.

Lemma NoDup_claimed n t : NoDup (take n (empty_slots t)).
Proof. eapply sublist_NoDup; [apply NoDup_empty_slots|apply sublist_take]. Qed.

Section Fork.
Context (token_source : nat -> bytes).
Local Notation fork_table := (fork_table token_source).
Local Notation child_entry := (child_entry token_source).

Lemma fork_table_comm p ic base exp k free t x :
  p ∉ free -> fork_table p ic base exp k free (<[p := x]> t) = <[p := x]> (fork_table p ic base exp k free t).
Proof.
  revert k t. induction free as [|i free IH]; intros k t Hp; cbn; [done|].
  apply not_elem_of_cons in Hp as [? ?]. rewrite list_insert_insert_ne by done. by rewrite IH.
Qed.

Lemma fork_table_acct p pe ic base exp k free t :
  NoDup free -> p ∉ free -> acct_but (Some p) t -> t !! p = Some pe -> ram_is_cow pe = false ->
  (forall i, i ∈ free -> t !! i = Some SlotEntry_empty) ->
  acct_but (Some p) (fork_table p ic base exp k free t) /\
  children (fork_table p ic base exp k free t) p = children t p + Z.of_nat (length free).
Proof.
  revert k t. induction free as [|i free IH]; intros k t Hnd Hp Ha Hpe Hc Hin; cbn.
  { split; [done|lia]. }
  apply NoDup_cons in Hnd as [Hi Hnd]. apply not_elem_of_cons in Hp as [Hpi Hp].
  assert (t !! i = Some SlotEntry_empty) as Hti by (apply Hin; left).
  destruct (claim_child t p pe i (child_entry p ic base exp k)) as [Ha' Hch]; try done.
  destruct (IH (S k) (<[i := child_entry p ic base exp k]> t)) as [IH1 IH2]; try done.
  - by rewrite list_lookup_insert_ne.
  - intros j Hj. rewrite list_lookup_insert_ne by (by intros ->). apply Hin. by right.
  - split; [done|]. rewrite IH2, Hch. lia.
Qed.

Lemma fork_ok l n now m p :
  accounted (slots m) -> slots m !! slot_id l = Some p -> validate_entry p l now = Ok tt ->
  (0 < n)%nat -> ram_is_cow p = false -> state p = Paused -> (n <= length (empty_slots (slots m)))%nat ->
  let free := take n (empty_slots (slots m)) in
  let exp := expiry m now in
  let t1 := fork_table (slot_id l) (icount p) (base_snapshot_id p) exp (minted m) free (slots m) in
  let p' := with_children (live_children p + Z.of_nat n) (with_state Frozen p) in
  fork token_source l n now m =
    (Ok (fork_leases token_source (minted m) free),
     mkSlotManager (<[slot_id l := p']> t1) (cores m) (ttl_ms m) (minted m + n),
     fork_events token_source (slot_id l) (icount p) (base_snapshot_id p) exp (minted m) free
       ++ [info_of p' (slot_id l)]) /\
  slot_id l ∉ free /\ length free = n /\
  (forall i, i ∈ free -> slots m !! i = Some SlotEntry_empty) /\
  accounted (<[slot_id l := p']> t1).
Proof.
  intros Ha Hp Hv Hn Hc Hs Hlen free exp t1 p'. set (pid := slot_id l) in *.
  assert (length free = n) as Hfl by (unfold free; rewrite length_take; lia).
  assert (NoDup free) as Hnd by apply NoDup_claimed.
  assert (forall i, i ∈ free -> slots m !! i = Some SlotEntry_empty) as Hfree.
  { intros i Hi. apply empty_slots_entry; [done|]. by apply (subseteq_take n). }
  assert (pid ∉ free) as Hpf by (intros X%Hfree; rewrite Hp in X; by simplify_eq).
  destruct (fork_table_acct pid p (icount p) (base_snapshot_id p) exp (minted m) free (slots m))
    as [Hacct Hch]; try done; [by apply acct_but_weaken|]. fold t1 in Hacct, Hch.
  assert (live_children p = children (slots m) pid) as Hlp by by apply Ha.
  assert (t1 !! pid = Some p) as Ht1 by (unfold t1; by rewrite fork_table_other).
  pose proof (children_nonneg (slots m) pid) as Hnn.
  assert (live_children p + Z.of_nat n <= u32_max) as Hbound.
  { pose proof (children_le t1 pid) as X. rewrite Hch, Hfl in X. destruct Hacct as [Hl _]. lia. }
  split_and!; try done.
  - assert (check_fork_entries (slots m) l n now = Ok (pid, Frozen, free)) as Hck
      by (apply check_fork_entries_ok; by exists p).
    unfold fork. rewrite Hck. fold pid. cbn iota beta. rewrite Hp. cbn zeta.
    rewrite fork_children_eq; [|done|].
    2:{ intros i Hi. cbn. rewrite list_lookup_insert_ne by (intros <-; by destruct Hpf). by apply Hfree. }
    cbn [slots minted with_slots cores ttl_ms expiry].
    fold free. rewrite fork_table_comm by done. fold (expiry m now). fold exp. fold t1.
    rewrite list_lookup_insert_eq by (by eapply lookup_lt_Some).
    unfold try_u32. rewrite (proj2 (Z.leb_le _ _)) by lia.
    unfold saturating_add_u32. cbn [live_children with_state]. rewrite Z.min_l by done.
    fold p'. rewrite list_insert_insert_eq, Hfl. done.
  - apply (accounted_settle _ _ p); try done.
    + cbn. rewrite Hch, Hlp. lia.
    + rewrite Hch. lia.
Qed.

Lemma fork_keeps P l n now m r m' ev :
  fork token_source l n now m = (r, m', ev) -> accounted (slots m) -> keeps P (slots m) ev (slots m').
Proof.
  intros H Ha.
  destruct (check_fork_entries (slots m) l n now) as [c| |] eqn:Hc.
  2,3: unfold fork in H; rewrite Hc in H; simplify_eq; apply keeps_refl.
  apply check_fork_entries_ok in Hc as (p & Hp & Hv & Hn & Hcow & Hs & Hlen & _).
  destruct (fork_ok l n now m p) as (Heq & Hpf & Hfl & Hfree & Hacct); try done.
  rewrite Heq in H. simplify_eq. cbn [slots]. split.
  - done.
  - intros _ _ Hf i f Hi Hpos. destruct (decide (i = slot_id l)) as [->|].
    + rewrite list_lookup_insert_eq in Hi; [by simplify_eq|].
      rewrite fork_table_length. by eapply lookup_lt_Some.
    + rewrite list_lookup_insert_ne in Hi by done.
      destruct (decide (i ∈ take n (empty_slots (slots m)))) as [Hin|Hin].
      * apply list_elem_of_lookup in Hin as [k Hk].
        rewrite (fork_table_child _ _ _ _ _ _ _ _ k) in Hi; [by simplify_eq| | |done].
        { apply NoDup_claimed. }
        intros j Hj. rewrite Hfree by done. by eexists.
      * rewrite fork_table_other in Hi by done. by eapply Hf.
  - eapply observed_app; [apply fork_table_observed|apply observed_insert].
Qed.
End Fork.

(** ** The expiry sweep *)

Definition at_start (now : Z) (t : list SlotEntry) : list (bool * SlotState) :=
  map (fun e => (lease_expired e now, state e)) t.

(** What holds when the sweep reaches index [k]. *)
Record sweeping (t : list SlotEntry) (k : nat) (acc : list SlotEntry * list nat * list SlotInfo) : Prop := {
  sw_acct : accounted acc.1.1;
  sw_freeze : freeze_ok t -> freeze_ok acc.1.1;
  sw_observed : observed t acc.2 acc.1.1;
  sw_length : length acc.1.1 = length t;
  sw_state : forall j e f, (k <= j)%nat -> t !! j = Some e -> acc.1.1 !! j = Some f ->
    state f = state e \/ state e = Frozen /\ state f = Paused }.

Lemma sweeping_skip t k acc : sweeping t k acc -> sweeping t (S k) acc.
Proof. intros [? ? ? ? H]. split; try done. intros j e f Hj. apply H. lia. Qed.

Lemma sweep_step_sweeping now t k acc :
  sweeping t k acc -> sweeping t (S k) (sweep_step (at_start now t) acc k).
Proof.
  destruct acc as [[T R] E]. intros [Ha Hf Ho Hl Hs]. cbn [fst snd] in *.
  unfold sweep_step, at_start. rewrite list_lookup_fmap.
  destruct (t !! k) as [e|] eqn:He; cbn [fmap option_fmap option_map]; [|by apply sweeping_skip].
  destruct (T !! k) as [f|] eqn:Hk; [|by apply sweeping_skip].
  destruct (negb (lease_expired e now)); [by apply sweeping_skip|].
  assert (sweeping t (S k)
    (if live_children f =? 0 then ((release T k).1, R ++ [k], E ++ (release T k).2) else (T, R, E))) as Hrel.
  { destruct (live_children f =? 0) eqn:Hz; [|by apply sweeping_skip]. apply Z.eqb_eq in Hz.
    pose proof (no_self_parent _ _ _ _ Ha Hk) as Hself.
    destruct (release_ok _ _ _ Ha Hk Hz) as [K1 K2]. split; cbn [fst snd]; [done|by auto| | |].
    - eapply observed_app; [exact Ho|apply release_observed].
    - by rewrite (release_length _ _ f).
    - intros j e' f' Hj He' Hf'. rewrite (release_lookup _ _ f) in Hf' by done.
      rewrite decide_False in Hf' by lia. destruct (T !! j) as [g|] eqn:Hg; simplify_eq/=.
      destruct (Hs j e' g ltac:(lia) He' Hg) as [Hst|[Hst1 Hst2]];
        destruct (unlink_state (parent f) j g) as [->|(X & Y & _)]; auto; right; split; congruence. }
  destruct (state e) eqn:Hst; try done; try by apply sweeping_skip.
  destruct (Hs k e f ltac:(lia) He Hk) as [Hsf|[X _]]; [|congruence]. rewrite Hst in Hsf.
  split; cbn [fst snd].
  - by apply (accounted_update _ _ f).
  - intros Hfr. apply (freeze_update _ _ f); [by auto|done|]. cbn. intros Hpos.
    rewrite (Hf Hfr k f) in Hsf by done. done.
  - eapply observed_app; [exact Ho|apply observed_insert].
  - by rewrite length_insert.
  - intros j e' f' Hj He' Hf'. rewrite list_lookup_insert_ne in Hf' by lia. apply (Hs j); [lia|done..].
Qed.

Lemma sweep_sweeping now t n k acc :
  sweeping t k acc -> sweeping t (k + n) (foldl (sweep_step (at_start now t)) acc (seq k n)).
Proof.
  revert k acc. induction n as [|n IH]; intros k acc H; cbn; [by rewrite Nat.add_0_r|].
  rewrite Nat.add_succ_r. by apply (IH (S k)), sweep_step_sweeping.
Qed.

Lemma reclaim_keeps P now m r m' ev :
  reclaim_expired now m = (r, m', ev) -> accounted (slots m) -> keeps P (slots m) ev (slots m').
Proof.
  unfold reclaim_expired. intros H Ha. fold (at_start now (slots m)) in H.
  pose proof (sweep_sweeping now (slots m) (length (slots m)) 0 (slots m, [], [])) as Hsw.
  destruct (foldl _ _ _) as [[T R] E]. simplify_eq.
  destruct Hsw as [H1 H2 H3 _ _]; [|by split; auto].
  split; cbn; try done. intros j e f _ He Hf. left. congruence.
Qed.

(** ** Whole histories *)

Lemma validate_entry_no_panic e l now : validate_entry e l now <> Panic.
Proof. unfold validate_entry. repeat case_match; done. Qed.
Lemma lift_state_no_panic {A} (o : outcome SlotStateError A) : o <> Panic -> lift_state o <> Panic.
Proof. by destruct o. Qed.
Lemma ensure_no_panic s api : ensure_write_path s api <> Panic.
Proof. by destruct s. Qed.

Create HintDb slots.
#[export] Hint Resolve validate_entry_no_panic lift_state_no_panic ensure_no_panic transition_no_panic
  bind_not_panic : slots.

Lemma on_entry_no_panic slot pub f m r m' ev :
  on_entry slot pub f m = (r, m', ev) -> (forall e, f e <> Panic) -> r <> Panic.
Proof.
  intros [(_ & _ & _ & H)|(-> & _)]%on_entry_cases Hf; [|done].
  intros X. destruct (H X) as (e & _ & He). by apply (Hf e).
Qed.

Lemma check_destroy_no_panic m l now : check_destroy m l now <> Panic.
Proof.
  unfold check_destroy, get_entry, check_destroy_entry. apply bind_not_panic.
  { by destruct (slots m !! slot_id l). }
  intros e _. apply bind_not_panic; [auto with slots|]. intros _ _.
  destruct (0 <? live_children e); [done|]. apply bind_not_panic; auto with slots.
Qed.

Lemma check_fork_entries_no_panic t l n now : check_fork_entries t l n now <> Panic.
Proof.
  unfold check_fork_entries. apply bind_not_panic; [by destruct (t !! slot_id l)|].
  intros e _. apply bind_not_panic; [auto with slots|]. intros _ _.
  destruct (n =? 0)%nat; [done|]. destruct (ram_is_cow e); [done|].
  apply bind_not_panic; [auto with slots|]. intros s _. by destruct (_ <? _)%nat.
Qed.

Section Histories.
Context (token_source : nat -> bytes).

Lemma run_call_no_panic c now m r m' ev :
  run_call token_source c now m = (r, m', ev) -> accounted (slots m) -> r <> Panic.
Proof.
  destruct c; cbn [run_call]; intros H Ha.
  - destruct (allocate token_source now m) as [[r1 m1] e1] eqn:Hal. unfold ended in H. simplify_eq/=.
    apply allocate_eq in Hal as [(-> & _)|(i & _ & _ & -> & _)]; done.
  - destruct (check_fork_entries (slots m) l children now) as [c| |] eqn:Hc.
    + apply check_fork_entries_ok in Hc as (p & Hp & Hv & Hn & Hcow & Hs & Hlen & _).
      destruct (fork_ok token_source l children now m p) as (Heq & _); try done.
      rewrite Heq in H. unfold ended in H. by simplify_eq/=.
    + unfold fork in H. rewrite Hc in H. unfold ended in H. by simplify_eq/=.
    + by apply check_fork_entries_no_panic in Hc.
  - eapply on_entry_no_panic; [exact H|]. intros e. apply bind_not_panic; [auto with slots|].
    intros _ _. repeat case_match; done.
  - eapply on_entry_no_panic; [exact H|]. intros e. repeat (apply bind_not_panic; [auto with slots|intros ? _]). done.
  - eapply on_entry_no_panic; [exact H|]. intros e. repeat (apply bind_not_panic; [auto with slots|intros ? _]). done.
  - rewrite mark_paused_at_position_split in H.
    assert (forall m r m' ev, set_position l ic base now m = (r, m', ev) -> r <> Panic) as Hset.
    { intros. eapply on_entry_no_panic; [done|]. intros e. apply bind_not_panic; auto with slots. }
    destruct (set_position l ic base now m) as [[r1 m1] e1] eqn:H1. apply Hset in H1.
    destruct r1; simplify_eq; [|done].
    eapply on_entry_no_panic; [exact H|]. intros e. repeat (apply bind_not_panic; [auto with slots|intros ? _]). done.
  - eapply on_entry_no_panic; [exact H|]. intros e. repeat (apply bind_not_panic; [auto with slots|intros ? _]). done.
  - eapply on_entry_no_panic; [exact H|]. intros e. repeat (apply bind_not_panic; [auto with slots|intros ? _]). done.
  - unfold destroy in H. pose proof (check_destroy_no_panic m l now).
    destruct (check_destroy m l now); by simplify_eq.
  - unfold force_destroy, get_entry in H. destruct (slots m !! slot) as [e|]; cbn in H; [|by simplify_eq].
    assert (lift_state (transition (state e) Empty) <> Panic) by auto with slots.
    destruct (lift_state _); by simplify_eq.
  - unfold reclaim_expired in H. destruct (foldl _ _ _) as [[T R] E]. unfold ended in H. by simplify_eq/=.
Qed.

Lemma run_call_keeps c now m r m' ev :
  run_call token_source c now m = (r, m', ev) -> accounted (slots m) ->
  keeps (pause_ok c m) (slots m) ev (slots m').
Proof.
  destruct c; cbn [run_call]; intros H Ha;
    try (unfold ended in H;
         match type of H with (_, (?op).1.2, _) = _ => destruct op as [[? ?] ?] eqn:E end; simplify_eq/=).
  - eapply allocate_keeps; eassumption.
  - eapply fork_keeps; eassumption.
  - eapply renew_keeps; eassumption.
  - eapply mark_running_keeps; eassumption.
  - eapply mark_paused_keeps; eassumption.
  - eapply mark_paused_at_keeps; eassumption.
  - eapply set_position_keeps; eassumption.
  - eapply mark_faulted_keeps; eassumption.
  - eapply destroy_keeps; eassumption.
  - eapply force_destroy_keeps; eassumption.
  - eapply reclaim_keeps; eassumption.
Qed.

(** A history of timed calls: the manager it leads to, how each call ended and
    the event stream. *)
Fixpoint run_history (h : list (call * Z)) (m : SlotManager)
    : SlotManager * list (outcome SlotError unit) * list SlotInfo :=
  match h with
  | [] => (m, [], [])
  | (c, now) :: h =>
      let '(r, m1, ev1) := run_call token_source c now m in
      let '(m2, rs, ev2) := run_history h m1 in (m2, r :: rs, ev1 ++ ev2)
  end.
Fixpoint disciplined (h : list (call * Z)) (m : SlotManager) : Prop :=
  match h with
  | [] => True
  | (c, now) :: h => pause_ok c m /\ disciplined h (run_call token_source c now m).1.2
  end.

Lemma run_history_sound h m m' rs evs :
  run_history h m = (m', rs, evs) -> accounted (slots m) ->
  accounted (slots m') /\ (disciplined h m -> freeze_ok (slots m) -> freeze_ok (slots m')) /\
  observed (slots m) evs (slots m') /\ Forall (fun r => r <> Panic) rs.
Proof.
  revert m m' rs evs. induction h as [|[c now] h IH]; intros m m' rs evs H Ha; cbn in H.
  { by simplify_eq. }
  destruct (run_call token_source c now m) as [[r m1] ev1] eqn:Hc.
  destruct (run_history h m1) as [[m2 rs2] ev2] eqn:Hh. simplify_eq.
  pose proof (run_call_no_panic _ _ _ _ _ _ Hc Ha). pose proof (run_call_keeps _ _ _ _ _ _ Hc Ha) as [K1 K2 K3].
  destruct (IH _ _ _ _ Hh (K1 Ha)) as (I1 & I2 & I3 & I4). split_and!; [done| | |by constructor].
  - cbn. rewrite Hc. cbn. intros [Hp Hd] Hf. auto.
  - by eapply observed_app.
Qed.
End Histories.

Lemma fresh_accounted n cs policy m :
  with_token_source n cs policy = Ok m -> Z.of_nat n <= u32_max ->
  accounted (slots m) /\ freeze_ok (slots m).
Proof.
  unfold with_token_source. intros H Hn. destruct (first_duplicate [] cs); [done|].
  destruct (_ <? _)%nat; simplify_eq. cbn [slots].
  assert (forall k i, children (replicate k SlotEntry_empty) i = 0) as Hch.
  { intros k i. induction k; cbn; [done|]. by rewrite IHk. }
  split.
  - split; [by rewrite length_replicate|]. intros i e [-> _]%lookup_replicate. rewrite Hch.
    split; [split; cbn; naive_solver|done].
  - intros i e [-> _]%lookup_replicate. done.
Qed.

(** ** What one sweep does, exactly *)

Definition reclaimable (now : Z) (e : SlotEntry) : bool :=
  lease_expired e now && match state e with Paused | Faulted => true | _ => false end.
(** Children of [i] among the reclaimed entries below index [k]. *)
Definition gone (now : Z) (t : list SlotEntry) (k i : nat) : Z :=
  children (List.filter (reclaimable now) (take k t)) i.
(** Entry [i] once the sweep has passed the indices below [k]. *)
Definition swept (now : Z) (t : list SlotEntry) (k i : nat) (e : SlotEntry) : SlotEntry :=
  if (i <? k)%nat && reclaimable now e then SlotEntry_empty
  else
    let n := live_children e - gone now t k i in
    with_children n
      (match state e with
       | Running => if (i <? k)%nat && lease_expired e now then with_state Faulted e else e
       | Frozen => if n =? 0 then with_state Paused e else e
       | _ => e
       end).

Lemma children_app l1 l2 i : children (l1 ++ l2) i = children l1 i + children l2 i.
Proof. induction l1; cbn; [done|]. rewrite IHl1. lia. Qed.
Lemma children_filter_le f l i : children (List.filter f l) i <= children l i.
Proof. induction l as [|e l IH]; cbn; [done|]. unfold b2z. destruct (f e); cbn; unfold b2z; case_match; lia. Qed.
Lemma gone_S now t k i e :
  t !! k = Some e -> gone now t (S k) i = gone now t k i + b2z (reclaimable now e && child_of i e).
Proof.
  intros He. unfold gone. rewrite (take_S_r _ _ e) by done. rewrite List.filter_app, children_app.
  cbn. destruct (reclaimable now e); cbn; lia.
Qed.
Lemma gone_le now t k i : 0 <= gone now t k i <= children t i.
Proof.
  unfold gone. split; [apply children_nonneg|].
  etransitivity; [apply children_filter_le|].
  rewrite <- (take_drop k t) at 2. rewrite children_app. pose proof (children_nonneg (drop k t) i). lia.
Qed.

Section Exact.
Context (now : Z) (t : list SlotEntry) (Ha : accounted t) (Hf : freeze_ok t).

Lemma gone_live k i e : t !! i = Some e -> 0 <= gone now t k i <= live_children e.
Proof. intros He. destruct Ha as [_ H]. destruct (H _ _ He) as [_ ->]; [|done]. apply gone_le. Qed.
Lemma not_frozen_childless i e : t !! i = Some e -> state e <> Frozen -> live_children e = 0.
Proof.
  intros He Hs. pose proof (gone_live 0 i e He). destruct (decide (0 < live_children e)) as [X|]; [|lia].
  by destruct Hs; apply (Hf i).
Qed.

(** The entry the loop meets at its own index. *)
Lemma swept_here k e : t !! k = Some e -> state e <> Frozen -> swept now t k k e = e.
Proof.
  intros He Hs. unfold swept. rewrite Nat.ltb_irrefl. cbn [andb]. cbv zeta.
  pose proof (not_frozen_childless _ _ He Hs). pose proof (gone_live k _ _ He).
  replace (live_children e - gone now t k k) with (live_children e) by lia.
  destruct e as [[] ? ? ? ? ? ?]; cbn; done.
Qed.

(** Passing an entry the sweep leaves alone changes nothing. *)
Lemma swept_skip k i e f :
  t !! k = Some e -> t !! i = Some f -> reclaimable now e = false ->
  (lease_expired e now = true -> state e <> Running) -> swept now t (S k) i f = swept now t k i f.
Proof.
  intros He Hi Hr Hrun. unfold swept. rewrite (gone_S _ _ _ _ e), Hr by done. cbn [andb b2z]. rewrite Z.add_0_r.
  destruct (decide (i = k)) as [->|].
  - simplify_eq. rewrite Hr, !andb_false_r. destruct (state e) eqn:Hs; try done.
    destruct (lease_expired e now); [by destruct Hrun|]. by rewrite !andb_false_r.
  - assert ((i <? S k)%nat = (i <? k)%nat) as ->; [|done].
    destruct (Nat.ltb_spec i (S k)), (Nat.ltb_spec i k); done || lia.
Qed.

(** Passing a reclaimed entry. *)
Lemma swept_release k j e f :
  t !! k = Some e -> t !! j = Some f -> j <> k -> reclaimable now e = true ->
  swept now t (S k) j f = unlink (parent e) j (swept now t k j f).
Proof.
  intros He Hj Hne Hr. unfold swept. rewrite (gone_S _ _ _ _ e), Hr by done. cbn [andb].
  assert ((j <? S k)%nat = (j <? k)%nat) as ->
    by (destruct (Nat.ltb_spec j (S k)), (Nat.ltb_spec j k); done || lia).
  unfold child_of. destruct (bool_decide_reflect (parent e = Some j)) as [Hp|Hp]; cbn [b2z].
  2:{ rewrite Z.add_0_r. unfold unlink. by rewrite (bool_decide_false (parent e = Some j)). }
  assert (gone now t k j + 1 <= live_children f) as Hg.
  { pose proof (gone_live (S k) j f Hj) as X. rewrite (gone_S _ _ _ _ e), Hr in X by done.
    unfold child_of in X. rewrite bool_decide_true in X by done. cbn in X. lia. }
  pose proof (gone_live k j f Hj).
  assert (state f = Frozen) as Hs by (apply (Hf j); [done|lia]).
  unfold reclaimable. rewrite Hs, !andb_false_r. cbv zeta.
  rewrite (proj2 (Z.eqb_neq (live_children f - gone now t k j) 0)) by lia.
  unfold unlink. rewrite bool_decide_true by done. cbn. rewrite Hs. unfold saturating_sub.
  rewrite Z.max_l by lia.
  replace (live_children f - (gone now t k j + 1)) with (live_children f - gone now t k j - 1) by lia.
  by destruct (_ =? 0).
Qed.

(** Passing an expired Running entry. *)
Lemma swept_running k j e f :
  t !! k = Some e -> t !! j = Some f -> state e = Running -> lease_expired e now = true ->
  swept now t (S k) j f = if decide (j = k) then with_state Faulted e else swept now t k j f.
Proof.
  intros He Hj Hs Hx. assert (reclaimable now e = false) as Hr
    by (unfold reclaimable; by rewrite Hs, andb_false_r).
  unfold swept. rewrite (gone_S _ _ _ _ e), Hr by done. cbn [andb b2z]. rewrite Z.add_0_r.
  case_decide as Hjk; subst; simplify_eq.
  - rewrite Hr, andb_false_r. cbv zeta. rewrite Hs, Hx, (proj2 (Nat.ltb_lt k (S k))) by lia. cbn [andb].
    pose proof (not_frozen_childless _ _ He ltac:(by rewrite Hs)). pose proof (gone_live k _ _ He).
    replace (live_children e - gone now t k k) with (live_children e) by lia. done.
  - assert ((j <? S k)%nat = (j <? k)%nat) as ->; [|done].
    destruct (Nat.ltb_spec j (S k)), (Nat.ltb_spec j k); done || lia.
Qed.

Definition sweep_exact_at (k : nat) (acc : list SlotEntry * list nat * list SlotInfo) : Prop :=
  (forall j, acc.1.1 !! j = swept now t k j <$> t !! j) /\
  acc.1.2 = List.filter (fun i => default false (reclaimable now <$> t !! i)) (seq 0 k).

Lemma sweep_exact_step k acc :
  (k < length t)%nat -> sweep_exact_at k acc ->
  sweep_exact_at (S k) (sweep_step (at_start now t) acc k).
Proof.
  destruct acc as [[T R] E]. intros Hk [HT HR]. cbn [fst snd] in *.
  destruct (lookup_lt_is_Some_2 t k Hk) as [e He].
  assert (forall b, default false (reclaimable now <$> t !! k) = b ->
    List.filter (fun i => default false (reclaimable now <$> t !! i)) (seq 0 (S k)) =
    R ++ if b then [k] else []) as HRS.
  { intros b Hb. rewrite seq_S, List.filter_app, <- HR. cbn. rewrite Hb. by destruct b. }
  unfold sweep_step, at_start. rewrite list_lookup_fmap, HT, He.
  cbn [fmap option_fmap option_map].
  assert (reclaimable now e = false -> (lease_expired e now = true -> state e <> Running) ->
    sweep_exact_at (S k) (T, R, E)) as Hskip.
  { intros Hr Hrun. split; cbn [fst snd].
    - intros j. rewrite HT. destruct (t !! j) as [f|] eqn:Hj; [|done]. cbn.
      by rewrite (swept_skip k j e f).
    - rewrite (HRS false) by (rewrite He; done). by rewrite app_nil_r. }
  assert (reclaimable now e = true -> state e <> Frozen -> sweep_exact_at (S k)
    (if live_children e =? 0 then ((release T k).1, R ++ [k], E ++ (release T k).2) else (T, R, E))) as Hrel.
  { intros Hr Hnf. rewrite (not_frozen_childless _ _ He Hnf). cbn [Z.eqb].
    assert (T !! k = Some e) as HTk by (rewrite HT, He; cbn; by rewrite swept_here).
    pose proof (no_self_parent _ _ _ _ Ha He) as Hself. split; cbn [fst snd].
    - intros j. rewrite (release_lookup _ _ e) by done. rewrite HT.
      destruct (t !! j) as [f|] eqn:Hj; cbn; case_decide; subst; try congruence.
      + unfold swept. simplify_eq. by rewrite Hr, (proj2 (Nat.ltb_lt k (S k))) by lia.
      + by rewrite (swept_release k j e f).
    - by rewrite (HRS true) by (rewrite He; done). }
  destruct (lease_expired e now) eqn:Hx; cbn [negb]; [|apply Hskip; [unfold reclaimable; by rewrite Hx|done]].
  destruct (state e) eqn:Hs;
    try (apply Hskip; [unfold reclaimable; rewrite Hs, ?Hx; done|congruence]);
    rewrite swept_here by (rewrite ?Hs; done).
  - split; cbn [fst snd].
    + intros j. destruct (t !! j) as [f|] eqn:Hj; cbn.
      * rewrite (swept_running k j e f) by done. case_decide; subst.
        -- rewrite list_lookup_insert_eq; [done|]. eapply lookup_lt_Some. rewrite HT, He. done.
        -- rewrite list_lookup_insert_ne by done. by rewrite HT, Hj.
      * rewrite list_lookup_insert_ne by congruence. by rewrite HT, Hj.
    + rewrite (HRS false); [by rewrite app_nil_r|]. rewrite He. cbn. unfold reclaimable.
      by rewrite Hs, Hx.
  - apply Hrel; [unfold reclaimable; by rewrite Hx, Hs|congruence].
  - apply Hrel; [unfold reclaimable; by rewrite Hx, Hs|congruence].
Qed.
End Exact.

Lemma sweep_exact_all now t n k acc :
  accounted t -> freeze_ok t -> (k + n = length t)%nat -> sweep_exact_at now t k acc ->
  sweep_exact_at now t (length t) (foldl (sweep_step (at_start now t)) acc (seq k n)).
Proof.
  intros Ha Hf. revert k acc. induction n as [|n IH]; intros k acc Hk H; cbn.
  { by rewrite <- Hk, Nat.add_0_r. }
  apply (IH (S k)); [lia|]. apply sweep_exact_step; [done..|lia|done].
Qed.

Lemma swept_start now t i e : accounted t -> freeze_ok t -> t !! i = Some e -> swept now t 0 i e = e.
Proof.
  intros Ha Hf He. destruct (decide (state e = Frozen)) as [Hs|Hs].
  - unfold swept. cbn [Nat.ltb Nat.leb andb]. unfold gone. cbn. rewrite Z.sub_0_r, Hs.
    destruct Ha as [_ H]. destruct (H _ _ He) as [[_ H2 _] _]. specialize (H2 Hs).
    rewrite (proj2 (Z.eqb_neq _ 0)) by lia. by destruct e.
  - pose proof (not_frozen_childless now t Ha Hf i e He Hs) as Hz. unfold swept.
    cbn [Nat.ltb Nat.leb andb]. unfold gone. cbn. rewrite Z.sub_0_r.
    destruct e as [[] ? ? ? ? ? ?]; done.
Qed.

(** Calls that carry a lease. *)
Definition lease_of (c : call) : option Lease :=
  match c with
  | CFork l _ | CRenew l | CRunning l | CPaused l | CPausedAt l _ _ | CSetPosition l _ _ | CDestroy l => Some l
  | CAllocate | CFaulted _ | CForceDestroy _ | CReclaim => None
  end.

Lemma on_entry_gate slot pub f m e err :
  slots m !! slot = Some e -> f e = Err err -> on_entry slot pub f m = (Err err, m, []).
Proof. intros He Hf. unfold on_entry, get_entry. rewrite He. cbn. by rewrite Hf. Qed.

Section Properties.
Context (token_source : nat -> bytes).

Lemma fork_leases_length k free : length (fork_leases token_source k free) = length free.
Proof. revert k. induction free; intros k; cbn; congruence. Qed.
Lemma fork_leases_lookup b free k i :
  free !! k = Some i -> fork_leases token_source b free !! k = Some (mkLease i (token_source (b + k))).
Proof.
  revert b k. induction free as [|j free IH]; intros b [|k] Hk; simplify_eq/=; [by rewrite Nat.add_0_r|].
  rewrite IH by done. by rewrite Nat.add_succ_r.
Qed.

(** C17: whatever calls a worker makes, in whatever order, on a fresh table of at
    most 2^32 - 1 slots: no call panics; every slot's live-child counter is
    exactly the number of slots whose parent link names it, an Empty slot is
    the reset entry, a Frozen slot has children, and a child is a copy-on-write
    slot whose parent is a present slot that is not; and an observer who
    applies the published events to the states it listed at the start holds
    exactly the states of the table. *)
Theorem slot_history_sound n cs policy m0 h m rs evs :
  with_token_source n cs policy = Ok m0 -> Z.of_nat n <= u32_max ->
  run_history token_source h m0 = (m, rs, evs) ->
  accounted (slots m) /\ observed (slots m0) evs (slots m) /\ Forall (fun r => r <> Panic) rs.
Proof.
  intros H0 Hn Hr. destruct (fresh_accounted _ _ _ _ H0 Hn) as [Ha _].
  destruct (run_history_sound _ _ _ _ _ _ Hr Ha) as (? & _ & ? & ?). done.
Qed.

(** C13: the fork baseline is protected.  In every history that reports a pause
    only for a slot that is not Frozen, the parent of every live child is a
    Frozen slot with a positive child count: no lease lets its RAM be written,
    run or destroyed, and it can not be forked again, until its last child
    is gone. *)
Theorem fork_baseline_protected n cs policy m0 h m rs evs i e p :
  with_token_source n cs policy = Ok m0 -> Z.of_nat n <= u32_max ->
  run_history token_source h m0 = (m, rs, evs) -> disciplined token_source h m0 ->
  slots m !! i = Some e -> parent e = Some p ->
  exists pe, slots m !! p = Some pe /\ state pe = Frozen /\ 0 < live_children pe /\
    forall l now, slot_id l = p ->
      (forall api, checkout_write m l api now <> Ok tt) /\
      (mark_running l now m).1.1 <> Ok tt /\ (destroy l now m).1.1 <> Ok tt /\
      (forall k, check_fork m l k now <> Ok tt).
Proof.
  intros H0 Hn Hr Hd He Hp. destruct (fresh_accounted _ _ _ _ H0 Hn) as [Ha0 Hf0].
  destruct (run_history_sound _ _ _ _ _ _ Hr Ha0) as (Ha & Hf & _ & _). specialize (Hf Hd Hf0).
  pose proof Ha as [_ Hacc]. destruct (Hacc _ _ He) as [[_ _ H3] _].
  destruct (H3 _ Hp) as [_ (pe & Hpe & _)]. destruct (Hacc _ _ Hpe) as [_ Hl]. specialize (Hl ltac:(done)).
  pose proof (children_pos _ _ _ _ He Hp). assert (0 < live_children pe) as Hpos by lia.
  pose proof (Hf _ _ Hpe Hpos) as Hs. exists pe. split_and!; try done.
  intros l now <-. split_and!.
  - intros api. unfold checkout_write, get_entry. rewrite Hpe. cbn.
    destruct (validate_entry pe l now); cbn; [|done..]. by rewrite Hs.
  - unfold mark_running, on_entry, get_entry. rewrite Hpe. cbn.
    destruct (validate_entry pe l now); cbn; [|done..]. by rewrite Hs.
  - unfold destroy, check_destroy, get_entry, check_destroy_entry. rewrite Hpe. cbn.
    destruct (validate_entry pe l now); cbn; [|done..]. by rewrite (proj2 (Z.ltb_lt 0 _)).
  - intros k Hk. apply bind_ok in Hk as (c & Hc & _).
    apply check_fork_entries_ok in Hc as (p' & Hp' & _ & _ & _ & Hs' & _). congruence.
Qed.

(** Fork is all-or-nothing and exact.  It succeeds iff the lease is valid,
    at least one child is asked for, the slot is a Paused non-copy-on-write
    slot and there are enough Empty slots.  On success the parent is Frozen
    with its counter raised by the number of children; the first Empty slots
    become Paused copy-on-write children at the parent's position, each with
    its own fresh token and a lease for it, and no other slot changes.  On
    failure nothing changes and nothing is published. *)
Theorem fork_exact l n now m r m' ev :
  accounted (slots m) -> fork token_source l n now m = (r, m', ev) ->
  let free := take n (empty_slots (slots m)) in
  ((exists ls, r = Ok ls) <->
    exists p, slots m !! slot_id l = Some p /\ validate m l now = Ok tt /\ (0 < n)%nat /\
      ram_is_cow p = false /\ state p = Paused /\ (n <= length (empty_slots (slots m)))%nat) /\
  ((forall ls, r <> Ok ls) -> m' = m /\ ev = []) /\
  (forall ls p, r = Ok ls -> slots m !! slot_id l = Some p ->
    length ls = n /\
    slots m' !! slot_id l = Some (with_children (live_children p + Z.of_nat n) (with_state Frozen p)) /\
    (forall k i, free !! k = Some i ->
      slots m !! i = Some SlotEntry_empty /\
      ls !! k = Some (mkLease i (token_source (minted m + k))) /\
      slots m' !! i = Some (child_entry token_source (slot_id l) (icount p) (base_snapshot_id p)
                              (expiry m now) (minted m + k))) /\
    (forall i, i <> slot_id l -> i ∉ free -> slots m' !! i = slots m !! i)).
Proof.
  intros Ha H free. unfold validate, get_entry.
  destruct (check_fork_entries (slots m) l n now) as [c|err|] eqn:Hc.
  2:{ assert (r = Err err /\ m' = m /\ ev = []) as (-> & -> & ->)
        by (unfold fork in H; rewrite Hc in H; by simplify_eq).
      split_and!; [|done|naive_solver]. split; [naive_solver|]. intros (p & Hp & Hv & Hn & Hcow & Hs & Hlen).
      rewrite Hp in Hv. cbn in Hv. by rewrite (proj2 (check_fork_entries_ok _ _ _ _
        (slot_id l, Frozen, free)) (ex_intro _ p (conj Hp (conj Hv (conj Hn (conj Hcow (conj Hs (conj Hlen eq_refl)))))))) in Hc. }
  2:{ by apply check_fork_entries_no_panic in Hc. }
  apply check_fork_entries_ok in Hc as (p & Hp & Hv & Hn & Hcow & Hs & Hlen & _).
  destruct (fork_ok token_source l n now m p) as (Heq & Hpf & Hfl & Hfree & _); try done.
  rewrite Heq in H. simplify_eq. cbn [slots].
  split_and!; [|naive_solver|].
  { split; [|naive_solver]. intros _. exists p. rewrite Hp. cbn. done. }
  intros ls p' Hls Hp'. simplify_eq.
  split_and!.
  - by rewrite fork_leases_length.
  - rewrite list_lookup_insert_eq; [done|]. rewrite fork_table_length. by eapply lookup_lt_Some.
  - intros k i Hk. assert (i ∈ free) as Hi by by eapply list_elem_of_lookup_2. split_and!.
    + by apply Hfree.
    + by apply fork_leases_lookup.
    + rewrite list_lookup_insert_ne by (intros <-; by destruct Hpf). apply fork_table_child; [apply NoDup_claimed| |done].
      intros j Hj. rewrite Hfree by done. by eexists.
  - intros i Hi Hnf. rewrite list_lookup_insert_ne by done. by apply fork_table_other.
Qed.

(** One expiry sweep, exactly.  On an accounted table whose parents are
    Frozen, the slots reclaimed are those with an expired lease that were
    Paused or Faulted when the sweep began; they become Empty.  An expired
    Running slot becomes Faulted and keeps its lease, for the next sweep.
    Every other slot keeps its entry, its child counter lowered by its
    reclaimed children, and a Frozen parent whose last child went is Paused
    but not reclaimed in this sweep. *)
Theorem sweep_exact now m :
  accounted (slots m) -> freeze_ok (slots m) ->
  exists t evs,
    let reclaimed := List.filter (fun i => default false (reclaimable now <$> slots m !! i))
                       (seq 0 (length (slots m))) in
    reclaim_expired now m = (Ok reclaimed, with_slots t m, evs) /\
    length t = length (slots m) /\
    forall i e, slots m !! i = Some e ->
      let n := live_children e - children (List.filter (reclaimable now) (slots m)) i in
      t !! i = Some
        (if reclaimable now e then SlotEntry_empty
         else with_children n
           (match state e with
            | Running => if lease_expired e now then with_state Faulted e else e
            | Frozen => if n =? 0 then with_state Paused e else e
            | _ => e
            end)).
Proof.
  intros Ha Hf.
  assert (sweep_exact_at now (slots m) 0 (slots m, [], [])) as H0.
  { split; [|done]. intros j. cbn [fst]. destruct (slots m !! j) as [e|] eqn:He; [|done]. cbn.
    by rewrite swept_start. }
  apply (sweep_exact_all now (slots m) (length (slots m)) 0) in H0; [|done..].
  unfold reclaim_expired. fold (at_start now (slots m)).
  destruct (foldl _ _ _) as [[T R] E]. destruct H0 as [HT HR]. cbn [fst snd] in *.
  exists T, E. cbv zeta. split_and!; [by rewrite HR| |].
  - apply Nat.le_antisymm; apply Nat.nlt_ge; intros Hlt.
    + destruct (lookup_lt_is_Some_2 T _ Hlt) as [f Hfx]. rewrite HT in Hfx.
      by rewrite (lookup_ge_None_2 (slots m)) in Hfx by lia.
    + destruct (lookup_lt_is_Some_2 (slots m) _ Hlt) as [f Hfx]. pose proof (HT (length T)) as X.
      rewrite Hfx, (lookup_ge_None_2 T) in X by lia. done.
  - intros i e He. rewrite HT, He. cbn. unfold swept, gone.
    rewrite firstn_all, (proj2 (Nat.ltb_lt i _)) by (by eapply lookup_lt_Some). done.
Qed.

(** The stale-token gate.  A call that carries a lease which does not
    validate, because the slot does not exist, the token is not the current
    one, or the lease has expired, is refused with exactly that error, changes
    nothing and publishes nothing. *)
Theorem lease_gate c l now m err :
  lease_of c = Some l -> validate m l now = Err err ->
  run_call token_source c now m = (Err err, m, []).
Proof.
  unfold validate, get_entry. intros Hc Hv.
  destruct (slots m !! slot_id l) as [e|] eqn:He; cbn in Hv.
  - destruct c; simplify_eq/=.
    + unfold ended, fork, check_fork_entries. rewrite He. cbn. by rewrite Hv.
    + eapply on_entry_gate; [done|]. by rewrite Hv.
    + eapply on_entry_gate; [done|]. by rewrite Hv.
    + eapply on_entry_gate; [done|]. by rewrite Hv.
    + unfold mark_paused_at_position, get_entry. rewrite He. cbn. by rewrite Hv.
    + eapply on_entry_gate; [done|]. by rewrite Hv.
    + unfold destroy, check_destroy, get_entry, check_destroy_entry. rewrite He. cbn. by rewrite Hv.
  - simplify_eq. destruct c; simplify_eq/=;
      unfold ended, fork, check_fork_entries, renew, mark_running, mark_paused,
        mark_paused_at_position, set_position, destroy, check_destroy, on_entry, get_entry;
      by rewrite He.
Qed.
End Properties.

(** ** Examples *)

Definition ex_tokens (k : nat) : bytes := [Z.of_nat k].
Definition ex_lease (i : nat) : Lease := mkLease i [Z.of_nat i].
Definition ex_fresh : SlotManager := mkSlotManager (replicate 4 SlotEntry_empty) [2; 3; 4; 5] (Some 100) 0.
Definition ex_history : list (call * Z) :=
  [(CAllocate, 0); (CFork (ex_lease 0) 2, 1); (CRunning (ex_lease 1), 2);
   (CPausedAt (ex_lease 1) 7 None, 3); (CRunning (ex_lease 2), 4)].
Definition ex_after (h : list (call * Z)) := run_history ex_tokens h ex_fresh.
Definition ex_forked : SlotManager := (ex_after ex_history).1.1.

Lemma ex_fresh_made : with_token_source 4 [2; 3; 4; 5] (Some 100) = Ok ex_fresh.
Proof. reflexivity. Qed.
Lemma ex_disciplined : disciplined ex_tokens ex_history ex_fresh.
Proof.
  unfold ex_history. cbn [disciplined pause_ok]. split_and!; try exact I.
  intros e He. vm_compute in He. by simplify_eq.
Qed.
Lemma ex_after_ok h :
  accounted (slots (ex_after h).1.1) /\ (disciplined ex_tokens h ex_fresh -> freeze_ok (slots (ex_after h).1.1)).
Proof.
  destruct (fresh_accounted _ _ _ _ ex_fresh_made ltac:(ulia)) as [Ha Hf].
  unfold ex_after. destruct (run_history ex_tokens h ex_fresh) as [[m rs] evs] eqn:Hr.
  destruct (run_history_sound _ _ _ _ _ _ Hr Ha) as (? & ? & _). auto.
Qed.

Lemma slot_history_sound_witness :
  accounted (slots ex_forked) /\
  observed (slots ex_fresh) (ex_after ex_history).2 (slots ex_forked) /\
  Forall (fun r => r <> Panic) (ex_after ex_history).1.2.
Proof.
  apply (slot_history_sound ex_tokens 4 [2; 3; 4; 5] (Some 100) ex_fresh ex_history).
  - exact ex_fresh_made.
  - ulia.
  - vm_compute. reflexivity.
Defined.

Lemma fork_baseline_protected_witness :
  exists pe, slots ex_forked !! 0%nat = Some pe /\ state pe = Frozen.
Proof.
  destruct (fork_baseline_protected ex_tokens 4 [2; 3; 4; 5] (Some 100) ex_fresh ex_history
    ex_forked (ex_after ex_history).1.2 (ex_after ex_history).2 1
    (default SlotEntry_empty (slots ex_forked !! 1%nat)) 0) as (pe & H1 & H2 & _).
  - exact ex_fresh_made.
  - ulia.
  - vm_compute. reflexivity.
  - exact ex_disciplined.
  - vm_compute. reflexivity.
  - vm_compute. reflexivity.
  - exists pe. split; assumption.
Defined.

Lemma fork_exact_witness :
  let m := (ex_after [(CAllocate, 0)]).1.1 in
  let r := fork ex_tokens (ex_lease 0) 2 1 m in
  (exists ls, r.1.1 = Ok ls) /\ slots r.1.2 !! 3%nat = slots m !! 3%nat.
Proof.
  intros m r.
  destruct (fork_exact ex_tokens (ex_lease 0) 2 1 m r.1.1 r.1.2 r.2) as (Hiff & _ & Hok).
  - apply ex_after_ok.
  - vm_compute. reflexivity.
  - assert (exists ls, r.1.1 = Ok ls) as [ls Hls].
    { apply Hiff. eexists. split; [vm_compute; reflexivity|]. repeat split; vm_compute; lia || reflexivity. }
    split; [by exists ls|]. destruct (Hok ls _ Hls eq_refl) as (_ & _ & _ & Hrest). apply Hrest.
    + discriminate.
    + vm_compute. intros X. repeat (apply elem_of_cons in X as [X|X]; [discriminate X|]).
      by apply elem_of_nil in X.
Defined.

Lemma sweep_exact_witness :
  exists t evs, reclaim_expired 500 ex_forked = (Ok [1%nat], with_slots t ex_forked, evs) /\
    state <$> t = [Frozen; Empty; Faulted; Empty].
Proof.
  destruct (sweep_exact 500 ex_forked) as (t & evs & H & _).
  - apply ex_after_ok.
  - apply ex_after_ok, ex_disciplined.
  - exists t, evs. split; [exact H|]. vm_compute in H. injection H as <- _. reflexivity.
Defined.

Lemma lease_gate_witness :
  run_call ex_tokens (CDestroy (mkLease 1 [9])) 5 ex_forked = (Err (StaleLease 1), ex_forked, []).
Proof.
  apply (lease_gate ex_tokens (CDestroy (mkLease 1 [9])) (mkLease 1 [9])).
  - reflexivity.
  - vm_compute. reflexivity.
Defined.

(** Without the discipline: pausing a Frozen parent thaws it while its child
    lives, and it can then be run over the child's baseline. *)
Theorem pause_thaws_parent_of_live_child :
  let m := (ex_after [(CAllocate, 0); (CFork (ex_lease 0) 1, 1); (CPaused (ex_lease 0), 2);
                      (CRunning (ex_lease 0), 3)]).1.1 in
  exists p c, slots m !! 0%nat = Some p /\ state p = Running /\ live_children p = 1 /\
    slots m !! 1%nat = Some c /\ parent c = Some 0%nat /\ state c = Paused.
Proof. vm_compute. do 2 eexists. repeat split. Qed.

(** A refused [mark_paused_at_position] has already moved the position. *)
Theorem refused_pause_moves_position :
  let m := (ex_after [(CAllocate, 0)]).1.1 in
  exists m', mark_paused_at_position (ex_lease 0) 9 None 1 m =
    (Err (State (InvalidTransition Paused Paused)), m', []) /\
    icount <$> slots m !! 0%nat = Some 0 /\ icount <$> slots m' !! 0%nat = Some 9.
Proof. vm_compute. eexists. repeat split. Qed.
