(* ===== verification/Status.v ===== *)
(** * gRPC statuses: the error half of [dh-worker/src/service.rs]

    What a handler answers when it refuses: tonic's [Status], the mapping of the
    slot manager's errors onto it, the advisory warning of an exhausted
    allocation, and the decoding of leases and references.  A formatted message
    is the list of its pieces: literal text, numbers and displayed values. *)

From Stdlib Require Import String.
From S2P Require Import Prelude Hex SlotState SlotManager.
Local Open Scope string_scope.
Local Open Scope list_scope.
Local Open Scope Z_scope.

(** tonic's codes, those the worker uses. *)
Inductive Code :=
| CodeCancelled | CodeInvalidArgument | CodeResourceExhausted | CodeFailedPrecondition
| CodeAborted | CodeUnimplemented | CodeInternal | CodeUnavailable | CodeDataLoss.
#[export] Instance Code_eq_dec : EqDecision Code.
Proof. solve_decision. Defined.

Inductive piece := Lit (s : string) | Num (z : Z) | Shown {A : Type} (a : A).

Record ErrorDetail := mkErrorDetail { ed_slot_id : nat; ed_icount : Z; ed_code : string }.
Record Status := mkStatus { st_code : Code; st_message : list piece; st_details : option ErrorDetail }.

Definition status (c : Code) (m : list piece) : Status := mkStatus c m None.
Definition invalid_argument (m : list piece) : Status := status CodeInvalidArgument m.
Definition failed_precondition (m : list piece) : Status := status CodeFailedPrecondition m.
Definition data_loss (m : list piece) : Status := status CodeDataLoss m.
Definition internal (m : list piece) : Status := status CodeInternal m.

(** A status quoted inside another message. *)
Definition quoted (s : Status) : list piece := Shown (st_code s) :: Lit ": " :: st_message s.

(** ** Slot errors *)

Definition slot_error_id (e : SlotError) : option nat :=
  match e with
  | NoSuchSlot slot | StaleLease slot | LeaseExpired slot | LiveChildren slot _ | CowChildCannotFork slot
  | ZeroChildFork slot => Some slot
  | State _ | NoFreeSlot | NotEnoughCores _ _ | DuplicateCore _ => None
  end.

Definition slot_error_code (e : SlotError) : string :=
  match e with
  | NoSuchSlot _ => "no_such_slot"
  | State _ => "slot_state"
  | StaleLease _ => "stale_lease"
  | LeaseExpired _ => "lease_expired"
  | LiveChildren _ _ => "live_children"
  | CowChildCannotFork _ => "cow_child_cannot_fork"
  | ZeroChildFork _ => "zero_child_fork"
  | NoFreeSlot => "no_free_slot"
  | NotEnoughCores _ _ => "not_enough_cores"
  | DuplicateCore _ => "duplicate_core"
  end.

Definition slot_error_status_code (e : SlotError) : Code :=
  match e with
  | NoFreeSlot | NotEnoughCores _ _ => CodeResourceExhausted
  | ZeroChildFork _ | DuplicateCore _ => CodeInvalidArgument
  | NoSuchSlot _ | State _ | StaleLease _ | LeaseExpired _ | LiveChildren _ _ | CowChildCannotFork _ => CodeFailedPrecondition
  end.

Definition slot_error_to_status (e : SlotError) : Status :=
  mkStatus (slot_error_status_code e) [Shown e]
    (Some (mkErrorDetail (default 0%nat (slot_error_id e)) 0 (slot_error_code e))).

(** ** The warning of an exhausted allocation *)

Record PossibleOrphanSlots := mkOrphans { shared_icount : Z; orphan_slots : list (nat * option bytes) }.

Definition possible_orphan_slots (error : SlotError) (infos : list SlotInfo) : option PossibleOrphanSlots :=
  match error with
  | NoFreeSlot =>
      first ← head infos;
      if existsb (fun i => negb (bool_decide (si_state i = Paused)) || negb (si_icount i =? si_icount first)) infos then None
      else Some (mkOrphans (si_icount first) ((fun i => (si_slot_id i, si_base_snapshot_id i)) <$> infos))
  | _ => None
  end.

Definition lowercase_hex (b : bytes) : string := hex_string b.

Definition orphan_text (slot : nat * option bytes) : list piece :=
  [Lit "{slot_id="; Num (Z.of_nat slot.1); Lit ",base_snapshot_id=";
   Lit (match slot.2 with Some id => lowercase_hex id | None => "none" end); Lit "}"].
Fixpoint joined (l : list (list piece)) : list piece :=
  match l with [] => [] | [x] => x | x :: l => x ++ Lit "," :: joined l end.
Definition possible_orphan_warning (signature : PossibleOrphanSlots) : list piece :=
  Lit "WARN: possible orphaned slots after NoFreeSlot: shared_icount=" :: Num (shared_icount signature) :: Lit " slots=["
  :: joined (orphan_text <$> orphan_slots signature)
  ++ [Lit "]; advisory signature may also be legitimate same-boundary fan-out; leak_class=rom-operator-bridge-72o"].

(** The status, and the line the sink is given. *)
Definition allocation_error_to_status_with_sink (m : SlotManager) (error : SlotError) : Status * option (list piece) :=
  (slot_error_to_status error, possible_orphan_warning <$> possible_orphan_slots error (list_slots m)).
Definition allocation_error_to_status (m : SlotManager) (error : SlotError) : Status :=
  (allocation_error_to_status_with_sink m error).1.

(** ** Decoding *)

Record WireLease := mkWireLease { wl_slot_id : nat; wl_token : bytes }.

(** [try_into] of a byte vector to an array. *)
Definition exact_bytes (n : nat) (e : Status) (b : bytes) : outcome Status bytes :=
  if (length b =? n)%nat then Ok b else Err e.

Definition lease_from_proto (l : option WireLease) : outcome Status Lease :=
  l ← ok_or (invalid_argument [Lit "missing lease"]) l;
  t ← exact_bytes 16 (invalid_argument [Lit "lease token must be 16 bytes"]) (wl_token l);
  Ok (mkLease (wl_slot_id l) t).

Definition snapshot_ref_from_proto (snapshot : option bytes) : outcome Status bytes :=
  hash ← ok_or (invalid_argument [Lit "missing snapshot"]) snapshot;
  exact_bytes 32 (invalid_argument [Lit "snapshot hash must be 32 bytes"]) hash.

Definition log_id_from_bytes (b : bytes) : outcome Status bytes :=
  exact_bytes 32 (invalid_argument [Lit "input_log_id must be 32 bytes"]) b.

Definition entropy_seed_from_proto (field : string) (b : bytes) (allow_empty_continue : bool) : outcome Status (option bytes) :=
  if bool_decide (b = []) && allow_empty_continue then Ok None
  else seed ← exact_bytes 32 (invalid_argument [Lit field; Lit " must be 32 bytes"]) b; Ok (Some seed).

Definition unimplemented_status (method : string) : Status :=
  status CodeUnimplemented [Lit method; Lit " awaits real KVM/store runtime ownership in determinism-hypervisor-rfv"].
Definition unavailable_status (resource : string) : Status :=
  failed_precondition [Lit resource; Lit " is not configured for this WorkerService"].
