(* ===== verification/RuntimeTable.v ===== *)
(** * The runtime table: [dh-worker/src/runtime.rs], [RuntimeTable]

    One optional resource per slot id, behind one mutex: each method is one
    atomic step of the vector.  [insert_many] checks every entry before it
    writes the first one. *)

From Stdlib Require Import String.
From S2P Require Import Prelude Status.
Local Open Scope string_scope.
Local Open Scope list_scope.
Local Open Scope Z_scope.

Inductive RuntimeError :=
| RtNoSuchSlot (slot_id : nat)
| RtEmpty (slot_id : nat)
| RtOccupied (slot_id : nat).

Notation RuntimeTable T := (list (option T)).

Section Table.
Context {T : Type}.
Local Notation Table := (RuntimeTable T).

Definition RuntimeTable_new (slot_count : nat) : Table := replicate slot_count None.
Definition slot_count (t : Table) : nat := length t.
Definition occupied_count (t : Table) : nat := length (List.filter (fun o => bool_decide (is_Some o)) t).

Definition ensure_occupied (t : Table) (slot_id : nat) : outcome RuntimeError unit :=
  entry ← ok_or (RtNoSuchSlot slot_id) (t !! slot_id);
  _ ← ok_or (RtEmpty slot_id) entry;
  Ok tt.

Definition insert (slot_id : nat) (runtime : T) : method Table RuntimeError unit := fun t =>
  match t !! slot_id with
  | None => (Err (RtNoSuchSlot slot_id), t)
  | Some (Some _) => (Err (RtOccupied slot_id), t)
  | Some None => (Ok tt, <[slot_id := Some runtime]> t)
  end.

(** The checking pass over the ids, with the ids seen so far. *)
Fixpoint check_entries (t : Table) (seen : list nat) (ids : list nat) : outcome RuntimeError unit :=
  match ids with
  | [] => Ok tt
  | slot_id :: ids =>
      entry ← ok_or (RtNoSuchSlot slot_id) (t !! slot_id);
      if bool_decide (is_Some entry) || bool_decide (slot_id ∈ seen) then Err (RtOccupied slot_id)
      else check_entries t (slot_id :: seen) ids
  end.
Definition store_entries (runtimes : list (nat * T)) (t : Table) : Table :=
  foldl (fun t e => <[e.1 := Some e.2]> t) t runtimes.
Definition insert_many (runtimes : list (nat * T)) : method Table RuntimeError unit := fun t =>
  match check_entries t [] runtimes.*1 with
  | Ok _ => (Ok tt, store_entries runtimes t)
  | Err e => (Err e, t)
  | Panic => (Panic, t)
  end.

Definition take_runtime (slot_id : nat) : method Table RuntimeError T := fun t =>
  match t !! slot_id with
  | None => (Err (RtNoSuchSlot slot_id), t)
  | Some None => (Err (RtEmpty slot_id), t)
  | Some (Some runtime) => (Ok runtime, <[slot_id := None]> t)
  end.

(** [with]. *)
Definition get_runtime (t : Table) (slot_id : nat) : outcome RuntimeError T :=
  entry ← ok_or (RtNoSuchSlot slot_id) (t !! slot_id);
  ok_or (RtEmpty slot_id) entry.

(** [with_mut]. *)
Definition with_mut {R} (slot_id : nat) (f : T -> R * T) : method Table RuntimeError R := fun t =>
  match get_runtime t slot_id with
  | Ok runtime => let '(r, runtime) := f runtime in (Ok r, <[slot_id := Some runtime]> t)
  | Err e => (Err e, t)
  | Panic => (Panic, t)
  end.

(** ** What the methods do *)

Lemma insert_ok slot_id x t :
  t !! slot_id = Some None -> insert slot_id x t = (Ok tt, <[slot_id := Some x]> t).
Proof. intros H. unfold insert. by rewrite H. Qed.

Lemma take_ok slot_id x t :
  t !! slot_id = Some (Some x) -> take_runtime slot_id t = (Ok x, <[slot_id := None]> t).
Proof. intros H. unfold take_runtime. by rewrite H. Qed.

Lemma insert_take slot_id x t :
  t !! slot_id = Some (Some x) -> insert slot_id x (<[slot_id := None]> t) = (Ok tt, t).
Proof.
  intros H. pose proof (lookup_lt_Some _ _ _ H).
  rewrite insert_ok by by rewrite list_lookup_insert_eq.
  by rewrite list_insert_insert_eq, list_insert_id.
Qed.

Lemma take_insert slot_id x t :
  t !! slot_id = Some None -> take_runtime slot_id (<[slot_id := Some x]> t) = (Ok x, t).
Proof.
  intros H. pose proof (lookup_lt_Some _ _ _ H).
  rewrite (take_ok _ x) by by rewrite list_lookup_insert_eq.
  by rewrite list_insert_insert_eq, list_insert_id.
Qed.

Lemma check_entries_ok t seen ids :
  check_entries t seen ids = Ok tt <-> Forall (fun i => t !! i = Some None) ids /\ NoDup ids /\ (forall i, i ∈ ids -> i ∉ seen).
Proof.
  revert seen; induction ids as [|i ids IH]; intros seen; simpl.
  { split; [intros _; repeat split; [constructor..|set_solver]|done]. }
  destruct (t !! i) as [o|] eqn:Hi; simpl; cycle 1.
  { split; [done|]. intros [H _]. inversion H; congruence. }
  rewrite Forall_cons, NoDup_cons.
  destruct (bool_decide (is_Some o)) eqn:Ho; simpl.
  { apply bool_decide_eq_true in Ho as [x ->]. split; [done|]. intros [[H _] _]. congruence. }
  apply bool_decide_eq_false, eq_None_not_Some in Ho as ->.
  destruct (bool_decide (i ∈ seen)) eqn:Hs.
  { apply bool_decide_eq_true in Hs. split; [done|]. intros (_&_&H). by destruct (H i ltac:(left)). }
  apply bool_decide_eq_false in Hs. rewrite IH. set_solver.
Qed.

Lemma store_entries_lookup runtimes t i :
  NoDup runtimes.*1 -> Forall (fun i => (i < length t)%nat) runtimes.*1 ->
  store_entries runtimes t !! i =
    match list_find (fun e => e.1 = i) runtimes with Some (_, e) => Some (Some e.2) | None => t !! i end.
Proof.
  revert t; induction runtimes as [|[j x] l IH]; intros t; [done|].
  cbn [fmap list_fmap fst]. rewrite NoDup_cons, Forall_cons. intros [Hn Hd] [Hj Hl].
  unfold store_entries. cbn [foldl fst snd]. fold (store_entries l (<[j:=Some x]> t)).
  rewrite IH by (try done; by rewrite length_insert). cbn [list_find].
  destruct (decide ((j, x).1 = i)) as [<-|Hne]; cbn [fst snd] in *.
  - destruct (list_find _ l) as [[k [j' y]]|] eqn:Hf.
    + apply list_find_Some in Hf as (Hk&E&_). simpl in E. subst.
      destruct Hn. apply list_elem_of_fmap. exists (j, y). split; [done|]. by eapply list_elem_of_lookup_2.
    + by rewrite list_lookup_insert_eq.
  - rewrite list_lookup_insert_ne by done. by destruct (list_find _ l) as [[k [j' y]]|].
Qed.

Lemma insert_many_cases runtimes t :
  (exists e, insert_many runtimes t = (Err e, t)) \/
  (Forall (fun i => t !! i = Some None) runtimes.*1 /\ NoDup runtimes.*1 /\
   insert_many runtimes t = (Ok tt, store_entries runtimes t)).
Proof.
  unfold insert_many. destruct (check_entries t [] runtimes.*1) as [[]|e|] eqn:Hc.
  - right. apply check_entries_ok in Hc as (?&?&_). done.
  - left. by exists e.
  - exfalso. revert Hc. generalize (@nil nat). induction runtimes.*1 as [|i ids IH]; intros seen; simpl; [done|].
    destruct (t !! i); simpl; [|done]. case_match; [done|]. apply IH.
Qed.
End Table.

Definition runtime_error_slot (e : RuntimeError) : nat :=
  match e with RtNoSuchSlot i | RtEmpty i | RtOccupied i => i end.
Definition runtime_error_code (e : RuntimeError) : string :=
  match e with
  | RtNoSuchSlot _ => "runtime_no_such_slot"
  | RtEmpty _ => "runtime_missing"
  | RtOccupied _ => "runtime_occupied"
  end.
Definition runtime_error_to_status (e : RuntimeError) : Status :=
  mkStatus CodeFailedPrecondition [Shown e] (Some (mkErrorDetail (runtime_error_slot e) 0 (runtime_error_code e))).
