(* ===== verification/Lapic.v ===== *)
(** * The local APIC: [dh-vmm/src/lapic.rs]

    The xAPIC register file, its MSR and MMIO surface, interrupt acceptance and
    end-of-interrupt, and the conversion to and from the LAPC snapshot section. *)

From Stdlib Require Import String.
From S2P Require Import Prelude DhSnapSections.

Definition MSR_IA32_APIC_BASE : Z := 0x1B.
Definition MSR_X2APIC_BASE : Z := 0x800.
Definition MSR_X2APIC_END : Z := 0x8FF.

Definition XAPIC_MMIO_BASE : Z := 0xfee00000.
Definition XAPIC_MMIO_LEN : Z := 0x1000.
Definition APIC_BASE_BSP : Z := Z.shiftl 1 8.
Definition APIC_BASE_X2APIC : Z := Z.shiftl 1 10.
Definition APIC_BASE_ENABLE : Z := Z.shiftl 1 11.
Definition APIC_BASE_ADDR_MASK : Z := 0x000ffffffffff000.
Definition RESET_APIC_BASE_MSR : Z := Z.lor (Z.lor XAPIC_MMIO_BASE APIC_BASE_BSP) APIC_BASE_ENABLE.

Definition REG_ID : Z := 0x20.
Definition REG_VERSION : Z := 0x30.
Definition REG_TPR : Z := 0x80.
Definition REG_APR : Z := 0x90.
Definition REG_PPR : Z := 0xa0.
Definition REG_EOI : Z := 0xb0.
Definition REG_LDR : Z := 0xd0.
Definition REG_DFR : Z := 0xe0.
Definition REG_SVR : Z := 0xf0.
Definition REG_ISR_BASE : Z := 0x100.
Definition REG_ISR_END : Z := 0x170.
Definition REG_TMR_BASE : Z := 0x180.
Definition REG_TMR_END : Z := 0x1f0.
Definition REG_IRR_BASE : Z := 0x200.
Definition REG_IRR_END : Z := 0x270.
Definition REG_ESR : Z := 0x280.
Definition REG_ICR_LOW : Z := 0x300.
Definition REG_ICR_HIGH : Z := 0x310.
Definition REG_LVT_TIMER : Z := 0x320.
Definition REG_LVT_THERMAL : Z := 0x330.
Definition REG_LVT_PERF : Z := 0x340.
Definition REG_LVT_LINT0 : Z := 0x350.
Definition REG_LVT_LINT1 : Z := 0x360.
Definition REG_LVT_ERROR : Z := 0x370.
Definition REG_TIMER_INITIAL : Z := 0x380.
Definition REG_TIMER_CURRENT : Z := 0x390.
Definition REG_TIMER_DIVIDE : Z := 0x3e0.

Definition APIC_VERSION : Z := Z.lor (Z.shiftl 5 16) 0x14.
Definition SVR_SOFTWARE_ENABLE : Z := Z.shiftl 1 8.
Definition LVT_MASKED : Z := Z.shiftl 1 16.

Record LocalApic := mkLocalApic {
  la_apic_base_msr : Z; la_id : Z; la_tpr : Z; la_ldr : Z; la_dfr : Z; la_svr : Z;
  la_isr : list Z; la_tmr : list Z; la_irr : list Z;
  la_esr : Z; la_icr_low : Z; la_icr_high : Z;
  la_lvt_timer : Z; la_lvt_thermal : Z; la_lvt_perf : Z; la_lvt_lint0 : Z; la_lvt_lint1 : Z; la_lvt_error : Z;
  la_timer_initial : Z; la_timer_divide : Z }.

Definition LocalApic_default : LocalApic :=
  {| la_apic_base_msr := RESET_APIC_BASE_MSR;
     la_id := 0; la_tpr := 0; la_ldr := 0; la_dfr := 0xffffffff; la_svr := 0xff;
     la_isr := replicate 8 0; la_tmr := replicate 8 0; la_irr := replicate 8 0;
     la_esr := 0; la_icr_low := 0; la_icr_high := 0;
     la_lvt_timer := LVT_MASKED; la_lvt_thermal := LVT_MASKED; la_lvt_perf := LVT_MASKED;
     la_lvt_lint0 := LVT_MASKED; la_lvt_lint1 := LVT_MASKED; la_lvt_error := LVT_MASKED;
     la_timer_initial := 0; la_timer_divide := 0 |}.

Inductive LapicError :=
| BadAccess (offset : Z) (len : nat)
| X2ApicUnsupported
| UnsupportedApicBase (value : Z)
| UnsupportedTimer (offset value : Z)
| UnsupportedIcr (offset value : Z)
| MalformedSnapshot (what : string)
| InterruptsDisabled
| BadVector (vector : Z).

(** Field stores. *)
Definition set_apic_base_msr (v : Z) (a : LocalApic) : LocalApic :=
  mkLocalApic v (la_id a) (la_tpr a) (la_ldr a) (la_dfr a) (la_svr a) (la_isr a) (la_tmr a) (la_irr a)
    (la_esr a) (la_icr_low a) (la_icr_high a) (la_lvt_timer a) (la_lvt_thermal a) (la_lvt_perf a)
    (la_lvt_lint0 a) (la_lvt_lint1 a) (la_lvt_error a) (la_timer_initial a) (la_timer_divide a).
Definition set_tpr (v : Z) (a : LocalApic) : LocalApic :=
  mkLocalApic (la_apic_base_msr a) (la_id a) v (la_ldr a) (la_dfr a) (la_svr a) (la_isr a) (la_tmr a)
    (la_irr a) (la_esr a) (la_icr_low a) (la_icr_high a) (la_lvt_timer a) (la_lvt_thermal a)
    (la_lvt_perf a) (la_lvt_lint0 a) (la_lvt_lint1 a) (la_lvt_error a) (la_timer_initial a)
    (la_timer_divide a).
Definition set_ldr (v : Z) (a : LocalApic) : LocalApic :=
  mkLocalApic (la_apic_base_msr a) (la_id a) (la_tpr a) v (la_dfr a) (la_svr a) (la_isr a) (la_tmr a)
    (la_irr a) (la_esr a) (la_icr_low a) (la_icr_high a) (la_lvt_timer a) (la_lvt_thermal a)
    (la_lvt_perf a) (la_lvt_lint0 a) (la_lvt_lint1 a) (la_lvt_error a) (la_timer_initial a)
    (la_timer_divide a).
Definition set_dfr (v : Z) (a : LocalApic) : LocalApic :=
  mkLocalApic (la_apic_base_msr a) (la_id a) (la_tpr a) (la_ldr a) v (la_svr a) (la_isr a) (la_tmr a)
    (la_irr a) (la_esr a) (la_icr_low a) (la_icr_high a) (la_lvt_timer a) (la_lvt_thermal a)
    (la_lvt_perf a) (la_lvt_lint0 a) (la_lvt_lint1 a) (la_lvt_error a) (la_timer_initial a)
    (la_timer_divide a).
Definition set_svr (v : Z) (a : LocalApic) : LocalApic :=
  mkLocalApic (la_apic_base_msr a) (la_id a) (la_tpr a) (la_ldr a) (la_dfr a) v (la_isr a) (la_tmr a)
    (la_irr a) (la_esr a) (la_icr_low a) (la_icr_high a) (la_lvt_timer a) (la_lvt_thermal a)
    (la_lvt_perf a) (la_lvt_lint0 a) (la_lvt_lint1 a) (la_lvt_error a) (la_timer_initial a)
    (la_timer_divide a).
Definition set_isr (v : list Z) (a : LocalApic) : LocalApic :=
  mkLocalApic (la_apic_base_msr a) (la_id a) (la_tpr a) (la_ldr a) (la_dfr a) (la_svr a) v (la_tmr a)
    (la_irr a) (la_esr a) (la_icr_low a) (la_icr_high a) (la_lvt_timer a) (la_lvt_thermal a)
    (la_lvt_perf a) (la_lvt_lint0 a) (la_lvt_lint1 a) (la_lvt_error a) (la_timer_initial a)
    (la_timer_divide a).
Definition set_irr (v : list Z) (a : LocalApic) : LocalApic :=
  mkLocalApic (la_apic_base_msr a) (la_id a) (la_tpr a) (la_ldr a) (la_dfr a) (la_svr a) (la_isr a)
    (la_tmr a) v (la_esr a) (la_icr_low a) (la_icr_high a) (la_lvt_timer a) (la_lvt_thermal a)
    (la_lvt_perf a) (la_lvt_lint0 a) (la_lvt_lint1 a) (la_lvt_error a) (la_timer_initial a)
    (la_timer_divide a).
Definition set_esr (v : Z) (a : LocalApic) : LocalApic :=
  mkLocalApic (la_apic_base_msr a) (la_id a) (la_tpr a) (la_ldr a) (la_dfr a) (la_svr a) (la_isr a)
    (la_tmr a) (la_irr a) v (la_icr_low a) (la_icr_high a) (la_lvt_timer a) (la_lvt_thermal a)
    (la_lvt_perf a) (la_lvt_lint0 a) (la_lvt_lint1 a) (la_lvt_error a) (la_timer_initial a)
    (la_timer_divide a).
Definition set_icr_low (v : Z) (a : LocalApic) : LocalApic :=
  mkLocalApic (la_apic_base_msr a) (la_id a) (la_tpr a) (la_ldr a) (la_dfr a) (la_svr a) (la_isr a)
    (la_tmr a) (la_irr a) (la_esr a) v (la_icr_high a) (la_lvt_timer a) (la_lvt_thermal a) (la_lvt_perf
    a) (la_lvt_lint0 a) (la_lvt_lint1 a) (la_lvt_error a) (la_timer_initial a) (la_timer_divide a).
Definition set_icr_high (v : Z) (a : LocalApic) : LocalApic :=
  mkLocalApic (la_apic_base_msr a) (la_id a) (la_tpr a) (la_ldr a) (la_dfr a) (la_svr a) (la_isr a)
    (la_tmr a) (la_irr a) (la_esr a) (la_icr_low a) v (la_lvt_timer a) (la_lvt_thermal a) (la_lvt_perf
    a) (la_lvt_lint0 a) (la_lvt_lint1 a) (la_lvt_error a) (la_timer_initial a) (la_timer_divide a).
Definition set_lvt_timer (v : Z) (a : LocalApic) : LocalApic :=
  mkLocalApic (la_apic_base_msr a) (la_id a) (la_tpr a) (la_ldr a) (la_dfr a) (la_svr a) (la_isr a)
    (la_tmr a) (la_irr a) (la_esr a) (la_icr_low a) (la_icr_high a) v (la_lvt_thermal a) (la_lvt_perf a)
    (la_lvt_lint0 a) (la_lvt_lint1 a) (la_lvt_error a) (la_timer_initial a) (la_timer_divide a).
Definition set_lvt_thermal (v : Z) (a : LocalApic) : LocalApic :=
  mkLocalApic (la_apic_base_msr a) (la_id a) (la_tpr a) (la_ldr a) (la_dfr a) (la_svr a) (la_isr a)
    (la_tmr a) (la_irr a) (la_esr a) (la_icr_low a) (la_icr_high a) (la_lvt_timer a) v (la_lvt_perf a)
    (la_lvt_lint0 a) (la_lvt_lint1 a) (la_lvt_error a) (la_timer_initial a) (la_timer_divide a).
Definition set_lvt_perf (v : Z) (a : LocalApic) : LocalApic :=
  mkLocalApic (la_apic_base_msr a) (la_id a) (la_tpr a) (la_ldr a) (la_dfr a) (la_svr a) (la_isr a)
    (la_tmr a) (la_irr a) (la_esr a) (la_icr_low a) (la_icr_high a) (la_lvt_timer a) (la_lvt_thermal a)
    v (la_lvt_lint0 a) (la_lvt_lint1 a) (la_lvt_error a) (la_timer_initial a) (la_timer_divide a).
Definition set_lvt_lint0 (v : Z) (a : LocalApic) : LocalApic :=
  mkLocalApic (la_apic_base_msr a) (la_id a) (la_tpr a) (la_ldr a) (la_dfr a) (la_svr a) (la_isr a)
    (la_tmr a) (la_irr a) (la_esr a) (la_icr_low a) (la_icr_high a) (la_lvt_timer a) (la_lvt_thermal a)
    (la_lvt_perf a) v (la_lvt_lint1 a) (la_lvt_error a) (la_timer_initial a) (la_timer_divide a).
Definition set_lvt_lint1 (v : Z) (a : LocalApic) : LocalApic :=
  mkLocalApic (la_apic_base_msr a) (la_id a) (la_tpr a) (la_ldr a) (la_dfr a) (la_svr a) (la_isr a)
    (la_tmr a) (la_irr a) (la_esr a) (la_icr_low a) (la_icr_high a) (la_lvt_timer a) (la_lvt_thermal a)
    (la_lvt_perf a) (la_lvt_lint0 a) v (la_lvt_error a) (la_timer_initial a) (la_timer_divide a).
Definition set_lvt_error (v : Z) (a : LocalApic) : LocalApic :=
  mkLocalApic (la_apic_base_msr a) (la_id a) (la_tpr a) (la_ldr a) (la_dfr a) (la_svr a) (la_isr a)
    (la_tmr a) (la_irr a) (la_esr a) (la_icr_low a) (la_icr_high a) (la_lvt_timer a) (la_lvt_thermal a)
    (la_lvt_perf a) (la_lvt_lint0 a) (la_lvt_lint1 a) v (la_timer_initial a) (la_timer_divide a).
Definition set_timer_initial (v : Z) (a : LocalApic) : LocalApic :=
  mkLocalApic (la_apic_base_msr a) (la_id a) (la_tpr a) (la_ldr a) (la_dfr a) (la_svr a) (la_isr a)
    (la_tmr a) (la_irr a) (la_esr a) (la_icr_low a) (la_icr_high a) (la_lvt_timer a) (la_lvt_thermal a)
    (la_lvt_perf a) (la_lvt_lint0 a) (la_lvt_lint1 a) (la_lvt_error a) v (la_timer_divide a).
Definition set_timer_divide (v : Z) (a : LocalApic) : LocalApic :=
  mkLocalApic (la_apic_base_msr a) (la_id a) (la_tpr a) (la_ldr a) (la_dfr a) (la_svr a) (la_isr a)
    (la_tmr a) (la_irr a) (la_esr a) (la_icr_low a) (la_icr_high a) (la_lvt_timer a) (la_lvt_thermal a)
    (la_lvt_perf a) (la_lvt_lint0 a) (la_lvt_lint1 a) (la_lvt_error a) (la_timer_initial a) v.

(** ** Vector bitmaps: eight 32-bit words *)

Definition vector_word (vector : Z) : nat * Z := (Z.to_nat (vector / 32), Z.shiftl 1 (vector mod 32)).
Definition word_at (words : list Z) (i : nat) : Z := default 0 (words !! i).
Definition set_vector (words : list Z) (vector : Z) : list Z :=
  let '(word, bit) := vector_word vector in <[word := Z.lor (word_at words word) bit]> words.
Definition clear_vector (words : list Z) (vector : Z) : list Z :=
  let '(word, bit) := vector_word vector in <[word := Z.ldiff (word_at words word) bit]> words.
Definition vector_is_set (words : list Z) (vector : Z) : bool :=
  let '(word, bit) := vector_word vector in negb (Z.land (word_at words word) bit =? 0).

(** [(32u8..=255).rev()] *)
Definition vectors_desc : list Z := reverse (seqZ 32 224).

(** ** Registers *)

Definition is_lapic_msr (index : Z) : bool :=
  (index =? MSR_IA32_APIC_BASE) || ((MSR_X2APIC_BASE <=? index) && (index <=? MSR_X2APIC_END)).
Definition contains_mmio (gpa : Z) : bool :=
  (XAPIC_MMIO_BASE <=? gpa) && (gpa <? XAPIC_MMIO_BASE + XAPIC_MMIO_LEN).

Definition read_msr (a : LocalApic) (index : Z) : outcome LapicError Z :=
  if index =? MSR_IA32_APIC_BASE then Ok (la_apic_base_msr a)
  else if (MSR_X2APIC_BASE <=? index) && (index <=? MSR_X2APIC_END) then Err X2ApicUnsupported
  else Err (BadAccess index 8).

Definition write_apic_base_msr (value : Z) : method LocalApic LapicError unit := fun a =>
  if negb (Z.land value APIC_BASE_X2APIC =? 0) then (Err X2ApicUnsupported, a)
  else
    let base := Z.land value APIC_BASE_ADDR_MASK in
    if negb (base =? XAPIC_MMIO_BASE) then (Err (UnsupportedApicBase value), a)
    else (Ok tt, set_apic_base_msr (Z.lor (Z.lor base APIC_BASE_BSP) (Z.land value APIC_BASE_ENABLE)) a).

Definition write_msr (index value : Z) : method LocalApic LapicError unit := fun a =>
  if index =? MSR_IA32_APIC_BASE then write_apic_base_msr value a
  else if (MSR_X2APIC_BASE <=? index) && (index <=? MSR_X2APIC_END) then (Err X2ApicUnsupported, a)
  else (Err (BadAccess index 8), a).

Definition accept_interrupt (vector : Z) : method LocalApic LapicError unit := fun a =>
  if vector <? 32 then (Err (BadVector vector), a)
  else if (Z.land (la_apic_base_msr a) APIC_BASE_ENABLE =? 0) || (Z.land (la_svr a) SVR_SOFTWARE_ENABLE =? 0)
  then (Err InterruptsDisabled, a)
  else (Ok tt, set_irr (set_vector (la_irr a) vector) a).

Definition next_pending_interrupt (a : LocalApic) : option Z * LocalApic :=
  let min_priority := Z.land (la_tpr a) 0xf0 in
  match List.find (fun vector => negb (Z.land vector 0xf0 <=? min_priority) && vector_is_set (la_irr a) vector)
          vectors_desc with
  | Some vector =>
      (Some vector, set_isr (set_vector (la_isr a) vector) (set_irr (clear_vector (la_irr a) vector) a))
  | None => (None, a)
  end.

Definition eoi (a : LocalApic) : LocalApic :=
  match List.find (vector_is_set (la_isr a)) vectors_desc with
  | Some vector => set_isr (clear_vector (la_isr a) vector) a
  | None => a
  end.

(** The register word of a range, indexed at 16-byte strides. *)
Definition bank_word (words : list Z) (off base : Z) : outcome LapicError Z :=
  match words !! Z.to_nat ((off - base) / 0x10) with Some w => Ok w | None => Panic end.

Definition read_reg32 (a : LocalApic) (off : Z) : outcome LapicError Z :=
  if off =? REG_ID then Ok (to_u32 (Z.shiftl (la_id a) 24))
  else if off =? REG_VERSION then Ok APIC_VERSION
  else if off =? REG_TPR then Ok (la_tpr a)
  else if (off =? REG_APR) || (off =? REG_PPR) then Ok 0
  else if off =? REG_LDR then Ok (la_ldr a)
  else if off =? REG_DFR then Ok (la_dfr a)
  else if off =? REG_SVR then Ok (la_svr a)
  else if (REG_ISR_BASE <=? off) && (off <=? REG_ISR_END) then bank_word (la_isr a) off REG_ISR_BASE
  else if (REG_TMR_BASE <=? off) && (off <=? REG_TMR_END) then bank_word (la_tmr a) off REG_TMR_BASE
  else if (REG_IRR_BASE <=? off) && (off <=? REG_IRR_END) then bank_word (la_irr a) off REG_IRR_BASE
  else if off =? REG_ESR then Ok (la_esr a)
  else if off =? REG_ICR_LOW then Ok (la_icr_low a)
  else if off =? REG_ICR_HIGH then Ok (la_icr_high a)
  else if off =? REG_LVT_TIMER then Ok (la_lvt_timer a)
  else if off =? REG_LVT_THERMAL then Ok (la_lvt_thermal a)
  else if off =? REG_LVT_PERF then Ok (la_lvt_perf a)
  else if off =? REG_LVT_LINT0 then Ok (la_lvt_lint0 a)
  else if off =? REG_LVT_LINT1 then Ok (la_lvt_lint1 a)
  else if off =? REG_LVT_ERROR then Ok (la_lvt_error a)
  else if (off =? REG_TIMER_INITIAL) || (off =? REG_TIMER_CURRENT) then Ok 0
  else if off =? REG_TIMER_DIVIDE then Ok (la_timer_divide a)
  else Ok 0.

Definition write_reg32 (off value : Z) : method LocalApic LapicError unit := fun a =>
  if (off =? REG_ID) || (off =? REG_VERSION) || (off =? REG_APR) || (off =? REG_PPR) ||
     (off =? REG_TIMER_CURRENT) then (Ok tt, a)
  else if off =? REG_TPR then (Ok tt, set_tpr (Z.land value 0xff) a)
  else if off =? REG_EOI then (Ok tt, eoi a)
  else if off =? REG_LDR then (Ok tt, set_ldr value a)
  else if off =? REG_DFR then (Ok tt, set_dfr value a)
  else if off =? REG_SVR then (Ok tt, set_svr value a)
  else if off =? REG_ESR then (Ok tt, set_esr 0 a)
  else if (off =? REG_ICR_LOW) || (off =? REG_ICR_HIGH) then
    if negb (value =? 0) then (Err (UnsupportedIcr off value), a)
    else if off =? REG_ICR_LOW then (Ok tt, set_icr_low 0 a) else (Ok tt, set_icr_high 0 a)
  else if off =? REG_LVT_TIMER then (Ok tt, set_lvt_timer (Z.lor value LVT_MASKED) a)
  else if off =? REG_LVT_THERMAL then (Ok tt, set_lvt_thermal value a)
  else if off =? REG_LVT_PERF then (Ok tt, set_lvt_perf value a)
  else if off =? REG_LVT_LINT0 then (Ok tt, set_lvt_lint0 value a)
  else if off =? REG_LVT_LINT1 then (Ok tt, set_lvt_lint1 value a)
  else if off =? REG_LVT_ERROR then (Ok tt, set_lvt_error value a)
  else if off =? REG_TIMER_INITIAL then (Ok tt, set_timer_initial 0 a)
  else if off =? REG_TIMER_DIVIDE then (Ok tt, set_timer_divide value a)
  else (Ok tt, a).

Definition checked_mmio_offset (gpa : Z) (len : nat) : outcome LapicError Z :=
  if negb ((len =? 4)%nat || (len =? 8)%nat) || negb (contains_mmio gpa)
  then Err (BadAccess (saturating_sub gpa XAPIC_MMIO_BASE) len)
  else
    let off := gpa - XAPIC_MMIO_BASE in
    if negb (off mod Z.of_nat len =? 0) || (XAPIC_MMIO_LEN <? off + Z.of_nat len)
    then Err (BadAccess off len)
    else Ok off.

Definition read_le32 (data : bytes) : Z := of_le (take 4 data).
Definition write_le (len : nat) (value : Z) : bytes := put 0 (le_bytes 4 value) (replicate len 0).

(** [read_mmio] returns the buffer of [len] bytes it fills. *)
Definition read_mmio (a : LocalApic) (gpa : Z) (len : nat) : outcome LapicError bytes :=
  off ← checked_mmio_offset gpa len;
  value ← (if off mod 0x10 =? 0 then read_reg32 a off else Ok 0);
  Ok (write_le len value).

Definition write_mmio (gpa : Z) (data : bytes) : method LocalApic LapicError unit := fun a =>
  match checked_mmio_offset gpa (length data) with
  | Ok off => if negb (off mod 0x10 =? 0) then (Ok tt, a) else write_reg32 off (read_le32 data) a
  | Err e => (Err e, a)
  | Panic => (Panic, a)
  end.

(** ** The LAPC section *)

Definition to_lapc_section (a : LocalApic) : LapcSection :=
  mkLapcSection (la_apic_base_msr a) (la_id a) (la_tpr a) (la_ldr a) (la_dfr a) (la_svr a) (la_isr a)
    (la_tmr a) (la_irr a) (la_esr a) (la_icr_low a) (la_icr_high a) (la_lvt_timer a) (la_lvt_thermal a)
    (la_lvt_perf a) (la_lvt_lint0 a) (la_lvt_lint1 a) (la_lvt_error a) (la_timer_initial a)
    (la_timer_divide a).
Definition of_section (s : LapcSection) : LocalApic :=
  mkLocalApic (apic_base_msr s) (id s) (tpr s) (ldr s) (dfr s) (svr s) (isr s) (tmr s) (irr s) (esr s)
    (icr_low s) (icr_high s) (lvt_timer s) (lvt_thermal s) (lvt_perf s) (lvt_lint0 s) (lvt_lint1 s)
    (lvt_error s) (timer_initial s) (timer_divide s).

Definition from_lapc_section (s : LapcSection) : outcome LapicError LocalApic :=
  let apic_base := apic_base_msr s in
  if negb (Z.land apic_base APIC_BASE_X2APIC =? 0)
  then Err (MalformedSnapshot "x2APIC mode is not persisted")
  else if negb (Z.land apic_base APIC_BASE_ADDR_MASK =? XAPIC_MMIO_BASE)
  then Err (MalformedSnapshot "APIC base address is not xAPIC")
  else if negb (Z.ldiff apic_base (Z.lor (Z.lor APIC_BASE_ADDR_MASK APIC_BASE_BSP) APIC_BASE_ENABLE) =? 0)
  then Err (MalformedSnapshot "APIC base has unsupported bits")
  else if Z.land apic_base APIC_BASE_BSP =? 0
  then Err (MalformedSnapshot "BSP bit must remain set")
  else if Z.land (lvt_timer s) LVT_MASKED =? 0
  then Err (MalformedSnapshot "unmasked lAPIC timer")
  else if negb (timer_initial s =? 0)
  then Err (MalformedSnapshot "armed lAPIC timer")
  else if negb (icr_low s =? 0) || negb (icr_high s =? 0)
  then Err (MalformedSnapshot "pending ICR delivery")
  else Ok (of_section s).

(** ** Invariant *)

(** What a snapshot may hold: the fixed base, a masked and stopped timer, no
    delivery pending. *)
Record persistable (s : LapcSection) : Prop := {
  p_wf : lapc_wf s;
  p_base : apic_base_msr s = RESET_APIC_BASE_MSR \/ apic_base_msr s = Z.lor XAPIC_MMIO_BASE APIC_BASE_BSP;
  p_masked : Z.land (lvt_timer s) LVT_MASKED <> 0;
  p_stopped : timer_initial s = 0;
  p_icr : icr_low s = 0 /\ icr_high s = 0 }.
Definition lapic_ok (a : LocalApic) : Prop := persistable (to_lapc_section a).

(** The calls the run loop makes on the APIC. *)
Inductive lapic_call :=
| LWriteMsr (index value : Z)
| LWriteMmio (gpa : Z) (data : bytes)
| LAccept (vector : Z)
| LNextPending
| LEoi.
Definition lapic_call_wf (c : lapic_call) : Prop :=
  match c with
  | LWriteMsr index value => u32 index /\ u64 value
  | LWriteMmio gpa data => u64 gpa /\ bytes_ok data
  | LAccept v => u8 v
  | LNextPending | LEoi => True
  end.
Definition lapic_step (c : lapic_call) (a : LocalApic) : outcome LapicError unit * LocalApic :=
  match c with
  | LWriteMsr i v => write_msr i v a
  | LWriteMmio g d => write_mmio g d a
  | LAccept v => accept_interrupt v a
  | LNextPending => (Ok tt, (next_pending_interrupt a).2)
  | LEoi => (Ok tt, eoi a)
  end.
Definition lapic_run (cs : list lapic_call) (a : LocalApic) : LocalApic :=
  foldl (fun a c => (lapic_step c a).2) a cs.

(** ** Bits *)

Lemma land_pow2_cases v n : 0 <= n -> Z.land v (2 ^ n) = 0 \/ Z.land v (2 ^ n) = 2 ^ n.
Proof.
  intros Hn. destruct (Z.testbit v n) eqn:Hb; [right|left]; apply Z.bits_inj'; intros i Hi;
    rewrite Z.land_spec, ?Z.bits_0, Z.pow2_bits_eqb by done;
    destruct (Z.eqb_spec n i) as [->|]; rewrite ?Hb, ?andb_false_r; done.
Qed.
Lemma land_pow2_zero v n : 0 <= n -> (Z.land v (2 ^ n) =? 0) = negb (Z.testbit v n).
Proof. intros Hn. by rewrite <- Z.shiftl_1_l, <- land_bit, negb_involutive by done. Qed.

(** ** Bitmaps as sets of vectors *)

Definition bit_of (words : list Z) (v : Z) : bool := Z.testbit (word_at words (Z.to_nat (v / 32))) (v mod 32).

Lemma vector_is_set_bit words v : 0 <= v -> vector_is_set words v = bit_of words v.
Proof.
  intros Hv. unfold vector_is_set, vector_word, bit_of. rewrite Z.shiftl_1_l.
  rewrite land_pow2_zero by (apply Z.mod_pos_bound; lia). apply negb_involutive.
Qed.
Lemma same_word v u : 0 <= v -> 0 <= u -> Z.to_nat (v / 32) = Z.to_nat (u / 32) -> v mod 32 = u mod 32 -> v = u.
Proof. intros. rewrite (Z.div_mod v 32), (Z.div_mod u 32) by lia. assert (v / 32 = u / 32) by lia. congruence. Qed.

Lemma bit_of_insert words v u x :
  length words = 8%nat -> 0 <= v < 256 -> 0 <= u ->
  bit_of (<[Z.to_nat (v / 32) := x]> words) u =
  if decide (Z.to_nat (v / 32) = Z.to_nat (u / 32)) then Z.testbit x (u mod 32) else bit_of words u.
Proof.
  intros Hl Hv Hu. unfold bit_of, word_at. case_decide as Hd.
  - rewrite Hd, list_lookup_insert_eq; [done|]. rewrite <- Hd, Hl. lia.
  - by rewrite list_lookup_insert_ne.
Qed.
Lemma bit_of_set words v u :
  length words = 8%nat -> 0 <= v < 256 -> 0 <= u ->
  bit_of (set_vector words v) u = (v =? u) || bit_of words u.
Proof.
  intros Hl Hv Hu. unfold set_vector, vector_word. rewrite bit_of_insert by done.
  rewrite Z.shiftl_1_l. case_decide as Hd.
  - rewrite Z.lor_spec, Z.pow2_bits_eqb by (apply Z.mod_pos_bound; lia). unfold bit_of. rewrite Hd.
    destruct (Z.eqb_spec (v mod 32) (u mod 32)) as [Hm|Hm].
    + rewrite (same_word v u), Z.eqb_refl by (done || lia). by rewrite orb_true_r.
    + rewrite (proj2 (Z.eqb_neq v u)) by congruence. by rewrite orb_false_r.
  - by rewrite (proj2 (Z.eqb_neq v u)) by congruence.
Qed.
Lemma bit_of_clear words v u :
  length words = 8%nat -> 0 <= v < 256 -> 0 <= u ->
  bit_of (clear_vector words v) u = negb (v =? u) && bit_of words u.
Proof.
  intros Hl Hv Hu. unfold clear_vector, vector_word. rewrite bit_of_insert by done.
  rewrite Z.shiftl_1_l. case_decide as Hd.
  - rewrite Z.ldiff_spec, Z.pow2_bits_eqb by (apply Z.mod_pos_bound; lia). unfold bit_of. rewrite Hd.
    destruct (Z.eqb_spec (v mod 32) (u mod 32)) as [Hm|Hm].
    + rewrite (same_word v u), Z.eqb_refl by (done || lia). by rewrite andb_false_r.
    + rewrite (proj2 (Z.eqb_neq v u)) by congruence. by rewrite andb_true_r.
  - by rewrite (proj2 (Z.eqb_neq v u)) by congruence.
Qed.

Lemma word_at_u32 words i : u32_array 8 words -> u32 (word_at words i).
Proof.
  intros [_ H]. unfold word_at. destruct (words !! i) as [w|] eqn:Hw; cbn; [|ulia].
  by apply (Forall_lookup_1 _ _ _ _ H Hw).
Qed.
Lemma set_vector_array words v : u32_array 8 words -> 0 <= v < 256 -> u32_array 8 (set_vector words v).
Proof.
  intros Ha Hv. pose proof Ha as [Hl Hf]. unfold set_vector, vector_word. split; [by rewrite length_insert|].
  apply Forall_insert; [done|]. unfold u32. rewrite Z.shiftl_1_l. apply (lor_bound 32); [lia|by apply word_at_u32|].
  pose proof (Z.mod_pos_bound v 32 ltac:(lia)). split; [lia|]. apply Z.pow_lt_mono_r; lia.
Qed.
Lemma clear_vector_array words v : u32_array 8 words -> u32_array 8 (clear_vector words v).
Proof.
  intros Ha. pose proof Ha as [Hl Hf]. unfold clear_vector, vector_word. split; [by rewrite length_insert|].
  apply Forall_insert; [done|]. apply (ldiff_bound 32); [lia|by apply word_at_u32].
Qed.

(** The downward scan finds the largest vector. *)
Lemma find_desc f a n :
  match List.find f (reverse (seqZ a (Z.of_nat n))) with
  | Some v => a <= v < a + Z.of_nat n /\ f v = true /\ forall u, v < u < a + Z.of_nat n -> f u = false
  | None => forall u, a <= u < a + Z.of_nat n -> f u = false
  end.
Proof.
  induction n as [|n IH]; [rewrite seqZ_nil by lia; cbn; intros; lia|].
  replace (Z.of_nat (S n)) with (Z.of_nat n + 1) by lia.
  rewrite seqZ_app by lia. rewrite reverse_app, seqZ_cons, (seqZ_nil _ (Z.pred 1)) by lia.
  rewrite reverse_singleton. cbn [app List.find]. destruct (f (a + Z.of_nat n)) eqn:Hf.
  - split_and!; [lia|lia|done|lia].
  - destruct (List.find _ _) as [v|].
    + destruct IH as (H1 & H2 & H3). split_and!; [lia|lia|done|]. intros u Hu.
      destruct (decide (u = a + Z.of_nat n)) as [->|]; [done|]. apply H3. lia.
    + intros u Hu. destruct (decide (u = a + Z.of_nat n)) as [->|]; [done|]. apply IH. lia.
Qed.
Lemma find_vectors f :
  match List.find f vectors_desc with
  | Some v => 32 <= v < 256 /\ f v = true /\ forall u, v < u < 256 -> f u = false
  | None => forall u, 32 <= u < 256 -> f u = false
  end.
Proof. exact (find_desc f 32 224). Qed.

(** ** Preservation *)

Lemma masked_lor v : Z.land (Z.lor v LVT_MASKED) LVT_MASKED <> 0.
Proof.
  intros H. apply (f_equal (fun z => Z.testbit z 16)) in H. rewrite Z.land_spec, Z.lor_spec in H.
  change (Z.testbit LVT_MASKED 16) with true in H. by rewrite orb_true_r in H.
Qed.
Lemma eoi_ok a : lapic_ok a -> lapic_ok (eoi a).
Proof.
  intros Ha. unfold eoi. pose proof (find_vectors (vector_is_set (la_isr a))) as H.
  destruct (List.find _ _) as [v|]; [|done]. destruct Ha as [Hw Hb Hm Hs Hi]. split; try done.
  unfold lapc_wf in *. cbn in *. destruct_and!. split_and!; try done. by apply clear_vector_array.
Qed.
Lemma next_pending_ok a : lapic_ok a -> lapic_ok (next_pending_interrupt a).2.
Proof.
  intros Ha. unfold next_pending_interrupt. cbv zeta.
  match goal with |- context [List.find ?f _] => pose proof (find_vectors f) as H end.
  destruct (List.find _ _) as [v|]; [|done]. destruct Ha as [Hw Hb Hm Hs Hi]. split; try done.
  unfold lapc_wf in *. cbn in *. destruct_and!. split_and!; try done.
  - apply set_vector_array; [done|lia].
  - by apply clear_vector_array.
Qed.
Lemma accept_ok v a : u8 v -> lapic_ok a -> lapic_ok (accept_interrupt v a).2.
Proof.
  intros Hv Ha. unfold accept_interrupt. destruct (v <? 32); [done|]. destruct (_ || _); [done|].
  destruct Ha as [Hw Hb Hm Hs Hi]. split; try done.
  unfold lapc_wf in *. cbn in *. destruct_and!. split_and!; try done.
  apply set_vector_array; [done|ulia].
Qed.
Lemma write_apic_base_ok v a : lapic_ok a -> lapic_ok (write_apic_base_msr v a).2.
Proof.
  intros Ha. unfold write_apic_base_msr. destruct (negb _); [done|]. cbv zeta.
  destruct (Z.eqb_spec (Z.land v APIC_BASE_ADDR_MASK) XAPIC_MMIO_BASE) as [->|]; [|done]. cbn [negb snd].
  assert (let b := Z.lor (Z.lor XAPIC_MMIO_BASE APIC_BASE_BSP) (Z.land v APIC_BASE_ENABLE) in
    b = RESET_APIC_BASE_MSR \/ b = Z.lor XAPIC_MMIO_BASE APIC_BASE_BSP) as Hb.
  { cbv zeta. change APIC_BASE_ENABLE with (2 ^ 11).
    destruct (land_pow2_cases v 11 ltac:(lia)) as [->| ->]; [right|left]; reflexivity. }
  cbv zeta in Hb. destruct Ha as [Hw _ Hm Hs Hi]. split; try done.
  unfold lapc_wf in *. cbn [la_apic_base_msr set_apic_base_msr to_lapc_section apic_base_msr] in *.
  destruct_and!. split_and!; try done; destruct Hb as [->| ->]; vm_compute; done.
Qed.

Lemma write_reg32_ok off v a : u32 v -> lapic_ok a -> lapic_ok (write_reg32 off v a).2.
Proof.
  intros Hv Ha. unfold write_reg32.
  repeat match goal with |- lapic_ok (snd (if ?c then _ else _)) => destruct c end;
    cbn [snd]; try done; try (by apply eoi_ok);
    destruct Ha as [Hw Hb Hm Hs Hi]; split; cbn in *; try done; try (by apply masked_lor);
    try (unfold lapc_wf in *; cbn in *; destruct_and!; split_and!; try done; ulia).
  - unfold lapc_wf in *; cbn in *; destruct_and!; split_and!; try done.
    all: pose proof (land_bound 8 0xff v); rewrite Z.land_comm; ulia.
  - unfold lapc_wf in *; cbn in *; destruct_and!; split_and!; try done.
    all: apply (lor_bound 32); [lia|done|]; unfold LVT_MASKED; vm_compute; done.
Qed.

Lemma from_lapc_iff s a :
  lapc_wf s -> from_lapc_section s = Ok a <-> persistable s /\ a = of_section s.
Proof.
  intros Hw. unfold from_lapc_section. cbv zeta. set (b := apic_base_msr s) in *. split.
  - destruct (Z.land b APIC_BASE_X2APIC =? 0) eqn:H1; cbn [negb]; [|done].
    destruct (Z.eqb_spec (Z.land b APIC_BASE_ADDR_MASK) XAPIC_MMIO_BASE) as [H2|]; cbn [negb]; [|done].
    destruct (Z.eqb_spec (Z.ldiff b (Z.lor (Z.lor APIC_BASE_ADDR_MASK APIC_BASE_BSP) APIC_BASE_ENABLE)) 0)
      as [H3|]; cbn [negb]; [|done].
    destruct (Z.eqb_spec (Z.land b APIC_BASE_BSP) 0) as [|H4]; [done|].
    destruct (Z.eqb_spec (Z.land (lvt_timer s) LVT_MASKED) 0) as [|H5]; [done|].
    destruct (Z.eqb_spec (timer_initial s) 0) as [H6|]; cbn [negb]; [|done].
    destruct (Z.eqb_spec (icr_low s) 0) as [H7|]; cbn [negb orb]; [|done].
    destruct (Z.eqb_spec (icr_high s) 0) as [H8|]; cbn [negb]; [|done].
    intros H; simplify_eq. split; [|done]. split; try done.
    pose proof (Z.lor_ldiff_and b (Z.lor (Z.lor APIC_BASE_ADDR_MASK APIC_BASE_BSP) APIC_BASE_ENABLE)) as Hb.
    rewrite H3, Z.lor_0_l, !Z.land_lor_distr_r, H2 in Hb. fold b. rewrite <- Hb.
    change APIC_BASE_BSP with (2 ^ 8) in *. change APIC_BASE_ENABLE with (2 ^ 11).
    destruct (land_pow2_cases b 8 ltac:(lia)) as [X| ->]; [congruence|].
    destruct (land_pow2_cases b 11 ltac:(lia)) as [->| ->]; [right|left]; reflexivity.
  - intros [[_ Hb Hm Hs [Hi1 Hi2]] ->]. rewrite Hs, Hi1, Hi2, (proj2 (Z.eqb_neq _ _) Hm).
    fold b in Hb. destruct Hb as [->| ->]; reflexivity.
Qed.
Lemma of_to_section a : of_section (to_lapc_section a) = a.
Proof. by destruct a. Qed.
Lemma to_of_section s : to_lapc_section (of_section s) = s.
Proof. by destruct s. Qed.

Lemma lapic_default_ok : lapic_ok LocalApic_default.
Proof.
  assert (Forall u32 (replicate 8 0)) by (apply Forall_replicate; ulia).
  split; [|by left|by vm_compute|done|done].
  unfold lapc_wf, to_lapc_section, LocalApic_default. cbn [apic_base_msr id tpr ldr dfr svr isr tmr irr esr
    icr_low icr_high lvt_timer lvt_thermal lvt_perf lvt_lint0 lvt_lint1 lvt_error timer_initial timer_divide
    la_apic_base_msr la_id la_tpr la_ldr la_dfr la_svr la_isr la_tmr la_irr la_esr la_icr_low la_icr_high
    la_lvt_timer la_lvt_thermal la_lvt_perf la_lvt_lint0 la_lvt_lint1 la_lvt_error la_timer_initial la_timer_divide].
  split_and!; try done; try (split; vm_compute; done).
Qed.

Lemma lapic_step_ok c a : lapic_call_wf c -> lapic_ok a -> lapic_ok (lapic_step c a).2.
Proof.
  destruct c; cbn [lapic_step lapic_call_wf]; intros Hw Ha.
  - unfold write_msr. repeat case_match; cbn [snd]; try done; by apply write_apic_base_ok.
  - unfold write_mmio. destruct (checked_mmio_offset _ _); try done. destruct (negb _); [done|].
    apply write_reg32_ok; [|done]. destruct Hw as [_ Hd]. unfold read_le32.
    pose proof (of_le_bound (take 4 data) ltac:(by apply Forall_take)) as Hb.
    unfold u32. split; [lia|]. eapply Z.lt_le_trans; [apply Hb|].
    change (2 ^ 32) with (256 ^ 4). apply Z.pow_le_mono_r; [lia|]. rewrite length_take. lia.
  - by apply accept_ok.
  - by apply next_pending_ok.
  - by apply eoi_ok.
Qed.
Lemma lapic_run_ok cs a : Forall lapic_call_wf cs -> lapic_ok a -> lapic_ok (lapic_run cs a).
Proof.
  revert a. induction cs as [|c cs IH]; intros a Hf Ha; cbn; [done|].
  apply Forall_cons in Hf as [? ?]. apply IH; [done|]. by apply lapic_step_ok.
Qed.

Lemma lapic_lengths a :
  lapic_ok a -> length (la_isr a) = 8%nat /\ length (la_tmr a) = 8%nat /\ length (la_irr a) = 8%nat.
Proof. intros [(_ & _ & _ & _ & _ & _ & [? _] & [? _] & [? _] & _) _ _ _ _]. done. Qed.

Lemma read_reg32_total a off : lapic_ok a -> off mod 16 = 0 -> exists v, read_reg32 a off = Ok v.
Proof.
  intros Ha Hm. destruct (lapic_lengths a Ha) as (H1 & H2 & H3).
  assert (forall words base, length words = 8%nat -> base <= off <= base + 0x70 ->
    exists v, bank_word words off base = Ok v) as Hbank.
  { intros words base Hl Hr. unfold bank_word.
    destruct (lookup_lt_is_Some_2 words (Z.to_nat ((off - base) / 16))) as [v ->]; [|by eexists].
    rewrite Hl. lia. }
  unfold read_reg32.
  repeat match goal with |- exists v, (if ?c then _ else _) = _ =>
    let E := fresh "E" in destruct c eqn:E; [try (by eexists)|] end; try (by eexists);
  apply Hbank; try done; unfold REG_ISR_BASE, REG_ISR_END, REG_TMR_BASE, REG_TMR_END, REG_IRR_BASE, REG_IRR_END in *; lia.
Qed.

(** ** Properties *)

(** C38: the APIC is snapshot-complete.  Whatever the guest writes to its MSR
    and MMIO registers and whatever interrupts it takes, starting from reset,
    the state stays inside what a snapshot may hold (timer masked and stopped,
    no ICR delivery pending, the base fixed): its LAPC section encodes,
    decodes and restores to exactly the same state. *)
Theorem lapic_snapshot_complete cs :
  Forall lapic_call_wf cs ->
  let a := lapic_run cs LocalApic_default in
  persistable (to_lapc_section a) /\
  LapcSection_decode (LapcSection_encode (to_lapc_section a)) LapcSection_VERSION = Ok (to_lapc_section a) /\
  from_lapc_section (to_lapc_section a) = Ok a.
Proof.
  intros Hcs a. assert (lapic_ok a) as Ha by (apply lapic_run_ok; [done|apply lapic_default_ok]).
  split_and!; [done|apply lapc_encode_decode, Ha|].
  apply from_lapc_iff; [apply Ha|]. by rewrite of_to_section.
Qed.

(** Restoring a section succeeds exactly on the persistable ones, and gives
    back that section. *)
Theorem lapic_restore_exact s :
  lapc_wf s ->
  (persistable s -> exists a, from_lapc_section s = Ok a /\ to_lapc_section a = s /\ lapic_ok a) /\
  (~ persistable s -> exists what, from_lapc_section s = Err (MalformedSnapshot what)).
Proof.
  intros Hw. split.
  - intros Hp. exists (of_section s). rewrite to_of_section. unfold lapic_ok. rewrite to_of_section.
    split_and!; try done. by apply from_lapc_iff.
  - intros Hp. destruct (from_lapc_section s) as [a|e|] eqn:H.
    + by apply from_lapc_iff in H as [? _].
    + revert H. unfold from_lapc_section. repeat case_match; naive_solver.
    + revert H. unfold from_lapc_section. repeat case_match; naive_solver.
Qed.

(** Interrupts refine sets of vectors.  On a well-formed APIC the request
    and in-service bitmaps are sets of vectors: an accepted vector joins the
    requests, and is refused exactly when it is below 32 or the APIC is
    disabled; delivery picks the largest requested vector whose priority class
    is above the task priority and moves it to in-service, and finds none only
    if there is none; end of interrupt drops the largest in-service vector. *)
Theorem lapic_interrupts_refine_sets a :
  lapic_ok a ->
  let enabled := negb (Z.land (la_apic_base_msr a) APIC_BASE_ENABLE =? 0) &&
                 negb (Z.land (la_svr a) SVR_SOFTWARE_ENABLE =? 0) in
  let deliverable u := bit_of (la_irr a) u && (Z.land (la_tpr a) 0xf0 <? Z.land u 0xf0) in
  (forall v, u8 v ->
    let '(r, a') := accept_interrupt v a in
    (r = Ok tt <-> 32 <= v /\ enabled = true) /\ (r <> Ok tt -> a' = a) /\
    (r = Ok tt -> forall u, 0 <= u < 256 ->
      bit_of (la_irr a') u = (v =? u) || bit_of (la_irr a) u /\ bit_of (la_isr a') u = bit_of (la_isr a) u)) /\
  match next_pending_interrupt a with
  | (Some v, a') =>
      32 <= v < 256 /\ deliverable v = true /\ (forall u, v < u < 256 -> deliverable u = false) /\
      forall u, 0 <= u < 256 ->
        bit_of (la_irr a') u = negb (v =? u) && bit_of (la_irr a) u /\
        bit_of (la_isr a') u = (v =? u) || bit_of (la_isr a) u
  | (None, a') => a' = a /\ forall u, 32 <= u < 256 -> deliverable u = false
  end /\
  (forall v, 32 <= v < 256 -> bit_of (la_isr a) v = true ->
    (forall u, v < u < 256 -> bit_of (la_isr a) u = false) ->
    forall u, 0 <= u < 256 -> bit_of (la_isr (eoi a)) u = negb (v =? u) && bit_of (la_isr a) u) /\
  ((forall u, 32 <= u < 256 -> bit_of (la_isr a) u = false) -> eoi a = a).
Proof.
  intros Ha enabled deliverable. destruct (lapic_lengths a Ha) as (Hisr & _ & Hirr).
  split_and!.
  - intros v Hv. unfold accept_interrupt.
    destruct (Z.ltb_spec v 32); [split_and!; [|done..]; naive_solver lia|].
    subst enabled. rewrite <- negb_orb. destruct (_ || _) eqn:He; cbn [negb].
    + split_and!; [naive_solver|done..].
    + split_and!; [naive_solver|done|]. intros _ u Hu. split; [|done]. cbn. apply bit_of_set; ulia.
  - unfold next_pending_interrupt. cbv zeta.
    match goal with |- context [List.find ?f _] => pose proof (find_vectors f) as H; set (g := f) in * end.
    assert (forall u, 0 <= u -> g u = deliverable u) as Hg.
    { intros u Hu. unfold g, deliverable. rewrite vector_is_set_bit, andb_comm by done. f_equal.
      destruct (Z.leb_spec (Z.land u 240) (Z.land (la_tpr a) 240)); cbn; lia. }
    destruct (List.find g vectors_desc) as [v|].
    + destruct H as (Hv & Hgv & Hmax). rewrite Hg in Hgv by lia. split_and!; [lia|lia|done| |].
      * intros u Hu. rewrite <- Hg by lia. by apply Hmax.
      * intros u Hu. cbn. split; [apply bit_of_clear|apply bit_of_set]; done || lia.
    + split; [done|]. intros u Hu. rewrite <- Hg by lia. by apply H.
  - intros v Hv Hb Hmax u Hu. unfold eoi. pose proof (find_vectors (vector_is_set (la_isr a))) as H.
    destruct (List.find _ _) as [w|].
    + destruct H as (Hw' & Hwb & Hwmax). rewrite vector_is_set_bit in Hwb by lia.
      assert (w = v) as ->.
      { destruct (Z.lt_trichotomy w v) as [Hlt|[->|Hlt]]; [|done|].
        - specialize (Hwmax v ltac:(lia)). rewrite vector_is_set_bit in Hwmax by lia. congruence.
        - specialize (Hmax w ltac:(lia)). congruence. }
      cbn. apply bit_of_clear; done || lia.
    + specialize (H v Hv). rewrite vector_is_set_bit in H by lia. congruence.
  - intros Hnone. unfold eoi. pose proof (find_vectors (vector_is_set (la_isr a))) as H.
    destruct (List.find _ _) as [w|]; [|done]. destruct H as (Hw' & Hwb & _).
    rewrite vector_is_set_bit in Hwb by lia. rewrite Hnone in Hwb by done. done.
Qed.

(** The MMIO surface is total.  An access of 4 or 8 bytes, aligned to its
    size and inside the page, always reads and, unless it writes a nonzero
    value to the ICR, always writes; any other access is a [BadAccess] and
    changes nothing.  Reads never change state, neither access panics, and the
    bytes off the 16-byte register grid read as zero and ignore writes. *)
Theorem lapic_mmio_total a gpa :
  lapic_ok a -> u64 gpa ->
  let off := gpa - XAPIC_MMIO_BASE in
  let good len := (len = 4%nat \/ len = 8%nat) /\ 0 <= off /\ off + Z.of_nat len <= XAPIC_MMIO_LEN /\
                  off mod Z.of_nat len = 0 in
  (forall len, good len -> exists b, read_mmio a gpa len = Ok b /\ length b = len /\
     (off mod 16 <> 0 -> b = replicate len 0)) /\
  (forall len, ~ good len -> exists o, read_mmio a gpa len = Err (BadAccess o len)) /\
  (forall data, good (length data) ->
     let icr := (off = REG_ICR_LOW \/ off = REG_ICR_HIGH) /\ read_le32 data <> 0 in
     (icr -> write_mmio gpa data a = (Err (UnsupportedIcr off (read_le32 data)), a)) /\
     (~ icr -> (write_mmio gpa data a).1 = Ok tt) /\
     (off mod 16 <> 0 -> (write_mmio gpa data a).2 = a)) /\
  (forall data, ~ good (length data) ->
     exists o, write_mmio gpa data a = (Err (BadAccess o (length data)), a)).
Proof.
  intros Ha Hg off good.
  assert (forall len, good len -> checked_mmio_offset gpa len = Ok off) as Hgood.
  { intros len (Hlen & H0 & H1 & H2). unfold checked_mmio_offset, contains_mmio.
    assert ((XAPIC_MMIO_BASE <=? gpa) = true) as -> by (apply Z.leb_le; unfold off in *; lia).
    assert ((gpa <? XAPIC_MMIO_BASE + XAPIC_MMIO_LEN) = true) as -> by (apply Z.ltb_lt; unfold off in *; lia).
    cbv zeta. fold off. rewrite H2, (proj2 (Z.ltb_ge _ _)) by lia. by destruct Hlen as [->| ->]. }
  assert (forall len, ~ good len -> exists o, checked_mmio_offset gpa len = Err (BadAccess o len)) as Hbad.
  { intros len Hb. unfold checked_mmio_offset, contains_mmio. destruct (_ || _) eqn:E; [by eexists|].
    cbv zeta. fold off.
    match goal with |- exists o, (if ?c then _ else _) = _ => destruct c eqn:E2 end; [by eexists|].
    destruct Hb. unfold good.
    apply orb_false_iff in E2 as [E2 E3]. apply negb_false_iff, Z.eqb_eq in E2.
    rewrite E2. unfold off in *. clear E2. lia. }
  split_and!.
  - intros len Hl. unfold read_mmio. rewrite (Hgood _ Hl). cbn [mbind outcome_bind].
    assert (4 <= len)%nat as Hlen4 by (destruct Hl as [[->| ->] _]; lia).
    destruct (Z.eqb_spec (off mod 16) 0) as [Hm|Hm].
    + destruct (read_reg32_total a off Ha Hm) as [v ->]. eexists. split; [done|]. split; [|done].
      unfold write_le. rewrite length_put; by rewrite length_replicate, ?length_le_bytes.
    + eexists. split; [done|]. unfold write_le. split.
      * rewrite length_put; by rewrite length_replicate, ?length_le_bytes.
      * intros _. replace len with (4 + (len - 4))%nat by lia. by rewrite replicate_add.
  - intros len Hb. destruct (Hbad len Hb) as [o Ho]. exists o. unfold read_mmio. by rewrite Ho.
  - intros data Hd icr. unfold write_mmio. rewrite (Hgood _ Hd). split_and!.
    + intros [Hoff Hv]. assert (off mod 16 = 0) as Hm by (destruct Hoff as [->| ->]; done).
      rewrite Hm. unfold write_reg32. destruct Hoff as [->| ->]; cbn - [read_le32];
        by rewrite (proj2 (Z.eqb_neq _ _) Hv).
    + intros Hicr. destruct (off mod 16 =? 0); [|done]. cbn [negb]. unfold write_reg32.
      repeat match goal with |- fst (if ?c then _ else _) = _ =>
        let E := fresh "E" in destruct c eqn:E; [try done|] end; try done.
      all: repeat match goal with |- fst (if ?c then _ else _) = _ =>
        let E := fresh "E" in destruct c eqn:E; [try done|] end; try done.
      destruct Hicr. unfold icr. lia.
    + intros Hm. by rewrite (proj2 (Z.eqb_neq _ _) Hm).
  - intros data Hb. destruct (Hbad _ Hb) as [o Ho]. exists o. unfold write_mmio. by rewrite Ho.
Qed.

Definition ex_calls : list lapic_call :=
  [LWriteMmio 0xfee000f0 [0xff; 1; 0; 0]; LAccept 0x41; LAccept 0x90; LNextPending;
   LWriteMmio 0xfee00320 [0x20; 0; 2; 0]].
Lemma ex_calls_wf : Forall lapic_call_wf ex_calls.
Proof.
  repeat apply Forall_cons_2; try apply Forall_nil_2; cbn; try ulia; try done.
  - split; [ulia|]. by apply bytes_okb_ok.
  - split; [ulia|]. by apply bytes_okb_ok.
Qed.
Lemma ex_apic_ok : lapic_ok (lapic_run ex_calls LocalApic_default).
Proof. apply lapic_run_ok; [apply ex_calls_wf|apply lapic_default_ok]. Qed.

Lemma lapic_snapshot_complete_witness :
  from_lapc_section (to_lapc_section (lapic_run ex_calls LocalApic_default)) =
  Ok (lapic_run ex_calls LocalApic_default).
Proof. apply (lapic_snapshot_complete ex_calls). exact ex_calls_wf. Defined.
Lemma lapic_restore_exact_witness :
  exists a, from_lapc_section (to_lapc_section LocalApic_default) = Ok a.
Proof.
  destruct (lapic_restore_exact (to_lapc_section LocalApic_default)) as [H _].
  - apply lapic_default_ok.
  - destruct (H lapic_default_ok) as (a & Ha & _). by exists a.
Defined.
Lemma lapic_interrupts_refine_sets_witness :
  let a := lapic_run ex_calls LocalApic_default in
  (next_pending_interrupt a).1 = Some 0x41 /\ bit_of (la_isr a) 0x90 = true /\
  bit_of (la_isr (eoi a)) 0x90 = false.
Proof.
  intros a. split; [vm_compute; reflexivity|]. split; [vm_compute; reflexivity|].
  destruct (lapic_interrupts_refine_sets a) as (_ & _ & He & _).
  - exact ex_apic_ok.
  - rewrite (He 0x90).
    + reflexivity.
    + lia.
    + vm_compute. reflexivity.
    + intros u Hu. pose proof (find_vectors (vector_is_set (la_isr a))) as Hf.
      vm_compute in Hf. destruct Hf as (_ & _ & Hmax). rewrite <- vector_is_set_bit by lia.
      exact (Hmax u Hu).
    + lia.
Defined.
Lemma lapic_mmio_total_witness :
  exists b, read_mmio (lapic_run ex_calls LocalApic_default) 0xfee00320 4 = Ok b /\ length b = 4%nat.
Proof.
  destruct (lapic_mmio_total (lapic_run ex_calls LocalApic_default) 0xfee00320) as (H & _).
  - exact ex_apic_ok.
  - ulia.
  - destruct (H 4%nat) as (b & Hb & Hl & _).
    + split; [by left|]. split; [by vm_compute|]. split; [by vm_compute|reflexivity].
    + exists b. split; assumption.
Defined.
