(* ===== verification/DevCtx.v ===== *)
(** * The device execution context: [dh-devices/src/ctx.rs], [lib.rs]

    Guest memory and the entropy stream are the source's traits [GuestMem] and
    [EntropySource]; [VecGuestMem] is the source's own implementation of the
    first.  The [log_*] wrappers stamp the context's boundary on every record
    and keep the first failure. *)

From S2P Require Import Prelude DhiLog.

(** A failed access may leave a buffer or the memory partly written, so both
    operations return it beside the success flag. *)
Class GuestMem (M : Type) := {
  mem_read : M -> Z -> bytes -> bool * bytes;
  mem_write : M -> Z -> bytes -> bool * M }.
Class GuestMemOk (M : Type) `{!GuestMem M} : Prop := {
  mem_read_length : forall m g b, length (mem_read m g b).2 = length b;
  mem_read_bytes : forall m g b, bytes_ok b -> bytes_ok (mem_read m g b).2 }.

Class EntropySource (E : Type) := fill : E -> nat -> bytes * E.
Class EntropySourceOk (E : Type) `{!EntropySource E} : Prop := {
  fill_length : forall e n, length (fill e n).1 = n;
  fill_bytes : forall e n, bytes_ok (fill e n).1 }.

(** [VecGuestMem]: a byte vector. *)
Definition VecGuestMem : Type := bytes.
Definition vec_in_range (m : bytes) (gpa : Z) (len : nat) : bool :=
  gpa + Z.of_nat len <=? Z.of_nat (length m).
Definition VecGuestMem_read (m : VecGuestMem) (gpa : Z) (data : bytes) : bool * bytes :=
  if vec_in_range m gpa (length data) then (true, slice (Z.to_nat gpa) (length data) m) else (false, data).
Definition VecGuestMem_write (m : VecGuestMem) (gpa : Z) (data : bytes) : bool * VecGuestMem :=
  if vec_in_range m gpa (length data) then (true, put (Z.to_nat gpa) data m) else (false, m).
#[export] Instance VecGuestMem_mem : GuestMem VecGuestMem :=
  { mem_read := VecGuestMem_read; mem_write := VecGuestMem_write }.

Record DevCtx (M E : Type) := mkDevCtx {
  ctx_icount : Z;
  ctx_boundary_rip : Z;
  ctx_log : LogWriter;
  ctx_mem : M;
  ctx_entropy : E;
  irq_queue : list Z;
  log_fault : option WriteError }.
Arguments mkDevCtx {M E}.
Arguments ctx_icount {M E}. Arguments ctx_boundary_rip {M E}. Arguments ctx_log {M E}.
Arguments ctx_mem {M E}. Arguments ctx_entropy {M E}. Arguments irq_queue {M E}. Arguments log_fault {M E}.

Section Ctx.
Context {M E : Type}.

Definition DevCtx_new (icount boundary_rip : Z) (log : LogWriter) (mem : M) (entropy : E)
    (irqs : list Z) : DevCtx M E :=
  mkDevCtx icount boundary_rip log mem entropy irqs None.

Definition with_mem (m : M) (c : DevCtx M E) : DevCtx M E :=
  mkDevCtx (ctx_icount c) (ctx_boundary_rip c) (ctx_log c) m (ctx_entropy c) (irq_queue c) (log_fault c).
Definition with_entropy (e : E) (c : DevCtx M E) : DevCtx M E :=
  mkDevCtx (ctx_icount c) (ctx_boundary_rip c) (ctx_log c) (ctx_mem c) e (irq_queue c) (log_fault c).

Definition request_irq (vector : Z) (c : DevCtx M E) : DevCtx M E :=
  mkDevCtx (ctx_icount c) (ctx_boundary_rip c) (ctx_log c) (ctx_mem c) (ctx_entropy c)
    (irq_queue c ++ [vector]) (log_fault c).

(** [record]: the log after a writer call, and the first failure. *)
Definition ctx_record (call : method LogWriter WriteError unit) (c : DevCtx M E) : DevCtx M E :=
  let '(r, w) := call (ctx_log c) in
  mkDevCtx (ctx_icount c) (ctx_boundary_rip c) w (ctx_mem c) (ctx_entropy c) (irq_queue c)
    (match r, log_fault c with Err e, None => Some e | _, f => f end).

Definition log_dev_event (device_id event_type : Z) (data : bytes) (c : DevCtx M E) : DevCtx M E :=
  ctx_record (dev_event (ctx_icount c) (ctx_boundary_rip c) device_id event_type data) c.
Definition log_pio_answer (port value : Z) (c : DevCtx M E) : DevCtx M E :=
  ctx_record (pio_answer (ctx_icount c) (ctx_boundary_rip c) port value) c.
Definition log_entropy (len digest8 : Z) (c : DevCtx M E) : DevCtx M E :=
  ctx_record (entropy (ctx_icount c) (ctx_boundary_rip c) len digest8) c.
Definition log_net_tx (len digest8 : Z) (c : DevCtx M E) : DevCtx M E :=
  ctx_record (net_tx (ctx_icount c) (ctx_boundary_rip c) len digest8) c.
Definition log_frame_mark (frame_index : Z) (c : DevCtx M E) : DevCtx M E :=
  ctx_record (frame_mark (ctx_icount c) (ctx_boundary_rip c) frame_index) c.
Definition log_sdk_event (stream len digest8 : Z) (c : DevCtx M E) : DevCtx M E :=
  ctx_record (sdk_event (ctx_icount c) (ctx_boundary_rip c) stream len digest8) c.
End Ctx.

(** ** The device contract *)

(** [DetDevice]: reads return the [n] bytes they fill the buffer with; a
    restore returns the device or [None] for [RestoreError], and sees guest
    memory, which a device may hold a handle to. *)
Class DetDevice (D M E : Type) := {
  device_id : D -> Z;
  section_version : D -> Z;
  mmio_read : Z -> nat -> D -> DevCtx M E -> bytes * D * DevCtx M E;
  mmio_write : Z -> bytes -> D -> DevCtx M E -> D * DevCtx M E;
  snapshot : D -> bytes;
  guest_ram_snapshot_ranges : D -> list (Z * Z);
  restore : M -> bytes -> Z -> D -> option D }.

(** What the contract promises its clients, for the states in [dev_wf]. *)
Class DetDeviceOk (D M E : Type) `{!DetDevice D M E} (dev_wf : D -> Prop) : Prop := {
  read_fills : forall off n d c, dev_wf d -> length (mmio_read off n d c).1.1 = n;
  read_pure : forall off n d c, (mmio_read off n d c).1.2 = d /\ (mmio_read off n d c).2 = c;
  write_wf : forall off data d c, dev_wf d -> bytes_ok data -> dev_wf (mmio_write off data d c).1;
  write_identity : forall off data d c,
    device_id (mmio_write off data d c).1 = device_id d /\
    section_version (mmio_write off data d c).1 = section_version d;
  write_ctx : forall off data d c,
    let c' := (mmio_write off data d c).2 in
    ctx_icount c' = ctx_icount c /\ ctx_boundary_rip c' = ctx_boundary_rip c /\ irq_queue c' = irq_queue c /\
    (log_fault c <> None -> log_fault c' = log_fault c);
  restore_snapshot : forall m d0 d, dev_wf d0 -> dev_wf d ->
    exists d', restore m (snapshot d) (section_version d) d0 = Some d' /\
               snapshot d' = snapshot d /\ dev_wf d' }.

(** ** The writer never panics, so the sticky fault sees every failure *)

Lemma record_no_panic k f i r p w : (record k f i r p w).1 <> Panic.
Proof. unfold record. repeat case_match; done. Qed.

Definition is_device_call (call : Z -> Z -> method LogWriter WriteError unit) : Prop :=
  (exists d t x, call = fun i r => dev_event i r d t x) \/ (exists p v, call = fun i r => pio_answer i r p v) \/
  (exists l d, call = fun i r => entropy i r l d) \/ (exists l d, call = fun i r => net_tx i r l d) \/
  (exists f, call = fun i r => frame_mark i r f) \/ (exists s l d, call = fun i r => sdk_event i r s l d).

Lemma device_call_no_panic call i r w : is_device_call call -> (call i r w).1 <> Panic.
Proof.
  intros [(d & t & x & ->)|[(p & v & ->)|[(l & d & ->)|[(l & d & ->)|[(f & ->)|(s & l & d & ->)]]]]];
    unfold pio_answer, dev_event; try case_match; try done; apply record_no_panic.
Qed.
