(* ===== verification/Devices.v ===== *)
(** * The register devices: [dh-devices/src/{clock,pad,entropy,net,serial}.rs]

    One Module per device: its state, its register handlers, its snapshot
    section, and the [DetDevice] instance. *)

From S2P Require Import Prelude Vt DhiLog DevCtx.

(** A read-only register of [n] bytes answers an access of exactly that size. *)
Definition zeros (n : nat) : bytes := replicate n 0.

Module Clock.
Definition DEVICE_ID_PV_CLOCK : Z := 0x0002.
Definition REG_VNS : Z := 0x08.
Definition REG_ICOUNT : Z := 0x10.
Definition REG_TIMER_DEADLINE : Z := 0x18.
Definition REG_TIMER_VECTOR : Z := 0x20.
Definition REG_FREQ_NUM : Z := 0x24.
Definition REG_FREQ_DEN : Z := 0x28.
Definition DEFAULT_TIMER_VECTOR : Z := 0x30.
Definition SECTION_VERSION : Z := 1.
Definition SECTION_LEN : nat := 12.

Record PvClock := mkPvClock {
  num : Z; den : Z; vns_base : Z; timer_deadline_vns : Z; timer_vector : Z }.
Definition PvClock_new (num den : Z) : PvClock := mkPvClock num den 0 0 DEFAULT_TIMER_VECTOR.
Definition set_vns_base (base : Z) (d : PvClock) : PvClock :=
  mkPvClock (num d) (den d) base (timer_deadline_vns d) (timer_vector d).
Definition set_timer_deadline (v : Z) (d : PvClock) : PvClock :=
  mkPvClock (num d) (den d) (vns_base d) v (timer_vector d).
Definition set_timer_vector (v : Z) (d : PvClock) : PvClock :=
  mkPvClock (num d) (den d) (vns_base d) (timer_deadline_vns d) v.

Definition vns (d : PvClock) (icount : Z) : Z :=
  let v := icount * num d / den d in
  saturating_add (vns_base d) (default u64_max (try_u64 v)).

Definition armed (d : PvClock) : option (Z * Z) :=
  if negb (timer_deadline_vns d =? 0) then Some (timer_deadline_vns d, timer_vector d mod 2 ^ 8) else None.
Definition disarm (d : PvClock) : PvClock := set_timer_deadline 0 d.

Definition serve_u64 (value off_in_reg : Z) (n : nat) : bytes :=
  let b := le_bytes 8 value in
  if (off_in_reg =? 0) && (n =? 8)%nat then b
  else if (off_in_reg =? 0) && (n =? 4)%nat then slice 0 4 b
  else if (off_in_reg =? 4) && (n =? 4)%nat then slice 4 4 b
  else zeros n.

Section Device.
Context {M E : Type}.
Definition read (off : Z) (n : nat) (d : PvClock) (c : DevCtx M E) : bytes :=
  if (off =? REG_VNS) || (off =? 0x0C) then serve_u64 (vns d (ctx_icount c)) (off - REG_VNS) n
  else if (off =? REG_ICOUNT) || (off =? 0x14) then serve_u64 (ctx_icount c) (off - REG_ICOUNT) n
  else if (off =? REG_TIMER_DEADLINE) || (off =? 0x1C)
  then serve_u64 (timer_deadline_vns d) (off - REG_TIMER_DEADLINE) n
  else if (off =? REG_TIMER_VECTOR) && (n =? 4)%nat then le_bytes 4 (timer_vector d)
  else if (off =? REG_FREQ_NUM) && (n =? 4)%nat then le_bytes 4 (num d)
  else if (off =? REG_FREQ_DEN) && (n =? 4)%nat then le_bytes 4 (den d)
  else zeros n.
Definition write (off : Z) (data : bytes) (d : PvClock) (c : DevCtx M E) : PvClock * DevCtx M E :=
  if (off =? REG_TIMER_DEADLINE) && (length data =? 8)%nat then (set_timer_deadline (of_le data) d, c)
  else if (off =? REG_TIMER_VECTOR) && (length data =? 4)%nat
  then (set_timer_vector (Z.land (of_le data) 0xFF) d, c)
  else (d, c).
End Device.

Definition save (d : PvClock) : bytes := le_bytes 8 (timer_deadline_vns d) ++ le_bytes 4 (timer_vector d).
Definition load (b : bytes) (sec_version : Z) (d : PvClock) : option PvClock :=
  if negb (sec_version =? SECTION_VERSION) || negb (length b =? SECTION_LEN)%nat then None
  else Some (set_timer_vector (of_le (slice 8 4 b)) (set_timer_deadline (of_le (slice 0 8 b)) d)).

#[export] Instance PvClock_device {M E} : DetDevice PvClock M E :=
  { device_id _ := DEVICE_ID_PV_CLOCK; section_version _ := SECTION_VERSION;
    mmio_read off n d c := (read off n d c, d, c); mmio_write := write; snapshot := save; guest_ram_snapshot_ranges _ := []; restore _ := load }.
End Clock.

Module Pad.
Definition DEVICE_ID_PV_PAD : Z := 0x0003.
Definition REG_PAD0 : Z := 0x08.
Definition REG_IRQ_VECTOR : Z := 0x18.
Definition REG_FRAME_COUNTER : Z := 0x1C.
Definition NUM_PORTS : nat := 4.
Definition SECTION_VERSION : Z := 1.
Definition SECTION_LEN : nat := 24.
Inductive PadError := BadPort.

Record PvPad := mkPvPad { latch : list Z; irq_vector : Z; frame_counter : Z }.
Definition PvPad_new : PvPad := mkPvPad (replicate NUM_PORTS 0) 0 0.

Definition apply_pad_set (port buttons : Z) (d : PvPad) : outcome PadError (option Z) * PvPad :=
  let idx := Z.to_nat port in
  if (NUM_PORTS <=? idx)%nat then (Err BadPort, d)
  else match latch d !! idx with
  | None => (Panic, d)
  | Some old =>
      let changed := negb (old =? buttons) in
      (Ok (if changed && negb (irq_vector d =? 0) then Some (irq_vector d mod 2 ^ 8) else None),
       mkPvPad (<[idx := buttons]> (latch d)) (irq_vector d) (frame_counter d))
  end.

Section Device.
Context {M E : Type}.
Definition read (off : Z) (n : nat) (d : PvPad) : bytes :=
  if negb (n =? 4)%nat then zeros n
  else
    let value :=
      if (off =? 0x08) || (off =? 0x0C) || (off =? 0x10) || (off =? 0x14)
      then default 0 (latch d !! Z.to_nat ((off - REG_PAD0) / 4))
      else if off =? REG_IRQ_VECTOR then irq_vector d
      else if off =? REG_FRAME_COUNTER then frame_counter d
      else 0 in
    le_bytes 4 value.
Definition write (off : Z) (data : bytes) (d : PvPad) (c : DevCtx M E) : PvPad * DevCtx M E :=
  if negb (length data =? 4)%nat then (d, c)
  else
    let value := of_le data in
    if off =? REG_IRQ_VECTOR then (mkPvPad (latch d) (Z.land value 0xFF) (frame_counter d), c)
    else if off =? REG_FRAME_COUNTER then (mkPvPad (latch d) (irq_vector d) value, log_frame_mark value c)
    else (d, c).
End Device.

Definition save (d : PvPad) : bytes :=
  mjoin (le_bytes 4 <$> latch d) ++ le_bytes 4 (irq_vector d) ++ le_bytes 4 (frame_counter d).
Definition load (b : bytes) (sec_version : Z) (d : PvPad) : option PvPad :=
  if negb (sec_version =? SECTION_VERSION) || negb (length b =? SECTION_LEN)%nat then None
  else Some (mkPvPad (map (fun i => of_le (slice (i * 4) 4 b)) (List.seq 0 NUM_PORTS))
               (of_le (slice 16 4 b)) (of_le (slice 20 4 b))).

#[export] Instance PvPad_device {M E} : DetDevice PvPad M E :=
  { device_id _ := DEVICE_ID_PV_PAD; section_version _ := SECTION_VERSION;
    mmio_read off n d c := (read off n d, d, c); mmio_write := write; snapshot := save; guest_ram_snapshot_ranges _ := []; restore _ := load }.
End Pad.

Module Entropy.
Definition DEVICE_ID_PV_ENTROPY : Z := 0x0004.
Definition REG_BUF_GPA : Z := 0x08.
Definition REG_LEN : Z := 0x10.
Definition REG_DOORBELL : Z := 0x14.
Definition REG_STATUS : Z := 0x18.
Definition STATUS_IDLE : Z := 0.
Definition STATUS_OK : Z := 1.
Definition STATUS_FAULT : Z := 2.
Definition MAX_FILL : Z := Z.shiftl 1 20.
Definition SECTION_VERSION : Z := 1.
Definition SECTION_LEN : nat := 16.

Record PvEntropy := mkPvEntropy { buf_gpa : Z; len : Z; status : Z }.
Definition PvEntropy_new : PvEntropy := mkPvEntropy 0 0 STATUS_IDLE.
Definition set_status (s : Z) (d : PvEntropy) : PvEntropy := mkPvEntropy (buf_gpa d) (len d) s.

Section Device.
Context {B : Blake3} {M E : Type} `{!GuestMem M, !EntropySource E}.
Definition doorbell (d : PvEntropy) (c : DevCtx M E) : PvEntropy * DevCtx M E :=
  if len d >? MAX_FILL then (set_status STATUS_FAULT d, c)
  else
    let '(bytes, e) := fill (ctx_entropy c) (Z.to_nat (len d)) in
    let '(ok, m) := mem_write (ctx_mem c) (buf_gpa d) bytes in
    let c := with_mem m (with_entropy e c) in
    if negb ok then (set_status STATUS_FAULT d, c)
    else (set_status STATUS_OK d, log_entropy (len d) (digest8 bytes) c).
Definition read (off : Z) (n : nat) (d : PvEntropy) : bytes :=
  if (off =? REG_BUF_GPA) && (n =? 8)%nat then le_bytes 8 (buf_gpa d)
  else if (off =? REG_LEN) && (n =? 4)%nat then le_bytes 4 (len d)
  else if (off =? REG_STATUS) && (n =? 4)%nat then le_bytes 4 (status d)
  else zeros n.
Definition write (off : Z) (data : bytes) (d : PvEntropy) (c : DevCtx M E) : PvEntropy * DevCtx M E :=
  if (off =? REG_BUF_GPA) && (length data =? 8)%nat then (mkPvEntropy (of_le data) (len d) (status d), c)
  else if (off =? REG_LEN) && (length data =? 4)%nat then (mkPvEntropy (buf_gpa d) (of_le data) (status d), c)
  else if (off =? REG_DOORBELL) && (length data =? 4)%nat then doorbell d c
  else (d, c).
End Device.

Definition save (d : PvEntropy) : bytes :=
  le_bytes 8 (buf_gpa d) ++ le_bytes 4 (len d) ++ le_bytes 4 (status d).
Definition load (b : bytes) (sec_version : Z) (d : PvEntropy) : option PvEntropy :=
  if negb (sec_version =? SECTION_VERSION) || negb (length b =? SECTION_LEN)%nat then None
  else Some (mkPvEntropy (of_le (slice 0 8 b)) (of_le (slice 8 4 b)) (of_le (slice 12 4 b))).

#[export] Instance PvEntropy_device {B : Blake3} {M E} `{!GuestMem M, !EntropySource E} : DetDevice PvEntropy M E :=
  { device_id _ := DEVICE_ID_PV_ENTROPY; section_version _ := SECTION_VERSION;
    mmio_read off n d c := (read off n d, d, c); mmio_write := write; snapshot := save; guest_ram_snapshot_ranges _ := []; restore _ := load }.
End Entropy.

Module Net.
Definition DEVICE_ID_PV_NET : Z := 0x0007.
Definition REG_TX_BUF_GPA : Z := 0x08.
Definition REG_TX_LEN : Z := 0x10.
Definition REG_TX_DOORBELL : Z := 0x14.
Definition REG_TX_STATUS : Z := 0x18.
Definition REG_RX_BUF_GPA : Z := 0x20.
Definition REG_RX_CAP : Z := 0x28.
Definition REG_RX_LEN : Z := 0x2C.
Definition REG_RX_VECTOR : Z := 0x30.
Definition STATUS_IDLE : Z := 0.
Definition STATUS_OK : Z := 1.
Definition STATUS_FAULT : Z := 2.
Definition MAX_FRAME : Z := 2048.
Definition SECTION_VERSION : Z := 1.
Definition SECTION_LEN : nat := 8 + 4 + 4 + 8 + 4 + 4 + 4.
Inductive NetRxError := FrameTooBig | NoRxBuffer | MemFault.

Record PvNet := mkPvNet {
  tx_buf_gpa : Z; tx_len : Z; tx_status : Z; rx_buf_gpa : Z; rx_cap : Z; rx_len : Z; rx_vector : Z }.
Definition PvNet_new : PvNet := mkPvNet 0 0 STATUS_IDLE 0 0 0 0.
Definition set_tx_status (s : Z) (d : PvNet) : PvNet :=
  mkPvNet (tx_buf_gpa d) (tx_len d) s (rx_buf_gpa d) (rx_cap d) (rx_len d) (rx_vector d).
Definition set_rx_len (v : Z) (d : PvNet) : PvNet :=
  mkPvNet (tx_buf_gpa d) (tx_len d) (tx_status d) (rx_buf_gpa d) (rx_cap d) v (rx_vector d).
Definition tx_regs (d : PvNet) : Z * Z * Z := (tx_buf_gpa d, tx_len d, tx_status d).

Section Device.
Context {B : Blake3} {M E : Type} `{!GuestMem M}.
Definition doorbell (d : PvNet) (c : DevCtx M E) : PvNet * DevCtx M E :=
  if (tx_len d =? 0) || (tx_len d >? MAX_FRAME) then (set_tx_status STATUS_FAULT d, c)
  else
    let '(ok, frame) := mem_read (ctx_mem c) (tx_buf_gpa d) (zeros (Z.to_nat (tx_len d))) in
    if negb ok then (set_tx_status STATUS_FAULT d, c)
    else (set_tx_status STATUS_OK d, log_net_tx (tx_len d) (digest8 frame) c).

Definition apply_net_rx (frame : bytes) (m : M) (d : PvNet)
    : outcome NetRxError (option Z) * M * PvNet :=
  if rx_buf_gpa d =? 0 then (Err NoRxBuffer, m, d)
  else match try_u32 (Z.of_nat (length frame)) with
  | None => (Err FrameTooBig, m, d)
  | Some len =>
      if (len =? 0) || (len >? MAX_FRAME) || (len >? rx_cap d) then (Err FrameTooBig, m, d)
      else
        let '(ok, m) := mem_write m (rx_buf_gpa d) frame in
        if negb ok then (Err MemFault, m, d)
        else (Ok (if negb (rx_vector d =? 0) then Some (rx_vector d mod 2 ^ 8) else None), m, set_rx_len len d)
  end.

Definition read (off : Z) (n : nat) (d : PvNet) : bytes :=
  if (off =? REG_TX_BUF_GPA) && (n =? 8)%nat then le_bytes 8 (tx_buf_gpa d)
  else if (off =? REG_TX_LEN) && (n =? 4)%nat then le_bytes 4 (tx_len d)
  else if (off =? REG_TX_STATUS) && (n =? 4)%nat then le_bytes 4 (tx_status d)
  else if (off =? REG_RX_BUF_GPA) && (n =? 8)%nat then le_bytes 8 (rx_buf_gpa d)
  else if (off =? REG_RX_CAP) && (n =? 4)%nat then le_bytes 4 (rx_cap d)
  else if (off =? REG_RX_LEN) && (n =? 4)%nat then le_bytes 4 (rx_len d)
  else if (off =? REG_RX_VECTOR) && (n =? 4)%nat then le_bytes 4 (rx_vector d)
  else zeros n.
Definition write (off : Z) (data : bytes) (d : PvNet) (c : DevCtx M E) : PvNet * DevCtx M E :=
  let v := of_le data in
  if (off =? REG_TX_BUF_GPA) && (length data =? 8)%nat
  then (mkPvNet v (tx_len d) (tx_status d) (rx_buf_gpa d) (rx_cap d) (rx_len d) (rx_vector d), c)
  else if (off =? REG_TX_LEN) && (length data =? 4)%nat
  then (mkPvNet (tx_buf_gpa d) v (tx_status d) (rx_buf_gpa d) (rx_cap d) (rx_len d) (rx_vector d), c)
  else if (off =? REG_TX_DOORBELL) && (length data =? 4)%nat then doorbell d c
  else if (off =? REG_RX_BUF_GPA) && (length data =? 8)%nat
  then (mkPvNet (tx_buf_gpa d) (tx_len d) (tx_status d) v (rx_cap d) (rx_len d) (rx_vector d), c)
  else if (off =? REG_RX_CAP) && (length data =? 4)%nat
  then (mkPvNet (tx_buf_gpa d) (tx_len d) (tx_status d) (rx_buf_gpa d) v (rx_len d) (rx_vector d), c)
  else if (off =? REG_RX_LEN) && (length data =? 4)%nat then (set_rx_len v d, c)
  else if (off =? REG_RX_VECTOR) && (length data =? 4)%nat
  then (mkPvNet (tx_buf_gpa d) (tx_len d) (tx_status d) (rx_buf_gpa d) (rx_cap d) (rx_len d) (Z.land v 0xFF), c)
  else (d, c).
End Device.

Definition save (d : PvNet) : bytes :=
  le_bytes 8 (tx_buf_gpa d) ++ le_bytes 4 (tx_len d) ++ le_bytes 4 (tx_status d) ++
  le_bytes 8 (rx_buf_gpa d) ++ le_bytes 4 (rx_cap d) ++ le_bytes 4 (rx_len d) ++ le_bytes 4 (rx_vector d).
Definition load (b : bytes) (sec_version : Z) (d : PvNet) : option PvNet :=
  if negb (sec_version =? SECTION_VERSION) || negb (length b =? SECTION_LEN)%nat then None
  else Some (mkPvNet (of_le (slice 0 8 b)) (of_le (slice 8 4 b)) (of_le (slice 12 4 b))
               (of_le (slice 16 8 b)) (of_le (slice 24 4 b)) (of_le (slice 28 4 b)) (of_le (slice 32 4 b))).

#[export] Instance PvNet_device {B : Blake3} {M E} `{!GuestMem M} : DetDevice PvNet M E :=
  { device_id _ := DEVICE_ID_PV_NET; section_version _ := SECTION_VERSION;
    mmio_read off n d c := (read off n d, d, c); mmio_write := write; snapshot := save; guest_ram_snapshot_ranges _ := []; restore _ := load }.
End Net.

Module Serial.
Definition DEVICE_ID_DEBUG_SERIAL : Z := 0x0006.
Definition SERIAL_PIO_BASE : Z := 0x3F8.
Definition REG_THR_RBR : Z := 0.
Definition REG_IIR_FCR : Z := 2.
Definition REG_LSR : Z := 5.
Definition LSR_ALWAYS_READY : Z := 0x60.
Definition IIR_NONE : Z := 0x01.
Definition MAX_PENDING_OUTPUT : nat := # 1048576.

Record DebugSerial := mkDebugSerial { out : bytes; dropped_bytes : Z }.
Definition DebugSerial_new : DebugSerial := mkDebugSerial [] 0.
Definition take_output (d : DebugSerial) : bytes * DebugSerial := (out d, mkDebugSerial [] (dropped_bytes d)).
Definition dropped_output_bytes (d : DebugSerial) : Z := dropped_bytes d.
Definition push_output (data : bytes) (d : DebugSerial) : DebugSerial :=
  let o := out d ++ data in
  if (MAX_PENDING_OUTPUT <? length o)%nat then
    let overflow := (length o - MAX_PENDING_OUTPUT)%nat in
    mkDebugSerial (drop overflow o) (dropped_bytes d + Z.of_nat overflow)
  else mkDebugSerial o (dropped_bytes d).

Definition reg_read (reg : Z) : Z :=
  if reg =? REG_LSR then LSR_ALWAYS_READY else if reg =? REG_IIR_FCR then IIR_NONE else 0.
Definition pio_write (port : Z) (data : bytes) (d : DebugSerial) : DebugSerial :=
  if port =? SERIAL_PIO_BASE + REG_THR_RBR then push_output data d else d.
Definition pio_read (port : Z) (n : nat) (d : DebugSerial) : bytes :=
  replicate n (reg_read (saturating_sub port SERIAL_PIO_BASE)).

Definition read (off : Z) (n : nat) (d : DebugSerial) : bytes :=
  if negb (n =? 4)%nat || negb ((0x08 <=? off) && (off <? 0x28)) || negb (off mod 4 =? 0) then zeros n
  else le_bytes 4 (reg_read ((off - 0x08) / 4)).
Definition write (off : Z) (data : bytes) (d : DebugSerial) : DebugSerial :=
  if (length data =? 4)%nat && (off =? 0x08) then push_output (take 1 data) d else d.
Definition load (b : bytes) (sec_version : Z) (d : DebugSerial) : option DebugSerial :=
  if negb (sec_version =? 1) || negb (length b =? 0)%nat then None else Some (mkDebugSerial [] 0).

#[export] Instance DebugSerial_device {M E} : DetDevice DebugSerial M E :=
  { device_id _ := DEVICE_ID_DEBUG_SERIAL; section_version _ := 1;
    mmio_read off n d c := (read off n d, d, c); mmio_write off data d c := (write off data d, c);
    snapshot _ := []; guest_ram_snapshot_ranges _ := []; restore _ := load }.
End Serial.

(** The concrete types [DetDevice::as_any_mut] exposes, as their type ids; the
    detchannel adapter's depends on its memory, plan and plan factory. *)
Class AnyChannel := any_channel : Type.
(** A bus that never holds one. *)
Definition no_channel : AnyChannel := Empty_set.
Inductive AnyId {X : AnyChannel} : Type -> Type :=
| AnyClock : AnyId Clock.PvClock
| AnyPad : AnyId Pad.PvPad
| AnyNet : AnyId Net.PvNet
| AnyDetChannel : AnyId any_channel.
Definition same_type {X : AnyChannel} {T U} (a : AnyId T) (b : AnyId U) : option (T = U) :=
  match a in AnyId T, b in AnyId U return option (T = U) with
  | AnyClock, AnyClock | AnyPad, AnyPad | AnyNet, AnyNet | AnyDetChannel, AnyDetChannel => Some eq_refl
  | _, _ => None
  end.
Lemma same_type_refl {X : AnyChannel} {T} (a : AnyId T) : same_type a a = Some eq_refl.
Proof. by destruct a. Qed.
