(* ===== verification/DevicesOk.v ===== *)
(** * The register devices keep the device contract

    Each device is a [DetDeviceOk] instance: its reads are pure and fill the
    buffer, its writes keep its state well-formed and never move the boundary
    or drop a recorded log fault, and its snapshot section restores. *)

From S2P Require Import Prelude Vt DhiLog DevCtx Devices.

Lemma ctx_record_keeps {M E} call (c : DevCtx M E) :
  let c' := ctx_record call c in
  ctx_icount c' = ctx_icount c /\ ctx_boundary_rip c' = ctx_boundary_rip c /\
  irq_queue c' = irq_queue c /\ ctx_mem c' = ctx_mem c /\ ctx_entropy c' = ctx_entropy c /\
  (log_fault c <> None -> log_fault c' = log_fault c).
Proof.
  unfold ctx_record. destruct (call (ctx_log c)) as [r w]. cbn. split_and!; try done.
  intros H. destruct r, (log_fault c); done.
Qed.

Lemma of_le_data_u32 data : bytes_ok data -> (length data =? 4)%nat = true -> u32 (of_le data).
Proof. intros Hb Hl%Nat.eqb_eq. pose proof (of_le_bound data Hb) as H. rewrite Hl in H. exact H. Qed.
Lemma of_le_data_u64 data : bytes_ok data -> (length data =? 8)%nat = true -> u64 (of_le data).
Proof. intros Hb Hl%Nat.eqb_eq. pose proof (of_le_bound data Hb) as H. rewrite Hl in H. exact H. Qed.
Lemma land_ff_u32 z : u32 z -> u32 (Z.land z 0xFF).
Proof.
  intros Hz. change 0xFF with (Z.ones 8). rewrite Z.land_ones by lia. pose proof (Z.mod_pos_bound z (2 ^ 8) ltac:(lia)). ulia.
Qed.
Create HintDb dev.
#[export] Hint Resolve of_le_data_u32 of_le_data_u64 land_ff_u32 : dev.

(** Walk a register handler's guards. *)
Ltac registers :=
  repeat match goal with
  | |- context [if ?c then _ else _] =>
      lazymatch c with context [if _ then _ else _] => fail | _ =>
        let E := fresh "E" in destruct c eqn:E end
  end.
Ltac fills :=
  registers; rewrite ?length_le_bytes, ?length_replicate;
  repeat match goal with H : _ && _ = true |- _ => apply andb_prop in H as [? H] end;
  repeat match goal with H : (_ =? _)%nat = true |- _ => apply Nat.eqb_eq in H end;
  repeat match goal with H : negb _ = false |- _ => apply negb_false_iff in H end;
  repeat match goal with H : (_ =? _)%nat = true |- _ => apply Nat.eqb_eq in H end;
  try done; subst; try done.

Module ClockOk.
Import Clock.
Definition wf (d : PvClock) : Prop :=
  u32 (num d) /\ u32 (den d) /\ 0 < den d /\ u64 (vns_base d) /\
  u64 (timer_deadline_vns d) /\ u32 (timer_vector d).

Lemma serve_u64_length v o n : length (serve_u64 v o n) = n.
Proof. unfold serve_u64, zeros. cbv zeta. fills. Qed.

Lemma clock_load_save d0 d :
  wf d -> load (save d) SECTION_VERSION d0 =
  Some (mkPvClock (num d0) (den d0) (vns_base d0) (timer_deadline_vns d) (timer_vector d)).
Proof.
  intros (_ & _ & _ & _ & Hd & Hv). unfold load. change (length (save d)) with SECTION_LEN. cbn [negb orb].
  rewrite Z.eqb_refl, Nat.eqb_refl. cbn [negb orb].
  unfold set_timer_vector, set_timer_deadline. cbn [num den vns_base timer_deadline_vns]. do 2 f_equal.
  - exact (of_le_u64 _ Hd).
  - exact (of_le_u32 _ Hv).
Qed.

#[export] Instance PvClock_ok {M E} : DetDeviceOk PvClock M E wf.
Proof.
  split.
  - intros off n d c _. cbn. unfold read, zeros. registers; rewrite ?serve_u64_length; try done; fills.
  - done.
  - intros off data d c (? & ? & ? & ? & ? & ?) Hb. cbn. unfold write, wf.
    registers; cbn [fst]; split_and!; try done; cbn;
      repeat match goal with H : _ && _ = true |- _ => apply andb_prop in H as [? H] end; auto with dev.
  - done.
  - intros off data d c. cbn. unfold write. registers; done.
  - intros m0 d0 d H0 H. exists (mkPvClock (num d0) (den d0) (vns_base d0) (timer_deadline_vns d) (timer_vector d)).
    split_and!; [by apply clock_load_save|done|]. unfold wf in *. cbn. naive_solver.
Qed.
End ClockOk.

Module PadOk.
Import Pad.
Definition wf (d : PvPad) : Prop :=
  length (latch d) = NUM_PORTS /\ Forall u32 (latch d) /\ u32 (irq_vector d) /\ u32 (frame_counter d).

Lemma pad_load_save d0 d : wf d -> load (save d) SECTION_VERSION d0 = Some d.
Proof.
  intros (Hl & Hf & Hi & Hc). destruct d as [l iv fc]; cbn in *.
  destruct l as [|a [|b [|c [|e [|]]]]]; try discriminate Hl.
  rewrite !Forall_cons in Hf. destruct Hf as (Ha & Hb & Hcc & He & _).
  unfold load. change (length (save _)) with SECTION_LEN. rewrite Z.eqb_refl, Nat.eqb_refl. cbn [negb orb].
  do 2 f_equal; [|exact (of_le_u32 _ Hi)|exact (of_le_u32 _ Hc)].
  cbn [List.seq map NUM_PORTS].
  repeat f_equal; [exact (of_le_u32 _ Ha)|exact (of_le_u32 _ Hb)|exact (of_le_u32 _ Hcc)|exact (of_le_u32 _ He)].
Qed.

#[export] Instance PvPad_ok {M E} : DetDeviceOk PvPad M E wf.
Proof.
  split.
  - intros off n d c _. cbn. unfold read, zeros. registers; fills.
  - done.
  - intros off data d c (? & ? & ? & ?) Hb. cbn. unfold write, wf.
    registers; cbn [fst]; split_and!; try done; cbn;
      repeat match goal with H : negb _ = false |- _ => apply negb_false_iff in H end; auto with dev.
  - done.
  - intros off data d c. cbn. unfold write. registers; try done.
    unfold log_frame_mark. pose proof (ctx_record_keeps (frame_mark (ctx_icount c) (ctx_boundary_rip c) (of_le data)) c).
    naive_solver.
  - intros m0 d0 d H0 H. exists d. split_and!; [by apply pad_load_save|done..].
Qed.

(** [apply_pad_set] on a well-formed pad. *)
Lemma apply_pad_set_wf port buttons d :
  wf d -> u8 port -> u32 buttons -> wf (apply_pad_set port buttons d).2 /\ (apply_pad_set port buttons d).1 <> Panic.
Proof.
  intros (Hl & Hf & Hi & Hc) Hp Hb. unfold apply_pad_set. cbv zeta. destruct (_ <=? _)%nat eqn:E; [done|].
  apply Nat.leb_gt in E. destruct (lookup_lt_is_Some_2 (latch d) (Z.to_nat port)) as [o Ho]; [by rewrite Hl|].
  rewrite Ho. split; [|done]. unfold wf. cbn. rewrite length_insert. split_and!; try done. by apply Forall_insert.
Qed.
End PadOk.

Module EntropyOk.
Import Entropy.
Definition wf (d : PvEntropy) : Prop := u64 (buf_gpa d) /\ u32 (len d) /\ u32 (status d).

Lemma entropy_load_save d0 d : wf d -> load (save d) SECTION_VERSION d0 = Some d.
Proof.
  intros (H1 & H2 & H3). destruct d as [g l s]; cbn [buf_gpa len status] in *. unfold load.
  change (length (save _)) with SECTION_LEN. rewrite Z.eqb_refl, Nat.eqb_refl. cbn [negb orb].
  do 2 f_equal; [exact (of_le_u64 _ H1)|exact (of_le_u32 _ H2)|exact (of_le_u32 _ H3)].
Qed.

Section Ok.
Context {B : Blake3} {M E : Type} `{!GuestMem M, !EntropySource E}.

Lemma entropy_doorbell_wf d (c : DevCtx M E) : wf d -> wf (doorbell d c).1.
Proof.
  intros (H1 & H2 & H3). unfold doorbell. destruct (len d >? MAX_FILL).
  - unfold wf. cbn. split_and!; done || ulia.
  - destruct (fill _ _) as [b e]. destruct (mem_write _ _ _) as [[] m]; unfold wf; cbn; split_and!; done || ulia.
Qed.
Lemma entropy_doorbell_ctx d (c : DevCtx M E) :
  let c' := (doorbell d c).2 in
  ctx_icount c' = ctx_icount c /\ ctx_boundary_rip c' = ctx_boundary_rip c /\ irq_queue c' = irq_queue c /\
  (log_fault c <> None -> log_fault c' = log_fault c).
Proof.
  unfold doorbell. destruct (len d >? MAX_FILL); [done|].
  destruct (fill _ _) as [b e]. destruct (mem_write _ _ _) as [[] m]; cbn [negb]; [|done].
  unfold log_entropy. match goal with |- context [ctx_record ?f ?x] => pose proof (ctx_record_keeps f x) end.
  naive_solver.
Qed.

#[export] Instance PvEntropy_ok : DetDeviceOk PvEntropy M E wf.
Proof.
  split.
  - intros off n d c _. cbn. unfold read, zeros. registers; fills.
  - done.
  - intros off data d c Hw Hb. cbn. unfold write. registers; cbn [fst]; try done; try (by apply entropy_doorbell_wf);
      destruct Hw as (? & ? & ?); unfold wf; cbn; split_and!; try done;
      repeat match goal with H : _ && _ = true |- _ => apply andb_prop in H as [? H] end; auto with dev.
  - done.
  - intros off data d c. cbn. unfold write. registers; try done. apply entropy_doorbell_ctx.
  - intros m0 d0 d H0 H. exists d. split_and!; [by apply entropy_load_save|done..].
Qed.
End Ok.
End EntropyOk.

Module NetOk.
Import Net.
Definition wf (d : PvNet) : Prop :=
  u64 (tx_buf_gpa d) /\ u32 (tx_len d) /\ u32 (tx_status d) /\ u64 (rx_buf_gpa d) /\
  u32 (rx_cap d) /\ u32 (rx_len d) /\ u32 (rx_vector d).

Lemma net_load_save d0 d : wf d -> load (save d) SECTION_VERSION d0 = Some d.
Proof.
  intros (H1 & H2 & H3 & H4 & H5 & H6 & H7). destruct d; cbn [tx_buf_gpa tx_len tx_status rx_buf_gpa rx_cap rx_len rx_vector] in *. unfold load.
  change (length (save _)) with SECTION_LEN. rewrite Z.eqb_refl, Nat.eqb_refl. cbn [negb orb].
  do 2 f_equal; [exact (of_le_u64 _ H1)|exact (of_le_u32 _ H2)|exact (of_le_u32 _ H3)|exact (of_le_u64 _ H4)
    |exact (of_le_u32 _ H5)|exact (of_le_u32 _ H6)|exact (of_le_u32 _ H7)].
Qed.

Section Ok.
Context {B : Blake3} {M E : Type} `{!GuestMem M}.

Lemma net_doorbell_wf d (c : DevCtx M E) : wf d -> wf (doorbell d c).1.
Proof.
  intros (? & ? & ? & ? & ? & ? & ?). unfold doorbell. destruct (_ || _).
  - unfold wf. cbn. split_and!; done || ulia.
  - destruct (mem_read _ _ _) as [[] f]; unfold wf; cbn; split_and!; done || ulia.
Qed.
Lemma net_doorbell_ctx d (c : DevCtx M E) :
  let c' := (doorbell d c).2 in
  ctx_icount c' = ctx_icount c /\ ctx_boundary_rip c' = ctx_boundary_rip c /\ irq_queue c' = irq_queue c /\
  (log_fault c <> None -> log_fault c' = log_fault c).
Proof.
  unfold doorbell. destruct (_ || _); [done|]. destruct (mem_read _ _ _) as [[] f]; cbn [negb]; [|done].
  unfold log_net_tx. match goal with |- context [ctx_record ?f ?x] => pose proof (ctx_record_keeps f x) end.
  naive_solver.
Qed.

#[export] Instance PvNet_ok : DetDeviceOk PvNet M E wf.
Proof.
  split.
  - intros off n d c _. cbn. unfold read, zeros. registers; fills.
  - done.
  - intros off data d c Hw Hb. cbn. unfold write. registers; cbn [fst]; try done; try (by apply net_doorbell_wf);
      destruct Hw as (? & ? & ? & ? & ? & ? & ?); unfold wf; cbn; split_and!; try done;
      repeat match goal with H : _ && _ = true |- _ => apply andb_prop in H as [? H] end; auto with dev.
  - done.
  - intros off data d c. cbn. unfold write. registers; try done. apply net_doorbell_ctx.
  - intros m0 d0 d H0 H. exists d. split_and!; [by apply net_load_save|done..].
Qed.
End Ok.
End NetOk.

Module SerialOk.
Import Serial.
Definition wf (d : DebugSerial) : Prop := (length (out d) <= MAX_PENDING_OUTPUT)%nat /\ 0 <= dropped_bytes d.

Lemma push_output_wf data d : wf d -> wf (push_output data d).
Proof.
  intros [H1 H2]. unfold push_output, wf. cbv zeta. destruct (_ <? _)%nat eqn:E; cbn [out dropped_bytes].
  - apply Nat.ltb_lt in E. rewrite length_drop. split; lia.
  - apply Nat.ltb_ge in E. split; lia.
Qed.

Lemma push_output_drops data d :
  exists gone, out d ++ data = gone ++ out (push_output data d) /\
    dropped_bytes (push_output data d) = dropped_bytes d + Z.of_nat (length gone).
Proof.
  unfold push_output. cbv zeta. destruct (_ <? _)%nat; cbn [out dropped_bytes].
  - exists (take (length (out d ++ data) - MAX_PENDING_OUTPUT) (out d ++ data)).
    split; [by rewrite take_drop|]. rewrite length_take. lia.
  - exists []. cbn. split; [done|lia].
Qed.

#[export] Instance DebugSerial_ok {M E} : DetDeviceOk DebugSerial M E wf.
Proof.
  split.
  - intros off n d c _. cbn. unfold read, zeros. registers; [by rewrite length_replicate|].
    rewrite length_le_bytes. apply orb_false_iff in E0 as [E0 _]. apply orb_false_iff in E0 as [E0 _].
    apply negb_false_iff, Nat.eqb_eq in E0. done.
  - done.
  - intros off data d c Hw Hb. cbn. unfold write. case_match; [by apply push_output_wf|done].
  - done.
  - done.
  - intros m0 d0 d H0 H. exists (mkDebugSerial [] 0). split_and!; [done..|]. unfold wf. cbn. lia.
Qed.
End SerialOk.

(** ** Properties *)

(** Guest time is the machine's virtual time.  A clock read at instruction
    count [i] shows the segment's base plus exactly the conversion run control
    uses, as long as that fits 64 bits, and saturates at the maximum beyond; it
    never runs backwards within a segment, and a segment that starts from the
    time the previous one ended at continues from it. *)
Theorem clock_time_exact d i :
  ClockOk.wf d -> 0 <= i ->
  let r := mkClockRatio (Clock.num d) (Clock.den d) in
  (forall v, vns_from_icount r i = Some v -> Clock.vns_base d + v <= u64_max ->
     Clock.vns d i = Clock.vns_base d + v) /\
  (forall j, i <= j -> Clock.vns d i <= Clock.vns d j) /\
  u64 (Clock.vns d i) /\
  (forall d', Clock.vns (Clock.set_vns_base (Clock.vns d i) d') 0 = Clock.vns d i).
Proof.
  intros (Hn & Hd & Hpos & Hb & _ & _) Hi r. unfold Clock.vns. cbv zeta.
  assert (forall j, 0 <= j -> 0 <= j * Clock.num d / Clock.den d) as Hnn
    by (intros j Hj; apply Z.div_pos; [|done]; unfold u32 in Hn; nia).
  split_and!.
  - intros v Hv Hle. unfold vns_from_icount in Hv. cbn in Hv. rewrite Hv. cbn. unfold saturating_add. lia.
  - intros j Hj. pose proof (Hnn i Hi). pose proof (Hnn j ltac:(lia)).
    assert (i * Clock.num d / Clock.den d <= j * Clock.num d / Clock.den d)
      by (apply Z.div_le_mono; [done|]; unfold u32 in Hn; nia).
    unfold saturating_add, try_u64. split_ifs; cbn; lia.
  - pose proof (Hnn i Hi). unfold saturating_add, try_u64. split_ifs; cbn; ulia.
  - intros d'. cbn. rewrite Zdiv_0_l. pose proof (Hnn i Hi).
    unfold saturating_add, try_u64. cbn. split_ifs; cbn; ulia.
Qed.

(** A doorbell logs what it moved.  With guest RAM as a byte vector, a
    pv-entropy doorbell ends OK iff the length is within the cap and the buffer
    lies in RAM; then RAM holds exactly the drawn bytes there and nothing else
    changed, and the log has one ENTROPY record, at this boundary, with the
    digest of those RAM bytes.  A pv-net doorbell ends OK iff the frame length
    is in 1..2048 and the buffer lies in RAM; then the log has one NET_TX
    record with the digest of the frame in RAM, and RAM is unchanged.
    Otherwise the status is FAULT and nothing is logged. *)
Theorem doorbells_log_what_they_move `{Blake3} {E} `{!EntropySource E, !EntropySourceOk E}
    (c : DevCtx VecGuestMem E) (d : Entropy.PvEntropy) (n : Net.PvNet) :
  EntropyOk.wf d -> NetOk.wf n ->
  let ram := ctx_mem c in
  let size := Z.of_nat (length ram) in
  (let '(d', c') := Entropy.doorbell d c in
   let at_ := Z.to_nat (Entropy.buf_gpa d) in let k := Z.to_nat (Entropy.len d) in
   (Entropy.status d' = Entropy.STATUS_OK <->
      Entropy.len d <= Entropy.MAX_FILL /\ Entropy.buf_gpa d + Entropy.len d <= size) /\
   (Entropy.status d' = Entropy.STATUS_OK ->
      ctx_mem c' = put at_ (fill (ctx_entropy c) k).1 ram /\
      slice at_ k (ctx_mem c') = (fill (ctx_entropy c) k).1 /\
      ctx_log c' = (entropy (ctx_icount c) (ctx_boundary_rip c) (Entropy.len d)
                      (digest8 (slice at_ k (ctx_mem c'))) (ctx_log c)).2) /\
   (Entropy.status d' <> Entropy.STATUS_OK ->
      Entropy.status d' = Entropy.STATUS_FAULT /\ ctx_mem c' = ram /\ ctx_log c' = ctx_log c)) /\
  (let '(n', c') := Net.doorbell n c in
   (Net.tx_status n' = Net.STATUS_OK <->
      0 < Net.tx_len n <= Net.MAX_FRAME /\ Net.tx_buf_gpa n + Net.tx_len n <= size) /\
   (Net.tx_status n' = Net.STATUS_OK ->
      ctx_mem c' = ram /\
      ctx_log c' = (net_tx (ctx_icount c) (ctx_boundary_rip c) (Net.tx_len n)
                      (digest8 (slice (Z.to_nat (Net.tx_buf_gpa n)) (Z.to_nat (Net.tx_len n)) ram)) (ctx_log c)).2) /\
   (Net.tx_status n' <> Net.STATUS_OK -> Net.tx_status n' = Net.STATUS_FAULT /\ c' = c)).
Proof.
  intros (Hg & Hl & _) (Hg' & Hl' & _) ram size. split.
  - unfold Entropy.doorbell. destruct (Z.gtb_spec (Entropy.len d) Entropy.MAX_FILL) as [Hgt|Hle].
    { cbn. split_and!; [|done..]. split; [done|lia]. }
    pose proof (fill_length (ctx_entropy c) (Z.to_nat (Entropy.len d))) as Hfl.
    destruct (fill (ctx_entropy c) (Z.to_nat (Entropy.len d))) as [b e] eqn:Hf. cbn [fst] in *.
    cbn [mem_write VecGuestMem_mem]. unfold VecGuestMem_write, vec_in_range. rewrite Hfl.
    rewrite Z2Nat.id by (unfold u32 in Hl; lia). fold ram. fold size.
    destruct (Z.leb_spec (Entropy.buf_gpa d + Entropy.len d) size) as [Hin|Hout]; cbn [negb].
    + assert (slice (Z.to_nat (Entropy.buf_gpa d)) (Z.to_nat (Entropy.len d)) (put (Z.to_nat (Entropy.buf_gpa d)) b ram) = b) as Hs.
      { apply slice_put_same; [done|]. rewrite Hfl. unfold size, u64, u32 in *. lia. }
      unfold log_entropy, ctx_record. cbn.
      destruct (entropy _ _ _ _ _) as [r w] eqn:Hw. cbn. split_and!; [|intros _|done].
      * split; [lia|done].
      * split_and!; [done|exact Hs|]. rewrite Hs, Hw. done.
    + cbn. split_and!; [|done..]. split; [done|lia].
  - unfold Net.doorbell. destruct (Z.eqb_spec (Net.tx_len n) 0) as [H0|H0]; cbn [orb].
    { cbn. split_and!; [|done..]. split; [done|lia]. }
    destruct (Z.gtb_spec (Net.tx_len n) Net.MAX_FRAME) as [Hgt|Hle].
    { cbn. split_and!; [|done..]. split; [done|lia]. }
    cbn [mem_read VecGuestMem_mem]. unfold VecGuestMem_read, vec_in_range, zeros. rewrite length_replicate.
    rewrite Z2Nat.id by (unfold u32 in Hl'; lia). fold ram. fold size.
    destruct (Z.leb_spec (Net.tx_buf_gpa n + Net.tx_len n) size) as [Hin|Hout]; cbn [negb].
    + unfold log_net_tx, ctx_record. destruct (net_tx _ _ _ _ _) as [r w] eqn:Hw. cbn.
      split_and!; [|done|done]. split; [unfold u32 in Hl'; lia|done].
    + cbn. split_and!; [|done..]. split; [done|lia].
Qed.

(** Serial output is bounded and never read back.  After any writes the
    pending output is at most the cap, is the newest part of everything
    written, and together with the dropped count accounts for every byte;
    register reads do not depend on what was written. *)
Theorem serial_output_accounted (ws : list bytes) d :
  SerialOk.wf d ->
  let d' := foldl (fun d w => Serial.push_output w d) d ws in
  (length (Serial.out d') <= Serial.MAX_PENDING_OUTPUT)%nat /\
  (exists gone, Serial.out d ++ mjoin ws = gone ++ Serial.out d' /\
     Serial.dropped_bytes d' = Serial.dropped_bytes d + Z.of_nat (length gone)) /\
  (forall off n port k, Serial.read off n d' = Serial.read off n d /\ Serial.pio_read port k d' = Serial.pio_read port k d).
Proof.
  revert d. induction ws as [|w ws IH]; intros d Hw d'; cbn in d'.
  { subst d'. split_and!; [apply Hw| |done]. exists []. cbn. rewrite app_nil_r. split; [done|lia]. }
  destruct (IH (Serial.push_output w d) (SerialOk.push_output_wf w d Hw)) as (H1 & (g & Hg & Hd) & H3).
  split_and!; [done| |done].
  destruct (SerialOk.push_output_drops w d) as (g1 & Hg1 & Hd1). exists (g1 ++ g). split.
  - cbn. rewrite app_assoc, Hg1, <- !app_assoc. f_equal. exact Hg.
  - rewrite length_app. subst d'. rewrite Hd, Hd1. lia.
Qed.

(** A drain leaves the dropped count in place. *)
Theorem drain_keeps_dropped_count d :
  Serial.dropped_output_bytes (Serial.take_output d).2 = Serial.dropped_output_bytes d.
Proof. done. Qed.

(** ** Examples *)

Definition ex_entropy (e n : nat) : bytes * nat := (replicate n (Z.of_nat e mod 256), S e).
#[local] Instance ex_entropy_source : EntropySource nat := ex_entropy.
Lemma ex_entropy_ok : EntropySourceOk nat.
Proof.
  split; intros e n.
  - apply length_replicate.
  - apply Forall_replicate. pose proof (Z.mod_pos_bound (Z.of_nat e) 256). ulia.
Qed.
Definition ex_dev_ctx : DevCtx VecGuestMem nat :=
  DevCtx_new 1000 0x40 (LogWriter_new example_header) (replicate 64 0) 7%nat [].

Lemma clock_time_exact_witness :
  Clock.vns (Clock.set_vns_base 100 (Clock.PvClock_new 3 2)) 1000 = 1600.
Proof.
  destruct (clock_time_exact (Clock.set_vns_base 100 (Clock.PvClock_new 3 2)) 1000) as (H & _).
  - unfold ClockOk.wf. cbn. split_and!; unfold Clock.DEFAULT_TIMER_VECTOR; ulia.
  - lia.
  - apply (H 1500).
    + reflexivity.
    + cbn. ulia.
Defined.
Lemma doorbells_log_what_they_move_witness :
  let d := Entropy.mkPvEntropy 8 4 0 in
  slice 8 4 (ctx_mem (@Entropy.doorbell example_hash _ _ _ _ d ex_dev_ctx).2) = [7; 7; 7; 7].
Proof.
  intros d.
  pose proof (@doorbells_log_what_they_move example_hash nat ex_entropy_source ex_entropy_ok ex_dev_ctx d Net.PvNet_new)
    as H.
  destruct H as [H _].
  - unfold EntropyOk.wf. cbn. split_and!; ulia.
  - unfold NetOk.wf. cbn. unfold Net.STATUS_IDLE. split_and!; ulia.
  - destruct H as (Hiff & Hok & _). apply Hok. apply Hiff. split; vm_compute; congruence.
Defined.
Lemma serial_output_accounted_witness :
  Serial.out (foldl (fun d w => Serial.push_output w d) Serial.DebugSerial_new [[1]; [2; 3]]) = [1; 2; 3].
Proof.
  destruct (serial_output_accounted [[1]; [2; 3]] Serial.DebugSerial_new) as (_ & (g & Hg & Hd) & _).
  - unfold SerialOk.wf. cbn. lia.
  - assert (g = []) as ->.
    { apply nil_length_inv. change (Serial.dropped_bytes Serial.DebugSerial_new) with 0 in Hd.
      assert (Serial.dropped_bytes (foldl (fun d w => Serial.push_output w d) Serial.DebugSerial_new [[1]; [2; 3]]) = 0)
        by (vm_compute; reflexivity). lia. }
    symmetry. exact Hg.
Defined.
