(* ===== verification/Detchannel.v ===== *)
(** * The detchannel host: [dh-devices/src/detchannel.rs]

    The PIO detcall handlers, the ring drains with their log records, and the
    EVTC snapshot section.  The channel itself (rings, wire format, fault plans)
    is the guest SDK's, which this repository links: the class [GuestSdk].  An
    operation of its channel sees guest memory, which the host's handle and the
    device context alias, and reports its writes to a sink; as the sink returns
    nothing, the reports are the list of its calls.  The host's counters are
    plain integers: 64 bits of single steps are never used up. *)

From S2P Require Import Prelude BTree DhiLog DevCtx Devices.

Definition EVENT_RING_PUSH : Z := 0x0001.
Definition EVENT_CONS_BUMP : Z := 0x0002.

(** [std::str::from_utf8] as a test. *)
Definition cont_byte (b : Z) : bool := (0x80 <=? b) && (b <=? 0xBF).
Fixpoint utf8_valid (l : bytes) : bool :=
  match l with
  | [] => true
  | b0 :: l0 =>
      if b0 <? 0x80 then utf8_valid l0
      else match l0 with
      | b1 :: l1 =>
          if (0xC2 <=? b0) && (b0 <=? 0xDF) then cont_byte b1 && utf8_valid l1
          else match l1 with
          | b2 :: l2 =>
              if (0xE0 <=? b0) && (b0 <=? 0xEF)
              then (if b0 =? 0xE0 then (0xA0 <=? b1) && (b1 <=? 0xBF)
                    else if b0 =? 0xED then (0x80 <=? b1) && (b1 <=? 0x9F) else cont_byte b1)
                   && cont_byte b2 && utf8_valid l2
              else match l2 with
              | b3 :: l3 =>
                  (0xF0 <=? b0) && (b0 <=? 0xF4)
                  && (if b0 =? 0xF0 then (0x90 <=? b1) && (b1 <=? 0xBF)
                      else if b0 =? 0xF4 then (0x80 <=? b1) && (b1 <=? 0x8F) else cont_byte b1)
                  && cont_byte b2 && cont_byte b3 && utf8_valid l3
              | [] => false
              end
          | [] => false
          end
      | [] => false
      end
  end.

Module DetChannel.
(** ** What the guest SDK provides *)

Inductive InitStatus := StatusOk | BadGpa | BadMagicVersion | AlreadyAttached.
#[export] Instance InitStatus_eq_dec : EqDecision InitStatus.
Proof. solve_decision. Defined.
Inductive RingId := RingC | RingI | RingA | RingW.
Record ProducerSeqs := mkSeqs { ring_c : Z; ring_i : Z }.
Inductive SinkCall :=
| RingPush (ring : RingId) (record : bytes) (new_prod : Z)
| ConsBump (ring : RingId) (new_cons : Z)
| PioAnswer (port value : Z).

Inductive EventKind :=
| KPad | KHello | KNameIntern | KAssertViolation | KReachable | KBeacon | KInjectQuery | KRegionRegister
| KRegionUpdate | KWorkloadStarted | KWorkloadExited | KLogLine | KQuiesceReady | KFrameMark | KReady.

(** A drained event's payload; [OFuture] stands for the variants the
    non-exhaustive type may gain. *)
Inductive OwnedPayload (Region : Type) :=
| OHello (proto_version agent_version capabilities : Z)
| ONameIntern (name_id : Z) (name : bytes) (reachable_decl : bool)
| OAssertViolation (name_id violation_count : Z) (details : bytes)
| OReachable (name_id : Z)
| OBeacon (beacon_id : Z)
| OInjectQuery (iseq name_id : Z)
| ORegionRegister (r : Region)
| ORegionUpdate (r : Region)
| OWorkloadStarted (guest_pid unit : Z)
| OWorkloadExited (guest_pid exit_code term_signal : Z)
| OLogLine (stream level : Z) (msg : bytes)
| OQuiesceReady (token : Z)
| OFrameMark (frame_index : Z)
| OReady (unit region_count manifest_generation : Z)
| OFuture.
Inductive EventPayload (Region : Type) :=
| EPad
| EHello (proto_version agent_version capabilities : Z)
| ENameIntern (name_id : Z) (name : bytes)
| EAssertViolation (name_id violation_count : Z) (details : bytes)
| EReachable (name_id : Z)
| EBeacon (beacon_id : Z)
| EInjectQuery (iseq name_id : Z)
| ERegionRegister (r : Region)
| ERegionUpdate (r : Region)
| EWorkloadStarted (guest_pid unit : Z)
| EWorkloadExited (guest_pid exit_code term_signal : Z)
| ELogLine (stream level : Z) (msg : bytes)
| EQuiesceReady (token : Z)
| EFrameMark (frame_index : Z)
| EReady (unit region_count manifest_generation : Z).
Arguments OHello {Region}. Arguments ONameIntern {Region}. Arguments OAssertViolation {Region}. Arguments OReachable {Region}.
Arguments OBeacon {Region}. Arguments OInjectQuery {Region}. Arguments ORegionRegister {Region}. Arguments ORegionUpdate {Region}.
Arguments OWorkloadStarted {Region}. Arguments OWorkloadExited {Region}. Arguments OLogLine {Region}. Arguments OQuiesceReady {Region}.
Arguments OFrameMark {Region}. Arguments OReady {Region}. Arguments OFuture {Region}.
Arguments EPad {Region}. Arguments EHello {Region}. Arguments ENameIntern {Region}. Arguments EAssertViolation {Region}.
Arguments EReachable {Region}. Arguments EBeacon {Region}. Arguments EInjectQuery {Region}. Arguments ERegionRegister {Region}.
Arguments ERegionUpdate {Region}. Arguments EWorkloadStarted {Region}. Arguments EWorkloadExited {Region}. Arguments ELogLine {Region}.
Arguments EQuiesceReady {Region}. Arguments EFrameMark {Region}. Arguments EReady {Region}.

Record GuestEvent (Region : Type) := mkEvent { ev_seq : Z; ev_vnanos : Z; ev_payload : OwnedPayload Region }.
Arguments mkEvent {Region}. Arguments ev_seq {Region}. Arguments ev_vnanos {Region}. Arguments ev_payload {Region}.

(** [detguest-host] and [detguest-wire]: a plan's decision function is passed
    to the responder, which is generic in its plan. *)
Class GuestSdk (M : Type) := {
  Channel : Type; RegionManifest : Type; Region : Type; WireError : Type; AttachError : Type; PushError : Type;
  Command : Type; WorkloadCtrl : Type; FaultDecision : Type; InjectResponder : Type -> Type;
  PORT_IDENT : Z; PORT_INIT_LO : Z; PORT_INIT_HI : Z; PORT_INIT_GO : Z; PORT_DOORBELL : Z; PORT_INJECT : Z;
  PORT_QUIESCE_ACK : Z; IDENT_ANSWER : Z; CHANNEL_SIZE_PAGES : Z; FLAG_REACHABLE_DECL : Z; RECORD_HEADER_LEN : nat;
  status_u32 : InitStatus -> Z;
  InitStatus_from_u32 : Z -> option InitStatus;
  kind_u16 : EventKind -> Z;
  encode_event : Z -> Z -> Z -> EventPayload Region -> option bytes;
  attach : M -> Z -> Channel + AttachError;
  attach_status : AttachError -> InitStatus;
  read_manifest : M -> Channel -> option RegionManifest;
  producer_seqs_of : Channel -> ProducerSeqs;
  set_producer_seqs : ProducerSeqs -> Channel -> Channel;
  intern_name : Channel -> Z -> option bytes;
  drain_events : M -> Channel -> (list (GuestEvent Region) + WireError) * list SinkCall * Channel * M;
  channel_push_command : Command -> M -> Channel -> option PushError * list SinkCall * Channel * M;
  channel_push_workload_ctrl : WorkloadCtrl -> M -> Channel -> option PushError * list SinkCall * Channel * M;
  Proceed : FaultDecision;
  pack : FaultDecision -> Z;
  unpack : Z -> FaultDecision;
  InjectResponder_new : forall P, P -> InjectResponder P;
  plan_of : forall P, InjectResponder P -> P;
  set_plan : forall P, P -> InjectResponder P -> InjectResponder P;
  responder_answer : forall P, (Z -> Z -> option bytes -> P -> FaultDecision * P) ->
    M -> Channel -> Z -> InjectResponder P -> Z * list SinkCall * Channel * M * InjectResponder P }.
Arguments InjectResponder_new {M _ P}. Arguments plan_of {M _ P}. Arguments set_plan {M _ P}. Arguments responder_answer {M _ P}.

(** [detguest_host::FaultPlan] *)
Class FaultPlan (M : Type) `{!GuestSdk M} (P : Type) := plan_decide : Z -> Z -> option bytes -> P -> FaultDecision * P.

(** ** The host *)

Definition INIT_STATUS_NEVER_COMMITTED : Z := u32_max.
Definition EVTC_PENDING_NAME_ABSENT : Z := u32_max.
Definition DOORBELL_RING_A : Z := Z.shiftl 1 0.
Definition DOORBELL_RING_W : Z := Z.shiftl 1 1.

Record DetChannelMetrics := mkMetrics {
  raz_wi_outs : Z; raz_wi_ins : Z; inject_in_without_out : Z; doorbell_empty_mask : Z;
  drain_failures : Z; manifest_read_failures : Z; sdk_digest_failures : Z }.
Definition DetChannelMetrics_default : DetChannelMetrics := mkMetrics 0 0 0 0 0 0 0.
Definition any_anomaly (m : DetChannelMetrics) : bool := (0 <? drain_failures m) || (0 <? sdk_digest_failures m).

Record PendingInjectSnapshot := mkPending { pend_name_id : Z; pend_name : option bytes }.

Record DetChannelHost (M P : Type) `{!GuestSdk M} := mkHost {
  channel : option Channel;
  init_lo : Z;
  init_hi : Z;
  init_status : Z;
  channel_gpa : option Z;
  manifest : option RegionManifest;
  inject_iseq : option Z;
  pending_injects : btree PendingInjectSnapshot;
  restored_pending_injects : btree PendingInjectSnapshot;
  responder : InjectResponder P;
  last_quiesce_ack : option Z;
  last_drain_error : option WireError;
  metrics : DetChannelMetrics }.
Arguments mkHost {M P _}. Arguments channel {M P _}. Arguments init_lo {M P _}. Arguments init_hi {M P _}.
Arguments init_status {M P _}. Arguments channel_gpa {M P _}. Arguments manifest {M P _}. Arguments inject_iseq {M P _}.
Arguments pending_injects {M P _}. Arguments restored_pending_injects {M P _}. Arguments responder {M P _}.
Arguments last_quiesce_ack {M P _}. Arguments last_drain_error {M P _}. Arguments metrics {M P _}.
Inductive PushChannelError (M : Type) `{!GuestSdk M} := NotAttached | Push (e : PushError).
Arguments NotAttached {M _}. Arguments Push {M _}.

Section Host.
Context {B : Blake3} {M E P : Type} `{!GuestSdk M, !FaultPlan M P}.
Local Notation Host := (DetChannelHost M P).
Local Notation Ctx := (DevCtx M E).
Local Notation Event := (GuestEvent Region).

Definition set_channel (c : option Channel) (h : Host) : Host :=
  mkHost c (init_lo h) (init_hi h) (init_status h) (channel_gpa h) (manifest h) (inject_iseq h) (pending_injects h) (restored_pending_injects h) (responder h) (last_quiesce_ack h) (last_drain_error h) (metrics h).
Definition set_inject_iseq (i : option Z) (h : Host) : Host :=
  mkHost (channel h) (init_lo h) (init_hi h) (init_status h) (channel_gpa h) (manifest h) i (pending_injects h) (restored_pending_injects h) (responder h) (last_quiesce_ack h) (last_drain_error h) (metrics h).
Definition set_quiesce_ack (a : option Z) (h : Host) : Host :=
  mkHost (channel h) (init_lo h) (init_hi h) (init_status h) (channel_gpa h) (manifest h) (inject_iseq h) (pending_injects h) (restored_pending_injects h) (responder h) a (last_drain_error h) (metrics h).
Definition set_pending (f : btree PendingInjectSnapshot -> btree PendingInjectSnapshot) (h : Host) : Host :=
  mkHost (channel h) (init_lo h) (init_hi h) (init_status h) (channel_gpa h) (manifest h) (inject_iseq h) (f (pending_injects h)) (restored_pending_injects h) (responder h) (last_quiesce_ack h) (last_drain_error h) (metrics h).
Definition set_restored (f : btree PendingInjectSnapshot -> btree PendingInjectSnapshot) (h : Host) : Host :=
  mkHost (channel h) (init_lo h) (init_hi h) (init_status h) (channel_gpa h) (manifest h) (inject_iseq h) (pending_injects h) (f (restored_pending_injects h)) (responder h) (last_quiesce_ack h) (last_drain_error h) (metrics h).
Definition set_responder (r : InjectResponder P) (h : Host) : Host :=
  mkHost (channel h) (init_lo h) (init_hi h) (init_status h) (channel_gpa h) (manifest h) (inject_iseq h) (pending_injects h) (restored_pending_injects h) r (last_quiesce_ack h) (last_drain_error h) (metrics h).
Definition set_metrics (f : DetChannelMetrics -> DetChannelMetrics) (h : Host) : Host :=
  mkHost (channel h) (init_lo h) (init_hi h) (init_status h) (channel_gpa h) (manifest h) (inject_iseq h) (pending_injects h) (restored_pending_injects h) (responder h) (last_quiesce_ack h) (last_drain_error h) (f (metrics h)).

Definition count_raz_wi_out (m : DetChannelMetrics) : DetChannelMetrics :=
  mkMetrics (raz_wi_outs m + 1) (raz_wi_ins m) (inject_in_without_out m) (doorbell_empty_mask m) (drain_failures m)
    (manifest_read_failures m) (sdk_digest_failures m).
Definition count_raz_wi_in (m : DetChannelMetrics) : DetChannelMetrics :=
  mkMetrics (raz_wi_outs m) (raz_wi_ins m + 1) (inject_in_without_out m) (doorbell_empty_mask m) (drain_failures m)
    (manifest_read_failures m) (sdk_digest_failures m).
Definition count_inject_without_out (m : DetChannelMetrics) : DetChannelMetrics :=
  mkMetrics (raz_wi_outs m) (raz_wi_ins m) (inject_in_without_out m + 1) (doorbell_empty_mask m) (drain_failures m)
    (manifest_read_failures m) (sdk_digest_failures m).
Definition count_empty_mask (m : DetChannelMetrics) : DetChannelMetrics :=
  mkMetrics (raz_wi_outs m) (raz_wi_ins m) (inject_in_without_out m) (doorbell_empty_mask m + 1) (drain_failures m)
    (manifest_read_failures m) (sdk_digest_failures m).
Definition count_drain_failure (m : DetChannelMetrics) : DetChannelMetrics :=
  mkMetrics (raz_wi_outs m) (raz_wi_ins m) (inject_in_without_out m) (doorbell_empty_mask m) (drain_failures m + 1)
    (manifest_read_failures m) (sdk_digest_failures m).
Definition count_manifest_failure (m : DetChannelMetrics) : DetChannelMetrics :=
  mkMetrics (raz_wi_outs m) (raz_wi_ins m) (inject_in_without_out m) (doorbell_empty_mask m) (drain_failures m)
    (manifest_read_failures m + 1) (sdk_digest_failures m).
Definition count_digest_failure (m : DetChannelMetrics) : DetChannelMetrics :=
  mkMetrics (raz_wi_outs m) (raz_wi_ins m) (inject_in_without_out m) (doorbell_empty_mask m) (drain_failures m)
    (manifest_read_failures m) (sdk_digest_failures m + 1).

Definition DetChannelHost_new (plan : P) : Host :=
  mkHost None 0 0 INIT_STATUS_NEVER_COMMITTED None None None [] [] (InjectResponder_new plan) None None
    DetChannelMetrics_default.

Definition producer_seqs (h : Host) : option ProducerSeqs := producer_seqs_of <$> channel h.
Definition restore_producer_seqs (seqs : ProducerSeqs) (h : Host) : Host :=
  set_channel (set_producer_seqs seqs <$> channel h) h.
Definition take_quiesce_ack (h : Host) : option Z * Host := (last_quiesce_ack h, set_quiesce_ack None h).
(** [with_inject_plan_mut] *)
Definition with_inject_plan_mut {A} (f : P -> A * P) (h : Host) : A * Host :=
  let '(a, p) := f (plan_of (responder h)) in (a, set_responder (set_plan p (responder h)) h).

(** ** The sink *)

Definition ring_id_byte (ring : RingId) : Z :=
  match ring with RingC => 0 | RingI => 1 | RingA => 2 | RingW => 3 end.

Definition ctx_sink (c : SinkCall) (ctx : Ctx) : Ctx :=
  match c with
  | RingPush ring record new_prod =>
      log_dev_event DEVICE_ID_DETCHANNEL EVENT_RING_PUSH ([ring_id_byte ring] ++ [0; 0; 0] ++ le_bytes 4 new_prod ++ record) ctx
  | ConsBump ring new_cons =>
      log_dev_event DEVICE_ID_DETCHANNEL EVENT_CONS_BUMP
        (put 4 (le_bytes 4 new_cons) (put 0 [ring_id_byte ring] (zeros 8))) ctx
  | PioAnswer port value => log_pio_answer port value ctx
  end.
(** What a channel operation leaves of the context: its memory, and its calls
    in order. *)
Definition sink_all (calls : list SinkCall) (m : M) (ctx : Ctx) : Ctx := foldl (fun c x => ctx_sink x c) (with_mem m ctx) calls.

(** ** Event payloads *)

Definition wire_view (p : OwnedPayload Region) : option (EventKind * EventPayload Region) :=
  match p with
  | OHello pv av caps => Some (KHello, EHello pv av caps)
  | ONameIntern name_id name _ => Some (KNameIntern, ENameIntern name_id name)
  | OAssertViolation name_id n details => Some (KAssertViolation, EAssertViolation name_id n details)
  | OReachable name_id => Some (KReachable, EReachable name_id)
  | OBeacon id => Some (KBeacon, EBeacon id)
  | OInjectQuery iseq name_id => Some (KInjectQuery, EInjectQuery iseq name_id)
  | ORegionRegister r => Some (KRegionRegister, ERegionRegister r)
  | ORegionUpdate r => Some (KRegionUpdate, ERegionUpdate r)
  | OWorkloadStarted pid unit => Some (KWorkloadStarted, EWorkloadStarted pid unit)
  | OWorkloadExited pid code sig => Some (KWorkloadExited, EWorkloadExited pid code sig)
  | OLogLine stream level msg => Some (KLogLine, ELogLine stream level msg)
  | OQuiesceReady token => Some (KQuiesceReady, EQuiesceReady token)
  | OFrameMark i => Some (KFrameMark, EFrameMark i)
  | OReady unit n g => Some (KReady, EReady unit n g)
  | OFuture => None
  end.

(** [encode_event] gives the record it wrote to the front of the buffer. *)
Definition stream_guest_event_payload (ev : Event) : option (Z * bytes) :=
  v ← wire_view (ev_payload ev);
  let extra_flags := match ev_payload ev with ONameIntern _ _ true => FLAG_REACHABLE_DECL | _ => 0 end in
  record ← encode_event (ev_seq ev) (ev_vnanos ev) extra_flags v.2;
  Some (kind_u16 v.1, drop RECORD_HEADER_LEN record).

Definition sdk_event_digest (ev : Event) : option (Z * Z * Z) :=
  k ← stream_guest_event_payload ev;
  Some (k.1, to_u32 (Z.of_nat (length k.2)), digest8 k.2).

(** The probe set's encodings; [None] where the source's [expect] fires. *)
Definition wire_encoder_fingerprint : option Z :=
  r0 ← encode_event 0 7 0 EPad;
  r1 ← encode_event 1 7 0 (EHello 1 0x10000 0);
  r2 ← encode_event 2 7 0
         (ENameIntern 1 [100; 104; 45; 101; 110; 99; 111; 100; 101; 114; 45; 102; 112; 45; 112; 114; 111; 98; 101]);
  r3 ← encode_event 3 7 0 (EBeacon 0xF1F1);
  Some (digest8 (r0 ++ r1 ++ r2 ++ r3)).

(** ** Drains *)

Definition note_query (ev : Event) (h : Host) : Host :=
  match ev_payload ev with
  | OInjectQuery iseq name_id =>
      let name := ch ← channel h; intern_name ch name_id in
      set_restored (bt_remove iseq) (set_pending (bt_insert iseq (mkPending name_id name)) h)
  | _ => h
  end.
Definition note_event (hc : Host * Ctx) (ev : Event) : Host * Ctx :=
  let '(h, c) := hc in
  let h := note_query ev h in
  match sdk_event_digest ev with
  | Some (stream, len, digest) => (h, log_sdk_event stream len digest c)
  | None => (set_metrics count_digest_failure h, c)
  end.

Definition set_drain_error (e : WireError) (h : Host) : Host :=
  mkHost (channel h) (init_lo h) (init_hi h) (init_status h) (channel_gpa h) (manifest h) (inject_iseq h)
    (pending_injects h) (restored_pending_injects h) (responder h) (last_quiesce_ack h) (Some e) (metrics h).

Definition drain (h : Host) (c : Ctx) : list Event * Host * Ctx :=
  match channel h with
  | None => ([], h, c)
  | Some ch =>
      let '(r, calls, ch, m) := drain_events (ctx_mem c) ch in
      let h := set_channel (Some ch) h in
      let c := sink_all calls m c in
      match r with
      | inr e => ([], set_drain_error e (set_metrics count_drain_failure h), c)
      | inl events => let '(h, c) := foldl note_event (h, c) events in (events, h, c)
      end
  end.
Definition drain_at_pause : Host -> Ctx -> list Event * Host * Ctx := drain.

(** ** Pushes *)

Definition push_with (op : M -> Channel -> option PushError * list SinkCall * Channel * M) (h : Host) (c : Ctx) :
    outcome (PushChannelError M) unit * Host * Ctx :=
  match channel h with
  | None => (Err NotAttached, h, c)
  | Some ch =>
      let '(r, calls, ch, m) := op (ctx_mem c) ch in
      (match r with None => Ok tt | Some e => Err (Push e) end, set_channel (Some ch) h, sink_all calls m c)
  end.
Definition push_command (cmd : Command) : Host -> Ctx -> outcome (PushChannelError M) unit * Host * Ctx :=
  push_with (channel_push_command cmd).
Definition push_workload_ctrl (rec : WorkloadCtrl) : Host -> Ctx -> outcome (PushChannelError M) unit * Host * Ctx :=
  push_with (channel_push_workload_ctrl rec).

(** ** Detcall ports *)

Definition set_init (lo hi status : Z) (h : Host) : Host :=
  mkHost (channel h) lo hi status (channel_gpa h) (manifest h) (inject_iseq h)
    (pending_injects h) (restored_pending_injects h) (responder h) (last_quiesce_ack h) (last_drain_error h) (metrics h).
Definition set_attached (ch : Channel) (gpa : Z) (mf : option RegionManifest) (h : Host) : Host :=
  mkHost (Some ch) (init_lo h) (init_hi h) (init_status h) (Some gpa) mf (inject_iseq h)
    (pending_injects h) (restored_pending_injects h) (responder h) (last_quiesce_ack h) (last_drain_error h) (metrics h).

Definition channel_init (size_pages : Z) (m : M) (h : Host) : InitStatus * Host :=
  if bool_decide (channel h <> None) then (AlreadyAttached, h)
  else if negb (size_pages =? CHANNEL_SIZE_PAGES) then (BadMagicVersion, h)
  else
    let gpa := Z.lor (Z.shiftl (init_hi h) 32) (init_lo h) in
    if negb (gpa mod (CHANNEL_SIZE_PAGES * 4096) =? 0) then (BadGpa, h)
    else match attach m gpa with
    | inl ch =>
        match read_manifest m ch with
        | Some mf => (StatusOk, set_attached ch gpa (Some mf) h)
        | None => (StatusOk, set_attached ch gpa (manifest h) (set_metrics count_manifest_failure h))
        end
    | inr e => (attach_status e, h)
    end.

Definition pio_out (port value : Z) (h : Host) (c : Ctx) : list Event * Host * Ctx :=
  if port =? PORT_INIT_LO then ([], set_init value (init_hi h) (init_status h) h, c)
  else if port =? PORT_INIT_HI then ([], set_init (init_lo h) value (init_status h) h, c)
  else if port =? PORT_INIT_GO then
    let '(st, h) := channel_init value (ctx_mem c) h in ([], set_init (init_lo h) (init_hi h) (status_u32 st) h, c)
  else if port =? PORT_DOORBELL then
    if Z.land value (Z.lor DOORBELL_RING_A DOORBELL_RING_W) =? 0 then ([], set_metrics count_empty_mask h, c)
    else drain h c
  else if port =? PORT_INJECT then drain (set_inject_iseq (Some value) h) c
  else if port =? PORT_QUIESCE_ACK then ([], set_quiesce_ack (Some value) h, c)
  else ([], set_metrics count_raz_wi_out h, c).

Definition inject_answer (h : Host) (c : Ctx) : Z * Host * Ctx :=
  match inject_iseq h with
  | None => (0, set_metrics count_inject_without_out h, log_pio_answer PORT_INJECT 0 c)
  | Some iseq =>
      let h := set_inject_iseq None h in
      match channel h with
      | None => (0, set_metrics count_inject_without_out h, log_pio_answer PORT_INJECT 0 c)
      | Some ch =>
          match bt_get iseq (restored_pending_injects h) with
          | Some pending =>
              let h := set_pending (bt_remove iseq) (set_restored (bt_remove iseq) h) in
              let name := match intern_name ch (pend_name_id pending) with Some n => Some n | None => pend_name pending end in
              let '(decision, p) := plan_decide iseq (pend_name_id pending) name (plan_of (responder h)) in
              let value := pack decision in
              (value, set_responder (set_plan p (responder h)) h, ctx_sink (PioAnswer PORT_INJECT value) c)
          | None =>
              let '(value, calls, ch, m, r) := responder_answer plan_decide (ctx_mem c) ch iseq (responder h) in
              (value, set_pending (bt_remove iseq) (set_responder r (set_channel (Some ch) h)), sink_all calls m c)
          end
      end
  end.

Definition pio_in (port : Z) (h : Host) (c : Ctx) : Z * Host * Ctx :=
  let answer value h := (value, h, log_pio_answer port value c) in
  if port =? PORT_IDENT then answer IDENT_ANSWER h
  else if port =? PORT_INIT_LO then answer (init_lo h) h
  else if port =? PORT_INIT_HI then answer (init_hi h) h
  else if port =? PORT_INIT_GO then answer (init_status h) h
  else if (port =? PORT_DOORBELL) || (port =? PORT_QUIESCE_ACK) then answer 0 h
  else if port =? PORT_INJECT then inject_answer h c
  else answer 0 (set_metrics count_raz_wi_in h).

(** ** The EVTC section *)

Definition EVTC_V1_LEN : nat := 4 + 4 + 4 + 5 + 5 + 1 + 16.
Definition EVTC_LEN : nat := EVTC_V1_LEN + 4.
Definition EVTC_VERSION : Z := 2.

Definition encode_flagged (o : option Z) : bytes := [if o then 1 else 0] ++ le_bytes 4 (default 0 o).
Definition encode_pending (e : Z * PendingInjectSnapshot) : bytes :=
  le_bytes 4 e.1 ++ le_bytes 4 (pend_name_id e.2) ++
  match pend_name e.2 with
  | Some name => le_bytes 4 (Z.of_nat (length name)) ++ name
  | None => le_bytes 4 EVTC_PENDING_NAME_ABSENT
  end.
Definition encode_channel (h : Host) : bytes :=
  match channel h, channel_gpa h with
  | Some c, Some gpa =>
      [1] ++ le_bytes 8 gpa ++ le_bytes 4 (ring_c (producer_seqs_of c)) ++ le_bytes 4 (ring_i (producer_seqs_of c))
  | _, _ => [0] ++ zeros 16
  end.
(** [snapshot], in a state where its two [expect]s hold ([evtc_fits]). *)
Definition evtc_snapshot (h : Host) : bytes :=
  le_bytes 4 (init_lo h) ++ le_bytes 4 (init_hi h) ++ le_bytes 4 (init_status h) ++
  encode_flagged (inject_iseq h) ++ encode_flagged (last_quiesce_ack h) ++ encode_channel h ++
  le_bytes 4 (Z.of_nat (length (pending_injects h))) ++ concat (encode_pending <$> pending_injects h).
Definition evtc_fits (h : Host) : Prop :=
  Z.of_nat (length (pending_injects h)) <= u32_max /\
  Forall (fun e => forall n, pend_name e.2 = Some n -> Z.of_nat (length n) <= u32_max) (pending_injects h).

Definition evtc_present_flag (b : bytes) (flag_at lo hi : nat) : option bool :=
  let flag := nth flag_at b 0 in
  if flag =? 0 then if existsb (fun x => negb (x =? 0)) (slice lo (hi - lo) b) then None else Some false
  else if flag =? 1 then Some true else None.

Definition validate_evtc_prefix (b : bytes) : option bool :=
  if (length b <? EVTC_V1_LEN)%nat then None
  else
    let init_status := of_le (slice 8 4 b) in
    status ← (if init_status =? INIT_STATUS_NEVER_COMMITTED then Some None
              else st ← InitStatus_from_u32 init_status; Some (Some st));
    _ ← evtc_present_flag b 12 13 17;
    _ ← evtc_present_flag b 17 18 22;
    attached ← evtc_present_flag b 22 23 39;
    match attached, status with
    | true, Some StatusOk | true, Some AlreadyAttached => Some attached
    | false, None | false, Some BadGpa | false, Some BadMagicVersion => Some attached
    | _, _ => None
    end.

(** The entry loop: [n] entries from [at_], and where it ends. *)
Fixpoint evtc_entries (b : bytes) (n at_ : nat) (prev : option Z) (pending : btree PendingInjectSnapshot) :
    option (nat * btree PendingInjectSnapshot) :=
  match n with
  | O => Some (at_, pending)
  | S n =>
      if (length b <? at_ + 12)%nat then None
      else
        let iseq := of_le (slice at_ 4 b) in
        let name_id := of_le (slice (at_ + 4) 4 b) in
        let name_len := of_le (slice (at_ + 8) 4 b) in
        if match prev with Some p => iseq <=? p | None => false end then None
        else
          let at_ := (at_ + 12)%nat in
          if name_len =? EVTC_PENDING_NAME_ABSENT
          then evtc_entries b n at_ (Some iseq) (bt_insert iseq (mkPending name_id None) pending)
          else
            let end_ := (at_ + Z.to_nat name_len)%nat in
            if (length b <? end_)%nat then None
            else
              let name := slice at_ (Z.to_nat name_len) b in
              if utf8_valid name
              then evtc_entries b n end_ (Some iseq) (bt_insert iseq (mkPending name_id (Some name)) pending)
              else None
  end.
Definition evtc_pending_injects (b : bytes) (version : Z) (attached : bool) : option (btree PendingInjectSnapshot) :=
  if version =? 1 then if negb (length b =? EVTC_V1_LEN)%nat then None else Some []
  else if negb (version =? EVTC_VERSION) || (length b <? EVTC_LEN)%nat then None
  else
    let count := Z.to_nat (of_le (slice EVTC_V1_LEN 4 b)) in
    if negb attached && negb (count =? 0)%nat then None
    else
      r ← evtc_entries b count EVTC_LEN None [];
      if negb (r.1 =? length b)%nat then None else Some r.2.

Definition validate_evtc_section (b : bytes) (version : Z) : option unit :=
  if negb (version =? 1) && negb (version =? EVTC_VERSION) then None
  else
    attached ← validate_evtc_prefix b;
    _ ← evtc_pending_injects b version attached;
    Some tt.

Definition evtc_restore (m : M) (b : bytes) (version : Z) (plan : P) (h : Host) : option Host :=
  _ ← validate_evtc_section b version;
  let u32_at at_ := of_le (slice at_ 4 b) in
  let flagged flag at_ := if nth flag b 0 =? 1 then Some (u32_at at_) else None in
  let attached := nth 22 b 0 =? 1 in
  pending ← evtc_pending_injects b version attached;
  restored ← (if attached then
      let gpa := of_le (slice 23 8 b) in
      match attach m gpa with
      | inr _ => None
      | inl ch =>
          let ch := set_producer_seqs (mkSeqs (u32_at 31%nat) (u32_at 35%nat)) ch in
          Some (Some ch, Some gpa, read_manifest m ch)
      end
    else Some (None, None, None));
  let '(ch, gpa, mf) := restored : option Channel * option Z * option RegionManifest in
  let metrics := if bool_decide (ch <> None) && bool_decide (mf = None)
                 then count_manifest_failure DetChannelMetrics_default else DetChannelMetrics_default in
  Some (mkHost ch (u32_at 0%nat) (u32_at 4%nat) (u32_at 8%nat) gpa mf (flagged 12%nat 13%nat) pending pending
          (InjectResponder_new plan) (flagged 17%nat 18%nat) None metrics).
End Host.

(** ** The bus adapter *)

(** [F: FnMut() -> P] *)
Class PlanFactory (F P : Type) := restore_plan : F -> P * F.
Record DetChannelDevice (M P F : Type) `{!GuestSdk M} := mkDevice { host : DetChannelHost M P; factory : F }.
Arguments mkDevice {M P F _}. Arguments host {M P F _}. Arguments factory {M P F _}.

Section Device.
Context {B : Blake3} {M E P F : Type} `{!GuestSdk M, !FaultPlan M P, !PlanFactory F P}.

Definition DetChannelDevice_new (initial_plan : P) (f : F) : DetChannelDevice M P F :=
  mkDevice (DetChannelHost_new initial_plan) f.

Definition dev_restore (m : M) (b : bytes) (sec_version : Z) (d : DetChannelDevice M P F) : option (DetChannelDevice M P F) :=
  _ ← validate_evtc_section b sec_version;
  let '(plan, f) := restore_plan (factory d) in
  h ← evtc_restore m b sec_version plan (host d);
  Some (mkDevice h f).

#[export] Instance DetChannelDevice_device : DetDevice (DetChannelDevice M P F) M E :=
  { device_id _ := DEVICE_ID_DETCHANNEL; section_version _ := EVTC_VERSION;
    mmio_read _ n d c := (zeros n, d, c); mmio_write _ _ d c := (d, c); snapshot d := evtc_snapshot (host d);
    guest_ram_snapshot_ranges d := match channel_gpa (host d) with Some gpa => [(gpa, CHANNEL_SIZE_PAGES * 4096)] | None => [] end;
    restore := dev_restore }.
End Device.
End DetChannel.
