(* ===== verification/DetchannelOk.v ===== *)
(** * The detchannel host keeps its contract

    What the guest SDK promises, the host's invariant over every operation, the
    EVTC section's round trip in both directions, and the log record of every
    answered [IN]. *)

From stdpp Require Import sorting.
From S2P Require Import Prelude BTree DhiLog DevCtx Devices Detchannel.
Import DetChannel.

(** The guest SDK's promises: the four status codes, the producer sequences,
    interned names, drained queries, the responder's one report and its one
    question at most to the plan, and a port of its own for the answers. *)
Class GuestSdkOk (M : Type) `{!GuestSdk M} : Prop := {
  status_code : forall s, u32 (status_u32 s) /\ status_u32 s <> u32_max /\ InitStatus_from_u32 (status_u32 s) = Some s;
  status_from : forall z s, InitStatus_from_u32 z = Some s -> status_u32 s = z;
  attach_fails : forall e, attach_status e = BadGpa \/ attach_status e = BadMagicVersion;
  seqs_u32 : forall c, u32 (ring_c (producer_seqs_of c)) /\ u32 (ring_i (producer_seqs_of c));
  seqs_set : forall s c, u32 (ring_c s) -> u32 (ring_i s) -> producer_seqs_of (set_producer_seqs s c) = s;
  intern_str : forall c id n, intern_name c id = Some n ->
    bytes_ok n /\ utf8_valid n = true /\ Z.of_nat (length n) < u32_max;
  drained_queries : forall m c evs calls c' m', drain_events m c = (inl evs, calls, c', m') ->
    Forall (fun ev => forall i n, ev_payload ev = OInjectQuery i n -> u32 i /\ u32 n) evs;
  answer_reports : forall P (f : Z -> Z -> option bytes -> P -> FaultDecision * P) m c iseq r,
    let '(v, calls, _, _, _) := responder_answer f m c iseq r in calls = [PioAnswer PORT_INJECT v];
  answer_asks : forall P (f : Z -> Z -> option bytes -> P -> FaultDecision * P) m c iseq r,
    let '(v, _, _, _, r') := responder_answer f m c iseq r in
    plan_of r' = plan_of r \/ exists id name, v = pack (f iseq id name (plan_of r)).1 /\ plan_of r' = (f iseq id name (plan_of r)).2;
  inject_port : Forall (fun p => p <> PORT_INJECT)
    [PORT_IDENT; PORT_INIT_LO; PORT_INIT_HI; PORT_INIT_GO; PORT_DOORBELL; PORT_QUIESCE_ACK];
  plan_new : forall P (p : P), plan_of (InjectResponder_new p) = p;
  plan_set : forall P (p : P) r, plan_of (set_plan p r) = p }.

Definition entry_ok (e : Z * PendingInjectSnapshot) : Prop :=
  u32 e.1 /\ u32 (pend_name_id e.2) /\
  forall n, pend_name e.2 = Some n -> bytes_ok n /\ utf8_valid n = true /\ Z.of_nat (length n) < u32_max.

(** ** The entry table *)

Lemma length_encode_pending e : (12 <= length (encode_pending e))%nat.
Proof. unfold encode_pending. case_match; rewrite ?length_app, ?length_le_bytes; lia. Qed.

Lemma u32_pow z : u32 z -> 0 <= z < 256 ^ Z.of_nat 4.
Proof. done. Qed.

Section Table.
Context {M P : Type} `{!GuestSdk M}.
Implicit Types (l acc : btree PendingInjectSnapshot).

(** The three words of an encoded entry that starts after [pre]. *)
Lemma entry_words e pre post : entry_ok e ->
  let b := pre ++ encode_pending e ++ post in
  let at_ := length pre in
  of_le (slice at_ 4 b) = e.1 /\ of_le (slice (at_ + 4) 4 b) = pend_name_id e.2 /\
  of_le (slice (at_ + 8) 4 b) =
    match pend_name e.2 with Some n => Z.of_nat (length n) | None => EVTC_PENDING_NAME_ABSENT end.
Proof.
  intros (H1 & H2 & H3) b at_. unfold b, at_, encode_pending. rewrite <- !app_assoc. split_and!.
  - rewrite slice_exact; [by apply of_le_u32|done|by rewrite length_le_bytes].
  - rewrite app_assoc, slice_exact; [by apply of_le_u32|by rewrite length_app, length_le_bytes|by rewrite length_le_bytes].
  - rewrite !app_assoc, <- !app_assoc, (app_assoc pre), (app_assoc (pre ++ _)).
    destruct (pend_name e.2) as [n|] eqn:En; rewrite <- ?app_assoc.
    + rewrite (app_assoc pre), (app_assoc (pre ++ _)).
      rewrite slice_exact; [|rewrite !length_app, !length_le_bytes; lia|by rewrite length_le_bytes].
      apply of_le_u32. destruct (H3 n eq_refl) as (_ & _ & ?). ulia.
    + rewrite (app_assoc pre), (app_assoc (pre ++ _)).
      rewrite slice_exact; [|rewrite !length_app, !length_le_bytes; lia|by rewrite length_le_bytes].
      apply of_le_u32. unfold EVTC_PENDING_NAME_ABSENT. ulia.
Qed.

(** The name of an encoded entry, behind its words. *)
Lemma entry_name iseq id name pre post :
  let b := pre ++ encode_pending (iseq, mkPending id (Some name)) ++ post in
  slice (length pre + 12) (length name) b = name.
Proof.
  cbv zeta. unfold encode_pending. cbn [fst snd pend_name pend_name_id]. rewrite <- !app_assoc.
  rewrite (app_assoc pre), (app_assoc (pre ++ _)), (app_assoc ((pre ++ _) ++ _)). apply slice_exact; [|done].
  rewrite !length_app, !length_le_bytes. lia.
Qed.

Lemma encode_pending_len e :
  length (encode_pending e) = (12 + match pend_name e.2 with Some n => length n | None => 0 end)%nat.
Proof. unfold encode_pending. case_match; rewrite !length_app, !length_le_bytes; lia. Qed.

(** One turn of the loop on an encoded entry. *)
Lemma evtc_entries_step e n pre post prev acc : entry_ok e ->
  (forall p, prev = Some p -> p < e.1) -> Forall (fun x => x < e.1) acc.*1 ->
  let b := pre ++ encode_pending e ++ post in
  evtc_entries b (S n) (length pre) prev acc =
  evtc_entries b n (length (pre ++ encode_pending e)) (Some e.1) (acc ++ [e]).
Proof.
  intros He Hp Hacc b. pose proof (encode_pending_len e) as Hel.
  assert (length b = length pre + length (encode_pending e) + length post)%nat as Hlen by (unfold b; rewrite !length_app; lia).
  cbn [evtc_entries]. destruct (Nat.ltb_spec (length b) (length pre + 12)) as [|_]; [lia|].
  destruct (entry_words e pre post He) as (W1 & W2 & W3). fold b in W1, W2, W3. rewrite W1, W2, W3.
  replace (match prev with Some p => e.1 <=? p | None => false end) with false.
  2:{ destruct prev as [p|]; [|done]. specialize (Hp p eq_refl). lia. }
  destruct He as (_ & _ & Hn). destruct e as [iseq [id [name|]]]; cbn [fst snd pend_name pend_name_id] in *.
  - destruct (Hn _ eq_refl) as (_ & Hu & Hlt). rewrite Nat2Z.id.
    destruct (Z.eqb_spec (Z.of_nat (length name)) EVTC_PENDING_NAME_ABSENT) as [Hx|_]; [unfold EVTC_PENDING_NAME_ABSENT in Hx; lia|].
    destruct (Nat.ltb_spec (length b) (length pre + 12 + length name)) as [|_]; [lia|].
    pose proof (entry_name iseq id name pre post) as Hnm. fold b in Hnm.
    rewrite Hnm, Hu, bt_insert_last by done. f_equal. rewrite length_app. lia.
  - rewrite Z.eqb_refl, bt_insert_last by done. f_equal. rewrite length_app. lia.
Qed.

Lemma evtc_entries_encode l : forall pre prev acc,
  Forall entry_ok l -> bt_sorted (acc ++ l) ->
  (forall p, prev = Some p -> Forall (Z.lt p) l.*1) ->
  let b := pre ++ concat (encode_pending <$> l) in
  evtc_entries b (length l) (length pre) prev acc = Some (length b, acc ++ l).
Proof.
  induction l as [|e l IH]; intros pre prev acc Hl Hs Hp b; unfold b; cbn [fmap list_fmap concat length].
  - by rewrite !app_nil_r.
  - apply Forall_cons in Hl as [He Hl].
    assert (Forall (fun x => x < e.1) acc.*1 /\ Forall (Z.lt e.1) l.*1) as [Hacc Hnext].
    { unfold bt_sorted in Hs. rewrite fmap_app in Hs. apply StronglySorted_app in Hs as (H & _ & H').
      cbn in *. apply StronglySorted_inv in H' as [_ ?]. split; [|done]. rewrite Forall_forall. intros x Hx. apply H; set_solver. }
    rewrite evtc_entries_step; [|done| |done].
    2:{ intros p ->. specialize (Hp p eq_refl). by apply Forall_cons in Hp as [? _]. }
    rewrite (app_assoc pre). rewrite (IH (pre ++ encode_pending e)); [by rewrite <- !app_assoc|done| |].
    { by rewrite <- app_assoc. } { by intros p [= <-]. }
Qed.

(** Conversely, what the loop reads back is what it was encoded from. *)
Lemma evtc_entries_decode b n : bytes_ok b -> forall at_ prev acc at' m,
  (forall p, prev = Some p -> Forall (fun x => x <= p) acc.*1) -> (prev = None -> acc = []) -> bt_sorted acc ->
  (at_ <= length b)%nat ->
  evtc_entries b n at_ prev acc = Some (at', m) ->
  exists l, m = acc ++ l /\ length l = n /\ Forall entry_ok l /\ bt_sorted m /\ (at' <= length b)%nat /\
    drop at_ b = concat (encode_pending <$> l) ++ drop at' b.
Proof.
  intros Hb. induction n as [|n IH]; intros at_ prev acc at' m Hp Hn Hs Hat; cbn [evtc_entries].
  { intros [= <- <-]. exists []. cbn. by rewrite app_nil_r. }
  destruct (Nat.ltb_spec (length b) (at_ + 12)) as [|H12]; [done|].
  set (iseq := of_le (slice at_ 4 b)). set (id := of_le (slice (at_ + 4) 4 b)). set (len := of_le (slice (at_ + 8) 4 b)).
  destruct (match prev with Some p => iseq <=? p | None => false end) eqn:Hprev; [done|].
  assert (forall o, (o + 4 <= length b)%nat -> u32 (of_le (slice o 4 b))) as Hw.
  { intros o Ho. pose proof (of_le_bound (slice o 4 b)) as H. rewrite length_slice in H by done. apply H. by apply Forall_slice. }
  assert (u32 iseq /\ u32 id /\ u32 len) as (Hi & Hid & Hln) by (split_and!; apply Hw; lia).
  assert (Forall (fun x => x < iseq) acc.*1) as Hlt.
  { destruct prev as [p|]; [|by rewrite Hn]. eapply Forall_impl; [by apply Hp|]. cbn. intros. apply Z.leb_gt in Hprev. lia. }
  assert (drop at_ b = le_bytes 4 iseq ++ le_bytes 4 id ++ le_bytes 4 len ++ drop (at_ + 12) b) as Hdrop.
  { unfold iseq, id, len. rewrite !le_bytes_slice by (done || lia). rewrite (drop_slice_cons at_ 4). f_equal.
    rewrite (drop_slice_cons (at_ + 4) 4). f_equal. replace (at_ + 4 + 4)%nat with (at_ + 8)%nat by lia.
    rewrite (drop_slice_cons (at_ + 8) 4). do 2 f_equal. lia. }
  assert (forall v rest at1 at' m, entry_ok (iseq, v) -> (at1 <= length b)%nat ->
    drop at_ b = encode_pending (iseq, v) ++ rest -> rest = drop at1 b ->
    evtc_entries b n at1 (Some iseq) (bt_insert iseq v acc) = Some (at', m) ->
    exists l, m = acc ++ l /\ length l = S n /\ Forall entry_ok l /\ bt_sorted m /\ (at' <= length b)%nat /\
      drop at_ b = concat (encode_pending <$> l) ++ drop at' b) as Hstep.
  { intros v rest at1 at1' m1 He Hat1 Hd -> H. rewrite bt_insert_last in H by done. apply IH in H as (l & -> & Hl & Hok & Hms & Hle & Hd'); [|..|done].
    - exists ((iseq, v) :: l). rewrite <- app_assoc in Hms |- *. cbn [app]. split_and!; try done.
      + cbn [length]. lia. + by constructor. + rewrite Hd, Hd'. cbn [fmap list_fmap concat]. by rewrite app_assoc.
    - intros p [= <-]. rewrite fmap_app. apply Forall_app. split; [eapply Forall_impl; [exact Hlt|]; cbn; lia|constructor; [cbn; lia|done]].
    - done.
    - by apply bt_sorted_snoc. }
  destruct (Z.eqb_spec len EVTC_PENDING_NAME_ABSENT) as [Habs|Habs].
  - apply (Hstep (mkPending id None) (drop (at_ + 12) b)); [|lia| |done].
    + split_and!; [done..|]. by intros ? [=].
    + rewrite Hdrop. unfold encode_pending. cbn [fst snd pend_name pend_name_id]. by rewrite Habs, <- !app_assoc.
  - destruct (Nat.ltb_spec (length b) (at_ + 12 + Z.to_nat len)) as [|Hend]; [done|].
    destruct (utf8_valid (slice (at_ + 12) (Z.to_nat len) b)) eqn:Hu; [|done].
    apply (Hstep (mkPending id (Some (slice (at_ + 12) (Z.to_nat len) b))) (drop (at_ + 12 + Z.to_nat len) b)); [|lia| |done].
    + split_and!; [done..|]. intros nm [= <-]. split_and!; [by apply Forall_slice|done|]. rewrite length_slice by lia.
      unfold EVTC_PENDING_NAME_ABSENT in Habs. ulia.
    + rewrite Hdrop. unfold encode_pending. cbn [fst snd pend_name pend_name_id]. rewrite length_slice, Z2Nat.id by ulia.
      rewrite <- !app_assoc. do 3 f_equal. apply drop_slice_cons.
Qed.
End Table.

Section Section_.
Context {M P : Type} `{!GuestSdk M, !GuestSdkOk M}.
Local Notation Host := (DetChannelHost M P).

(** ** The host's invariant *)

Definition attached_status (h : Host) : Prop :=
  match channel h with
  | Some _ => channel_gpa h <> None /\
      (init_status h = status_u32 StatusOk \/ init_status h = status_u32 AlreadyAttached)
  | None => channel_gpa h = None /\ pending_injects h = [] /\
      (init_status h = INIT_STATUS_NEVER_COMMITTED \/ init_status h = status_u32 BadGpa \/
       init_status h = status_u32 BadMagicVersion)
  end.
Definition host_wf (h : Host) : Prop :=
  (u32 (init_lo h) /\ u32 (init_hi h) /\ u32 (init_status h)) /\
  (forall i, inject_iseq h = Some i -> u32 i) /\ (forall a, last_quiesce_ack h = Some a -> u32 a) /\
  (forall g, channel_gpa h = Some g -> u64 g) /\ attached_status h /\
  bt_sorted (pending_injects h) /\ Forall entry_ok (pending_injects h) /\
  bt_sorted (restored_pending_injects h) /\
  (forall i, i ∈ (restored_pending_injects h).*1 -> i ∈ (pending_injects h).*1).

(** ** The fixed words of a section *)

(** The words of a section, as the restore reads them. *)
Record words := mkWords {
  w_lo : Z; w_hi : Z; w_status : Z; w_iseq : option Z; w_ack : option Z; w_chan : option (Z * Z * Z); w_count : Z }.
Definition words_ok (w : words) : Prop :=
  u32 (w_lo w) /\ u32 (w_hi w) /\ u32 (w_status w) /\ (forall i, w_iseq w = Some i -> u32 i) /\
  (forall a, w_ack w = Some a -> u32 a) /\ (forall g c i, w_chan w = Some (g, c, i) -> u64 g /\ u32 c /\ u32 i) /\
  u32 (w_count w).
Definition encode_words (w : words) : bytes :=
  le_bytes 4 (w_lo w) ++ le_bytes 4 (w_hi w) ++ le_bytes 4 (w_status w) ++
  encode_flagged (w_iseq w) ++ encode_flagged (w_ack w) ++
  match w_chan w with Some (g, c, i) => [1] ++ le_bytes 8 g ++ le_bytes 4 c ++ le_bytes 4 i | None => [0] ++ zeros 16 end ++
  le_bytes 4 (w_count w).
Definition host_words (h : Host) : words :=
  mkWords (init_lo h) (init_hi h) (init_status h) (inject_iseq h) (last_quiesce_ack h)
    match channel h, channel_gpa h with
    | Some c, Some g => Some (g, ring_c (producer_seqs_of c), ring_i (producer_seqs_of c))
    | _, _ => None
    end (Z.of_nat (length (pending_injects h))).

Lemma evtc_snapshot_words (h : Host) :
  evtc_snapshot h = encode_words (host_words h) ++ concat (encode_pending <$> pending_injects h).
Proof.
  unfold evtc_snapshot, encode_words, encode_channel, host_words. cbn [w_lo w_hi w_status w_iseq w_ack w_chan w_count].
  rewrite <- !app_assoc. by destruct (channel h), (channel_gpa h).
Qed.

Lemma host_words_ok h : host_wf h -> evtc_fits h -> words_ok (host_words h).
Proof.
  intros ((H1 & H2 & H3) & H4 & H5 & H6 & H7 & _) [Hf _]. unfold words_ok, host_words. cbn [w_lo w_hi w_status w_iseq w_ack w_chan w_count].
  split_and!; try done; [|ulia]. intros g c i. destruct (channel h) as [ch|]; [|done]. destruct (channel_gpa h) as [gp|] eqn:Eg; [|done].
  intros [= -> <- <-]. destruct (seqs_u32 ch). split_and!; [by apply H6|done..].
Qed.

Lemma length_encode_words w : length (encode_words w) = EVTC_LEN.
Proof.
  unfold encode_words, encode_flagged. rewrite !length_app, !length_le_bytes. destruct (w_chan w) as [[[g c] i]|]; reflexivity.
Qed.

(** A section that begins with [encode_words w]: what sits where. *)
Lemma words_at w t : words_ok w -> let b := encode_words w ++ t in
  of_le (slice 0 4 b) = w_lo w /\ of_le (slice 4 4 b) = w_hi w /\ of_le (slice 8 4 b) = w_status w /\
  nth 12 b 0 = (if w_iseq w then 1 else 0) /\ of_le (slice 13 4 b) = default 0 (w_iseq w) /\
  nth 17 b 0 = (if w_ack w then 1 else 0) /\ of_le (slice 18 4 b) = default 0 (w_ack w) /\
  nth 22 b 0 = (if w_chan w then 1 else 0) /\
  (w_chan w = None -> slice 23 16 b = zeros 16) /\
  (forall g c i, w_chan w = Some (g, c, i) ->
    of_le (slice 23 8 b) = g /\ of_le (slice 31 4 b) = c /\ of_le (slice 35 4 b) = i) /\
  of_le (slice 39 4 b) = w_count w.
Proof.
  intros (H1 & H2 & H3 & H4 & H5 & H6 & H7) b.
  assert (forall o, (forall x, o = Some x -> u32 x) -> of_le (le_bytes 4 (default 0 o)) = default 0 o) as Hd.
  { intros [x|] Ho; [by apply of_le_u32, Ho|reflexivity]. }
  unfold b, encode_words, encode_flagged. rewrite <- !app_assoc.
  pose proof (of_le_u32 _ H1) as E1. pose proof (of_le_u32 _ H2) as E2. pose proof (of_le_u32 _ H3) as E3.
  pose proof (Hd _ H4) as E4. pose proof (Hd _ H5) as E5. pose proof (of_le_u32 _ H7) as E7.
  destruct (w_chan w) as [[[g c] i]|].
  - destruct (H6 g c i eq_refl) as (Hg & Hc & Hi).
    pose proof (of_le_u64 _ Hg) as E8. pose proof (of_le_u32 _ Hc) as E9. pose proof (of_le_u32 _ Hi) as E10.
    split_and!; try done. intros ? ? ? [= <- <- <-]. done.
  - split_and!; done.
Qed.

Definition read_words (b : bytes) : words :=
  let at_ o := of_le (slice o 4 b) in
  let flagged f o := if nth f b 0 =? 1 then Some (at_ o) else None in
  mkWords (at_ 0%nat) (at_ 4%nat) (at_ 8%nat) (flagged 12%nat 13%nat) (flagged 17%nat 18%nat)
    (if nth 22 b 0 =? 1 then Some (of_le (slice 23 8 b), at_ 31%nat, at_ 35%nat) else None) (at_ 39%nat).

Lemma present_flag b f lo hi fl : evtc_present_flag b f lo hi = Some fl ->
  if fl then nth f b 0 = 1 else nth f b 0 = 0 /\ slice lo (hi - lo) b = replicate (length (slice lo (hi - lo) b)) 0.
Proof.
  unfold evtc_present_flag. destruct (Z.eqb_spec (nth f b 0) 0).
  - case_match eqn:Ex; intros [= <-]. split; [done|]. by apply existsb_nonzero_false.
  - destruct (Z.eqb_spec (nth f b 0) 1); [by intros [= <-]|done].
Qed.

Lemma nth_slice b o : (o < length b)%nat -> slice o 1 b = [nth o b 0].
Proof.
  intros Ho. unfold slice. rewrite (drop_S b (nth o b 0) o); [done|]. destruct (lookup_lt_is_Some_2 b o Ho) as [x Hx].
  by rewrite (nth_lookup_Some _ _ _ _ Hx).
Qed.

Lemma flagged_bytes b f fl : (f + 5 <= length b)%nat -> bytes_ok b -> evtc_present_flag b f (f + 1) (f + 5) = Some fl ->
  encode_flagged (if nth f b 0 =? 1 then Some (of_le (slice (f + 1) 4 b)) else None) = slice f 5 b.
Proof.
  intros Hl Hb Hf%present_flag. replace (f + 5 - (f + 1))%nat with 4%nat in Hf by lia.
  assert (slice f 5 b = [nth f b 0] ++ slice (f + 1) 4 b) as ->.
  { rewrite <- nth_slice by lia. unfold slice. rewrite <- (take_drop 1 (take 5 (drop f b))). rewrite take_take. f_equal.
    by rewrite skipn_firstn_comm, drop_drop. }
  unfold encode_flagged. destruct fl.
  - rewrite Hf. change (1 =? 1) with true. cbv iota. cbn [default from_option]. unfold id. by rewrite le_bytes_slice by (done || lia).
  - destruct Hf as [-> ->]. cbn. rewrite length_slice by lia. done.
Qed.

(** A valid prefix is the encoding of its words. *)
Lemma prefix_words b attached : bytes_ok b -> (EVTC_LEN <= length b)%nat -> validate_evtc_prefix b = Some attached ->
  let w := read_words b in
  words_ok w /\ b = encode_words w ++ drop EVTC_LEN b /\ attached = (if w_chan w then true else false) /\
  if attached then w_status w = status_u32 StatusOk \/ w_status w = status_u32 AlreadyAttached
  else w_status w = INIT_STATUS_NEVER_COMMITTED \/ w_status w = status_u32 BadGpa \/ w_status w = status_u32 BadMagicVersion.
Proof.
  intros Hb Hl Hv w. unfold EVTC_LEN, EVTC_V1_LEN in Hl.
  assert (forall o, (o + 4 <= length b)%nat -> u32 (of_le (slice o 4 b))) as Hw.
  { intros o Ho. pose proof (of_le_bound (slice o 4 b)) as H. rewrite length_slice in H by done. apply H. by apply Forall_slice. }
  assert (u64 (of_le (slice 23 8 b))) as Hg.
  { pose proof (of_le_bound (slice 23 8 b)) as H. rewrite length_slice in H by (cbn in *; lia). apply H. by apply Forall_slice. }
  unfold validate_evtc_prefix in Hv. destruct (length b <? EVTC_V1_LEN)%nat; [done|].
  apply bind_Some in Hv as (st & Hst & (f1 & Hf1 & (f2 & Hf2 & (f3 & Hf3 & Hv)%bind_Some)%bind_Some)%bind_Some).
  pose proof (flagged_bytes b 12 f1 ltac:(cbn in *; lia) Hb Hf1) as E1.
  pose proof (flagged_bytes b 17 f2 ltac:(cbn in *; lia) Hb Hf2) as E2. apply present_flag in Hf3. cbn [Nat.add] in E1, E2.
  assert (attached = f3) as -> by (destruct f3, st as [[]|]; congruence).
  split_and!.
  - unfold w, read_words, words_ok. cbn [w_lo w_hi w_status w_iseq w_ack w_chan w_count].
    split_and!; try (apply Hw; cbn in *; lia).
    + destruct (nth 12 b 0 =? 1); intros ? [= <-]. apply Hw. cbn in *; lia.
    + destruct (nth 17 b 0 =? 1); intros ? [= <-]. apply Hw. cbn in *; lia.
    + destruct (nth 22 b 0 =? 1); intros ? ? ? [= <- <- <-]. split_and!; [done|apply Hw; cbn in *; lia..].
  - unfold w, read_words, encode_words. cbn [w_lo w_hi w_status w_iseq w_ack w_chan w_count].
    rewrite !le_bytes_slice by (done || (cbn in *; lia)). rewrite E1, E2.
    rewrite <- (drop_0 b) at 1. rewrite (drop_slice_cons 0 4), <- !app_assoc. f_equal. cbn [Nat.add].
    rewrite (drop_slice_cons 4 4). f_equal. cbn [Nat.add]. rewrite (drop_slice_cons 8 4). f_equal. cbn [Nat.add].
    rewrite (drop_slice_cons 12 5). f_equal. cbn [Nat.add]. rewrite (drop_slice_cons 17 5). f_equal. cbn [Nat.add].
    rewrite (drop_slice_cons 22 1), nth_slice by (cbn in *; lia). cbn [Nat.add]. destruct f3.
    + rewrite Hf3. change (1 =? 1) with true. cbv iota. rewrite !le_bytes_slice by (done || (cbn in *; lia)). rewrite <- !app_assoc.
      f_equal. rewrite (drop_slice_cons 23 8). f_equal. cbn [Nat.add]. rewrite (drop_slice_cons 31 4). f_equal. cbn [Nat.add].
      rewrite (drop_slice_cons 35 4). f_equal. cbn [Nat.add]. apply (drop_slice_cons 39 4).
    + destruct Hf3 as [-> Hz]. change (0 =? 1) with false. cbv iota. rewrite <- app_assoc. f_equal.
      rewrite (drop_slice_cons 23 16). change (39 - 23)%nat with 16%nat in Hz. rewrite Hz, length_slice by (cbn in *; lia). f_equal.
      apply (drop_slice_cons 39 4).
  - unfold w, read_words. cbn [w_chan]. destruct f3; [by rewrite Hf3|]. by destruct Hf3 as [-> _].
  - unfold w, read_words. cbn [w_status]. destruct (Z.eqb_spec (of_le (slice 8 4 b)) INIT_STATUS_NEVER_COMMITTED).
    + injection Hst as <-. destruct f3; [done|]. by left.
    + destruct (InitStatus_from_u32 _) as [x|] eqn:Ex; [|done]. injection Hst as <-. apply status_from in Ex.
      destruct f3, x; try done; eauto.
Qed.

(** What a restore reads, in terms of the words and the table. *)
Definition restored_host (m : M) (w : words) (l : btree PendingInjectSnapshot) (plan : P) : option Host :=
  r ← match w_chan w with
      | Some (g, c, i) =>
          match attach m g with
          | inl ch => let ch := set_producer_seqs (mkSeqs c i) ch in Some (Some ch, Some g, read_manifest m ch)
          | inr _ => None
          end
      | None => Some (None, None, None)
      end;
  let '(ch, gpa, mf) := r : option Channel * option Z * option RegionManifest in
  let metrics := if bool_decide (ch <> None) && bool_decide (mf = None)
                 then count_manifest_failure DetChannelMetrics_default else DetChannelMetrics_default in
  Some (mkHost ch (w_lo w) (w_hi w) (w_status w) gpa mf (w_iseq w) l l (InjectResponder_new plan) (w_ack w) None metrics).

Lemma evtc_restore_read m b plan (h : Host) : bytes_ok b ->
  evtc_restore m b EVTC_VERSION plan h =
  (attached ← validate_evtc_prefix b; l ← evtc_pending_injects b EVTC_VERSION attached; restored_host m (read_words b) l plan).
Proof.
  intros Hb. unfold evtc_restore, validate_evtc_section. change (negb (EVTC_VERSION =? 1) && negb (EVTC_VERSION =? EVTC_VERSION)) with false. cbv iota.
  destruct (validate_evtc_prefix b) as [att|] eqn:Hp; [|done]. cbn [mbind option_bind].
  destruct (evtc_pending_injects b EVTC_VERSION att) as [l|] eqn:El; [|done]. cbn [mbind option_bind].
  assert (EVTC_LEN <= length b)%nat as Hlen.
  { unfold evtc_pending_injects in El. change (EVTC_VERSION =? 1) with false in El. change (negb (EVTC_VERSION =? EVTC_VERSION)) with false in El.
    cbn [orb] in El. destruct (Nat.ltb_spec (length b) EVTC_LEN); [done|lia]. }
  destruct (prefix_words b att Hb Hlen Hp) as (_ & _ & Ha & _).
  assert ((nth 22 b 0 =? 1) = att) as Hn by (rewrite Ha; unfold read_words; cbn [w_chan]; by destruct (nth 22 b 0 =? 1)).
  rewrite Hn, El. cbn [mbind option_bind]. unfold restored_host, read_words. cbn [w_chan w_lo w_hi w_status w_iseq w_ack]. rewrite Hn.
  by destruct att; [destruct (attach m _)|].
Qed.

(** The table of a version-2 section, decoded and encoded. *)
Lemma pending_decode b attached l : bytes_ok b -> evtc_pending_injects b EVTC_VERSION attached = Some l ->
  (EVTC_LEN <= length b)%nat /\ drop EVTC_LEN b = concat (encode_pending <$> l) /\ bt_sorted l /\ Forall entry_ok l /\
  of_le (slice EVTC_V1_LEN 4 b) = Z.of_nat (length l) /\ (attached = false -> l = []).
Proof.
  intros Hb. unfold evtc_pending_injects. change (EVTC_VERSION =? 1) with false. change (negb (EVTC_VERSION =? EVTC_VERSION)) with false.
  cbn [orb]. destruct (Nat.ltb_spec (length b) EVTC_LEN) as [|Hlen]; [done|].
  set (count := of_le (slice EVTC_V1_LEN 4 b)).
  assert (0 <= count) as Hc by (apply of_le_bound; by apply Forall_slice).
  destruct (negb attached && negb (Z.to_nat count =? 0)%nat) eqn:Hna; [done|].
  intros ([at' m] & He & Hx)%bind_Some. cbn [fst snd] in Hx. destruct (Nat.eqb_spec at' (length b)) as [->|]; [|done]. injection Hx as <-.
  apply evtc_entries_decode in He as (l' & Hl & Hn & Hok & Hs & _ & Hd); [|done..|constructor|done]. cbn [app] in Hl. subst l'.
  rewrite drop_all, app_nil_r in Hd. split_and!; try done; [lia|]. intros ->. cbn [negb andb] in Hna. destruct m; [done|]. cbn [length] in Hn.
  apply negb_false_iff, Nat.eqb_eq in Hna. lia.
Qed.
Lemma pending_encode w l attached : words_ok w -> w_count w = Z.of_nat (length l) -> Forall entry_ok l -> bt_sorted l ->
  (attached = false -> l = []) ->
  evtc_pending_injects (encode_words w ++ concat (encode_pending <$> l)) EVTC_VERSION attached = Some l.
Proof.
  intros Hw Hc Hok Hs Ha. unfold evtc_pending_injects. change (EVTC_VERSION =? 1) with false. change (negb (EVTC_VERSION =? EVTC_VERSION)) with false.
  cbn [orb]. destruct (Nat.ltb_spec (length (encode_words w ++ concat (encode_pending <$> l))) EVTC_LEN) as [Hx|_].
  { rewrite length_app, length_encode_words in Hx. lia. }
  destruct (words_at w (concat (encode_pending <$> l)) Hw) as (_ & _ & _ & _ & _ & _ & _ & _ & _ & _ & E).
  change EVTC_V1_LEN with 39%nat. rewrite E, Hc, Nat2Z.id.
  destruct (negb attached && negb (length l =? 0)%nat) eqn:Hx.
  { destruct attached; [done|]. by rewrite Ha in Hx. }
  pose proof (evtc_entries_encode l (encode_words w) None [] Hok Hs) as H. rewrite length_encode_words in H. rewrite H by done.
  cbn [mbind option_bind fst snd app]. by rewrite Nat.eqb_refl.
Qed.

Lemma words_encode_valid w t : words_ok w ->
  (if w_chan w then w_status w = status_u32 StatusOk \/ w_status w = status_u32 AlreadyAttached
   else w_status w = INIT_STATUS_NEVER_COMMITTED \/ w_status w = status_u32 BadGpa \/ w_status w = status_u32 BadMagicVersion) ->
  validate_evtc_prefix (encode_words w ++ t) = Some (if w_chan w then true else false).
Proof.
  intros Hw Hs. unfold validate_evtc_prefix. destruct (Nat.ltb_spec (length (encode_words w ++ t)) EVTC_V1_LEN) as [Hx|_].
  { rewrite length_app, length_encode_words in Hx. unfold EVTC_LEN in Hx. lia. }
  destruct (words_at w t Hw) as (_ & _ & E3 & E4 & E5 & E6 & E7 & E8 & E9 & _). set (b := encode_words w ++ t) in *.
  rewrite E3.
  assert (forall f (o : option Z), nth f b 0 = (if o then 1 else 0) -> of_le (slice (f + 1) 4 b) = default 0 o -> bytes_ok (slice (f + 1) 4 b) ->
    evtc_present_flag b f (f + 1) (f + 5) = Some (if o then true else false)) as Hflag.
  { intros f o Hn Ho Hok. unfold evtc_present_flag. rewrite Hn. destruct o as [x|]; [done|]. cbn [default from_option] in Ho.
    change (0 =? 0) with true. cbv iota. replace (f + 5 - (f + 1))%nat with 4%nat by lia.
    rewrite <- (le_bytes_of_le (slice (f + 1) 4 b)) by done. rewrite Ho.
    replace (le_bytes _ 0) with (replicate (length (slice (f + 1) 4 b)) 0); [by rewrite existsb_nonzero_replicate|].
    generalize (length (slice (f + 1) 4 b)). intros n. induction n; [done|]. cbn [replicate le_bytes]. by f_equal. }
  assert (bytes_ok (slice 13 4 b) /\ bytes_ok (slice 18 4 b)) as [B1 B2].
  { unfold b, encode_words, encode_flagged. rewrite <- !app_assoc.
    split; [exact (le_bytes_ok 4 (default 0 (w_iseq w)))|exact (le_bytes_ok 4 (default 0 (w_ack w)))]. }
  pose proof (Hflag 12%nat _ E4 E5 B1) as F1. pose proof (Hflag 17%nat _ E6 E7 B2) as F2. cbn [Nat.add] in F1, F2. rewrite F1, F2.
  assert (evtc_present_flag b 22 23 39 = Some (if w_chan w then true else false)) as ->.
  { unfold evtc_present_flag. rewrite E8. destruct (w_chan w); [done|]. change (0 =? 0) with true. cbv iota.
    change (39 - 23)%nat with 16%nat. by rewrite E9. }
  assert (forall s, w_status w = status_u32 s -> (w_status w =? INIT_STATUS_NEVER_COMMITTED) = false /\
    InitStatus_from_u32 (w_status w) = Some s) as Hst.
  { intros s ->. destruct (status_code s) as (_ & Hne & ->). split; [|done]. by apply Z.eqb_neq. }
  destruct (w_chan w).
  - destruct Hs as [Hs|Hs]; destruct (Hst _ Hs) as [-> ->]; done.
  - destruct Hs as [->|[Hs|Hs]]; [done|destruct (Hst _ Hs) as [-> ->]; done..].
Qed.

Lemma read_words_encode w t : words_ok w -> read_words (encode_words w ++ t) = w.
Proof.
  intros Hw. destruct (words_at w t Hw) as (E1 & E2 & E3 & E4 & E5 & E6 & E7 & E8 & _ & E9 & E10).
  unfold read_words. cbv zeta. rewrite E1, E2, E3, E4, E5, E6, E7, E8, E10.
  destruct w as [lo hi st iq ak [[[g c] i]|] n]; cbn [w_lo w_hi w_status w_iseq w_ack w_chan w_count] in *.
  - destruct (E9 g c i eq_refl) as (-> & -> & ->). by destruct iq, ak.
  - by destruct iq, ak.
Qed.

Lemma host_valid (h : Host) : host_wf h ->
  if w_chan (host_words h)
  then w_status (host_words h) = status_u32 StatusOk \/ w_status (host_words h) = status_u32 AlreadyAttached
  else w_status (host_words h) = INIT_STATUS_NEVER_COMMITTED \/ w_status (host_words h) = status_u32 BadGpa \/
       w_status (host_words h) = status_u32 BadMagicVersion.
Proof.
  intros (_ & _ & _ & _ & Ha & _). unfold attached_status in Ha. unfold host_words. cbn [w_chan w_status].
  destruct (channel h) as [ch|], (channel_gpa h); naive_solver.
Qed.

(** A restored host: its section is the one it was restored from. *)
Lemma restored_host_ok m w l plan h' : words_ok w -> w_count w = Z.of_nat (length l) -> Forall entry_ok l -> bt_sorted l ->
  (w_chan w = None -> l = []) ->
  (if w_chan w then w_status w = status_u32 StatusOk \/ w_status w = status_u32 AlreadyAttached
   else w_status w = INIT_STATUS_NEVER_COMMITTED \/ w_status w = status_u32 BadGpa \/ w_status w = status_u32 BadMagicVersion) ->
  restored_host m w l plan = Some h' ->
  host_words h' = w /\ pending_injects h' = l /\ restored_pending_injects h' = l /\ host_wf h' /\ evtc_fits h' /\
  plan_of (responder h') = plan.
Proof.
  intros (H1 & H2 & H3 & H4 & H5 & H6 & H7) Hc Hok Hs Hn Hst. unfold restored_host.
  assert (Z.of_nat (length l) <= u32_max /\ Forall (fun e => forall n, pend_name e.2 = Some n -> Z.of_nat (length n) <= u32_max) l) as Hfit.
  { rewrite <- Hc. split; [ulia|]. eapply Forall_impl; [exact Hok|]. intros e (_ & _ & He) n Hen. destruct (He n Hen) as (_ & _ & ?). lia. }
  destruct w as [lo hi st iq ak [[[g c] i]|] n]; cbn [w_lo w_hi w_status w_iseq w_ack w_chan w_count] in *.
  - destruct (attach m g) as [ch|]; [|done]. intros [= <-]. destruct (H6 g c i eq_refl) as (Hg & Hcc & Hi).
    unfold host_words, host_wf, attached_status, evtc_fits.
    cbn [channel channel_gpa init_lo init_hi init_status inject_iseq last_quiesce_ack pending_injects restored_pending_injects responder].
    rewrite seqs_set by done. rewrite <- Hc in *. destruct Hfit.
    split_and!; try done; [by intros ? [= <-]|by rewrite plan_new].
  - intros [= <-]. unfold host_words, host_wf, attached_status, evtc_fits.
    cbn [channel channel_gpa init_lo init_hi init_status inject_iseq last_quiesce_ack pending_injects restored_pending_injects responder].
    rewrite <- Hc in *. destruct Hfit. split_and!; try done; [by apply Hn|by rewrite plan_new].
Qed.
End Section_.

(** ** Every operation keeps the invariant *)

Section Reach.
Context {B : Blake3} {M E P : Type} `{!GuestSdk M, !GuestSdkOk M, !FaultPlan M P}.
Local Notation Host := (DetChannelHost M P).
Local Notation Ctx := (DevCtx M E).

(** What run control and the restore engine call; a restore comes with its plan. *)
Inductive host_op :=
| HOut (port value : Z)
| HIn (port : Z)
| HDrain
| HPushCommand (cmd : Command)
| HPushCtrl (rec : WorkloadCtrl)
| HTakeAck
| HSetSeqs (seqs : ProducerSeqs)
| HRestore (b : bytes) (version : Z) (plan : P).
Definition host_step (op : host_op) (hc : Host * Ctx) : Host * Ctx :=
  let '(h, c) := hc in
  match op with
  | HOut port value => let '(_, h, c) := pio_out port value h c in (h, c)
  | HIn port => let '(_, h, c) := pio_in port h c in (h, c)
  | HDrain => let '(_, h, c) := drain_at_pause h c in (h, c)
  | HPushCommand cmd => let '(_, h, c) := push_command cmd h c in (h, c)
  | HPushCtrl rec => let '(_, h, c) := push_workload_ctrl rec h c in (h, c)
  | HTakeAck => ((take_quiesce_ack h).2, c)
  | HSetSeqs seqs => (restore_producer_seqs seqs h, c)
  | HRestore b version plan => (default h (evtc_restore (ctx_mem c) b version plan h), c)
  end.
Definition op_ok (op : host_op) : Prop :=
  match op with HOut _ value => u32 value | HRestore b _ _ => bytes_ok b | _ => True end.
Definition host_run (ops : list host_op) (hc : Host * Ctx) : Host * Ctx := foldl (fun s op => host_step op s) hc ops.

Lemma new_wf plan : host_wf (DetChannelHost_new plan : Host).
Proof.
  unfold host_wf, attached_status. cbn. split_and!; try done; first [by left|constructor|set_solver].
Qed.

(** Replacing the channel by another leaves the invariant alone. *)
Lemma set_channel_wf (h : Host) ch ch' : channel h = Some ch -> host_wf h -> host_wf (set_channel (Some ch') h).
Proof. unfold host_wf, attached_status, set_channel. cbn. by intros ->. Qed.
Lemma set_metrics_wf f (h : Host) : host_wf h -> host_wf (set_metrics f h).
Proof. done. Qed.

Lemma note_query_wf ev (h : Host) ch : channel h = Some ch ->
  (forall i n, ev_payload ev = OInjectQuery i n -> u32 i /\ u32 n) -> host_wf h ->
  host_wf (note_query ev h) /\ channel (note_query ev h) = Some ch.
Proof.
  intros Hc Hq Hh. unfold note_query. destruct (ev_payload ev) as [| | | | |iseq id| | | | | | | | |]; try done.
  destruct (Hq iseq id eq_refl) as [Hi Hid]. rewrite Hc. cbn [mbind option_bind].
  destruct Hh as (H1 & H2 & H3 & H4 & H5 & H6 & H7 & H8 & H9). split; [|done].
  unfold host_wf, attached_status, set_restored, set_pending in *. cbn. rewrite Hc in *. split_and!; try done; [tauto..| | | |].
  - by apply bt_insert_sorted.
  - apply Forall_forall. intros e He. rewrite Forall_forall in H7.
    assert (e = (iseq, mkPending id (intern_name ch id)) \/ e ∈ pending_injects h) as [->|Hin].
    { clear -He. induction (pending_injects h) as [|[k v] l IH]; cbn in He; [set_solver|]. repeat case_match; set_solver. }
    + split_and!; [done..|]. intros n. cbn. apply intern_str.
    + by apply H7.
  - by apply bt_remove_sorted.
  - intros i Hi'%bt_keys_remove. apply bt_keys_insert. right. by apply H9.
Qed.

Lemma note_events_wf evs : forall (h : Host) (c : Ctx) ch, channel h = Some ch ->
  Forall (fun ev => forall i n, ev_payload ev = OInjectQuery i n -> u32 i /\ u32 n) evs -> host_wf h ->
  host_wf (foldl note_event (h, c) evs).1.
Proof.
  induction evs as [|ev evs IH]; intros h c ch Hc Hf Hh; [done|]. apply Forall_cons in Hf as [He Hf]. cbn [foldl].
  destruct (note_query_wf ev h ch Hc He Hh) as [Hw Hc']. unfold note_event at 2.
  destruct (sdk_event_digest ev) as [[[st ln] dg]|]; eapply IH; done.
Qed.

Lemma drain_wf (h : Host) (c : Ctx) : host_wf h -> host_wf (drain h c).1.2.
Proof.
  intros Hh. unfold drain. destruct (channel h) as [ch|] eqn:Hc; [|done].
  destruct (drain_events (ctx_mem c) ch) as [[[r calls] ch'] m'] eqn:Hd. pose proof (set_channel_wf h ch ch' Hc Hh) as Hw.
  destruct r as [evs|e]; [|done]. apply drained_queries in Hd.
  pose proof (note_events_wf evs (set_channel (Some ch') h) (sink_all calls m' c) ch' eq_refl Hd Hw) as H.
  by destruct (foldl note_event _ evs) as [h1 c1].
Qed.

Lemma push_wf op (h : Host) (c : Ctx) : host_wf h -> host_wf (push_with op h c).1.2.
Proof.
  intros Hh. unfold push_with. destruct (channel h) as [ch|] eqn:Hc; [|done].
  destruct (op (ctx_mem c) ch) as [[[r calls] ch'] m']. by apply (set_channel_wf h ch).
Qed.

Lemma gpa_u64 lo hi : u32 lo -> u32 hi -> u64 (Z.lor (Z.shiftl hi 32) lo).
Proof.
  intros Hl Hh. apply lor_bound; [lia| |ulia]. rewrite Z.shiftl_mul_pow2 by lia. ulia.
Qed.

Lemma channel_init_wf size m (h : Host) : host_wf h ->
  let '(st, h') := channel_init size m h in host_wf (set_init (init_lo h') (init_hi h') (status_u32 st) h').
Proof.
  intros Hh. pose proof Hh as ((H1 & H2 & H3) & H4 & H5 & H6 & H7 & H8). unfold channel_init. destruct (bool_decide (channel h <> None)) eqn:Eb.
  - apply bool_decide_eq_true in Eb. unfold host_wf, attached_status in *. cbn. destruct (channel h) as [ch|]; [|done].
    destruct (status_code AlreadyAttached). split_and!; try done; first [by right|tauto].
  - apply bool_decide_eq_false, dec_stable in Eb.
    assert (forall st, st = BadGpa \/ st = BadMagicVersion -> host_wf (set_init (init_lo h) (init_hi h) (status_u32 st) h)) as Hbad.
    { intros st Hst. unfold host_wf, attached_status in *. cbn. rewrite Eb in *. destruct (status_code st).
      split_and!; try done; first [tauto|naive_solver]. }
    destruct (negb (size =? CHANNEL_SIZE_PAGES)); [by apply Hbad; right|].
    destruct (negb (_ mod _ =? 0)); [by apply Hbad; left|].
    destruct (attach m _) as [ch|e]; [|by apply Hbad, attach_fails].
    assert (u64 (Z.lor (Z.shiftl (init_hi h) 32) (init_lo h))) as Hg by by apply gpa_u64.
    destruct (status_code StatusOk). unfold host_wf, attached_status in *. rewrite Eb in *.
    destruct (read_manifest m ch); cbn; (split_and!; try done; first [by intros ? [= <-]|by left|tauto]).
Qed.

(** Forgetting one query, in the mirror and among the restored. *)
Definition answered (i : Z) (h h' : Host) : Prop :=
  (channel h' = channel h \/ (channel h <> None /\ channel h' <> None)) /\
  (init_lo h' = init_lo h /\ init_hi h' = init_hi h /\ init_status h' = init_status h) /\ channel_gpa h' = channel_gpa h /\
  inject_iseq h' = None /\ last_quiesce_ack h' = last_quiesce_ack h /\
  pending_injects h' = bt_remove i (pending_injects h) /\
  (restored_pending_injects h' = restored_pending_injects h /\ bt_get i (restored_pending_injects h) = None \/
   restored_pending_injects h' = bt_remove i (restored_pending_injects h)).

Lemma elem_of_bt_remove {V} i (l : btree V) e : e ∈ bt_remove i l -> e ∈ l.
Proof. induction l as [|[k v] l IH]; [done|]. cbn. case_match; set_solver. Qed.

Lemma answered_wf i (h h' : Host) : answered i h h' -> host_wf h -> host_wf h'.
Proof.
  intros (Hc & (E1 & E2 & E3) & E4 & E5 & E6 & E7 & E8) (H1 & H2 & H3 & H4 & H5 & H6 & H7 & H8 & H9).
  assert (forall j, j <> i -> j ∈ (pending_injects h).*1 -> j ∈ (bt_remove i (pending_injects h)).*1) as Hk.
  { intros j Hj Hin%bt_get_key. apply bt_get_key. rewrite bt_get_remove by done. destruct (Z.eqb_spec j i); done. }
  unfold host_wf. rewrite E1, E2, E3, E4, E5, E6, E7. split; [done|]. split; [done|]. split; [done|]. split; [done|]. split_and!.
  - unfold attached_status in *. rewrite E3, E4, E7. destruct Hc as [->|[? ?]].
    + destruct (channel h); [done|]. destruct H5 as (? & -> & ?). done.
    + destruct (channel h); [|done]. by destruct (channel h').
  - by apply bt_remove_sorted.
  - rewrite Forall_forall in H7 |- *. intros e He%elem_of_bt_remove. by apply H7.
  - destruct E8 as [[-> _]| ->]; [done|by apply bt_remove_sorted].
  - intros j Hj. destruct E8 as [[E8 Hg]|E8]; rewrite E8 in Hj.
    + apply Hk; [|by apply H9]. intros ->. apply bt_get_key in Hj. by rewrite Hg in Hj.
    + apply Hk; [|by apply H9; eapply bt_keys_remove]. intros ->. apply bt_get_key in Hj. by rewrite bt_get_remove, Z.eqb_refl in Hj.
Qed.

Lemma inject_answer_wf (h : Host) (c : Ctx) : host_wf h -> host_wf (inject_answer h c).1.2.
Proof.
  intros Hh. unfold inject_answer. destruct (inject_iseq h) as [iseq|]; [|done]. cbn [channel set_inject_iseq].
  destruct (channel h) as [ch|] eqn:Hc.
  2:{ destruct Hh as (H1 & H2 & H3 & H4 & H5 & H6). unfold host_wf, attached_status in *. cbn. rewrite Hc in *. done. }
  cbn [restored_pending_injects set_inject_iseq]. destruct (bt_get iseq (restored_pending_injects h)) as [pd|] eqn:Hg.
  - destruct (plan_decide _ _ _ _) as [dec p']. apply (answered_wf iseq h); [|done].
    unfold answered. cbn. rewrite Hc. split_and!; try done; first [by left|by right].
  - destruct (responder_answer plan_decide _ _ _ _) as [[[[v calls] ch'] m'] r']. apply (answered_wf iseq h); [|done].
    unfold answered. cbn. rewrite Hc. split_and!; try done; first [by left|by right].
Qed.

Lemma pio_out_wf port value (h : Host) (c : Ctx) : u32 value -> host_wf h -> host_wf (pio_out port value h c).1.2.
Proof.
  intros Hv Hh. unfold pio_out. pose proof (channel_init_wf value (ctx_mem c) h Hh) as Hi.
  destruct (port =? PORT_INIT_LO); [destruct Hh as ((H1 & H2 & H3) & Hh); done|].
  destruct (port =? PORT_INIT_HI); [destruct Hh as ((H1 & H2 & H3) & Hh); done|].
  destruct (port =? PORT_INIT_GO); [by destruct (channel_init value (ctx_mem c) h)|].
  destruct (port =? PORT_DOORBELL); [destruct (Z.land _ _ =? 0); [done|by apply drain_wf]|].
  destruct Hh as (H1 & H2 & H3 & Hh).
  destruct (port =? PORT_INJECT); [apply drain_wf; split; [done|]; split; [by intros ? [= <-]|done]|].
  destruct (port =? PORT_QUIESCE_ACK); [|done]. split; [done|]. split; [done|]. split; [by intros ? [= <-]|done].
Qed.
Lemma pio_in_wf port (h : Host) (c : Ctx) : host_wf h -> host_wf (pio_in port h c).1.2.
Proof. intros Hh. unfold pio_in. repeat (case_match; try done). by apply inject_answer_wf. Qed.

(** A version-1 section is the version-2 section with an empty table. *)
Lemma evtc_v1 m b plan (h : Host) : length b = EVTC_V1_LEN ->
  evtc_restore m b 1 plan h = evtc_restore m (b ++ zeros 4) EVTC_VERSION plan h.
Proof.
  intros Hl. assert (forall o n, (o + n <= 39)%nat -> slice o n (b ++ zeros 4) = slice o n b) as Hs.
  { intros o n Ho. apply slice_app_l. rewrite Hl. exact Ho. }
  assert (forall o, (o < 39)%nat -> nth o (b ++ zeros 4) 0 = nth o b 0) as Hn by (intros o Ho; apply app_nth1; by rewrite Hl).
  assert (forall f lo hi, (f < 39)%nat -> (lo <= hi <= 39)%nat -> evtc_present_flag (b ++ zeros 4) f lo hi = evtc_present_flag b f lo hi) as Hf.
  { intros f lo hi Hf Hh. unfold evtc_present_flag. by rewrite Hn, Hs by lia. }
  assert (validate_evtc_prefix (b ++ zeros 4) = validate_evtc_prefix b) as Hp.
  { unfold validate_evtc_prefix. rewrite length_app, Hl. cbn [Nat.ltb Nat.leb]. rewrite Hs, !Hf by lia. done. }
  assert (forall att, evtc_pending_injects b 1 att = Some [] /\ evtc_pending_injects (b ++ zeros 4) EVTC_VERSION att = Some []) as Hpd.
  { intros att. unfold evtc_pending_injects. rewrite length_app, Hl, Nat.eqb_refl. split; [done|].
    change (EVTC_VERSION =? 1) with false. change (negb (EVTC_VERSION =? EVTC_VERSION)) with false. cbn [orb].
    change (EVTC_V1_LEN + length (zeros 4) <? EVTC_LEN)%nat with false. cbv iota.
    rewrite slice_app_r, Hl, Nat.sub_diag by lia. by rewrite andb_false_r. }
  unfold evtc_restore, validate_evtc_section. rewrite Hp. destruct (validate_evtc_prefix b) as [att|]; [|done]. cbn [mbind option_bind].
  destruct (Hpd att) as [-> ->]. cbn [mbind option_bind]. rewrite !Hn, !Hs by lia. by destruct (Hpd (nth 22 b 0 =? 1)) as [-> ->].
Qed.

Lemma restore_v2_ok m b plan (h h' : Host) : bytes_ok b -> evtc_restore m b EVTC_VERSION plan h = Some h' ->
  evtc_snapshot h' = b /\ restored_pending_injects h' = pending_injects h' /\ host_wf h' /\ evtc_fits h' /\ plan_of (responder h') = plan.
Proof.
  intros Hb H. rewrite evtc_restore_read in H by done.
  apply bind_Some in H as (att & Hp & (l & Hl & H)%bind_Some). apply pending_decode in Hl as (Hlen & Hd & Hs & Hok & Hc & Hna); [|done].
  destruct (prefix_words b att Hb Hlen Hp) as (Hw & Hb' & Ha & Hst).
  apply restored_host_ok in H as (Hww & Hpi & Hri & Hwf & Hfit & Hpl); [|done..| |].
  - split_and!; [|congruence|done..]. rewrite evtc_snapshot_words, Hww, Hpi, <- Hd. done.
  - intros Hx. apply Hna. by rewrite Ha, Hx.
  - by rewrite Ha in Hst; destruct (w_chan (read_words b)).
Qed.

Lemma restore_wf m b version plan (h h' : Host) : bytes_ok b -> evtc_restore m b version plan h = Some h' -> host_wf h'.
Proof.
  intros Hb H. destruct (decide (version = 1)) as [->|Hv].
  - assert (length b = EVTC_V1_LEN) as Hl.
    { unfold evtc_restore, validate_evtc_section in H. cbn [Z.eqb Pos.eqb negb andb] in H. destruct (validate_evtc_prefix b) as [b0|]; [|done].
      cbn [mbind option_bind] in H. destruct (evtc_pending_injects b 1 b0) eqn:Ep; [|done]. unfold evtc_pending_injects in Ep.
      change (1 =? 1) with true in Ep. cbv iota in Ep. by destruct (Nat.eqb_spec (length b) EVTC_V1_LEN). }
    rewrite evtc_v1 in H by done. apply restore_v2_ok in H; [by destruct H as (_ & _ & ? & _)|].
    apply Forall_app. split; [done|]. apply bytes_ok_replicate.
  - destruct (decide (version = EVTC_VERSION)) as [->|Hv2]; [by apply restore_v2_ok in H as (_ & _ & ? & _)|].
    unfold evtc_restore, validate_evtc_section in H. destruct (Z.eqb_spec version 1); [done|].
    by destruct (Z.eqb_spec version EVTC_VERSION).
Qed.

Lemma host_step_wf op (hc : Host * Ctx) : op_ok op -> host_wf hc.1 -> host_wf (host_step op hc).1.
Proof.
  destruct hc as [h c]. cbn [fst]. intros Ho Hh. destruct op as [port v|port| |cmd|rec| |seqs|b ver plan]; cbn [host_step].
  - pose proof (pio_out_wf port v h c Ho Hh) as H. by destruct (pio_out port v h c) as [[? ?] ?].
  - pose proof (pio_in_wf port h c Hh) as H. by destruct (pio_in port h c) as [[? ?] ?].
  - pose proof (drain_wf h c Hh) as H. unfold drain_at_pause. by destruct (drain h c) as [[? ?] ?].
  - pose proof (push_wf (channel_push_command cmd) h c Hh) as H. unfold push_command. by destruct (push_with _ h c) as [[? ?] ?].
  - pose proof (push_wf (channel_push_workload_ctrl rec) h c Hh) as H. unfold push_workload_ctrl. by destruct (push_with _ h c) as [[? ?] ?].
  - destruct Hh as (H1 & H2 & H3 & Hh). cbn. split; [done|]. split; [done|]. by split.
  - cbn. unfold restore_producer_seqs. destruct (channel h) as [ch|] eqn:Hc; [by apply (set_channel_wf h ch)|].
    destruct Hh as (H1 & H2 & H3 & H4 & H5 & H6). unfold host_wf, attached_status in *. cbn. rewrite Hc in *. done.
  - cbn. destruct (evtc_restore (ctx_mem c) b ver plan h) as [h'|] eqn:Hr; [|done]. cbn. by eapply restore_wf.
Qed.

Lemma host_run_wf ops : forall hc : Host * Ctx, Forall op_ok ops -> host_wf hc.1 -> host_wf (host_run ops hc).1.
Proof.
  induction ops as [|op ops IH]; intros hc Ho Hh; [done|]. apply Forall_cons in Ho as [Ho Hos].
  apply IH; [done|]. by apply host_step_wf.
Qed.

Lemma encode_pending_ok e : entry_ok e -> bytes_ok (encode_pending e).
Proof.
  intros (_ & _ & Hn). unfold encode_pending. apply Forall_app. split; [apply le_bytes_ok|]. apply Forall_app. split; [apply le_bytes_ok|].
  destruct (pend_name e.2) as [n|]; [|apply le_bytes_ok]. apply Forall_app. split; [apply le_bytes_ok|by apply Hn].
Qed.
Lemma encode_words_ok w : bytes_ok (encode_words w).
Proof.
  unfold encode_words, encode_flagged, bytes_ok. rewrite !Forall_app.
  assert (forall o : option Z, Forall u8 [if o then 1 else 0]) as Hf by (intros []; repeat constructor; ulia).
  assert (Forall u8 [1] /\ Forall u8 [0]) as [? ?] by (split; repeat constructor; ulia).
  assert (forall n z, Forall u8 (le_bytes n z)) as Hl by apply le_bytes_ok.
  split_and!; auto. destruct (w_chan w) as [[[g c] i]|]; repeat (apply Forall_app; split); auto.
  apply bytes_ok_replicate.
Qed.
Lemma evtc_snapshot_ok (h : Host) : host_wf h -> bytes_ok (evtc_snapshot h).
Proof.
  intros (_ & _ & _ & _ & _ & _ & Hok & _). rewrite evtc_snapshot_words. apply Forall_app. split; [apply encode_words_ok|].
  induction Hok as [|e l He _ IH]; [constructor|]. cbn [fmap list_fmap concat]. apply Forall_app. split; [by apply encode_pending_ok|done].
Qed.

Lemma restore_snapshot_ok m plan (h h0 : Host) : host_wf h -> evtc_fits h ->
  (forall g, channel_gpa h = Some g -> exists ch, attach m g = inl ch) ->
  exists h', evtc_restore m (evtc_snapshot h) EVTC_VERSION plan h0 = Some h' /\ host_words h' = host_words h /\
    pending_injects h' = pending_injects h /\ restored_pending_injects h' = pending_injects h /\ plan_of (responder h') = plan.
Proof.
  intros Hh Hf Ha. pose proof (host_words_ok h Hh Hf) as Hw. pose proof (host_valid h Hh) as Hv.
  pose proof Hh as (_ & _ & _ & _ & Hst & Hs & Hok & _).
  assert (w_chan (host_words h) = None -> pending_injects h = []) as Hnone.
  { unfold host_words. cbn [w_chan]. unfold attached_status in Hst. destruct (channel h); [|by destruct Hst as (_ & ? & _)].
    destruct Hst as [? _]. by destruct (channel_gpa h). }
  rewrite evtc_restore_read by by apply evtc_snapshot_ok. rewrite evtc_snapshot_words.
  rewrite words_encode_valid by done. cbn [mbind option_bind]. rewrite pending_encode; [|done..|].
  2:{ intros Hx. apply Hnone. by destruct (w_chan (host_words h)). }
  cbn [mbind option_bind]. rewrite read_words_encode by done.
  assert (exists h', restored_host m (host_words h) (pending_injects h) plan = Some h') as [h' Hr].
  { unfold restored_host, host_words. cbn [w_chan]. destruct (channel h), (channel_gpa h) as [g|]; try by eexists.
    destruct (Ha g eq_refl) as [ch' ->]. by eexists. }
  exists h'. split; [done|]. by apply restored_host_ok in Hr as (? & ? & ? & _ & _ & ?).
Qed.

(** C30: the detchannel's snapshot section restores from every reachable state:
    after any sequence of detcalls, drains, pushes and restores, the section the
    host saves is accepted wherever its channel attaches again, and gives a host
    with the same section, the same latches and status, the same pending queries
    (all of them to be answered from the section) and the plan it was given. *)
Theorem evtc_reachable_roundtrip plan0 ops (c0 : Ctx) m plan (h0 : Host) :
  Forall op_ok ops ->
  let h := (host_run ops (DetChannelHost_new plan0, c0)).1 in
  evtc_fits h -> (forall g, channel_gpa h = Some g -> exists ch, attach m g = inl ch) ->
  exists h', evtc_restore m (evtc_snapshot h) EVTC_VERSION plan h0 = Some h' /\
    evtc_snapshot h' = evtc_snapshot h /\
    (init_lo h' = init_lo h /\ init_hi h' = init_hi h /\ init_status h' = init_status h) /\
    inject_iseq h' = inject_iseq h /\ last_quiesce_ack h' = last_quiesce_ack h /\
    pending_injects h' = pending_injects h /\ restored_pending_injects h' = pending_injects h /\
    plan_of (responder h') = plan.
Proof.
  intros Ho h Hf Ha. assert (host_wf h) as Hh by (apply host_run_wf; [done|apply new_wf]).
  destruct (restore_snapshot_ok m plan h h0 Hh Hf Ha) as (h' & Hr & Hw & Hp & Hq & Hpl). exists h'. split; [done|].
  split; [by rewrite !evtc_snapshot_words, Hw, Hp|]. unfold host_words in Hw. injection Hw as E1 E2 E3 E4 E5 _ _. by rewrite Hp, Hq.
Qed.

(** A section of the current version is accepted only in its canonical form:
    whatever bytes restore, the restored host saves exactly those bytes. *)
Theorem evtc_section_canonical m b plan (h h' : Host) : bytes_ok b ->
  evtc_restore m b EVTC_VERSION plan h = Some h' -> evtc_snapshot h' = b.
Proof. intros Hb H. by apply restore_v2_ok in H as (? & _). Qed.

(** Every [IN] from a detcall port is answered by exactly one log record,
    and the record holds the port and the very value the guest receives. *)
Theorem pio_in_logs_answer port (h : Host) (c : Ctx) :
  let '(value, _, c') := pio_in port h c in exists m, c' = log_pio_answer port value (with_mem m c).
Proof.
  assert (c = with_mem (ctx_mem c) c) as Hc by by destruct c.
  unfold pio_in. repeat (match goal with |- context [if ?b then _ else _] => destruct b eqn:? end; try (exists (ctx_mem c); by rewrite <- Hc)).
  assert (port = PORT_INJECT) as -> by lia. unfold inject_answer.
  destruct (inject_iseq h) as [iseq|]; [|exists (ctx_mem c); by rewrite <- Hc]. cbn [channel set_inject_iseq].
  destruct (channel h) as [ch|]; [|exists (ctx_mem c); by rewrite <- Hc].
  cbn [restored_pending_injects set_inject_iseq]. destruct (bt_get iseq (restored_pending_injects h)) as [pd|].
  - destruct (plan_decide _ _ _ _) as [dec p']. exists (ctx_mem c). by rewrite <- Hc.
  - pose proof (answer_reports P plan_decide (ctx_mem c) ch iseq (responder (set_inject_iseq None h))) as Ha.
    destruct (responder_answer plan_decide _ _ _ _) as [[[[v calls] ch'] m'] r']. exists m'. by rewrite Ha.
Qed.
End Reach.

(** ** An SDK to run the host on: the guest's queue of query numbers is its
    memory, one channel at a time, every name unknown *)

Module ToySdk.
Definition toy_status (s : InitStatus) : Z :=
  match s with StatusOk => 0 | BadGpa => 1 | BadMagicVersion => 2 | AlreadyAttached => 3 end.
Definition toy_from (z : Z) : option InitStatus :=
  if z =? 0 then Some StatusOk else if z =? 1 then Some BadGpa else if z =? 2 then Some BadMagicVersion
  else if z =? 3 then Some AlreadyAttached else None.
Definition toy_seqs (s : ProducerSeqs) : ProducerSeqs := mkSeqs (to_u32 (ring_c s)) (to_u32 (ring_i s)).
Definition toy_drain (m : bytes) (c : ProducerSeqs) : (list (GuestEvent unit) + unit) * list SinkCall * ProducerSeqs * bytes :=
  (inl ((fun i => mkEvent 0 0 (OInjectQuery (to_u32 i) 7)) <$> m), [ConsBump RingW (Z.of_nat (length m))], c, []).
Definition toy_push (_ : unit) (m : bytes) (c : ProducerSeqs) : option unit * list SinkCall * ProducerSeqs * bytes :=
  (None, [RingPush RingC [1; 2] 1], mkSeqs (to_u32 (ring_c c + 1)) (ring_i c), m).

#[export] Instance toy_sdk : GuestSdk VecGuestMem := {
  Channel := ProducerSeqs; RegionManifest := unit; Region := unit; WireError := unit; AttachError := unit; PushError := unit;
  Command := unit; WorkloadCtrl := unit; FaultDecision := Z; InjectResponder P := P;
  PORT_IDENT := 0xD370; PORT_INIT_LO := 0xD374; PORT_INIT_HI := 0xD378; PORT_INIT_GO := 0xD37C; PORT_DOORBELL := 0xD380;
  PORT_INJECT := 0xD384; PORT_QUIESCE_ACK := 0xD388; IDENT_ANSWER := 0xD37; CHANNEL_SIZE_PAGES := 512; FLAG_REACHABLE_DECL := 1;
  RECORD_HEADER_LEN := 2; status_u32 := toy_status; InitStatus_from_u32 := toy_from; kind_u16 _ := 9;
  encode_event seq vn fl p := Some [1; 2; 3; 4];
  attach m g := if g =? 0 then inr tt else inl (mkSeqs 0 0); attach_status _ := BadGpa; read_manifest _ _ := Some tt;
  producer_seqs_of := toy_seqs; set_producer_seqs s _ := s; intern_name _ _ := None;
  drain_events := toy_drain; channel_push_command := toy_push; channel_push_workload_ctrl := toy_push;
  Proceed := 0; pack z := z; unpack z := z;
  InjectResponder_new P p := p; plan_of P r := r; set_plan P p r := p;
  responder_answer P f m c iseq r := let '(d, p) := f iseq 7 None r in (d, [PioAnswer 0xD384 d], c, m, p) }.

#[export] Instance toy_sdk_ok : GuestSdkOk VecGuestMem.
Proof.
  assert (forall z, u32 (to_u32 z)) as Hu by (intros z; apply Z.mod_pos_bound; lia).
  split; cbn.
  - intros []; cbn; split_and!; try done; ulia.
  - intros z s. unfold toy_from. repeat (case_match; [intros [= <-]; cbn; lia|]). done.
  - by left.
  - intros c. split; apply Hu.
  - intros [c i] _ Hc Hi. unfold toy_seqs, to_u32. cbn in *. by rewrite !Z.mod_small by ulia.
  - done.
  - intros m c evs calls c' m' [= <- _ _ _]. apply Forall_fmap, Forall_true. intros i j n [= <- <-]. split; [apply Hu|ulia].
  - intros P f m c iseq r. by destruct (f iseq 7 None r).
  - intros P f m c iseq r. destruct (f iseq 7 None r) as [d p] eqn:Ef. right. exists 7, None. by rewrite Ef.
  - repeat constructor; done.
  - done.
  - done.
Qed.

(** Answers every query with its number plus one. *)
#[export] Instance toy_plan : FaultPlan VecGuestMem unit := fun iseq _ _ p => (iseq + 1, p).

Definition toy_ctx : DevCtx VecGuestMem unit := DevCtx_new 10 0x40 (LogWriter_new example_header) [5; 3] tt [].
(** Attach, drain the two queries, select the first, push a command. *)
Definition toy_ops : list (host_op (P := unit)) :=
  [HOut 0xD374 0x200000; HOut 0xD37C 512; HOut 0xD384 5; HPushCommand tt; HOut 0xD388 99; HSetSeqs (mkSeqs 4 6)].
End ToySdk.

Section Witnesses.
Import ToySdk.
#[local] Existing Instance example_hash.
Local Notation toy_host := (host_run (E := unit) toy_ops (DetChannelHost_new tt, toy_ctx)).1.

Lemma toy_host_iseq : inject_iseq toy_host = Some 5.
Proof. vm_compute. reflexivity. Qed.
Lemma toy_host_pending : pending_injects toy_host = [(3, mkPending 7 None); (5, mkPending 7 None)].
Proof. vm_compute. reflexivity. Qed.
Lemma toy_host_gpa : channel_gpa toy_host = Some 0x200000.
Proof. vm_compute. reflexivity. Qed.
Lemma toy_host_fits : evtc_fits toy_host.
Proof. unfold evtc_fits. rewrite toy_host_pending. split; [done|]. repeat constructor; intros n [=]. Qed.

Lemma evtc_reachable_roundtrip_witness :
  exists h', evtc_restore (M := VecGuestMem) [] (evtc_snapshot toy_host) EVTC_VERSION tt toy_host = Some h' /\
    evtc_snapshot h' = evtc_snapshot toy_host /\ inject_iseq h' = Some 5 /\ (restored_pending_injects h').*1 = [3; 5].
Proof.
  destruct (evtc_reachable_roundtrip (E := unit) tt toy_ops toy_ctx [] tt toy_host) as (h' & H1 & H2 & _ & H3 & _ & _ & H4 & _).
  - repeat constructor; ulia.
  - exact toy_host_fits.
  - intros g Hg. exists (mkSeqs 0 0). rewrite toy_host_gpa in Hg. by injection Hg as <-.
  - exists h'. split; [done|]. split; [done|]. split.
    + rewrite <- toy_host_iseq. exact H3.
    + rewrite toy_host_pending in H4. by rewrite H4.
Defined.

Definition toy_image : bytes := Eval vm_compute in evtc_snapshot toy_host.
Lemma toy_image_ok : bytes_ok toy_image.
Proof. apply bytes_okb_ok. vm_compute. reflexivity. Qed.
Lemma toy_restores :
  inject_iseq <$> evtc_restore (M := VecGuestMem) (P := unit) [] toy_image EVTC_VERSION tt (DetChannelHost_new tt) = Some (Some 5).
Proof. vm_compute. reflexivity. Qed.

Lemma evtc_section_canonical_witness :
  exists h', evtc_restore (M := VecGuestMem) (P := unit) [] toy_image EVTC_VERSION tt (DetChannelHost_new tt) = Some h' /\
    inject_iseq h' = Some 5 /\ evtc_snapshot h' = toy_image.
Proof.
  pose proof toy_restores as Hr. destruct (evtc_restore _ _ _ _ _) as [h'|] eqn:Hb; [|discriminate].
  exists h'. split; [done|]. split; [by injection Hr|].
  exact (evtc_section_canonical [] _ tt (DetChannelHost_new tt) h' toy_image_ok Hb).
Defined.

Lemma pio_in_logs_answer_witness :
  exists m, (pio_in PORT_INJECT toy_host toy_ctx).2 = log_pio_answer PORT_INJECT 6 (with_mem m toy_ctx).
Proof.
  pose proof (pio_in_logs_answer PORT_INJECT toy_host toy_ctx) as H.
  assert ((pio_in PORT_INJECT toy_host toy_ctx).1.1 = 6) as Hv by (vm_compute; reflexivity).
  destruct (pio_in PORT_INJECT toy_host toy_ctx) as [[v h'] c']. cbn in Hv. subst v. exact H.
Defined.
End Witnesses.
