(* ===== verification/Bus.v ===== *)
(** * The MMIO bus: [dh-devices/src/bus.rs]

    Windows of 4 KiB, kept sorted by base; [Box<dyn DetDevice>] is a device type
    packed with its instance.  [binary_search_by_key] is modelled by its
    documented result on a slice sorted by distinct keys, which is what the
    bus keeps: the index of the key, or the index where it would go. *)

From stdpp Require Import sorting.
From S2P Require Import Prelude DhiLog DevCtx Devices.

Definition WINDOW_LEN : Z := 4096.
Definition REG_MAGIC : Z := 0x00.
Definition REG_VERSION : Z := 0x04.
Definition REG_DEVICE_BASE : Z := 0x08.
Inductive BusError := Unmapped | GuestFault | ReadOnly | BadWindow.

(** [Box<dyn DetDevice>]: the type, its methods, its [as_any_mut] and the value. *)
Record BoxDev {X : AnyChannel} (M E : Type) := mkBox {
  box_ty : Type; box_dev : DetDevice box_ty M E; box_any : option (AnyId box_ty); box_val : box_ty }.
Arguments mkBox {X M E}. Arguments box_ty {X M E}. Arguments box_dev {X M E}. Arguments box_any {X M E}. Arguments box_val {X M E}.

Section Bus.
Context {X : AnyChannel} {M E : Type}.
Definition MmioBus : Type := list (Z * BoxDev M E).
Definition MmioBus_new : MmioBus := [].
Local Notation devices := (list (Z * BoxDev M E)).

Definition box_id (b : BoxDev M E) : Z := @device_id _ _ _ (box_dev b) (box_val b).
Definition box_version (b : BoxDev M E) : Z := @section_version _ _ _ (box_dev b) (box_val b).
Definition box_read (off : Z) (n : nat) (b : BoxDev M E) (c : DevCtx M E) : bytes * BoxDev M E * DevCtx M E :=
  let '(r, v, c) := @mmio_read _ _ _ (box_dev b) off n (box_val b) c in (r, mkBox (box_ty b) (box_dev b) (box_any b) v, c).
Definition box_write (off : Z) (data : bytes) (b : BoxDev M E) (c : DevCtx M E) : BoxDev M E * DevCtx M E :=
  let '(v, c) := @mmio_write _ _ _ (box_dev b) off data (box_val b) c in (mkBox (box_ty b) (box_dev b) (box_any b) v, c).

(** [binary_search_by_key]: [inl] the index of the key, [inr] its insertion point. *)
Fixpoint search (key : Z) (l : devices) (i : nat) : nat + nat :=
  match l with
  | [] => inr i
  | (b, _) :: l => if b =? key then inl i else if key <? b then inr i else search key l (S i)
  end.

Definition register (base : Z) (dev : BoxDev M E) : method devices BusError unit := fun bus =>
  if negb (base mod WINDOW_LEN =? 0) || negb (base + WINDOW_LEN <=? u64_max) then (Err BadWindow, bus)
  else match search base bus 0 with
  | inl _ => (Err BadWindow, bus)
  | inr i => (Ok tt, take i bus ++ (base, dev) :: drop i bus)
  end.

Definition lookup (gpa : Z) (bus : devices) : outcome BusError (nat * Z * BoxDev M E) :=
  idx ← match search gpa bus 0 with
        | inl i => Ok i
        | inr 0%nat => Err Unmapped
        | inr (S i) => Ok i
        end;
  match bus !! idx with
  | None => Panic
  | Some (base, dev) => if WINDOW_LEN <=? gpa - base then Err Unmapped else Ok (idx, base, dev)
  end.

Definition check_access (off : Z) (len : nat) : outcome BusError unit :=
  let len64 := Z.of_nat len in
  if negb ((len =? 4)%nat || (len =? 8)%nat) || negb (off mod len64 =? 0) then Err GuestFault
  else if WINDOW_LEN <? off + len64 then Err GuestFault
  else Ok tt.

Definition read (gpa : Z) (n : nat) (c : DevCtx M E) (bus : devices)
    : outcome BusError bytes * devices * DevCtx M E :=
  match lookup gpa bus with
  | Ok (idx, base, dev) =>
      let off := gpa - base in
      match check_access off n with
      | Ok _ =>
          if off =? REG_MAGIC then
            if negb (n =? 4)%nat then (Err GuestFault, bus, c) else (Ok (le_bytes 4 (box_id dev)), bus, c)
          else if off =? REG_VERSION then
            if negb (n =? 4)%nat then (Err GuestFault, bus, c) else (Ok (le_bytes 4 (box_version dev)), bus, c)
          else
            let '(r, dev, c) := box_read off n dev c in (Ok r, <[idx := (base, dev)]> bus, c)
      | Err e => (Err e, bus, c)
      | Panic => (Panic, bus, c)
      end
  | Err e => (Err e, bus, c)
  | Panic => (Panic, bus, c)
  end.

Definition write (gpa : Z) (data : bytes) (c : DevCtx M E) (bus : devices)
    : outcome BusError unit * devices * DevCtx M E :=
  match lookup gpa bus with
  | Ok (idx, base, dev) =>
      let off := gpa - base in
      match check_access off (length data) with
      | Ok _ =>
          if off <? REG_DEVICE_BASE then (Err ReadOnly, bus, c)
          else let '(dev, c) := box_write off data dev c in (Ok tt, <[idx := (base, dev)]> bus, c)
      | Err e => (Err e, bus, c)
      | Panic => (Panic, bus, c)
      end
  | Err e => (Err e, bus, c)
  | Panic => (Panic, bus, c)
  end.

(** ** Windows *)

Record bus_wf (bus : devices) : Prop := {
  bw_sorted : StronglySorted (fun a b => a.1 < b.1) bus;
  bw_base : Forall (fun a => 0 <= a.1 /\ a.1 mod WINDOW_LEN = 0 /\ a.1 + WINDOW_LEN <= u64_max) bus }.

Definition covers (gpa : Z) (e : Z * BoxDev M E) : Prop := e.1 <= gpa < e.1 + WINDOW_LEN.

(** What the search means on a sorted bus. *)
Lemma search_spec key bus k :
  StronglySorted (fun a b => a.1 < b.1) bus ->
  match search key bus k with
  | inl i => exists j dev, i = (k + j)%nat /\ bus !! j = Some (key, dev)
  | inr i => exists j, i = (k + j)%nat /\ (j <= length bus)%nat /\
      (forall m e, (m < j)%nat -> bus !! m = Some e -> e.1 < key) /\
      (forall m e, (j <= m)%nat -> bus !! m = Some e -> key < e.1)
  end.
Proof.
  revert k. induction bus as [|[b d] bus IH]; intros k Hs; cbn [search].
  { exists 0%nat. split_and!; [lia|done|lia|]. intros m e _ H. by rewrite lookup_nil in H. }
  inversion Hs as [|? ? Hs' Hf]; subst.
  destruct (Z.eqb_spec b key) as [->|Hne].
  { exists 0%nat, d. split; [lia|done]. }
  destruct (Z.ltb_spec key b) as [Hlt|Hge].
  { exists 0%nat. split_and!; [lia|cbn; lia|lia|]. intros [|m] e _ He; cbn in He; simplify_eq/=; [done|].
    apply (Forall_lookup_1 _ _ _ _ Hf) in He. cbn in He. lia. }
  specialize (IH (S k) Hs'). destruct (search key bus (S k)) as [i|i].
  - destruct IH as (j & dev & -> & Hj). exists (S j), dev. split; [lia|done].
  - destruct IH as (j & -> & Hjl & Hlo & Hhi). exists (S j). split_and!; [lia|cbn; lia| |].
    + intros [|m] e Hm He; cbn in He; simplify_eq/=; [lia|]. apply (Hlo m); [lia|done].
    + intros [|m] e Hm He; [lia|]. apply (Hhi m); [lia|done].
Qed.

Lemma sorted_lookup bus i j a b :
  StronglySorted (fun x y : Z * BoxDev M E => x.1 < y.1) bus ->
  bus !! i = Some a -> bus !! j = Some b -> (i < j)%nat -> a.1 < b.1.
Proof.
  intros Hs. revert i j. induction Hs as [|e bus Hs IH Hf]; intros i j Hi Hj Hlt; [done|].
  destruct i as [|i], j as [|j]; try lia; cbn in Hi, Hj; simplify_eq.
  - apply (Forall_lookup_1 _ _ _ _ Hf Hj).
  - apply (IH i j); [done..|lia].
Qed.

(** Windows are disjoint: at most one covers an address. *)
Lemma covers_unique bus gpa i j a b :
  bus_wf bus -> bus !! i = Some a -> bus !! j = Some b -> covers gpa a -> covers gpa b -> i = j.
Proof.
  intros [Hs Hb] Hi Hj Ha Hb'. unfold covers in *.
  destruct (Forall_lookup_1 _ _ _ _ Hb Hi) as (_ & Hma & _), (Forall_lookup_1 _ _ _ _ Hb Hj) as (_ & Hmb & _).
  assert (a.1 = b.1) as Heq.
  { unfold WINDOW_LEN in *. pose proof (Z.div_mod a.1 4096 ltac:(lia)). pose proof (Z.div_mod b.1 4096 ltac:(lia)).
    assert (a.1 / 4096 = b.1 / 4096); [|lia]. lia. }
  destruct (Nat.lt_trichotomy i j) as [Hlt|[->|Hlt]]; [|done|].
  - pose proof (sorted_lookup _ _ _ _ _ Hs Hi Hj Hlt). lia.
  - pose proof (sorted_lookup _ _ _ _ _ Hs Hj Hi Hlt). lia.
Qed.

Lemma lookup_spec bus gpa :
  bus_wf bus ->
  match lookup gpa bus with
  | Ok (i, base, dev) => bus !! i = Some (base, dev) /\ covers gpa (base, dev)
  | Err e => e = Unmapped /\ forall j a, bus !! j = Some a -> ~ covers gpa a
  | Panic => False
  end.
Proof.
  intros Hw. pose proof Hw as [Hs Hb]. unfold lookup. pose proof (search_spec gpa bus 0 Hs) as H.
  destruct (search gpa bus 0) as [i|i].
  - destruct H as (j & dev & -> & Hj). cbn. rewrite Hj. rewrite Z.sub_diag. cbn. split; [done|].
    unfold covers, WINDOW_LEN. cbn. lia.
  - destruct H as (j & -> & Hjl & Hlo & Hhi). cbn [Nat.add]. destruct j as [|j]; cbn.
    + split; [done|]. intros m a Ha [Hc _]. specialize (Hhi m a ltac:(lia) Ha). lia.
    + destruct (lookup_lt_is_Some_2 bus j) as [[base dev] Hj]; [lia|]. rewrite Hj.
      pose proof (Hlo j _ ltac:(lia) Hj) as Hbase. cbn in Hbase.
      destruct (Z.leb_spec WINDOW_LEN (gpa - base)) as [Hge|Hlt].
      * split; [done|]. intros m a Ha [Hc1 Hc2]. destruct (decide (m <= j)%nat) as [Hm|Hm].
        -- destruct (decide (m = j)) as [->|]; [simplify_eq/=; lia|].
           pose proof (sorted_lookup _ _ _ _ _ Hs Ha Hj ltac:(lia)). cbn in *. lia.
        -- specialize (Hhi m a ltac:(lia) Ha). lia.
      * split; [done|]. unfold covers. cbn. lia.
Qed.

Lemma register_ok base dev bus :
  bus_wf bus -> u64 base ->
  match register base dev bus with
  | (Ok _, bus') => bus_wf bus' /\ (base, dev) ∈ bus' /\
      (forall a, a ∈ bus' <-> a = (base, dev) \/ a ∈ bus) /\ length bus' = S (length bus)
  | (Err e, bus') => e = BadWindow /\ bus' = bus /\
      (base mod WINDOW_LEN <> 0 \/ u64_max < base + WINDOW_LEN \/ exists d, (base, d) ∈ bus)
  | (Panic, _) => False
  end.
Proof.
  intros [Hs Hb] Hu. unfold register.
  destruct (Z.eqb_spec (base mod WINDOW_LEN) 0) as [Hm|Hm]; cbn [negb orb]; [|by auto].
  destruct (Z.leb_spec (base + WINDOW_LEN) u64_max) as [Hle|Hgt]; cbn [negb]; [|by auto].
  pose proof (search_spec base bus 0 Hs) as H. destruct (search base bus 0) as [i|i].
  { destruct H as (j & d & -> & Hj). split_and!; [done..|]. right; right. exists d.
    by eapply list_elem_of_lookup_2. }
  destruct H as (j & -> & Hjl & Hlo & Hhi). cbn [Nat.add].
  assert (forall a, a ∈ take j bus ++ (base, dev) :: drop j bus <-> a = (base, dev) \/ a ∈ bus) as Hin.
  { intros a. rewrite elem_of_app, elem_of_cons. rewrite <- (take_drop j bus) at 3. rewrite elem_of_app. naive_solver. }
  split_and!.
  - split.
    + assert (StronglySorted (fun a b : Z * BoxDev M E => a.1 < b.1) (take j bus) /\
              StronglySorted (fun a b : Z * BoxDev M E => a.1 < b.1) (drop j bus)) as [Ht Hd].
      { clear -Hs. revert j. induction Hs as [|e l Hs IH Hf]; intros [|j]; cbn; split; try constructor; auto; try apply IH.
        by apply Forall_take. }
      apply StronglySorted_app_2; [|done|].
      * intros a b Ha Hb'. apply list_elem_of_lookup in Ha as [m Ha]. apply lookup_take_Some in Ha as [Ha Hmj].
        apply elem_of_cons in Hb' as [->|Hb']; [by apply (Hlo m)|].
        apply list_elem_of_lookup in Hb' as [q Hq]. rewrite lookup_drop in Hq.
        apply (sorted_lookup bus m (j + q)); [done..|lia].
      * constructor; [done|]. apply Forall_forall. intros a Ha. apply list_elem_of_lookup in Ha as [q Hq].
        rewrite lookup_drop in Hq. apply (Hhi (j + q)%nat); [lia|done].
    + apply Forall_forall. intros a Ha. apply Hin in Ha as [->|Ha].
      * cbn. unfold u64 in Hu. split_and!; [lia|done|done].
      * by apply (proj1 (Forall_forall _ _) Hb).
  - apply Hin. by left.
  - exact Hin.
  - rewrite length_app. cbn [length]. rewrite length_take, length_drop. lia.
Qed.

Lemma lookup_covers bus gpa i base dev :
  bus_wf bus -> bus !! i = Some (base, dev) -> covers gpa (base, dev) -> lookup gpa bus = Ok (i, base, dev).
Proof.
  intros Hw Hi Hc. pose proof (lookup_spec bus gpa Hw) as H. destruct (lookup gpa bus) as [[[j b] d]|e|].
  - destruct H as [Hj Hcj]. pose proof (covers_unique _ _ _ _ _ _ Hw Hi Hj Hc Hcj). by simplify_eq.
  - destruct H as [_ H]. by destruct (H _ _ Hi).
  - done.
Qed.
Lemma lookup_none bus gpa :
  bus_wf bus -> (forall j a, bus !! j = Some a -> ~ covers gpa a) -> lookup gpa bus = Err Unmapped.
Proof.
  intros Hw Hn. pose proof (lookup_spec bus gpa Hw) as H. destruct (lookup gpa bus) as [[[j b] d]|e|].
  - destruct H as [Hj Hcj]. by destruct (Hn _ _ Hj).
  - by destruct H as [-> _].
  - done.
Qed.

Definition legal (off : Z) (n : nat) : Prop :=
  (n = 4%nat \/ n = 8%nat) /\ off mod Z.of_nat n = 0 /\ off + Z.of_nat n <= WINDOW_LEN.
Lemma check_access_legal off n : legal off n -> check_access off n = Ok tt.
Proof.
  intros (Hn & Hm & Hl). unfold check_access. rewrite Hm, (proj2 (Z.ltb_ge _ _)) by lia.
  by destruct Hn as [->| ->].
Qed.
Lemma check_access_illegal off n : ~ legal off n -> check_access off n = Err GuestFault.
Proof.
  intros H. unfold check_access. cbv zeta.
  destruct ((n =? 4)%nat || (n =? 8)%nat) eqn:E1; cbn [negb orb]; [|done].
  destruct (Z.eqb_spec (off mod Z.of_nat n) 0); cbn [negb]; [|done].
  destruct (Z.ltb_spec WINDOW_LEN (off + Z.of_nat n)); [done|]. destruct H. split_and!; [|done|lia]. lia.
Qed.
Lemma insert_wf bus i base dev dev' :
  bus_wf bus -> bus !! i = Some (base, dev) -> bus_wf (<[i := (base, dev')]> bus).
Proof.
  intros [Hs Hb] Hi.
  assert (forall j a, <[i := (base, dev')]> bus !! j = Some a -> exists b, bus !! j = Some b /\ b.1 = a.1) as Hl.
  { intros j a Ha. destruct (decide (i = j)) as [->|].
    - rewrite list_lookup_insert_eq in Ha by (by eapply lookup_lt_Some). simplify_eq. by eexists.
    - rewrite list_lookup_insert_ne in Ha by done. by eexists. }
  split.
  - clear Hl Hb. revert i Hi. induction Hs as [|e l Hs IH Hf]; intros [|i] Hi; cbn in Hi |- *; simplify_eq.
    + by constructor.
    + constructor; [by apply IH|]. apply Forall_insert; [done|]. exact (Forall_lookup_1 _ _ _ _ Hf Hi).
  - apply Forall_lookup_2. intros j a Ha. destruct (Hl _ _ Ha) as (b & Hj & <-). exact (Forall_lookup_1 _ _ _ _ Hb Hj).
Qed.

(** Bus dispatch, exactly.  On a bus of sorted, aligned, distinct windows
    an address reaches the one device whose window covers it, or none.  An
    access that is not 4 or 8 bytes, naturally aligned and inside the window
    is a guest fault; MAGIC and VERSION read as that device's identity, in
    4-byte accesses only, and can not be written; every other access is the
    device's own handler at the window offset, and only that device and the
    context change.  No dispatch panics. *)
Theorem bus_dispatch_exact bus gpa (c : DevCtx M E) :
  bus_wf bus ->
  ((forall j a, bus !! j = Some a -> ~ covers gpa a) ->
    (forall n, read gpa n c bus = (Err Unmapped, bus, c)) /\
    (forall data, write gpa data c bus = (Err Unmapped, bus, c))) /\
  forall i base dev, bus !! i = Some (base, dev) -> covers gpa (base, dev) ->
    let off := gpa - base in
    (forall n, ~ legal off n -> read gpa n c bus = (Err GuestFault, bus, c)) /\
    (forall n, legal off n -> off = REG_MAGIC ->
      read gpa n c bus = (if (n =? 4)%nat then Ok (le_bytes 4 (box_id dev)) else Err GuestFault, bus, c)) /\
    (forall n, legal off n -> off = REG_VERSION -> read gpa n c bus = (Ok (le_bytes 4 (box_version dev)), bus, c)) /\
    (forall n, legal off n -> REG_DEVICE_BASE <= off ->
      let '(r, dev', c') := box_read off n dev c in
      read gpa n c bus = (Ok r, <[i := (base, dev')]> bus, c') /\ bus_wf (<[i := (base, dev')]> bus)) /\
    (forall data, ~ legal off (length data) -> write gpa data c bus = (Err GuestFault, bus, c)) /\
    (forall data, legal off (length data) -> off < REG_DEVICE_BASE -> write gpa data c bus = (Err ReadOnly, bus, c)) /\
    (forall data, legal off (length data) -> REG_DEVICE_BASE <= off ->
      let '(dev', c') := box_write off data dev c in
      write gpa data c bus = (Ok tt, <[i := (base, dev')]> bus, c') /\ bus_wf (<[i := (base, dev')]> bus)).
Proof.
  intros Hw. split.
  - intros Hn. unfold read, write. rewrite (lookup_none _ _ Hw Hn). done.
  - intros i base dev Hi Hc off. unfold read, write. rewrite (lookup_covers _ _ _ _ _ Hw Hi Hc). fold off.
    split_and!.
    + intros n Hl. by rewrite check_access_illegal.
    + intros n Hl ->. rewrite check_access_legal by done. cbn. by destruct Hl as [[->| ->] _].
    + intros n Hl Ho. rewrite check_access_legal by done. rewrite Ho in *. cbn.
      destruct Hl as ([->| ->] & Hm & _); [done|]. by vm_compute in Hm.
    + intros n Hl Ho. rewrite check_access_legal by done. unfold REG_MAGIC, REG_VERSION, REG_DEVICE_BASE in *.
      rewrite (proj2 (Z.eqb_neq off 0)), (proj2 (Z.eqb_neq off 4)) by lia.
      destruct (box_read off n dev c) as [[r dev'] c']. split; [done|]. by apply (insert_wf _ _ _ dev).
    + intros data Hl. by rewrite check_access_illegal.
    + intros data Hl Ho. rewrite check_access_legal by done. by rewrite (proj2 (Z.ltb_lt _ _)).
    + intros data Hl Ho. rewrite check_access_legal by done. rewrite (proj2 (Z.ltb_ge _ _)) by lia.
      destruct (box_write off data dev c) as [dev' c']. split; [done|]. by apply (insert_wf _ _ _ dev).
Qed.

(** Registration keeps the bus a set of disjoint windows.  A window is
    accepted iff its base is 4 KiB-aligned, does not end past the address
    space and is not taken; then the bus holds exactly the old windows and
    this one, still sorted, and every address it covers now reaches it. *)
Theorem bus_register_exact base dev bus :
  bus_wf bus -> u64 base ->
  match register base dev bus with
  | (Ok _, bus') => bus_wf bus' /\ (forall a, a ∈ bus' <-> a = (base, dev) \/ a ∈ bus) /\
      (forall gpa, base <= gpa < base + WINDOW_LEN -> exists i, lookup gpa bus' = Ok (i, base, dev)) /\
      forall d, (base, d) ∉ bus
  | (Err e, bus') => e = BadWindow /\ bus' = bus /\
      (base mod WINDOW_LEN <> 0 \/ u64_max < base + WINDOW_LEN \/ exists d, (base, d) ∈ bus)
  | (Panic, _) => False
  end.
Proof.
  intros Hw Hu. pose proof (register_ok base dev bus Hw Hu) as H. destruct (register base dev bus) as [[u|e|] bus'] eqn:Hr; [|done..].
  destruct H as (Hw' & Hin & Hall & Hlen). split_and!; [done..| |].
  - intros gpa Hg. apply list_elem_of_lookup in Hin as [i Hi]. exists i. by apply lookup_covers.
  - intros d Hd. revert Hr. unfold register. destruct (_ || _); [done|].
    pose proof (search_spec base bus 0 (bw_sorted _ Hw)) as Hs. destruct (search base bus 0); [done|].
    destruct Hs as (j & _ & _ & Hlo & Hhi). apply list_elem_of_lookup in Hd as [m Hm]. exfalso.
    destruct (decide (m < j)%nat) as [Hlt|Hge].
    + specialize (Hlo m _ Hlt Hm). cbn in Hlo. lia.
    + specialize (Hhi m _ ltac:(lia) Hm). cbn in Hhi. lia.
Qed.
End Bus.

(** ** Examples *)

#[local] Existing Instance no_channel.

Definition ex_ctx : DevCtx VecGuestMem unit :=
  DevCtx_new 1000 0x40 (LogWriter_new example_header) (replicate 64 0) tt [].
Definition ex_clock : BoxDev VecGuestMem unit := mkBox _ Clock.PvClock_device (Some AnyClock) (Clock.PvClock_new 3 2).
Definition ex_pad : BoxDev VecGuestMem unit := mkBox _ Pad.PvPad_device (Some AnyPad) Pad.PvPad_new.
Definition ex_bus : list (Z * BoxDev VecGuestMem unit) := [(0xD0000000, ex_clock); (0xD0001000, ex_pad)].
Lemma ex_bus_wf : bus_wf ex_bus.
Proof.
  split.
  - repeat constructor.
  - repeat apply Forall_cons_2; try apply Forall_nil_2; cbn; split_and!; try done; ulia.
Qed.
Lemma bus_dispatch_exact_witness :
  read 0xD0000008 8 ex_ctx ex_bus = (Ok (le_bytes 8 1500), ex_bus, ex_ctx).
Proof.
  destruct (bus_dispatch_exact ex_bus 0xD0000008 ex_ctx) as [_ H].
  - exact ex_bus_wf.
  - destruct (H 0%nat 0xD0000000 ex_clock) as (_ & _ & _ & Hr & _).
    + reflexivity.
    + split; vm_compute; congruence.
    + refine (proj1 (Hr 8%nat _ _)).
      * split; [by right|]. split; [reflexivity|vm_compute; congruence].
      * vm_compute. congruence.
Defined.
Lemma bus_register_exact_witness :
  let r := register 0xD0002000 ex_pad ex_bus in
  r.1 = Ok tt /\ bus_wf r.2.
Proof.
  pose proof (bus_register_exact 0xD0002000 ex_pad ex_bus ex_bus_wf ltac:(ulia)) as H.
  split; [reflexivity|]. exact (proj1 H).
Defined.
