(* ===== verification/Blk.v ===== *)
(** * pv-blk: [dh-devices/src/blk.rs]

    A read-only base image under a copy-on-write overlay of 64 KiB clusters,
    and the proof that it is a flat disk.  The base image is the source's trait
    [BlockBase]; its documented contract (the same offset always reads the
    same bytes, zero past the end) is the class [BlockBaseOk]. *)

From stdpp Require Import gmap sorting.
From S2P Require Import Prelude DhiLog DevCtx.

Definition DEVICE_ID_PV_BLK : Z := 0x0005.
Definition SECTOR_SIZE : Z := 512.
Definition CLUSTER_SIZE : Z := 64 * 1024.
Definition REG_SECTOR : Z := 0x08.
Definition REG_BUF_GPA : Z := 0x10.
Definition REG_COUNT : Z := 0x18.
Definition REG_CMD : Z := 0x1C.
Definition REG_STATUS : Z := 0x20.
Definition CMD_READ : Z := 1.
Definition CMD_WRITE : Z := 2.
Definition CMD_FLUSH : Z := 3.
Definition STATUS_OK : Z := 0.
Definition STATUS_BAD_REQUEST : Z := 1.
Definition STATUS_MEM_FAULT : Z := 2.
Definition STATUS_HOST_IO : Z := 0xFE.
Definition SECTION_VERSION : Z := 1.
Definition SECTION_FIXED : nat := 8 + 8 + 4 + 4 + 8 + 4.
Definition SECTION_PER_CLUSTER : nat := 8 + 32 + Z.to_nat CLUSTER_SIZE.

(** [read_at b off n]: the [n] bytes at [off]; [None] for [BaseIoError]. *)
Class BlockBase (Bs : Type) := {
  len_bytes : Bs -> Z;
  read_at : Bs -> Z -> nat -> option bytes }.
Class BlockBaseOk (Bs : Type) `{!BlockBase Bs} (base_byte : Bs -> Z -> Z) : Prop := {
  len_bytes_u64 : forall b, u64 (len_bytes b);
  base_byte_u8 : forall b x, u8 (base_byte b x);
  read_at_bytes : forall b off n bs, read_at b off n = Some bs -> bs = base_byte b <$> seqZ off (Z.of_nat n) }.

Record PvBlk (Bs : Type) := mkPvBlk {
  base : Bs; overlay : gmap Z bytes; sector : Z; buf_gpa : Z; count : Z; status : Z; host_io_errors : Z }.
Arguments mkPvBlk {Bs}. Arguments base {Bs}. Arguments overlay {Bs}. Arguments sector {Bs}.
Arguments buf_gpa {Bs}. Arguments count {Bs}. Arguments status {Bs}. Arguments host_io_errors {Bs}.

Section Blk.
Context {Bs M E : Type} `{!BlockBase Bs, !GuestMem M}.

Definition PvBlk_new (b : Bs) : PvBlk Bs := mkPvBlk b ∅ 0 0 0 STATUS_OK 0.
Definition set_overlay (o : gmap Z bytes) (d : PvBlk Bs) : PvBlk Bs :=
  mkPvBlk (base d) o (sector d) (buf_gpa d) (count d) (status d) (host_io_errors d).
Definition set_status (s : Z) (d : PvBlk Bs) : PvBlk Bs :=
  mkPvBlk (base d) (overlay d) (sector d) (buf_gpa d) (count d) s (host_io_errors d).
Definition capacity_sectors (d : PvBlk Bs) : Z := len_bytes (base d) / SECTOR_SIZE.
Definition dirty_clusters (d : PvBlk Bs) : nat := size (overlay d).

(** [request_range]: the byte range of the latched request, or the status. *)
Definition request_range (d : PvBlk Bs) : outcome Z (Z * Z) :=
  if count d =? 0 then Err STATUS_BAD_REQUEST
  else
    end_sector ← ok_or STATUS_BAD_REQUEST (checked_add (sector d) (count d));
    if end_sector >? capacity_sectors d then Err STATUS_BAD_REQUEST
    else Ok (sector d * SECTOR_SIZE, count d * SECTOR_SIZE).

(** The cluster loop of a read.  [None]: out of fuel. *)
Fixpoint read_loop (fuel : nat) (d : PvBlk Bs) (off remaining gpa : Z) (m : M) : option (Z * M) :=
  if remaining =? 0 then Some (STATUS_OK, m)
  else match fuel with
  | O => None
  | S fuel =>
      let cluster := off / CLUSTER_SIZE in
      let within := off mod CLUSTER_SIZE in
      let take := Z.min remaining (CLUSTER_SIZE - within) in
      match (match overlay d !! cluster with
             | Some c => Some (slice (Z.to_nat within) (Z.to_nat take) c)
             | None => read_at (base d) off (Z.to_nat take)
             end) with
      | None => Some (STATUS_HOST_IO, m)
      | Some chunk =>
          let '(ok, m) := mem_write m gpa chunk in
          if negb ok then Some (STATUS_MEM_FAULT, m)
          else read_loop fuel d (off + take) (remaining - take) (gpa + take) m
      end
  end.

(** The cluster loop of a write: populate on first write, then fill. *)
Fixpoint write_loop (fuel : nat) (d : PvBlk Bs) (off remaining gpa : Z) (m : M) : option (Z * PvBlk Bs) :=
  if remaining =? 0 then Some (STATUS_OK, d)
  else match fuel with
  | O => None
  | S fuel =>
      let cluster := off / CLUSTER_SIZE in
      let within := off mod CLUSTER_SIZE in
      let take := Z.min remaining (CLUSTER_SIZE - within) in
      match (match overlay d !! cluster with
             | Some c => Some c
             | None => read_at (base d) (cluster * CLUSTER_SIZE) (Z.to_nat CLUSTER_SIZE)
             end) with
      | None => Some (STATUS_HOST_IO, d)
      | Some c =>
          let '(ok, filled) := mem_read m gpa (slice (Z.to_nat within) (Z.to_nat take) c) in
          let d := set_overlay (<[cluster := put (Z.to_nat within) filled c]> (overlay d)) d in
          if negb ok then Some (STATUS_MEM_FAULT, d)
          else write_loop fuel d (off + take) (remaining - take) (gpa + take) m
      end
  end.

(** One more iteration than the clusters a request can touch. *)
Definition loop_fuel (remaining : Z) : nat := Z.to_nat (remaining / CLUSTER_SIZE + 2).

Definition do_read (d : PvBlk Bs) (c : DevCtx M E) : option (Z * DevCtx M E) :=
  match request_range d with
  | Ok (off, remaining) =>
      '(s, m) ← read_loop (loop_fuel remaining) d off remaining (buf_gpa d) (ctx_mem c);
      Some (s, with_mem m c)
  | Err s => Some (s, c)
  | Panic => None
  end.
Definition do_write (d : PvBlk Bs) (c : DevCtx M E) : option (Z * PvBlk Bs) :=
  match request_range d with
  | Ok (off, remaining) => write_loop (loop_fuel remaining) d off remaining (buf_gpa d) (ctx_mem c)
  | Err s => Some (s, d)
  | Panic => None
  end.

Definition complete (s : Z) (d : PvBlk Bs) : PvBlk Bs :=
  let d := set_status s d in
  if status d =? STATUS_HOST_IO
  then mkPvBlk (base d) (overlay d) (sector d) (buf_gpa d) (count d) (status d) (host_io_errors d + 1)
  else d.
Definition execute (cmd : Z) (d : PvBlk Bs) (c : DevCtx M E) : option (PvBlk Bs * DevCtx M E) :=
  if cmd =? CMD_READ then '(s, c) ← do_read d c; Some (complete s d, c)
  else if cmd =? CMD_WRITE then '(s, d) ← do_write d c; Some (complete s d, c)
  else if cmd =? CMD_FLUSH then Some (complete STATUS_OK d, c)
  else Some (complete STATUS_BAD_REQUEST d, c).

Definition blk_read (off : Z) (n : nat) (d : PvBlk Bs) : bytes :=
  if (off =? REG_SECTOR) && (n =? 8)%nat then le_bytes 8 (sector d)
  else if (off =? REG_BUF_GPA) && (n =? 8)%nat then le_bytes 8 (buf_gpa d)
  else if (off =? REG_COUNT) && (n =? 4)%nat then le_bytes 4 (count d)
  else if (off =? REG_STATUS) && (n =? 4)%nat then le_bytes 4 (status d)
  else replicate n 0.
Definition blk_write (off : Z) (data : bytes) (d : PvBlk Bs) (c : DevCtx M E) : option (PvBlk Bs * DevCtx M E) :=
  if (off =? REG_SECTOR) && (length data =? 8)%nat
  then Some (mkPvBlk (base d) (overlay d) (of_le data) (buf_gpa d) (count d) (status d) (host_io_errors d), c)
  else if (off =? REG_BUF_GPA) && (length data =? 8)%nat
  then Some (mkPvBlk (base d) (overlay d) (sector d) (of_le data) (count d) (status d) (host_io_errors d), c)
  else if (off =? REG_COUNT) && (length data =? 4)%nat
  then Some (mkPvBlk (base d) (overlay d) (sector d) (buf_gpa d) (of_le data) (status d) (host_io_errors d), c)
  else if (off =? REG_CMD) && (length data =? 4)%nat then execute (of_le data) d c
  else Some (d, c).

(** ** Section *)

Context {B : Blake3}.
Definition sorted_keys (o : gmap Z bytes) : list Z := merge_sort Z.le ((map_to_list o).*1).
Definition encode_cluster (o : gmap Z bytes) (idx : Z) : bytes :=
  let c := default [] (o !! idx) in le_bytes 8 idx ++ blake3 c ++ c.
Definition blk_snapshot (d : PvBlk Bs) : bytes :=
  let idxs := sorted_keys (overlay d) in
  le_bytes 8 (sector d) ++ le_bytes 8 (buf_gpa d) ++ le_bytes 4 (count d) ++ le_bytes 4 (status d) ++
  le_bytes 8 (host_io_errors d) ++ le_bytes 4 (to_u32 (Z.of_nat (length idxs))) ++
  mjoin (encode_cluster (overlay d) <$> idxs).

(** The restore loop: entries [i], [i+1], ... of the section. *)
Fixpoint restore_clusters (b : bytes) (i n : nat) (o : gmap Z bytes) : option (gmap Z bytes) :=
  match n with
  | O => Some o
  | S n =>
      let at_ := (SECTION_FIXED + i * SECTION_PER_CLUSTER)%nat in
      let idx := of_le (slice at_ 8 b) in
      let digest := slice (at_ + 8) 32 b in
      let data := slice (at_ + 40) (Z.to_nat CLUSTER_SIZE) b in
      if negb (bool_decide (blake3 data = digest)) then None
      else restore_clusters b (S i) n (<[idx := data]> o)
  end.
Definition blk_restore (b : bytes) (sec_version : Z) (d : PvBlk Bs) : option (PvBlk Bs) :=
  if negb (sec_version =? SECTION_VERSION) || (length b <? SECTION_FIXED)%nat then None
  else
    let n := Z.to_nat (of_le (slice 32 4 b)) in
    if negb (length b =? SECTION_FIXED + n * SECTION_PER_CLUSTER)%nat then None
    else
      o ← restore_clusters b 0 n ∅;
      Some (mkPvBlk (base d) o (of_le (slice 0 8 b)) (of_le (slice 8 8 b)) (of_le (slice 16 4 b))
              (of_le (slice 20 4 b)) (of_le (slice 24 8 b))).
End Blk.
