(* ===== verification/BlkDisk.v ===== *)
(** * pv-blk is a flat disk *)

From stdpp Require Import gmap sorting.
From S2P Require Import Prelude DhiLog DevCtx Blk.

Definition byte_at (l : bytes) (i : Z) : Z := default 0 (l !! Z.to_nat i).

Lemma byte_at_slice l o n i : 0 <= i < Z.of_nat n -> byte_at (slice o n l) i = byte_at l (Z.of_nat o + i).
Proof.
  intros Hi. unfold byte_at, slice. rewrite lookup_take_lt, lookup_drop by lia.
  f_equal. f_equal. lia.
Qed.
Lemma byte_at_put l o s i :
  (o + length s <= length l)%nat -> 0 <= i ->
  byte_at (put o s l) i =
  if decide (Z.of_nat o <= i < Z.of_nat o + Z.of_nat (length s)) then byte_at s (i - Z.of_nat o) else byte_at l i.
Proof.
  intros Hl Hi. unfold byte_at, put. case_decide as Hd.
  - rewrite lookup_app_r by (rewrite length_take; lia). rewrite lookup_app_l by (rewrite length_take; lia).
    rewrite length_take. f_equal. f_equal. lia.
  - destruct (decide (i < Z.of_nat o)).
    + rewrite lookup_app_l by (rewrite length_take; lia). by rewrite lookup_take_lt by lia.
    + rewrite lookup_app_r by (rewrite length_take; lia). rewrite lookup_app_r by (rewrite length_take; lia).
      rewrite lookup_drop, length_take. f_equal. f_equal. lia.
Qed.
Lemma bytes_eq l l' :
  length l = length l' -> (forall i, 0 <= i < Z.of_nat (length l) -> byte_at l i = byte_at l' i) -> l = l'.
Proof.
  intros Hl H. apply list_eq. intros k. destruct (decide (k < length l)%nat) as [Hk|Hk].
  - destruct (lookup_lt_is_Some_2 l k Hk) as [x Hx], (lookup_lt_is_Some_2 l' k ltac:(lia)) as [y Hy].
    specialize (H (Z.of_nat k) ltac:(lia)). unfold byte_at in H. rewrite Nat2Z.id, Hx, Hy in H. cbn in H. congruence.
  - by rewrite !lookup_ge_None_2 by lia.
Qed.
Lemma byte_at_map f off n i : 0 <= i < n -> byte_at (f <$> seqZ off n) i = f (off + i).
Proof.
  intros Hi. unfold byte_at. rewrite list_lookup_fmap, lookup_seqZ_lt by lia. cbn. f_equal. lia.
Qed.

Section Disk.
Context {Bs : Type} `{!BlockBase Bs} {base_byte : Bs -> Z -> Z} `{!BlockBaseOk Bs base_byte}.

(** The byte the guest sees at disk offset [x]. *)
Definition disk_byte (d : PvBlk Bs) (x : Z) : Z :=
  match overlay d !! (x / CLUSTER_SIZE) with
  | Some c => byte_at c (x mod CLUSTER_SIZE)
  | None => base_byte (base d) x
  end.
Definition disk_range (d : PvBlk Bs) (off n : Z) : bytes := disk_byte d <$> seqZ off n.

Definition clusters_ok (o : gmap Z bytes) : Prop :=
  map_Forall (fun _ c => length c = Z.to_nat CLUSTER_SIZE /\ bytes_ok c) o.
(** The base image never fails to read. *)
Definition base_total (b : Bs) : Prop := forall off n, is_Some (read_at b off n).

Lemma cluster_pos : 0 < CLUSTER_SIZE.
Proof. done. Qed.

Lemma within_cluster off k :
  0 <= off -> 0 <= k -> off mod CLUSTER_SIZE + k < CLUSTER_SIZE ->
  (off + k) / CLUSTER_SIZE = off / CLUSTER_SIZE /\ (off + k) mod CLUSTER_SIZE = off mod CLUSTER_SIZE + k.
Proof.
  intros Ho Hk Hlt. pose proof cluster_pos. pose proof (Z.div_mod off CLUSTER_SIZE ltac:(lia)) as Hd.
  pose proof (Z.mod_pos_bound off CLUSTER_SIZE ltac:(lia)).
  assert (off + k = off / CLUSTER_SIZE * CLUSTER_SIZE + (off mod CLUSTER_SIZE + k)) as Heq by lia.
  rewrite Heq at 1 2. split.
  - rewrite Z.div_add_l by lia. rewrite (Z.div_small (_ + k)) by lia. lia.
  - rewrite Z.add_comm, Z.mod_add by lia. apply Z.mod_small. lia.
Qed.

(** The chunk the read loop serves is the disk's. *)
Lemma chunk_disk d off take :
  clusters_ok (overlay d) -> base_total (base d) -> 0 <= off -> 0 < take ->
  take <= CLUSTER_SIZE - off mod CLUSTER_SIZE ->
  (match overlay d !! (off / CLUSTER_SIZE) with
   | Some c => Some (slice (Z.to_nat (off mod CLUSTER_SIZE)) (Z.to_nat take) c)
   | None => read_at (base d) off (Z.to_nat take)
   end) = Some (disk_range d off take).
Proof.
  intros Hc Hb Ho Ht Hle. pose proof cluster_pos. pose proof (Z.mod_pos_bound off CLUSTER_SIZE ltac:(lia)) as Hm.
  unfold disk_range. destruct (overlay d !! (off / CLUSTER_SIZE)) as [c|] eqn:Hov.
  - f_equal. destruct (Hc _ _ Hov) as [Hl _].
    assert (length (slice (Z.to_nat (off mod CLUSTER_SIZE)) (Z.to_nat take) c) = Z.to_nat take) as Hls
      by (apply length_slice; lia).
    apply bytes_eq; rewrite Hls; [by rewrite length_fmap, length_seqZ|]. intros i Hi.
    rewrite byte_at_slice by lia. rewrite byte_at_map by lia. unfold disk_byte.
    destruct (within_cluster off i) as [-> ->]; [lia..|]. rewrite Hov. f_equal. lia.
  - destruct (Hb off (Z.to_nat take)) as [bs Hbs]. rewrite Hbs. f_equal.
    rewrite (read_at_bytes _ _ _ _ Hbs). rewrite Z2Nat.id by lia. apply list_fmap_ext. intros k x Hx.
    apply lookup_seqZ in Hx as [-> Hk]. unfold disk_byte. destruct (within_cluster off (Z.of_nat k)) as [-> _]; [lia..|].
    by rewrite Hov.
Qed.

Lemma disk_range_length d off n : length (disk_range d off n) = Z.to_nat n.
Proof. unfold disk_range. by rewrite length_fmap, length_seqZ. Qed.
Lemma disk_range_app d off n k :
  0 <= n -> 0 <= k -> disk_range d off (n + k) = disk_range d off n ++ disk_range d (off + n) k.
Proof. intros. unfold disk_range. by rewrite seqZ_app, fmap_app by done. Qed.

Lemma put_put_next (l s1 s2 : bytes) o :
  (o + length s1 + length s2 <= length l)%nat -> put (o + length s1) s2 (put o s1 l) = put o (s1 ++ s2) l.
Proof.
  intros Hl. apply bytes_eq.
  - rewrite !length_put; rewrite ?length_app, ?length_put; lia.
  - intros i Hi. rewrite !byte_at_put; rewrite ?length_app, ?length_put; try lia.
    repeat case_decide; try lia; unfold byte_at.
    + rewrite lookup_app_r by lia. f_equal. f_equal. lia.
    + rewrite lookup_app_l by lia. done.
Qed.

Lemma put_empty_range d off o (m : bytes) : put o (disk_range d off 0) m = m.
Proof.
  unfold disk_range, put. rewrite seqZ_nil by lia. cbn. by rewrite Nat.add_0_r, take_drop.
Qed.

(** Each iteration ends the request or reaches the next cluster. *)
Lemma fuel_step fuel off remaining :
  0 <= off -> remaining <> 0 ->
  (remaining = 0 \/ off mod CLUSTER_SIZE + remaining <= Z.of_nat (S fuel) * CLUSTER_SIZE) ->
  let take := Z.min remaining (CLUSTER_SIZE - off mod CLUSTER_SIZE) in
  remaining - take = 0 \/ (off + take) mod CLUSTER_SIZE + (remaining - take) <= Z.of_nat fuel * CLUSTER_SIZE.
Proof.
  intros Ho Hne Hf take. pose proof cluster_pos as Hcs. pose proof (Z.mod_pos_bound off CLUSTER_SIZE Hcs).
  destruct (Z.le_gt_cases (CLUSTER_SIZE - off mod CLUSTER_SIZE) remaining) as [Hfull|Hpart]; [right|left; lia].
  assert (take = CLUSTER_SIZE - off mod CLUSTER_SIZE) as -> by lia.
  replace (off + (CLUSTER_SIZE - off mod CLUSTER_SIZE)) with ((off / CLUSTER_SIZE + 1) * CLUSTER_SIZE).
  2:{ pose proof (Z.div_mod off CLUSTER_SIZE ltac:(lia)). lia. }
  rewrite Z.mod_mul by lia. lia.
Qed.

(** Reads: the whole range lands in RAM, or the buffer does not fit. *)
Lemma read_loop_spec fuel d off remaining gpa (m : VecGuestMem) :
  clusters_ok (overlay d) -> base_total (base d) -> 0 <= off -> 0 <= remaining -> 0 <= gpa ->
  (remaining = 0 \/ off mod CLUSTER_SIZE + remaining <= Z.of_nat fuel * CLUSTER_SIZE) ->
  exists s m', read_loop fuel d off remaining gpa m = Some (s, m') /\ length m' = length m /\
    ((remaining = 0 \/ gpa + remaining <= Z.of_nat (length m)) ->
      s = STATUS_OK /\ m' = put (Z.to_nat gpa) (disk_range d off remaining) m) /\
    (0 < remaining -> Z.of_nat (length m) < gpa + remaining -> s = STATUS_MEM_FAULT).
Proof.
  intros Hc Hb. revert off remaining gpa m. pose proof cluster_pos as Hcs.
  induction fuel as [|fuel IH]; intros off remaining gpa m Ho Hr Hg Hfuel;
    pose proof (Z.mod_pos_bound off CLUSTER_SIZE Hcs) as Hm; cbn [read_loop];
    destruct (Z.eqb_spec remaining 0) as [->|Hne].
  - exists STATUS_OK, m. split_and!; [done..| |lia]. intros _. split; [done|]. by rewrite put_empty_range.
  - exfalso. lia.
  - exists STATUS_OK, m. split_and!; [done..| |lia]. intros _. split; [done|]. by rewrite put_empty_range.
  - cbv zeta. set (take := Z.min remaining (CLUSTER_SIZE - off mod CLUSTER_SIZE)).
    assert (0 < take <= remaining /\ take <= CLUSTER_SIZE - off mod CLUSTER_SIZE) as [Ht Htc] by lia.
    rewrite chunk_disk by (done || lia). cbn [mem_write VecGuestMem_mem]. unfold VecGuestMem_write, vec_in_range.
    rewrite disk_range_length, Z2Nat.id by lia.
    destruct (Z.leb_spec (gpa + take) (Z.of_nat (length m))) as [Hin|Hout]; cbn [negb].
    2:{ exists STATUS_MEM_FAULT, m. split_and!; [done..| |done]. lia. }
    set (m1 := put (Z.to_nat gpa) (disk_range d off take) m).
    assert (length m1 = length m) as Hl1 by (apply length_put; rewrite disk_range_length; lia).
    destruct (IH (off + take) (remaining - take) (gpa + take) m1) as (s & m' & Heq & Hlm & Hok & Hbad); [lia..| |].
    { by apply fuel_step. }
    exists s, m'. split_and!; [done|by rewrite Hlm| |].
    + intros [?|Hfit]; [lia|]. destruct Hok as [-> ->]; [rewrite Hl1; lia|]. split; [done|]. unfold m1.
      replace remaining with (take + (remaining - take)) at 2 by lia. rewrite disk_range_app by lia.
      rewrite <- put_put_next by (rewrite !disk_range_length; lia). f_equal. rewrite disk_range_length. lia.
    + intros _ Hlt. apply Hbad; [|rewrite Hl1; lia]. lia.
Qed.

(** The cluster a write fills: populated from the base when it is not dirty. *)
Lemma populated d k :
  clusters_ok (overlay d) -> base_total (base d) -> 0 <= k ->
  exists c, (match overlay d !! k with
             | Some c => Some c
             | None => read_at (base d) (k * CLUSTER_SIZE) (Z.to_nat CLUSTER_SIZE)
             end) = Some c /\
    length c = Z.to_nat CLUSTER_SIZE /\ bytes_ok c /\
    forall i, 0 <= i < CLUSTER_SIZE -> byte_at c i = disk_byte d (k * CLUSTER_SIZE + i).
Proof.
  intros Hc Hb Hk. pose proof cluster_pos as Hcs.
  assert (forall i, 0 <= i < CLUSTER_SIZE ->
    (k * CLUSTER_SIZE + i) / CLUSTER_SIZE = k /\ (k * CLUSTER_SIZE + i) mod CLUSTER_SIZE = i) as Hdm.
  { intros i Hi. split.
    - rewrite Z.div_add_l, (Z.div_small i) by lia. lia.
    - rewrite Z.add_comm, Z.mod_add, Z.mod_small by lia. lia. }
  destruct (overlay d !! k) as [c|] eqn:Hov.
  - destruct (Hc _ _ Hov) as [Hl Hbk]. exists c. split_and!; [done..|]. intros i Hi. unfold disk_byte.
    destruct (Hdm i Hi) as [-> ->]. by rewrite Hov.
  - destruct (Hb (k * CLUSTER_SIZE) (Z.to_nat CLUSTER_SIZE)) as [c Hcr]. exists c.
    pose proof (read_at_bytes _ _ _ _ Hcr) as ->. rewrite Z2Nat.id by lia. split_and!.
    + done.
    + by rewrite length_fmap, length_seqZ.
    + apply Forall_fmap, Forall_true. intros x. apply base_byte_u8.
    + intros i Hi. rewrite byte_at_map by lia. unfold disk_byte. destruct (Hdm i Hi) as [-> _]. by rewrite Hov.
Qed.

(** Storing [filled] at [off] inside its cluster. *)
Lemma store_disk d off c filled :
  clusters_ok (overlay d) -> 0 <= off -> length c = Z.to_nat CLUSTER_SIZE -> bytes_ok c -> bytes_ok filled ->
  (forall i, 0 <= i < CLUSTER_SIZE -> byte_at c i = disk_byte d (off / CLUSTER_SIZE * CLUSTER_SIZE + i)) ->
  Z.of_nat (length filled) <= CLUSTER_SIZE - off mod CLUSTER_SIZE ->
  let d' := set_overlay (<[off / CLUSTER_SIZE := put (Z.to_nat (off mod CLUSTER_SIZE)) filled c]> (overlay d)) d in
  clusters_ok (overlay d') /\
  forall x, 0 <= x -> disk_byte d' x =
    if decide (off <= x < off + Z.of_nat (length filled)) then byte_at filled (x - off) else disk_byte d x.
Proof.
  intros Hcl Ho Hl Hbk Hbf Hc Hfit d'. pose proof cluster_pos as Hcs.
  pose proof (Z.mod_pos_bound off CLUSTER_SIZE Hcs) as Hm. pose proof (Z.div_mod off CLUSTER_SIZE ltac:(lia)) as Hdm.
  split.
  - apply map_Forall_insert_2; [|done]. split; [by rewrite length_put by lia|by apply Forall_put].
  - intros x Hx. pose proof (Z.mod_pos_bound x CLUSTER_SIZE Hcs) as Hmx.
    pose proof (Z.div_mod x CLUSTER_SIZE ltac:(lia)) as Hdx. unfold disk_byte at 1. cbn [overlay set_overlay d'].
    destruct (decide (x / CLUSTER_SIZE = off / CLUSTER_SIZE)) as [Hq|Hq].
    + rewrite Hq in *. rewrite lookup_insert_eq. rewrite byte_at_put by lia. repeat case_decide; try lia.
      * f_equal. lia.
      * rewrite Hc by lia. f_equal. lia.
    + rewrite lookup_insert_ne by done. rewrite decide_False; [done|]. intros Hin. apply Hq.
      destruct (within_cluster off (x - off)) as [Hd _]; [lia..|]. by rewrite Zplus_minus in Hd.
Qed.

(** Writes: the range becomes the RAM bytes, or the buffer does not fit; bytes
    outside the range never change. *)
Lemma write_loop_spec fuel d off remaining gpa (m : VecGuestMem) :
  clusters_ok (overlay d) -> base_total (base d) -> bytes_ok m -> 0 <= off -> 0 <= remaining -> 0 <= gpa ->
  (remaining = 0 \/ off mod CLUSTER_SIZE + remaining <= Z.of_nat fuel * CLUSTER_SIZE) ->
  exists s o', write_loop fuel d off remaining gpa m = Some (s, set_overlay o' d) /\ clusters_ok o' /\
    (forall x, 0 <= x -> x < off \/ off + remaining <= x -> disk_byte (set_overlay o' d) x = disk_byte d x) /\
    ((remaining = 0 \/ gpa + remaining <= Z.of_nat (length m)) ->
      s = STATUS_OK /\ forall x, off <= x < off + remaining ->
        disk_byte (set_overlay o' d) x = byte_at m (gpa + (x - off))) /\
    (0 < remaining -> Z.of_nat (length m) < gpa + remaining -> s = STATUS_MEM_FAULT).
Proof.
  intros Hc Hb Hbm. revert d off remaining gpa Hc Hb. pose proof cluster_pos as Hcs.
  induction fuel as [|fuel IH]; intros d off remaining gpa Hc Hb Ho Hr Hg Hfuel;
    pose proof (Z.mod_pos_bound off CLUSTER_SIZE Hcs) as Hm; cbn [write_loop];
    destruct (Z.eqb_spec remaining 0) as [->|Hne].
  1,3: exists STATUS_OK, (overlay d); split_and!; [by destruct d|done|by destruct d| |lia];
    intros _; split; [done|intros; lia].
  { exfalso. lia. }
  cbv zeta. set (take := Z.min remaining (CLUSTER_SIZE - off mod CLUSTER_SIZE)).
  assert (0 < take <= remaining /\ take <= CLUSTER_SIZE - off mod CLUSTER_SIZE) as [Ht Htc] by lia.
  destruct (populated d (off / CLUSTER_SIZE)) as (c & Hpop & Hl & Hbk & Hbyte); [done..|by apply Z.div_pos|].
  rewrite Hpop. cbn [mem_read VecGuestMem_mem]. unfold VecGuestMem_read, vec_in_range.
  rewrite length_slice by lia. rewrite Z2Nat.id by lia.
  destruct (Z.leb_spec (gpa + take) (Z.of_nat (length m))) as [Hin|Hout]; cbn [negb].
  - set (filled := slice (Z.to_nat gpa) (Z.to_nat take) m).
    assert (length filled = Z.to_nat take) as Hfl by (apply length_slice; lia).
    destruct (store_disk d off c filled) as [Hc1 Hd1]; try done; [by apply Forall_slice|lia|].
    set (d1 := set_overlay (<[off / CLUSTER_SIZE := put (Z.to_nat (off mod CLUSTER_SIZE)) filled c]> (overlay d)) d) in *.
    destruct (IH d1 (off + take) (remaining - take) (gpa + take)) as (s & o' & Heq & Hco & Hout & Hok & Hbad);
      [done|done|lia..|by apply fuel_step|].
    exists s, o'. split_and!; [done|done| | |].
    + intros x Hx Hor. change (set_overlay o' d) with (set_overlay o' d1). rewrite Hout by lia.
      rewrite Hd1 by lia. rewrite decide_False by lia. done.
    + intros Hfit. destruct Hok as [-> Hok]; [lia|]. split; [done|]. intros x Hx.
      change (set_overlay o' d) with (set_overlay o' d1). destruct (decide (x < off + take)) as [Hlt|Hge].
      * rewrite Hout by lia. rewrite Hd1 by lia. rewrite decide_True by lia. unfold filled.
        rewrite byte_at_slice by lia. f_equal. lia.
      * rewrite Hok by lia. f_equal. lia.
    + intros _ Hlt. apply Hbad; lia.
  - destruct (store_disk d off c (slice (Z.to_nat (off mod CLUSTER_SIZE)) (Z.to_nat take) c)) as [Hc1 Hd1]; try done.
    { by apply Forall_slice. }
    { rewrite length_slice; lia. }
    eexists STATUS_MEM_FAULT, _. split_and!; [done|exact Hc1| |lia|done].
    intros x Hx Hor. rewrite Hd1 by done. rewrite length_slice by lia. rewrite decide_False by lia. done.
Qed.

Lemma loop_fuel_enough off n :
  0 <= n -> n = 0 \/ off mod CLUSTER_SIZE + n <= Z.of_nat (loop_fuel n) * CLUSTER_SIZE.
Proof.
  intros Hn. right. pose proof cluster_pos as Hcs. pose proof (Z.mod_pos_bound off CLUSTER_SIZE Hcs).
  pose proof (Z.div_mod n CLUSTER_SIZE ltac:(lia)). pose proof (Z.mod_pos_bound n CLUSTER_SIZE Hcs).
  pose proof (Z.div_pos n CLUSTER_SIZE Hn Hcs). unfold loop_fuel. rewrite Z2Nat.id by lia. nia.
Qed.

Definition blk_wf (d : PvBlk Bs) : Prop :=
  u64 (sector d) /\ u64 (buf_gpa d) /\ u32 (count d) /\ clusters_ok (overlay d).
(** The request addresses whole sectors of the base image. *)
Definition valid_request (d : PvBlk Bs) : Prop :=
  0 < count d /\ sector d + count d <= capacity_sectors d.

Lemma request_range_spec d :
  blk_wf d ->
  (valid_request d -> request_range d = Ok (sector d * SECTOR_SIZE, count d * SECTOR_SIZE)) /\
  (~ valid_request d -> request_range d = Err STATUS_BAD_REQUEST).
Proof.
  intros (Hs & _ & Hc & _). pose proof (len_bytes_u64 (base d)) as Hlen.
  assert (capacity_sectors d <= u64_max) as Hcap.
  { unfold capacity_sectors, SECTOR_SIZE. unfold u64, u64_max in *.
    pose proof (Z.div_le_upper_bound (len_bytes (base d)) 512 (2 ^ 64 - 1)). lia. }
  unfold request_range, valid_request, checked_add, try_u64, u64, u32 in *. split.
  - intros [H1 H2]. rewrite (proj2 (Z.eqb_neq _ _)) by lia. rewrite (proj2 (Z.leb_le _ _)) by lia. cbn.
    rewrite Z.gtb_ltb, (proj2 (Z.ltb_ge _ _)) by lia. done.
  - intros H. destruct (Z.eqb_spec (count d) 0); [done|].
    destruct (Z.leb_spec (sector d + count d) u64_max); cbn; [|done].
    rewrite Z.gtb_ltb, (proj2 (Z.ltb_lt _ _)) by lia. done.
Qed.

Lemma complete_ok s o (d : PvBlk Bs) :
  blk_wf d -> s <> STATUS_HOST_IO -> clusters_ok o ->
  complete s (set_overlay o d) = set_status s (set_overlay o d) /\ blk_wf (complete s (set_overlay o d)).
Proof.
  intros (? & ? & ? & _) Hne Ho. unfold complete. cbn [status set_status].
  rewrite (proj2 (Z.eqb_neq _ _)) by done. done.
Qed.
Lemma set_overlay_id (d : PvBlk Bs) : set_overlay (overlay d) d = d.
Proof. by destruct d. Qed.

(** A loop that ends OK or MEM_FAULT never reports a host error. *)
Lemma not_host_io s (P : Prop) (n g l : Z) :
  0 < n -> ((n = 0 \/ g + n <= l) -> s = STATUS_OK /\ P) -> (0 < n -> l < g + n -> s = STATUS_MEM_FAULT) ->
  s <> STATUS_HOST_IO.
Proof.
  intros Hn Hok Hbad. destruct (Z.le_gt_cases (g + n) l) as [X|X].
  - by destruct Hok as [-> _]; [by right|].
  - by rewrite Hbad.
Qed.

Lemma execute_read_valid {E} d (c : DevCtx VecGuestMem E) :
  let off := sector d * SECTOR_SIZE in let n := count d * SECTOR_SIZE in
  let fits := buf_gpa d + n <= Z.of_nat (length (ctx_mem c)) in
  blk_wf d -> base_total (base d) -> valid_request d ->
  exists s m', execute CMD_READ d c = Some (set_status s d, with_mem m' c) /\
    (fits -> s = STATUS_OK /\ m' = put (Z.to_nat (buf_gpa d)) (disk_range d off n) (ctx_mem c)) /\
    (~ fits -> s = STATUS_MEM_FAULT).
Proof.
  intros off n fits Hw Hb Hv. pose proof Hw as (Hs & Hg & Hc & Hcl).
  destruct (request_range_spec d Hw) as [Hval _]. pose proof (Hval Hv) as Hrr.
  assert (0 <= off /\ 0 < n) as [Ho Hn] by (unfold off, n, SECTOR_SIZE, u64 in *; destruct Hv; lia).
  destruct (read_loop_spec (loop_fuel n) d off n (buf_gpa d) (ctx_mem c)) as (s & m' & Heq & _ & Hok & Hbad);
    [done..|lia|apply Hg|apply loop_fuel_enough; lia|].
  pose proof (not_host_io _ _ _ _ _ Hn Hok Hbad) as Hne.
  destruct (complete_ok s (overlay d) d Hw Hne Hcl) as [Hf1 _]. rewrite set_overlay_id in Hf1.
  exists s, m'. unfold execute, do_read. rewrite Z.eqb_refl, Hrr. fold off n. rewrite Heq. cbn. rewrite Hf1.
  split_and!; [done|intros; apply Hok; by right|]. intros Hnf. apply Hbad; [done|]. unfold fits in Hnf. lia.
Qed.

Lemma execute_write_valid {E} d (c : DevCtx VecGuestMem E) :
  let off := sector d * SECTOR_SIZE in let n := count d * SECTOR_SIZE in
  let fits := buf_gpa d + n <= Z.of_nat (length (ctx_mem c)) in
  blk_wf d -> base_total (base d) -> bytes_ok (ctx_mem c) -> valid_request d ->
  exists s o', execute CMD_WRITE d c = Some (set_status s (set_overlay o' d), c) /\ clusters_ok o' /\
    (forall x, 0 <= x -> x < off \/ off + n <= x -> disk_byte (set_overlay o' d) x = disk_byte d x) /\
    (fits -> s = STATUS_OK /\
       disk_range (set_overlay o' d) off n = slice (Z.to_nat (buf_gpa d)) (Z.to_nat n) (ctx_mem c)) /\
    (~ fits -> s = STATUS_MEM_FAULT).
Proof.
  intros off n fits Hw Hb Hm Hv. pose proof Hw as (Hs & Hg & Hc & Hcl).
  destruct (request_range_spec d Hw) as [Hval _]. pose proof (Hval Hv) as Hrr.
  assert (0 <= off /\ 0 < n) as [Ho Hn] by (unfold off, n, SECTOR_SIZE, u64 in *; destruct Hv; lia).
  destruct (write_loop_spec (loop_fuel n) d off n (buf_gpa d) (ctx_mem c)) as (s & o' & Heq & Hco & Hout & Hok & Hbad);
    [done..|lia|apply Hg|apply loop_fuel_enough; lia|].
  pose proof (not_host_io _ _ _ _ _ Hn Hok Hbad) as Hne. destruct (complete_ok s o' d Hw Hne Hco) as [Hf1 _].
  exists s, o'. unfold execute, do_write. change (CMD_WRITE =? CMD_READ) with false.
  rewrite Z.eqb_refl, Hrr. fold off n. rewrite Heq. cbn. rewrite Hf1. split_and!; [done|done|exact Hout| |].
  - intros Hfit. destruct Hok as [-> Hok]; [by right|]. split; [done|].
    assert (buf_gpa d + n <= Z.of_nat (length (ctx_mem c))) as Hfit' by exact Hfit. unfold u64 in Hg.
    unfold disk_range. apply bytes_eq; rewrite length_fmap, length_seqZ.
    + rewrite length_slice; lia.
    + intros i Hi. rewrite byte_at_map, byte_at_slice by lia.
      etransitivity; [apply (Hok (off + i)); lia|]. f_equal. lia.
  - intros Hnf. apply Hbad; [done|]. unfold fits in Hnf. lia.
Qed.

(** C18: pv-blk is a flat disk.  With a base image that reads and guest RAM as a
    byte vector, a command always completes.  A read or write whose sectors are
    not all on the image ends BAD_REQUEST and changes nothing.  A valid read
    whose buffer lies in RAM ends OK, puts the disk's bytes there, and changes
    neither the disk nor the rest of RAM; a valid write whose buffer lies in
    RAM ends OK and makes the disk range equal to the buffer, leaving the rest
    of the disk and RAM alone.  If the buffer does not fit the status is
    MEM_FAULT and no byte outside the requested range of the disk changes.
    The request registers never change. *)
Theorem blk_is_flat_disk {E} d (c : DevCtx VecGuestMem E) :
  blk_wf d -> base_total (base d) -> bytes_ok (ctx_mem c) ->
  let off := sector d * SECTOR_SIZE in let n := count d * SECTOR_SIZE in
  let fits := buf_gpa d + n <= Z.of_nat (length (ctx_mem c)) in
  (exists d' c', execute CMD_READ d c = Some (d', c') /\ blk_wf d' /\ overlay d' = overlay d /\ base d' = base d /\
    (~ valid_request d -> status d' = STATUS_BAD_REQUEST /\ c' = c) /\
    (valid_request d -> fits -> status d' = STATUS_OK /\
       ctx_mem c' = put (Z.to_nat (buf_gpa d)) (disk_range d off n) (ctx_mem c)) /\
    (valid_request d -> ~ fits -> status d' = STATUS_MEM_FAULT)) /\
  (exists d', execute CMD_WRITE d c = Some (d', c) /\ blk_wf d' /\ base d' = base d /\
    (forall x, 0 <= x -> x < off \/ off + n <= x -> disk_byte d' x = disk_byte d x) /\
    (~ valid_request d -> status d' = STATUS_BAD_REQUEST /\ overlay d' = overlay d) /\
    (valid_request d -> fits -> status d' = STATUS_OK /\
       disk_range d' off n = slice (Z.to_nat (buf_gpa d)) (Z.to_nat n) (ctx_mem c)) /\
    (valid_request d -> ~ fits -> status d' = STATUS_MEM_FAULT)).
Proof.
  intros Hw Hb Hm off n fits. destruct (request_range_spec d Hw) as [_ Hinv].
  pose proof Hw as (Hs & Hg & Hc & Hcl).
  destruct (decide (0 < count d /\ sector d + count d <= capacity_sectors d)) as [Hv|Hnv]; split.
  - destruct (execute_read_valid d c) as (s & m' & Heq & Hok & Hbad); [done..|].
    eexists _, _. split_and!; [exact Heq|done..|naive_solver|naive_solver].
  - destruct (execute_write_valid d c) as (s & o' & Heq & Hco & Hout & Hok & Hbad); [done..|].
    eexists. split_and!; [exact Heq|done|done|exact Hout|done|naive_solver|naive_solver].
  - exists (complete STATUS_BAD_REQUEST d), c. unfold execute, do_read. rewrite Z.eqb_refl, (Hinv Hnv).
    split_and!; try done.
  - exists (complete STATUS_BAD_REQUEST d). unfold execute, do_write. change (CMD_WRITE =? CMD_READ) with false.
    rewrite Z.eqb_refl, (Hinv Hnv). split_and!; try done.
Qed.
End Disk.

(** ** The section *)

Section Roundtrip.
Context {Bs : Type} {B : Blake3} {BS : Blake3Spec B}.

Definition section_wf (d : PvBlk Bs) : Prop :=
  u64 (sector d) /\ u64 (buf_gpa d) /\ u32 (count d) /\ u32 (status d) /\ u64 (host_io_errors d) /\
  clusters_ok (overlay d) /\ map_Forall (fun k _ => u64 k) (overlay d) /\
  Z.of_nat (size (overlay d)) <= u32_max.

Lemma sorted_keys_elem o k : k ∈ sorted_keys o <-> is_Some (o !! k).
Proof.
  unfold sorted_keys. rewrite (merge_sort_Permutation Z.le). rewrite list_elem_of_fmap. split.
  - intros ([k' c] & -> & H). apply elem_of_map_to_list in H. by exists c.
  - intros [c H]. exists (k, c). split; [done|]. by apply elem_of_map_to_list.
Qed.
Lemma sorted_keys_length o : length (sorted_keys o) = size o.
Proof.
  unfold sorted_keys. rewrite (Permutation_length (merge_sort_Permutation Z.le _)), length_fmap. apply length_map_to_list.
Qed.

Definition insert_all (ov : gmap Z bytes) (ks : list Z) (o : gmap Z bytes) : gmap Z bytes :=
  foldl (fun o k => <[k := default [] (ov !! k)]> o) o ks.
Lemma insert_all_lookup ov ks o k :
  insert_all ov ks o !! k = if decide (k ∈ ks) then Some (default [] (ov !! k)) else o !! k.
Proof.
  revert o. induction ks as [|a ks IH]; intros o; [done|].
  change (insert_all ov (a :: ks) o) with (insert_all ov ks (<[a := default [] (ov !! a)]> o)). rewrite IH.
  destruct (decide (k ∈ ks)) as [H|H].
  - by rewrite decide_True by by right.
  - destruct (decide (k = a)) as [->|Hne].
    + rewrite decide_True by left. by rewrite lookup_insert_eq.
    + rewrite decide_False by (rewrite elem_of_cons; naive_solver). by rewrite lookup_insert_ne.
Qed.
Lemma insert_all_keys ov : insert_all ov (sorted_keys ov) ∅ = ov.
Proof.
  apply map_eq. intros k. rewrite insert_all_lookup. case_decide as H.
  - apply sorted_keys_elem in H as [c ->]. done.
  - rewrite lookup_empty. destruct (ov !! k) eqn:E; [|done]. destruct H. apply sorted_keys_elem. by eexists.
Qed.

Lemma length_encode_cluster ov k c :
  ov !! k = Some c -> length c = Z.to_nat CLUSTER_SIZE -> length (encode_cluster ov k) = SECTION_PER_CLUSTER.
Proof.
  intros Hk Hl. unfold encode_cluster. rewrite Hk. cbn [default from_option id].
  rewrite !length_app, length_le_bytes, length_blake3, Hl. done.
Qed.

(** Slices of a suffix that starts with a known cluster entry. *)
Lemma cluster_slices ov k c b at_ rest :
  ov !! k = Some c -> length c = Z.to_nat CLUSTER_SIZE -> u64 k ->
  drop at_ b = encode_cluster ov k ++ rest ->
  of_le (slice at_ 8 b) = k /\ slice (at_ + 8) 32 b = blake3 c /\
  slice (at_ + 40) (Z.to_nat CLUSTER_SIZE) b = c /\ drop (at_ + SECTION_PER_CLUSTER) b = rest.
Proof.
  intros Hk Hl Hu Hd. unfold encode_cluster in Hd. rewrite Hk in Hd. cbn [default from_option id] in Hd.
  rewrite <- !app_assoc in Hd.
  assert (forall o n, slice (at_ + o) n b = slice o n (drop at_ b)) as Hs by (intros; by rewrite slice_drop).
  split_and!.
  - rewrite <- (Nat.add_0_r at_), Hs, Hd. etransitivity; [|exact (of_le_u64 k Hu)]. f_equal.
  - rewrite Hs, Hd. apply slice_exact; by rewrite ?length_le_bytes, ?length_blake3.
  - rewrite Hs, Hd. rewrite app_assoc. apply slice_exact; [by rewrite length_app, length_le_bytes, length_blake3|done].
  - rewrite <- drop_drop, Hd. rewrite !app_assoc. apply drop_app_length'.
    rewrite !length_app, length_le_bytes, length_blake3, Hl. done.
Qed.

Lemma restore_clusters_spec ov b ks i o :
  clusters_ok ov -> map_Forall (fun k _ => u64 k) ov -> (forall k, k ∈ ks -> is_Some (ov !! k)) ->
  drop (SECTION_FIXED + i * SECTION_PER_CLUSTER) b = mjoin (encode_cluster ov <$> ks) ->
  restore_clusters b i (length ks) o = Some (insert_all ov ks o).
Proof.
  intros Hc Hu. revert i o. induction ks as [|k ks IH]; intros i o Hin Hd; [done|].
  destruct (Hin k) as [c Hk]; [left|]. destruct (Hc _ _ Hk) as [Hl _].
  destruct (cluster_slices ov k c b _ (mjoin (encode_cluster ov <$> ks)) Hk Hl (Hu _ _ Hk) Hd) as (E1 & E2 & E3 & E4).
  cbn [length restore_clusters]. cbv zeta. rewrite E1, E2, E3, bool_decide_true by done. cbn [negb].
  rewrite IH.
  - cbn [insert_all foldl]. by rewrite Hk.
  - intros k' Hk'. apply Hin. by right.
  - etransitivity; [|exact E4]. f_equal. lia.
Qed.

Lemma clusters_length ov ks :
  clusters_ok ov -> (forall k, k ∈ ks -> is_Some (ov !! k)) ->
  length (mjoin (encode_cluster ov <$> ks)) = (length ks * SECTION_PER_CLUSTER)%nat.
Proof.
  intros Hc. induction ks as [|k ks IH]; intros Hin; [done|].
  change (mjoin (encode_cluster ov <$> k :: ks)) with (encode_cluster ov k ++ mjoin (encode_cluster ov <$> ks)).
  cbn [length].
  destruct (Hin k) as [c Hk]; [left|]. destruct (Hc _ _ Hk) as [Hl _].
  rewrite length_app, (length_encode_cluster _ _ _ Hk Hl). rewrite IH; [lia|]. intros k' Hk'. apply Hin. by right.
Qed.

(** The pv-blk section round-trips.  The section of a device, dirty clusters
    in ascending order each with its digest, restores the same registers and
    the same overlay over whatever base the restored device has; a section of
    the wrong version or shorter than its fixed part is refused, and so is one
    in which a cluster does not match its digest. *)
Theorem blk_section_roundtrip (d d0 : PvBlk Bs) :
  section_wf d ->
  blk_restore (blk_snapshot d) SECTION_VERSION d0 =
    Some (mkPvBlk (base d0) (overlay d) (sector d) (buf_gpa d) (count d) (status d) (host_io_errors d)) /\
  (forall v b, v <> SECTION_VERSION \/ (length b < SECTION_FIXED)%nat -> blk_restore b v d0 = None) /\
  (forall b i n o j, (i <= j < i + n)%nat ->
     let at_ := (SECTION_FIXED + j * SECTION_PER_CLUSTER)%nat in
     blake3 (slice (at_ + 40) (Z.to_nat CLUSTER_SIZE) b) <> slice (at_ + 8) 32 b ->
     restore_clusters b i n o = None).
Proof.
  intros (H1 & H2 & H3 & H4 & H5 & Hc & Hk & Hn). split_and!.
  - set (ks := sorted_keys (overlay d)). set (tail := mjoin (encode_cluster (overlay d) <$> ks)).
    assert (forall k, k ∈ ks -> is_Some (overlay d !! k)) as Hin by (intros k; apply sorted_keys_elem).
    assert (to_u32 (Z.of_nat (length ks)) = Z.of_nat (length ks)) as Ht
      by (apply to_u32_small; unfold ks; rewrite sorted_keys_length; ulia).
    pose (pre := le_bytes 8 (sector d) ++ le_bytes 8 (buf_gpa d) ++ le_bytes 4 (count d) ++ le_bytes 4 (status d) ++
      le_bytes 8 (host_io_errors d) ++ le_bytes 4 (Z.of_nat (length ks))).
    assert (blk_snapshot d = pre ++ tail) as Hsnap
      by (unfold blk_snapshot, pre; fold ks tail; rewrite Ht, <- !app_assoc; done).
    assert (length pre = SECTION_FIXED) as Hpre by done.
    assert (forall o n, (o + n <= SECTION_FIXED)%nat -> slice o n (pre ++ tail) = slice o n pre) as Hs
      by (intros o n Hon; apply slice_app_l; by rewrite Hpre).
    rewrite Hsnap. unfold blk_restore. rewrite Z.eqb_refl. cbn [negb orb].
    rewrite (proj2 (Nat.ltb_ge _ _)) by (rewrite length_app, Hpre; lia).
    rewrite !Hs by (unfold SECTION_FIXED; lia).
    replace (of_le (slice 32 4 pre)) with (Z.of_nat (length ks))
      by (symmetry; apply of_le_u32; unfold ks; rewrite sorted_keys_length; ulia).
    rewrite Nat2Z.id. unfold tail at 1. rewrite length_app, Hpre, clusters_length by done.
    rewrite Nat.eqb_refl. cbn [negb]. rewrite (restore_clusters_spec (overlay d)); [|done..|].
    2:{ rewrite Nat.mul_0_l, Nat.add_0_r, <- Hpre. apply drop_app_length. }
    cbn [mbind option_bind]. unfold ks. rewrite insert_all_keys. do 2 f_equal;
      [exact (of_le_u64 _ H1)|exact (of_le_u64 _ H2)|exact (of_le_u32 _ H3)|exact (of_le_u32 _ H4)|exact (of_le_u64 _ H5)].
  - intros v b [Hv|Hl]; unfold blk_restore.
    + by rewrite (proj2 (Z.eqb_neq _ _) Hv).
    + rewrite (proj2 (Nat.ltb_lt _ _) Hl). by rewrite orb_true_r.
  - intros b i n. revert i. induction n as [|n IH]; intros i o j Hj at_ Hne; [lia|]. cbn [restore_clusters]. cbv zeta.
    case_bool_decide as Hd; cbn [negb]; [|done]. destruct (decide (j = i)) as [->|]; [by destruct Hne|].
    apply (IH (S i) _ j); [lia|done].
Qed.
End Roundtrip.

(** ** Examples *)

Definition ex_byte (_ : unit) (x : Z) : Z := x mod 256.
#[local] Instance ex_base : BlockBase unit :=
  { len_bytes _ := 131072; read_at b off n := Some (ex_byte b <$> seqZ off (Z.of_nat n)) }.
Lemma ex_base_ok : BlockBaseOk unit ex_byte.
Proof.
  split.
  - intros b. cbn. ulia.
  - intros b x. unfold ex_byte. pose proof (Z.mod_pos_bound x 256). ulia.
  - intros b off n bs H. cbn in H. by simplify_eq.
Qed.
(** Two sectors across a cluster boundary. *)
Definition ex_blk : PvBlk unit := mkPvBlk tt ∅ 127 64 2 0 0.
Definition ex_blk_ctx : DevCtx VecGuestMem unit :=
  DevCtx_new 0 0 (LogWriter_new example_header) (replicate (Z.to_nat 2048) 1) tt [].
Lemma ex_blk_wf : blk_wf ex_blk.
Proof. unfold blk_wf, ex_blk. cbn. split_and!; try ulia. apply map_Forall_empty. Qed.

Lemma blk_is_flat_disk_witness :
  (exists d', execute CMD_WRITE ex_blk ex_blk_ctx = Some (d', ex_blk_ctx) /\ status d' = STATUS_OK) /\
  exists d' c', execute CMD_READ ex_blk ex_blk_ctx = Some (d', c') /\ status d' = STATUS_OK.
Proof.
  assert (valid_request ex_blk) as Hv by (split; vm_compute; congruence).
  assert (buf_gpa ex_blk + count ex_blk * SECTOR_SIZE <= Z.of_nat (length (ctx_mem ex_blk_ctx))) as Hfit.
  { cbn [ctx_mem ex_blk_ctx DevCtx_new]. rewrite length_replicate, Z2Nat.id by lia. vm_compute. congruence. }
  destruct (@blk_is_flat_disk unit ex_base ex_byte ex_base_ok unit ex_blk ex_blk_ctx) as [Hr Hw].
  - exact ex_blk_wf.
  - intros off n. by eexists.
  - apply Forall_replicate. ulia.
  - split.
    + destruct Hw as (d' & He & _ & _ & _ & _ & Hok & _). exists d'. split; [exact He|]. by apply Hok.
    + destruct Hr as (d' & c' & He & _ & _ & _ & _ & Hok & _). exists d', c'. split; [exact He|]. by apply Hok.
Defined.
Lemma blk_section_roundtrip_witness :
  @blk_restore unit example_hash (@blk_snapshot unit example_hash ex_blk) SECTION_VERSION ex_blk = Some ex_blk.
Proof.
  apply (@blk_section_roundtrip unit example_hash example_hash_spec ex_blk ex_blk).
  unfold section_wf, ex_blk. cbn. split_and!; [ulia..|apply map_Forall_empty|apply map_Forall_empty|].
  rewrite map_size_empty. ulia.
Defined.
