(* ===== verification/Bisect.v ===== *)
(** * The checkpoint index of a log: [dh-worker/src/bisection_index.rs]

    The BISECTION_CHECKPOINT records of a log, checked against each other and
    against the epoch hashes they follow, and the choice of the checkpoint that
    brackets a divergence.  The [BTreeMap] keyed by icount is a [gmap]: it is only
    looked up and updated, never iterated.  [Display] text is left out. *)

From Stdlib Require Import String.
From stdpp Require Import gmap.
From S2P Require Import Prelude DhiLog LogReader.

Record RecordPosition := mkPosition { p_icount : Z; p_seq : Z }.
#[export] Instance RecordPosition_eq_dec : EqDecision RecordPosition.
Proof. solve_decision. Defined.

(** The derived order: [icount], then [seq]. *)
Definition position_lt (p q : RecordPosition) : bool :=
  (p_icount p <? p_icount q) || ((p_icount p =? p_icount q) && (p_seq p <? p_seq q)).

Record IndexedEpochHash := mkIndexedEpochHash { ie_epoch_index : Z; ie_position : RecordPosition }.

Record IndexedBisectionCheckpoint := mkIndexedCheckpoint {
  ic_position : RecordPosition;
  ic_icount : Z;
  ic_vns : Z;
  ic_snapshot_ref : bytes;
  ic_max_covered_gap : Z;
  ic_preceding_epoch_hash : IndexedEpochHash }.

Definition coverage_icount_lo (c : IndexedBisectionCheckpoint) : Z :=
  saturating_sub (ic_icount c) (ic_max_covered_gap c).
Definition coverage_icount_hi (c : IndexedBisectionCheckpoint) : Z := ic_icount c.

Definition covers_epoch_position (c : IndexedBisectionCheckpoint) (p : RecordPosition) : bool :=
  (coverage_icount_lo c <=? p_icount p) &&
  ((p_icount p <? ic_icount c) || ((p_icount p =? ic_icount c) && position_lt p (ic_position c))).

Inductive BisectionDivergenceSite :=
| EpochHashSite (epoch_index : Z) (position : RecordPosition)
| TerminalSite (position : RecordPosition).

Inductive BisectionSelectionTarget :=
| TargetEpochHash (epoch_index at_icount : Z)
| TerminalEndState (end_icount : Z).

Record SelectedBisectionCheckpoint := mkSelected {
  sel_checkpoint : IndexedBisectionCheckpoint;
  sel_divergence : BisectionDivergenceSite;
  sel_coverage_icount_lo : Z;
  sel_coverage_icount_hi : Z }.

Record BisectionCheckpointIndex := mkCheckpointIndex {
  checkpoints : list IndexedBisectionCheckpoint;
  epoch_hashes : list IndexedEpochHash;
  end_position : option RecordPosition }.

Inductive BisectionCheckpointIndexError :=
| UnsupportedFormatVersion (seq found : Z)
| InvalidFlags (seq flags : Z)
| IcountMismatch (seq record_icount checkpoint_icount : Z)
| MissingPrecedingEpochHash (checkpoint : RecordPosition)
| CheckpointDoesNotFollowEpochHash (checkpoint epoch_hash : RecordPosition)
| CheckpointSeparatedFromEpochHashByCanonicalRecord (checkpoint epoch_hash canonical : RecordPosition)
| InconsistentSequenceOrdering (previous current : RecordPosition)
| GapTooNarrow (seq checkpoint_icount : Z) (previous_checkpoint_icount : option Z) (max_covered_gap required_gap : Z)
| UnusableSnapshotRef (seq : Z) (checkpoint_snapshot_ref : bytes) (reason : string).

Record EpochHashContext := mkContext {
  epoch_hash_of : IndexedEpochHash; intervening_canonical : option RecordPosition }.

Record BisectionCheckpointCandidate := mkCandidate {
  cand_position : RecordPosition;
  cand_format_version : Z;
  cand_flags : Z;
  cand_max_covered_gap : Z;
  cand_snapshot_ref : bytes;
  cand_icount : Z;
  cand_vns : Z;
  cand_preceding_epoch_hash : option IndexedEpochHash;
  cand_intervening_canonical : option RecordPosition }.

(** ** Building the index *)

(** The four locals of the loop over the records. *)
Record IndexScan := mkIndexScan {
  epoch_hash_by_icount : gmap Z EpochHashContext;
  scanned_hashes : list IndexedEpochHash;
  candidates : list BisectionCheckpointCandidate;
  scanned_end : option RecordPosition }.

Definition position_of (r : Rec) : RecordPosition := mkPosition (icount r) (seq r).

(** [get_mut] and the update of the context in place. *)
Definition note_canonical (p : RecordPosition) (c : EpochHashContext) : EpochHashContext :=
  if position_lt (ie_position (epoch_hash_of c)) p && bool_decide (intervening_canonical c = None)
  then mkContext (epoch_hash_of c) (Some p) else c.

Definition index_record (s : IndexScan) (r : Rec) (b : RecordBody) : IndexScan :=
  let 'mkIndexScan by_icount hashes cands en := s in
  let position := position_of r in
  match b with
  | EpochHash epoch_index _ =>
      let epoch_hash := mkIndexedEpochHash epoch_index position in
      mkIndexScan (<[p_icount position := mkContext epoch_hash None]> by_icount) (hashes ++ [epoch_hash]) cands en
  | BisectionCheckpoint format_version flags max_covered_gap checkpoint_snapshot_ref checkpoint_icount checkpoint_vns =>
      let context := by_icount !! p_icount position in
      mkIndexScan by_icount hashes
        (cands ++ [mkCandidate position format_version flags max_covered_gap checkpoint_snapshot_ref checkpoint_icount
           checkpoint_vns (epoch_hash_of <$> context) (c ← context; intervening_canonical c)]) en
  | End _ _ => mkIndexScan by_icount hashes cands (Some position)
  | _ =>
      if negb (is_aux r) then
        mkIndexScan (alter (note_canonical position) (p_icount position) by_icount) hashes cands en
      else s
  end.

(** [Record::body] has no error of its own, only its slice indices panic. *)
Definition infallible {E F A} (o : outcome E A) : outcome F A :=
  match o with Ok a => Ok a | _ => Panic end.

Fixpoint index_records (s : IndexScan) (rs : list Rec) : outcome BisectionCheckpointIndexError IndexScan :=
  match rs with
  | [] => Ok s
  | r :: rs => b ← infallible (body r); index_records (index_record s r b) rs
  end.

(** The loop of [from_candidates]. *)
Fixpoint check_candidates (previous_position : option RecordPosition) (previous_checkpoint_icount : option Z)
    (cs : list BisectionCheckpointCandidate) : outcome BisectionCheckpointIndexError (list IndexedBisectionCheckpoint) :=
  match cs with
  | [] => Ok []
  | c :: cs =>
      let at_ := cand_position c in
      fail (UnsupportedFormatVersion (p_seq at_) (cand_format_version c))
        when negb (cand_format_version c =? BISECTION_CHECKPOINT_FORMAT_VERSION);
      fail (InvalidFlags (p_seq at_) (cand_flags c)) when negb (cand_flags c =? BISECTION_CHECKPOINT_FLAGS);
      fail (IcountMismatch (p_seq at_) (p_icount at_) (cand_icount c)) when negb (p_icount at_ =? cand_icount c);
      _ ← (match previous_position with
           | Some previous =>
               fail (InconsistentSequenceOrdering previous at_) when negb (position_lt previous at_); Ok tt
           | None => Ok tt
           end);
      h ← ok_or (MissingPrecedingEpochHash at_) (cand_preceding_epoch_hash c);
      fail (CheckpointDoesNotFollowEpochHash at_ (ie_position h))
        when negb (p_icount (ie_position h) =? p_icount at_) || negb (position_lt (ie_position h) at_);
      _ ← (match cand_intervening_canonical c with
           | Some canonical =>
               Err (CheckpointSeparatedFromEpochHashByCanonicalRecord at_ (ie_position h) canonical)
           | None => Ok tt
           end);
      required_gap ←
        (match previous_checkpoint_icount with
         | Some previous_icount =>
             if previous_icount <=? cand_icount c then Ok (cand_icount c - previous_icount)
             else match previous_position with
                  | Some previous => Err (InconsistentSequenceOrdering previous at_)
                  | None => Panic
                  end
         | None => Ok (cand_icount c)
         end);
      fail (GapTooNarrow (p_seq at_) (cand_icount c) previous_checkpoint_icount (cand_max_covered_gap c) required_gap)
        when cand_max_covered_gap c <? required_gap;
      rest ← check_candidates (Some at_) (Some (cand_icount c)) cs;
      Ok (mkIndexedCheckpoint at_ (cand_icount c) (cand_vns c) (cand_snapshot_ref c) (cand_max_covered_gap c) h :: rest)
  end.

Definition from_candidates (hashes : list IndexedEpochHash) (en : option RecordPosition)
    (cs : list BisectionCheckpointCandidate) : outcome BisectionCheckpointIndexError BisectionCheckpointIndex :=
  cps ← check_candidates None None cs; Ok (mkCheckpointIndex cps hashes en).

Definition from_reader (rd : LogReader) : outcome BisectionCheckpointIndexError BisectionCheckpointIndex :=
  rs ← infallible (records rd);
  s ← index_records (mkIndexScan ∅ [] [] None) rs;
  from_candidates (scanned_hashes s) (scanned_end s) (candidates s).

Definition index_is_empty (ix : BisectionCheckpointIndex) : bool :=
  match checkpoints ix with [] => true | _ => false end.

(** [validate_snapshot_refs] with the caller's check of one reference, whose
    error is given as its text. *)
Fixpoint validate_refs {S} (validate : bytes -> method S string unit) (cs : list IndexedBisectionCheckpoint) :
    method S BisectionCheckpointIndexError unit := fun s =>
  match cs with
  | [] => (Ok tt, s)
  | c :: cs =>
      match validate (ic_snapshot_ref c) s with
      | (Ok _, s) => validate_refs validate cs s
      | (Err e, s) => (Err (UnusableSnapshotRef (p_seq (ic_position c)) (ic_snapshot_ref c) e), s)
      | (Panic, s) => (Panic, s)
      end
  end.
Definition validate_snapshot_refs {S} (validate : bytes -> method S string unit) (ix : BisectionCheckpointIndex) :=
  validate_refs validate (checkpoints ix).

(** ** Choosing a checkpoint *)

Definition select_epoch_hash_divergence (ix : BisectionCheckpointIndex) (epoch_index at_icount : Z) :
    option SelectedBisectionCheckpoint :=
  epoch_hash ← List.find (fun e => (ie_epoch_index e =? epoch_index) && (p_icount (ie_position e) =? at_icount))
    (epoch_hashes ix);
  c ← List.find (fun c => covers_epoch_position c (ie_position epoch_hash)) (checkpoints ix);
  Some (mkSelected c (EpochHashSite epoch_index (ie_position epoch_hash)) (coverage_icount_lo c) (coverage_icount_hi c)).

Definition select_terminal_divergence (ix : BisectionCheckpointIndex) (end_icount : Z) :
    option SelectedBisectionCheckpoint :=
  en ← end_position ix;
  if negb (p_icount en =? end_icount) then None
  else
    c ← List.find (fun c => position_lt (ic_position c) en && (ic_icount c <=? end_icount)) (reverse (checkpoints ix));
    Some (mkSelected c (TerminalSite en) (coverage_icount_lo c) end_icount).

Definition select_for_divergence (ix : BisectionCheckpointIndex) (target : BisectionSelectionTarget) :
    option SelectedBisectionCheckpoint :=
  match target with
  | TargetEpochHash epoch_index at_icount => select_epoch_hash_divergence ix epoch_index at_icount
  | TerminalEndState end_icount => select_terminal_divergence ix end_icount
  end.

(** ** The records of a log *)

Definition is_checkpoint (r : Rec) : bool := kind r =? KIND_BISECTION_CHECKPOINT.
Definition checkpoint_gap (r : Rec) : Z := of_le (slice 4 4 (payload r)).
Definition checkpoint_ref (r : Rec) : bytes := slice 8 32 (payload r).
Definition checkpoint_time (r : Rec) : Z := of_le (slice 48 8 (payload r)).
Definition hash_index (r : Rec) : Z := of_le (slice 0 8 (payload r)).

Lemma checkpoint_body r : rec_valid r -> is_checkpoint r = true ->
  body r = Ok (BisectionCheckpoint BISECTION_CHECKPOINT_FORMAT_VERSION BISECTION_CHECKPOINT_FLAGS (checkpoint_gap r)
    (checkpoint_ref r) (icount r) (checkpoint_time r)).
Proof.
  unfold is_checkpoint. intros [_ Hv] Hk%Z.eqb_eq. rewrite Hk in Hv.
  eapply validate_kind_known in Hv as [_ Hv]; [|reflexivity]. cbn in Hv. unfold BISECTION_CHECKPOINT_PAYLOAD_LEN in Hv.
  repeat case_match; try discriminate Hv.
  repeat match type of Hv with _ ≫= _ = _ => apply bind_ok in Hv as (? & ? & Hv); case_match; [done|] end.
  unfold body. rewrite Hk. cbn -[read_le read_bytes]. rewrite H0, H2, H4. reads.
  assert (x = BISECTION_CHECKPOINT_FORMAT_VERSION /\ x0 = BISECTION_CHECKPOINT_FLAGS /\ x1 = icount r)
    as (-> & -> & ->) by lia. done.
Qed.

Lemma hash_body r : rec_valid r -> is_epoch_hash r = true -> body r = Ok (EpochHash (hash_index r) (slice 8 32 (payload r))).
Proof.
  unfold is_epoch_hash. intros [_ Hv] Hk%Z.eqb_eq. unfold body. rewrite Hk in *.
  eapply validate_kind_known in Hv as [_ Hv]; [|reflexivity]. cbn in Hv. injection Hv as Hv. apply Nat.eqb_eq in Hv.
  cbn. reads. done.
Qed.

(** The other records do not interest the index. *)
Definition passed_by (b : RecordBody) : bool :=
  match b with EpochHash _ _ | BisectionCheckpoint _ _ _ _ _ _ | End _ _ => false | _ => true end.
Lemma other_body r : rec_valid r -> is_checkpoint r = false -> is_epoch_hash r = false -> is_end r = false ->
  exists b, body r = Ok b /\ passed_by b = true.
Proof.
  intros [b Hb]%body_ok H1 H2 H3. exists b. split; [done|]. unfold is_checkpoint, is_epoch_hash, is_end, body in *.
  rewrite H1, H2, H3 in Hb.
  repeat match type of Hb with
  | (if ?c then _ else _) = _ => destruct c; [by repeat (apply bind_ok in Hb as (? & _ & Hb)); simplify_eq|]
  end. by simplify_eq.
Qed.

Lemma end_body' r : rec_valid r -> is_end r = true -> exists s h, body r = Ok (End s h).
Proof.
  intros Hv He. pose proof (rec_valid_end_length r Hv He). unfold is_end in He. apply Z.eqb_eq in He.
  unfold body. rewrite He. cbn [Z.eqb KIND_END]. reads. eauto.
Qed.

(** Records are numbered and ordered. *)
Lemma in_order_before n l pre r post : 0 <= n -> in_order n l (pre ++ r :: post) ->
  Forall (fun a => icount a <= icount r /\ seq a < seq r) pre /\ seq r = n + Z.of_nat (length pre).
Proof.
  revert n l. induction pre as [|a pre IH]; intros n l Hn (Hs & Hl & Ho).
  - split; [done|]. simpl. lia.
  - destruct (IH (n + 1) (icount a) ltac:(lia) Ho) as [Hf Hq]. split; [|simpl; lia]. constructor; [|done].
    split; [|lia]. destruct pre as [|b pre].
    + destruct Ho as (_ & Ho & _). apply Ho. lia.
    + destruct Ho as (_ & Ho & _). inversion Hf as [|?? [? ?]]. specialize (Ho ltac:(lia)). lia.
Qed.

Lemma position_of_lt a r : icount a <= icount r /\ seq a < seq r -> position_lt (position_of a) (position_of r) = true.
Proof. unfold position_lt, position_of. cbn. lia. Qed.
Lemma position_lt_asym p q : position_lt p q = true -> position_lt q p = false.
Proof. unfold position_lt. lia. Qed.

(** ** What the loop collects *)

Definition hashed (r : Rec) : IndexedEpochHash := mkIndexedEpochHash (hash_index r) (position_of r).

(** The context the map holds for an icount after some records. *)
Definition context_step (x : Z) (c : option EpochHashContext) (r : Rec) : option EpochHashContext :=
  if negb (icount r =? x) then c
  else if is_epoch_hash r then Some (mkContext (hashed r) None)
  else if is_aux r then c else note_canonical (position_of r) <$> c.
Definition context (x : Z) (pre : list Rec) : option EpochHashContext := foldl (context_step x) None pre.

Definition candidate (pre : list Rec) (r : Rec) : BisectionCheckpointCandidate :=
  mkCandidate (position_of r) BISECTION_CHECKPOINT_FORMAT_VERSION BISECTION_CHECKPOINT_FLAGS (checkpoint_gap r)
    (checkpoint_ref r) (icount r) (checkpoint_time r) (epoch_hash_of <$> context (icount r) pre)
    (c ← context (icount r) pre; intervening_canonical c).
Fixpoint candidates_of (pre rs : list Rec) : list BisectionCheckpointCandidate :=
  match rs with
  | [] => []
  | r :: rs => (if is_checkpoint r then [candidate pre r] else []) ++ candidates_of (pre ++ [r]) rs
  end.

Record tracks (pre : list Rec) (s : IndexScan) : Prop := {
  tk_context : forall x, epoch_hash_by_icount s !! x = context x pre;
  tk_hashes : scanned_hashes s = hashed <$> List.filter is_epoch_hash pre;
  tk_end : scanned_end s = foldl (fun o r => if is_end r then Some (position_of r) else o) None pre }.

Lemma context_snoc x pre r : context x (pre ++ [r]) = context_step x (context x pre) r.
Proof. apply foldl_snoc. Qed.

Lemma valid_checkpoint_aux r : rec_valid r -> is_checkpoint r = true -> is_aux r = true.
Proof.
  unfold is_checkpoint. intros [_ Hv] Hk%Z.eqb_eq. rewrite Hk in Hv. by eapply validate_kind_known in Hv as [? _].
Qed.

Lemma tracks_aux pre s r : tracks pre s -> is_epoch_hash r = false -> is_aux r = true -> is_end r = false ->
  forall cands, tracks (pre ++ [r]) (mkIndexScan (epoch_hash_by_icount s) (scanned_hashes s) cands (scanned_end s)).
Proof.
  intros [Hc Hh He] H1 H2 H3 cands. split; cbn.
  - intros x. rewrite context_snoc, Hc. unfold context_step. rewrite H1, H2. by case_match.
  - rewrite List.filter_app, Hh. cbn. by rewrite H1, app_nil_r.
  - by rewrite foldl_snoc, H3.
Qed.

Lemma index_record_spec pre s r : tracks pre s -> rec_valid r ->
  exists b, body r = Ok b /\ tracks (pre ++ [r]) (index_record s r b) /\
    candidates (index_record s r b) = candidates s ++ (if is_checkpoint r then [candidate pre r] else []).
Proof.
  intros T Hv. destruct s as [m hs cs en]. destruct (is_epoch_hash r) eqn:Eh; [|destruct (is_checkpoint r) eqn:Ec;
    [|destruct (is_end r) eqn:Ee]].
  - assert (is_checkpoint r = false) as ->.
    { unfold is_checkpoint, is_epoch_hash in *. apply Z.eqb_eq in Eh. by rewrite Eh. }
    eexists. split; [by apply hash_body|]. cbn. rewrite app_nil_r. split; [|done]. destruct T as [Hc Hh He]. split; cbn.
    + intros x. rewrite context_snoc. unfold context_step. rewrite Eh. destruct (icount r =? x) eqn:E; cbn.
      * apply Z.eqb_eq in E as <-. by rewrite lookup_insert_eq.
      * rewrite lookup_insert_ne by lia. apply Hc.
    + cbn in Hh. rewrite Hh, List.filter_app. cbn. by rewrite Eh, fmap_app.
    + rewrite foldl_snoc. cbn in He. rewrite He. assert (is_end r = false) as ->; [|done].
      unfold is_end, is_epoch_hash in *. apply Z.eqb_eq in Eh. by rewrite Eh.
  - eexists. split; [by apply checkpoint_body|]. split.
    + apply (tracks_aux pre _ r T); [done|by apply valid_checkpoint_aux|].
      unfold is_end, is_checkpoint in *. apply Z.eqb_eq in Ec. by rewrite Ec.
    + cbn. unfold candidate. by rewrite <- (tk_context _ _ T).
  - destruct (end_body' r Hv Ee) as (x & h & Hb). eexists. split; [done|]. rewrite app_nil_r. split; [|done].
    pose proof (rec_valid_end_aux r Hv Ee) as Ha. destruct T as [Hc Hh He]. split; cbn.
    + intros y. rewrite context_snoc. cbn in Hc. rewrite Hc. unfold context_step. rewrite Eh, Ha. by case_match.
    + cbn in Hh. rewrite List.filter_app, Hh. cbn. by rewrite Eh, app_nil_r.
    + by rewrite foldl_snoc, Ee.
  - destruct (other_body r Hv Ec Eh Ee) as (b & Hb & Hp). exists b. split; [done|]. rewrite app_nil_r.
    replace (index_record (mkIndexScan m hs cs en) r b) with (if negb (is_aux r) then
        mkIndexScan (alter (note_canonical (position_of r)) (icount r) m) hs cs en else mkIndexScan m hs cs en)
      by (by destruct b).
    destruct (is_aux r) eqn:Ha; cbn [negb].
    { split; [|done]. by apply (tracks_aux pre (mkIndexScan m hs cs en) r T). }
    split; [|done]. destruct T as [Hc Hh He]. split; cbn in *.
    + intros x. rewrite context_snoc. unfold context_step. rewrite Eh, Ha. destruct (icount r =? x) eqn:E; cbn.
      * apply Z.eqb_eq in E as <-. by rewrite lookup_alter_eq, Hc.
      * rewrite lookup_alter_ne by lia. apply Hc.
    + rewrite Hh, List.filter_app. cbn. by rewrite Eh, app_nil_r.
    + by rewrite foldl_snoc, Ee.
Qed.

Lemma index_records_spec rs : Forall rec_valid rs -> forall pre s, tracks pre s ->
  exists s', index_records s rs = Ok s' /\ tracks (pre ++ rs) s' /\ candidates s' = candidates s ++ candidates_of pre rs.
Proof.
  induction 1 as [|r rs Hv _ IH]; intros pre s T.
  - exists s. rewrite !app_nil_r. done.
  - destruct (index_record_spec pre s r T Hv) as (b & Hb & T' & Hc).
    destruct (IH _ _ T') as (s' & Hs & T'' & Hc'). exists s'. cbn [index_records]. rewrite Hb. cbn.
    split_and!; [done| |].
    + by rewrite <- app_assoc in T''.
    + rewrite Hc', Hc, <- app_assoc. done.
Qed.

(** ** When the checks pass *)

(** An epoch hash of the same icount, and only AUX records after it. *)
Definition anchored (pre : list Rec) (x : Z) : Prop :=
  exists pre1 e mid, pre = pre1 ++ e :: mid /\ is_epoch_hash e = true /\ icount e = x /\
    Forall (fun m => is_aux m = true) mid.

Lemma anchored_snoc pre a x :
  anchored (pre ++ [a]) x <-> (is_epoch_hash a = true /\ icount a = x) \/ (is_aux a = true /\ anchored pre x).
Proof.
  split.
  - intros (p & e & mid & Heq & He & Hx & Hm). destruct mid as [|m mid' _] using rev_ind.
    + apply app_inj_tail in Heq as [-> ->]. by left.
    + rewrite app_comm_cons, app_assoc in Heq. apply app_inj_tail in Heq as [-> ->].
      apply Forall_app in Hm as [Hm Ha]. inversion Ha. right. split; [done|]. by exists p, e, mid'.
  - intros [[He Hx]|[Ha (p & e & mid & -> & He & Hx & Hm)]].
    + by exists pre, a, [].
    + exists p, e, (mid ++ [a]). rewrite <- app_assoc. split_and!; [done|done|done|]. apply Forall_app. by repeat constructor.
Qed.
Lemma anchored_elem pre x : anchored pre x -> exists e, e ∈ pre /\ is_epoch_hash e = true /\ icount e = x.
Proof. intros (p & e & mid & -> & ? & ? & _). exists e. split; [set_solver|done]. Qed.

Lemma context_spec x pre : in_order 0 0 pre -> Forall (fun a => icount a <= x) pre ->
  match context x pre with
  | Some (mkContext h i) => (exists e, e ∈ pre /\ icount e = x /\ h = hashed e) /\ (i = None <-> anchored pre x)
  | None => ~ (exists e, e ∈ pre /\ is_epoch_hash e = true /\ icount e = x)
  end.
Proof.
  induction pre as [|a pre IH] using rev_ind; intros Ho Hx.
  { intros (e & He & _). by apply elem_of_nil in He. }
  apply Forall_app in Hx as [Hx Ha]. inversion_clear Ha as [|?? Ha' _].
  destruct (in_order_before 0 0 pre a [] ltac:(lia) Ho) as [Hb _].
  apply in_order_app in Ho as [Ho _]. specialize (IH Ho Hx). rewrite context_snoc. unfold context_step.
  destruct (icount a =? x) eqn:E; cbn [negb].
  - destruct (is_epoch_hash a) eqn:Eh; [|destruct (is_aux a) eqn:Ea].
    + split; [exists a; split_and!; [set_solver|lia|done]|]. rewrite anchored_snoc. split; [|done]. intros _. left. split; [done|lia].
    + destruct (context x pre) as [[h i]|].
      * destruct IH as [(e & He & Hex & ->) IH]. split; [exists e; split; [set_solver|done]|]. rewrite anchored_snoc, Eh, Ea, IH.
        naive_solver.
      * intros (e & [He|He%list_elem_of_singleton]%elem_of_app & Hh & Hex); [apply IH; eauto|congruence].
    + destruct (context x pre) as [[h i]|].
      * cbn [fmap option_fmap option_map]. destruct IH as [(e & He & Hex & ->) IH].
        unfold note_canonical. cbn [epoch_hash_of intervening_canonical ie_position hashed].
        rewrite position_of_lt by (by rewrite Forall_forall in Hb; apply Hb). cbn [andb].
        assert (~ anchored (pre ++ [a]) x) by (rewrite anchored_snoc, Eh, Ea; naive_solver).
        case_bool_decide as Hi; (split; [exists e; split; [set_solver|done]|]); split; try done; naive_solver.
      * intros (e & [He|He%list_elem_of_singleton]%elem_of_app & Hh & Hex); [apply IH; eauto|congruence].
  - assert (forall e, e ∈ pre -> icount e <> x) as Hne.
    { intros e He. rewrite Forall_forall in Hb. specialize (Hb e He). lia. }
    destruct (context x pre) as [[h i]|].
    + destruct IH as [(e & He & Hex & _) _]. by destruct (Hne e He).
    + intros (e & [He|He%list_elem_of_singleton]%elem_of_app & Hh & Hex); [by apply (Hne e)|subst; lia].
Qed.

Definition last_checkpoint (pre : list Rec) : option Rec := list.last (List.filter is_checkpoint pre).
(** Where the coverage of the next checkpoint has to begin. *)
Definition covered_to (pre : list Rec) : Z := from_option icount 0 (last_checkpoint pre).

Definition well_placed (pre : list Rec) (r : Rec) : Prop :=
  anchored pre (icount r) /\ icount r - covered_to pre <= checkpoint_gap r.
Definition well_spaced (pre rs : list Rec) : Prop :=
  forall a r c, rs = a ++ r :: c -> is_checkpoint r = true -> well_placed (pre ++ a) r.

(** An indexed checkpoint and its record. *)
Definition describes (r : Rec) (c : IndexedBisectionCheckpoint) : Prop :=
  ic_position c = position_of r /\ ic_icount c = icount r /\ ic_vns c = checkpoint_time r /\
  ic_snapshot_ref c = checkpoint_ref r /\ ic_max_covered_gap c = checkpoint_gap r /\
  p_icount (ie_position (ic_preceding_epoch_hash c)) = icount r /\
  position_lt (ie_position (ic_preceding_epoch_hash c)) (position_of r) = true.

(** The errors a log the reader accepts can give. *)
Definition placement_error (e : BisectionCheckpointIndexError) : bool :=
  match e with
  | MissingPrecedingEpochHash _ | CheckpointSeparatedFromEpochHashByCanonicalRecord _ _ _ | GapTooNarrow _ _ _ _ _ => true
  | _ => false
  end.

Lemma well_spaced_cons pre r rs : well_spaced pre (r :: rs) <->
  (is_checkpoint r = true -> well_placed pre r) /\ well_spaced (pre ++ [r]) rs.
Proof.
  unfold well_spaced. split.
  - intros H. split.
    + intros Hc. specialize (H [] r rs eq_refl Hc). by rewrite app_nil_r in H.
    + intros a x c -> Hx. specialize (H (r :: a) x c eq_refl Hx). by rewrite <- app_assoc.
  - intros [Hr H] [|y a] x c [= -> ->] Hx; [rewrite app_nil_r; auto|].
    specialize (H a x c eq_refl Hx). by rewrite <- app_assoc in H.
Qed.

Lemma last_checkpoint_elem pre p : last_checkpoint pre = Some p -> p ∈ pre.
Proof. intros H%last_Some_elem_of. by apply elem_of_bfilter in H as [? _]. Qed.
Lemma last_checkpoint_snoc pre r :
  last_checkpoint (pre ++ [r]) = if is_checkpoint r then Some r else last_checkpoint pre.
Proof.
  unfold last_checkpoint. rewrite List.filter_app. cbn. destruct (is_checkpoint r).
  - apply last_snoc.
  - by rewrite app_nil_r.
Qed.

Lemma check_candidate pre r post :
  in_order 0 0 (pre ++ r :: post) ->
  let check cs := check_candidates (position_of <$> last_checkpoint pre) (icount <$> last_checkpoint pre) (candidate pre r :: cs) in
  (well_placed pre r /\ exists c, describes r c /\
     forall cs, check cs = (rest ← check_candidates (Some (position_of r)) (Some (icount r)) cs; Ok (c :: rest))) \/
  (~ well_placed pre r /\ exists e, placement_error e = true /\ forall cs, check cs = Err e).
Proof.
  intros Ho check. destruct (in_order_before 0 0 pre r post ltac:(lia) Ho) as [Hb _].
  assert (in_order 0 0 pre) as Hpre by (by apply in_order_app in Ho as [? _]).
  pose proof (context_spec (icount r) pre Hpre (Forall_impl _ _ _ Hb (fun a Ha => proj1 Ha))) as Hc.
  rewrite Forall_forall in Hb.
  assert (forall p, last_checkpoint pre = Some p -> position_lt (position_of p) (position_of r) = true /\ icount p <= icount r) as Hl.
  { intros p Hp%last_checkpoint_elem. split; [by apply position_of_lt, Hb|by apply Hb]. }
  unfold check, well_placed, covered_to. cbn [check_candidates candidate cand_position cand_format_version cand_flags cand_icount
    cand_preceding_epoch_hash cand_intervening_canonical cand_max_covered_gap cand_vns cand_snapshot_ref].
  rewrite !Z.eqb_refl. cbn [negb].
  assert (forall A (k : unit -> outcome BisectionCheckpointIndexError A), (match position_of <$> last_checkpoint pre with
    | Some previous => if negb (position_lt previous (position_of r)) then
        Err (InconsistentSequenceOrdering previous (position_of r)) else Ok tt
    | None => Ok tt end ≫= k) = k tt) as Hprev.
  { intros A k. destruct (last_checkpoint pre) as [p|]; cbn; [|done]. by rewrite (proj1 (Hl p eq_refl)). }
  destruct (context (icount r) pre) as [[h i]|]; cbn [fmap option_fmap option_map mbind option_bind epoch_hash_of intervening_canonical].
  2:{ right. split; [intros [(e & ?)%anchored_elem _]; apply Hc; eauto|]. eexists. split; [|intros cs; rewrite Hprev; reflexivity]. done. }
  destruct Hc as [(e & He & Hex & ->) Hi].
  assert (position_lt (position_of e) (position_of r) = true) as Hlt by (by apply position_of_lt, Hb).
  destruct i as [canonical|].
  { right. split; [intros [Ha _]; by apply Hi in Ha|]. eexists. split; [|intros cs; rewrite Hprev; cbn; rewrite Hex, Z.eqb_refl, Hlt;
      reflexivity]. done. }
  assert (exists g, g = icount r - from_option icount 0 (last_checkpoint pre) /\
    match icount <$> last_checkpoint pre with
    | Some previous_icount => if previous_icount <=? icount r then Ok (icount r - previous_icount)
        else match position_of <$> last_checkpoint pre with
             | Some previous => Err (InconsistentSequenceOrdering previous (position_of r)) | None => Panic end
    | None => Ok (icount r) end = Ok g) as (g & Hg & Hgap).
  { eexists. split; [reflexivity|]. destruct (last_checkpoint pre) as [p|]; cbn; [|f_equal; lia].
    destruct (Hl p eq_refl) as [_ Hle]. by rewrite (proj2 (Z.leb_le _ _) Hle). }
  destruct (checkpoint_gap r <? g) eqn:Eg.
  - right. split; [lia|]. eexists. split; [|intros cs; rewrite Hprev; cbn [mbind outcome_bind ok_or ie_position hashed p_icount position_of];
      rewrite Hex, Z.eqb_refl, Hlt; cbn [negb orb]; rewrite Hgap; cbn [mbind outcome_bind]; rewrite Eg; reflexivity]. done.
  - left. split; [split; [by apply Hi|lia]|]. eexists. split; [|intros cs; rewrite Hprev;
      cbn [mbind outcome_bind ok_or ie_position hashed p_icount position_of];
      rewrite Hex, Z.eqb_refl, Hlt; cbn [negb orb]; rewrite Hgap; cbn [mbind outcome_bind]; rewrite Eg; reflexivity].
    by repeat split.
Qed.

Lemma check_candidates_spec rs : forall pre, in_order 0 0 (pre ++ rs) ->
  let o := check_candidates (position_of <$> last_checkpoint pre) (icount <$> last_checkpoint pre) (candidates_of pre rs) in
  (well_spaced pre rs /\ exists cps, o = Ok cps /\ Forall2 describes (List.filter is_checkpoint rs) cps) \/
  (~ well_spaced pre rs /\ exists e, o = Err e /\ placement_error e = true).
Proof.
  induction rs as [|r rs IH]; intros pre Ho; cbn [candidates_of].
  { left. split; [by intros [|??] ???|]. by exists []. }
  pose proof (check_candidate pre r rs Ho) as Hc.
  change (r :: rs) with ([r] ++ rs) in Ho. rewrite app_assoc in Ho. specialize (IH _ Ho). rewrite last_checkpoint_snoc in IH.
  rewrite well_spaced_cons. cbn [List.filter]. destruct (is_checkpoint r); cbn [app].
  - destruct Hc as [[Hp (c & Hd & Hc)]|[Hp (e & Hpe & Hc)]]; rewrite Hc.
    + cbn [fmap option_fmap option_map] in IH. destruct IH as [[Hs (cps & -> & HF)]|[Hs (e & -> & He)]].
      * left. split; [done|]. exists (c :: cps). split; [done|]. by constructor.
      * right. split; [tauto|]. by exists e.
    + right. split; [tauto|]. by exists e.
  - destruct IH as [[Hs (cps & -> & HF)]|[Hs (e & -> & He)]]; [left|right]; split; try naive_solver.
Qed.

(** ** What the index is, and what it selects *)

Lemma index_of_records rs e :
  Forall rec_valid (rs ++ [e]) -> in_order 0 0 (rs ++ [e]) -> is_end e = true ->
  let o := (s ← index_records (mkIndexScan ∅ [] [] None) (rs ++ [e]);
            from_candidates (scanned_hashes s) (scanned_end s) (candidates s)) in
  (well_spaced [] (rs ++ [e]) /\ exists ix, o = Ok ix /\
     Forall2 describes (List.filter is_checkpoint (rs ++ [e])) (checkpoints ix) /\
     epoch_hashes ix = hashed <$> List.filter is_epoch_hash (rs ++ [e]) /\ end_position ix = Some (position_of e)) \/
  (~ well_spaced [] (rs ++ [e]) /\ exists er, o = Err er /\ placement_error er = true).
Proof.
  intros Hv Ho He. destruct (index_records_spec _ Hv [] (mkIndexScan ∅ [] [] None)) as (s & -> & [Hc Hh Hen] & Hcs).
  { split; [|done|done]. intros x. apply lookup_empty. }
  cbn in Hh, Hen, Hcs. rewrite foldl_snoc, He in Hen. cbn [mbind outcome_bind]. unfold from_candidates. rewrite Hcs, Hh, Hen.
  destruct (check_candidates_spec (rs ++ [e]) [] Ho) as [[Hs (cps & Heq & HF)]|[Hs (er & Heq & Hp)]];
    cbn in Heq; rewrite Heq; [left|right]; (split; [done|]); eexists; (split; [reflexivity|]); done.
Qed.

Lemma find_skip {A} (f : A -> bool) l1 l2 : Forall (fun x => f x = false) l1 -> List.find f (l1 ++ l2) = List.find f l2.
Proof. induction 1 as [|x l Hx _ IH]; [done|]. cbn. by rewrite Hx. Qed.
Lemma find_none {A} (f : A -> bool) l : Forall (fun x => f x = false) l -> List.find f l = None.
Proof. intros H. rewrite <- (app_nil_r l), find_skip; done. Qed.

(** A checkpoint before a position does not cover it; the next one after it does. *)
Lemma before_not_covering r c p : describes r c -> position_lt (position_of r) p = true -> covers_epoch_position c p = false.
Proof.
  intros (Hp & Hi & _) Hlt. unfold covers_epoch_position. rewrite Hp, Hi, (position_lt_asym _ _ Hlt), andb_false_r, orb_false_r.
  apply andb_false_iff. right. unfold position_lt in Hlt. cbn in Hlt. lia.
Qed.
Lemma after_covering r c p : describes r c -> position_lt p (position_of r) = true -> coverage_icount_lo c <= p_icount p ->
  covers_epoch_position c p = true.
Proof.
  intros (Hp & Hi & _) Hlt Hlo. unfold covers_epoch_position. rewrite Hp, Hi, Hlt.
  unfold position_lt in Hlt. cbn in Hlt. lia.
Qed.

(** Coverage reaches down to the checkpoint before. *)
Lemma coverage_reaches pre r c : Forall (fun a => 0 <= icount a) pre ->
  well_placed pre r -> describes r c -> coverage_icount_lo c <= covered_to pre.
Proof.
  intros Hnn [_ Hg] (_ & Hi & _ & _ & Hgap & _). unfold coverage_icount_lo, saturating_sub. rewrite Hi, Hgap.
  assert (0 <= covered_to pre); [|lia]. unfold covered_to. destruct (last_checkpoint pre) as [p|] eqn:E; [|done].
  rewrite Forall_forall in Hnn. by apply Hnn, last_checkpoint_elem.
Qed.

Lemma Forall2_elem_r {A C} (P : A -> C -> Prop) l k c : Forall2 P l k -> c ∈ k -> exists a, a ∈ l /\ P a c.
Proof.
  intros HF [i Hi]%list_elem_of_lookup. destruct (Forall2_lookup_r _ _ _ _ _ HF Hi) as (a & Ha & HP).
  exists a. split; [|done]. by apply list_elem_of_lookup_2 in Ha.
Qed.

Lemma filter_find_split {A} (f : A -> bool) l r : List.find f l = Some r ->
  exists a c, l = a ++ r :: c /\ f r = true /\ List.filter f a = [].
Proof.
  induction l as [|x l IH]; cbn; [done|]. destruct (f x) eqn:E.
  - intros [= ->]. by exists [], l.
  - intros (a & c & -> & Hr & Ha)%IH. exists (x :: a), c. cbn. by rewrite E.
Qed.
Lemma find_none_filter {A} (f : A -> bool) l : List.find f l = None -> List.filter f l = [].
Proof. induction l as [|x l IH]; cbn; [done|]. by destruct (f x). Qed.

Section Theorems.
Context {B : Blake3}.

(** On a log the reader accepts, the index is built exactly when every
    checkpoint directly follows, AUX records apart, an epoch hash of its icount
    and covers at least the distance to the checkpoint before it (or to 0); it
    then lists every checkpoint and every epoch hash of the log in order.
    Otherwise the error is one of the three of placement: the version, flag,
    icount and ordering errors are unreachable. *)
Theorem bisection_index_exact b rd :
  bytes_ok b -> LogReader_parse b = Ok rd ->
  exists rs e, records rd = Ok (rs ++ [e]) /\
  ((well_spaced [] (rs ++ [e]) /\ exists ix, from_reader rd = Ok ix /\
     Forall2 describes (List.filter is_checkpoint (rs ++ [e])) (checkpoints ix) /\
     epoch_hashes ix = hashed <$> List.filter is_epoch_hash (rs ++ [e]) /\ end_position ix = Some (position_of e)) \/
   (~ well_spaced [] (rs ++ [e]) /\ exists er, from_reader rd = Err er /\ placement_error er = true)).
Proof.
  intros Hok (rs & e & Hr & _ & Hsl)%parsed_records; [|done]. exists rs, e. split; [done|]. unfold from_reader. rewrite Hr.
  apply index_of_records; apply Hsl.
Qed.

Lemma index_inv b rd ix rs : bytes_ok b -> LogReader_parse b = Ok rd -> records rd = Ok rs -> from_reader rd = Ok ix ->
  exists pre e, rs = pre ++ [e] /\ sealed_log (rd_header rd) pre e /\ well_spaced [] rs /\
    Forall2 describes (List.filter is_checkpoint rs) (checkpoints ix) /\
    epoch_hashes ix = hashed <$> List.filter is_epoch_hash rs /\ end_position ix = Some (position_of e).
Proof.
  intros Hok (pre & e & Hr' & _ & Hsl)%parsed_records Hr Hf; [|done]. rewrite Hr in Hr'. injection Hr' as ->.
  unfold from_reader in Hf. rewrite Hr in Hf. exists pre, e. split; [done|]. split; [done|].
  destruct (index_of_records pre e) as [(Hs & ix' & Heq & HF & Hh & He)|(_ & er & Heq & _)]; try apply Hsl.
  - cbn [infallible mbind outcome_bind] in Hf, Heq. rewrite Hf in Heq. by injection Heq as <-.
  - cbn [infallible mbind outcome_bind] in Hf, Heq. by rewrite Hf in Heq.
Qed.

(** The epoch hash a divergence names, and the scan of the checkpoints for it. *)
Lemma select_epoch rs ix pre e post :
  in_order 0 0 rs -> Forall (fun a => 0 <= icount a) rs -> well_spaced [] rs ->
  Forall2 describes (List.filter is_checkpoint rs) (checkpoints ix) ->
  rs = pre ++ e :: post -> is_epoch_hash e = true ->
  match List.find is_checkpoint post with
  | Some r => exists c, describes r c /\ coverage_icount_lo c <= covered_to pre <= icount e /\
      List.find (fun c => covers_epoch_position c (position_of e)) (checkpoints ix) = Some c
  | None => List.find (fun c => covers_epoch_position c (position_of e)) (checkpoints ix) = None
  end.
Proof.
  intros Ho Hnn Hs HF -> He.
  destruct (in_order_before 0 0 pre e post ltac:(lia) Ho) as [Hb _].
  assert (is_checkpoint e = false) as Hne by (unfold is_checkpoint, is_epoch_hash in *; apply Z.eqb_eq in He; by rewrite He).
  rewrite List.filter_app in HF. cbn [List.filter] in HF. rewrite Hne in HF.
  apply Forall2_app_inv_l in HF as (c1 & c2 & H1 & H2 & ->).
  rewrite find_skip.
  2:{ apply Forall_forall. intros c Hc. destruct (Forall2_elem_r _ _ _ _ H1 Hc) as (r & Hr & Hd).
      apply elem_of_bfilter in Hr as [Hr _]. rewrite Forall_forall in Hb. apply (before_not_covering r); [done|]. by apply position_of_lt, Hb. }
  destruct (List.find is_checkpoint post) as [r|] eqn:Ef.
  - apply filter_find_split in Ef as (a & d & -> & Hr & Ha).
    rewrite List.filter_app, Ha in H2. cbn [List.filter app] in H2. rewrite Hr in H2. inversion H2 as [|? c ? cs Hd Hrest]; subst.
    assert (covered_to (pre ++ e :: a) = covered_to pre) as Hcov.
    { unfold covered_to, last_checkpoint. rewrite List.filter_app. cbn [List.filter]. by rewrite Hne, Ha, app_nil_r. }
    rewrite app_comm_cons, app_assoc in Ho, Hnn, Hs.
    assert (coverage_icount_lo c <= covered_to pre) as Hlo.
    { rewrite <- Hcov. apply (coverage_reaches _ r); [by apply Forall_app in Hnn as [? _]| |done]. by apply (Hs (pre ++ e :: a) r d). }
    assert (covered_to pre <= icount e) as Hup.
    { unfold covered_to. destruct (last_checkpoint pre) as [p|] eqn:E; cbn [from_option].
      - rewrite Forall_forall in Hb. by apply Hb, last_checkpoint_elem.
      - apply Forall_app in Hnn as [Hnn _]. apply Forall_app in Hnn as [_ Hnn]. by inversion Hnn. }
    exists c. split_and!; [done|done|done|]. cbn [List.find]. rewrite (after_covering r); [done|done| |cbn; lia].
    destruct (in_order_before 0 0 _ r d ltac:(lia) Ho) as [Hb' _]. rewrite Forall_forall in Hb'. apply position_of_lt, Hb'. set_solver.
  - apply find_none_filter in Ef. rewrite Ef in H2. by inversion H2.
Qed.

Lemma find_hash pre e post rest : is_epoch_hash e = true ->
  (forall x, x ∈ pre -> is_epoch_hash x = true -> ~ (hash_index x = hash_index e /\ icount x = icount e)) ->
  rest = hashed <$> List.filter is_epoch_hash (pre ++ e :: post) ->
  List.find (fun h => (ie_epoch_index h =? hash_index e) && (p_icount (ie_position h) =? icount e)) rest = Some (hashed e).
Proof.
  intros He Hf ->. rewrite List.filter_app, fmap_app. cbn [List.filter]. rewrite He. rewrite find_skip.
  - cbn. by rewrite !Z.eqb_refl.
  - apply Forall_fmap, Forall_forall. intros x [Hx Hh]%elem_of_bfilter. specialize (Hf x Hx Hh). cbn. lia.
Qed.

Lemma select_last rs e ix :
  in_order 0 0 (rs ++ [e]) -> is_end e = true ->
  Forall2 describes (List.filter is_checkpoint (rs ++ [e])) (checkpoints ix) ->
  let found := List.find (fun c => position_lt (ic_position c) (position_of e) && (ic_icount c <=? icount e))
    (reverse (checkpoints ix)) in
  match last_checkpoint rs with
  | Some r => exists c, describes r c /\ found = Some c
  | None => found = None
  end.
Proof.
  intros Ho He HF found.
  assert (is_checkpoint e = false) as Hne by (unfold is_checkpoint, is_end in *; apply Z.eqb_eq in He; by rewrite He).
  rewrite List.filter_app in HF. cbn [List.filter] in HF. rewrite Hne, app_nil_r in HF.
  destruct (in_order_before 0 0 rs e [] ltac:(lia) Ho) as [Hb _]. rewrite Forall_forall in Hb.
  pose proof (Forall2_reverse _ _ _ HF) as HR. unfold found. clear found HF.
  destruct (last_checkpoint rs) as [r|] eqn:E; pose proof E as E'; unfold last_checkpoint in E; rewrite <- head_reverse in E.
  - destruct HR as [|r' c l k Hd _]; [done|]. injection E as ->. exists c. split; [done|]. cbn [List.find].
    destruct Hd as (-> & -> & _). apply last_checkpoint_elem, Hb in E'. rewrite position_of_lt by done. cbn.
    by rewrite (proj2 (Z.leb_le _ _)) by apply E'.
  - by destruct HR.
Qed.

(** The selection brackets the divergence.  For the first epoch hash with a
    given index and icount, the checkpoint selected is the next one in the log,
    and its coverage starts no later than the checkpoint before the hash, so no
    instruction between the two is left out; without a later checkpoint nothing
    is selected.  A terminal divergence selects the last checkpoint of the log,
    and only at the log's own end icount. *)
Theorem bisection_selects_nearest b rd rs ix :
  bytes_ok b -> LogReader_parse b = Ok rd -> records rd = Ok rs -> from_reader rd = Ok ix ->
  (forall pre e post, rs = pre ++ e :: post -> is_epoch_hash e = true ->
     (forall x, x ∈ pre -> is_epoch_hash x = true -> ~ (hash_index x = hash_index e /\ icount x = icount e)) ->
     match List.find is_checkpoint post with
     | Some r => exists c lo, describes r c /\ lo <= covered_to pre <= icount e /\
         select_for_divergence ix (TargetEpochHash (hash_index e) (icount e))
         = Some (mkSelected c (EpochHashSite (hash_index e) (position_of e)) lo (icount r))
     | None => select_for_divergence ix (TargetEpochHash (hash_index e) (icount e)) = None
     end) /\
  (forall x, select_for_divergence ix (TerminalEndState x) <> None -> x = h_end_icount (rd_header rd)) /\
  match last_checkpoint rs with
  | Some r => exists c p, describes r c /\
      select_for_divergence ix (TerminalEndState (h_end_icount (rd_header rd)))
      = Some (mkSelected c (TerminalSite p) (saturating_sub (icount r) (checkpoint_gap r)) (h_end_icount (rd_header rd)))
  | None => select_for_divergence ix (TerminalEndState (h_end_icount (rd_header rd))) = None
  end.
Proof.
  intros Hok Hp Hr Hf. destruct (index_inv b rd ix rs Hok Hp Hr Hf) as (pre0 & en & -> & Hsl & Hs & HF & Hh & He).
  pose proof (sl_order _ _ _ Hsl) as Ho. assert (Forall (fun a => 0 <= icount a) (pre0 ++ [en])) as Hnn.
  { eapply Forall_impl; [apply Hsl|]. intros r (_ & _ & _ & ? & _). ulia. }
  assert (icount en = h_end_icount (rd_header rd)) as Hend by (apply Hsl).
  split_and!.
  - intros pre e post Heq Hep Hfst. pose proof (select_epoch _ ix pre e post Ho Hnn Hs HF Heq Hep) as Hsel.
    rewrite Heq in Hh. unfold select_for_divergence, select_epoch_hash_divergence.
    rewrite (find_hash pre e post _ Hep Hfst Hh). cbn [mbind option_bind ie_position hashed].
    destruct (List.find is_checkpoint post) as [r|]; [|by rewrite Hsel].
    destruct Hsel as (c & Hd & Hlo & ->). exists c, (coverage_icount_lo c). split_and!; [done|lia|lia|]. cbn.
    unfold coverage_icount_hi. by rewrite (proj1 (proj2 Hd)).
  - intros x. cbn. unfold select_terminal_divergence. rewrite He. cbn. case_match; [done|]. lia.
  - pose proof (select_last pre0 en ix Ho (sl_end _ _ _ Hsl) HF) as Hl. rewrite last_checkpoint_snoc.
    assert (is_checkpoint en = false) as ->.
    { pose proof (sl_end _ _ _ Hsl) as E. unfold is_checkpoint, is_end in *. apply Z.eqb_eq in E. by rewrite E. }
    cbn [select_for_divergence]. unfold select_terminal_divergence. rewrite He, <- Hend. cbn [mbind option_bind p_icount position_of].
    rewrite Z.eqb_refl. cbn [negb]. destruct (last_checkpoint pre0) as [r|]; [|by rewrite Hl].
    destruct Hl as (c & Hd & ->). exists c, (position_of en). split; [done|]. cbn. unfold coverage_icount_lo.
    destruct Hd as (_ & -> & _ & _ & -> & _). done.
Qed.
End Theorems.

(** ** A log with two checkpoints *)

Definition bisect_writer : LogWriter :=
  let w := LogWriter_new example_header in
  let w := (pad_set 4 4096 0 5 (2 ^ 32 - 1) w).2 in
  let w := (epoch_hash 8 0 1 (replicate 32 8) w).2 in
  let w := (bisection_checkpoint 8 0 8 (replicate 32 5) 8 w).2 in
  let w := (epoch_hash 12 0 2 (replicate 32 7) w).2 in
  let w := (epoch_hash 16 0 3 (replicate 32 6) w).2 in
  (bisection_checkpoint 16 0 8 (replicate 32 4) 16 w).2.
Definition bisect_image : bytes :=
  Eval vm_compute in match seal (B := example_hash) example_params bisect_writer with Ok b => b | _ => [] end.
Definition ok_value {E A} (d : A) (o : outcome E A) : A := match o with Ok a => a | _ => d end.
Definition bisect_reader : LogReader := Eval vm_compute in ok_value example_reader (LogReader_parse (B := example_hash) bisect_image).
Definition bisect_records : list Rec := Eval vm_compute in ok_value [] (records bisect_reader).
Definition bisect_index : BisectionCheckpointIndex := Eval vm_compute in ok_value (mkCheckpointIndex [] [] None) (from_reader bisect_reader).

Lemma bisect_image_ok : bytes_ok bisect_image.
Proof. apply bytes_okb_ok. vm_compute. reflexivity. Qed.
Lemma bisect_parses : LogReader_parse (B := example_hash) bisect_image = Ok bisect_reader.
Proof. vm_compute. reflexivity. Qed.

Lemma bisection_index_exact_witness :
  exists rs e, records bisect_reader = Ok (rs ++ [e]) /\
  ((well_spaced [] (rs ++ [e]) /\ exists ix, from_reader bisect_reader = Ok ix /\
     Forall2 describes (List.filter is_checkpoint (rs ++ [e])) (checkpoints ix) /\
     epoch_hashes ix = hashed <$> List.filter is_epoch_hash (rs ++ [e]) /\ end_position ix = Some (position_of e)) \/
   (~ well_spaced [] (rs ++ [e]) /\ exists er, from_reader bisect_reader = Err er /\ placement_error er = true)).
Proof. apply (bisection_index_exact (B := example_hash) bisect_image _ bisect_image_ok bisect_parses). Defined.

(** The epoch hash at 12 is bracketed by the checkpoint at 16. *)
Definition bisect_rec (i : nat) : Rec := nth i bisect_records (mkRec 0 0 0 0 0 []).
Lemma bisect_facts :
  bisect_records = take 3 bisect_records ++ bisect_rec 3 :: drop 4 bisect_records /\
  List.find is_checkpoint (drop 4 bisect_records) = Some (bisect_rec 5) /\
  hash_index (bisect_rec 3) = 2 /\ icount (bisect_rec 3) = 12 /\ seq (bisect_rec 3) = 3 /\ icount (bisect_rec 5) = 16 /\
  covered_to (take 3 bisect_records) = 8 /\
  (forall x, x ∈ take 3 bisect_records -> is_epoch_hash x = true -> ~ (hash_index x = hash_index (bisect_rec 3) /\ icount x = icount (bisect_rec 3))).
Proof.
  split_and!; try (vm_compute; reflexivity). intros x [i Hi]%list_elem_of_lookup _.
  assert ((match take 3 bisect_records !! i with Some x => icount x <? 12 | None => true end) = true) as Hx.
  { destruct i as [|[|[|i]]]; vm_compute; reflexivity. }
  rewrite Hi in Hx. assert (icount (bisect_rec 3) = 12) as -> by (vm_compute; reflexivity). lia.
Qed.

Lemma bisection_selects_nearest_witness :
  exists c lo, lo <= 8 <= 12 /\ select_for_divergence bisect_index (TargetEpochHash 2 12)
    = Some (mkSelected c (EpochHashSite 2 (mkPosition 12 3)) lo 16).
Proof.
  destruct bisect_facts as (Hrs & Hf & H1 & H2 & H3 & H4 & Hc & Hx).
  destruct (bisection_selects_nearest (B := example_hash) bisect_image bisect_reader bisect_records bisect_index
    bisect_image_ok bisect_parses ltac:(vm_compute; reflexivity) ltac:(vm_compute; reflexivity)) as [H _].
  specialize (H _ _ _ Hrs ltac:(vm_compute; reflexivity) Hx). rewrite Hf in H. destruct H as (c & lo & _ & Hlo & Hsel).
  unfold position_of in Hsel. rewrite Hc, H2 in Hlo. rewrite H1, H2, H3, H4 in Hsel. exists c, lo. split; assumption.
Defined.
