(* ===== verification/Dirty.v ===== *)
(** * Dirty-page harvest: [dh-vmm/src/dirty.rs]

    The dense bitmap of dirty pages and the drain of the vCPU's dirty ring.  The
    ring is memory the kernel writes: the class [RingKernel] gives the mapped
    entries, the store of one entry's flags and [KVM_RESET_DIRTY_RINGS], and
    [RingLaws] the ACQ_REL protocol the module's comment documents.  A harvest
    happens between guest entries, so nothing else writes the ring meanwhile. *)

From Stdlib Require Import Sorted.
From S2P Require Import Prelude Vt.

Definition DIRTY_PAGE_SIZE : Z := 4096.
Definition DIRTY_GFN_F_DIRTY : Z := 1.
Definition DIRTY_GFN_F_RESET : Z := 2.

(** The failures [KvmError::Memory] names. *)
Inductive DirtyError :=
| UnexpectedMemslot (slot gfn : Z)
| BeyondRam (gfn pages : Z)
| ResetRings (errno : Z).

(** ** The page set *)

Record DirtyPageSet := mkDirtyPageSet { bits : list Z; pages : Z; set_count : Z }.

Definition DirtyPageSet_new (mem_bytes : Z) : DirtyPageSet :=
  let n := div_ceil mem_bytes DIRTY_PAGE_SIZE in
  mkDirtyPageSet (replicate (Z.to_nat (div_ceil n 64)) 0) n 0.

Definition dirty_insert (page_idx : Z) : method DirtyPageSet DirtyError bool := fun d =>
  if pages d <=? page_idx then (Err (BeyondRam page_idx (pages d)), d)
  else
    let word := Z.to_nat (page_idx / 64) in
    let bit := page_idx mod 64 in
    match bits d !! word with
    | None => (Panic, d)
    | Some w =>
        let newly := Z.land w (Z.shiftl 1 bit) =? 0 in
        (Ok newly, mkDirtyPageSet (<[word := Z.lor w (Z.shiftl 1 bit)]> (bits d)) (pages d)
                     (set_count d + (if newly then 1 else 0)))
    end.

Definition dirty_contains (d : DirtyPageSet) (page_idx : Z) : outcome DirtyError bool :=
  if page_idx <? pages d then
    match bits d !! Z.to_nat (page_idx / 64) with
    | None => Panic
    | Some w => Ok (negb (Z.land w (Z.shiftl 1 (page_idx mod 64)) =? 0))
    end
  else Ok false.

Definition dirty_len (d : DirtyPageSet) : Z := set_count d.
Definition dirty_is_empty (d : DirtyPageSet) : bool := set_count d =? 0.
Definition dirty_clear (d : DirtyPageSet) : DirtyPageSet :=
  mkDirtyPageSet (replicate (length (bits d)) 0) (pages d) 0.

(** The [flat_map] over the words, from word [w] on. *)
Fixpoint iter_words (w : Z) (l : list Z) : list Z :=
  match l with
  | [] => []
  | word :: l =>
      ((fun b => w * 64 + b) <$> List.filter (fun b => negb (Z.land word (Z.shiftl 1 b) =? 0)) (seqZ 0 64))
      ++ iter_words (w + 1) l
  end.
Definition dirty_iter (d : DirtyPageSet) : list Z := iter_words 0 (bits d).

(** ** The ring *)

(** [kvm_dirty_gfn]. *)
Record DirtyGfn := mkGfn { gfn_flags : Z; gfn_slot : Z; gfn_offset : Z }.

Class RingKernel (K : Type) := {
  (** the mapping of the vCPU's ring *)
  ring_mem : K -> list DirtyGfn;
  (** the store-release of an entry's flags *)
  store_flags : nat -> Z -> K -> K;
  (** [KVM_RESET_DIRTY_RINGS] *)
  reset_ioctl : K -> outcome Z Z * K }.

Record DirtyRing := mkDirtyRing { next_harvest : Z; entries : Z }.
Record HarvestStats := mkHarvestStats { harvested : Z; reset : Z }.

Section Harvest.
Context {K : Type} `{!RingKernel K}.

(** The state a drain works on. *)
Record Drain := mkDrain { d_ring : DirtyRing; d_set : DirtyPageSet; d_kernel : K }.

(** The [loop] of [harvest_into]; a pointer past the mapping is [Panic]. *)
Fixpoint harvest_loop (fuel : nat) (count : Z) : prog Drain DirtyError Z := fun s =>
  match fuel with
  | O => None
  | S fuel =>
      let 'mkDrain r set k := s in
      if entries r =? 0 then Some (Panic, s)
      else
        let idx := Z.to_nat (next_harvest r mod entries r) in
        match ring_mem k !! idx with
        | None => Some (Panic, s)
        | Some e =>
            if Z.land (gfn_flags e) DIRTY_GFN_F_DIRTY =? 0 then Some (Ok count, s)
            else if negb (gfn_slot e =? 0) then Some (Err (UnexpectedMemslot (gfn_slot e) (gfn_offset e)), s)
            else
              match dirty_insert (gfn_offset e) set with
              | (Ok _, set) =>
                  let k := store_flags idx DIRTY_GFN_F_RESET k in
                  if (next_harvest r =? u64_max) || (count =? u32_max) then Some (Panic, mkDrain r set k)
                  else harvest_loop fuel (count + 1) (mkDrain (mkDirtyRing (next_harvest r + 1) (entries r)) set k)
              | (Err e, set) => Some (Err e, mkDrain r set k)
              | (Panic, set) => Some (Panic, mkDrain r set k)
              end
        end
  end.

Definition harvest_into (fuel : nat) : prog Drain DirtyError Z := harvest_loop fuel 0.

Definition reset_dirty_rings : prog Drain DirtyError Z := fun s =>
  match reset_ioctl (d_kernel s) with
  | (Ok n, k) => Some (Ok n, mkDrain (d_ring s) (d_set s) k)
  | (Err errno, k) => Some (Err (ResetRings errno), mkDrain (d_ring s) (d_set s) k)
  | (Panic, k) => Some (Panic, mkDrain (d_ring s) (d_set s) k)
  end.

Definition harvest_at_boundary (fuel : nat) : prog Drain DirtyError HarvestStats :=
  n ← harvest_into fuel;
  r ← (if 0 <? n then reset_dirty_rings else mret 0);
  mret (mkHarvestStats n r).
End Harvest.
Arguments Drain : clear implicits.

(** ** The page set as a set of pages *)

Definition marked (l : list Z) (x : Z) : bool :=
  match l !! Z.to_nat (x / 64) with Some w => Z.testbit w (x mod 64) | None => false end.

Lemma marked_cons word l x : 0 <= x ->
  marked (word :: l) x = if x <? 64 then Z.testbit word x else marked l (x - 64).
Proof.
  intros Hx. unfold marked. destruct (x <? 64) eqn:E.
  - rewrite Z.div_small, Z.mod_small by lia. done.
  - assert (x / 64 = (x - 64) / 64 + 1 /\ x mod 64 = (x - 64) mod 64) as [-> ->].
    { replace x with ((x - 64) + 1 * 64) by lia. rewrite Z.div_add, Z_mod_plus_full by lia.
      split; f_equal; f_equal; lia. }
    assert (0 <= (x - 64) / 64) by (apply Z.div_pos; lia).
    replace (Z.to_nat ((x - 64) / 64 + 1)) with (S (Z.to_nat ((x - 64) / 64))) by lia. done.
Qed.

Lemma filter_fmap_bool {A C} (f : A -> C) (g : C -> bool) l : List.filter g (f <$> l) = f <$> List.filter (fun x => g (f x)) l.
Proof. induction l as [|x l IH]; [done|]. cbn. destruct (g (f x)); cbn; by rewrite IH. Qed.
Lemma filter_ext_elem {A} (f g : A -> bool) l : (forall x, x ∈ l -> f x = g x) -> List.filter f l = List.filter g l.
Proof.
  induction l as [|x l IH]; intros H; [done|]. cbn. rewrite (H x), IH; [done| |]; intros; [apply H|]; set_solver.
Qed.

Lemma iter_words_filter w l : 0 <= w ->
  iter_words w l = List.filter (fun x => marked l (x - 64 * w)) (seqZ (64 * w) (64 * Z.of_nat (length l))).
Proof.
  revert w. induction l as [|word l IH]; intros w Hw; [done|]. cbn [iter_words length].
  replace (64 * Z.of_nat (S (length l))) with (64 + 64 * Z.of_nat (length l)) by lia.
  rewrite (seqZ_app _ 64) by lia. rewrite List.filter_app. f_equal.
  - rewrite <- (Z.add_0_r (64 * w)), <- fmap_add_seqZ, filter_fmap_bool.
    rewrite (filter_ext_elem (fun b => negb _) (fun b => marked (word :: l) (64 * w + b - (64 * w + 0)))).
    + apply list_fmap_ext. intros. lia.
    + intros b Hb%elem_of_seqZ. rewrite land_bit, marked_cons by lia. replace (64 * w + b - (64 * w + 0)) with b by lia.
      by rewrite (proj2 (Z.ltb_lt b 64)) by lia.
  - rewrite IH by lia. replace (64 * (w + 1)) with (64 * w + 64) by lia. apply filter_ext_elem.
    intros x Hx%elem_of_seqZ. rewrite marked_cons by lia. rewrite (proj2 (Z.ltb_ge _ 64)) by lia. f_equal. lia.
Qed.

Record dirty_ok (d : DirtyPageSet) : Prop := {
  do_pages : 0 <= pages d;
  do_words : Z.of_nat (length (bits d)) = div_ceil (pages d) 64;
  do_high : forall x, pages d <= x -> marked (bits d) x = false;
  do_count : set_count d = Z.of_nat (length (dirty_iter d)) }.

Lemma words_cover d x : dirty_ok d -> 0 <= x < pages d -> 0 <= x / 64 < Z.of_nat (length (bits d)) /\
  x < 64 * Z.of_nat (length (bits d)).
Proof.
  intros [Hp Hw _ _] Hx. rewrite Hw. assert (pages d <= div_ceil (pages d) 64 * 64) by (by apply div_ceil_spec).
  split; [|lia]. split; [apply Z.div_pos; lia|]. apply Z.div_lt_upper_bound; lia.
Qed.

Lemma iter_filter d : dirty_iter d = List.filter (marked (bits d)) (seqZ 0 (64 * Z.of_nat (length (bits d)))).
Proof.
  unfold dirty_iter. rewrite iter_words_filter by done. apply filter_ext_elem. intros x _. f_equal. lia.
Qed.

Lemma elem_of_iter d x : dirty_ok d -> x ∈ dirty_iter d <-> 0 <= x < pages d /\ marked (bits d) x = true.
Proof.
  intros Hd. rewrite iter_filter, elem_of_bfilter, elem_of_seqZ. split.
  - intros [Hx Hm]. split; [|done]. split; [lia|]. destruct (Z.lt_ge_cases x (pages d)) as [|Hge]; [done|].
    by rewrite (do_high _ Hd) in Hm.
  - intros [Hx Hm]. split; [|done]. pose proof (words_cover d x Hd Hx). lia.
Qed.

Lemma sorted_filter {A} (R : A -> A -> Prop) (f : A -> bool) l : StronglySorted R l -> StronglySorted R (List.filter f l).
Proof.
  induction 1 as [|x l _ IH Hx]; cbn; [constructor|]. destruct (f x); [|done]. constructor; [done|].
  apply Forall_forall. intros y [Hy _]%elem_of_bfilter. by rewrite Forall_forall in Hx; apply Hx.
Qed.
Lemma sorted_seqZ m n : StronglySorted Z.lt (seqZ m n).
Proof.
  destruct (Z.le_gt_cases n 0) as [Hn|Hn]; [rewrite seqZ_nil by done; constructor|].
  rewrite <- (Z2Nat.id n) by lia. revert m. induction (Z.to_nat n) as [|k IH]; intros m; [constructor|].
  rewrite seqZ_cons by lia. constructor.
  - replace (Z.pred (Z.of_nat (S k))) with (Z.of_nat k) by lia. apply IH.
  - apply Forall_forall. intros x Hx%elem_of_seqZ. lia.
Qed.
Lemma iter_sorted d : StronglySorted Z.lt (dirty_iter d).
Proof. rewrite iter_filter. apply sorted_filter, sorted_seqZ. Qed.

(** Setting one bit. *)
Lemma marked_insert l x y w : 0 <= x -> 0 <= y -> l !! Z.to_nat (x / 64) = Some w ->
  marked (<[Z.to_nat (x / 64) := Z.lor w (Z.shiftl 1 (x mod 64))]> l) y = marked l y || (y =? x).
Proof.
  intros Hx Hy Hw. unfold marked. pose proof (Z.mod_pos_bound x 64). pose proof (Z.mod_pos_bound y 64).
  assert (0 <= x / 64 /\ 0 <= y / 64) by (split; apply Z.div_pos; lia).
  pose proof (Z.div_mod x 64). pose proof (Z.div_mod y 64).
  destruct (decide (x / 64 = y / 64)) as [E|E].
  - rewrite <- E, list_lookup_insert_eq, Hw by (by eapply lookup_lt_Some).
    rewrite Z.lor_spec, Z.shiftl_1_l, Z.pow2_bits_eqb by lia. f_equal. lia.
  - rewrite list_lookup_insert_ne by lia. rewrite (proj2 (Z.eqb_neq y x)); [by rewrite orb_false_r|congruence].
Qed.

Lemma length_filter_add {A} `{!EqDecision A} (f g : A -> bool) l y : NoDup l -> y ∈ l -> f y = false -> g y = true ->
  (forall x, x ∈ l -> x <> y -> g x = f x) -> length (List.filter g l) = S (length (List.filter f l)).
Proof.
  intros Hnd Hy Hf Hg. induction Hnd as [|x l Hx Hnd IH]; intros Hfg; [by apply elem_of_nil in Hy|]. cbn.
  apply elem_of_cons in Hy as [<-|Hy].
  - rewrite Hf, Hg. cbn. f_equal. f_equal. apply filter_ext_elem. intros x Hx'. apply Hfg; [set_solver|by intros ->].
  - assert (x <> y) by (by intros ->). rewrite (Hfg x) by (set_solver || done).
    specialize (IH Hy ltac:(intros; apply Hfg; set_solver)). destruct (f x); cbn; by rewrite IH.
Qed.

(** Inserting a page: never a panic in range, and exactly that page is added. *)
Lemma insert_spec d x : dirty_ok d -> 0 <= x < pages d ->
  exists d', dirty_insert x d = (Ok (negb (marked (bits d) x)), d') /\ dirty_ok d' /\ pages d' = pages d /\
    forall y, y ∈ dirty_iter d' <-> y ∈ dirty_iter d \/ y = x.
Proof.
  intros Hd Hx. destruct (words_cover d x Hd Hx) as [Hw Hl].
  destruct (lookup_lt_is_Some_2 (bits d) (Z.to_nat (x / 64))) as [w Hbw]; [lia|].
  assert (Z.land w (Z.shiftl 1 (x mod 64)) =? 0 = negb (marked (bits d) x)) as Hnew.
  { unfold marked. rewrite Hbw, <- land_bit, negb_involutive; [done|]. apply Z.mod_pos_bound. lia. }
  unfold dirty_insert. rewrite (proj2 (Z.leb_gt _ _)), Hbw, Hnew by lia. eexists. split; [reflexivity|].
  set (l' := <[_:=_]> (bits d)).
  assert (forall y, 0 <= y -> marked l' y = marked (bits d) y || (y =? x)) as Hm
    by (intros; apply marked_insert; [lia|done|done]).
  assert (length l' = length (bits d)) as Hlen by apply length_insert.
  split_and!.
  - destruct Hd as [Hp Hwd Hh Hc]. split; cbn [pages bits set_count].
    + done.
    + by rewrite Hlen.
    + intros y Hy. rewrite Hm, Hh by lia. cbn. lia.
    + rewrite Hc, !iter_filter. cbn [bits]. rewrite Hlen. destruct (marked (bits d) x) eqn:Ex; cbn [negb].
      * rewrite Z.add_0_r. do 2 f_equal. apply filter_ext_elem. intros y Hy%elem_of_seqZ. rewrite Hm by lia.
        destruct (Z.eqb_spec y x) as [->|]; [by rewrite Ex|by rewrite orb_false_r].
      * rewrite (length_filter_add (marked (bits d)) (marked l') _ x); [lia|apply NoDup_seqZ|apply elem_of_seqZ; lia|done| |].
        -- rewrite Hm by lia. by rewrite Z.eqb_refl, orb_true_r.
        -- intros y Hy%elem_of_seqZ Hne. rewrite Hm by lia. rewrite (proj2 (Z.eqb_neq y x)) by done. apply orb_false_r.
  - done.
  - intros y. rewrite !iter_filter, !elem_of_bfilter, !elem_of_seqZ. cbn [bits]. rewrite Hlen.
    destruct (Z.le_gt_cases 0 y); [rewrite Hm, orb_true_iff by done; lia|lia].
Qed.


(** ** The ring protocol *)

Section Protocol.
Context {K : Type} `{!RingKernel K} (N mem_pages : Z).

Definition entry_at (k : K) (i : Z) : option DirtyGfn := ring_mem k !! Z.to_nat (i mod N).
Definition set_flags (f : Z) (e : DirtyGfn) : DirtyGfn := mkGfn f (gfn_slot e) (gfn_offset e).

(** [at_ k a p]: the kernel has published [p] entries in all and taken back [a] of
    them; entry number [i] sits in slot [i mod N].  [runs k gs k']: the guest ran
    and dirtied the pages [gs]. *)
Record RingLaws (at_ : K -> Z -> Z -> Prop) (runs : K -> list Z -> K -> Prop) : Prop := {
  (** the ring is never overrun *)
  rl_window : forall k a p, at_ k a p -> 0 <= a <= p /\ p <= a + N /\ Z.of_nat (length (ring_mem k)) = N;
  (** slots outside the window are re-armed *)
  rl_free : forall k a p i, at_ k a p -> p <= i < a + N -> exists e, entry_at k i = Some e /\ gfn_flags e = 0;
  (** a run only publishes new entries, of the one memslot *)
  rl_run : forall k a p gs k', at_ k a p -> runs k gs k' ->
    at_ k' a (p + Z.of_nat (length gs)) /\ (forall i, a <= i < p -> entry_at k' i = entry_at k i) /\
    (forall j g, gs !! j = Some g ->
       entry_at k' (p + Z.of_nat j) = Some (mkGfn DIRTY_GFN_F_DIRTY 0 g) /\ 0 <= g < mem_pages);
  (** a store changes its entry's flags and nothing else *)
  rl_store : forall k a p i, at_ k a p -> a <= i < p ->
    let k' := store_flags (Z.to_nat (i mod N)) DIRTY_GFN_F_RESET k in
    at_ k' a p /\ ring_mem k' = alter (set_flags DIRTY_GFN_F_RESET) (Z.to_nat (i mod N)) (ring_mem k);
  (** the reset takes back the entries marked RESET *)
  rl_reset : forall k a p, at_ k a p ->
    (forall i, a <= i < p -> exists e, entry_at k i = Some e /\ gfn_flags e = DIRTY_GFN_F_RESET) ->
    exists k', reset_ioctl k = (Ok (p - a), k') /\ at_ k' p p }.

Context (at_ : K -> Z -> Z -> Prop) (runs : K -> list Z -> K -> Prop) (L : RingLaws at_ runs).
Hypothesis HN : 0 < N <= u32_max.

Definition reset_upto (k : K) (a h : Z) : Prop :=
  forall i, a <= i < h -> exists e, entry_at k i = Some e /\ gfn_flags e = DIRTY_GFN_F_RESET.
Definition pending (k : K) (h : Z) (gs : list Z) : Prop :=
  forall j g, gs !! j = Some g -> entry_at k (h + Z.of_nat j) = Some (mkGfn DIRTY_GFN_F_DIRTY 0 g) /\ 0 <= g < mem_pages.

Lemma mod_window i j : 0 <= i -> 0 <= j -> i <> j -> Z.abs (i - j) < N -> Z.to_nat (i mod N) <> Z.to_nat (j mod N).
Proof.
  intros Hi Hj Hne Hd Heq. pose proof (Z.mod_pos_bound i N ltac:(lia)). pose proof (Z.mod_pos_bound j N ltac:(lia)).
  assert (i mod N = j mod N) as E by lia. pose proof (Z.div_mod i N ltac:(lia)). pose proof (Z.div_mod j N ltac:(lia)).
  assert (i / N = j / N) by nia. congruence.
Qed.

Lemma entry_stored k a p h i : at_ k a p -> a <= h < p -> a <= i < p -> i <> h ->
  entry_at (store_flags (Z.to_nat (h mod N)) DIRTY_GFN_F_RESET k) i = entry_at k i.
Proof.
  intros Hk Hh Hi Hne. pose proof (rl_window _ _ L _ _ _ Hk) as Hw. unfold entry_at.
  rewrite (proj2 (rl_store _ _ L k a p h Hk Hh)). apply list_lookup_alter_ne, mod_window; lia.
Qed.

(** Where the harvest stops: the entry past the published ones is not dirty. *)
Lemma drained_entry k a p : at_ k a p -> reset_upto k a p ->
  exists e, entry_at k p = Some e /\ (Z.land (gfn_flags e) DIRTY_GFN_F_DIRTY =? 0) = true.
Proof.
  intros Hk Hr. pose proof (rl_window _ _ L _ _ _ Hk) as (Ha & Hp & _).
  destruct (Z.eq_dec p (a + N)) as [->|Hne].
  - destruct (Hr a ltac:(lia)) as (e & He & Hf). exists e. unfold entry_at in *.
    replace (a + N) with (a + 1 * N) by lia. rewrite Z_mod_plus_full, Hf. done.
  - destruct (rl_free _ _ L k a p p Hk ltac:(lia)) as (e & He & Hf). exists e. by rewrite Hf.
Qed.

Lemma harvest_loop_spec gs : forall fuel count k a h p set,
  (length gs < fuel)%nat -> at_ k a p -> a <= h -> p = h + Z.of_nat (length gs) -> reset_upto k a h -> pending k h gs ->
  dirty_ok set -> pages set = mem_pages -> 0 <= count -> count + Z.of_nat (length gs) <= u32_max -> p <= u64_max ->
  exists set' k', harvest_loop fuel count (mkDrain (mkDirtyRing h N) set k)
      = Some (Ok (count + Z.of_nat (length gs)), mkDrain (mkDirtyRing p N) set' k') /\
    at_ k' a p /\ reset_upto k' a p /\ dirty_ok set' /\ pages set' = mem_pages /\
    (forall x, x ∈ dirty_iter set' <-> x ∈ dirty_iter set \/ x ∈ gs).
Proof.
  induction gs as [|g gs IH]; intros [|fuel] count k a h p set Hfu Hk Hah Hp Hr Hpe Hd Hpg Hc Hcu Hpu; cbn [length] in *;
    [lia| |lia|]; cbn [harvest_loop entries next_harvest]; rewrite (proj2 (Z.eqb_neq N 0)) by lia.
  - assert (p = h) as -> by lia. destruct (drained_entry k a h Hk Hr) as (e & He & Hf). unfold entry_at in He.
    rewrite He, Hf. exists set, k. rewrite Z.add_0_r. split_and!; try done. set_solver.
  - destruct (Hpe 0%nat g eq_refl) as [He Hg]. rewrite Z.add_0_r in He. pose proof He as He'. unfold entry_at in He. rewrite He.
    cbn [gfn_flags gfn_slot gfn_offset]. change (Z.land _ _ =? 0) with false. cbn [negb Z.eqb].
    destruct (insert_spec set g Hd ltac:(lia)) as (set' & -> & Hd' & Hpg' & Hin).
    rewrite (proj2 (Z.eqb_neq h _)), (proj2 (Z.eqb_neq count _)) by ulia. cbn [orb].
    destruct (rl_store _ _ L k a p h Hk ltac:(lia)) as [Hk' Hmem].
    destruct (IH fuel (count + 1) (store_flags (Z.to_nat (h mod N)) DIRTY_GFN_F_RESET k) a (h + 1) p set')
      as (set2 & k2 & H2 & Hk2 & Hr2 & Hd2 & Hpg2 & Hin2); try done; try lia; try congruence.
    + intros i Hi. destruct (Z.eq_dec i h) as [->|Hne].
      * unfold entry_at. rewrite Hmem, list_lookup_alter_eq, He. eexists. split; [reflexivity|done].
      * rewrite (entry_stored k a p h i Hk) by lia. apply Hr. lia.
    + intros j g' Hj. rewrite (entry_stored k a p h) by (first [done | apply lookup_lt_Some in Hj; lia]).
      replace (h + 1 + Z.of_nat j) with (h + Z.of_nat (S j)) by lia. by apply Hpe.
    + exists set2, k2. rewrite H2. split; [do 3 f_equal; lia|]. split_and!; try done.
      intros x. rewrite Hin2, Hin. set_solver.
Qed.

(** Between quanta nothing is outstanding. *)
Definition drained (s : Drain K) (a : Z) : Prop :=
  at_ (d_kernel s) a a /\ d_ring s = mkDirtyRing a N /\ dirty_ok (d_set s) /\ pages (d_set s) = mem_pages.

(** C27: no dirty page is lost.  However many pages a run of the guest dirtied, the
    drain at the next boundary succeeds within one pass over the ring, adds to the
    set exactly the pages of that run, hands every entry back to the kernel, and
    leaves the ring drained for the next run; the set lists its pages once each,
    in ascending order. *)
Theorem dirty_harvest_loss_free s a gs k' fuel :
  drained s a -> runs (d_kernel s) gs k' -> a + N <= u64_max -> N < Z.of_nat fuel ->
  exists s', harvest_at_boundary fuel (mkDrain (d_ring s) (d_set s) k')
      = Some (Ok (mkHarvestStats (Z.of_nat (length gs)) (Z.of_nat (length gs))), s') /\
    drained s' (a + Z.of_nat (length gs)) /\
    (forall x, x ∈ dirty_iter (d_set s') <-> x ∈ dirty_iter (d_set s) \/ x ∈ gs) /\
    StronglySorted Z.lt (dirty_iter (d_set s')) /\ dirty_len (d_set s') = Z.of_nat (length (dirty_iter (d_set s'))).
Proof.
  intros (Hk & Hr & Hd & Hpg) Hrun Hu Hf. destruct s as [r set k]. cbn in Hk, Hr, Hd, Hpg, Hrun. subst r.
  destruct (rl_run _ _ L k a a gs k' Hk Hrun) as (Hk' & _ & Hnew).
  pose proof (rl_window _ _ L _ _ _ Hk') as (_ & Hle & _).
  destruct (harvest_loop_spec gs fuel 0 k' a a _ set ltac:(lia) Hk' ltac:(lia) eq_refl) as
    (set' & k2 & H2 & Hk2 & Hr2 & Hd2 & Hpg2 & Hin2); try done; try ulia; try lia.
  { intros i Hi. lia. }
  unfold harvest_at_boundary, harvest_into. rewrite (prog_bind_ok _ _ _ _ _ H2). rewrite Z.add_0_l.
  pose proof (iter_sorted set') as Hso. pose proof (do_count _ Hd2) as Hco.
  destruct gs as [|g gs].
  - cbn [length Z.of_nat Z.ltb Z.compare] in *. rewrite Z.add_0_r in *. rewrite (prog_bind_ok _ _ _ 0 _ eq_refl).
    eexists. split; [reflexivity|]. unfold drained. cbn [d_kernel d_ring d_set].
    repeat match goal with |- _ /\ _ => split end; done.
  - rewrite (proj2 (Z.ltb_lt _ _)) by (cbn; lia). destruct (rl_reset _ _ L _ _ _ Hk2 Hr2) as (k3 & H3 & Hk3).
    rewrite (prog_bind_ok _ _ _ (a + Z.of_nat (length (g :: gs)) - a)
      (mkDrain (mkDirtyRing (a + Z.of_nat (length (g :: gs))) N) set' k3)).
    2:{ unfold reset_dirty_rings. cbn [d_kernel]. by rewrite H3. }
    rewrite Z.add_simpl_l. eexists. split; [reflexivity|]. unfold drained. cbn [d_kernel d_ring d_set].
    repeat match goal with |- _ /\ _ => split end; done.
Qed.
End Protocol.

(** ** A ring of four entries *)

Record ToyRing := mkToyRing { tr_mem : list DirtyGfn; tr_reclaimed : Z; tr_published : Z }.
#[local] Instance ToyRing_kernel : RingKernel ToyRing := {
  ring_mem := tr_mem;
  store_flags idx f k := mkToyRing (alter (set_flags f) idx (tr_mem k)) (tr_reclaimed k) (tr_published k);
  reset_ioctl k := (Ok (tr_published k - tr_reclaimed k), mkToyRing (replicate 4 (mkGfn 0 0 0)) (tr_published k) (tr_published k)) }.

Fixpoint publish (p : Z) (gs : list Z) (mem : list DirtyGfn) : list DirtyGfn :=
  match gs with
  | [] => mem
  | g :: gs => publish (p + 1) gs (<[Z.to_nat (p mod 4) := mkGfn DIRTY_GFN_F_DIRTY 0 g]> mem)
  end.
Definition toy_at (k : ToyRing) (a p : Z) : Prop :=
  tr_reclaimed k = a /\ tr_published k = p /\ 0 <= a <= p /\ p <= a + 4 /\ length (tr_mem k) = 4%nat /\
  forall i, p <= i < a + 4 -> exists e, entry_at 4 k i = Some e /\ gfn_flags e = 0.
Definition toy_runs (k : ToyRing) (gs : list Z) (k' : ToyRing) : Prop :=
  tr_published k + Z.of_nat (length gs) <= tr_reclaimed k + 4 /\ Forall (fun g => 0 <= g < 128) gs /\
  k' = mkToyRing (publish (tr_published k) gs (tr_mem k)) (tr_reclaimed k) (tr_published k + Z.of_nat (length gs)).

Lemma publish_length p gs mem : length (publish p gs mem) = length mem.
Proof. revert p mem. induction gs as [|g gs IH]; intros p mem; cbn; [done|]. by rewrite IH, length_insert. Qed.
Lemma publish_other p gs mem i : 0 <= p -> 0 <= i -> (i < p /\ p + Z.of_nat (length gs) <= i + 4 \/
    p + Z.of_nat (length gs) <= i < p + 4) ->
  publish p gs mem !! Z.to_nat (i mod 4) = mem !! Z.to_nat (i mod 4).
Proof.
  revert p mem. induction gs as [|g gs IH]; intros p mem Hp Hi Hd; cbn [publish length] in *; [done|].
  rewrite IH by lia. apply list_lookup_insert_ne, (mod_window 4); ulia.
Qed.
Lemma publish_new p gs mem j g : 0 <= p -> length mem = 4%nat -> Z.of_nat (length gs) <= 4 -> gs !! j = Some g ->
  publish p gs mem !! Z.to_nat ((p + Z.of_nat j) mod 4) = Some (mkGfn DIRTY_GFN_F_DIRTY 0 g).
Proof.
  revert p mem j. induction gs as [|g' gs IH]; intros p mem [|j] Hp Hm Hl Hg; cbn [publish length] in *; try done.
  - injection Hg as ->. rewrite Z.add_0_r, publish_other by lia. apply list_lookup_insert_eq.
    pose proof (Z.mod_pos_bound p 4). lia.
  - replace (p + Z.of_nat (S j)) with (p + 1 + Z.of_nat j) by lia. apply IH; rewrite ?length_insert; (done || lia).
Qed.

Lemma toy_laws : RingLaws 4 128 toy_at toy_runs.
Proof.
  split.
  - intros k a p (_ & _ & ? & ? & Hl & _). cbn. rewrite Hl. lia.
  - intros k a p i (_ & _ & _ & _ & _ & H) Hi. by apply H.
  - intros k a p gs k' (<- & <- & Ha & Hp & Hl & Hf) (Hle & HF & ->). unfold toy_at, entry_at in *. cbn in *.
    split_and!; try done; try lia.
    + by rewrite publish_length.
    + intros i Hi. rewrite publish_other by lia. apply Hf. lia.
    + intros i Hi. apply publish_other; lia.
    + intros j g Hg. split; [apply publish_new; (done || lia)|]. rewrite Forall_lookup in HF. by eapply HF.
  - intros k a p i (<- & <- & Ha & Hp & Hl & Hf) Hi. split; [|done]. unfold toy_at, entry_at in *. cbn in *.
    split_and!; try done; try lia; [by rewrite length_alter|]. intros j Hj.
    rewrite list_lookup_alter_ne; [by apply Hf|]. apply (mod_window 4); ulia.
  - intros k a p (<- & <- & Ha & Hp & Hl & Hf) _. eexists. split; [reflexivity|]. unfold toy_at, entry_at. cbn.
    split_and!; try done; try lia. intros i Hi. exists (mkGfn 0 0 0). split; [|done]. pose proof (Z.mod_pos_bound i 4).
    destruct (Z.to_nat (i mod 4)) as [|[|[|[|n]]]] eqn:E; try done. lia.
Qed.

Definition toy_drain : Drain ToyRing :=
  mkDrain (mkDirtyRing 0 4) (DirtyPageSet_new (128 * 4096)) (mkToyRing (replicate 4 (mkGfn 0 0 0)) 0 0).
Definition toy_ran : ToyRing := mkToyRing (publish 0 [70; 3; 70; 127] (replicate 4 (mkGfn 0 0 0))) 0 4.

Lemma toy_drained : drained 4 128 toy_at toy_drain 0.
Proof.
  unfold drained. split; [|split; [done|split; [|done]]].
  - unfold toy_at, entry_at. cbn. split_and!; try done; try lia. intros i Hi. exists (mkGfn 0 0 0).
    assert (i = 0 \/ i = 1 \/ i = 2 \/ i = 3) as [-> | [-> | [-> | ->]]] by lia; done.
  - split; try done. intros x Hx. cbn in Hx. unfold marked. cbn.
    destruct (Z.to_nat (x / 64)) as [|[|n]] eqn:E; [apply Z.bits_0..|done].
Qed.

Lemma dirty_harvest_loss_free_witness :
  exists s', harvest_at_boundary 5 (mkDrain (d_ring toy_drain) (d_set toy_drain) toy_ran)
      = Some (Ok (mkHarvestStats 4 4), s') /\ drained 4 128 toy_at s' 4 /\
    (forall x, x ∈ dirty_iter (d_set s') <-> x ∈ dirty_iter (d_set toy_drain) \/ x ∈ [70; 3; 70; 127]) /\
    StronglySorted Z.lt (dirty_iter (d_set s')) /\ dirty_len (d_set s') = Z.of_nat (length (dirty_iter (d_set s'))).
Proof.
  apply (dirty_harvest_loss_free 4 128 toy_at toy_runs toy_laws ltac:(ulia) toy_drain 0 [70; 3; 70; 127] toy_ran 5 toy_drained);
    [|ulia|lia].
  split; [cbn; lia|split; [|reflexivity]]. repeat (constructor; [lia|]). constructor.
Defined.
