(* ===== verification/Reader.v ===== *)
(** * Cursor readers

    A decoder that walks a byte slice with a position: the monad its operations
    live in, and the specification [exact] that says a reader accepts exactly
    the images of well-formed values.  The machine-config decoder is built from
    it. *)

From S2P Require Import Prelude.

Record Cursor := mkCursor { r_bytes : bytes; r_pos : nat }.
Definition rest (r : Cursor) : bytes := drop (r_pos r) (r_bytes r).
Definition advance (n : nat) (r : Cursor) : Cursor := mkCursor (r_bytes r) (r_pos r + n).

Definition reader (E A : Type) : Type := Cursor -> outcome E (A * Cursor).

#[export] Instance reader_ret {E} : MRet (reader E) := fun _ a r => Ok (a, r).
#[export] Instance reader_bind {E} : MBind (reader E) := fun _ _ k m r =>
  match m r with Ok (a, r) => k a r | Err e => Err e | Panic => Panic end.
Definition reject {E A} (e : E) : reader E A := fun _ => Err e.

Section reader.
Context {E : Type}.
Implicit Types (r : Cursor).

(** The next [n] bytes, or the error [short]. *)
Definition next (short : E) (n : nat) : reader E bytes := fun r =>
  if (r_pos r + n <=? length (r_bytes r))%nat then Ok (slice (r_pos r) n (r_bytes r), advance n r)
  else Err short.
Definition next_le (short : E) (n : nat) : reader E Z := b ← next short n; mret (of_le b).

(** [n] times the same reader. *)
Fixpoint times {A} (n : nat) (p : reader E A) : reader E (list A) :=
  match n with
  | O => mret []
  | S n => a ← p; l ← times n p; mret (a :: l)
  end.

Definition cursor_ok (r : Cursor) : Prop := bytes_ok (rest r) /\ (r_pos r <= length (r_bytes r))%nat.

(** [p] returns [a] exactly when the rest starts with the image of [a] and [a]
    is well formed, and then stands right after that image. *)
Definition exact {A} (p : reader E A) (enc : A -> bytes) (wf : A -> Prop) : Prop :=
  forall r a r', cursor_ok r ->
    p r = Ok (a, r') <-> wf a /\ rest r = enc a ++ rest r' /\ r' = advance (length (enc a)) r.

Lemma rest_advance n r : rest (advance n r) = drop n (rest r).
Proof. unfold rest, advance. cbn. by rewrite drop_drop. Qed.
Lemma advance_advance n m r : advance n (advance m r) = advance (m + n) r.
Proof. unfold advance. cbn. f_equal. lia. Qed.

(** The cursor after an image that is really there. *)
Lemma cursor_ok_advance b r : cursor_ok r -> rest r = b ++ rest (advance (length b) r) -> cursor_ok (advance (length b) r).
Proof.
  intros [Hr Hp] H. split; [rewrite rest_advance; by apply Forall_drop|].
  apply (f_equal length) in H. unfold rest in H. rewrite length_app, !length_drop in H. cbn in H |- *. lia.
Qed.

Lemma exact_iff {A} (p : reader E A) enc wf wf' :
  exact p enc wf -> (forall a, wf a <-> wf' a) -> exact p enc wf'.
Proof. intros H Hw r a r' Hr. rewrite (H r a r' Hr), Hw. done. Qed.

Lemma next_exact short n : exact (next short n) id (array n).
Proof.
  intros r b r' [Hr Hp]. unfold next, array, id. split_ifs.
  - split.
    + intros [= <- <-]. rewrite rest_advance. unfold slice. fold (rest r).
      assert (length (take n (rest r)) = n) as Hl by (unfold rest; rewrite length_take, length_drop; lia).
      rewrite Hl. split_and!; [done|by apply Forall_take|by rewrite take_drop|done].
    + intros ((Hl & _) & Hb & ->). rewrite Hl. do 2 f_equal. unfold slice. fold (rest r). rewrite Hb.
      by rewrite <- Hl, take_app_length.
  - split; [done|]. intros ((Hl & _) & Hb & ->). exfalso. apply (f_equal length) in Hb.
    unfold rest in Hb. rewrite length_app, !length_drop in Hb. cbn in Hb. lia.
Qed.

(** A reader followed by one whose value determines what was read: [wf] is the
    well-formedness of the final value, to which each step adds what it read. *)
Lemma exact_seq {A B} (p : reader E A) (k : A -> reader E B) (f : B -> A) encA wfA encB enc (wf : B -> Prop) :
  exact p encA wfA ->
  (forall b, wf b -> enc b = encA (f b) ++ encB b) -> (forall b, wf b -> wfA (f b)) ->
  (forall a, wfA a -> exact (k a) encB (fun b => wf b /\ f b = a)) ->
  exact (p ≫= k) enc wf.
Proof.
  intros Hp He Hw Hk r b r' Hr. unfold mbind, reader_bind. split.
  - destruct (p r) as [[a r1]| |] eqn:E1; [|done..]. apply Hp in E1 as (Ha & H1 & ->); [|done].
    intros H2. apply (Hk a Ha) in H2 as ((HH & <-) & H2 & ->); [|by apply cursor_ok_advance].
    rewrite He, length_app by done.
    split_and!; try done; [|by rewrite advance_advance]. by rewrite <- app_assoc, <- H2.
  - intros (Hb & H1 & ->). rewrite He, length_app in * by done. rewrite <- app_assoc in H1.
    assert (rest (advance (length (encA (f b))) r) = encB b ++ rest (advance (length (encA (f b)) + length (encB b)) r)) as H2
      by (by rewrite rest_advance, H1, drop_app_length).
    assert (p r = Ok (f b, advance (length (encA (f b))) r)) as ->.
    { apply Hp; [done|]. split_and!; [by apply Hw| |done]. by rewrite H2. }
    apply (Hk (f b) (Hw b Hb)); [apply cursor_ok_advance; [done|by rewrite H2]|].
    split_and!; try done. by rewrite advance_advance.
Qed.

Lemma exact_ret {A} (a : A) (H : A -> Prop) : (forall b, H b <-> b = a) -> exact (mret a) (fun _ => []) H.
Proof.
  intros Hb r x r' Hr. rewrite Hb. unfold mret, reader_ret. cbn [app length].
  assert (advance 0 r = r) as -> by (destruct r; unfold advance; cbn; f_equal; lia). naive_solver.
Qed.

Lemma exact_guard {A} (g : bool) (e : E) (p : reader E A) enc H :
  (forall a, H a -> g = false) -> (g = false -> exact p enc H) -> exact (if g then reject e else p) enc H.
Proof.
  intros Hg Hp r a r' Hr. destruct g; [|by apply Hp]. split; [done|]. intros (Ha & _). by apply Hg in Ha.
Qed.

Lemma next_le_exact short n : exact (next_le short n) (le_bytes n) (fun z => 0 <= z < 256 ^ Z.of_nat n).
Proof.
  intros r z r' Hr. unfold next_le, mbind, reader_bind. split.
  - destruct (next short n r) as [[b r1]| |] eqn:E1; [|done..]. apply next_exact in E1 as ((Hl & Hb) & H1 & ->); [|done].
    intros [= <- <-]. unfold id in *. rewrite <- Hl at 1. rewrite length_le_bytes, <- Hl, le_bytes_of_le by done.
    split; [apply of_le_bound, Hb|done].
  - intros (Hz & H1 & ->). assert (next short n r = Ok (le_bytes n z, advance n r)) as ->.
    { apply next_exact; [done|]. unfold array, id. rewrite length_le_bytes in *. auto with dh. }
    rewrite length_le_bytes. cbn. by rewrite of_le_le_bytes.
Qed.

Lemma times_exact {A} (p : reader E A) enc wf n :
  exact p enc wf -> exact (times n p) (fun l => concat (enc <$> l)) (fun l => length l = n /\ Forall wf l).
Proof.
  intros Hp. induction n as [|n IH]; cbn [times].
  { assert (forall l : list A, length l = 0%nat /\ Forall wf l <-> l = []) as H0.
    { intros l. split; [by intros [?%nil_length_inv _]|by intros ->]. }
    intros r l r' Hr. rewrite (exact_ret [] _ H0 r l r' Hr).
    split; intros (H1 & H2 & ->); pose proof (proj1 (H0 l) H1) as ->; split_and!; done. }
  intros r l r' Hr. unfold mbind, reader_bind. split.
  - destruct (p r) as [[a r1]| |] eqn:E1; [|done..]. apply Hp in E1 as (Ha & H1 & ->); [|done].
    destruct (times n p _) as [[l' r2]| |] eqn:E2; [|done..].
    apply IH in E2 as ((Hl & Hw) & H2 & ->); [|by apply cursor_ok_advance]. intros [= <- <-].
    cbn [length fmap list_fmap concat]. rewrite length_app, advance_advance in *.
    split_and!; [by f_equal|by constructor| |done]. by rewrite <- app_assoc, <- H2.
  - intros ((Hl & Hw) & H1 & ->). destruct Hw as [|a l Ha Hw]; [done|]. injection Hl as Hl.
    cbn [fmap list_fmap concat] in *. rewrite <- app_assoc, length_app in H1. rewrite length_app.
    set (r1 := advance (length (enc a)) r).
    assert (rest r1 = concat (enc <$> l) ++ rest (advance (length (concat (enc <$> l))) r1)) as H2.
    { subst r1. by rewrite advance_advance, rest_advance, H1, drop_app_length. }
    assert (p r = Ok (a, r1)) as ->.
    { apply Hp; [done|]. split_and!; [done| |done]. rewrite H2. subst r1. by rewrite advance_advance. }
    assert (times n p r1 = Ok (l, advance (length (concat (enc <$> l))) r1)) as ->.
    { apply IH; [|by split_and!]. apply cursor_ok_advance; [done|]. fold r1. rewrite H2. subst r1. by rewrite advance_advance. }
    cbn. subst r1. by rewrite advance_advance.
Qed.

(** Readers that never panic. *)
Definition calm {A} (p : reader E A) : Prop := forall r, p r <> Panic.
Lemma calm_ret {A} (a : A) : calm (mret a).
Proof. done. Qed.
Lemma calm_reject {A} e : calm (A := A) (reject e).
Proof. done. Qed.
Lemma calm_next short n : calm (next short n).
Proof. intros r. unfold next. by case_match. Qed.
Lemma calm_bind {A B} (p : reader E A) (k : A -> reader E B) : calm p -> (forall a, calm (k a)) -> calm (p ≫= k).
Proof. intros Hp Hk r. unfold mbind, reader_bind. specialize (Hp r). destruct (p r) as [[a r']| |]; [apply Hk|done..]. Qed.
Lemma calm_if {A} (g : bool) (p q : reader E A) : calm p -> calm q -> calm (if g then p else q).
Proof. by destruct g. Qed.
Lemma calm_times {A} n (p : reader E A) : calm p -> calm (times n p).
Proof.
  intros Hp. induction n as [|n IH]; [done|]. cbn [times]. apply calm_bind; [done|intros a].
  by apply calm_bind.
Qed.
End reader.

#[export] Hint Resolve calm_ret calm_reject calm_next calm_bind calm_if calm_times : dh.
