(* ===== verification/Config.v ===== *)
(** * Machine configuration: [dh-vmm/src/config.rs]

    The configuration record with its validation, the canonical bzImage command
    line, and the canonical encoding whose hash is the machine's identity.  The
    encoder and the decoder are inverse on exactly the valid configurations. *)

From Stdlib Require Import String Ascii.
From S2P Require Import Prelude Vt Reader.

(** Byte-string literals. *)
Definition lit (s : string) : bytes := (fun a => Z.of_N (N_of_ascii a)) <$> list_ascii_of_string s.

Record CpuidLeaf := mkLeaf {
  lf_function : Z; lf_index : Z; lf_flags : Z; lf_eax : Z; lf_ebx : Z; lf_ecx : Z; lf_edx : Z }.
Definition leaf_words (l : CpuidLeaf) : list Z :=
  [lf_function l; lf_index l; lf_flags l; lf_eax l; lf_ebx l; lf_ecx l; lf_edx l].
Definition leaf_encode (l : CpuidLeaf) : bytes := concat (le_bytes 4 <$> leaf_words l).

Inductive BootSpec :=
| Elf (kernel_hash cmdline : bytes)
| BzImage (kernel_hash initramfs_hash cmdline : bytes).
Definition boot_cmdline (b : BootSpec) : bytes :=
  match b with Elf _ c => c | BzImage _ _ c => c end.

Inductive HashEpochs := EpochsOn | FinalOnly.
#[export] Instance HashEpochs_eq_dec : EqDecision HashEpochs.
Proof. solve_decision. Defined.

Definition CONFIG_VERSION : Z := 1.
Definition MEM_ALIGN : Z := 2 * 1024 * 1024.
Definition DEFAULT_EPOCH_LEN : Z := 50000000.
Definition DEFAULT_SKID_MARGIN : Z := 8192.
Definition DEFAULT_RESYNC_SLACK : Z := 1024.
Definition MAX_CMDLINE : nat := #4096.
Definition MAX_CPUID_LEAVES : nat := #4096.
Definition MAX_DEVICES : nat := #256.
Definition BZIMAGE_FORCED_CMDLINE : bytes :=
  lit "console=ttyS0 nokaslr norandmaps random.trust_cpu=off random.trust_bootloader=on page_alloc.shuffle=0 notsc tsc=unstable clocksource=jiffies vdso=0 lpj=4096 noapictimer default_hugepagesz=2M hugepagesz=2M hugepages=1 init=/init".

Inductive ConfigError :=
| UnsupportedVersion | MemNotAligned | VcpusNotOne | ZeroEpochLen | CmdlineTooLong
| BzImageCmdlineNonAscii | BzImageCmdlineNul | BzImageCmdlineEmptyToken | BzImageCmdlineUnsupportedToken
| BzImageCmdlineDuplicateToken | BzImageCmdlineBaselineOverride | BzImageCmdlineNotCanonical
| CpuidTableTooLarge | DeviceSetTooLarge | CpuidTableUnsorted | DeviceSetUnsorted.
#[export] Instance ConfigError_eq_dec : EqDecision ConfigError.
Proof. solve_decision. Defined.

(** ** The bzImage command line *)

Record BzImageCmdlineExtras := mkExtras { quiet : bool; loglevel : option Z }.

Definition is_ascii_whitespace (b : Z) : bool := bool_decide (b ∈ [32; 9; 10; 12; 13]).

(** [slice::split]: the pieces between the bytes that satisfy [f]. *)
Fixpoint split_on (f : Z -> bool) (l : bytes) : list bytes :=
  match l with
  | [] => [[]]
  | b :: l =>
      let pieces := split_on f l in
      if f b then [] :: pieces
      else match pieces with p :: ps => (b :: p) :: ps | [] => [[b]] end
  end.
(** [windows(2).any]. *)
Fixpoint any_pair (f : Z -> Z -> bool) (l : bytes) : bool :=
  match l with
  | a :: (b :: _) as l => f a b || any_pair f l
  | _ => false
  end.
Fixpoint strip_prefix (p l : bytes) : option bytes :=
  match p, l with
  | [], _ => Some l
  | a :: p, b :: l => if a =? b then strip_prefix p l else None
  | _, [] => None
  end.

Definition forced_keys : list bytes :=
  lit <$> ["console"; "nokaslr"; "norandmaps"; "random.trust_cpu"; "random.trust_bootloader";
    "page_alloc.shuffle"; "notsc"; "tsc"; "clocksource"; "vdso"; "lpj"; "noapictimer";
    "default_hugepagesz"; "hugepagesz"; "hugepages"; "init"]%string.
Definition is_forced_bzimage_baseline_key (token : bytes) : bool :=
  match split_on (Z.eqb 61) token with
  | key :: _ => bool_decide (key ∈ forced_keys)
  | [] => false
  end.

(** The loop over the tokens. *)
Fixpoint parse_tokens (parsed : BzImageCmdlineExtras) (tokens : list bytes) :
    outcome ConfigError BzImageCmdlineExtras :=
  match tokens with
  | [] => Ok parsed
  | token :: tokens =>
      if is_forced_bzimage_baseline_key token then Err BzImageCmdlineBaselineOverride
      else if bool_decide (token = lit "quiet") then
        if quiet parsed then Err BzImageCmdlineDuplicateToken
        else parse_tokens (mkExtras true (loglevel parsed)) tokens
      else
        match strip_prefix (lit "loglevel=") token with
        | Some raw =>
            if bool_decide (is_Some (loglevel parsed)) then Err BzImageCmdlineDuplicateToken
            else
              match raw with
              | [d] => if (48 <=? d) && (d <=? 55) then parse_tokens (mkExtras (quiet parsed) (Some (d - 48))) tokens
                       else Err BzImageCmdlineUnsupportedToken
              | _ => Err BzImageCmdlineUnsupportedToken
              end
        | None => Err BzImageCmdlineUnsupportedToken
        end
  end.

Definition extras_default : BzImageCmdlineExtras := mkExtras false None.
Definition opt_any (f : Z -> bool) (o : option Z) : bool := match o with Some b => f b | None => false end.

Definition parse_bzimage_cmdline_extras (extras : bytes) : outcome ConfigError BzImageCmdlineExtras :=
  if bool_decide (extras = []) then Ok extras_default
  else if existsb (Z.eqb 0) extras then Err BzImageCmdlineNul
  else if negb (forallb (fun b => b <? 128) extras) then Err BzImageCmdlineNonAscii
  else if opt_any is_ascii_whitespace (head extras) || opt_any is_ascii_whitespace (last extras) ||
          any_pair (fun a b => is_ascii_whitespace a && is_ascii_whitespace b) extras
  then Err BzImageCmdlineEmptyToken
  else parse_tokens extras_default (split_on is_ascii_whitespace extras).

Definition compose_bzimage_cmdline (baseline : bytes) (extras : BzImageCmdlineExtras) : outcome ConfigError bytes :=
  let out := baseline ++ (if quiet extras then lit " quiet" else []) ++
             match loglevel extras with Some level => lit " loglevel=" ++ [48 + level] | None => [] end in
  if (MAX_CMDLINE <? length out)%nat then Err CmdlineTooLong else Ok out.

Definition canonicalize_bzimage_cmdline_extras (extras : bytes) : outcome ConfigError bytes :=
  extras ← parse_bzimage_cmdline_extras extras;
  compose_bzimage_cmdline BZIMAGE_FORCED_CMDLINE extras.

Definition bzimage_cmdline_extras_from_canonical (cmdline : bytes) : outcome ConfigError bytes :=
  if bool_decide (cmdline = BZIMAGE_FORCED_CMDLINE) then Ok []
  else
    rest ← ok_or BzImageCmdlineNotCanonical (strip_prefix BZIMAGE_FORCED_CMDLINE cmdline);
    extras ← ok_or BzImageCmdlineNotCanonical (strip_prefix (lit " ") rest);
    recanonicalized ← canonicalize_bzimage_cmdline_extras extras;
    if negb (bool_decide (recanonicalized = cmdline)) then Err BzImageCmdlineNotCanonical else Ok extras.

Definition validate_canonical_bzimage_cmdline (cmdline : bytes) : outcome ConfigError unit :=
  if (MAX_CMDLINE <? length cmdline)%nat then Err CmdlineTooLong
  else _ ← bzimage_cmdline_extras_from_canonical cmdline; Ok tt.

(** ** The configuration *)

Record MachineConfig := mkConfig {
  version : Z;
  mem_bytes : Z;
  vcpus : Z;
  clock : ClockRatio;
  base_image_hash : bytes;
  boot : BootSpec;
  epoch_len : Z;
  hash_epochs : HashEpochs;
  cfg_skid_margin : Z;
  cfg_resync_slack : Z;
  cpuid_table : list CpuidLeaf;
  device_set : list Z }.

Definition MachineConfig_new (mem : Z) (image_hash : bytes) (b : BootSpec) : MachineConfig :=
  mkConfig CONFIG_VERSION mem 1 ClockRatio_default image_hash b DEFAULT_EPOCH_LEN EpochsOn
    DEFAULT_SKID_MARGIN DEFAULT_RESYNC_SLACK [] [].

(** [windows(2).all]. *)
Fixpoint sorted_by {A} (lt : A -> A -> bool) (l : list A) : bool :=
  match l with
  | a :: (b :: _) as l => lt a b && sorted_by lt l
  | _ => true
  end.
Definition leaf_lt (a b : CpuidLeaf) : bool :=
  (lf_function a <? lf_function b) || (lf_function a =? lf_function b) && (lf_index a <? lf_index b).

Definition validate (c : MachineConfig) : outcome ConfigError unit :=
  if negb (version c =? CONFIG_VERSION) then Err UnsupportedVersion
  else if (mem_bytes c =? 0) || negb (mem_bytes c mod MEM_ALIGN =? 0) then Err MemNotAligned
  else if negb (vcpus c =? 1) then Err VcpusNotOne
  else if epoch_len c =? 0 then Err ZeroEpochLen
  else if (MAX_CMDLINE <? length (boot_cmdline (boot c)))%nat then Err CmdlineTooLong
  else
    _ ← match boot c with BzImage _ _ cmdline => validate_canonical_bzimage_cmdline cmdline | Elf _ _ => Ok tt end;
    if (MAX_CPUID_LEAVES <? length (cpuid_table c))%nat then Err CpuidTableTooLarge
    else if (MAX_DEVICES <? length (device_set c))%nat then Err DeviceSetTooLarge
    else if negb (sorted_by leaf_lt (cpuid_table c)) then Err CpuidTableUnsorted
    else if negb (sorted_by Z.ltb (device_set c)) then Err DeviceSetUnsorted
    else Ok tt.

Definition bzimage_boot_params_cmdline (b : BootSpec) : outcome ConfigError (option bytes) :=
  match b with
  | Elf _ _ => Ok None
  | BzImage _ _ cmdline => _ ← validate_canonical_bzimage_cmdline cmdline; Ok (Some cmdline)
  end.

(** ** The canonical encoding *)

Definition CONFIG_MAGIC : bytes := [68; 72; 77; 67; 70; 71; 0; 0].
Definition vec_u32 (b : bytes) : bytes := le_bytes 4 (Z.of_nat (length b)) ++ b.
Definition boot_encode (b : BootSpec) : bytes :=
  match b with
  | Elf k c => [1] ++ k ++ vec_u32 c
  | BzImage k i c => [2] ++ k ++ i ++ vec_u32 c
  end.
Definition epochs_tag (h : HashEpochs) : Z := match h with EpochsOn => 1 | FinalOnly => 2 end.

Definition config_image (c : MachineConfig) : bytes :=
  CONFIG_MAGIC ++ le_bytes 4 (version c) ++ le_bytes 8 (mem_bytes c) ++ le_bytes 4 (vcpus c) ++
  le_bytes 4 (clock_num (clock c)) ++ le_bytes 4 (clock_den (clock c)) ++ base_image_hash c ++
  boot_encode (boot c) ++ le_bytes 8 (epoch_len c) ++ [epochs_tag (hash_epochs c)] ++
  le_bytes 4 (Z.of_nat (length (cpuid_table c))) ++ concat (leaf_encode <$> cpuid_table c) ++
  le_bytes 4 (Z.of_nat (length (device_set c))) ++ concat (le_bytes 2 <$> device_set c).
Definition canonical_encode (c : MachineConfig) : outcome ConfigError bytes :=
  _ ← validate c; Ok (config_image c).

Inductive ConfigDecodeError :=
| BadMagic | Truncated | TrailingBytes (trailing : nat) | BadBootTag (found : Z) | BadHashEpochs (found : Z)
| ZeroClockTerm | LengthTooLarge (field : string) (len max : Z) | InvalidConfig (e : ConfigError).

Definition read_exact (n : nat) : reader ConfigDecodeError bytes := next Truncated n.
Definition cfg_read_u8 : reader ConfigDecodeError Z := next_le Truncated 1.
Definition cfg_read_u16 : reader ConfigDecodeError Z := next_le Truncated 2.
Definition cfg_read_u32 : reader ConfigDecodeError Z := next_le Truncated 4.
Definition cfg_read_u64 : reader ConfigDecodeError Z := next_le Truncated 8.
Definition read_hash : reader ConfigDecodeError bytes := read_exact 32.
Definition read_vec_u32 (field : string) (max : nat) : reader ConfigDecodeError bytes :=
  len ← cfg_read_u32;
  if Z.of_nat max <? len then reject (LengthTooLarge field len (Z.of_nat max))
  else read_exact (Z.to_nat len).

Definition read_leaf : reader ConfigDecodeError CpuidLeaf :=
  function ← cfg_read_u32; index ← cfg_read_u32; flags ← cfg_read_u32;
  eax ← cfg_read_u32; ebx ← cfg_read_u32; ecx ← cfg_read_u32; edx ← cfg_read_u32;
  mret (mkLeaf function index flags eax ebx ecx edx).
Definition read_boot : reader ConfigDecodeError BootSpec :=
  tag ← cfg_read_u8;
  if tag =? 1 then
    kernel_hash ← read_hash;
    cmdline ← read_vec_u32 "cmdline" MAX_CMDLINE;
    mret (Elf kernel_hash cmdline)
  else if tag =? 2 then
    kernel_hash ← read_hash;
    initramfs_hash ← read_hash;
    cmdline ← read_vec_u32 "cmdline" MAX_CMDLINE;
    mret (BzImage kernel_hash initramfs_hash cmdline)
  else reject (BadBootTag tag).
Definition read_epochs : reader ConfigDecodeError HashEpochs :=
  tag ← cfg_read_u8;
  if tag =? 1 then mret EpochsOn else if tag =? 2 then mret FinalOnly else reject (BadHashEpochs tag).
Definition read_clock : reader ConfigDecodeError ClockRatio :=
  num ← cfg_read_u32;
  den ← cfg_read_u32;
  match ClockRatio_new num den with Some c => mret c | None => reject ZeroClockTerm end.

(** The fields in order, with the landing knobs at their defaults. *)
Definition read_fields : reader ConfigDecodeError MachineConfig :=
  magic ← read_exact 8;
  if negb (bool_decide (magic = CONFIG_MAGIC)) then reject BadMagic
  else
    version ← cfg_read_u32;
    mem_bytes ← cfg_read_u64;
    vcpus ← cfg_read_u32;
    clock ← read_clock;
    base_image_hash ← read_hash;
    boot ← read_boot;
    epoch_len ← cfg_read_u64;
    hash_epochs ← read_epochs;
    cpuid_count ← cfg_read_u32;
    if Z.of_nat MAX_CPUID_LEAVES <? cpuid_count then reject (InvalidConfig CpuidTableTooLarge)
    else
      cpuid_table ← times (Z.to_nat cpuid_count) read_leaf;
      device_count ← cfg_read_u32;
      if Z.of_nat MAX_DEVICES <? device_count then reject (InvalidConfig DeviceSetTooLarge)
      else
        device_set ← times (Z.to_nat device_count) cfg_read_u16;
        mret (mkConfig version mem_bytes vcpus clock base_image_hash boot epoch_len hash_epochs
                DEFAULT_SKID_MARGIN DEFAULT_RESYNC_SLACK cpuid_table device_set).

Definition canonical_decode (b : bytes) : outcome ConfigDecodeError MachineConfig :=
  '(config, r) ← read_fields (mkCursor b 0);
  if negb (r_pos r =? length b)%nat then Err (TrailingBytes (length b - r_pos r))
  else
    _ ← err_map InvalidConfig (validate config);
    Ok config.

Definition cpuid_leaves_hash `{!Blake3} (leaves : list CpuidLeaf) : bytes := blake3 (concat (leaf_encode <$> leaves)).
Definition config_hash `{!Blake3} (c : MachineConfig) : outcome ConfigError bytes :=
  image ← canonical_encode c;
  Ok (blake3 image).

(** ** Types *)

Definition leaf_typed (l : CpuidLeaf) : Prop := Forall u32 (leaf_words l).
Definition boot_typed (b : BootSpec) : Prop :=
  match b with
  | Elf k c => array 32 k /\ bytes_ok c
  | BzImage k i c => array 32 k /\ array 32 i /\ bytes_ok c
  end.
Definition config_typed (c : MachineConfig) : Prop :=
  u32 (version c) /\ u64 (mem_bytes c) /\ u32 (vcpus c) /\ ratio_wf (clock c) /\
  array 32 (base_image_hash c) /\ boot_typed (boot c) /\ u64 (epoch_len c) /\
  Forall leaf_typed (cpuid_table c) /\ Forall u16 (device_set c).
Definition landing_default (c : MachineConfig) : Prop :=
  cfg_skid_margin c = DEFAULT_SKID_MARGIN /\ cfg_resync_slack c = DEFAULT_RESYNC_SLACK.

(** ** The decoder is exact *)

Lemma read_vec_u32_exact field max :
  Z.of_nat max < 2 ^ 32 ->
  exact (read_vec_u32 field max) vec_u32 (fun b => (length b <= max)%nat /\ bytes_ok b).
Proof.
  intros Hmax. unfold read_vec_u32.
  eapply (exact_seq _ _ (fun b => Z.of_nat (length b))); [apply next_le_exact|done|intros b [? _]; cbn; lia|].
  intros len Hlen. cbn in Hlen. apply exact_guard; [intros b [[? ?] <-]; lia|intros Hg].
  eapply exact_iff; [apply next_exact|]. intros b. unfold array. split; [intros [Hb ?]|intros ((? & ?) & <-)].
  - rewrite Hb. split_and!; try done; lia.
  - split; [lia|done].
Qed.

Ltac seq f lem := eapply (exact_seq _ _ f); [apply lem|intros; reflexivity| |].
Ltac field f := seq f @next_le_exact; [cbn; naive_solver lia|let H := fresh in intros ? H; cbn in H].

Lemma read_leaf_exact : exact read_leaf leaf_encode leaf_typed.
Proof.
  eapply (exact_iff _ _ (fun l => (0 <= lf_function l < 256 ^ 4 /\ 0 <= lf_index l < 256 ^ 4 /\ 0 <= lf_flags l < 256 ^ 4 /\
    0 <= lf_eax l < 256 ^ 4 /\ 0 <= lf_ebx l < 256 ^ 4 /\ 0 <= lf_ecx l < 256 ^ 4 /\ 0 <= lf_edx l < 256 ^ 4))).
  - unfold read_leaf.
    field lf_function. field lf_index. field lf_flags. field lf_eax. field lf_ebx. field lf_ecx. field lf_edx.
    apply exact_ret. intros []. cbn. split; [naive_solver|]. intros [= -> -> -> -> -> -> ->]. split_and!; lia.
  - intros []. unfold leaf_typed, leaf_words. cbn [lf_function lf_index lf_flags lf_eax lf_ebx lf_ecx lf_edx].
    rewrite !Forall_cons, Forall_nil. unfold u32. naive_solver.
Qed.

Definition boot_tag (b : BootSpec) : Z := match b with Elf _ _ => 1 | BzImage _ _ _ => 2 end.
Definition boot_kernel (b : BootSpec) : bytes := match b with Elf k _ => k | BzImage k _ _ => k end.
Definition boot_initramfs (b : BootSpec) : bytes := match b with Elf _ _ => [] | BzImage _ i _ => i end.
Definition boot_body (b : BootSpec) : bytes := boot_initramfs b ++ vec_u32 (boot_cmdline b).
Definition boot_fits (b : BootSpec) : Prop := boot_typed b /\ (length (boot_cmdline b) <= MAX_CMDLINE)%nat.

Lemma read_boot_exact : exact read_boot boot_encode boot_fits.
Proof.
  assert (exact (read_vec_u32 "cmdline" MAX_CMDLINE) vec_u32 (fun b => (length b <= MAX_CMDLINE)%nat /\ bytes_ok b)) as Hc
    by (by apply read_vec_u32_exact).
  unfold read_boot. eapply (exact_seq _ _ boot_tag _ _ (fun b => boot_kernel b ++ boot_body b));
    [apply next_le_exact|by intros []|by intros []|intros tag _].
  destruct (tag =? 1) eqn:E1; [apply Z.eqb_eq in E1 as ->|destruct (tag =? 2) eqn:E2; [apply Z.eqb_eq in E2 as ->|]].
  - seq boot_kernel @next_exact; [intros [] [[] ?]; naive_solver|intros k Hk].
    eapply (exact_seq _ _ boot_cmdline _ _ (fun _ => [])); [exact Hc| | |].
    + intros [] [[_ ?] _]; [|done]. cbn. by rewrite app_nil_r.
    + intros [] [[[] ?] ?]; naive_solver.
    + intros c [Hl Hb]. apply exact_ret. intros [k' c'|k' i' c']; cbn; [|naive_solver].
      split; [intros [[[_ _] <-] <-]; done|]. intros [= -> ->]. by split_and!.
  - seq boot_kernel @next_exact; [intros [] [[] ?]; naive_solver|intros k Hk].
    seq boot_initramfs @next_exact; [intros [] [[[] ?] ?]; naive_solver|intros i Hi].
    eapply (exact_seq _ _ boot_cmdline _ _ (fun _ => [])); [exact Hc| | |].
    + intros b _. cbn. by rewrite app_nil_r.
    + intros [] [[[[] ?] ?] ?]; naive_solver.
    + intros c [Hl Hb]. apply exact_ret. intros [k' c'|k' i' c']; cbn; [naive_solver|].
      split; [intros [[[[_ _] <-] <-] <-]; done|]. intros [= -> -> ->]. by split_and!.
  - intros r b r' _. split; [done|]. intros ((_ & <-) & _). by destruct b.
Qed.

Lemma read_epochs_exact : exact read_epochs (fun h => [epochs_tag h]) (fun _ => True).
Proof.
  unfold read_epochs. eapply (exact_seq _ _ epochs_tag _ _ (fun _ => []));
    [apply next_le_exact|by intros []|by intros []|intros tag _].
  destruct (tag =? 1) eqn:E1; [apply Z.eqb_eq in E1 as ->|destruct (tag =? 2) eqn:E2; [apply Z.eqb_eq in E2 as ->|]].
  1-2: apply exact_ret; intros []; cbn; naive_solver.
  intros r h r' _. split; [done|]. intros ((_ & <-) & _). by destruct h.
Qed.

Lemma read_clock_exact :
  exact read_clock (fun c => le_bytes 4 (clock_num c) ++ le_bytes 4 (clock_den c)) ratio_wf.
Proof.
  unfold read_clock. seq clock_num @next_le_exact; [intros c [? _]; cbn; lia|intros n Hn].
  eapply (exact_seq _ _ clock_den _ _ (fun _ => [])); [apply next_le_exact|by intros; rewrite app_nil_r|
    intros c [[_ ?] _]; cbn; lia|intros d Hd].
  cbn in Hn, Hd. pose proof (ClockRatio_new_spec n d) as Hs.
  destruct (ClockRatio_new n d) as [c|].
  - apply exact_ret. intros c'. destruct (proj1 (Hs c ltac:(ulia) ltac:(ulia)) eq_refl) as [-> Hw].
    split; [intros [[_ <-] <-]; by destruct c'|by intros ->].
  - intros r c r' _. split; [done|]. intros (((Hw & <-) & <-) & _). destruct c.
    discriminate (proj2 (Hs _ ltac:(ulia) ltac:(ulia)) (conj eq_refl Hw)).
Qed.

(** What the reader of the fields accepts: typed configurations within its
    bounds, with the default landing knobs. *)
Definition config_fits (c : MachineConfig) : Prop :=
  config_typed c /\ landing_default c /\ (length (boot_cmdline (boot c)) <= MAX_CMDLINE)%nat /\
  (length (cpuid_table c) <= MAX_CPUID_LEAVES)%nat /\ (length (device_set c) <= MAX_DEVICES)%nat.

Lemma magic_array : array 8 CONFIG_MAGIC.
Proof. by apply (conj eq_refl), bytes_okb_ok. Qed.

Ltac fields :=
  cbn [version mem_bytes vcpus clock base_image_hash boot epoch_len hash_epochs cfg_skid_margin cfg_resync_slack
       cpuid_table device_set].

Lemma read_fields_exact : exact read_fields config_image config_fits.
Proof.
  assert (exact cfg_read_u16 (le_bytes 2) u16) as H16 by apply next_le_exact.
  assert (Z.of_nat MAX_CPUID_LEAVES = 4096 /\ Z.of_nat MAX_DEVICES = 256) as [HC HD] by done.
  unfold read_fields, config_image.
  seq (fun _ : MachineConfig => CONFIG_MAGIC) @next_exact; [intros; apply magic_array|intros magic _].
  apply exact_guard; [intros c [_ <-]; by rewrite bool_decide_eq_true_2|intros ->%negb_false_iff%bool_decide_eq_true].
  unfold config_fits, config_typed, landing_default.
  seq version @next_le_exact; [naive_solver|intros v Hv].
  seq mem_bytes @next_le_exact; [naive_solver|intros m Hm].
  seq vcpus @next_le_exact; [naive_solver|intros n Hn].
  eapply (exact_seq _ _ clock); [apply read_clock_exact|intros; apply app_assoc|naive_solver|intros k Hk].
  seq base_image_hash @next_exact; [naive_solver|intros h Hh].
  seq boot @read_boot_exact; [unfold boot_fits; naive_solver|intros b [Hb Hb']].
  seq epoch_len @next_le_exact; [naive_solver|intros e He].
  seq hash_epochs @read_epochs_exact; [done|intros g _].
  seq (fun c => Z.of_nat (length (cpuid_table c))) @next_le_exact; [intros; destruct_and!; cbn; lia|intros nc Hnc].
  apply exact_guard; [intros; destruct_and!; lia|intros Hg].
  seq cpuid_table (times_exact _ _ _ (Z.to_nat nc) read_leaf_exact); [intros; destruct_and!; split; [lia|done]|intros t [Ht Ht']].
  seq (fun c => Z.of_nat (length (device_set c))) @next_le_exact; [intros; destruct_and!; cbn; lia|intros nd Hnd].
  apply exact_guard; [intros; destruct_and!; lia|intros Hg'].
  eapply (exact_seq _ _ device_set _ _ (fun _ => []));
    [apply (times_exact _ _ _ _ H16)|intros; by rewrite app_nil_r|intros; destruct_and!; split; [lia|done]|intros d [Hd Hd']].
  cbv beta in *. apply exact_ret. intros c. split; [destruct c; fields; intros; destruct_and!; by subst|].
  intros ->. fields. change (256 ^ Z.of_nat 4) with (2 ^ 32) in *. change (256 ^ Z.of_nat 8) with (2 ^ 64) in *.
  repeat match goal with |- _ /\ _ => split end; first [lia | reflexivity | assumption].
Qed.

(** The decoder, and what it accepts. *)
Lemma canonical_decode_ok b c :
  bytes_ok b ->
  canonical_decode b = Ok c <-> config_fits c /\ validate c = Ok tt /\ b = config_image c.
Proof.
  intros Hb. unfold canonical_decode.
  assert (cursor_ok (mkCursor b 0)) as Hr by (split; [by unfold rest; rewrite drop_0|cbn; lia]). split.
  - destruct (read_fields _) as [[c' r']| |] eqn:E; [|done..]. apply read_fields_exact in E as (Hf & He & ->); [|done].
    cbn [mbind outcome_bind advance r_pos]. destruct (negb _) eqn:Hn; [done|].
    destruct (validate c') as [[]| |] eqn:Hv; [|done..]. intros [= <-]. split_and!; try done.
    unfold rest in He. cbn [r_pos r_bytes advance] in He. rewrite drop_0 in He.
    apply negb_false_iff, Nat.eqb_eq in Hn. cbn [r_pos] in Hn.
    rewrite drop_ge, app_nil_r in He; [done|]. rewrite Hn. apply le_n.
  - intros (Hf & Hv & ->). assert (read_fields (mkCursor (config_image c) 0)
      = Ok (c, mkCursor (config_image c) (length (config_image c)))) as ->.
    { apply read_fields_exact; [done|]. split_and!; [done| |done]. unfold rest. cbn [r_pos r_bytes].
      by rewrite drop_0, drop_all, app_nil_r. }
    cbn [mbind outcome_bind r_pos]. rewrite Nat.eqb_refl. cbn [negb]. by rewrite Hv.
Qed.


Lemma validate_bounds c :
  validate c = Ok tt ->
  (length (boot_cmdline (boot c)) <= MAX_CMDLINE)%nat /\
  (length (cpuid_table c) <= MAX_CPUID_LEAVES)%nat /\ (length (device_set c) <= MAX_DEVICES)%nat.
Proof.
  unfold validate. intros H. repeat (case_match; [done|]).
  destruct (match boot c with Elf _ _ => _ | BzImage _ _ _ => _ end); [|done..]. cbn [mbind outcome_bind] in H.
  repeat (case_match; [done|]). rewrite !Nat.ltb_ge in *. done.
Qed.

Lemma calm_read_fields : calm read_fields.
Proof.
  assert (calm read_clock).
  { unfold read_clock, cfg_read_u32, next_le. repeat (apply calm_bind; intros; auto with dh). by case_match; auto with dh. }
  unfold read_fields, read_epochs, read_boot, read_vec_u32, read_leaf, read_hash, read_exact, cfg_read_u8, cfg_read_u16,
    cfg_read_u32, cfg_read_u64, next_le.
  repeat first [assumption | apply calm_next | apply calm_ret | apply calm_reject | apply calm_times
               | apply calm_if | apply calm_bind; [|intros]].
Qed.

Lemma parse_tokens_calm x ts : parse_tokens x ts <> Panic.
Proof.
  revert x. induction ts as [|t ts IH]; intros x; [done|]. cbn [parse_tokens].
  repeat case_match; auto.
Qed.
Lemma canonicalize_calm e : canonicalize_bzimage_cmdline_extras e <> Panic.
Proof.
  unfold canonicalize_bzimage_cmdline_extras, parse_bzimage_cmdline_extras, compose_bzimage_cmdline.
  apply bind_not_panic; [|intros x _; cbv zeta; by destruct (_ <? _)%nat]. repeat (case_match; [done|]). apply parse_tokens_calm.
Qed.
Lemma validate_cmdline_calm l : validate_canonical_bzimage_cmdline l <> Panic.
Proof.
  unfold validate_canonical_bzimage_cmdline, bzimage_cmdline_extras_from_canonical. case_match; [done|].
  apply bind_not_panic; [|done]. case_match; [done|].
  do 2 (apply bind_not_panic; [by destruct (strip_prefix _ _)|intros ? _]).
  apply bind_not_panic; [apply canonicalize_calm|]. intros ? ?. by case_match.
Qed.
Lemma validate_calm c : validate c <> Panic.
Proof.
  unfold validate. repeat (case_match; [done|]).
  apply bind_not_panic; [case_match; [done|apply validate_cmdline_calm]|intros ? _]. repeat (case_match; [done|]). done.
Qed.

(** C21: the machine-config codec is exact.  The decoder returns a configuration
    exactly when the bytes are that configuration's canonical encoding, the
    configuration is typed and valid, and the landing knobs, which the encoding
    leaves out, have their defaults; it never panics. *)
Theorem config_codec_exact b c :
  bytes_ok b ->
  (canonical_decode b = Ok c <-> config_typed c /\ landing_default c /\ canonical_encode c = Ok b) /\
  canonical_decode b <> Panic.
Proof.
  intros Hb. split.
  - rewrite canonical_decode_ok by done. unfold config_fits, canonical_encode. split.
    + intros ((? & ? & _) & -> & ->). done.
    + intros (Ht & Hl & H). destruct (validate c) as [[]| |] eqn:Hv; [|done..]. injection H as <-.
      destruct (validate_bounds c Hv) as (? & ? & ?). by repeat match goal with |- _ /\ _ => split end.
  - unfold canonical_decode. pose proof (calm_read_fields (mkCursor b 0)) as Hc.
    apply bind_not_panic; [done|]. intros [c' r] _. case_match; [done|].
    apply bind_not_panic; [|done]. pose proof (validate_calm c'). by destruct (validate c').
Qed.

(** ** The command lines a bzImage machine can have *)

Definition level_ok (x : BzImageCmdlineExtras) : Prop := forall l, loglevel x = Some l -> 0 <= l <= 7.
Definition cmdline_of (x : BzImageCmdlineExtras) : bytes :=
  BZIMAGE_FORCED_CMDLINE ++ (if quiet x then lit " quiet" else []) ++
  match loglevel x with Some level => lit " loglevel=" ++ [48 + level] | None => [] end.

Lemma parse_tokens_level x ts y : level_ok x -> parse_tokens x ts = Ok y -> level_ok y.
Proof.
  revert x. induction ts as [|t ts IH]; intros x Hx; cbn [parse_tokens]; [by intros [= <-]|].
  case_match; [done|]. case_match.
  { case_match; [done|]. apply IH. exact Hx. }
  repeat (case_match; try done). apply IH. intros lv [= <-]. lia.
Qed.
Lemma parse_level e x : parse_bzimage_cmdline_extras e = Ok x -> level_ok x.
Proof.
  unfold parse_bzimage_cmdline_extras. intros H. repeat (case_match; simplify_eq; try done).
  by eapply parse_tokens_level; [|exact H].
Qed.

Lemma canonicalize_ok e c : canonicalize_bzimage_cmdline_extras e = Ok c -> exists x, level_ok x /\ c = cmdline_of x.
Proof.
  unfold canonicalize_bzimage_cmdline_extras. intros (x & Hx & H)%bind_ok. apply parse_level in Hx.
  unfold compose_bzimage_cmdline in H. cbv zeta in H. destruct (_ <? _)%nat; [done|]. injection H as <-. by exists x.
Qed.

(** The eighteen admissible extras. *)
Definition all_extras : list BzImageCmdlineExtras :=
  l ← None :: (Some <$> [0; 1; 2; 3; 4; 5; 6; 7]); [mkExtras false l; mkExtras true l].
Lemma level_cases x : level_ok x -> In x all_extras.
Proof.
  destruct x as [q [l|]]; intros H.
  - specialize (H l eq_refl). cbn in H.
    assert (l = 0 \/ l = 1 \/ l = 2 \/ l = 3 \/ l = 4 \/ l = 5 \/ l = 6 \/ l = 7) as Hl by lia.
    destruct q; destruct_or!; subst; cbn; tauto.
  - destruct q; cbn; tauto.
Qed.
Lemma cmdline_of_valid x : level_ok x -> validate_canonical_bzimage_cmdline (cmdline_of x) = Ok tt.
Proof.
  intros Hx%level_cases.
  assert (forallb (fun x => is_ok (validate_canonical_bzimage_cmdline (cmdline_of x))) all_extras = true) as H
    by (vm_compute; reflexivity).
  rewrite List.forallb_forall in H. specialize (H x Hx). by destruct (validate_canonical_bzimage_cmdline _) as [[]| |].
Qed.

(** The kernel command line of a bzImage machine is the forced deterministic
    baseline and nothing a caller could use to override it.  The accepted
    command lines are exactly the baseline with an optional [quiet] and an
    optional one-digit [loglevel], in that order; canonicalizing caller-supplied
    extras gives such a command line or an error, and reading the extras back
    from one and canonicalizing them gives it again. *)
Theorem bzimage_cmdline_canonical cmdline extras :
  (validate_canonical_bzimage_cmdline cmdline = Ok tt <-> exists x, level_ok x /\ cmdline = cmdline_of x) /\
  (canonicalize_bzimage_cmdline_extras extras = Ok cmdline -> validate_canonical_bzimage_cmdline cmdline = Ok tt) /\
  (bzimage_cmdline_extras_from_canonical cmdline = Ok extras -> canonicalize_bzimage_cmdline_extras extras = Ok cmdline).
Proof.
  assert (forall e, bzimage_cmdline_extras_from_canonical cmdline = Ok e ->
    canonicalize_bzimage_cmdline_extras e = Ok cmdline) as Hback.
  { unfold bzimage_cmdline_extras_from_canonical. intros e H. case_match.
    { injection H as <-. apply bool_decide_eq_true in H0 as ->. vm_compute. reflexivity. }
    apply bind_ok in H as (r & _ & H). apply bind_ok in H as (e' & _ & H). apply bind_ok in H as (c & Hc & H).
    case_match; [done|]. injection H as <-. by apply negb_false_iff, bool_decide_eq_true in H1 as ->. }
  split_and!; [split| |apply Hback].
  - unfold validate_canonical_bzimage_cmdline. case_match; [done|]. intros (e & He & _)%bind_ok.
    by apply Hback, canonicalize_ok in He.
  - intros (x & Hx & ->). by apply cmdline_of_valid.
  - intros (x & Hx & ->)%canonicalize_ok. by apply cmdline_of_valid.
Qed.

(** ** Examples *)

Definition example_config : MachineConfig :=
  mkConfig 1 (64 * 1024 * 1024) 1 (mkClockRatio 1 2) (replicate 32 17)
    (BzImage (replicate 32 34) (replicate 32 51) (cmdline_of (mkExtras true (Some 3)))) 50000000 EpochsOn 8192 1024
    [mkLeaf 0 0 0 13 0 0 0; mkLeaf 1 0 1 0 0 7 0] [1; 2; 9].
Definition example_config_bytes : bytes := match canonical_encode example_config with Ok b => b | _ => [] end.

Lemma example_config_typed : config_typed example_config.
Proof.
  unfold config_typed, ratio_wf, boot_typed, array, leaf_typed, leaf_words. cbn [example_config version mem_bytes vcpus
    clock clock_num clock_den base_image_hash boot epoch_len cpuid_table device_set].
  split_and!; try ulia; try (by apply bytes_okb_ok; vm_compute); try done;
    repeat first [apply Forall_nil_2 | apply Forall_cons_2 | cbn; ulia].
Qed.

Lemma config_codec_exact_witness :
  canonical_decode example_config_bytes = Ok example_config /\ canonical_decode example_config_bytes <> Panic.
Proof.
  destruct (config_codec_exact example_config_bytes example_config) as [H1 H2].
  { by apply bytes_okb_ok; vm_compute. }
  split; [|exact H2]. apply H1. refine (conj example_config_typed (conj (conj eq_refl eq_refl) _)).
  vm_compute. reflexivity.
Defined.
