(* ===== verification/ImageResolver.v ===== *)
(** * The image cache: [dh-worker/src/image_resolver.rs], [dh-vmm/src/blkfile.rs]

    A flat directory of blobs named by their digest.  Files are read in chunks
    of at most 64 KiB whose sizes the host chooses; the class [CacheFs] is what
    the resolver asks of it, including the capacity of the buffer it fills.  The
    base image behind pv-blk is either an open file or bytes of the process. *)

From Stdlib Require Import String.
From S2P Require Import Prelude Hex Config Blk.
Local Open Scope string_scope.
Local Open Scope list_scope.
Local Open Scope Z_scope.

(** ** The base image of pv-blk *)

Inductive BaseBacking (H : Type) := BackFile (file : H) | BackBytes (b : bytes).
Arguments BackFile {H}. Arguments BackBytes {H}.
Record FileBase (H : Type) := mkFileBase { fb_backing : BaseBacking H; fb_len : Z }.
Arguments mkFileBase {H}. Arguments fb_backing {H}. Arguments fb_len {H}.

(** [read_exact_at] on an image nobody writes. *)
Class Pread (H : Type) := read_exact_at : H -> Z -> nat -> option bytes.

Section FileBase.
Context {H : Type}.
(** [from_file], given the length its metadata has. *)
Definition FileBase_from_file (file : H) (metadata_len : Z) : FileBase H := mkFileBase (BackFile file) metadata_len.
Definition FileBase_from_owned_bytes (b : bytes) : FileBase H := mkFileBase (BackBytes b) (Z.of_nat (length b)).
Definition FileBase_is_empty (f : FileBase H) : bool := fb_len f =? 0.

(** The bytes asked for: what the image has at [offset], then zeros. *)
Definition FileBase_read_at `{!Pread H} (f : FileBase H) (offset : Z) (n : nat) : option bytes :=
  if fb_len f <=? offset then Some (replicate n 0)
  else
    let take_ := Z.to_nat (Z.min (fb_len f - offset) (Z.of_nat n)) in
    data ← match fb_backing f with
           | BackFile file => read_exact_at file offset take_
           | BackBytes b => Some (take take_ (drop (Z.to_nat offset) b))
           end;
    Some (data ++ replicate (n - take_) 0).
#[export] Instance FileBase_base `{!Pread H} : BlockBase (FileBase H) := { len_bytes := fb_len; read_at := FileBase_read_at }.
End FileBase.

(** ** The resolver *)

Definition MAX_BASE_IMAGE_BYTES : Z := 512 * 1024 * 1024.
Definition MAX_KERNEL_BYTES : Z := 64 * 1024 * 1024.
Definition MAX_INITRAMFS_BYTES : Z := 256 * 1024 * 1024.

Inductive ImageBlobKind := BaseImage | Kernel | Initramfs.
Definition cache_limit (k : ImageBlobKind) : Z :=
  match k with BaseImage => MAX_BASE_IMAGE_BYTES | Kernel => MAX_KERNEL_BYTES | Initramfs => MAX_INITRAMFS_BYTES end.

Inductive ImageResolverError :=
| BadConfig (e : ConfigError)
| NotFound (k : ImageBlobKind) (hash : bytes) (path : string)
| NotFile (k : ImageBlobKind) (path : string)
| HashMismatch (k : ImageBlobKind) (path : string) (expected actual : bytes)
| TooLarge (k : ImageBlobKind) (path : string) (len max : Z)
| AllocationFailed (k : ImageBlobKind) (path : string) (requested : Z)
| ImageIo (k : ImageBlobKind) (path : string) (errno : Z).

Inductive OpenError := ENotFound | ELoop | EOther (errno : Z).
Class CacheFs (H S : Type) := {
  (** [O_NOFOLLOW | O_NONBLOCK] *)
  fs_open : string -> S -> (OpenError + H) * S;
  (** a regular file, and its length *)
  fs_metadata : H -> S -> (Z + bool * Z) * S;
  (** the next chunk, empty at the end *)
  fs_read : H -> S -> (Z + bytes) * S;
  (** of the buffer being filled *)
  buf_reserve_exact : Z -> S -> bool * S;
  buf_capacity : S -> Z }.

Definition cache_key (hash : bytes) : string := hex_string hash.

Inductive ResolvedBoot := ResolvedElf (kernel cmdline : bytes) | ResolvedBzImage (kernel initramfs cmdline : bytes).
Record CreateVmAssets (H : Type) := mkAssets { as_base_image_path : string; as_base_image : FileBase H; as_boot : ResolvedBoot }.
Arguments mkAssets {H}. Arguments as_base_image_path {H}. Arguments as_base_image {H}. Arguments as_boot {H}.

Section Resolver.
Context {B : Blake3} {H S : Type} `{!CacheFs H S}.
Context (fuel : nat) (root : string).
Local Notation resolver A := (prog S ImageResolverError A).

Definition blob_path (hash : bytes) : string := root ++ "/" ++ cache_key hash.

(** A host call whose error is [e]. *)
Definition host {X A} (e : X -> ImageResolverError) (f : S -> (X + A) * S) : resolver A := fun s =>
  match f s with (inl x, s) => Some (Err (e x), s) | (inr a, s) => Some (Ok a, s) end.

Definition open_cache_file (k : ImageBlobKind) (expected : bytes) : resolver (string * H * Z) :=
  let path := blob_path expected in
  file ← host (fun e => match e with
                        | ENotFound => NotFound k expected path
                        | ELoop => NotFile k path
                        | EOther errno => ImageIo k path errno
                        end) (fs_open path);
  meta ← host (ImageIo k path) (fs_metadata file);
  if negb (meta.1 : bool) then throw (NotFile k path) else mret (path, file, meta.2).

Definition reserve (k : ImageBlobKind) (path : string) (extra requested : Z) : resolver unit :=
  ok ← io (fun s => let '(ok, s) := buf_reserve_exact extra s in (Ok ok, s));
  if (ok : bool) then pass else throw (AllocationFailed k path requested).

(** The read loop, [total] bytes in. *)
Fixpoint read_loop (n : nat) (k : ImageBlobKind) (path : string) (file : H) (max_bytes total : Z) (out : bytes) : resolver bytes :=
  match n with
  | O => spin
  | Datatypes.S n =>
      chunk ← host (ImageIo k path) (fs_read file);
      match chunk with
      | [] => mret out
      | _ =>
          match checked_add total (Z.of_nat (length chunk)) with
          | None => throw (TooLarge k path u64_max max_bytes)
          | Some total =>
              if max_bytes <? total then throw (TooLarge k path total max_bytes)
              else
                let required := Z.of_nat (length out) + Z.of_nat (length chunk) in
                if u64_max <? required then throw (AllocationFailed k path u64_max)
                else
                  cap ← observe (fun s => Ok (buf_capacity s));
                  _ ← (if cap <? required then reserve k path (required - cap) total else pass);
                  read_loop n k path file max_bytes total (out ++ chunk)
          end
      end
  end.

Definition read_verified_blob_limited (k : ImageBlobKind) (expected : bytes) (max_bytes : Z) : resolver (string * bytes) :=
  opened ← open_cache_file k expected;
  let '(path, file, len) := (opened : string * H * Z) in
  if max_bytes <? len then throw (TooLarge k path len max_bytes)
  else
    _ ← reserve k path len len;
    out ← read_loop fuel k path file max_bytes 0 [];
    let actual := blake3 out in
    if negb (bool_decide (actual = expected)) then throw (HashMismatch k path expected actual) else mret (path, out).

Definition read_blob_limited (k : ImageBlobKind) (expected : bytes) (max_bytes : Z) : resolver bytes :=
  r ← read_verified_blob_limited k expected max_bytes; mret (r.2 : bytes).
Definition read_blob (k : ImageBlobKind) (hash : bytes) : resolver bytes :=
  match k with BaseImage => crash | _ => read_blob_limited k hash (cache_limit k) end.
Definition open_base_image (hash : bytes) : resolver (string * FileBase H) :=
  r ← read_verified_blob_limited BaseImage hash MAX_BASE_IMAGE_BYTES; mret (r.1 : string, FileBase_from_owned_bytes r.2).

Definition resolve_boot (b : BootSpec) : resolver ResolvedBoot :=
  match b with
  | Elf kernel_hash cmdline => kernel ← read_blob Kernel kernel_hash; mret (ResolvedElf kernel cmdline)
  | BzImage kernel_hash initramfs_hash cmdline =>
      kernel ← read_blob Kernel kernel_hash;
      initramfs ← read_blob Initramfs initramfs_hash;
      mret (ResolvedBzImage kernel initramfs cmdline)
  end.
Definition resolve_create_vm (config : MachineConfig) : resolver (CreateVmAssets H) :=
  _ ← of_outcome (err_map BadConfig (validate config));
  base ← open_base_image (base_image_hash config);
  b ← resolve_boot (boot config);
  mret (mkAssets base.1 base.2 b).
End Resolver.

(** ** An owned base image is an immutable disk *)

Definition image_byte {H} (f : FileBase H) (x : Z) : Z :=
  match fb_backing f with
  | BackBytes b => if x <? 0 then 0 else nth (Z.to_nat x) b 0
  | BackFile _ => 0
  end.

(** What owned bytes serve: the image, then zeros. *)
Lemma owned_read_at {H} `{!Pread H} b offset n :
  0 <= offset ->
  read_at (FileBase_from_owned_bytes (H := H) b) offset n =
    Some (image_byte (FileBase_from_owned_bytes (H := H) b) <$> seqZ offset (Z.of_nat n)).
Proof.
  intros Ho. cbn [read_at FileBase_base]. unfold FileBase_read_at, FileBase_from_owned_bytes. cbn [fb_len fb_backing].
  set (f := mkFileBase _ _). assert (forall i, image_byte f (offset + Z.of_nat i) = nth (Z.to_nat offset + i) b 0) as Hb.
  { intros i. unfold image_byte. cbn. replace (offset + Z.of_nat i <? 0) with false by lia. f_equal. lia. }
  destruct (Z.leb_spec (Z.of_nat (length b)) offset) as [Hl|Hl].
  - f_equal. apply list_eq. intros i. destruct (decide (i < n)%nat) as [Hi|Hi].
    + rewrite lookup_replicate_2, list_lookup_fmap, lookup_seqZ_lt by lia. cbn [fmap option_fmap option_map]. f_equal.
      rewrite Hb, nth_overflow by lia. done.
    + rewrite !lookup_ge_None_2; [done|rewrite length_fmap, length_seqZ; lia|rewrite length_replicate; lia].
  - cbn [mbind option_bind]. f_equal. apply list_eq. intros i. set (t := Z.to_nat (Z.min (Z.of_nat (length b) - offset) (Z.of_nat n))).
    assert (length (take t (drop (Z.to_nat offset) b)) = t) as Ht by (rewrite length_take, length_drop; lia).
    destruct (decide (i < n)%nat) as [Hi|Hi].
    + rewrite list_lookup_fmap, lookup_seqZ_lt by lia. cbn [fmap option_fmap option_map]. rewrite Hb. destruct (decide (i < t)%nat) as [Hit|Hit].
      * rewrite lookup_app_l, lookup_take_lt, lookup_drop by lia.
        destruct (lookup_lt_is_Some_2 b (Z.to_nat offset + i)) as [x Hx]; [lia|]. by rewrite Hx, (nth_lookup_Some _ _ _ _ Hx).
      * rewrite lookup_app_r, Ht, lookup_replicate_2 by lia. f_equal. rewrite nth_overflow; [done|]. lia.
    + rewrite !lookup_ge_None_2; [done|rewrite length_fmap, length_seqZ; lia|rewrite length_app, length_replicate, Ht; lia].
Qed.

(** ** What resolves is what was named *)

(** An answer that is not a value. *)
Ltac answers := eexists _, _; split; [reflexivity|split; [discriminate|intros; discriminate]].

Section ResolverOk.
Context {B : Blake3} {H S : Type} `{!CacheFs H S, !Pread H}.
Context (root : string).

(** Each chunk that is kept brings the total up; past the cap the loop ends. *)
Lemma read_loop_total n k path file max total out s :
  (Z.to_nat (max - total) < n)%nat -> 0 <= total -> total = Z.of_nat (length out) -> max < u64_max ->
  exists o s', read_loop n k path file max total out s = Some (o, s') /\ o <> Panic /\
    forall b, o = Ok b -> Z.of_nat (length b) <= Z.max max total.
Proof.
  revert total out s; induction n as [|n IH]; intros total out s Hn H0 Hout Hmax; [lia|]. cbn [read_loop].
  unfold mbind, prog_bind, host at 1. destruct (fs_read file s) as [[e|chunk] s1]; [answers|].
  destruct chunk as [|x chunk]; [eexists _, _; split_and!; [done..|]; intros b [= <-]; lia|].
  set (c := x :: chunk). assert (0 < Z.of_nat (length c)) as Hc by (cbn; lia).
  unfold checked_add, try_u64. destruct (total + Z.of_nat (length c) <=? u64_max) eqn:E1; [|answers].
  destruct (max <? total + Z.of_nat (length c)) eqn:E2; [answers|].
  replace (u64_max <? Z.of_nat (length out) + Z.of_nat (length c)) with false by lia.
  unfold observe at 1. cbn [mbind prog_bind].
  assert (forall s2, exists o s', read_loop n k path file max (total + Z.of_nat (length c)) (out ++ c) s2 = Some (o, s') /\
    o <> Panic /\ forall b, o = Ok b -> Z.of_nat (length b) <= Z.max max total) as Hnext.
  { intros s2. destruct (IH (total + Z.of_nat (length c)) (out ++ c) s2) as (o & s' & Hr & Hp & Hl); [lia|lia|rewrite length_app; lia|done|].
    exists o, s'. split_and!; try done. intros b Hb. apply Hl in Hb. lia. }
  destruct (buf_capacity s1 <? _); [|apply Hnext]. unfold reserve, io, mbind, prog_bind.
  destruct (buf_reserve_exact _ s1) as [[] s2]; [apply Hnext|answers].
Qed.

(** A blob that is read has the digest it was asked by. *)
Lemma read_verified_blob_limited_ok fuel k expected max s :
  (Z.to_nat max < fuel)%nat -> 0 <= max < u64_max ->
  exists o s', read_verified_blob_limited fuel root k expected max s = Some (o, s') /\ o <> Panic /\
    forall path b, o = Ok (path, b) -> path = blob_path root expected /\ blake3 b = expected /\ Z.of_nat (length b) <= max.
Proof.
  intros Hf Hm. unfold read_verified_blob_limited, open_cache_file, mbind, prog_bind, host.
  destruct (fs_open _ s) as [[e|file] s1]; [answers|]. destruct (fs_metadata file s1) as [[e|[isf len]] s2]; [answers|].
  cbn [fst snd]. destruct isf; cbn [negb]; [|answers]. unfold mret, prog_ret. cbv beta iota zeta.
  destruct (max <? len); [answers|]. unfold reserve, io, mbind, prog_bind.
  destruct (buf_reserve_exact len s2) as [[] s3]; [|answers]. unfold pass.
  destruct (read_loop_total fuel k (blob_path root expected) file max 0 [] s3) as (o & s4 & -> & Hp & Hl); [lia|done..|lia|].
  destruct o as [b|e|]; [|answers|done].
  destruct (bool_decide (blake3 b = expected)) eqn:E; cbn [negb]; [|answers]. eexists _, _. split_and!; [done..|].
  intros path b' [= <- <-]. apply bool_decide_eq_true in E. specialize (Hl b eq_refl). split_and!; [done..|lia].
Qed.

Lemma read_blob_ok fuel k hash s :
  (Z.to_nat MAX_BASE_IMAGE_BYTES < fuel)%nat -> k <> BaseImage ->
  exists o s', read_blob fuel root k hash s = Some (o, s') /\ o <> Panic /\
    forall b, o = Ok b -> blake3 b = hash /\ Z.of_nat (length b) <= cache_limit k.
Proof.
  intros Hf Hk. assert (0 <= cache_limit k <= MAX_BASE_IMAGE_BYTES /\ MAX_BASE_IMAGE_BYTES < u64_max) as Hc.
  { unfold cache_limit, MAX_BASE_IMAGE_BYTES, MAX_KERNEL_BYTES, MAX_INITRAMFS_BYTES, u64_max. destruct k; lia. }
  destruct (read_verified_blob_limited_ok fuel k hash (cache_limit k) s) as (o & s' & Hr & Hp & Ho); [lia|lia|].
  assert (read_blob fuel root k hash s = read_blob_limited fuel root k hash (cache_limit k) s) as -> by by destruct k.
  unfold read_blob_limited, mbind, prog_bind. rewrite Hr. destruct o as [[path b]|e|]; [|answers|done].
  eexists _, _. split_and!; [done..|]. cbn. intros b' [= <-]. by destruct (Ho path b eq_refl).
Qed.

(** The bytes behind the resolved boot. *)
Definition boot_verified (spec : BootSpec) (r : ResolvedBoot) : Prop :=
  match spec, r with
  | Elf k l, ResolvedElf kernel cmdline => blake3 kernel = k /\ Z.of_nat (length kernel) <= MAX_KERNEL_BYTES /\ cmdline = l
  | BzImage k i l, ResolvedBzImage kernel initramfs cmdline =>
      blake3 kernel = k /\ Z.of_nat (length kernel) <= MAX_KERNEL_BYTES /\
      blake3 initramfs = i /\ Z.of_nat (length initramfs) <= MAX_INITRAMFS_BYTES /\ cmdline = l
  | _, _ => False
  end.

Lemma resolve_boot_ok fuel spec s :
  (Z.to_nat MAX_BASE_IMAGE_BYTES < fuel)%nat ->
  exists o s', resolve_boot fuel root spec s = Some (o, s') /\ o <> Panic /\ forall r, o = Ok r -> boot_verified spec r.
Proof.
  intros Hf. destruct spec as [k l|k i l]; cbn [resolve_boot]; unfold mbind, prog_bind;
    destruct (read_blob_ok fuel Kernel k s Hf) as (o & s1 & -> & Hp & Hk); try done; (destruct o as [kb|e|]; [|answers|done]);
    destruct (Hk kb eq_refl) as [Hk1 Hk2].
  - eexists _, _. split_and!; [done..|]. by intros r [= <-].
  - destruct (read_blob_ok fuel Initramfs i s1 Hf) as (o & s2 & -> & Hp2 & Hi); [done|]. destruct o as [ib|e|]; [|answers|done].
    destruct (Hi ib eq_refl) as [Hi1 Hi2]. eexists _, _. split_and!; [done..|]. by intros r [= <-].
Qed.

(** C29: a machine starts from exactly the images its configuration names.
    Whatever the cache directory holds, however its files change while they are
    read and in whatever chunks, resolving ends (with fuel above the largest
    cap, each chunk costing at least one byte of it) and does not panic; when it
    gives assets, the configuration is valid, the kernel, the initramfs and the
    base image have the digests it names and are within their caps, the command
    line is its own, and the disk pv-blk then reads is that image followed by
    zeros, at every offset and forever. *)
Theorem resolved_images_verified fuel config s :
  (Z.to_nat MAX_BASE_IMAGE_BYTES < fuel)%nat ->
  exists o s', resolve_create_vm fuel root config s = Some (o, s') /\ o <> Panic /\
    forall assets, o = Ok assets ->
      validate config = Ok tt /\ boot_verified (boot config) (as_boot assets) /\
      exists image, blake3 image = base_image_hash config /\ Z.of_nat (length image) <= MAX_BASE_IMAGE_BYTES /\
        len_bytes (as_base_image assets) = Z.of_nat (length image) /\
        forall offset n, 0 <= offset ->
          read_at (as_base_image assets) offset n = Some ((fun x => nth (Z.to_nat x) image 0) <$> seqZ offset (Z.of_nat n)).
Proof.
  intros Hf. unfold resolve_create_vm, mbind, prog_bind, of_outcome.
  destruct (validate config) as [[]|e|] eqn:Ev; [|answers|by apply validate_calm in Ev]. cbn [err_map].
  unfold open_base_image, mbind, prog_bind.
  destruct (read_verified_blob_limited_ok fuel BaseImage (base_image_hash config) MAX_BASE_IMAGE_BYTES s Hf) as (o & s1 & -> & Hp & Ho).
  { unfold MAX_BASE_IMAGE_BYTES, u64_max. lia. }
  destruct o as [[path image]|e|]; [|answers|done]. destruct (Ho path image eq_refl) as (Hpath & Hh & Hl).
  unfold mret at 1, prog_ret at 1. cbv beta iota.
  destruct (resolve_boot_ok fuel (boot config) s1 Hf) as (o & s2 & -> & Hp2 & Hb). destruct o as [r|e|]; [|answers|done].
  eexists _, _. split_and!; [done..|]. intros assets [= <-]. split_and!; [done|by apply Hb|]. exists image. split_and!; [done..|].
  intros offset n Hoff. cbn [as_base_image snd]. rewrite (owned_read_at image offset n Hoff). f_equal.
  apply list_fmap_ext. intros i x Hx. apply lookup_seqZ in Hx as [-> Hi]. unfold image_byte. cbn.
  by replace (offset + Z.of_nat i <? 0) with false by lia.
Qed.
End ResolverOk.

(** ** An example cache *)

(** Files by path; a handle is a file's contents, the state how much of it was
    read; reads give at most three bytes. *)
Definition example_cache : list (string * bytes) :=
  [(("/images/" ++ cache_key (replicate 32 17))%string, [17; 1; 2; 3; 4; 5; 6; 7]);
   (("/images/" ++ cache_key (replicate 32 34))%string, [34; 9]);
   (("/images/" ++ cache_key (replicate 32 51))%string, [51])].
#[local] Instance example_fs : CacheFs bytes nat := {
  fs_open path _ :=
    match List.find (fun f => String.eqb f.1 path) example_cache with Some f => (inr f.2, 0%nat) | None => (inl ENotFound, 0%nat) end;
  fs_metadata file s := (inr (true, Z.of_nat (length file)), s);
  fs_read file s := (inr (take 3 (drop s file)), (s + 3)%nat);
  buf_reserve_exact _ s := (true, s);
  buf_capacity _ := 8 }.
#[local] Instance example_pread : Pread bytes := fun _ _ _ => None.
(** A digest that is enough for an example. *)
#[local] Instance first_byte_hash : Blake3 := fun b => match b with x :: _ => replicate 32 x | [] => [] end.

Definition example_fuel : nat := (20 + Z.to_nat MAX_BASE_IMAGE_BYTES)%nat.
Definition resolves := resolve_create_vm example_fuel "/images" example_config 0%nat.

Lemma resolved_images_verified_witness : exists assets s', resolves = Some (Ok assets, s') /\
  boot_verified (boot example_config) (as_boot assets) /\ read_at (as_base_image assets) 6 4 = Some [6; 7; 0; 0].
Proof.
  assert (match resolves with Some (Ok a, _) => bool_decide (read_at (as_base_image a) 6 4 = Some [6; 7; 0; 0]) | _ => false end = true)
    as Hok by (lazy; reflexivity).
  destruct (resolved_images_verified "/images" example_fuel example_config 0%nat) as (o & s' & Hr & _ & Ha); [unfold example_fuel; lia|].
  fold resolves in Hr. rewrite Hr in Hok. destruct o as [a| |]; try discriminate Hok. exists a, s'. split; [exact Hr|].
  destruct (Ha a eq_refl) as (_ & Hb & _). split; [exact Hb|]. exact (proj1 (bool_decide_eq_true _) Hok).
Defined.
