(* ===== verification/Msr.v ===== *)
(** * The MSR policy: [dh-vmm/src/msr.rs]

    The default-deny filter KVM is given and the fixed answers to denied
    accesses.  The theorem ties the filter to the capture list of
    [vcpu_state.rs]. *)

From S2P Require Import Prelude Lapic.

Definition MSR_SPEC_CTRL : Z := 0x48.
Definition MSR_IA32_TSC : Z := 0x10.
Definition MSR_IA32_PLATFORM_ID : Z := 0x17.
Definition MSR_SMI_COUNT : Z := 0x34.
Definition MSR_IA32_FEATURE_CONTROL : Z := 0x3A.
Definition MSR_IA32_BIOS_SIGN_ID : Z := 0x8B.
Definition MSR_IA32_PLATFORM_INFO : Z := 0xCE.
Definition MSR_IA32_ARCH_CAPABILITIES : Z := 0x10A.
Definition MSR_IA32_MISC_FEATURES_ENABLES : Z := 0x140.
Definition MSR_SYSENTER_CS : Z := 0x174.
Definition MSR_SYSENTER_ESP : Z := 0x175.
Definition MSR_SYSENTER_EIP : Z := 0x176.
Definition MSR_PAT : Z := 0x277.
Definition MSR_IA32_MISC_ENABLE : Z := 0x1A0.
Definition MSR_PPERF : Z := 0x64E.
Definition MSR_EFER : Z := 0xC0000080.
Definition MSR_STAR : Z := 0xC0000081.
Definition MSR_LSTAR : Z := 0xC0000082.
Definition MSR_CSTAR : Z := 0xC0000083.
Definition MSR_SFMASK : Z := 0xC0000084.
Definition MSR_FS_BASE : Z := 0xC0000100.
Definition MSR_GS_BASE : Z := 0xC0000101.
Definition MSR_KERNEL_GS_BASE : Z := 0xC0000102.
Definition MSR_TSC_AUX : Z := 0xC0000103.

Definition ALLOW_RANGES : list (Z * Z) :=
  [(MSR_SPEC_CTRL, 1); (MSR_SYSENTER_CS, 3); (MSR_PAT, 1); (MSR_EFER, 5); (MSR_FS_BASE, 4)].

(** [kvm_msr_filter_range] with both access flags, and its bitmap. *)
Record FilterRange := mkRange { fr_nmsrs : Z; fr_base : Z; fr_bitmap : bytes }.

(** The filter [apply_default_deny_filter] hands to KVM. *)
Definition default_deny_filter : list FilterRange :=
  (fun r : Z * Z => mkRange r.2 r.1 (replicate (Z.to_nat ((r.2 + 7) / 8)) 0xFF)) <$> ALLOW_RANGES.

(** KVM's reading of a default-deny filter: an access passes when a range covers
    it and its bitmap bit is set. *)
Definition range_allows (index : Z) (r : FilterRange) : bool :=
  let i := index - fr_base r in
  (0 <=? i) && (i <? fr_nmsrs r) &&
  Z.testbit (default 0 (fr_bitmap r !! Z.to_nat (i / 8))) (i mod 8).
Definition guest_may_access (index : Z) : bool := existsb (range_allows index) default_deny_filter.

Inductive MsrAction := SupplyValue (v : Z) | AckWrite | InjectGp.
Inductive DeniedMsrClass := LinuxCpuCompat | LapicRequired | Unclassified.

Definition msr_is_lapic (index : Z) : bool :=
  (index =? MSR_IA32_APIC_BASE) || ((MSR_X2APIC_BASE <=? index) && (index <=? MSR_X2APIC_END)).

Definition denied_msr_class (index : Z) (write : bool) : DeniedMsrClass :=
  if msr_is_lapic index then LapicRequired
  else if (negb write && bool_decide (index ∈ [MSR_IA32_PLATFORM_ID; MSR_SMI_COUNT; MSR_IA32_PLATFORM_INFO;
             MSR_IA32_ARCH_CAPABILITIES; MSR_IA32_MISC_ENABLE; MSR_PPERF])) ||
          bool_decide (index ∈ [MSR_IA32_FEATURE_CONTROL; MSR_IA32_BIOS_SIGN_ID; MSR_IA32_MISC_FEATURES_ENABLES])
  then LinuxCpuCompat
  else Unclassified.

Definition on_denied_rdmsr (index : Z) : MsrAction := SupplyValue 0.
Definition on_denied_wrmsr (index : Z) : MsrAction :=
  if index =? MSR_IA32_BIOS_SIGN_ID then AckWrite else InjectGp.

(** [vcpu_state::RESTORE_MSR_LIST]. *)
Definition RESTORE_MSR_LIST : list Z :=
  [MSR_EFER; MSR_STAR; MSR_LSTAR; MSR_CSTAR; MSR_SFMASK; MSR_KERNEL_GS_BASE; MSR_FS_BASE; MSR_GS_BASE;
   MSR_SYSENTER_CS; MSR_SYSENTER_ESP; MSR_SYSENTER_EIP; MSR_PAT; MSR_TSC_AUX; MSR_SPEC_CTRL].

(** The capture list is complete.  The MSRs the filter lets a guest read or
    write are exactly those a capture saves and a restore writes back, each
    once; every other access is answered by the fixed table: reads give 0, and
    writes fault or change nothing. *)
Theorem msr_capture_complete index :
  (guest_may_access index = true <-> index ∈ RESTORE_MSR_LIST) /\ NoDup RESTORE_MSR_LIST /\
  on_denied_rdmsr index = SupplyValue 0 /\
  (on_denied_wrmsr index = InjectGp \/ on_denied_wrmsr index = AckWrite /\ guest_may_access index = false).
Proof.
  assert (guest_may_access index = true <-> index ∈ RESTORE_MSR_LIST) as H.
  { unfold guest_may_access, default_deny_filter, ALLOW_RANGES, range_allows. cbn [fmap list_fmap existsb fst snd fr_base fr_nmsrs fr_bitmap].
    change (Z.to_nat ((1 + 7) / 8)) with 1%nat. change (Z.to_nat ((3 + 7) / 8)) with 1%nat.
    change (Z.to_nat ((5 + 7) / 8)) with 1%nat. change (Z.to_nat ((4 + 7) / 8)) with 1%nat.
    assert (forall base n, 0 < n <= 8 -> (0 <=? index - base) && (index - base <? n) &&
      Z.testbit (default 0 (replicate 1 0xFF !! Z.to_nat ((index - base) / 8))) ((index - base) mod 8) = true
      <-> base <= index < base + n) as Hr.
    { intros base n Hn. rewrite !andb_true_iff. split; [lia|]. intros Hi. split; [lia|].
      rewrite Z.div_small, Z.mod_small by lia. change (Z.testbit 255 (index - base) = true).
      change 255 with (Z.ones 8). apply Z.ones_spec_low. lia. }
    rewrite !orb_true_iff, !Hr by lia. unfold RESTORE_MSR_LIST. rewrite !elem_of_cons, elem_of_nil.
    unfold MSR_SPEC_CTRL, MSR_SYSENTER_CS, MSR_SYSENTER_ESP, MSR_SYSENTER_EIP, MSR_PAT, MSR_EFER, MSR_STAR,
      MSR_LSTAR, MSR_CSTAR, MSR_SFMASK, MSR_FS_BASE, MSR_GS_BASE, MSR_KERNEL_GS_BASE, MSR_TSC_AUX.
    split; [intros; lia|]. intros; lia. }
  split_and!; [exact H|by apply (bool_decide_unpack _)|done|].
  unfold on_denied_wrmsr. destruct (index =? MSR_IA32_BIOS_SIGN_ID) eqn:E; [right|by left].
  split; [done|]. apply Z.eqb_eq in E as ->. reflexivity.
Qed.
