(* ===== verification/Cpuid.v ===== *)
(** * The CPUID table of a guest: [dh-vmm/src/cpuid.rs]

    The mask over the table KVM supports, and the bridge to the sorted leaves
    the machine configuration hashes.  [hidden] lists, leaf by leaf and bit by
    bit, what must not reach a guest; the masks are proved to clear exactly
    those bits, whence the table is blind to the host. *)

From stdpp Require Import sorting.
From S2P Require Import Prelude Vt Reader Config.

(** [kvm_bindings::kvm_cpuid_entry2]. *)
Record kvm_cpuid_entry2 := mkEntry {
  ce_function : Z; ce_index : Z; ce_flags : Z; ce_eax : Z; ce_ebx : Z; ce_ecx : Z; ce_edx : Z }.

Definition L1_ECX_MONITOR : Z := Z.shiftl 1 3.
Definition L1_ECX_TSC_DEADLINE : Z := Z.shiftl 1 24.
Definition L1_ECX_X2APIC : Z := Z.shiftl 1 21.
Definition L1_ECX_PDCM : Z := Z.shiftl 1 15.
Definition L1_ECX_RDRAND : Z := Z.shiftl 1 30.
Definition L1_ECX_FMA : Z := Z.shiftl 1 12.
Definition L1_ECX_XSAVE : Z := Z.shiftl 1 26.
Definition L1_ECX_OSXSAVE : Z := Z.shiftl 1 27.
Definition L1_ECX_AVX : Z := Z.shiftl 1 28.
Definition L1_ECX_F16C : Z := Z.shiftl 1 29.
Definition L1_EDX_TSC : Z := Z.shiftl 1 4.
Definition L1_EDX_TM : Z := Z.shiftl 1 29.
Definition L1_EDX_ACPI : Z := Z.shiftl 1 22.
Definition L7_EBX_RDSEED : Z := Z.shiftl 1 18.
Definition L7_EBX_AVX2 : Z := Z.shiftl 1 5.
Definition ors (l : list Z) : Z := foldr Z.lor 0 l.
Definition L7_EBX_AVX512_GROUP : Z := ors (Z.shiftl 1 <$> [16; 17; 21; 26; 27; 28; 30; 31]).
Definition L7_ECX_WAITPKG : Z := Z.shiftl 1 5.
Definition L7_EDX_ARCH_CAPABILITIES : Z := Z.shiftl 1 29.
Definition L8_1_EDX_RDTSCP : Z := Z.shiftl 1 27.
Definition L8_7_EDX_INVTSC : Z := Z.shiftl 1 8.

(** [x &= !mask] on 32 bits is [Z.ldiff]. *)
Definition zeroed (e : kvm_cpuid_entry2) : kvm_cpuid_entry2 :=
  mkEntry (ce_function e) (ce_index e) (ce_flags e) 0 0 0 0.
Definition mask_entry (e : kvm_cpuid_entry2) : kvm_cpuid_entry2 :=
  let '(mkEntry f i fl a b c d) := e in
  if f =? 1 then
    mkEntry f i fl a (Z.land b 0x00FFFFFF)
      (Z.ldiff c (ors [L1_ECX_MONITOR; L1_ECX_TSC_DEADLINE; L1_ECX_X2APIC; L1_ECX_PDCM; L1_ECX_RDRAND; L1_ECX_FMA;
                       L1_ECX_XSAVE; L1_ECX_OSXSAVE; L1_ECX_AVX; L1_ECX_F16C]))
      (Z.ldiff d (ors [L1_EDX_TSC; L1_EDX_TM; L1_EDX_ACPI]))
  else if f =? 6 then zeroed e
  else if (f =? 7) && (i =? 0) then
    mkEntry f i fl a (Z.ldiff b (ors [L7_EBX_RDSEED; L7_EBX_AVX2; L7_EBX_AVX512_GROUP]))
      (Z.ldiff c L7_ECX_WAITPKG) (Z.ldiff d L7_EDX_ARCH_CAPABILITIES)
  else if f =? 0xD then zeroed e
  else if (f =? 0x15) || (f =? 0x16) then zeroed e
  else if f =? 0x1A then zeroed e
  else if f =? 0xA then zeroed e
  else if (f =? 0xB) || (f =? 0x1F) then zeroed e
  else if f =? 0x80000001 then mkEntry f i fl a b c (Z.ldiff d L8_1_EDX_RDTSCP)
  else if f =? 0x80000007 then mkEntry f i fl a b c (Z.ldiff d L8_7_EDX_INVTSC)
  else e.

Definition paravirt (e : kvm_cpuid_entry2) : bool := (0x40000000 <=? ce_function e) && (ce_function e <? 0x40000100).
Definition mask_in_place (cpuid : list kvm_cpuid_entry2) : list kvm_cpuid_entry2 :=
  mask_entry <$> filter (fun e => negb (paravirt e)) cpuid.

(** [get_supported_cpuid] is the kernel's. *)
Definition masked_cpuid (get_supported_cpuid : outcome Z (list kvm_cpuid_entry2)) : outcome Z (list kvm_cpuid_entry2) :=
  cpuid ← get_supported_cpuid; Ok (mask_in_place cpuid).

(** [sort_by_key] on [(function, index)]: stable, like [merge_sort]. *)
Definition entry_le (a b : kvm_cpuid_entry2) : Prop :=
  ce_function a < ce_function b \/ ce_function a = ce_function b /\ ce_index a <= ce_index b.
#[export] Instance entry_le_dec a b : Decision (entry_le a b).
Proof. unfold entry_le. apply _. Defined.
Definition entry_leaf (e : kvm_cpuid_entry2) : CpuidLeaf :=
  mkLeaf (ce_function e) (ce_index e) (ce_flags e) (ce_eax e) (ce_ebx e) (ce_ecx e) (ce_edx e).
Definition to_leaves (cpuid : list kvm_cpuid_entry2) : list CpuidLeaf := entry_leaf <$> merge_sort entry_le cpuid.
Definition cpuid_table_hash `{!Blake3} (cpuid : list kvm_cpuid_entry2) : bytes := cpuid_leaves_hash (to_leaves cpuid).

(** ** What a guest must not see *)

Inductive Reg := EAX | EBX | ECX | EDX.
Definition reg (r : Reg) (e : kvm_cpuid_entry2) : Z :=
  match r with EAX => ce_eax e | EBX => ce_ebx e | ECX => ce_ecx e | EDX => ce_edx e end.
Definition key (e : kvm_cpuid_entry2) : Z * Z := (ce_function e, ce_index e).
Definition entry_typed (e : kvm_cpuid_entry2) : Prop := forall r, 0 <= reg r e < 2 ^ 32.

Definition all_bits : list Z := seqZ 0 32.
Definition hidden (f i : Z) (r : Reg) : list Z :=
  if existsb (Z.eqb f) [6; 0xD; 0x15; 0x16; 0x1A; 0xA; 0xB; 0x1F] then all_bits
  else match r with
       | EAX => []
       | EBX => if f =? 1 then seqZ 24 8
                else if (f =? 7) && (i =? 0) then [5; 16; 17; 18; 21; 26; 27; 28; 30; 31] else []
       | ECX => if f =? 1 then [3; 12; 15; 21; 24; 26; 27; 28; 29; 30]
                else if (f =? 7) && (i =? 0) then [5] else []
       | EDX => if f =? 1 then [4; 22; 29]
                else if (f =? 7) && (i =? 0) then [29]
                else if f =? 0x80000001 then [27] else if f =? 0x80000007 then [8] else []
       end.

(** Two entries a guest cannot tell apart. *)
Definition alike (e e' : kvm_cpuid_entry2) : Prop :=
  key e = key e' /\ ce_flags e = ce_flags e' /\
  forall r n, 0 <= n < 32 -> n ∉ hidden (ce_function e) (ce_index e) r -> Z.testbit (reg r e) n = Z.testbit (reg r e') n.

Lemma clear_bits x m (l : list Z) n : 0 <= x < 2 ^ 32 -> 0 <= n ->
  forallb (fun k => eqb (Z.testbit m k) (bool_decide (k ∈ l))) all_bits = true ->
  Z.testbit (Z.ldiff x m) n = Z.testbit x n && bool_decide (n ∉ l).
Proof.
  intros Hx Hn Hm. rewrite Z.ldiff_spec. destruct (Z_lt_dec n 32) as [Hlt|Hge].
  - rewrite forallb_forall in Hm. specialize (Hm n). rewrite <- list_elem_of_In in Hm.
    rewrite eqb_true_iff in Hm. rewrite Hm by (apply elem_of_seqZ; lia). f_equal. by rewrite <- bool_decide_not.
  - by rewrite (testbit_above x 32) by lia.
Qed.

Lemma keep_bits x n : Z.testbit x n = Z.testbit x n && bool_decide (n ∉ ([] : list Z)).
Proof. rewrite bool_decide_true by apply not_elem_of_nil. by rewrite andb_true_r. Qed.
Lemma low_bits x n : 0 <= x < 2 ^ 32 -> 0 <= n ->
  Z.testbit (Z.land x 0x00FFFFFF) n = Z.testbit x n && bool_decide (n ∉ seqZ 24 8).
Proof.
  intros Hx Hn. change 0x00FFFFFF with (Z.ones 24). rewrite Z.land_spec. destruct (Z_lt_dec n 32) as [Hlt|Hge].
  - f_equal. destruct (Z_lt_dec n 24).
    + rewrite Z.ones_spec_low by lia. symmetry. apply bool_decide_eq_true. rewrite elem_of_seqZ. lia.
    + rewrite Z.ones_spec_high by lia. symmetry. apply bool_decide_eq_false. rewrite elem_of_seqZ. lia.
  - by rewrite (testbit_above x 32) by lia.
Qed.
Lemma no_bits x n : 0 <= x < 2 ^ 32 -> 0 <= n -> Z.testbit 0 n = Z.testbit x n && bool_decide (n ∉ all_bits).
Proof.
  intros Hx Hn. rewrite Z.bits_0. destruct (Z_lt_dec n 32) as [Hlt|Hge].
  - rewrite bool_decide_false; [by rewrite andb_false_r|]. intros H. apply H, elem_of_seqZ. lia.
  - by rewrite (testbit_above x 32) by lia.
Qed.

Ltac mask_reg := first [apply keep_bits | by apply no_bits | by apply low_bits | apply clear_bits; [done..|vm_compute; reflexivity]].
Lemma mask_bits e r n : entry_typed e -> 0 <= n ->
  Z.testbit (reg r (mask_entry e)) n = Z.testbit (reg r e) n && bool_decide (n ∉ hidden (ce_function e) (ce_index e) r).
Proof.
  intros Ht Hn. specialize (Ht r). destruct e as [f i fl a b c d].
  unfold mask_entry, zeroed, hidden. cbn [existsb ce_function ce_index] in *.
  repeat match goal with |- context [f =? ?k] => destruct (Z.eqb_spec f k) as [->|_] end;
    try destruct (i =? 0); destruct r; cbn -[Z.testbit Z.land Z.ldiff all_bits seqZ ors] in *.
  all: mask_reg.
Qed.

Lemma mask_keeps_key e : key (mask_entry e) = key e /\ ce_flags (mask_entry e) = ce_flags e.
Proof. destruct e. unfold mask_entry, zeroed. repeat case_match; by subst. Qed.
Lemma entry_ext e e' : key e = key e' -> ce_flags e = ce_flags e' -> (forall r, reg r e = reg r e') -> e = e'.
Proof.
  destruct e, e'. intros Hk Hf Hr. pose proof (Hr EAX). pose proof (Hr EBX). pose proof (Hr ECX). pose proof (Hr EDX).
  unfold key in *. cbn in *. congruence.
Qed.

Lemma mask_alike e e' : entry_typed e -> entry_typed e' -> alike e e' -> mask_entry e = mask_entry e'.
Proof.
  intros Ht Ht' (Hk & Hf & Hb). destruct (mask_keeps_key e) as [Hk1 Hf1], (mask_keeps_key e') as [Hk2 Hf2].
  apply entry_ext; [congruence..|]. intros r. apply Z.bits_inj'. intros n Hn. rewrite !mask_bits by done.
  assert (ce_function e = ce_function e' /\ ce_index e = ce_index e') as [<- <-] by (unfold key in Hk; by simplify_eq).
  case_bool_decide; [|by rewrite !andb_false_r]. rewrite !andb_true_r. destruct (Z_lt_dec n 32); [by apply Hb|].
  by rewrite !(testbit_above _ 32) by (done || lia).
Qed.

Lemma mask_table_alike t t' : Forall entry_typed t -> Forall entry_typed t' -> Forall2 alike t t' ->
  mask_in_place t = mask_in_place t'.
Proof.
  unfold mask_in_place. intros Ht Ht' HF. induction HF as [|e e' t t' He HF IH]; [done|].
  apply Forall_cons in Ht as [H Ht], Ht' as [H' Ht']. specialize (IH Ht Ht').
  assert (paravirt e = paravirt e') as Hp by (destruct He as (Hk & _); unfold key, paravirt in *; by simplify_eq; rewrite H0).
  rewrite !filter_cons, Hp. case_decide; cbn; [|done]. by rewrite IH, (mask_alike e e').
Qed.

#[local] Instance entry_le_total : Total entry_le.
Proof. intros a b. unfold entry_le. lia. Qed.
#[local] Instance entry_le_trans : Transitive entry_le.
Proof. intros a b c. unfold entry_le. lia. Qed.

(** Entries with distinct keys sort to one list, strictly increasing. *)
Lemma sort_entries t t' : t ≡ₚ t' -> NoDup (key <$> t) -> merge_sort entry_le t = merge_sort entry_le t'.
Proof.
  intros Hp Hn. apply (StronglySorted_unique_strong entry_le); [|apply StronglySorted_merge_sort; apply _..|by rewrite !merge_sort_Permutation].
  intros x y Hx Hy Hxy Hyx. rewrite (merge_sort_Permutation entry_le) in Hx, Hy. rewrite <- Hp in Hy.
  apply list_elem_of_lookup in Hx as [i Hi], Hy as [j Hj]. assert (i = j) as ->; [|congruence].
  assert (key x = key y) as Hk by (unfold entry_le, key in *; f_equal; lia).
  apply (NoDup_lookup _ _ _ (key x) Hn); rewrite list_lookup_fmap; [by rewrite Hi|by rewrite Hj, Hk].
Qed.
Lemma sorted_leaves l : StronglySorted entry_le l -> NoDup (key <$> l) -> sorted_by leaf_lt (entry_leaf <$> l) = true.
Proof.
  induction l as [|e [|e' l] IH]; [done..|]. intros Hs Hn. apply StronglySorted_inv in Hs as [Hs He].
  rewrite fmap_cons in Hn. apply NoDup_cons in Hn as [Hnk Hn].
  change (leaf_lt (entry_leaf e) (entry_leaf e') && sorted_by leaf_lt (entry_leaf <$> e' :: l) = true).
  rewrite IH, andb_true_r by done. apply Forall_cons in He as [He _].
  assert (key e <> key e') as Hk by (intros Hk; apply Hnk; rewrite Hk; left). unfold leaf_lt, entry_leaf, entry_le, key in *. cbn.
  destruct (Z.eq_dec (ce_function e) (ce_function e')) as [Hf|]; [|lia].
  assert (ce_index e <> ce_index e') by (intros Hi; apply Hk; by rewrite Hf, Hi). lia.
Qed.

Lemma masked_keys t : NoDup (key <$> t) -> NoDup (key <$> mask_in_place t).
Proof.
  intros Hn. assert (key <$> mask_in_place t = key <$> filter (fun e => negb (paravirt e)) t) as ->.
  { unfold mask_in_place. rewrite <- list_fmap_compose. apply list_fmap_ext. intros ? e _. apply mask_keeps_key. }
  eapply sublist_NoDup; [exact Hn|]. apply fmap_sublist, sublist_filter.
Qed.

(** The guest's CPUID table is blind to the host.  Two supported tables that
    list the same leaves in any order and differ only in the hidden bits (the
    host-clocked, entropy, topology, thermal, power-management and XSAVE
    surfaces) give the same leaves and the same hash; the masked leaves keep
    every other bit and no paravirtual leaf, and are strictly sorted, which is
    the order the machine configuration accepts. *)
Theorem cpuid_host_blind `{!Blake3} (t t' u : list kvm_cpuid_entry2) :
  NoDup (key <$> t) -> Forall entry_typed t -> Forall entry_typed t' -> t' ≡ₚ u -> Forall2 alike t u ->
  cpuid_table_hash (mask_in_place t) = cpuid_table_hash (mask_in_place t') /\
  to_leaves (mask_in_place t) = to_leaves (mask_in_place t') /\
  sorted_by leaf_lt (to_leaves (mask_in_place t)) = true /\
  (forall e, e ∈ t -> paravirt e = false -> mask_entry e ∈ mask_in_place t /\ forall r n, 0 <= n ->
     Z.testbit (reg r (mask_entry e)) n = Z.testbit (reg r e) n && bool_decide (n ∉ hidden (ce_function e) (ce_index e) r)) /\
  (forall e, e ∈ mask_in_place t -> paravirt e = false).
Proof.
  intros Hn Ht Ht' Hp HF.
  assert (to_leaves (mask_in_place t) = to_leaves (mask_in_place t')) as Hl.
  { unfold to_leaves. f_equal. rewrite (mask_table_alike t u); [|done|by rewrite <- Hp|done].
    apply sort_entries; [by unfold mask_in_place; rewrite Hp|].
    rewrite <- (mask_table_alike t u); [|done|by rewrite <- Hp|done]. by apply masked_keys. }
  split; [unfold cpuid_table_hash; by rewrite Hl|]. split; [done|]. split; [|split].
  - apply sorted_leaves; [apply StronglySorted_merge_sort; apply _|]. rewrite merge_sort_Permutation. by apply masked_keys.
  - intros e He Hpv. split; [|intros r n; apply mask_bits; rewrite Forall_forall in Ht; by apply Ht].
    apply list_elem_of_fmap_2, list_elem_of_filter. by rewrite Hpv.
  - intros e He. apply list_elem_of_fmap in He as (e0 & -> & He). apply list_elem_of_filter in He as [He _].
    destruct (mask_keeps_key e0) as [Hk _]. unfold paravirt, key in *. simplify_eq. rewrite H0. by destruct (_ && _).
Qed.

Lemma alike_bits x y (l : list Z) :
  forallb (fun n => bool_decide (n ∈ l) || eqb (Z.testbit x n) (Z.testbit y n)) all_bits = true ->
  forall n, n ∈ all_bits -> n ∉ l -> Z.testbit x n = Z.testbit y n.
Proof.
  intros H n Hn Hl. rewrite forallb_forall in H. apply list_elem_of_In in Hn. apply H in Hn.
  rewrite bool_decide_false in Hn by done. by apply eqb_prop.
Qed.

(** Two hosts: another initial APIC id, another crystal, the leaves in another order. *)
Definition sum_blake3 : Blake3 := fun b => le_bytes 32 (foldr Z.add 0 b).
Definition host_a : list kvm_cpuid_entry2 := [mkEntry 1 0 0 5 0x03000800 0x40000201 0x10; mkEntry 0x15 0 0 2 216 24000000 0].
Definition host_b : list kvm_cpuid_entry2 := [mkEntry 0x15 0 0 2 302 25000000 0; mkEntry 1 0 0 5 0x07000800 0x201 0].
Lemma cpuid_host_blind_witness :
  cpuid_table_hash (H := sum_blake3) (mask_in_place host_a) = cpuid_table_hash (H := sum_blake3) (mask_in_place host_b).
Proof.
  apply (cpuid_host_blind (H := sum_blake3) host_a host_b [mkEntry 1 0 0 5 0x07000800 0x201 0; mkEntry 0x15 0 0 2 302 25000000 0]).
  - apply (bool_decide_unpack _). vm_compute. exact I.
  - repeat constructor; destruct r; cbn; lia.
  - repeat constructor; destruct r; cbn; lia.
  - apply Permutation_swap.
  - constructor; [|constructor; [|constructor]]; (split; [done|]; split; [done|]); intros r n Hn Hh.
    + assert (n ∈ all_bits) as Hb by (apply elem_of_seqZ; lia). clear Hn. revert n Hb Hh. apply alike_bits. by destruct r.
    + exfalso. apply Hh. cbn. apply elem_of_seqZ. lia.
Defined.
