(* ===== verification/Xsave.v ===== *)
(** * XSAVE canonicalization: [dh-vmm/src/xsave.rs]

    The byte image of an XSAVE area varies for one logical state.  [canonicalize]
    rebuilds it from an allow-list; [logical] is the state an area stands for,
    and the theorem is that canonical images are equal exactly when the logical
    states are. *)

From S2P Require Import Prelude.

Record XsaveComponent := mkComponent { xc_bit : Z; xc_offset : nat; xc_size : nat }.

Inductive XsaveError :=
| TooShort (len : nat)
| ComponentOutOfBounds (bit : Z)
| CompactedFormat.

Definition XSAVE_HEADER_OFFSET : nat := #512.
Definition XSAVE_MIN_LEN : nat := #576.

Definition xstate_bv (area : bytes) : outcome XsaveError Z :=
  if (length area <? XSAVE_MIN_LEN)%nat then Err (TooShort (length area))
  else Ok (of_le (slice XSAVE_HEADER_OFFSET 8 area)).

Definition all_zero (l : bytes) : bool := forallb (fun b => b =? 0) l.

Definition is_x87_init (area : bytes) : bool :=
  bool_decide (slice 0 2 area = [0x7F; 0x03]) && all_zero (slice 2 22 area) && all_zero (slice 32 128 area).

(** The bits whose component is in its init state exactly when its area is zero. *)
Definition ZERO_INIT_BITS : Z :=
  Z.lor (Z.lor (Z.shiftl 1 2) (Z.shiftl 1 5)) (Z.lor (Z.shiftl 1 6) (Z.shiftl 1 7)).

(** The loop over the extended components: the normalized XSTATE_BV and the
    ranges to keep, as (start, length). *)
Fixpoint extended_loop (area : bytes) (bv : Z) (cs : list XsaveComponent) (canon_bv : Z)
    (keep : list (nat * nat)) : outcome XsaveError (Z * list (nat * nat)) :=
  match cs with
  | [] => Ok (canon_bv, keep)
  | c :: cs =>
      if xc_bit c <? 2 then Panic
      else if (length area <? xc_offset c + xc_size c)%nat then Err (ComponentOutOfBounds (xc_bit c))
      else if 64 <=? xc_bit c then Panic
      else
        let mask := Z.shiftl 1 (xc_bit c) in
        if negb (Z.land bv mask =? 0) then
          if negb (Z.land ZERO_INIT_BITS mask =? 0) && all_zero (slice (xc_offset c) (xc_size c) area)
          then extended_loop area bv cs (Z.ldiff canon_bv mask) keep
          else extended_loop area bv cs canon_bv (keep ++ [(xc_offset c, xc_size c)])
        else extended_loop area bv cs canon_bv keep
  end.

(** The area rebuilt from the kept ranges. *)
Definition keep_ranges (area : bytes) (keep : list (nat * nat)) : bytes :=
  foldl (fun canon r => put r.1 (slice r.1 r.2 area) canon) (replicate (length area) 0) keep.

Definition canonicalize (area : bytes) (extended : list XsaveComponent) : outcome XsaveError bytes :=
  bv ← xstate_bv area;
  let xcomp_bv := of_le (slice #520 8 area) in
  if negb (Z.shiftr xcomp_bv 63 =? 0) then Err CompactedFormat
  else
    let canon_bv := if negb (Z.land bv 1 =? 0) && is_x87_init area then Z.ldiff bv 1 else bv in
    let canon_bv :=
      if negb (Z.land bv 2 =? 0) && all_zero (slice #160 #256 area) then Z.ldiff canon_bv 2 else canon_bv in
    let keep := [(24, 8)]%nat in
    let keep := if negb (Z.land canon_bv 1 =? 0) then keep ++ [(0, 24); (32, #128)]%nat else keep in
    let keep := if negb (Z.land canon_bv 2 =? 0) then keep ++ [(#160, #256)] else keep in
    r ← extended_loop area bv extended canon_bv keep;
    let '(canon_bv, keep) := (r : Z * list (nat * nat)) in
    Ok (put #520 (le_bytes 8 0) (put #512 (le_bytes 8 canon_bv) (keep_ranges area keep))).

(** [host_component_layout]: the table of CPUID leaf 0xD, a parameter; [cpuid]
    returns (eax, ebx, edx). *)
Definition host_component_layout (cpuid : Z -> Z -> Z * Z * Z) : list XsaveComponent :=
  let '(eax, _, edx) := cpuid 0xD 0 in
  let supported := Z.lor eax (Z.shiftl edx 32) in
  omap (fun bit =>
    if Z.land supported (Z.shiftl 1 bit) =? 0 then None
    else
      let '(size, offset, _) := cpuid 0xD bit in
      if size =? 0 then None else Some (mkComponent bit (Z.to_nat offset) (Z.to_nat size)))
    (seqZ 2 62).

(** ** The logical state *)

(** A component's state: [None] when it is in its init state, that is when its
    bit is clear or, where the source knows the init pattern, its area shows it. *)
Definition x87_state (a : bytes) : option (bytes * bytes) :=
  if Z.testbit (of_le (slice #512 8 a)) 0 && negb (is_x87_init a)
  then Some (slice 0 24 a, slice 32 #128 a) else None.
Definition sse_state (a : bytes) : option bytes :=
  if Z.testbit (of_le (slice #512 8 a)) 1 && negb (all_zero (slice #160 #256 a))
  then Some (slice #160 #256 a) else None.
Definition ext_state (a : bytes) (c : XsaveComponent) : option bytes :=
  if Z.testbit (of_le (slice #512 8 a)) (xc_bit c) &&
     negb (Z.testbit ZERO_INIT_BITS (xc_bit c) && all_zero (slice (xc_offset c) (xc_size c) a))
  then Some (slice (xc_offset c) (xc_size c) a) else None.
(** The bits of XSTATE_BV that no area of the table belongs to. *)
Definition other_bits (a : bytes) (cs : list XsaveComponent) : Z :=
  foldl Z.clearbit (of_le (slice #512 8 a)) (0 :: 1 :: (xc_bit <$> cs)).

Record XsaveState := mkXsaveState {
  xs_mxcsr : bytes; xs_x87 : option (bytes * bytes); xs_sse : option bytes;
  xs_ext : list (option bytes); xs_other : Z }.
Definition logical (cs : list XsaveComponent) (a : bytes) : XsaveState :=
  mkXsaveState (slice 24 8 a) (x87_state a) (sse_state a) (ext_state a <$> cs) (other_bits a cs).

(** ** Bits *)

Lemma ldiff_bit a k : 0 <= k -> Z.ldiff a (Z.shiftl 1 k) = Z.clearbit a k.
Proof. intros. by rewrite Z.shiftl_1_l, Z.clearbit_spec'. Qed.

Lemma testbit_clear_all l z i :
  0 <= i -> Z.testbit (foldl Z.clearbit z l) i = Z.testbit z i && negb (bool_decide (i ∈ l)).
Proof.
  intros Hi. revert z. induction l as [|k l IH]; intros z; cbn [foldl].
  - by rewrite andb_true_r.
  - rewrite IH, Z.clearbit_eqb by done. destruct (Z.testbit z i); [|done]. cbn.
    destruct (Z.eqb_spec k i) as [->|]; cbn; f_equal; case_bool_decide; case_bool_decide; set_solver.
Qed.

(** ** The canonical XSTATE_BV *)

Definition isSome {A} (o : option A) : bool := match o with Some _ => true | None => false end.

(** The bits the normalization clears. *)
Definition normal (a : bytes) (c : XsaveComponent) : bool :=
  Z.testbit (of_le (slice #512 8 a)) (xc_bit c) &&
  (Z.testbit ZERO_INIT_BITS (xc_bit c) && all_zero (slice (xc_offset c) (xc_size c) a)).
Definition cleared (a : bytes) (cs : list XsaveComponent) : list Z :=
  let bv := of_le (slice #512 8 a) in
  (if Z.testbit bv 0 && is_x87_init a then [0] else []) ++
  (if Z.testbit bv 1 && all_zero (slice #160 #256 a) then [1] else []) ++
  (xc_bit <$> List.filter (normal a) cs).
Definition canon_bits (a : bytes) (cs : list XsaveComponent) : Z :=
  foldl Z.clearbit (of_le (slice #512 8 a)) (cleared a cs).

(** The bit of a component in a logical state. *)
Definition state_bit (cs : list XsaveComponent) (L : XsaveState) (i : Z) : bool :=
  if i =? 0 then isSome (xs_x87 L)
  else if i =? 1 then isSome (xs_sse L)
  else match list_find (fun c => xc_bit c = i) cs with
       | Some (k, _) => isSome (default None (xs_ext L !! k))
       | None => Z.testbit (xs_other L) i
       end.

(** A component table of the standard format, for areas of [len] bytes. *)
Definition component_ok (len : nat) (c : XsaveComponent) : Prop :=
  2 <= xc_bit c < 64 /\ (#576 <= xc_offset c)%nat /\ (xc_offset c + xc_size c <= len)%nat.
Definition layout_ok (len : nat) (cs : list XsaveComponent) : Prop :=
  Forall (component_ok len) cs /\ NoDup (xc_bit <$> cs).

Lemma elem_of_cleared_ext a cs c :
  NoDup (xc_bit <$> cs) -> c ∈ cs -> (xc_bit c ∈ xc_bit <$> List.filter (normal a) cs <-> normal a c = true).
Proof.
  intros Hnd Hc. rewrite list_elem_of_fmap. split.
  - intros (c' & Heq & Hc'). apply elem_of_bfilter in Hc' as [Hc' Hn].
    apply list_elem_of_lookup in Hc as [i Hi]. apply list_elem_of_lookup in Hc' as [j Hj].
    assert (i = j) as ->; [|congruence].
    eapply NoDup_lookup; [exact Hnd| |]; rewrite list_lookup_fmap; [by rewrite Hi|by rewrite Hj, Heq].
  - intros Hn. exists c. split; [done|]. by apply elem_of_bfilter.
Qed.

Lemma canon_bits_spec len a cs i :
  layout_ok len cs -> 0 <= i -> Z.testbit (canon_bits a cs) i = state_bit cs (logical cs a) i.
Proof.
  intros [Hok Hnd] Hi. unfold canon_bits, state_bit. rewrite testbit_clear_all by done.
  rewrite Forall_forall in Hok.
  assert (forall b, b ∈ xc_bit <$> List.filter (normal a) cs -> 2 <= b) as Hge.
  { intros b (c & -> & Hc)%list_elem_of_fmap. apply elem_of_bfilter in Hc as [Hc _]. by apply Hok. }
  unfold cleared. set (bv := of_le _).
  destruct (Z.eqb_spec i 0) as [->|H0]; [|destruct (Z.eqb_spec i 1) as [->|H1]].
  - cbn [xs_x87 logical]. unfold x87_state. fold bv. destruct (Z.testbit bv 0) eqn:Hb; [|done]. cbn [andb].
    case_bool_decide as Hin; destruct (is_x87_init a); cbn; try done; exfalso.
    + rewrite !elem_of_app in Hin. destruct Hin as [Hin|[Hin|Hin]]; [set_solver| |apply Hge in Hin; lia].
      destruct (Z.testbit bv 1 && _); set_solver.
    + apply Hin. set_solver.
  - cbn [xs_sse logical]. unfold sse_state. fold bv. destruct (Z.testbit bv 1) eqn:Hb; [|done]. cbn [andb].
    case_bool_decide as Hin; destruct (all_zero _); cbn; try done; exfalso.
    + rewrite !elem_of_app in Hin. destruct Hin as [Hin|[Hin|Hin]]; [|set_solver|apply Hge in Hin; lia].
      destruct (Z.testbit bv 0 && _); set_solver.
    + apply Hin. destruct (Z.testbit bv 0 && _); set_solver.
  - assert (i ∈ (if Z.testbit bv 0 && is_x87_init a then [0] else []) ++
      (if Z.testbit bv 1 && all_zero (slice #160 #256 a) then [1] else []) ++
      (xc_bit <$> List.filter (normal a) cs) <-> i ∈ xc_bit <$> List.filter (normal a) cs) as Hin.
    { rewrite !elem_of_app. destruct (Z.testbit bv 0 && _), (Z.testbit bv 1 && _); set_solver. }
    rewrite (bool_decide_ext _ _ Hin). clear Hin.
    destruct (list_find _ cs) as [[k c]|] eqn:Hf.
    + apply list_find_Some in Hf as (Hk & <- & _). cbn [xs_ext logical].
      rewrite list_lookup_fmap, Hk. cbn [fmap option_fmap option_map default from_option id].
      assert (c ∈ cs) as Hc by (by eapply list_elem_of_lookup_2).
      rewrite (bool_decide_ext _ _ (elem_of_cleared_ext a cs c Hnd Hc)).
      unfold ext_state, normal. fold bv. destruct (Z.testbit bv (xc_bit c)); [|done]. cbn [andb].
      by destruct (_ && all_zero _).
    + apply list_find_None in Hf. rewrite Forall_forall in Hf. cbn [xs_other logical].
      unfold other_bits. rewrite testbit_clear_all by done. fold bv. f_equal. f_equal.
      rewrite !bool_decide_eq_false_2; [done| |].
      * rewrite !elem_of_cons. intros [?|[?|(c & -> & Hc)%list_elem_of_fmap]]; [done..|]. by apply (Hf c).
      * intros (c & -> & Hc)%list_elem_of_fmap. apply elem_of_bfilter in Hc as [Hc _]. by apply (Hf c).
Qed.

(** ** The image of a logical state *)

Definition pieces (cs : list XsaveComponent) (L : XsaveState) : list (nat * bytes) :=
  [(24%nat, xs_mxcsr L)] ++
  match xs_x87 L with Some (lo, hi) => [(0%nat, lo); (32%nat, hi)] | None => [] end ++
  match xs_sse L with Some b => [(#160, b)] | None => [] end ++
  omap (fun cb => match cb.2 with Some b => Some (xc_offset cb.1, b) | None => None end) (zip cs (xs_ext L)).
Definition lay (len : nat) (ps : list (nat * bytes)) : bytes :=
  foldl (fun canon p => put p.1 p.2 canon) (replicate len 0) ps.
Definition rebuild (len : nat) (cs : list XsaveComponent) (L : XsaveState) (nb : Z) : bytes :=
  put #520 (le_bytes 8 0) (put #512 (le_bytes 8 nb) (lay len (pieces cs L))).

Definition kept_range (a : bytes) (c : XsaveComponent) : option (nat * nat) :=
  if isSome (ext_state a c) then Some (xc_offset c, xc_size c) else None.

Lemma extended_loop_spec a cs cb keep :
  Forall (component_ok (length a)) cs ->
  extended_loop a (of_le (slice #512 8 a)) cs cb keep
  = Ok (foldl Z.clearbit cb (xc_bit <$> List.filter (normal a) cs), keep ++ omap (kept_range a) cs).
Proof.
  intros H. revert cb keep. induction H as [|c cs (Hb & Ho & Hs) _ IH]; intros cb keep;
    cbn [extended_loop List.filter omap list_omap fmap list_fmap foldl].
  { by rewrite app_nil_r. }
  replace (xc_bit c <? 2) with false by lia. replace (_ <? _)%nat with false by lia.
  replace (64 <=? xc_bit c) with false by lia. cbv zeta. rewrite !land_bit, ldiff_bit by lia.
  assert (kept_range a c = if Z.testbit (of_le (slice #512 8 a)) (xc_bit c) && negb (normal a c)
    then Some (xc_offset c, xc_size c) else None) as Hk.
  { unfold kept_range, ext_state, normal. destruct (Z.testbit _ _); [|done]. cbn [andb].
    by destruct (_ && all_zero _). }
  rewrite Hk. assert (Z.testbit ZERO_INIT_BITS (xc_bit c) && all_zero (slice (xc_offset c) (xc_size c) a) = normal a c
    \/ Z.testbit (of_le (slice #512 8 a)) (xc_bit c) = false /\ normal a c = false) as [->|[-> ->]].
  { unfold normal. destruct (Z.testbit (of_le _) _); [by left|by right]. }
  - destruct (normal a c) eqn:En; rewrite !IH; cbn [andb negb].
    + rewrite andb_false_r. unfold normal in En. apply andb_true_iff in En as [-> _]. done.
    + rewrite andb_true_r. destruct (Z.testbit _ _); [by rewrite <- app_assoc|done].
  - by rewrite IH.
Qed.

Lemma keep_ranges_lay a keep :
  keep_ranges a keep = lay (length a) ((fun r => (r.1, slice r.1 r.2 a)) <$> keep).
Proof.
  unfold keep_ranges, lay. generalize (replicate (length a) 0).
  induction keep as [|r keep IH]; intros acc; [done|]. cbn [foldl fmap list_fmap fst snd]. apply IH.
Qed.

Lemma kept_pieces a cs :
  (fun r => (r.1, slice r.1 r.2 a)) <$> omap (kept_range a) cs
  = omap (fun cb => match cb.2 with Some b => Some (xc_offset cb.1, b) | None => None end)
      (zip cs (ext_state a <$> cs)).
Proof.
  induction cs as [|c cs IH]; [done|]. cbn [omap list_omap fmap list_fmap zip zip_with fst snd].
  unfold kept_range at 1. destruct (ext_state a c) as [b|] eqn:E; cbn [isSome]; [|exact IH].
  cbn [fmap list_fmap fst snd]. f_equal; [|exact IH]. f_equal.
  unfold ext_state in E. case_match; by simplify_eq.
Qed.

(** An area canonicalization accepts. *)
Definition area_ok (a : bytes) : Prop :=
  (#576 <= length a)%nat /\ Z.shiftr (of_le (slice #520 8 a)) 63 = 0.

Lemma canonicalize_spec a cs :
  layout_ok (length a) cs -> area_ok a ->
  canonicalize a cs = Ok (rebuild (length a) cs (logical cs a) (canon_bits a cs)).
Proof.
  intros [Hok Hnd] [Hlen Hx]. unfold canonicalize, xstate_bv, XSAVE_MIN_LEN, XSAVE_HEADER_OFFSET.
  replace (_ <? _)%nat with false by lia. cbn [mbind outcome_bind]. rewrite Hx. cbn [Z.eqb negb].
  cbv zeta. change 1 with (Z.shiftl 1 0). change 2 with (Z.shiftl 1 1). rewrite !land_bit, !ldiff_bit by lia.
  rewrite extended_loop_spec by done. cbn [mbind outcome_bind]. unfold rebuild, canon_bits, cleared.
  rewrite keep_ranges_lay, !fmap_app, kept_pieces, !foldl_app. unfold pieces. cbn [xs_mxcsr xs_x87 xs_sse xs_ext logical].
  unfold x87_state, sse_state. set (bv := of_le (slice #512 8 a)).
  assert (forall z, Z.testbit (Z.clearbit z 0) 0 = false) as H00 by (intros; by rewrite Z.clearbit_eq).
  assert (forall z, Z.testbit (Z.clearbit z 1) 1 = false) as H11 by (intros; by rewrite Z.clearbit_eq).
  assert (forall z, Z.testbit (Z.clearbit z 0) 1 = Z.testbit z 1) as H01 by (intros; by rewrite Z.clearbit_neq).
  assert (forall z, Z.testbit (Z.clearbit z 1) 0 = Z.testbit z 0) as H10 by (intros; by rewrite Z.clearbit_neq).
  destruct (Z.testbit bv 0) eqn:Hb0, (is_x87_init a), (Z.testbit bv 1) eqn:Hb1, (all_zero (slice #160 #256 a));
    cbn [andb negb]; rewrite ?H00, ?H01, ?H11, ?H10, ?Hb0, ?Hb1, ?H00, ?H01; cbn [foldl];
    rewrite <- ?app_assoc; try reflexivity.
Qed.

(** ** Reading the image back *)

Lemma lookup_put {A} o (s d : list A) i :
  (o + length s <= length d)%nat ->
  put o s d !! i = if (o <=? i)%nat && (i <? o + length s)%nat then s !! (i - o)%nat else d !! i.
Proof.
  intros H. unfold put. destruct (decide (i < o)%nat).
  - rewrite lookup_app_l by (rewrite length_take; lia). rewrite lookup_take_lt by done.
    by replace (o <=? i)%nat with false by lia.
  - rewrite lookup_app_r by (rewrite length_take; lia). rewrite length_take, Nat.min_l by lia.
    replace (o <=? i)%nat with true by lia. cbn [andb]. destruct (decide (i < o + length s)%nat).
    + rewrite lookup_app_l by lia. by replace (i <? _)%nat with true by lia.
    + rewrite lookup_app_r, lookup_drop by lia. replace (i <? _)%nat with false by lia. f_equal. lia.
Qed.

Lemma lookup_slice {A} o n (l : list A) i : slice o n l !! i = if (i <? n)%nat then l !! (o + i)%nat else None.
Proof.
  unfold slice. destruct (decide (i < n)%nat).
  - rewrite lookup_take_lt, lookup_drop by done. by replace (i <? n)%nat with true by lia.
  - rewrite lookup_take_ge by lia. by replace (i <? n)%nat with false by lia.
Qed.

Lemma slice_ext {A} o n (l l' : list A) :
  (forall i, (o <= i < o + n)%nat -> l !! i = l' !! i) -> slice o n l = slice o n l'.
Proof.
  intros H. apply list_eq. intros i. rewrite !lookup_slice. destruct (i <? n)%nat eqn:E; [|done]. apply H. lia.
Qed.

(** A piece of [a], at its own place. *)
Definition piece_of (a : bytes) (p : nat * bytes) : Prop :=
  p.2 = slice p.1 (length p.2) a /\ (p.1 + length p.2 <= length a)%nat.

Lemma lay_spec a ps : Forall (piece_of a) ps ->
  length (lay (length a) ps) = length a /\
  forall p i, p ∈ ps -> (p.1 <= i < p.1 + length p.2)%nat -> lay (length a) ps !! i = a !! i.
Proof.
  induction ps as [|q ps IH] using rev_ind; intros H.
  { split; [apply length_replicate|]. intros p i Hp. by apply not_elem_of_nil in Hp. }
  apply Forall_app in H as [H Hq]. apply Forall_cons_1 in Hq as [[Hq1 Hq2] _]. destruct (IH H) as [Hl IH'].
  unfold lay in *. rewrite foldl_app. cbn [foldl]. split; [rewrite length_put; lia|].
  intros p i Hp Hi. rewrite lookup_put by lia.
  destruct ((q.1 <=? i)%nat && (i <? q.1 + length q.2)%nat) eqn:E.
  - rewrite Hq1, lookup_slice. replace (_ <? _)%nat with true by lia. f_equal. lia.
  - apply elem_of_app in Hp as [Hp|Hp%list_elem_of_singleton]; [by eapply IH'|]. subst p. lia.
Qed.

Section readback.
Context (a : bytes) (cs : list XsaveComponent).
Context (Hok : layout_ok (length a) cs) (Ha : area_ok a) (Hb : bytes_ok a).
Let L := logical cs a.
Let c := rebuild (length a) cs L (canon_bits a cs).

Lemma pieces_of : Forall (piece_of a) (pieces cs L).
Proof.
  destruct Hok as [Hc _], Ha as [Hlen _]. unfold pieces, L, logical. cbn [xs_mxcsr xs_x87 xs_sse xs_ext].
  assert (forall o n, (o + n <= length a)%nat -> piece_of a (o, slice o n a)) as Hp.
  { intros o n H. unfold piece_of. cbn [fst snd]. rewrite length_slice by lia. split; [done|lia]. }
  repeat apply Forall_app_2.
  - apply Forall_singleton. apply Hp. lia.
  - unfold x87_state. destruct (_ && _); [|constructor]. repeat constructor; apply Hp; lia.
  - unfold sse_state. destruct (_ && _); [|constructor]. repeat constructor; apply Hp; lia.
  - apply Forall_forall. intros p Hin. apply list_elem_of_omap in Hin as ([x o] & Hx & Ho).
    cbn [fst snd] in Ho. destruct o as [b|]; [|done]. injection Ho as <-.
    apply elem_of_zip_l in Hx as Hx1. rewrite Forall_forall in Hc. destruct (Hc x Hx1) as (_ & _ & Hend).
    assert (ext_state a x = Some b) as He.
    { apply list_elem_of_lookup in Hx as [k Hk]. apply lookup_zip_Some in Hk as [Hk1 Hk2].
      rewrite list_lookup_fmap, Hk1 in Hk2. by injection Hk2. }
    unfold ext_state in He. case_match; [|done]. injection He as <-. by apply Hp.
Qed.

Lemma canon_bits_u64 : u64 (canon_bits a cs).
Proof.
  destruct Ha as [Hlen _]. pose proof (of_le_slice_bound #512 8 a Hb ltac:(lia)) as Hbv.
  assert (forall l z, u64 z -> u64 (foldl Z.clearbit z l)) as Hcl; [|by apply Hcl].
  induction l as [|k l IH]; intros z Hz; [done|]. cbn [foldl]. apply IH.
  rewrite Z.clearbit_spec'. unfold u64 in *.
  assert (0 <= Z.ldiff z (2 ^ k)) by (apply Z.ldiff_nonneg; left; lia). split; [done|].
  apply Z.bounded_iff_bits_nonneg; [lia..|]. intros j Hj. rewrite Z.ldiff_spec.
  rewrite (proj1 (Z.bounded_iff_bits_nonneg 64 z ltac:(lia) ltac:(lia))) by lia. done.
Qed.

Lemma length_canonical : length c = length a.
Proof.
  unfold c, rebuild. destruct (lay_spec a _ pieces_of) as [Hl _], Ha as [Hlen _].
  rewrite !length_put; len_rw; rewrite ?length_put; len_rw; lia.
Qed.

Lemma image_header : of_le (slice #512 8 c) = canon_bits a cs /\ of_le (slice #520 8 c) = 0.
Proof.
  destruct (lay_spec a _ pieces_of) as [Hl _], Ha as [Hlen _]. unfold c, rebuild.
  rewrite slice_put_ne by (rewrite ?length_put; len_rw; lia).
  rewrite (slice_put_same #512), (slice_put_same #520) by (rewrite ?length_put; len_rw; lia).
  split; [|done]. apply of_le_u64, canon_bits_u64.
Qed.

(** A range inside a piece and outside the header words reads as in [a]. *)
Lemma image_slice p o n :
  p ∈ pieces cs L -> (p.1 <= o)%nat -> (o + n <= p.1 + length p.2)%nat ->
  (o + n <= #512)%nat \/ (#528 <= o)%nat -> slice o n c = slice o n a.
Proof.
  intros Hp H1 H2 H3. destruct (lay_spec a _ pieces_of) as [Hl Hlk], Ha as [Hlen _].
  apply slice_ext. intros i Hi. unfold c, rebuild.
  rewrite !lookup_put by (rewrite ?length_put; len_rw; lia). rewrite !length_le_bytes.
  replace ((#520 <=? i)%nat && _) with false by lia. replace ((#512 <=? i)%nat && _) with false by lia.
  eapply Hlk; [exact Hp|lia].
Qed.

Lemma canon_bits_ext x : x ∈ cs -> Z.testbit (canon_bits a cs) (xc_bit x) = isSome (ext_state a x).
Proof.
  destruct Hok as [Hc Hnd]. rewrite Forall_forall in Hc. intros Hx. destruct (Hc x Hx) as (Hbit & _).
  rewrite (canon_bits_spec (length a)) by (done || lia). unfold state_bit.
  replace (xc_bit x =? 0) with false by lia. replace (xc_bit x =? 1) with false by lia.
  destruct (list_find _ cs) as [[k y]|] eqn:Hf.
  - apply list_find_Some in Hf as (Hk & Hy & _). cbn [xs_ext logical]. rewrite list_lookup_fmap, Hk.
    cbn [fmap option_fmap option_map default from_option id]. replace y with x; [done|].
    apply list_elem_of_lookup in Hx as [j Hj].
    assert (j = k) as ->; [|congruence].
    eapply NoDup_lookup; [exact Hnd| |]; rewrite list_lookup_fmap; [by rewrite Hj|rewrite Hk; cbn; by rewrite Hy].
  - apply list_find_None in Hf. rewrite Forall_forall in Hf. by destruct (Hf x Hx).
Qed.

Lemma image_x87 : x87_state c = x87_state a.
Proof.
  pose proof image_header as [Hbv _]. unfold x87_state at 1. rewrite Hbv.
  rewrite (canon_bits_spec (length a)) by (done || lia). cbn [state_bit Z.eqb xs_x87 logical].
  destruct (x87_state a) as [[lo hi]|] eqn:E; [|done].
  assert ((0%nat, lo) ∈ pieces cs L /\ (32%nat, hi) ∈ pieces cs L) as [Hlo Hhi].
  { unfold pieces, L, logical. cbn [xs_x87]. rewrite E. set_solver. }
  assert (length lo = 24%nat /\ length hi = #128) as [Hl1 Hl2].
  { destruct Ha as [Hlen _]. unfold x87_state in E. destruct (_ && _); simplify_eq.
    rewrite !length_slice by lia. done. }
  assert (is_x87_init c = is_x87_init a) as ->.
  { unfold is_x87_init. rewrite !(image_slice _ _ _ Hlo) by (cbn; lia).
    by rewrite (image_slice _ _ _ Hhi) by (cbn [fst snd]; lia). }
  rewrite (image_slice _ _ _ Hlo) by (cbn; lia). rewrite (image_slice _ _ _ Hhi) by (cbn [fst snd]; lia).
  unfold x87_state in E. destruct (Z.testbit _ _), (is_x87_init a); cbn in *; by simplify_eq.
Qed.

Lemma image_sse : sse_state c = sse_state a.
Proof.
  pose proof image_header as [Hbv _]. unfold sse_state at 1. rewrite Hbv.
  rewrite (canon_bits_spec (length a)) by (done || lia). cbn [state_bit Z.eqb Pos.eqb xs_sse logical].
  destruct (sse_state a) as [b|] eqn:E; [|done].
  assert ((#160, b) ∈ pieces cs L) as Hp.
  { unfold pieces, L, logical. cbn [xs_sse]. rewrite E. set_solver. }
  assert (length b = #256) as Hl.
  { destruct Ha as [Hlen _]. unfold sse_state in E. destruct (_ && _); simplify_eq. by rewrite length_slice by lia. }
  rewrite (image_slice _ _ _ Hp) by (cbn [fst snd]; lia).
  unfold sse_state in E. destruct (Z.testbit _ _), (all_zero _); cbn in *; by simplify_eq.
Qed.

Lemma image_ext x : x ∈ cs -> ext_state c x = ext_state a x.
Proof.
  intros Hx. pose proof image_header as [Hbv _]. unfold ext_state at 1. rewrite Hbv, canon_bits_ext by done.
  destruct (ext_state a x) as [b|] eqn:E; [|done].
  assert ((xc_offset x, b) ∈ pieces cs L) as Hp.
  { unfold pieces, L, logical. cbn [xs_ext]. rewrite !elem_of_app. do 3 right.
    apply list_elem_of_omap. exists (x, Some b). split; [|done].
    apply list_elem_of_lookup in Hx as [j Hj]. apply list_elem_of_lookup. exists j.
    apply lookup_zip_Some. split; [done|]. by rewrite list_lookup_fmap, Hj, <- E. }
  destruct Hok as [Hc _]. rewrite Forall_forall in Hc. destruct (Hc x Hx) as (? & ? & ?).
  assert (length b = xc_size x) as Hl.
  { unfold ext_state in E. destruct (_ && _); simplify_eq. by rewrite length_slice by lia. }
  rewrite (image_slice _ _ _ Hp) by (cbn [fst snd]; lia).
  unfold ext_state in E. destruct (Z.testbit _ (xc_bit x)), (_ && all_zero _); cbn in *; by simplify_eq.
Qed.

Lemma logical_image : logical cs c = L.
Proof.
  unfold logical at 1. rewrite image_x87, image_sse. unfold L, logical. f_equal.
  - destruct Ha as [Hlen _]. assert ((24%nat, slice 24 8 a) ∈ pieces cs L) as Hp by (unfold pieces; set_solver).
    apply (image_slice _ _ _ Hp); cbn [fst snd]; rewrite ?length_slice; lia.
  - apply list_fmap_ext. intros i x Hx. apply image_ext. by eapply list_elem_of_lookup_2.
  - unfold other_bits. pose proof image_header as [-> _]. apply Z.bits_inj'. intros i Hi.
    rewrite !testbit_clear_all by done. case_bool_decide as Hin; [by rewrite !andb_false_r|].
    rewrite !andb_true_r. rewrite !elem_of_cons in Hin. rewrite (canon_bits_spec (length a)) by done.
    unfold state_bit. replace (i =? 0) with false by (symmetry; apply Z.eqb_neq; tauto).
    replace (i =? 1) with false by (symmetry; apply Z.eqb_neq; tauto).
    destruct (list_find _ cs) as [[k y]|] eqn:Hf.
    + apply list_find_Some in Hf as (Hk & Hy & _). destruct Hin. right. right.
      apply list_elem_of_fmap. exists y. split; [done|]. by eapply list_elem_of_lookup_2.
    + cbn [xs_other logical]. unfold other_bits. rewrite testbit_clear_all by done.
      rewrite bool_decide_eq_false_2; [apply andb_true_r|]. by rewrite !elem_of_cons.
Qed.
End readback.

Lemma canonicalize_accepts a cs c : canonicalize a cs = Ok c -> area_ok a.
Proof.
  unfold canonicalize, xstate_bv, area_ok, XSAVE_MIN_LEN. destruct (_ <? _)%nat eqn:E; [done|].
  cbn [mbind outcome_bind]. destruct (Z.shiftr _ 63 =? 0) eqn:Hx; [|done]. intros _. split; lia.
Qed.

Lemma canon_bits_state cs a a' :
  layout_ok (length a) cs -> length a' = length a -> logical cs a = logical cs a' ->
  canon_bits a cs = canon_bits a' cs.
Proof.
  intros Hok Hlen HL. apply Z.bits_inj'. intros i Hi.
  rewrite (canon_bits_spec (length a)), HL by done. symmetry. by apply (canon_bits_spec (length a)).
Qed.

(** C28: canonicalization decides logical equality.  For areas of one length and
    any component table of the standard format, the canonical images are equal
    exactly when the areas stand for the same state (MXCSR, and each component
    in its init state or with its bytes); canonicalization keeps the state it
    is given and is idempotent. *)
Theorem xsave_canonical_form cs a a' c c' :
  layout_ok (length a) cs -> length a' = length a -> bytes_ok a -> bytes_ok a' ->
  canonicalize a cs = Ok c -> canonicalize a' cs = Ok c' ->
  (c = c' <-> logical cs a = logical cs a') /\ logical cs c = logical cs a /\ canonicalize c cs = Ok c.
Proof.
  intros Hok Hlen Hb Hb' Hc Hc'. pose proof (canonicalize_accepts _ _ _ Hc) as Ha.
  pose proof (canonicalize_accepts _ _ _ Hc') as Ha'.
  assert (layout_ok (length a') cs) as Hok' by (by rewrite Hlen).
  rewrite canonicalize_spec in Hc, Hc' by done. injection Hc as <-. injection Hc' as <-.
  pose proof (logical_image a cs Hok Ha Hb) as HL. pose proof (logical_image a' cs Hok' Ha' Hb') as HL'.
  split_and!; [split|done|].
  - intros Heq. by rewrite <- HL, Heq.
  - intros Heq. rewrite Hlen, Heq. f_equal. by apply canon_bits_state.
  - pose proof (length_canonical a cs Hok Ha) as Hl. rewrite canonicalize_spec.
    + rewrite Hl, HL. do 2 f_equal. apply canon_bits_state; [by rewrite Hl|by rewrite Hl|done].
    + by rewrite Hl.
    + split; [rewrite Hl; apply Ha|]. destruct (image_header a cs Hok Ha Hb) as [_ ->]. done.
Qed.

(** The x87 component in its init state, once with the bit set and the init
    pattern, once with the bit clear and stale bytes. *)
Definition example_area (bv : Z) (x87 : bytes) : bytes :=
  put #576 [1; 2; 3; 4; 5; 6; 7; 8] (put #512 (le_bytes 8 bv) (put 0 x87 (replicate #600 0))).
Definition example_table : list XsaveComponent := [mkComponent 2 #576 8].
Definition canon_of (a : bytes) : bytes :=
  match canonicalize a example_table with Ok c => c | _ => [] end.

Lemma xsave_canonical_form_witness :
  let a := example_area 5 [0x7F; 0x03] in let a' := example_area 4 [9; 9; 9] in
  (canon_of a = canon_of a' <-> logical example_table a = logical example_table a') /\
  logical example_table (canon_of a) = logical example_table a /\
  canonicalize (canon_of a) example_table = Ok (canon_of a).
Proof.
  intros a a'. apply (xsave_canonical_form example_table a a' (canon_of a) (canon_of a')).
  - split; [|repeat constructor; set_solver]. repeat constructor; vm_compute; intuition (lia || discriminate).
  - reflexivity.
  - apply Forall_put; [repeat constructor; unfold u8; lia|].
    apply Forall_put; [apply le_bytes_ok|]. apply Forall_put; [repeat constructor; unfold u8; lia|].
    apply Forall_replicate. unfold u8; lia.
  - apply Forall_put; [repeat constructor; unfold u8; lia|].
    apply Forall_put; [apply le_bytes_ok|]. apply Forall_put; [repeat constructor; unfold u8; lia|].
    apply Forall_replicate. unfold u8; lia.
  - vm_compute. reflexivity.
  - vm_compute. reflexivity.
Defined.
