(* ===== verification/Kvm.v ===== *)
(** * The KVM and perf interface: what [dh-vmm] asks of the kernel

    The structures are those of the [kvm_bindings] ABI.  The class [Vcpu] is a
    parameter of the development: one operation per ioctl or mapped field the
    sources use, over a world [S] that holds the vCPU, its counter and whatever
    the callers' closures captured.  Errors carry the errno. *)

From S2P Require Import Prelude.

(** ** The port ranges of [kvm.rs] *)

Definition PIO_SERIAL_BASE : Z := 0x3F8.
Definition PIO_SERIAL_LEN : Z := 8.
Definition PIO_DETCALL_BASE : Z := 0xD370.
Definition PIO_DETCALL_LEN : Z := 0x30.

(** ** Structures *)

Record kvm_regs := mkRegs {
  rax : Z; rbx : Z; rcx : Z; rdx : Z; rsi : Z; rdi : Z; rsp : Z; rbp : Z;
  r8 : Z; r9 : Z; r10 : Z; r11 : Z; r12 : Z; r13 : Z; r14 : Z; r15 : Z;
  rip : Z; rflags : Z }.

Record kvm_segment := mkSegment {
  sg_base : Z; sg_limit : Z; sg_selector : Z; sg_type : Z; sg_present : Z; sg_dpl : Z;
  sg_db : Z; sg_s : Z; sg_l : Z; sg_g : Z; sg_avl : Z; sg_unusable : Z; sg_padding : Z }.

Record kvm_dtable := mkDtable { dt_base : Z; dt_limit : Z; dt_padding : list Z }.

Record kvm_sregs := mkSregs {
  sr_cs : kvm_segment; sr_ds : kvm_segment; sr_es : kvm_segment; sr_fs : kvm_segment;
  sr_gs : kvm_segment; sr_ss : kvm_segment; sr_tr : kvm_segment; sr_ldt : kvm_segment;
  sr_gdt : kvm_dtable; sr_idt : kvm_dtable;
  sr_cr0 : Z; sr_cr2 : Z; sr_cr3 : Z; sr_cr4 : Z; sr_cr8 : Z; sr_efer : Z; sr_apic_base : Z;
  sr_interrupt_bitmap : list Z }.

Record kvm_fpu := mkFpu {
  fp_fpr : list bytes; fp_fcw : Z; fp_fsw : Z; fp_ftwx : Z; fp_pad1 : Z; fp_last_opcode : Z;
  fp_last_ip : Z; fp_last_dp : Z; fp_xmm : list bytes; fp_mxcsr : Z; fp_pad2 : Z }.

Record kvm_xcrs := mkXcrs {
  xc_nr : Z; xc_flags : Z; xc_xcrs : list (Z * Z * Z); xc_padding : list Z }.

Record kvm_vcpu_events := mkEvents {
  exc_injected : Z; exc_nr : Z; exc_has_error_code : Z; exc_pending : Z; exc_error_code : Z;
  int_injected : Z; int_nr : Z; int_soft : Z; int_shadow : Z;
  nmi_injected : Z; nmi_pending : Z; nmi_masked : Z; nmi_pad : Z;
  ev_sipi_vector : Z; ev_flags : Z;
  smi_smm : Z; smi_pending : Z; smi_smm_inside_nmi : Z; smi_latched_init : Z;
  ev_triple_fault : Z; ev_reserved : list Z;
  ev_has_payload : Z; ev_payload : Z }.

Record kvm_debugregs := mkDebugregs {
  dbg_db : list Z; dbg_dr6 : Z; dbg_dr7 : Z; dbg_flags : Z; dbg_reserved : list Z }.

Record kvm_msr_entry := mkMsr { msr_index : Z; msr_data : Z }.

(** ** Exits *)

(** [kvm_ioctls::VcpuExit].  Reads carry the width the device must fill. *)
Inductive VcpuExit :=
| IoOut (port : Z) (data : bytes)
| IoIn (port : Z) (len : nat)
| MmioRead (gpa : Z) (len : nat)
| MmioWrite (gpa : Z) (data : bytes)
| X86Rdmsr (index : Z)
| X86Wrmsr (index data : Z)
| Debug
| Hlt
| IrqWindowOpen
| Shutdown
| OtherExit (code : Z).

Inductive RunResult :=
| Exited (e : VcpuExit)
| RunErrno (errno : Z).

(** [libc::EINTR]. *)
Definition EINTR : Z := 4.
Definition KVM_GUESTDBG_ENABLE : Z := 1.
Definition KVM_GUESTDBG_SINGLESTEP : Z := 2.

Inductive PerfIoctl := RESET | ENABLE | DISABLE | PERIOD (p : Z).

(** ** Operations *)

Class Vcpu (S : Type) := {
  (** the ioctls of [VcpuFd] *)
  kvm_run : S -> RunResult * S;
  kvm_get_regs : S -> outcome Z kvm_regs;
  kvm_set_guest_debug : Z -> S -> outcome Z unit * S;
  kvm_get_vcpu_events : S -> outcome Z kvm_vcpu_events;
  kvm_interrupt : Z -> S -> outcome Z unit * S;
  (** fields of the mapped [kvm_run] page *)
  set_kvm_immediate_exit : Z -> S -> S;
  ready_for_interrupt_injection : S -> Z;
  if_flag : S -> Z;
  (** the counter's file descriptor: the bytes a 24-byte read returns *)
  perf_read : S -> outcome Z bytes;
  perf_ioctl : PerfIoctl -> S -> outcome Z unit * S }.

(** The world of a closure that captures locals [L] beside the vCPU's. *)
Section captured.
Context {S L : Type} `{!Vcpu S}.
Definition on_fst {A} (f : S -> A * S) (p : S * L) : A * (S * L) :=
  let '(a, s) := f p.1 in (a, (s, p.2)).
#[export] Instance Vcpu_captured : Vcpu (S * L) := {
  kvm_run := on_fst kvm_run;
  kvm_get_regs p := kvm_get_regs p.1;
  kvm_set_guest_debug c := on_fst (kvm_set_guest_debug c);
  kvm_get_vcpu_events p := kvm_get_vcpu_events p.1;
  kvm_interrupt v := on_fst (kvm_interrupt v);
  set_kvm_immediate_exit b p := (set_kvm_immediate_exit b p.1, p.2);
  ready_for_interrupt_injection p := ready_for_interrupt_injection p.1;
  if_flag p := if_flag p.1;
  perf_read p := perf_read p.1;
  perf_ioctl c := on_fst (perf_ioctl c) }.
End captured.
