(* ===== verification/SlotVm.v ===== *)
(** * KVM bring-up: [dh-vmm/src/kvm.rs]

    The capability gate, the construction of a slot's VM as the sequence of
    calls it makes, the sealing of a fork parent's RAM and the private mapping
    of a child, and the classification of one exit.  The host is the class
    [VmKernel]: one answer per call, over an arbitrary host state; every call
    is recorded, so that the order of the calls is part of the model.  RAM
    regions and their memfds are the class [RamKernel]. *)

From Stdlib Require Import String.
From S2P Require Import Prelude Vt Reader Config Msr Cpuid Kvm.
Local Open Scope string_scope.
Local Open Scope list_scope.
Local Open Scope Z_scope.

Definition MMIO_HOLE_BASE : Z := 0xD0000000.
Definition MMIO_HOLE_LEN : Z := 0x7000.
Definition DIRTY_RING_ENTRIES : Z := 65536.
Definition DIRTY_RING_ENTRY_BYTES : Z := 16.

(** Where the source carries a message, the errno. *)
Inductive KvmError :=
| KvmOpen (errno : Z)
| ApiVersionMismatch (version : Z)
| MissingCaps (names : list string)
| KvmMemory (errno : Z)
| CowParent
| UnsealedParent
| NoMemfd
| VmCreate (errno : Z)
| RingNotPowerOfTwo (entries : Z)
| VcpuCreate (errno : Z)
| MemTooLarge.

(** ** The capability gate *)

Definition REQUIRED_CAPS : list string :=
  ["KVM_CAP_USER_MEMORY"; "KVM_CAP_SET_TSS_ADDR"; "KVM_CAP_EXT_CPUID"; "KVM_CAP_X86_USER_SPACE_MSR";
   "KVM_CAP_GET_MSR_FEATURES"; "KVM_CAP_SET_GUEST_DEBUG"; "KVM_CAP_IMMEDIATE_EXIT"; "KVM_CAP_VCPU_EVENTS";
   "KVM_CAP_DEBUGREGS"; "KVM_CAP_XSAVE2"; "KVM_CAP_XCRS"].
Definition REQUIRED_RAW_CAPS : list string :=
  ["KVM_CAP_MANUAL_DIRTY_LOG_PROTECT2"; "KVM_CAP_X86_MSR_FILTER"; "KVM_CAP_VCPU_ATTRIBUTES"].
Definition KVM_API_VERSION : Z := 12.

(** [/dev/kvm]: what opening it, and each query on it, answers. *)
Record DevKvm := mkDevKvm {
  dk_open : outcome Z unit;
  dk_api_version : Z;
  dk_check_extension : string -> bool;
  dk_check_extension_raw : string -> Z;
  dk_supported_cpuid : outcome Z (list kvm_cpuid_entry2) }.
Record KvmSystem := mkKvmSystem { sys_kvm : DevKvm; sys_dirty_ring : bool }.

Definition open_checked_kvm (dev : DevKvm) : outcome KvmError DevKvm :=
  _ ← err_map KvmOpen (dk_open dev);
  if negb (dk_api_version dev =? KVM_API_VERSION) then Err (ApiVersionMismatch (dk_api_version dev)) else Ok dev.
Definition has_dirty_ring_cap (kvm : DevKvm) : bool := 0 <? dk_check_extension_raw kvm "KVM_CAP_DIRTY_LOG_RING_ACQ_REL".
Definition KvmSystem_open (dev : DevKvm) : outcome KvmError KvmSystem :=
  kvm ← open_checked_kvm dev;
  let missing := filter (fun name => negb (dk_check_extension kvm name)) REQUIRED_CAPS ++
                 filter (fun name => dk_check_extension_raw kvm name <= 0) REQUIRED_RAW_CAPS in
  match missing with
  | [] => Ok (mkKvmSystem kvm (has_dirty_ring_cap kvm))
  | _ => Err (MissingCaps missing)
  end.
Definition probe_dirty_ring_cap (dev : DevKvm) : outcome KvmError bool :=
  kvm ← open_checked_kvm dev; Ok (has_dirty_ring_cap kvm).
Definition sys_masked_cpuid (sys : KvmSystem) : outcome KvmError (list kvm_cpuid_entry2) :=
  err_map KvmOpen (masked_cpuid (dk_supported_cpuid (sys_kvm sys))).
Definition masked_cpuid_table (sys : KvmSystem) : outcome KvmError (list CpuidLeaf) :=
  t ← sys_masked_cpuid sys; Ok (to_leaves t).

(** ** A slot *)

Definition F_SEAL_SHRINK : Z := 2.
Definition F_SEAL_GROW : Z := 4.
Definition F_SEAL_FUTURE_WRITE : Z := 16.
Definition frozen_ram_seals : Z := Z.lor (Z.lor F_SEAL_FUTURE_WRITE F_SEAL_SHRINK) F_SEAL_GROW.

(** Guest RAM regions: a fresh shared mapping of a new memfd, a private mapping
    of a region's memfd, and [fcntl] on that memfd. *)
Class RamKernel (R : Type) := {
  shared_region : Z -> outcome Z R;
  private_region : R -> Z -> outcome Z R;
  has_memfd : R -> bool;
  add_seals : Z -> R -> outcome Z unit * R;
  get_seals : R -> outcome Z Z }.

Inductive Capability := DirtyLogRingAcqRel | X86UserSpaceMsr | PmuCapability.
Definition KVM_MSR_EXIT_REASON_FILTER : Z := 4.
Definition KVM_PMU_CAP_DISABLE : Z := 1.
Inductive VmCall :=
| CreateVm
| EnableCap (cap : Capability) (arg : Z)
| HostAddress
| MadviseNoHugepage (len : Z)
| SetUserMemoryRegion (slot guest_phys_addr memory_size flags : Z)
| CreateVcpu (id : Z)
| SetCpuid2 (table : list kvm_cpuid_entry2).
Class VmKernel (V : Type) := vm_call : VmCall -> V -> outcome Z unit * V.

Record SlotVm (R : Type) := mkSlotVm {
  guest_mem : R;
  sv_mem_bytes : Z;
  sv_cpuid_table : list CpuidLeaf;
  ram_is_cow : bool;
  dirty_ring_entries : Z }.
Arguments mkSlotVm {R}. Arguments guest_mem {R}. Arguments sv_mem_bytes {R}. Arguments sv_cpuid_table {R}.
Arguments ram_is_cow {R}. Arguments dirty_ring_entries {R}.

Section Slot.
Context {V R : Type} `{!VmKernel V, !RamKernel R}.
(** The calls made so far, and the host. *)
Local Notation Host := (list VmCall * V)%type.

Definition call (err : Z -> KvmError) (c : VmCall) : prog Host KvmError unit := fun h =>
  let '(o, v) := vm_call c h.2 in Some (err_map err o, (h.1 ++ [c], v)).

(** [madvise_nohugepage]: the region's address, then the advice. *)
Definition madvise_nohugepage (len : Z) : prog Host KvmError unit :=
  _ ← call KvmMemory HostAddress; call KvmMemory (MadviseNoHugepage len).

Definition assemble_slot_vm (sys : KvmSystem) (region : R) (mem_bytes : Z) (cow : bool) (ring_entries : Z)
    : prog Host KvmError (SlotVm R) :=
  _ ← call VmCreate CreateVm;
  _ ← (if sys_dirty_ring sys then
         if ring_entries * DIRTY_RING_ENTRY_BYTES <? 2 ^ 64
         then call VmCreate (EnableCap DirtyLogRingAcqRel (ring_entries * DIRTY_RING_ENTRY_BYTES)) else crash
       else pass);
  _ ← call VmCreate (EnableCap X86UserSpaceMsr KVM_MSR_EXIT_REASON_FILTER);
  _ ← madvise_nohugepage mem_bytes;
  _ ← call KvmMemory HostAddress;
  _ ← call KvmMemory (SetUserMemoryRegion 0 0 mem_bytes 0);
  _ ← call VmCreate (EnableCap PmuCapability KVM_PMU_CAP_DISABLE);
  _ ← call VcpuCreate (CreateVcpu 0);
  masked ← of_outcome (sys_masked_cpuid sys);
  _ ← call VcpuCreate (SetCpuid2 masked);
  mret (mkSlotVm region mem_bytes (to_leaves masked) cow ring_entries).

Definition is_power_of_two (n : Z) : bool := (0 <? n) && (n =? 2 ^ Z.log2 n).
Definition create_slot_vm_with_ring (sys : KvmSystem) (mem_bytes ring_entries : Z) : prog Host KvmError (SlotVm R) :=
  if MMIO_HOLE_BASE <? mem_bytes then throw MemTooLarge
  else if negb (is_power_of_two ring_entries) then throw (RingNotPowerOfTwo ring_entries)
  else
    region ← of_outcome (err_map KvmMemory (shared_region mem_bytes));
    assemble_slot_vm sys region mem_bytes false ring_entries.
Definition create_slot_vm (sys : KvmSystem) (mem_bytes : Z) : prog Host KvmError (SlotVm R) :=
  create_slot_vm_with_ring sys mem_bytes DIRTY_RING_ENTRIES.

Definition ram_seals (s : SlotVm R) : outcome KvmError Z :=
  if has_memfd (guest_mem s) then err_map KvmMemory (get_seals (guest_mem s)) else Err NoMemfd.
Definition freeze_ram (s : SlotVm R) : outcome KvmError unit * SlotVm R :=
  if ram_is_cow s then (Err CowParent, s)
  else if has_memfd (guest_mem s) then
    let '(o, r) := add_seals frozen_ram_seals (guest_mem s) in
    (err_map KvmMemory o, mkSlotVm r (sv_mem_bytes s) (sv_cpuid_table s) (ram_is_cow s) (dirty_ring_entries s))
  else (Err NoMemfd, s).

(** A private mapping of the frozen parent's memfd, in a fresh VM. *)
Definition fork_slot_vm (sys : KvmSystem) (parent : SlotVm R) : prog Host KvmError (SlotVm R) :=
  if ram_is_cow parent then throw CowParent
  else
    seals ← of_outcome (ram_seals parent);
    if Z.land seals F_SEAL_FUTURE_WRITE =? 0 then throw UnsealedParent
    else
      region ← of_outcome (err_map KvmMemory (private_region (guest_mem parent) (sv_mem_bytes parent)));
      assemble_slot_vm sys region (sv_mem_bytes parent) true DIRTY_RING_ENTRIES.
End Slot.

(** ** Exits *)

Definition KVM_EXIT_DIRTY_RING_FULL : Z := 31.

Inductive ExitEvent :=
| EvMmioRead (gpa : Z) (len : nat)
| EvMmioWrite (gpa : Z) (data : bytes)
| DetcallIn (port : Z) (len : nat)
| DetcallOut (port : Z) (data : bytes)
| SerialOut (port : Z) (data : bytes)
| SerialIn (port : Z) (len : nat)
| PioIgnored (port : Z)
| MsrReadDenied (index : Z)
| MsrWriteDenied (index data : Z)
| EvHlt
| EvShutdown
| DirtyRingFull
| EvOther (e : VcpuExit).

(** What dispatch writes into the mapped exit before it returns. *)
Inductive ExitReply :=
| Untouched
| FillZero (len : nat)
| MsrReply (data : option Z) (error : Z).

Definition in_range (port base len : Z) : bool := (base <=? port) && (port <? base + len).
Definition classify_exit (exit : VcpuExit) : ExitEvent * ExitReply :=
  match exit with
  | MmioRead gpa len => (EvMmioRead gpa len, Untouched)
  | MmioWrite gpa data => (EvMmioWrite gpa data, Untouched)
  | IoIn port len =>
      if in_range port PIO_DETCALL_BASE PIO_DETCALL_LEN then (DetcallIn port len, Untouched)
      else if in_range port PIO_SERIAL_BASE PIO_SERIAL_LEN then (SerialIn port len, Untouched)
      else (PioIgnored port, FillZero len)
  | IoOut port data =>
      if in_range port PIO_DETCALL_BASE PIO_DETCALL_LEN then (DetcallOut port data, Untouched)
      else if in_range port PIO_SERIAL_BASE PIO_SERIAL_LEN then (SerialOut port data, Untouched)
      else (PioIgnored port, Untouched)
  | X86Rdmsr index =>
      (MsrReadDenied index,
       match on_denied_rdmsr index with SupplyValue v => MsrReply (Some v) 0 | AckWrite | InjectGp => MsrReply None 1 end)
  | X86Wrmsr index data =>
      (MsrWriteDenied index data,
       match on_denied_wrmsr index with InjectGp => MsrReply None 1 | AckWrite | SupplyValue _ => MsrReply None 0 end)
  | Hlt => (EvHlt, Untouched)
  | Shutdown => (EvShutdown, Untouched)
  | OtherExit code => if code =? KVM_EXIT_DIRTY_RING_FULL then (DirtyRingFull, Untouched) else (EvOther exit, Untouched)
  | _ => (EvOther exit, Untouched)
  end.

(** ** Laws and theorems *)

(** [fcntl(F_ADD_SEALS)] adds to the set [F_GET_SEALS] reads; a mapping keeps its file. *)
Class RamKernelOk (R : Type) `{!RamKernel R} : Prop := {
  seals_added : forall n r r', add_seals n r = (Ok tt, r') -> has_memfd r' = has_memfd r /\
    exists old, get_seals r' = Ok (Z.lor old n) }.

Section SlotOk.
Context {V R : Type} `{!VmKernel V, !RamKernel R, !RamKernelOk R}.
Local Notation Host := (list VmCall * V)%type.

(** The calls that build a slot: the dirty ring, the MSR filter and the vPMU are
    settled before the vCPU exists, and the mask is installed last. *)
Definition slot_calls (sys : KvmSystem) (mem_bytes ring_entries : Z) (masked : list kvm_cpuid_entry2) : list VmCall :=
  CreateVm :: (if sys_dirty_ring sys then [EnableCap DirtyLogRingAcqRel (ring_entries * DIRTY_RING_ENTRY_BYTES)] else []) ++
  [EnableCap X86UserSpaceMsr KVM_MSR_EXIT_REASON_FILTER; HostAddress; MadviseNoHugepage mem_bytes; HostAddress;
   SetUserMemoryRegion 0 0 mem_bytes 0; EnableCap PmuCapability KVM_PMU_CAP_DISABLE; CreateVcpu 0; SetCpuid2 masked].

Lemma call_inv err c (h h' : Host) o : call err c h = Some (o, h') -> h'.1 = h.1 ++ [c].
Proof. unfold call. destruct (vm_call c h.2). by intros [= _ <-]. Qed.

(** Running a program extends the trace by a prefix of [l], all of it on success. *)
Definition traces {A} (m : prog Host KvmError A) (l : list VmCall) : Prop :=
  forall h o h', m h = Some (o, h') -> exists k, h'.1 = h.1 ++ k /\ k `prefix_of` l /\ ((exists a, o = Ok a) -> k = l).
Lemma traces_call err c : traces (call err c) [c].
Proof. intros h o h' H. apply call_inv in H. by exists [c]. Qed.
Lemma traces_pure {A} (o : outcome KvmError A) : traces (of_outcome o) [].
Proof. intros h o' h' [= <- <-]. exists []. by rewrite app_nil_r. Qed.
Lemma traces_ok {A C} (a : A) (k : A -> prog Host KvmError C) l : traces (k a) l -> traces (of_outcome (Ok a) ≫= k) l.
Proof. intros H h o h' E. exact (H h o h' E). Qed.
Lemma traces_bind {A C} (m : prog Host KvmError A) (k : A -> prog Host KvmError C) l l' :
  traces m l -> (forall a, traces (k a) l') -> traces (m ≫= k) (l ++ l').
Proof.
  intros Hm Hk h o h' H. apply prog_bind_inv in H as [(a & h1 & H1 & H)|[(e & H & ->)|[H ->]]].
  - destruct (Hm _ _ _ H1) as (k1 & E1 & _ & F1), (Hk _ _ _ _ H) as (k2 & E2 & P2 & F2). rewrite F1 in E1 by eauto.
    exists (l ++ k2). rewrite E2, E1, <- (assoc_L (++)). split; [done|]. split; [by apply prefix_app|]. intros Hok. by rewrite F2.
  - destruct (Hm _ _ _ H) as (k1 & E1 & P1 & _). exists k1. split; [done|]. split; [by apply prefix_app_r|]. by intros [? [=]].
  - destruct (Hm _ _ _ H) as (k1 & E1 & P1 & _). exists k1. split; [done|]. split; [by apply prefix_app_r|]. by intros [? [=]].
Qed.

Lemma assemble_traces sys (region : R) mem cow ring masked : sys_masked_cpuid sys = Ok masked ->
  traces (assemble_slot_vm sys region mem cow ring) (slot_calls sys mem ring masked).
Proof.
  intros Hm. unfold assemble_slot_vm, slot_calls, madvise_nohugepage. rewrite Hm.
  apply (traces_bind _ _ [_]); [apply traces_call|intros _].
  apply traces_bind.
  { destruct (sys_dirty_ring sys); [|apply (traces_pure (Ok tt))]. destruct (_ <? _); [apply traces_call|].
    intros h o h' [= <- <-]. exists []. rewrite app_nil_r. split; [done|]. split; [apply prefix_nil|]. by intros [? [=]]. }
  intros _. apply (traces_bind _ _ [_]); [apply traces_call|intros _].
  apply (traces_bind _ _ [_; _]); [apply (traces_bind _ _ [_]); [apply traces_call|intros _; apply traces_call]|intros _].
  do 4 (apply (traces_bind _ _ [_]); [apply traces_call|intros _]).
  apply traces_ok.
  apply (traces_bind _ _ [_] []); [apply traces_call|intros _]. apply (traces_pure (Ok _)).
Qed.

Definition assembled (sys : KvmSystem) (region : R) (mem_bytes : Z) (cow : bool) (ring : Z) (s : SlotVm R) (calls : list VmCall)
    : Prop :=
  exists masked, sys_masked_cpuid sys = Ok masked /\ s = mkSlotVm region mem_bytes (to_leaves masked) cow ring /\
    calls = slot_calls sys mem_bytes ring masked.

Lemma assemble_value sys (region : R) mem cow ring (h h' : Host) s :
  assemble_slot_vm sys region mem cow ring h = Some (Ok s, h') ->
  exists masked, sys_masked_cpuid sys = Ok masked /\ s = mkSlotVm region mem (to_leaves masked) cow ring.
Proof.
  unfold assemble_slot_vm. do 8 (intros H; apply prog_bind_inv in H as [(? & ? & _ & H)|[(? & _ & [=])|[_ [=]]]]; revert H).
  intros H. apply prog_bind_inv in H as [(masked & ? & [= Hm _] & H)|[(? & _ & [=])|[_ [=]]]].
  apply prog_bind_inv in H as [(? & ? & _ & [= <- _])|[(? & _ & [=])|[_ [=]]]]. by exists masked.
Qed.
Lemma assemble_ok sys (region : R) mem cow ring (h h' : Host) s :
  assemble_slot_vm sys region mem cow ring h = Some (Ok s, h') ->
  exists calls, assembled sys region mem cow ring s calls /\ h'.1 = h.1 ++ calls.
Proof.
  intros H. destruct (assemble_value _ _ _ _ _ _ _ _ H) as (masked & Hm & ->).
  destruct (assemble_traces sys region mem cow ring masked Hm _ _ _ H) as (k & Hk & _ & Hfull).
  rewrite Hfull in Hk by eauto. exists (slot_calls sys mem ring masked). split; [|done]. by exists masked.
Qed.

Lemma fork_inv sys (p c : SlotVm R) (h h' : Host) : fork_slot_vm sys p h = Some (Ok c, h') ->
  exists seals calls, ram_is_cow p = false /\ ram_seals p = Ok seals /\ (Z.land seals F_SEAL_FUTURE_WRITE =? 0) = false /\
    private_region (guest_mem p) (sv_mem_bytes p) = Ok (guest_mem c) /\ ram_is_cow c = true /\
    assembled sys (guest_mem c) (sv_mem_bytes p) true DIRTY_RING_ENTRIES c calls /\ h'.1 = h.1 ++ calls.
Proof.
  unfold fork_slot_vm. destruct (ram_is_cow p) eqn:Hc; [done|]. intros H.
  apply prog_bind_inv in H as [(seals & h1 & [= Hs <-] & H)|[(? & _ & [=])|[_ [=]]]].
  destruct (Z.land seals F_SEAL_FUTURE_WRITE =? 0) eqn:Hb; [done|].
  apply prog_bind_inv in H as [(r & h1 & [= Hr <-] & H)|[(? & _ & [=])|[_ [=]]]].
  destruct (assemble_ok _ _ _ _ _ _ _ _ H) as (calls & Ha & Hh). exists seals, calls.
  pose proof Ha as (masked & _ & Hcv & _). assert (guest_mem c = r /\ ram_is_cow c = true) as [-> Hcow] by by rewrite Hcv.
  split_and!; try done. destruct (private_region (guest_mem p) _) as [?|?|]; cbn in Hr; congruence.
Qed.
Lemma fork_maps sys (p c : SlotVm R) (h h' : Host) : fork_slot_vm sys p h = Some (Ok c, h') ->
  private_region (guest_mem p) (sv_mem_bytes p) = Ok (guest_mem c) /\ sv_mem_bytes c = sv_mem_bytes p.
Proof.
  intros H. destruct (fork_inv _ _ _ _ _ H) as (seals & calls & _ & _ & _ & Hr & _ & (masked & _ & Hc & _) & _).
  split; [done|]. by rewrite Hc.
Qed.

(** A fork needs a frozen parent, and a child is never one.  A fork that
    succeeds had its parent's memfd sealed against future writes and the
    parent's RAM its own; it maps that memfd privately at the parent's size,
    into a VM built by the fixed calls in order, the dirty ring, the MSR filter
    and the vPMU settled before the vCPU exists.  The child is refused as a fork
    parent, without a call to the host, and cannot be frozen; and the seal the
    fork checks is the one a freeze adds. *)
Theorem fork_needs_freeze sys (p c : SlotVm R) (h h' : Host) :
  fork_slot_vm sys p h = Some (Ok c, h') ->
  ram_is_cow p = false /\ (exists seals, ram_seals p = Ok seals /\ Z.testbit seals 4 = true) /\
  private_region (guest_mem p) (sv_mem_bytes p) = Ok (guest_mem c) /\
  (exists calls, assembled sys (guest_mem c) (sv_mem_bytes p) true DIRTY_RING_ENTRIES c calls /\ h'.1 = h.1 ++ calls) /\
  (forall h0 : Host, fork_slot_vm sys c h0 = Some (Err CowParent, h0)) /\ freeze_ram c = (Err CowParent, c) /\
  (forall p0, freeze_ram p0 = (Ok tt, p) -> ram_is_cow p0 = false /\ exists old, ram_seals p = Ok (Z.lor old frozen_ram_seals)).
Proof.
  intros H. destruct (fork_inv _ _ _ _ _ H) as (seals & calls & Hc & Hs & Hb & Hr & Hcow & Ha & Hh).
  split; [done|]. split; [exists seals; split; [done|]|].
  { rewrite <- land_bit by done. change (Z.shiftl 1 4) with F_SEAL_FUTURE_WRITE. by rewrite Hb. }
  split; [done|]. split; [by exists calls|]. split; [intros h0; unfold fork_slot_vm; by rewrite Hcow|].
  split; [unfold freeze_ram; by rewrite Hcow|].
  intros p0. unfold freeze_ram. destruct (ram_is_cow p0) eqn:Hc0; [done|]. destruct (has_memfd (guest_mem p0)) eqn:Hf; [|done].
  destruct (add_seals frozen_ram_seals (guest_mem p0)) as [o r0] eqn:Hadd. intros [= Ho <-]. split; [done|].
  destruct o as [[]|?|]; [|done..]. destruct (seals_added _ _ _ Hadd) as [Hm (old & Hold)].
  exists old. unfold ram_seals. cbn [guest_mem]. by rewrite Hm, Hf, Hold.
Qed.
End SlotOk.

(** Opening succeeds exactly when every required capability is there; a refusal
    names the missing ones, in the order of the tables. *)
Lemma open_gate dev : dk_open dev = Ok tt -> dk_api_version dev = KVM_API_VERSION ->
  (exists sys, KvmSystem_open dev = Ok sys /\ sys_kvm sys = dev /\
     (forall name, name ∈ REQUIRED_CAPS -> dk_check_extension dev name = true) /\
     (forall name, name ∈ REQUIRED_RAW_CAPS -> 0 < dk_check_extension_raw dev name)) \/
  (exists names, KvmSystem_open dev = Err (MissingCaps names) /\ names <> [] /\ forall name, name ∈ names <->
     name ∈ REQUIRED_CAPS /\ dk_check_extension dev name = false \/
     name ∈ REQUIRED_RAW_CAPS /\ dk_check_extension_raw dev name <= 0).
Proof.
  intros Ho Hv. unfold KvmSystem_open, open_checked_kvm. rewrite Ho, Hv, Z.eqb_refl. cbn [err_map mbind outcome_bind negb].
  destruct (_ ++ _) as [|n l] eqn:Hl.
  - left. eexists. split; [done|]. split; [done|]. apply app_eq_nil in Hl as [H1 H2]. split; intros name Hn.
    + destruct (dk_check_extension dev name) eqn:Hc; [done|]. exfalso. apply (not_elem_of_nil name). rewrite <- H1.
      apply list_elem_of_filter. by rewrite Hc.
    + apply Z.lt_nge. intros Hc. apply (not_elem_of_nil name). rewrite <- H2. by apply list_elem_of_filter.
  - right. exists (n :: l). split; [done|]. split; [done|]. intros name. rewrite <- Hl, elem_of_app, !list_elem_of_filter.
    destruct (dk_check_extension dev name); naive_solver.
Qed.

(** ** A host that grants everything *)

Module SlotVmExample.
Record ToyRegion := mkToyRegion { tr_seals : Z }.
#[export] Instance Toy_ram : RamKernel ToyRegion := {
  shared_region _ := Ok (mkToyRegion 0);
  private_region r _ := Ok r;
  has_memfd _ := true;
  add_seals n r := (Ok tt, mkToyRegion (Z.lor (tr_seals r) n));
  get_seals r := Ok (tr_seals r) }.
#[export] Instance Toy_ram_ok : RamKernelOk ToyRegion.
Proof. constructor. intros n r r' [= <-]. split; [done|]. by exists (tr_seals r). Qed.
#[export] Instance Toy_vm : VmKernel unit := fun _ v => (Ok tt, v).

Definition toy_sys : KvmSystem :=
  mkKvmSystem (mkDevKvm (Ok tt) 12 (fun _ => true) (fun _ => 1) (Ok [mkEntry 1 0 0 0 0x03000000 (Z.shiftl 1 30) 0])) true.
Definition toy_parent : SlotVm ToyRegion := (freeze_ram (mkSlotVm (mkToyRegion 0) 0x200000 [] false DIRTY_RING_ENTRIES)).2.
Definition toy_child : SlotVm ToyRegion := mkSlotVm (mkToyRegion 22) 0x200000 [mkLeaf 1 0 0 0 0 0 0] true DIRTY_RING_ENTRIES.

Lemma fork_needs_freeze_witness : exists h', fork_slot_vm toy_sys toy_parent ([], tt) = Some (Ok toy_child, h') /\
  exists seals, ram_seals toy_parent = Ok seals /\ Z.testbit seals 4 = true.
Proof.
  assert (exists h', fork_slot_vm toy_sys toy_parent ([], tt) = Some (Ok toy_child, h')) as [h' H] by by eexists.
  exists h'. split; [exact H|]. exact (proj1 (proj2 (fork_needs_freeze toy_sys toy_parent toy_child ([], tt) h' H))).
Defined.
End SlotVmExample.
