(* ===== verification/Bzimage.v ===== *)
(** * The Linux boot plan: [dh-vmm/src/boot/linux_bzimage.rs]

    The setup-header parser, the validator of the deterministic subset, and the
    planner that turns a header and the artifact sizes into a memory layout, an
    e820 map and the [boot_params] page.  Rust's slice indexing and array stores
    panic out of range; so do [read_le] and [store]. *)

From Stdlib Require Import String.
From stdpp Require Import strings.
From S2P Require Import Prelude Config SlotVm.
Local Open Scope string_scope.
Local Open Scope list_scope.
Local Open Scope Z_scope.

Module Linux.

(** ** Offsets and limits *)

Definition SETUP_SECTS_OFF : nat := #0x1f1.
Definition SETUP_HEADER_LEN_OFF : nat := #0x201.
Definition HEADER_MAGIC_OFF : nat := #0x202.
Definition PROTOCOL_VERSION_OFF : nat := #0x206.
Definition TYPE_OF_LOADER_OFF : nat := #0x210.
Definition LOADFLAGS_OFF : nat := #0x211.
Definition CODE32_START_OFF : nat := #0x214.
Definition RAMDISK_IMAGE_OFF : nat := #0x218.
Definition RAMDISK_SIZE_OFF : nat := #0x21c.
Definition HEAP_END_PTR_OFF : nat := #0x224.
Definition CMD_LINE_PTR_OFF : nat := #0x228.
Definition INITRD_ADDR_MAX_OFF : nat := #0x22c.
Definition KERNEL_ALIGNMENT_OFF : nat := #0x230.
Definition RELOCATABLE_KERNEL_OFF : nat := #0x234.
Definition XLOADFLAGS_OFF : nat := #0x236.
Definition CMDLINE_SIZE_OFF : nat := #0x238.
Definition HARDWARE_SUBARCH_OFF : nat := #0x23c.
Definition HARDWARE_SUBARCH_DATA_OFF : nat := #0x240.
Definition PAYLOAD_OFFSET_OFF : nat := #0x248.
Definition PAYLOAD_LENGTH_OFF : nat := #0x24c.
Definition SETUP_DATA_OFF : nat := #0x250.
Definition PREF_ADDRESS_OFF : nat := #0x258.
Definition INIT_SIZE_OFF : nat := #0x260.
Definition SETUP_HEADER_END : nat := #0x268.

Definition HEADER_MAGIC : bytes := [0x48; 0x64; 0x72; 0x53].
Definition MIN_PROTOCOL_VERSION : Z := 0x020a.
Definition SECTOR : Z := 512.
Definition DEFAULT_SETUP_SECTS : Z := 4.
Definition LOADFLAGS_LOADED_HIGH : Z := 0x01.
Definition LOADFLAGS_CAN_USE_HEAP : Z := 0x80.
Definition XLF_KERNEL_64 : Z := 0x0001.
(** The seven flags from [XLF_KERNEL_64] to [XLF_5LEVEL_ENABLED]. *)
Definition XLOADFLAGS_SUPPORTED : Z := foldr Z.lor 0 [0x0001; 0x0002; 0x0004; 0x0008; 0x0010; 0x0020; 0x0040].
Definition MIN_KERNEL_ALIGNMENT : Z := 0x200000.
Definition PAGE_SIZE : Z := 4096.

Definition PML4_GPA : Z := 0x1000.
Definition PDPT_GPA : Z := 0x2000.
Definition PD_BASE_GPA : Z := 0x3000.
Definition BOOTINFO_GPA : Z := 0x7000.

Definition LINUX_BOOT_PARAMS_SIZE : nat := #4096.
Definition LINUX_BOOT_PARAMS_GPA : Z := BOOTINFO_GPA.
Definition LINUX_CMDLINE_GPA : Z := 0x8000.
Definition LINUX_CMDLINE_RESERVED_LEN : Z := 0x2000.
Definition LINUX_KERNEL_LOAD_GPA : Z := 0x100000.
Definition LINUX_LEGACY_IO_HOLE_BASE : Z := 0x0a0000.
Definition LINUX_LEGACY_IO_HOLE_LEN : Z := 0x060000.
Definition LINUX_APIC_MMIO_BASE : Z := 0xfee00000.
Definition LINUX_APIC_MMIO_LEN : Z := 0x1000.
Definition LINUX_PAGE_TABLES_GPA : Z := PML4_GPA.
Definition LINUX_PAGE_TABLES_LEN : Z := (PD_BASE_GPA + 4 * PAGE_SIZE) - PML4_GPA.
Definition LINUX_LOW_RESERVED_LEN : Z := LINUX_CMDLINE_GPA + LINUX_CMDLINE_RESERVED_LEN.
Definition LINUX_HEAP_END_PTR : Z := 0xde00.
Definition LINUX_TYPE_OF_LOADER : Z := 0xff.
Definition ZERO_PAGE_E820_COUNT_OFF : nat := #0x1e8.
Definition ZERO_PAGE_E820_TABLE_OFF : nat := #0x2d0.
Definition E820_ENTRY_SIZE : nat := 20.
Definition E820_TABLE_CAP : nat := 128.
Definition E820_RAM : Z := 1.
Definition E820_RESERVED : Z := 2.
Definition SETUP_DATA_HEADER_LEN : nat := 16.
Definition SETUP_RNG_SEED_TYPE : Z := 9.
Definition SETUP_RNG_SEED_OFF : nat := #0x0d00.
Definition SETUP_RNG_SEED : bytes :=
  [0x64; 0x68; 0x2d; 0x6d; 0x39; 0x2d; 0x72; 0x6e; 0x67; 0x2d; 0x73; 0x65; 0x65; 0x64; 0x2d; 0x76;
   0x31; 0x00; 0x4b; 0x9d; 0x23; 0x41; 0x8c; 0xf0; 0x17; 0xa6; 0x5e; 0x31; 0xc2; 0xdd; 0x88; 0x10;
   0xfa; 0x67; 0x04; 0x29; 0xb3; 0x5c; 0x91; 0xee; 0x70; 0x12; 0x44; 0xab; 0xcd; 0x09; 0x57; 0x26;
   0xe8; 0x3a; 0x95; 0x6b; 0x11; 0xd4; 0x20; 0x7f; 0x03; 0xbe; 0x49; 0xa1; 0x5d; 0x72; 0xc6; 0x18].

(** ** The setup header *)

Record BzImageLayout := mkBzImage {
  bz_setup_header : bytes;
  bz_protocol_version : Z;
  bz_setup_sects : Z;
  bz_setup_bytes : Z;
  bz_kernel_image_file_offset : Z;
  bz_kernel_image_length : Z;
  bz_payload_file_offset : Z;
  bz_payload_length : Z;
  bz_init_size : Z;
  bz_loadflags : Z;
  bz_xloadflags : Z;
  bz_kernel_alignment : Z;
  bz_relocatable_kernel : bool;
  bz_pref_address : Z;
  bz_initrd_addr_max : Z;
  bz_cmdline_size : Z }.

Inductive BzImageError :=
| TruncatedSetupHeader (len min : Z)
| BadHeaderMagic (found : bytes)
| UnsupportedProtocolVersion (found min : Z)
| UnsupportedLoadFlags (loadflags : Z)
| UnsupportedXloadflags (xloadflags supported : Z)
| PayloadOverflow
| PayloadOutsideImage (start len image_len : Z)
| SetupHeaderTooShort (end_ min : Z)
| BadInitSize (init_size : Z)
| BadKernelAlignment (alignment : Z)
| UnsupportedRelocatableCombination (alignment pref_address : Z)
| BzInitramfsTooLarge (len limit : Z)
| BzCmdlineTooLong (len limit : Z)
| UnsupportedSetupHeaderField (field : string) (value : Z).

Definition reject_unsupported_header_field (field : string) (value : Z) : outcome BzImageError unit :=
  if value =? 0 then Ok tt else Err (UnsupportedSetupHeaderField field value).

Definition u8at (b : bytes) (at_ : nat) : outcome BzImageError Z := read_le 1 at_ b.
Definition u16le (b : bytes) (at_ : nat) : outcome BzImageError Z := read_le 2 at_ b.
Definition u32le (b : bytes) (at_ : nat) : outcome BzImageError Z := read_le 4 at_ b.
Definition u64le (b : bytes) (at_ : nat) : outcome BzImageError Z := read_le 8 at_ b.
(** [image.get(from..to)]. *)
Definition get_range (b : bytes) (from to : Z) : option bytes :=
  if (from <=? to) && (to <=? Z.of_nat (length b)) then Some (slice (Z.to_nat from) (Z.to_nat (to - from)) b) else None.

Definition parse_bzimage (image : bytes) (initramfs_len cmdline_len mem_bytes : Z) : outcome BzImageError BzImageLayout :=
  let image_len := Z.of_nat (length image) in
  fail (TruncatedSetupHeader image_len (Z.of_nat SETUP_HEADER_END)) when image_len <? Z.of_nat SETUP_HEADER_END;
  found ← read_bytes 4 HEADER_MAGIC_OFF image;
  fail (BadHeaderMagic found) when negb (bool_decide (found = HEADER_MAGIC));
  protocol_version ← u16le image PROTOCOL_VERSION_OFF;
  fail (UnsupportedProtocolVersion protocol_version MIN_PROTOCOL_VERSION) when protocol_version <? MIN_PROTOCOL_VERSION;
  header_len ← u8at image SETUP_HEADER_LEN_OFF;
  let setup_header_end := Z.of_nat HEADER_MAGIC_OFF + header_len in
  fail (SetupHeaderTooShort setup_header_end (Z.of_nat SETUP_HEADER_END)) when setup_header_end <? Z.of_nat SETUP_HEADER_END;
  setup_header ← ok_or (TruncatedSetupHeader image_len setup_header_end)
    (get_range image (Z.of_nat SETUP_SECTS_OFF) setup_header_end);
  setup_sects_raw ← u8at image SETUP_SECTS_OFF;
  let setup_sects := if setup_sects_raw =? 0 then DEFAULT_SETUP_SECTS else setup_sects_raw in
  setup_bytes ← ok_or PayloadOverflow (try_u64 ((setup_sects + 1) * SECTOR));
  loadflags ← u8at image LOADFLAGS_OFF;
  fail (UnsupportedLoadFlags loadflags) when Z.land loadflags LOADFLAGS_LOADED_HIGH =? 0;
  xloadflags ← u16le image XLOADFLAGS_OFF;
  fail (UnsupportedXloadflags xloadflags XLOADFLAGS_SUPPORTED)
    when (Z.land xloadflags XLF_KERNEL_64 =? 0) || negb (Z.ldiff xloadflags XLOADFLAGS_SUPPORTED =? 0);
  kernel_alignment ← u32le image KERNEL_ALIGNMENT_OFF;
  fail (BadKernelAlignment kernel_alignment)
    when (kernel_alignment <? MIN_KERNEL_ALIGNMENT) || negb (is_power_of_two kernel_alignment);
  relocatable ← u8at image RELOCATABLE_KERNEL_OFF;
  let relocatable_kernel := negb (relocatable =? 0) in
  pref_address ← u64le image PREF_ADDRESS_OFF;
  fail (UnsupportedRelocatableCombination kernel_alignment pref_address)
    when relocatable_kernel && negb (pref_address mod kernel_alignment =? 0);
  payload_offset ← u32le image PAYLOAD_OFFSET_OFF;
  payload_length ← u32le image PAYLOAD_LENGTH_OFF;
  payload_file_offset ← ok_or PayloadOverflow (checked_add setup_bytes payload_offset);
  payload_end ← ok_or PayloadOverflow (checked_add payload_file_offset payload_length);
  fail (PayloadOutsideImage payload_file_offset payload_length image_len)
    when (payload_length =? 0) || (image_len <? payload_end);
  kernel_image_length ← ok_or (PayloadOutsideImage setup_bytes image_len image_len) (checked_sub image_len setup_bytes);
  fail (PayloadOutsideImage setup_bytes 0 image_len) when kernel_image_length =? 0;
  init_size ← u32le image INIT_SIZE_OFF;
  fail (BadInitSize init_size) when init_size =? 0;
  subarch ← u32le image HARDWARE_SUBARCH_OFF;
  _ ← reject_unsupported_header_field "hardware_subarch" subarch;
  subarch_data ← u64le image HARDWARE_SUBARCH_DATA_OFF;
  _ ← reject_unsupported_header_field "hardware_subarch_data" subarch_data;
  setup_data ← u64le image SETUP_DATA_OFF;
  _ ← reject_unsupported_header_field "setup_data" setup_data;
  cmdline_size ← u32le image CMDLINE_SIZE_OFF;
  let cmdline_limit := Z.min cmdline_size (Z.of_nat MAX_CMDLINE) in
  fail (BzCmdlineTooLong cmdline_len cmdline_limit) when cmdline_limit <? cmdline_len;
  initrd_addr_max ← u32le image INITRD_ADDR_MAX_OFF;
  let placement_limit := Z.min mem_bytes (saturating_add initrd_addr_max 1) in
  fail (BzInitramfsTooLarge initramfs_len placement_limit) when placement_limit <? initramfs_len;
  Ok (mkBzImage setup_header protocol_version setup_sects setup_bytes setup_bytes kernel_image_length payload_file_offset
        payload_length init_size loadflags xloadflags kernel_alignment relocatable_kernel pref_address initrd_addr_max cmdline_size).

(** ** Ranges and the e820 map *)

Record LinuxMemoryRange := mkRange { lr_start : Z; lr_len : Z }.
Record E820Entry := mkE820 { e_addr : Z; e_size : Z; e_kind : Z }.

Inductive LinuxBootLayoutError :=
| LayoutCmdlineTooLong (len limit : Z)
| MemOverlapsApicMmio (mem_bytes apic_base : Z)
| MemOverlapsDeviceWindow (mem_bytes device_base : Z)
| RangeOverflow (label : string)
| KernelOutsideRam (end_ mem_bytes : Z)
| InitramfsTooLarge (len limit : Z)
| InitramfsOverlapsKernel (start kernel_reserved_end : Z)
| E820TooManyEntries (count max : nat).
Local Notation Error := LinuxBootLayoutError.

(** [LinuxMemoryRange::end]: an addition that panics on overflow. *)
Definition range_end (r : LinuxMemoryRange) : outcome Error Z :=
  match try_u64 (lr_start r + lr_len r) with Some e => Ok e | None => Panic end.

Definition align_up (value align : Z) : outcome Error Z :=
  let mask := align - 1 in
  match checked_add value mask with Some v => Ok (Z.ldiff v mask) | None => Err (RangeOverflow "align_up") end.
Definition align_down (value align : Z) : Z := Z.ldiff value (align - 1).

Definition push_e820 (entries : list E820Entry) (addr size kind : Z) : list E820Entry :=
  if size =? 0 then entries else entries ++ [mkE820 addr size kind].

(** A stable sort by start. *)
Fixpoint insert_range (r : LinuxMemoryRange) (l : list LinuxMemoryRange) : list LinuxMemoryRange :=
  match l with
  | [] => [r]
  | x :: l => if lr_start r <=? lr_start x then r :: x :: l else x :: insert_range r l
  end.
Definition sort_ranges (l : list LinuxMemoryRange) : list LinuxMemoryRange := foldr insert_range [] l.

(** The loop over the reserved ranges: the entries so far and the cursor. *)
Fixpoint e820_loop (mem_bytes : Z) (reserved : list LinuxMemoryRange) (entries : list E820Entry) (cursor : Z) :
    outcome Error (list E820Entry * Z) :=
  match reserved with
  | [] => Ok (entries, cursor)
  | range :: reserved =>
      if lr_start range <? mem_bytes then
        end_ ← range_end range;
        let end_ := Z.min end_ mem_bytes in
        let entries :=
          if cursor <? lr_start range then push_e820 entries cursor (lr_start range - cursor) E820_RAM else entries in
        if cursor <? end_
        then e820_loop mem_bytes reserved (push_e820 entries (lr_start range) (end_ - lr_start range) E820_RESERVED) end_
        else e820_loop mem_bytes reserved entries cursor
      else e820_loop mem_bytes reserved entries cursor
  end.

Definition build_e820_entries (mem_bytes kernel_reserved_len : Z) (initramfs : option LinuxMemoryRange) :
    outcome Error (list E820Entry) :=
  let reserved := [mkRange 0 LINUX_LOW_RESERVED_LEN; mkRange LINUX_LEGACY_IO_HOLE_BASE LINUX_LEGACY_IO_HOLE_LEN;
                   mkRange LINUX_KERNEL_LOAD_GPA kernel_reserved_len] in
  reserved ← match initramfs with
             | Some r => len ← align_up (lr_len r) PAGE_SIZE; Ok (reserved ++ [mkRange (lr_start r) len])
             | None => Ok reserved
             end;
  ec ← e820_loop mem_bytes (sort_ranges reserved) [] 0;
  let '(entries, cursor) := (ec : list E820Entry * Z) in
  let entries := if cursor <? mem_bytes then push_e820 entries cursor (mem_bytes - cursor) E820_RAM else entries in
  let entries := push_e820 entries MMIO_HOLE_BASE MMIO_HOLE_LEN E820_RESERVED in
  let entries := push_e820 entries LINUX_APIC_MMIO_BASE LINUX_APIC_MMIO_LEN E820_RESERVED in
  fail (E820TooManyEntries (length entries) E820_TABLE_CAP) when (E820_TABLE_CAP <? length entries)%nat;
  Ok entries.

Record LinuxBootLayout := mkLinuxLayout {
  ll_page_tables : LinuxMemoryRange;
  ll_boot_params : LinuxMemoryRange;
  ll_cmdline : LinuxMemoryRange;
  ll_cmdline_len : Z;
  ll_kernel_image : LinuxMemoryRange;
  ll_kernel_image_file_offset : Z;
  ll_compressed_payload_file_offset : Z;
  ll_compressed_payload_length : Z;
  ll_initramfs : option LinuxMemoryRange;
  ll_device_mmio : LinuxMemoryRange;
  ll_apic_mmio : LinuxMemoryRange;
  ll_e820_entries : list E820Entry }.
Record LinuxBootPlan := mkPlan { lp_layout : LinuxBootLayout; lp_boot_params : bytes; lp_cmdline_image : bytes }.

(** ** The [boot_params] page *)

(** [page[at..at + s.len()].copy_from_slice(s)]. *)
Definition store (at_ : nat) (s : bytes) : method bytes Error unit := fun page =>
  if (at_ + length s <=? length page)%nat then (Ok tt, put at_ s page) else (Panic, page).
Definition put_u8 (at_ : nat) (v : Z) := store at_ [v].
Definition put_u16 (at_ : nat) (v : Z) := store at_ (le_bytes 2 v).
Definition put_u32 (at_ : nat) (v : Z) := store at_ (le_bytes 4 v).
Definition put_u64 (at_ : nat) (v : Z) := store at_ (le_bytes 8 v).

Fixpoint put_e820 (index : nat) (entries : list E820Entry) : method bytes Error unit :=
  match entries with
  | [] => mret tt
  | entry :: entries =>
      let at_ := (ZERO_PAGE_E820_TABLE_OFF + index * E820_ENTRY_SIZE)%nat in
      _ ← put_u64 at_ (e_addr entry);
      _ ← put_u64 (at_ + 8) (e_size entry);
      _ ← put_u32 (at_ + 16) (e_kind entry);
      put_e820 (index + 1) entries
  end.

Definition fill_boot_params (header : BzImageLayout) (layout : LinuxBootLayout) : method bytes Error unit :=
  _ ← store SETUP_SECTS_OFF (bz_setup_header header);
  _ ← put_u8 ZERO_PAGE_E820_COUNT_OFF (Z.of_nat (length (ll_e820_entries layout)) mod 2 ^ 8);
  _ ← put_u8 SETUP_SECTS_OFF (bz_setup_sects header);
  _ ← store HEADER_MAGIC_OFF HEADER_MAGIC;
  _ ← put_u16 PROTOCOL_VERSION_OFF (bz_protocol_version header);
  _ ← put_u8 TYPE_OF_LOADER_OFF LINUX_TYPE_OF_LOADER;
  _ ← put_u8 LOADFLAGS_OFF (Z.lor (bz_loadflags header) LOADFLAGS_CAN_USE_HEAP);
  _ ← put_u32 CODE32_START_OFF (to_u32 (lr_start (ll_kernel_image layout)));
  _ ← match ll_initramfs layout with
      | Some initramfs =>
          _ ← put_u32 RAMDISK_IMAGE_OFF (to_u32 (lr_start initramfs));
          put_u32 RAMDISK_SIZE_OFF (to_u32 (lr_len initramfs))
      | None => mret tt
      end;
  _ ← put_u16 HEAP_END_PTR_OFF LINUX_HEAP_END_PTR;
  _ ← put_u32 CMD_LINE_PTR_OFF (to_u32 (lr_start (ll_cmdline layout)));
  _ ← put_u32 INITRD_ADDR_MAX_OFF (bz_initrd_addr_max header);
  _ ← put_u32 KERNEL_ALIGNMENT_OFF (bz_kernel_alignment header);
  _ ← put_u8 RELOCATABLE_KERNEL_OFF (if bz_relocatable_kernel header then 1 else 0);
  _ ← put_u16 XLOADFLAGS_OFF (bz_xloadflags header);
  _ ← put_u32 CMDLINE_SIZE_OFF (bz_cmdline_size header);
  _ ← put_u64 SETUP_DATA_OFF (LINUX_BOOT_PARAMS_GPA + Z.of_nat SETUP_RNG_SEED_OFF);
  _ ← put_u64 PREF_ADDRESS_OFF (bz_pref_address header);
  _ ← put_u64 SETUP_RNG_SEED_OFF 0;
  _ ← put_u32 (SETUP_RNG_SEED_OFF + 8) SETUP_RNG_SEED_TYPE;
  _ ← put_u32 (SETUP_RNG_SEED_OFF + 12) (Z.of_nat (length SETUP_RNG_SEED));
  _ ← store (SETUP_RNG_SEED_OFF + SETUP_DATA_HEADER_LEN) SETUP_RNG_SEED;
  put_e820 0 (ll_e820_entries layout).

Definition build_boot_params (header : BzImageLayout) (layout : LinuxBootLayout) : outcome Error bytes :=
  fail (E820TooManyEntries (length (ll_e820_entries layout)) E820_TABLE_CAP)
    when (E820_TABLE_CAP <? length (ll_e820_entries layout))%nat;
  fail (RangeOverflow "setup_header") when (LINUX_BOOT_PARAMS_SIZE <? SETUP_SECTS_OFF + length (bz_setup_header header))%nat;
  match fill_boot_params header layout (replicate LINUX_BOOT_PARAMS_SIZE 0) with
  | (Ok _, page) => Ok page
  | (Err e, _) => Err e
  | (Panic, _) => Panic
  end.

(** ** The plan *)

Definition place_initramfs (header : BzImageLayout) (mem_bytes initramfs_len kernel_reserved_end : Z) :
    outcome Error (option LinuxMemoryRange) :=
  let initramfs_limit := Z.min mem_bytes (saturating_add (bz_initrd_addr_max header) 1) in
  fail (InitramfsTooLarge initramfs_len initramfs_limit) when initramfs_limit <? initramfs_len;
  if initramfs_len =? 0 then Ok None
  else
    initramfs_reserved_len ← align_up initramfs_len PAGE_SIZE;
    let initramfs_end := align_down initramfs_limit PAGE_SIZE in
    initramfs_start ← ok_or (InitramfsTooLarge initramfs_len initramfs_limit) (checked_sub initramfs_end initramfs_reserved_len);
    fail (InitramfsOverlapsKernel initramfs_start kernel_reserved_end) when initramfs_start <? kernel_reserved_end;
    Ok (Some (mkRange initramfs_start initramfs_len)).

Definition plan_bzimage_boot (header : BzImageLayout) (mem_bytes initramfs_len : Z) (cmdline : bytes) :
    outcome Error LinuxBootPlan :=
  let cmdline_len := Z.of_nat (length cmdline) in
  fail (LayoutCmdlineTooLong cmdline_len (Z.of_nat MAX_CMDLINE)) when Z.of_nat MAX_CMDLINE <? cmdline_len;
  cmdline_image_len ← ok_or (RangeOverflow "cmdline") (try_u64 (cmdline_len + 1));
  fail (LayoutCmdlineTooLong cmdline_len (LINUX_CMDLINE_RESERVED_LEN - 1))
    when LINUX_CMDLINE_RESERVED_LEN <? cmdline_image_len;
  fail (MemOverlapsApicMmio mem_bytes LINUX_APIC_MMIO_BASE) when LINUX_APIC_MMIO_BASE <? mem_bytes;
  fail (MemOverlapsDeviceWindow mem_bytes MMIO_HOLE_BASE) when MMIO_HOLE_BASE <? mem_bytes;
  kernel_reserved_len ← align_up (Z.max (bz_kernel_image_length header) (bz_init_size header)) PAGE_SIZE;
  kernel_reserved_end ← ok_or (RangeOverflow "kernel") (checked_add LINUX_KERNEL_LOAD_GPA kernel_reserved_len);
  fail (KernelOutsideRam kernel_reserved_end mem_bytes) when mem_bytes <? kernel_reserved_end;
  initramfs ← place_initramfs header mem_bytes initramfs_len kernel_reserved_end;
  e820_entries ← build_e820_entries mem_bytes kernel_reserved_len initramfs;
  let layout := mkLinuxLayout
    (mkRange LINUX_PAGE_TABLES_GPA LINUX_PAGE_TABLES_LEN)
    (mkRange LINUX_BOOT_PARAMS_GPA (Z.of_nat LINUX_BOOT_PARAMS_SIZE))
    (mkRange LINUX_CMDLINE_GPA LINUX_CMDLINE_RESERVED_LEN) (to_u32 cmdline_len)
    (mkRange LINUX_KERNEL_LOAD_GPA (bz_kernel_image_length header)) (bz_kernel_image_file_offset header)
    (bz_payload_file_offset header) (bz_payload_length header) initramfs
    (mkRange MMIO_HOLE_BASE MMIO_HOLE_LEN) (mkRange LINUX_APIC_MMIO_BASE LINUX_APIC_MMIO_LEN) e820_entries in
  boot_params ← build_boot_params header layout;
  Ok (mkPlan layout boot_params (cmdline ++ [0])).
End Linux.
