(* ===== verification/BzimageOk.v ===== *)
(** * The bzImage header, checked

    The parser never panics, and what it accepts is a header of its image. *)

From Stdlib Require Import String.
From stdpp Require Import strings.
From S2P Require Import Prelude Config SlotVm Bzimage.
Import Linux.
Local Open Scope string_scope.
Local Open Scope list_scope.
Local Open Scope Z_scope.

(** ** Alignment *)

Lemma ldiff_page v : Z.ldiff v (PAGE_SIZE - 1) = v - v mod PAGE_SIZE.
Proof.
  change (PAGE_SIZE - 1) with (Z.ones 12). rewrite Z.ldiff_ones_r by lia. rewrite Z.shiftr_div_pow2, Z.shiftl_mul_pow2 by lia.
  change (2 ^ 12) with PAGE_SIZE. pose proof (Z.div_mod v PAGE_SIZE). unfold PAGE_SIZE in *. lia.
Qed.
Lemma page_floor v : v - PAGE_SIZE < v - v mod PAGE_SIZE <= v /\ (v - v mod PAGE_SIZE) mod PAGE_SIZE = 0.
Proof.
  pose proof (Z.div_mod v PAGE_SIZE ltac:(done)). pose proof (Z.mod_pos_bound v PAGE_SIZE ltac:(done)). split; [lia|].
  replace (v - v mod PAGE_SIZE) with (v / PAGE_SIZE * PAGE_SIZE) by lia. apply Z_mod_mult.
Qed.
Lemma align_up_page v r : align_up v PAGE_SIZE = Ok r -> v <= r < v + PAGE_SIZE /\ r mod PAGE_SIZE = 0.
Proof.
  unfold align_up, checked_add, try_u64. destruct (_ <=? _); [|done]. intros [= <-]. rewrite ldiff_page.
  destruct (page_floor (v + (PAGE_SIZE - 1))) as [Hb Hm]. split; [|exact Hm]. clear Hm. set (x := _ - _ mod _) in *. lia.
Qed.
Lemma align_down_page v : v - PAGE_SIZE < align_down v PAGE_SIZE <= v /\ align_down v PAGE_SIZE mod PAGE_SIZE = 0.
Proof. unfold align_down. rewrite ldiff_page. apply page_floor. Qed.

(** ** The parser *)

(** The facts about a header the planner relies on. *)
Record header_ok (image : bytes) (h : BzImageLayout) : Prop := {
  ho_setup : bz_setup_header h = slice SETUP_SECTS_OFF (length (bz_setup_header h)) image;
  ho_setup_len : (0x77 <= length (bz_setup_header h) <= 0x110)%nat;
  ho_magic : slice HEADER_MAGIC_OFF 4 image = HEADER_MAGIC;
  ho_version : bz_protocol_version h = of_le (slice PROTOCOL_VERSION_OFF 2 image);
  ho_sects : 1 <= bz_setup_sects h <= 255;
  ho_setup_bytes : bz_setup_bytes h = (bz_setup_sects h + 1) * SECTOR;
  ho_offset : bz_kernel_image_file_offset h = bz_setup_bytes h;
  ho_kernel : bz_kernel_image_file_offset h + bz_kernel_image_length h = Z.of_nat (length image);
  ho_kernel_pos : 0 < bz_kernel_image_length h;
  ho_payload : bz_setup_bytes h <= bz_payload_file_offset h /\ 0 < bz_payload_length h /\
    bz_payload_file_offset h + bz_payload_length h <= Z.of_nat (length image);
  ho_init : bz_init_size h = of_le (slice INIT_SIZE_OFF 4 image) /\ 0 < bz_init_size h;
  ho_flags : bz_loadflags h = of_le (slice LOADFLAGS_OFF 1 image);
  ho_xflags : bz_xloadflags h = of_le (slice XLOADFLAGS_OFF 2 image);
  ho_align : bz_kernel_alignment h = of_le (slice KERNEL_ALIGNMENT_OFF 4 image);
  ho_reloc : bz_relocatable_kernel h = negb (of_le (slice RELOCATABLE_KERNEL_OFF 1 image) =? 0);
  ho_pref : bz_pref_address h = of_le (slice PREF_ADDRESS_OFF 8 image);
  ho_initrd : bz_initrd_addr_max h = of_le (slice INITRD_ADDR_MAX_OFF 4 image);
  ho_cmdline : bz_cmdline_size h = of_le (slice CMDLINE_SIZE_OFF 4 image) }.

Lemma u8at_ok b o : (o + 1 <= length b)%nat -> u8at b o = Ok (of_le (slice o 1 b)).
Proof. apply read_le_ok. Qed.
Lemma u16le_ok b o : (o + 2 <= length b)%nat -> u16le b o = Ok (of_le (slice o 2 b)).
Proof. apply read_le_ok. Qed.
Lemma u32le_ok b o : (o + 4 <= length b)%nat -> u32le b o = Ok (of_le (slice o 4 b)).
Proof. apply read_le_ok. Qed.
Lemma u64le_ok b o : (o + 8 <= length b)%nat -> u64le b o = Ok (of_le (slice o 8 b)).
Proof. apply read_le_ok. Qed.

(** Arithmetic with the offsets unfolded. *)
Ltac off_lia :=
  unfold SETUP_SECTS_OFF, SETUP_HEADER_LEN_OFF, HEADER_MAGIC_OFF, PROTOCOL_VERSION_OFF, TYPE_OF_LOADER_OFF, LOADFLAGS_OFF,
    CODE32_START_OFF, RAMDISK_IMAGE_OFF, RAMDISK_SIZE_OFF, HEAP_END_PTR_OFF, CMD_LINE_PTR_OFF, INITRD_ADDR_MAX_OFF,
    KERNEL_ALIGNMENT_OFF, RELOCATABLE_KERNEL_OFF, XLOADFLAGS_OFF, CMDLINE_SIZE_OFF, HARDWARE_SUBARCH_OFF,
    HARDWARE_SUBARCH_DATA_OFF, PAYLOAD_OFFSET_OFF, PAYLOAD_LENGTH_OFF, SETUP_DATA_OFF, PREF_ADDRESS_OFF, INIT_SIZE_OFF,
    SETUP_HEADER_END, ZERO_PAGE_E820_COUNT_OFF, ZERO_PAGE_E820_TABLE_OFF, SETUP_RNG_SEED_OFF, SETUP_DATA_HEADER_LEN, LINUX_BOOT_PARAMS_SIZE in *;
  lia.

Lemma reject_cases f v :
  reject_unsupported_header_field f v = Ok tt \/ exists e, reject_unsupported_header_field f v = Err e.
Proof. unfold reject_unsupported_header_field. destruct (v =? 0); eauto. Qed.

(** The next early return or checked operation of the parser. *)
Ltac bz_step :=
  match goal with
  | |- context [if ?c then Err _ else _] => destruct c eqn:?; [done|]
  | |- context [u8at ?b ?o] => rewrite (u8at_ok b o) by off_lia
  | |- context [u16le ?b ?o] => rewrite (u16le_ok b o) by off_lia
  | |- context [u32le ?b ?o] => rewrite (u32le_ok b o) by off_lia
  | |- context [u64le ?b ?o] => rewrite (u64le_ok b o) by off_lia
  | |- context [ok_or _ ?o] => destruct o eqn:?; cbn [ok_or mbind outcome_bind]; [|done]
  | |- context [reject_unsupported_header_field ?f ?v] =>
      destruct (reject_cases f v) as [->|[? ->]]; [|done]
  end; cbn [mbind outcome_bind].

Lemma parse_cases image initramfs_len cmdline_len mem_bytes :
  match parse_bzimage image initramfs_len cmdline_len mem_bytes with
  | Ok h => bytes_ok image -> header_ok image h
  | Err _ => True
  | Panic => False
  end.
Proof.
  unfold parse_bzimage. bz_step. rewrite read_bytes_ok by off_lia. cbn [mbind outcome_bind].
  repeat bz_step. intros Hb.
  repeat match goal with H : _ || _ = false |- _ => apply orb_false_iff in H as [? ?] end.
  unfold checked_add, checked_sub, try_u64, get_range in *.
  repeat match goal with H : (if ?c then Some _ else None) = Some _ |- _ => destruct c eqn:?; [|done]; injection H as <- end.
  assert (forall o n, (o + n <= 0x268)%nat -> 0 <= of_le (slice o n image) < 256 ^ Z.of_nat n) as Hs
    by (intros; apply of_le_slice_bound; [done|off_lia]).
  pose proof (Hs SETUP_SECTS_OFF 1%nat ltac:(off_lia)). pose proof (Hs SETUP_HEADER_LEN_OFF 1%nat ltac:(off_lia)).
  pose proof (Hs PAYLOAD_OFFSET_OFF 4%nat ltac:(off_lia)). pose proof (Hs PAYLOAD_LENGTH_OFF 4%nat ltac:(off_lia)).
  pose proof (Hs INIT_SIZE_OFF 4%nat ltac:(off_lia)). clear Hs.
  match goal with H : _ && _ = true |- _ => apply andb_true_iff in H as [? ?] end.
  split; cbn -[slice]; try done.
  - f_equal. rewrite length_slice; [done|]. off_lia.
  - rewrite length_slice; off_lia.
  - by apply negb_false_iff, bool_decide_eq_true in Heqb0.
  - unfold DEFAULT_SETUP_SECTS. destruct (of_le (slice SETUP_SECTS_OFF 1 image) =? 0) eqn:?; lia.
  - lia.
  - lia.
  - lia.
  - lia.
Qed.

Lemma parse_length image initramfs_len cmdline_len mem_bytes h :
  parse_bzimage image initramfs_len cmdline_len mem_bytes = Ok h -> (SETUP_HEADER_END <= length image)%nat.
Proof. unfold parse_bzimage. destruct (_ <? _) eqn:Hl; [done|]. intros _. lia. Qed.
