(* ===== verification/LinuxPlan.v ===== *)
(** * The e820 map and the [boot_params] page, checked

    The e820 map says of every address what it is; the [boot_params] page reads
    back as the layout it was built from. *)

From Stdlib Require Import String.
From stdpp Require Import strings.
From S2P Require Import Prelude Config SlotVm Bzimage BzimageOk.
Import Linux.
Local Open Scope string_scope.
Local Open Scope list_scope.
Local Open Scope Z_scope.

(** ** The e820 map *)

(** What the map says of an address: the kind of the first entry that holds it. *)
Definition holds (a : Z) (e : E820Entry) : bool := (e_addr e <=? a) && (a <? e_addr e + e_size e).
Definition kind_at (es : list E820Entry) (a : Z) : option Z := e_kind <$> List.find (holds a) es.
(** Ascending, without overlaps or empty entries. *)
Fixpoint ordered_from (from : Z) (es : list E820Entry) : bool :=
  match es with
  | [] => true
  | e :: es => (from <=? e_addr e) && (0 <? e_size e) && ordered_from (e_addr e + e_size e) es
  end.
Definition within (r : LinuxMemoryRange) (a : Z) : bool := (lr_start r <=? a) && (a <? lr_start r + lr_len r).

(** The reference: RAM is what is inside [mem_bytes] and not set aside. *)
Definition set_aside (kernel_len : Z) (initramfs : option LinuxMemoryRange) : list LinuxMemoryRange :=
  [mkRange 0 LINUX_LOW_RESERVED_LEN; mkRange LINUX_LEGACY_IO_HOLE_BASE LINUX_LEGACY_IO_HOLE_LEN;
   mkRange LINUX_KERNEL_LOAD_GPA kernel_len] ++ option_list initramfs.
Definition windows : list LinuxMemoryRange :=
  [mkRange MMIO_HOLE_BASE MMIO_HOLE_LEN; mkRange LINUX_APIC_MMIO_BASE LINUX_APIC_MMIO_LEN].
Definition e820_spec (mem_bytes : Z) (reserved : list LinuxMemoryRange) (a : Z) : option Z :=
  if existsb (fun r => within r a) (reserved ++ windows) then Some E820_RESERVED
  else if (0 <=? a) && (a <? mem_bytes) then Some E820_RAM else None.

(** The map of ascending reserved ranges from a cursor. *)
Definition ram (a b : Z) : list E820Entry := if a <? b then [mkE820 a (b - a) E820_RAM] else [].
Definition res (r : LinuxMemoryRange) : E820Entry := mkE820 (lr_start r) (lr_len r) E820_RESERVED.
Definition past (r : LinuxMemoryRange) : Z := lr_start r + lr_len r.
Fixpoint tiles (c : Z) (rs : list LinuxMemoryRange) : list E820Entry :=
  match rs with [] => [] | r :: rs => ram c (lr_start r) ++ res r :: tiles (past r) rs end.
Fixpoint last_end (c : Z) (rs : list LinuxMemoryRange) : Z := match rs with [] => c | r :: rs => last_end (past r) rs end.
Fixpoint chain (c limit : Z) (rs : list LinuxMemoryRange) : Prop :=
  match rs with [] => c <= limit | r :: rs => c <= lr_start r /\ 0 < lr_len r /\ chain (past r) limit rs end.

Lemma chain_end c limit rs : chain c limit rs -> c <= last_end c rs <= limit.
Proof.
  revert c. induction rs as [|r rs IH]; intros c; cbn [chain last_end]; [lia|]. intros (? & ? & H). apply IH in H.
  unfold past in *. lia.
Qed.
Lemma ram_push es a b : (if a <? b then push_e820 es a (b - a) E820_RAM else es) = es ++ ram a b.
Proof.
  unfold ram, push_e820. destruct (Z.ltb_spec a b); [|by rewrite app_nil_r]. by rewrite (proj2 (Z.eqb_neq (b - a) 0)) by lia.
Qed.

Lemma loop_tiles mem rs : forall es c, mem <= u64_max -> chain c mem rs ->
  e820_loop mem rs es c = Ok (es ++ tiles c rs, last_end c rs).
Proof.
  induction rs as [|[st len] rs IH]; intros es c Hm; cbn [chain e820_loop tiles last_end lr_start]; [by rewrite app_nil_r|].
  intros (Hc & Hl & Hr). pose proof (chain_end _ _ _ Hr) as He. cbn [lr_start lr_len past] in *. unfold past in *. cbn [lr_start lr_len] in *.
  rewrite (proj2 (Z.ltb_lt st mem)) by lia. unfold range_end, try_u64. cbn [lr_start lr_len].
  rewrite (proj2 (Z.leb_le (st + len) u64_max)) by lia. cbn [mbind outcome_bind].
  rewrite Z.min_l, ram_push, (proj2 (Z.ltb_lt c (st + len))) by lia. rewrite IH by done. unfold push_e820.
  rewrite (proj2 (Z.eqb_neq (st + len - st) 0)) by lia. rewrite <- !(assoc_L (++)). do 3 f_equal. cbn [app]. unfold res. cbn [lr_start lr_len].
  do 3 f_equal. lia.
Qed.

Lemma find_ram a c b rest :
  List.find (holds a) (ram c b ++ rest) = if (c <=? a) && (a <? b) then Some (mkE820 c (b - c) E820_RAM) else List.find (holds a) rest.
Proof.
  unfold ram. destruct (Z.ltb_spec c b); cbn [app List.find]; unfold holds; cbn [e_addr e_size].
  - by replace (c + (b - c)) with b by lia.
  - destruct (Z.leb_spec c a); [|done]. by destruct (Z.ltb_spec a b); [lia|].
Qed.
Lemma kind_tiles limit a rest rs : forall c, chain c limit rs ->
  kind_at (tiles c rs ++ rest) a =
    if (c <=? a) && (a <? last_end c rs) then Some (if existsb (fun r => within r a) rs then E820_RESERVED else E820_RAM)
    else kind_at rest a.
Proof.
  unfold kind_at. induction rs as [|r rs IH]; intros c; cbn [chain tiles last_end existsb].
  - intros _. destruct (Z.leb_spec c a); [|done]. by destruct (Z.ltb_spec a c); [lia|].
  - intros (Hc & Hl & Hr). pose proof (chain_end _ _ _ Hr) as He. rewrite <- (assoc_L (++)), find_ram. cbn [app List.find].
    change (holds a (res r)) with ((lr_start r <=? a) && (a <? past r)).
    change (within r a) with ((lr_start r <=? a) && (a <? past r)). specialize (IH _ Hr).
    assert (forall rs c, chain c limit rs -> a < c -> existsb (fun r => within r a) rs = false) as Hlow.
    { clear. induction rs as [|x rs IH]; intros c; [done|]. cbn. unfold within at 1. intros (? & ? & Hx) Ha.
      rewrite (IH (past x)) by (done || (unfold past; lia)). unfold past in *. by replace (lr_start x <=? a) with false by lia. }
    destruct (Z.leb_spec c a), (Z.ltb_spec a (lr_start r)), (Z.leb_spec (lr_start r) a), (Z.ltb_spec a (past r));
      try (unfold past in *; lia); cbn [andb orb fmap option_fmap option_map e_kind]; rewrite ?IH.
    + by rewrite (Hlow rs (past r)), (proj2 (Z.ltb_lt a _)) by (done || lia).
    + by rewrite (proj2 (Z.ltb_lt a _)) by lia.
    + by rewrite (proj2 (Z.leb_le _ a)) by lia.
    + by rewrite (proj2 (Z.leb_gt _ a)) by (unfold past; lia).
Qed.

Lemma chain_within c limit a rs : chain c limit rs -> existsb (fun r => within r a) rs = true -> c <= a < last_end c rs.
Proof.
  revert c. induction rs as [|r rs IH]; intros c; cbn [chain existsb last_end]; [done|]. intros (? & ? & Hr).
  pose proof (chain_end _ _ _ Hr). unfold past in *. change (within r a) with ((lr_start r <=? a) && (a <? lr_start r + lr_len r)). intros [Hw|Hw]%orb_true_iff; [lia|].
  specialize (IH _ Hr Hw). lia.
Qed.
Lemma ordered_weaken c c' es : c' <= c -> ordered_from c es = true -> ordered_from c' es = true.
Proof. destruct es as [|e es]; [done|]. cbn. rewrite !andb_true_iff. intros ? [[? ?] ?]. split_and!; [lia|done..]. Qed.
Lemma ordered_ram c b es : c <= b -> ordered_from b es = true -> ordered_from c (ram c b ++ es) = true.
Proof.
  intros Hb He. unfold ram. destruct (Z.ltb_spec c b); [|by eapply ordered_weaken]. cbn [app ordered_from e_addr e_size].
  replace (c + (b - c)) with b by lia. rewrite !andb_true_iff. split_and!; [lia..|done].
Qed.
Lemma ordered_tiles limit es rs : forall c, chain c limit rs -> ordered_from (last_end c rs) es = true ->
  ordered_from c (tiles c rs ++ es) = true.
Proof.
  induction rs as [|r rs IH]; intros c; cbn [chain tiles last_end]; [done|]. intros (? & ? & ?) He.
  rewrite <- (assoc_L (++)). apply ordered_ram; [done|]. cbn [app ordered_from]. rewrite !andb_true_iff. cbn [res e_addr e_size].
  split_and!; [lia..|]. by apply IH.
Qed.
Lemma ram_length c b : (length (ram c b) <= 1)%nat.
Proof. unfold ram. case_match; cbn; lia. Qed.
Lemma tiles_length rs : forall c, (length (tiles c rs) <= 2 * length rs)%nat.
Proof.
  induction rs as [|r rs IH]; intros c; cbn [tiles length]; [lia|]. rewrite length_app. cbn [length].
  pose proof (ram_length c (lr_start r)). specialize (IH (past r)). lia.
Qed.

(** Entries that fit the table's fields. *)
Definition e820_fits (e : E820Entry) : Prop := u64 (e_addr e) /\ u64 (e_size e) /\ u32 (e_kind e).
Lemma ram_fits c b : 0 <= c -> b <= u64_max -> Forall e820_fits (ram c b).
Proof.
  intros. unfold ram. destruct (Z.ltb_spec c b); [|done]. apply List.Forall_cons; [|done]. unfold e820_fits, E820_RAM. cbn [e_addr e_size e_kind]. ulia.
Qed.
Lemma tiles_fit limit rs : limit <= u64_max -> forall c, 0 <= c -> chain c limit rs -> Forall e820_fits (tiles c rs).
Proof.
  intros Hl. induction rs as [|r rs IH]; intros c Hc; cbn [chain tiles]; [done|]. intros (? & ? & Hr).
  pose proof (chain_end _ _ _ Hr). unfold past in *. apply Forall_app_2; [apply ram_fits; lia|].
  apply List.Forall_cons; [|apply IH; [lia|done]]. unfold e820_fits, res, E820_RESERVED. cbn [e_addr e_size e_kind]. ulia.
Qed.

(** The ranges the source sets aside, in order: the sort moves nothing. *)
Lemma sorted_ranges c limit rs : chain c limit rs -> sort_ranges rs = rs.
Proof.
  revert c. induction rs as [|r rs IH]; intros c; [done|]. cbn [chain]. intros (? & ? & Hr). unfold sort_ranges in *. cbn [foldr].
  rewrite (IH _ Hr). destruct rs as [|x rs]; [done|]. cbn in *. unfold past in *. by rewrite (proj2 (Z.leb_le _ _)) by lia.
Qed.

(** The initramfs with its length rounded up to pages. *)
Definition padded (r : LinuxMemoryRange) (n : Z) : LinuxMemoryRange := mkRange (lr_start r) n.

Lemma e820_exact mem_bytes kernel_len (initramfs rounded : option LinuxMemoryRange) :
  chain 0 mem_bytes (set_aside kernel_len rounded) -> mem_bytes <= MMIO_HOLE_BASE ->
  match initramfs with
  | Some r => exists n, align_up (lr_len r) PAGE_SIZE = Ok n /\ rounded = Some (padded r n)
  | None => rounded = None
  end ->
  exists es, build_e820_entries mem_bytes kernel_len initramfs = Ok es /\ ordered_from 0 es = true /\ (length es <= 12)%nat /\
    Forall e820_fits es /\ forall a, kind_at es a = e820_spec mem_bytes (set_aside kernel_len rounded) a.
Proof.
  intros Hc Hm Hr. unfold build_e820_entries. set (low := [mkRange 0 _; _; _]).
  assert (set_aside kernel_len rounded = low ++ option_list rounded) as Ha by done.
  replace (match initramfs with Some r => _ | None => _ end) with
    (Ok (set_aside kernel_len rounded) : outcome LinuxBootLayoutError (list LinuxMemoryRange)).
  2:{ rewrite Ha. destruct initramfs as [r|]; [destruct Hr as (n & -> & ->); done|]. rewrite Hr. by rewrite app_nil_r. }
  cbn [mbind outcome_bind]. rewrite (sorted_ranges _ _ _ Hc).
  assert (MMIO_HOLE_BASE <= u64_max) as Hu by done. rewrite loop_tiles by (done || lia). cbn [mbind outcome_bind app]. rewrite ram_push.
  set (rs := set_aside kernel_len rounded) in *. pose proof (chain_end _ _ _ Hc) as He. set (c := last_end 0 rs) in *.
  change (push_e820 (push_e820 ?l _ _ _) _ _ _) with ((l ++ [res (mkRange MMIO_HOLE_BASE MMIO_HOLE_LEN)]) ++ [res (mkRange LINUX_APIC_MMIO_BASE LINUX_APIC_MMIO_LEN)]).
  rewrite <- !(assoc_L (++)). cbn [app]. set (es := tiles 0 rs ++ _).
  assert (length es <= 12)%nat as Hl.
  { unfold es. rewrite !length_app. cbn [length]. pose proof (tiles_length rs 0). pose proof (ram_length c mem_bytes).
    assert (length rs <= 4)%nat by (rewrite Ha, length_app; destruct rounded; cbn; lia). lia. }
  rewrite (proj2 (Nat.ltb_ge _ _)) by (unfold E820_TABLE_CAP; lia). exists es. split; [done|]. split_and!; [|done| |].
  - eapply ordered_tiles; [done|]. apply ordered_ram; [lia|]. cbn [ordered_from res e_addr e_size lr_start lr_len].
    by rewrite (proj2 (Z.leb_le mem_bytes _) Hm).
  - apply Forall_app_2; [apply (tiles_fit mem_bytes); [lia|done|exact Hc]|]. apply Forall_app_2; [apply ram_fits; lia|].
    repeat apply List.Forall_cons; try apply List.Forall_nil; by repeat split.
  - intros a. unfold es. rewrite (kind_tiles _ _ _ _ _ Hc). fold c. unfold e820_spec, kind_at. rewrite find_ram, existsb_app.
    cbn [windows existsb List.find]. rewrite orb_false_r.
    change (holds a (res ?r)) with (within r a). set (w1 := within _ a). set (w2 := within _ a).
    assert (w1 = true -> mem_bytes <= a) as H1 by (unfold w1, within; cbn [lr_start lr_len]; lia).
    assert (w2 = true -> mem_bytes <= a) as H2
      by (assert (MMIO_HOLE_BASE <= LINUX_APIC_MMIO_BASE) by done; unfold w2, within; cbn [lr_start lr_len]; lia).
    pose proof (chain_within _ _ a _ Hc) as H3. fold c in H3. set (w := existsb _ rs) in *. clearbody w w1 w2 c. clear es Hl.
    destruct w; [rewrite (proj2 (Z.leb_le 0 a)), (proj2 (Z.ltb_lt a c)) by lia; done|]. cbn [orb].
    destruct (Z.leb_spec 0 a), (Z.ltb_spec a c), (Z.leb_spec c a), (Z.ltb_spec a mem_bytes); try lia; cbn [andb];
      destruct w1, w2; try done; lia.
Qed.

(** ** The [boot_params] page *)

(** The map as the kernel decodes it from the page. *)
Definition e820_at (page : bytes) (i : nat) : E820Entry :=
  let o := (ZERO_PAGE_E820_TABLE_OFF + i * E820_ENTRY_SIZE)%nat in
  mkE820 (of_le (slice o 8 page)) (of_le (slice (o + 8) 8 page)) (of_le (slice (o + 16) 4 page)).
Definition e820_of (page : bytes) : list E820Entry :=
  e820_at page <$> seq 0 (Z.to_nat (of_le (slice ZERO_PAGE_E820_COUNT_OFF 1 page))).

(** A sequence of stores, then the rest. *)
Fixpoint stores (ws : list (nat * bytes)) (k : method bytes LinuxBootLayoutError unit) : method bytes LinuxBootLayoutError unit :=
  match ws with [] => k | (o, s) :: ws => _ ← store o s; stores ws k end.
Fixpoint puts (ws : list (nat * bytes)) (page : bytes) : bytes :=
  match ws with [] => page | (o, s) :: ws => puts ws (put o s page) end.
Definition fits (size : nat) (w : nat * bytes) : bool := (w.1 + length w.2 <=? size)%nat.
Definition misses (o n : nat) (w : nat * bytes) : bool := (w.1 + length w.2 <=? o)%nat || (o + n <=? w.1)%nat.

Lemma store_ok o s page : (o + length s <= length page)%nat -> store o s page = (Ok tt, put o s page).
Proof. intros H. unfold store. by rewrite (proj2 (Nat.leb_le _ _) H). Qed.
Lemma stores_ok k ws : forall page, forallb (fits (length page)) ws = true ->
  stores ws k page = k (puts ws page) /\ length (puts ws page) = length page.
Proof.
  induction ws as [|[o s] ws IH]; intros page; cbn [forallb stores puts]; [done|]. intros [Hf Hws]%andb_true_iff.
  apply Nat.leb_le in Hf. cbn [fst snd] in Hf. unfold mbind, method_bind. rewrite store_ok by done.
  assert (length (put o s page) = length page) as Hl by by apply length_put. destruct (IH (put o s page)) as [-> ->]; by rewrite Hl.
Qed.
Lemma puts_miss o n ws : forall page, forallb (fits (length page)) ws = true -> forallb (misses o n) ws = true ->
  slice o n (puts ws page) = slice o n page.
Proof.
  induction ws as [|[o' s] ws IH]; intros page; cbn [forallb puts]; [done|]. intros [Hf Hws]%andb_true_iff [Hm Hmiss]%andb_true_iff.
  apply Nat.leb_le in Hf. unfold misses in Hm. cbn [fst snd] in *. rewrite IH; [apply slice_put_ne; lia| |done].
  by rewrite length_put.
Qed.
Lemma puts_hit i o s ws page : ws !! i = Some (o, s) -> forallb (fits (length page)) ws = true ->
  forallb (misses o (length s)) (drop (Datatypes.S i) ws) = true -> slice o (length s) (puts ws page) = s.
Proof.
  revert page i. induction ws as [|[o' s'] ws IH]; intros page i; [done|]. cbn [forallb puts]. intros Hi [Hf Hws]%andb_true_iff.
  apply Nat.leb_le in Hf. cbn [fst snd] in Hf. assert (length (put o' s' page) = length page) as Hl by by apply length_put.
  destruct i as [|i]; cbn in Hi.
  - injection Hi as -> ->. cbn [drop]. rewrite drop_0. intros Hm. rewrite puts_miss by (rewrite ?Hl; done). by apply slice_put_same.
  - intros Hm. by apply (IH _ i); rewrite ?Hl.
Qed.

Lemma puts_read i o n s ws page : ws !! i = Some (o, s) -> length s = n -> forallb (fits (length page)) ws = true ->
  forallb (misses o n) (drop (Datatypes.S i) ws) = true -> slice o n (puts ws page) = s.
Proof. intros Hi <- Hf Hm. by eapply puts_hit. Qed.

Lemma store_bind {A} o s (k : unit -> method bytes LinuxBootLayoutError A) page :
  (o + length s <= length page)%nat -> (store o s ≫= k) page = k tt (put o s page).
Proof. intros H. unfold mbind, method_bind. by rewrite store_ok. Qed.
Lemma slice_split {A} o n m (l : list A) : slice o (n + m) l = slice o n l ++ slice (o + n) m l.
Proof. unfold slice. rewrite <- take_take_drop, drop_drop. done. Qed.
Lemma slice_put_in {A} o n (s d : list A) o' : (o + length s <= length d)%nat -> (o <= o' /\ o' + n <= o + length s)%nat ->
  slice o' n (put o s d) = slice (o' - o) n s.
Proof.
  intros Hl Ho. unfold put. rewrite slice_app_r by (rewrite length_take; lia). rewrite length_take, Nat.min_l by lia.
  apply slice_app_l. lia.
Qed.

Lemma put_e820_ok es : forall i page, length page = LINUX_BOOT_PARAMS_SIZE -> Forall e820_fits es -> (i + length es <= 12)%nat ->
  exists page', put_e820 i es page = (Ok tt, page') /\ length page' = LINUX_BOOT_PARAMS_SIZE /\
    (forall j, (i <= j < i + length es)%nat -> Some (e820_at page' j) = es !! (j - i)%nat) /\
    (forall o n, (o + n <= ZERO_PAGE_E820_TABLE_OFF + i * 20 \/ ZERO_PAGE_E820_TABLE_OFF + 12 * 20 <= o)%nat ->
       slice o n page' = slice o n page).
Proof.
  induction es as [|[a z k] es IH]; intros i page Hp Hf Hi; cbn [put_e820 length] in *.
  - exists page. split_and!; [done..| |done]. intros j Hj. lia.
  - apply Forall_cons in Hf as [(Ha & Hz & Hk) Hf]. cbn [e_addr e_size e_kind] in *. set (o := (_ + i * E820_ENTRY_SIZE)%nat).
    assert (o + 20 <= 1024)%nat as Ho by (unfold o, E820_ENTRY_SIZE; off_lia).
    assert (1024 < length page)%nat as Hl by (rewrite Hp; off_lia).
    unfold put_u64, put_u32. rewrite !store_bind by (rewrite ?length_put; len_lia; rewrite ?length_put; len_lia).
    set (page1 := put o (le_bytes 8 a) page). set (page2 := put (o + 8) (le_bytes 8 z) page1).
    set (page3 := put (o + 16) (le_bytes 4 k) page2).
    assert (length page1 = length page) as L1 by (apply length_put; len_lia).
    assert (length page2 = length page) as L2 by (unfold page2; rewrite length_put; [done|len_lia]).
    assert (length page3 = length page) as L3 by (unfold page3; rewrite length_put; [done|len_lia]).
    destruct (IH (i + 1)%nat page3) as (page' & -> & Hp' & Hat & Hfr); [congruence|done|lia|]. exists page'. split_and!; [done..| |].
    + intros j Hj. destruct (decide (j = i)) as [->|]; [|rewrite Hat by lia; by replace (j - i)%nat with (Datatypes.S (j - (i + 1))) by lia].
      rewrite Nat.sub_diag. cbn [lookup list_lookup]. unfold e820_at. fold o.
      rewrite !Hfr by (left; unfold o, E820_ENTRY_SIZE; lia). unfold page3 at 1 2. rewrite !slice_put_ne by (len_lia). unfold page3.
      rewrite slice_put_same by len_lia. unfold page2 at 1. rewrite slice_put_ne by len_lia. unfold page2. rewrite slice_put_same by len_lia.
      unfold page1. rewrite slice_put_same by len_lia. by rewrite !of_le_u64, of_le_u32.
    + intros o' n Ho'. rewrite Hfr by lia. assert (o + 20 <= o' \/ o' + n <= o)%nat as Hd by (unfold o, E820_ENTRY_SIZE; lia).
      clearbody o. unfold page3. rewrite slice_put_ne by len_lia. unfold page2. rewrite slice_put_ne by len_lia.
      unfold page1. by rewrite slice_put_ne by len_lia.
Qed.

(** Fields the page carries over from the image. *)
Definition kept_fields : list (nat * nat) :=
  [(HEADER_MAGIC_OFF, 4); (PROTOCOL_VERSION_OFF, 2); (INITRD_ADDR_MAX_OFF, 4); (KERNEL_ALIGNMENT_OFF, 4); (XLOADFLAGS_OFF, 2);
   (CMDLINE_SIZE_OFF, 4); (PAYLOAD_OFFSET_OFF, 4); (PAYLOAD_LENGTH_OFF, 4); (PREF_ADDRESS_OFF, 8); (INIT_SIZE_OFF, 4)]%nat.

(** What the kernel reads from the page. *)
Record page_reads (image : bytes) (layout : LinuxBootLayout) (page : bytes) : Prop := {
  pr_length : length page = LINUX_BOOT_PARAMS_SIZE;
  pr_e820 : e820_of page = ll_e820_entries layout;
  pr_kept : Forall (fun f : nat * nat => slice f.1 f.2 page = slice f.1 f.2 image) kept_fields;
  pr_loader : slice TYPE_OF_LOADER_OFF 1 page = [LINUX_TYPE_OF_LOADER];
  pr_loadflags : slice LOADFLAGS_OFF 1 page = [Z.lor (of_le (slice LOADFLAGS_OFF 1 image)) LOADFLAGS_CAN_USE_HEAP];
  pr_code32 : of_le (slice CODE32_START_OFF 4 page) = lr_start (ll_kernel_image layout);
  pr_cmdline : of_le (slice CMD_LINE_PTR_OFF 4 page) = lr_start (ll_cmdline layout);
  pr_ramdisk : match ll_initramfs layout with
    | Some r => of_le (slice RAMDISK_IMAGE_OFF 4 page) = lr_start r /\ of_le (slice RAMDISK_SIZE_OFF 4 page) = lr_len r
    | None => slice RAMDISK_IMAGE_OFF 8 page = slice RAMDISK_IMAGE_OFF 8 image
    end;
  pr_setup_data : of_le (slice SETUP_DATA_OFF 8 page) = LINUX_BOOT_PARAMS_GPA + Z.of_nat SETUP_RNG_SEED_OFF;
  pr_seed : slice SETUP_RNG_SEED_OFF 80 page = le_bytes 8 0 ++ le_bytes 4 SETUP_RNG_SEED_TYPE ++ le_bytes 4 64 ++ SETUP_RNG_SEED }.

(** The stores after the header's copy. *)
Definition page_stores (header : BzImageLayout) (layout : LinuxBootLayout) : list (nat * bytes) :=
  [(ZERO_PAGE_E820_COUNT_OFF, [Z.of_nat (length (ll_e820_entries layout)) mod 2 ^ 8]);
   (SETUP_SECTS_OFF, [bz_setup_sects header]); (HEADER_MAGIC_OFF, HEADER_MAGIC);
   (PROTOCOL_VERSION_OFF, le_bytes 2 (bz_protocol_version header)); (TYPE_OF_LOADER_OFF, [LINUX_TYPE_OF_LOADER]);
   (LOADFLAGS_OFF, [Z.lor (bz_loadflags header) LOADFLAGS_CAN_USE_HEAP]);
   (CODE32_START_OFF, le_bytes 4 (to_u32 (lr_start (ll_kernel_image layout))));
   (HEAP_END_PTR_OFF, le_bytes 2 LINUX_HEAP_END_PTR); (CMD_LINE_PTR_OFF, le_bytes 4 (to_u32 (lr_start (ll_cmdline layout))));
   (INITRD_ADDR_MAX_OFF, le_bytes 4 (bz_initrd_addr_max header)); (KERNEL_ALIGNMENT_OFF, le_bytes 4 (bz_kernel_alignment header));
   (RELOCATABLE_KERNEL_OFF, [if bz_relocatable_kernel header then 1 else 0]);
   (XLOADFLAGS_OFF, le_bytes 2 (bz_xloadflags header)); (CMDLINE_SIZE_OFF, le_bytes 4 (bz_cmdline_size header));
   (SETUP_DATA_OFF, le_bytes 8 (LINUX_BOOT_PARAMS_GPA + Z.of_nat SETUP_RNG_SEED_OFF));
   (PREF_ADDRESS_OFF, le_bytes 8 (bz_pref_address header)); (SETUP_RNG_SEED_OFF, le_bytes 8 0);
   ((SETUP_RNG_SEED_OFF + 8)%nat, le_bytes 4 SETUP_RNG_SEED_TYPE);
   ((SETUP_RNG_SEED_OFF + 12)%nat, le_bytes 4 (Z.of_nat (length SETUP_RNG_SEED)));
   ((SETUP_RNG_SEED_OFF + SETUP_DATA_HEADER_LEN)%nat, SETUP_RNG_SEED)].
Definition ramdisk_stores (initramfs : option LinuxMemoryRange) : list (nat * bytes) :=
  match initramfs with
  | Some r => [(RAMDISK_IMAGE_OFF, le_bytes 4 (to_u32 (lr_start r))); (RAMDISK_SIZE_OFF, le_bytes 4 (to_u32 (lr_len r)))]
  | None => []
  end.
Definition all_stores (header : BzImageLayout) (layout : LinuxBootLayout) : list (nat * bytes) :=
  take 7 (page_stores header layout) ++ ramdisk_stores (ll_initramfs layout) ++ drop 7 (page_stores header layout).

Lemma method_bind_app {S E A B} (m : method S E A) (k : A -> method S E B) s :
  (m ≫= k) s = match m s with (Ok a, s) => k a s | (Err e, s) => (Err e, s) | (Panic, s) => (Panic, s) end.
Proof. done. Qed.
Lemma fill_is_stores header layout page :
  fill_boot_params header layout page =
  (_ ← store SETUP_SECTS_OFF (bz_setup_header header); stores (all_stores header layout) (put_e820 0 (ll_e820_entries layout))) page.
Proof.
  unfold fill_boot_params, all_stores, ramdisk_stores, put_u8, put_u16, put_u32, put_u64. cbn [page_stores take drop app].
  do 8 (rewrite !method_bind_app; destruct (store _ _ _) as [[[]|e|] ?]; [cbn [stores app]|done..]).
  destruct (ll_initramfs layout) as [r|]; [|done]. cbn [stores app].
  do 2 (rewrite !method_bind_app; destruct (store _ _ _) as [[[]|e|] ?]; [cbn [stores app]|done..]). done.
Qed.

(** Reads of the stored page: the last store at the offset, or the page below. *)
Ltac hit Hfit :=
  let rec go i :=
    first [eapply (puts_read i); [reflexivity|reflexivity|exact Hfit|reflexivity]
          | let j := eval cbv in (Datatypes.S i) in lazymatch j with 23%nat => fail | _ => go j end] in
  go O.
Ltac miss Hfit := apply puts_miss; [exact Hfit|reflexivity].

Lemma stores_read header layout page1 : forallb (fits (length page1)) (all_stores header layout) = true ->
  let p := puts (all_stores header layout) page1 in
  slice ZERO_PAGE_E820_COUNT_OFF 1 p = [Z.of_nat (length (ll_e820_entries layout)) mod 2 ^ 8] /\
  (slice HEADER_MAGIC_OFF 4 p = HEADER_MAGIC /\ slice PROTOCOL_VERSION_OFF 2 p = le_bytes 2 (bz_protocol_version header) /\
   slice INITRD_ADDR_MAX_OFF 4 p = le_bytes 4 (bz_initrd_addr_max header) /\
   slice KERNEL_ALIGNMENT_OFF 4 p = le_bytes 4 (bz_kernel_alignment header) /\
   slice XLOADFLAGS_OFF 2 p = le_bytes 2 (bz_xloadflags header) /\ slice CMDLINE_SIZE_OFF 4 p = le_bytes 4 (bz_cmdline_size header) /\
   slice PREF_ADDRESS_OFF 8 p = le_bytes 8 (bz_pref_address header)) /\
  (slice PAYLOAD_OFFSET_OFF 4 p = slice PAYLOAD_OFFSET_OFF 4 page1 /\ slice PAYLOAD_LENGTH_OFF 4 p = slice PAYLOAD_LENGTH_OFF 4 page1 /\
   slice INIT_SIZE_OFF 4 p = slice INIT_SIZE_OFF 4 page1) /\
  slice TYPE_OF_LOADER_OFF 1 p = [LINUX_TYPE_OF_LOADER] /\
  slice LOADFLAGS_OFF 1 p = [Z.lor (bz_loadflags header) LOADFLAGS_CAN_USE_HEAP] /\
  slice CODE32_START_OFF 4 p = le_bytes 4 (to_u32 (lr_start (ll_kernel_image layout))) /\
  slice CMD_LINE_PTR_OFF 4 p = le_bytes 4 (to_u32 (lr_start (ll_cmdline layout))) /\
  match ll_initramfs layout with
  | Some r => slice RAMDISK_IMAGE_OFF 4 p = le_bytes 4 (to_u32 (lr_start r)) /\ slice RAMDISK_SIZE_OFF 4 p = le_bytes 4 (to_u32 (lr_len r))
  | None => slice RAMDISK_IMAGE_OFF 8 p = slice RAMDISK_IMAGE_OFF 8 page1
  end /\
  slice SETUP_DATA_OFF 8 p = le_bytes 8 (LINUX_BOOT_PARAMS_GPA + Z.of_nat SETUP_RNG_SEED_OFF) /\
  (slice SETUP_RNG_SEED_OFF 8 p = le_bytes 8 0 /\ slice (SETUP_RNG_SEED_OFF + 8) 4 p = le_bytes 4 SETUP_RNG_SEED_TYPE /\
   slice (SETUP_RNG_SEED_OFF + 12) 4 p = le_bytes 4 64 /\ slice (SETUP_RNG_SEED_OFF + 16) 64 p = SETUP_RNG_SEED).
Proof.
  unfold all_stores. destruct (ll_initramfs layout) as [r|]; intros Hfit; cbv beta iota zeta; split_and!;
    first [miss Hfit | hit Hfit].
Qed.

Lemma boot_params_read image header layout : bytes_ok image -> header_ok image header -> (SETUP_HEADER_END <= length image)%nat ->
  (length (ll_e820_entries layout) <= 12)%nat -> Forall e820_fits (ll_e820_entries layout) ->
  u32 (lr_start (ll_kernel_image layout)) -> u32 (lr_start (ll_cmdline layout)) ->
  (forall r, ll_initramfs layout = Some r -> u32 (lr_start r) /\ u32 (lr_len r)) ->
  exists page, build_boot_params header layout = Ok page /\ page_reads image layout page.
Proof.
  intros Hb Hh Hlen Hn Hf Hk Hc Hr. pose proof (ho_setup_len _ _ Hh) as Hl. unfold build_boot_params.
  rewrite (proj2 (Nat.ltb_ge _ _)) by (unfold E820_TABLE_CAP; lia). rewrite (proj2 (Nat.ltb_ge _ _)) by off_lia.
  rewrite fill_is_stores. set (page0 := replicate LINUX_BOOT_PARAMS_SIZE 0).
  assert (length page0 = LINUX_BOOT_PARAMS_SIZE) as L0 by apply length_replicate.
  rewrite store_bind by (rewrite L0; off_lia). set (page1 := put _ _ page0).
  assert (length page1 = LINUX_BOOT_PARAMS_SIZE) as L1 by (unfold page1; rewrite length_put; [done|rewrite L0; off_lia]).
  assert (forall o n, (SETUP_SECTS_OFF <= o /\ o + n <= SETUP_HEADER_END)%nat -> slice o n page1 = slice o n image) as Hin.
  { intros o n Ho. unfold page1. rewrite slice_put_in by off_lia. rewrite (ho_setup _ _ Hh), slice_slice by off_lia. f_equal. off_lia. }
  clearbody page0 page1.
  assert (forallb (fits (length page1)) (all_stores header layout) = true) as Hfit.
  { rewrite L1. unfold all_stores. by destruct (ll_initramfs layout). }
  destruct (stores_ok (put_e820 0 (ll_e820_entries layout)) _ _ Hfit) as [-> Lp].
  destruct (stores_read header layout page1 Hfit) as (Rcount & (Rm & Rv & Ri & Ra & Rx & Rcs & Rp) & (Rpo & Rpl & Ris) & Rl & Rf & Rc & Rcl & Rr & Rs & R1 & R2 & R3 & R4).
  set (p := puts (all_stores header layout) page1) in *. clearbody p.
  destruct (put_e820_ok (ll_e820_entries layout) 0 p) as (page & -> & Hp & Hat & Hfr); [congruence|done..|].
  assert (forall o n s, slice o n p = s -> (o + n <= ZERO_PAGE_E820_TABLE_OFF \/ SETUP_RNG_SEED_OFF <= o)%nat -> slice o n page = s) as Hrd
    by (intros o n s <- Ho; apply Hfr; off_lia).
  exists page. split; [done|].
  assert (forall o n v, (o + n <= SETUP_HEADER_END)%nat -> v = of_le (slice o n image) -> le_bytes n v = slice o n image) as Hsame.
  { intros o n v Ho ->. apply le_bytes_slice; [done|lia]. }
  split; [done|..].
  - unfold e820_of. rewrite (Hrd _ _ _ Rcount) by off_lia.
    rewrite of_le_single, Z.mod_small, Nat2Z.id by lia. apply list_eq. intros j. rewrite list_lookup_fmap.
    destruct (decide (j < length (ll_e820_entries layout))%nat) as [Hj|Hj].
    + rewrite lookup_seq_lt by done. cbn. rewrite Hat by lia. by rewrite Nat.sub_0_r.
    + rewrite lookup_seq_ge, lookup_ge_None_2 by lia. done.
  - unfold kept_fields. repeat apply List.Forall_cons; try apply List.Forall_nil; cbn [fst snd];
      (eapply eq_trans; [eapply Hrd; [eassumption|off_lia]|]);
      first [by apply Hin; off_lia | symmetry; apply (ho_magic _ _ Hh) | apply Hsame; [off_lia|by destruct Hh]].
  - apply (Hrd _ _ _ Rl). off_lia.
  - rewrite (Hrd _ _ _ Rf) by off_lia. by rewrite (ho_flags _ _ Hh).
  - rewrite (Hrd _ _ _ Rc) by off_lia. by rewrite to_u32_small, of_le_u32.
  - rewrite (Hrd _ _ _ Rcl) by off_lia. by rewrite to_u32_small, of_le_u32.
  - destruct (ll_initramfs layout) as [r|].
    + destruct (Hr _ eq_refl) as [? ?]. destruct Rr as [Rr1 Rr2]. rewrite (Hrd _ _ _ Rr1), (Hrd _ _ _ Rr2) by off_lia.
      by rewrite !to_u32_small, !of_le_u32.
    + rewrite (Hrd _ _ _ Rr) by off_lia. apply Hin. off_lia.
  - by rewrite (Hrd _ _ _ Rs) by off_lia.
  - change 80%nat with (8 + (4 + (4 + 64)))%nat. rewrite !slice_split. f_equal; [apply (Hrd _ _ _ R1); off_lia|].
    f_equal; [apply (Hrd _ _ _ R2); off_lia|]. rewrite <- !Nat.add_assoc.
    f_equal; [apply (Hrd _ _ _ R3); off_lia|apply (Hrd _ _ _ R4); off_lia].
Qed.
