(* ===== verification/LinuxPlanOk.v ===== *)
(** * The Linux boot plan, checked

    A plan for a parsed image: the ranges the loader writes are disjoint and in
    RAM, the e820 map keeps them from the kernel's allocator, and the page says
    where they are.  Neither the parser nor the planner panics. *)

From Stdlib Require Import String.
From stdpp Require Import strings.
From S2P Require Import Prelude Config SlotVm Bzimage BzimageOk LinuxPlan.
Import Linux.
Local Open Scope string_scope.
Local Open Scope list_scope.
Local Open Scope Z_scope.

(** The ranges the loader writes. *)
Definition placed (l : LinuxBootLayout) : list LinuxMemoryRange :=
  [ll_page_tables l; ll_boot_params l; ll_cmdline l; ll_kernel_image l] ++ option_list (ll_initramfs l).

Record plan_ok (image : bytes) (header : BzImageLayout) (mem_bytes initramfs_len : Z) (cmdline : bytes) (plan : LinuxBootPlan) : Prop := {
  po_mem : mem_bytes <= MMIO_HOLE_BASE;
  po_chain : chain PAGE_SIZE mem_bytes (placed (lp_layout plan));
  po_kernel : ll_kernel_image (lp_layout plan) = mkRange LINUX_KERNEL_LOAD_GPA (bz_kernel_image_length header) /\
    ll_kernel_image_file_offset (lp_layout plan) = bz_kernel_image_file_offset header;
  po_fixed : ll_page_tables (lp_layout plan) = mkRange LINUX_PAGE_TABLES_GPA LINUX_PAGE_TABLES_LEN /\
    ll_boot_params (lp_layout plan) = mkRange LINUX_BOOT_PARAMS_GPA (Z.of_nat LINUX_BOOT_PARAMS_SIZE) /\
    ll_cmdline (lp_layout plan) = mkRange LINUX_CMDLINE_GPA LINUX_CMDLINE_RESERVED_LEN;
  po_initramfs : if initramfs_len =? 0 then ll_initramfs (lp_layout plan) = None
    else exists start, ll_initramfs (lp_layout plan) = Some (mkRange start initramfs_len) /\ start mod PAGE_SIZE = 0 /\
      start + initramfs_len <= bz_initrd_addr_max header + 1;
  po_cmdline : lp_cmdline_image plan = cmdline ++ [0] /\ Z.of_nat (length cmdline) + 1 <= LINUX_CMDLINE_RESERVED_LEN;
  po_e820 : exists kernel_len rounded,
    Z.max (bz_kernel_image_length header) (bz_init_size header) <= kernel_len < Z.max (bz_kernel_image_length header) (bz_init_size header) + PAGE_SIZE /\
    chain 0 mem_bytes (set_aside kernel_len rounded) /\ ordered_from 0 (ll_e820_entries (lp_layout plan)) = true /\
    (forall a, kind_at (ll_e820_entries (lp_layout plan)) a = e820_spec mem_bytes (set_aside kernel_len rounded) a) /\
    (forall r a, r ∈ placed (lp_layout plan) -> within r a = true -> kind_at (ll_e820_entries (lp_layout plan)) a = Some E820_RESERVED);
  po_page : page_reads image (lp_layout plan) (lp_boot_params plan) }.

Lemma align_up_total v : exists o, align_up v PAGE_SIZE = o /\ o <> Panic.
Proof. unfold align_up. destruct (checked_add _ _); eauto. Qed.

Lemma place_cases image header mem_bytes initramfs_len kernel_end : bytes_ok image -> header_ok image header ->
  (SETUP_HEADER_END <= length image)%nat -> 0 <= initramfs_len -> 0 <= mem_bytes ->
  match place_initramfs header mem_bytes initramfs_len kernel_end with
  | Ok None => initramfs_len = 0
  | Ok (Some r) => 0 < initramfs_len /\ lr_len r = initramfs_len /\ lr_start r mod PAGE_SIZE = 0 /\ kernel_end <= lr_start r /\
      exists n, align_up initramfs_len PAGE_SIZE = Ok n /\ lr_start r + n <= mem_bytes /\
        lr_start r + initramfs_len <= bz_initrd_addr_max header + 1
  | Err _ => True
  | Panic => False
  end.
Proof.
  intros Hb Hh Hl Hi Hm. unfold place_initramfs. destruct (_ <? initramfs_len); [done|].
  destruct (Z.eqb_spec initramfs_len 0) as [Hz|Hz]; [exact Hz|].
  destruct (align_up initramfs_len PAGE_SIZE) as [n| |] eqn:Hn; cbn [mbind outcome_bind]; [|done|].
  2:{ unfold align_up in Hn. by destruct (checked_add _ _). }
  destruct (checked_sub _ n) as [st|] eqn:Hst; cbn [ok_or mbind outcome_bind]; [|done]. destruct (st <? kernel_end) eqn:Hk; [done|].
  destruct (align_up_page _ _ Hn) as [Hb1 Hn0]. set (lim := Z.min mem_bytes _) in *. destruct (align_down_page lim) as [Hb2 Hd0].
  unfold checked_sub in Hst. destruct (_ <=? _) eqn:?; [|done]. injection Hst as <-. cbn [lr_start lr_len].
  split_and!; [lia|done| |lia|].
  - rewrite Zminus_mod, Hn0, Hd0. done.
  - exists n. split; [done|]. unfold lim, saturating_add in *. lia.
Qed.

(** Arithmetic with the layout's constants unfolded. *)
Ltac layout_lia :=
  unfold LINUX_LOW_RESERVED_LEN, LINUX_PAGE_TABLES_GPA, LINUX_PAGE_TABLES_LEN, LINUX_BOOT_PARAMS_GPA, LINUX_BOOT_PARAMS_SIZE,
    LINUX_CMDLINE_GPA, LINUX_CMDLINE_RESERVED_LEN, LINUX_KERNEL_LOAD_GPA, LINUX_LEGACY_IO_HOLE_BASE, LINUX_LEGACY_IO_HOLE_LEN, BOOTINFO_GPA, PML4_GPA, PD_BASE_GPA, PAGE_SIZE in *; lia.

(** The fixed ranges and the kernel, below whatever follows. *)
Lemma fixed_chain mem_bytes image_len klen (ir rounded : option LinuxMemoryRange) :
  0 < image_len <= klen -> LINUX_KERNEL_LOAD_GPA + klen <= mem_bytes ->
  match ir with
  | Some r => 0 < lr_len r /\ LINUX_KERNEL_LOAD_GPA + klen <= lr_start r /\
      exists n, lr_len r <= n /\ lr_start r + n <= mem_bytes /\ rounded = Some (padded r n)
  | None => rounded = None
  end ->
  let l := [mkRange LINUX_PAGE_TABLES_GPA LINUX_PAGE_TABLES_LEN; mkRange LINUX_BOOT_PARAMS_GPA (Z.of_nat LINUX_BOOT_PARAMS_SIZE);
            mkRange LINUX_CMDLINE_GPA LINUX_CMDLINE_RESERVED_LEN; mkRange LINUX_KERNEL_LOAD_GPA image_len] ++ option_list ir in
  chain PAGE_SIZE mem_bytes l /\ chain 0 mem_bytes (set_aside klen rounded) /\
  forall r a, r ∈ l -> within r a = true -> existsb (fun x => within x a) (set_aside klen rounded) = true.
Proof.
  intros Hk Hm Hr.
  assert (forall x a, x ∈ [mkRange LINUX_PAGE_TABLES_GPA LINUX_PAGE_TABLES_LEN; mkRange LINUX_BOOT_PARAMS_GPA (Z.of_nat LINUX_BOOT_PARAMS_SIZE);
      mkRange LINUX_CMDLINE_GPA LINUX_CMDLINE_RESERVED_LEN; mkRange LINUX_KERNEL_LOAD_GPA image_len] ->
    within x a = true -> existsb (fun x => within x a) (set_aside klen rounded) = true) as Hlow.
  { intros x a Hx Ha. unfold set_aside. rewrite existsb_app. apply orb_true_iff. left. cbn [existsb].
    repeat (apply elem_of_cons in Hx as [->|Hx]); [..|by apply elem_of_nil in Hx]; unfold within in *; cbn [lr_start lr_len] in *; layout_lia. }
  unfold set_aside at 1. destruct ir as [r|].
  - destruct Hr as (Hl & Hs & n & Hn & He & ->). cbv zeta. split_and!.
    + change (option_list (Some r)) with [r]. cbn [app chain]. unfold past. cbn [lr_start lr_len]. split_and!; layout_lia.
    + change (option_list (Some ?x)) with [x]. unfold set_aside. change (option_list (Some ?x)) with [x]. cbn [app chain]. unfold padded, past. cbn [lr_start lr_len]. split_and!; layout_lia.
    + intros x a [Hx|Hx]%elem_of_app; [by apply Hlow|]. apply list_elem_of_singleton in Hx as ->. intros Ha.
      unfold set_aside. rewrite existsb_app. apply orb_true_iff. right. cbn. unfold within in *. cbn [lr_start lr_len padded]. lia.
  - subst rounded. cbv zeta. change (option_list None) with (@nil LinuxMemoryRange). rewrite !app_nil_r. split_and!; [..|done];
      cbn [chain]; unfold past; cbn [lr_start lr_len]; split_and!; layout_lia.
Qed.

Lemma plan_cases image header mem_bytes initramfs_len cmdline : bytes_ok image -> header_ok image header ->
  (SETUP_HEADER_END <= length image)%nat -> 0 <= initramfs_len -> 0 <= mem_bytes ->
  match plan_bzimage_boot header mem_bytes initramfs_len cmdline with
  | Ok plan => plan_ok image header mem_bytes initramfs_len cmdline plan
  | Err _ => True
  | Panic => False
  end.
Proof.
  intros Hb Hh Hl Hi Hm. unfold plan_bzimage_boot. destruct (_ <? _) eqn:Hc1; [done|].
  destruct (try_u64 _) as [clen|] eqn:Hcl; cbn [ok_or mbind outcome_bind]; [|done].
  destruct (_ <? clen) eqn:Hc2; [done|]. destruct (LINUX_APIC_MMIO_BASE <? _); [done|]. destruct (MMIO_HOLE_BASE <? _) eqn:Hm1; [done|].
  assert (clen = Z.of_nat (length cmdline) + 1) as ->
    by (unfold try_u64 in Hcl; destruct (Z.of_nat (length cmdline) + 1 <=? u64_max); [by injection Hcl|done]).
  destruct (align_up _ PAGE_SIZE) as [klen| |] eqn:Hk; cbn [mbind outcome_bind]; [|done|].
  2:{ unfold align_up in Hk. by destruct (checked_add _ _). }
  destruct (checked_add _ klen) as [kend|] eqn:Hke; cbn [ok_or mbind outcome_bind]; [|done].
  destruct (mem_bytes <? kend) eqn:Hm2; [done|].
  unfold checked_add, try_u64 in Hke. destruct (_ <=? _) eqn:?; [|done]. injection Hke as <-.
  destruct (align_up_page _ _ Hk) as [Hkb _]. pose proof (ho_kernel_pos _ _ Hh). destruct (ho_init _ _ Hh) as [_ Hinit].
  pose proof (place_cases image header mem_bytes initramfs_len (LINUX_KERNEL_LOAD_GPA + klen) Hb Hh Hl Hi Hm) as Hp.
  destruct (place_initramfs _ _ _ _) as [ir| |] eqn:Hir; cbn [mbind outcome_bind]; [|done..].
  set (rounded := match ir with Some r => match align_up (lr_len r) PAGE_SIZE with Ok n => Some (padded r n) | _ => None end | None => None end).
  destruct (fixed_chain mem_bytes (bz_kernel_image_length header) klen ir rounded) as (Hch & Haside & Hcov); [lia|lia| |].
  { unfold rounded. destruct ir as [r|]; [|done]. destruct Hp as (? & <- & ? & ? & n & Hn & ? & ?). rewrite Hn.
    destruct (align_up_page _ _ Hn). split_and!; [done..|]. exists n. split_and!; [lia|done..]. }
  destruct (e820_exact mem_bytes klen ir rounded Haside) as (es & -> & Hord & Hlen & Hfits & Hkind); [lia| |].
  { unfold rounded. destruct ir as [r|]; [|done]. destruct Hp as (? & <- & ? & ? & n & Hn & ?). rewrite Hn. eauto. }
  cbn [mbind outcome_bind]. set (layout := mkLinuxLayout _ _ _ _ _ _ _ _ _ _ _ _).
  destruct (boot_params_read image header layout) as (page & -> & Hpage); try done.
  { intros r Hr. change (ir = Some r) in Hr. subst ir. destruct Hp as (? & <- & _ & ? & n & Hn & ? & _). destruct (align_up_page _ _ Hn) as [? _].
    unfold LINUX_KERNEL_LOAD_GPA, MMIO_HOLE_BASE in *. ulia. }
  cbn [mbind outcome_bind]. split; cbn [lp_layout lp_boot_params lp_cmdline_image]; try done.
  - lia.
  - destruct (Z.eqb_spec initramfs_len 0) as [->|Hz].
    + destruct ir as [r|]; [|done]. destruct Hp as (? & _). lia.
    + destruct ir as [[st len]|]; [|done]. destruct Hp as (_ & Hlen' & Hmod & _ & n & _ & _ & Hmax). cbn in *. subst len. eauto.
  - split; [done|lia].
  - exists klen, rounded. split_and!; try done; [lia..|]. intros r a Hr Ha. rewrite Hkind. unfold e820_spec.
    by rewrite existsb_app, (Hcov r a Hr Ha).
Qed.

(** C36: a Linux boot plan can be trusted.  For any bytes, sizes and command line,
    parsing and planning return or refuse, never panic.  When they return, the
    page tables, [boot_params], command line, kernel image and initramfs are
    disjoint ranges inside RAM; the kernel range is the whole image after the
    setup sectors and the payload lies inside it; the initramfs is page-aligned
    and ends below the header's limit; the e820 map is ascending and says of
    every address what the reference says (reserved where something was placed
    or a device window is, RAM elsewhere below the memory size, nothing above);
    and the page reads back: the map, the fields the kernel needs, pointers to
    what was placed. *)
Theorem linux_plan_sound image mem_bytes initramfs_len cmdline : bytes_ok image -> 0 <= initramfs_len -> 0 <= mem_bytes ->
  let planned := header ← err_map inl (parse_bzimage image initramfs_len (Z.of_nat (length cmdline)) mem_bytes);
                 plan ← err_map inr (plan_bzimage_boot header mem_bytes initramfs_len cmdline); Ok (header, plan) in
  match planned with
  | Ok (header, plan) => header_ok image header /\ plan_ok image header mem_bytes initramfs_len cmdline plan
  | Err _ => True
  | Panic => False
  end.
Proof.
  intros Hb Hi Hm. cbv zeta. pose proof (parse_cases image initramfs_len (Z.of_nat (length cmdline)) mem_bytes) as Hp.
  destruct (parse_bzimage _ _ _ _) as [header|e|] eqn:Hpe; cbn [err_map mbind outcome_bind]; [|done..]. specialize (Hp Hb).
  pose proof (plan_cases image header mem_bytes initramfs_len cmdline Hb Hp (parse_length _ _ _ _ _ Hpe) Hi Hm) as Hpl.
  by destruct (plan_bzimage_boot _ _ _ _).
Qed.
