(* ===== verification/ReprC.v ===== *)
(** * The memory images of the KVM structures

    [vcpu_state.rs] copies [repr(C)] structures of plain integers to and from
    bytes.  A [Repr] is such an image: its size, the two copies, and the values
    that fit.  The structures' images are built from integers, pairs and arrays,
    in the ABI's field order, and are exact in both directions. *)

From S2P Require Import Prelude Kvm.

Record Repr (T : Type) := mkRepr {
  size_of : nat;
  to_bytes : T -> bytes;
  of_bytes : bytes -> T;
  fits : T -> Prop }.
Arguments size_of {T}. Arguments to_bytes {T}. Arguments of_bytes {T}. Arguments fits {T}.

Class ReprOk {T} (r : Repr T) : Prop := {
  length_image : forall t, fits r t -> length (to_bytes r t) = size_of r;
  image_ok : forall t, fits r t -> bytes_ok (to_bytes r t);
  of_to : forall t, fits r t -> of_bytes r (to_bytes r t) = t;
  to_of : forall b, length b = size_of r -> bytes_ok b -> to_bytes r (of_bytes r b) = b /\ fits r (of_bytes r b) }.

(** ** Integers, pairs, arrays *)

Definition r_uint (w : nat) : Repr Z :=
  mkRepr _ w (le_bytes w) of_le (fun z => 0 <= z < 256 ^ Z.of_nat w).
Definition r_pair {A B} (ra : Repr A) (rb : Repr B) : Repr (A * B) :=
  mkRepr _ (size_of ra + size_of rb) (fun p => to_bytes ra p.1 ++ to_bytes rb p.2)
    (fun b => (of_bytes ra (take (size_of ra) b), of_bytes rb (drop (size_of ra) b)))
    (fun p => fits ra p.1 /\ fits rb p.2).
Fixpoint of_array {A} (ra : Repr A) (n : nat) (b : bytes) : list A :=
  match n with
  | O => []
  | S n => of_bytes ra (take (size_of ra) b) :: of_array ra n (drop (size_of ra) b)
  end.
Definition r_array {A} (n : nat) (ra : Repr A) : Repr (list A) :=
  mkRepr _ (n * size_of ra) (fun l => concat (to_bytes ra <$> l)) (of_array ra n)
    (fun l => length l = n /\ Forall (fits ra) l).
(** A structure as the tuple of its fields. *)
Definition r_iso {A B} (f : B -> A) (g : A -> B) (ra : Repr A) : Repr B :=
  mkRepr _ (size_of ra) (fun t => to_bytes ra (f t)) (fun b => g (of_bytes ra b)) (fun t => fits ra (f t)).

#[export] Instance r_uint_ok w : ReprOk (r_uint w).
Proof.
  split; cbn.
  - intros. apply length_le_bytes.
  - intros. apply le_bytes_ok.
  - intros. by apply of_le_le_bytes.
  - intros b <- Hb. split; [by apply le_bytes_of_le|by apply of_le_bound].
Qed.
#[export] Instance r_pair_ok {A B} (ra : Repr A) (rb : Repr B) : ReprOk ra -> ReprOk rb -> ReprOk (r_pair ra rb).
Proof.
  intros Ha Hb. split; cbn.
  - intros [x y] [? ?]. cbn. rewrite length_app, !length_image by done. done.
  - intros [x y] [? ?]. apply Forall_app_2; by apply image_ok.
  - intros [x y] [Hx Hy]. cbn in *. rewrite take_app_length', drop_app_length' by (by rewrite length_image).
    by rewrite !of_to.
  - intros b Hl Hok.
    destruct (to_of (r := ra) (take (size_of ra) b)) as [-> ?]; [rewrite length_take; lia|by apply Forall_take|].
    destruct (to_of (r := rb) (drop (size_of ra) b)) as [-> ?]; [rewrite length_drop; lia|by apply Forall_drop|].
    by rewrite take_drop.
Qed.
#[export] Instance r_array_ok {A} n (ra : Repr A) : ReprOk ra -> ReprOk (r_array n ra).
Proof.
  intros Ha. split; cbn.
  - intros l [<- Hl]. induction Hl as [|x l Hx Hl IH]; [done|]. cbn. by rewrite length_app, IH, length_image.
  - intros l [_ Hl]. induction Hl as [|x l Hx Hl IH]; [constructor|]. cbn. apply Forall_app_2; [by apply image_ok|done].
  - intros l [<- Hl]. induction Hl as [|x l Hx Hl IH]; [done|]. cbn.
    rewrite take_app_length', drop_app_length' by (by rewrite length_image). by rewrite of_to, IH.
  - induction n as [|n IH]; intros b Hb Hok; cbn.
    + cbn in Hb. apply nil_length_inv in Hb as ->. by split_and!.
    + destruct (to_of (r := ra) (take (size_of ra) b)) as [-> ?]; [rewrite length_take; lia|by apply Forall_take|].
      destruct (IH (drop (size_of ra) b)) as (-> & Hn & ?); [rewrite length_drop; lia|by apply Forall_drop|].
      rewrite take_drop. split_and!; [done|by rewrite Hn|by constructor].
Qed.
Lemma r_iso_ok {A B} (f : B -> A) (g : A -> B) (ra : Repr A) :
  (forall x, f (g x) = x) -> (forall y, g (f y) = y) -> ReprOk ra -> ReprOk (r_iso f g ra).
Proof.
  intros Hfg Hgf Ha. split; cbn.
  - intros. by apply length_image.
  - intros. by apply image_ok.
  - intros t Ht. by rewrite of_to.
  - intros b Hl Hok. rewrite Hfg. by apply to_of.
Qed.

Infix "⊗" := r_pair (at level 60, right associativity) : dh_scope.

(** ** The structures *)

Definition r_regs : Repr kvm_regs := r_iso
  (fun r => (rax r, (rbx r, (rcx r, (rdx r, (rsi r, (rdi r, (rsp r, (rbp r,
     (r8 r, (r9 r, (r10 r, (r11 r, (r12 r, (r13 r, (r14 r, (r15 r, (rip r, rflags r))))))))))))))))))
  (fun '(a, (b, (c, (d, (e, (f, (g, (h, (i, (j, (k, (l, (m, (n, (o, (p, (q, r)))))))))))))))))
     => mkRegs a b c d e f g h i j k l m n o p q r)
  (let u := r_uint 8 in u ⊗ u ⊗ u ⊗ u ⊗ u ⊗ u ⊗ u ⊗ u ⊗ u ⊗ u ⊗ u ⊗ u ⊗ u ⊗ u ⊗ u ⊗ u ⊗ u ⊗ u).

Definition r_segment : Repr kvm_segment := r_iso
  (fun s => (sg_base s, (sg_limit s, (sg_selector s, (sg_type s, (sg_present s, (sg_dpl s, (sg_db s,
     (sg_s s, (sg_l s, (sg_g s, (sg_avl s, (sg_unusable s, sg_padding s)))))))))))))
  (fun '(a, (b, (c, (d, (e, (f, (g, (h, (i, (j, (k, (l, m))))))))))))
     => mkSegment a b c d e f g h i j k l m)
  (let u := r_uint 1 in r_uint 8 ⊗ r_uint 4 ⊗ r_uint 2 ⊗ u ⊗ u ⊗ u ⊗ u ⊗ u ⊗ u ⊗ u ⊗ u ⊗ u ⊗ u).

Definition r_dtable : Repr kvm_dtable := r_iso
  (fun d => (dt_base d, (dt_limit d, dt_padding d))) (fun '(a, (b, c)) => mkDtable a b c)
  (r_uint 8 ⊗ r_uint 2 ⊗ r_array 3 (r_uint 2)).

Definition r_sregs : Repr kvm_sregs := r_iso
  (fun s => (sr_cs s, (sr_ds s, (sr_es s, (sr_fs s, (sr_gs s, (sr_ss s, (sr_tr s, (sr_ldt s,
     (sr_gdt s, (sr_idt s, (sr_cr0 s, (sr_cr2 s, (sr_cr3 s, (sr_cr4 s, (sr_cr8 s, (sr_efer s,
     (sr_apic_base s, sr_interrupt_bitmap s))))))))))))))))))
  (fun '(a, (b, (c, (d, (e, (f, (g, (h, (i, (j, (k, (l, (m, (n, (o, (p, (q, r)))))))))))))))))
     => mkSregs a b c d e f g h i j k l m n o p q r)
  (let s := r_segment in let u := r_uint 8 in
   s ⊗ s ⊗ s ⊗ s ⊗ s ⊗ s ⊗ s ⊗ s ⊗ r_dtable ⊗ r_dtable ⊗ u ⊗ u ⊗ u ⊗ u ⊗ u ⊗ u ⊗ u ⊗ r_array 4 u).

Definition r_fpu : Repr kvm_fpu := r_iso
  (fun f => (fp_fpr f, (fp_fcw f, (fp_fsw f, (fp_ftwx f, (fp_pad1 f, (fp_last_opcode f, (fp_last_ip f,
     (fp_last_dp f, (fp_xmm f, (fp_mxcsr f, fp_pad2 f)))))))))))
  (fun '(a, (b, (c, (d, (e, (f, (g, (h, (i, (j, k)))))))))) => mkFpu a b c d e f g h i j k)
  (let row := r_array 16 (r_uint 1) in
   r_array 8 row ⊗ r_uint 2 ⊗ r_uint 2 ⊗ r_uint 1 ⊗ r_uint 1 ⊗ r_uint 2 ⊗ r_uint 8 ⊗ r_uint 8 ⊗
   r_array 16 row ⊗ r_uint 4 ⊗ r_uint 4).

Definition r_xcrs : Repr kvm_xcrs := r_iso
  (fun x => (xc_nr x, (xc_flags x, (xc_xcrs x, xc_padding x)))) (fun '(a, (b, (c, d))) => mkXcrs a b c d)
  (r_uint 4 ⊗ r_uint 4 ⊗ r_array 16 ((r_uint 4 ⊗ r_uint 4) ⊗ r_uint 8) ⊗ r_array 16 (r_uint 8)).

Definition r_events : Repr kvm_vcpu_events := r_iso
  (fun e => (exc_injected e, (exc_nr e, (exc_has_error_code e, (exc_pending e, (exc_error_code e,
     (int_injected e, (int_nr e, (int_soft e, (int_shadow e, (nmi_injected e, (nmi_pending e, (nmi_masked e,
     (nmi_pad e, (ev_sipi_vector e, (ev_flags e, (smi_smm e, (smi_pending e, (smi_smm_inside_nmi e,
     (smi_latched_init e, (ev_triple_fault e, (ev_reserved e, (ev_has_payload e, ev_payload e)))))))))))))))))))))))
  (fun '(a, (b, (c, (d, (e, (f, (g, (h, (i, (j, (k, (l, (m, (n, (o, (p, (q, (r, (s, (t, (u, (v, w))))))))))))))))))))))
     => mkEvents a b c d e f g h i j k l m n o p q r s t u v w)
  (let u := r_uint 1 in
   u ⊗ u ⊗ u ⊗ u ⊗ r_uint 4 ⊗ u ⊗ u ⊗ u ⊗ u ⊗ u ⊗ u ⊗ u ⊗ u ⊗ r_uint 4 ⊗ r_uint 4 ⊗
   u ⊗ u ⊗ u ⊗ u ⊗ u ⊗ r_array 26 u ⊗ u ⊗ r_uint 8).

Definition r_debugregs : Repr kvm_debugregs := r_iso
  (fun d => (dbg_db d, (dbg_dr6 d, (dbg_dr7 d, (dbg_flags d, dbg_reserved d)))))
  (fun '(a, (b, (c, (d, e)))) => mkDebugregs a b c d e)
  (let u := r_uint 8 in r_array 4 u ⊗ u ⊗ u ⊗ u ⊗ r_array 9 u).

Ltac struct_ok := apply r_iso_ok; [by intros; repeat case_match; simplify_eq|by intros []|apply _].
#[export] Instance r_regs_ok : ReprOk r_regs.
Proof. struct_ok. Qed.
#[export] Instance r_segment_ok : ReprOk r_segment.
Proof. struct_ok. Qed.
#[export] Instance r_dtable_ok : ReprOk r_dtable.
Proof. struct_ok. Qed.
#[export] Instance r_sregs_ok : ReprOk r_sregs.
Proof. struct_ok. Qed.
#[export] Instance r_fpu_ok : ReprOk r_fpu.
Proof. struct_ok. Qed.
#[export] Instance r_xcrs_ok : ReprOk r_xcrs.
Proof. struct_ok. Qed.
#[export] Instance r_events_ok : ReprOk r_events.
Proof. struct_ok. Qed.
#[export] Instance r_debugregs_ok : ReprOk r_debugregs.
Proof. struct_ok. Qed.

(** The ABI sizes [vcpu_state.rs] pins. *)
Lemma struct_sizes :
  size_of r_regs = 144%nat /\ size_of r_sregs = 312%nat /\ size_of r_fpu = 416%nat /\
  size_of r_xcrs = 392%nat /\ size_of r_events = 64%nat /\ size_of r_debugregs = 128%nat.
Proof. by vm_compute. Qed.
