(* ===== verification/VcpuState.v ===== *)
(** * The vCPU state set and its DHSNAP section: [dh-vmm/src/vcpu_state.rs]

    Canonical forms of the captured structures, [capture] over the KVM gets, and
    the [VCPU] section codec.  The codec's cursor is the bytes that remain. *)

From Stdlib Require Import String.
From S2P Require Import Prelude Kvm ReprC Msr Xsave.

Definition XSAVE_AREA_LEN : nat := #4096.
Definition VCPU_SECTION_VERSION : Z := 1.

Record VcpuState := mkVcpuState {
  vs_regs : kvm_regs; vs_sregs : kvm_sregs; vs_fpu : kvm_fpu; vs_xsave : bytes; vs_xcrs : kvm_xcrs;
  vs_msrs : list kvm_msr_entry; vs_events : kvm_vcpu_events; vs_dbg : kvm_debugregs }.

(** The messages of [KvmError::Open] this module builds. *)
Inductive StateError :=
| GetFailed (call : string) (errno : Z)
| XsaveTooLarge (size : Z)
| XsaveCanonicalization (e : XsaveError)
| MsrsUnreadable (got : nat)
| SectionVersion (v : Z)
| SectionTruncated
| XsaveLen (n : Z)
| MsrCount (n : Z)
| MsrIndex (i : nat) (index : Z)
| MsrPad (i : nat)
| TrailingBytes (n : nat).

(** ** Canonical forms *)

Definition canonicalize_unusable_segment (s : kvm_segment) : kvm_segment :=
  if sg_unusable s =? 0 then s
  else mkSegment 0 0 (sg_selector s) 0 0 0 0 0 0 0 0 1 0.

Definition canonicalize_sregs (s : kvm_sregs) : kvm_sregs :=
  let f := canonicalize_unusable_segment in
  mkSregs (f (sr_cs s)) (f (sr_ds s)) (f (sr_es s)) (f (sr_fs s)) (f (sr_gs s)) (f (sr_ss s))
    (f (sr_tr s)) (f (sr_ldt s)) (sr_gdt s) (sr_idt s) (sr_cr0 s) (sr_cr2 s) (sr_cr3 s) (sr_cr4 s)
    (sr_cr8 s) (sr_efer s) (sr_apic_base s) (sr_interrupt_bitmap s).

Definition canonicalize_vcpu_events (e : kvm_vcpu_events) : kvm_vcpu_events :=
  let idle := (exc_injected e =? 0) && (exc_pending e =? 0) in
  let nr := if idle then 0 else exc_nr e in
  let has_error_code := if idle then 0 else exc_has_error_code e in
  let error_code := if idle then 0 else if exc_has_error_code e =? 0 then 0 else exc_error_code e in
  let has_payload := if idle then 0 else ev_has_payload e in
  let payload := if idle then 0 else if ev_has_payload e =? 0 then 0 else ev_payload e in
  let int_idle := int_injected e =? 0 in
  mkEvents (exc_injected e) nr has_error_code (exc_pending e) error_code
    (int_injected e) (if int_idle then 0 else int_nr e) (if int_idle then 0 else int_soft e) (int_shadow e)
    (nmi_injected e) (nmi_pending e) (nmi_masked e) 0
    (ev_sipi_vector e) (ev_flags e) (smi_smm e) (smi_pending e) (smi_smm_inside_nmi e) (smi_latched_init e)
    (ev_triple_fault e) ((fun _ => 0) <$> ev_reserved e) has_payload payload.

(** ** Capture *)

(** The gets a capture makes beside [KVM_GET_REGS] and [KVM_GET_VCPU_EVENTS];
    [kvm_get_xsave] is the 1024-word region, [kvm_get_msrs] answers as many of
    the asked indices as it can read, in order. *)
Class VcpuGets (S : Type) := {
  kvm_cap_xsave2 : S -> Z;
  kvm_get_sregs : S -> outcome Z kvm_sregs;
  kvm_get_fpu : S -> outcome Z kvm_fpu;
  kvm_get_xsave : S -> outcome Z (list Z);
  kvm_get_xcrs : S -> outcome Z kvm_xcrs;
  kvm_get_msrs : list Z -> S -> outcome Z (list kvm_msr_entry);
  kvm_get_debug_regs : S -> outcome Z kvm_debugregs;
  component_layout : S -> list XsaveComponent }.

Section Capture.
Context {S : Type} `{!Vcpu S, !VcpuGets S}.
Implicit Types s : S.

Definition xsave_area s : outcome StateError (list Z * bytes) :=
  region ← err_map (GetFailed "KVM_GET_XSAVE") (kvm_get_xsave s);
  area ← err_map XsaveCanonicalization
           (canonicalize (concat (le_bytes 4 <$> region)) (component_layout s));
  Ok (region, area).

(** Both lists are read in full or the capture fails. *)
Definition read_msrs (wanted : list Z) s : outcome StateError (list kvm_msr_entry) :=
  msrs ← err_map (GetFailed "KVM_GET_MSRS") (kvm_get_msrs wanted s);
  if negb (length msrs =? length wanted)%nat then Err (MsrsUnreadable (length msrs)) else Ok msrs.

Definition capture s : outcome StateError VcpuState :=
  if Z.of_nat XSAVE_AREA_LEN <? Z.max (kvm_cap_xsave2 s) 0 then Err (XsaveTooLarge (kvm_cap_xsave2 s))
  else
    xs ← xsave_area s;
    msrs ← read_msrs RESTORE_MSR_LIST s;
    sregs ← err_map (GetFailed "KVM_GET_SREGS") (kvm_get_sregs s);
    events ← err_map (GetFailed "KVM_GET_VCPU_EVENTS") (kvm_get_vcpu_events s);
    regs ← err_map (GetFailed "KVM_GET_REGS") (kvm_get_regs s);
    fpu ← err_map (GetFailed "KVM_GET_FPU") (kvm_get_fpu s);
    xcrs ← err_map (GetFailed "KVM_GET_XCRS") (kvm_get_xcrs s);
    dbg ← err_map (GetFailed "KVM_GET_DEBUGREGS") (kvm_get_debug_regs s);
    Ok (mkVcpuState regs (canonicalize_sregs sregs) fpu xs.2 xcrs msrs (canonicalize_vcpu_events events) dbg).
End Capture.

(** ** The section codec *)

Definition encode_msr (e : kvm_msr_entry) : bytes :=
  le_bytes 4 (msr_index e) ++ le_bytes 4 0 ++ le_bytes 8 (msr_data e).

Definition vcpu_encode (st : VcpuState) : bytes :=
  to_bytes r_regs (vs_regs st) ++ to_bytes r_sregs (vs_sregs st) ++ to_bytes r_fpu (vs_fpu st) ++
  le_bytes 4 (Z.of_nat (length (vs_xsave st))) ++ vs_xsave st ++ to_bytes r_xcrs (vs_xcrs st) ++
  le_bytes 4 (Z.of_nat (length (vs_msrs st))) ++ concat (encode_msr <$> vs_msrs st) ++
  to_bytes r_events (vs_events st) ++ to_bytes r_debugregs (vs_dbg st).

(** [bytes.get(at..at + n)]. *)
Definition get_bytes (n : nat) (b : bytes) : outcome StateError (bytes * bytes) :=
  if (n <=? length b)%nat then Ok (take n b, drop n b) else Err SectionTruncated.
Definition read_struct {T} (r : Repr T) (b : bytes) : outcome StateError (T * bytes) :=
  p ← get_bytes (size_of r) b; Ok (of_bytes r p.1, p.2).
Definition read_len (b : bytes) : outcome StateError (Z * bytes) :=
  p ← get_bytes 4 b; Ok (of_le p.1, p.2).

Fixpoint decode_msrs (i : nat) (wanted : list Z) (b : bytes) : outcome StateError (list kvm_msr_entry * bytes) :=
  match wanted with
  | [] => Ok ([], b)
  | expected :: wanted =>
      p ← get_bytes 16 b;
      let '(rec, b) := (p : bytes * bytes) in
      let index := of_le (slice 0 4 rec) in
      if negb (index =? expected) then Err (MsrIndex i index)
      else if negb (bool_decide (slice 4 4 rec = [0; 0; 0; 0])) then Err (MsrPad i)
      else
        q ← decode_msrs (S i) wanted b;
        Ok (mkMsr index (of_le (slice 8 8 rec)) :: q.1, q.2)
  end.

Definition vcpu_decode (b : bytes) (sec_version : Z) : outcome StateError VcpuState :=
  if negb (sec_version =? VCPU_SECTION_VERSION) then Err (SectionVersion sec_version)
  else
    regs ← read_struct r_regs b;
    sregs ← read_struct r_sregs regs.2;
    fpu ← read_struct r_fpu sregs.2;
    xlen ← read_len fpu.2;
    if negb (xlen.1 =? Z.of_nat XSAVE_AREA_LEN) then Err (XsaveLen xlen.1)
    else
      xsave ← get_bytes (Z.to_nat xlen.1) xlen.2;
      xcrs ← read_struct r_xcrs xsave.2;
      count ← read_len xcrs.2;
      if negb (count.1 =? Z.of_nat (length RESTORE_MSR_LIST)) then Err (MsrCount count.1)
      else
        msrs ← decode_msrs 0 RESTORE_MSR_LIST count.2;
        events ← read_struct r_events msrs.2;
        dbg ← read_struct r_debugregs events.2;
        if negb (length dbg.2 =? 0)%nat then Err (TrailingBytes (length dbg.2))
        else Ok (mkVcpuState regs.1 sregs.1 fpu.1 xsave.1 xcrs.1 msrs.1 events.1 dbg.1).

(** ** The codec is exact *)

Lemma get_bytes_iff n b x r : get_bytes n b = Ok (x, r) <-> b = x ++ r /\ length x = n.
Proof.
  unfold get_bytes. split.
  - destruct (n <=? length b)%nat eqn:E; [|done]. intros [= <- <-].
    rewrite take_drop, length_take. split; [done|lia].
  - intros [-> <-]. rewrite length_app. replace (_ <=? _)%nat with true by lia.
    by rewrite take_app_length, drop_app_length.
Qed.

Lemma read_struct_iff {T} (r : Repr T) `{!ReprOk r} b t rest :
  bytes_ok b -> read_struct r b = Ok (t, rest) <-> b = to_bytes r t ++ rest /\ fits r t.
Proof.
  intros Hb. unfold read_struct. split.
  - destruct (get_bytes (size_of r) b) as [[x y]| |] eqn:E; [|done..].
    apply get_bytes_iff in E as [-> Hl]. cbn. intros [= <- <-].
    apply Forall_app in Hb as [Hx _]. destruct (to_of (r := r) x Hl Hx) as [-> ?]. done.
  - intros [-> Hf]. rewrite (proj2 (get_bytes_iff _ _ (to_bytes r t) rest)); cbn.
    + by rewrite of_to.
    + split; [done|by apply length_image].
Qed.

Lemma read_len_iff b n rest : bytes_ok b -> read_len b = Ok (n, rest) <-> b = le_bytes 4 n ++ rest /\ u32 n.
Proof. apply (read_struct_iff (r_uint 4)). Qed.

Lemma encode_msr_record x :
  bytes_ok x -> length x = 16%nat -> slice 4 4 x = [0; 0; 0; 0] ->
  x = encode_msr (mkMsr (of_le (slice 0 4 x)) (of_le (slice 8 8 x))).
Proof.
  intros Hx Hl Hp. unfold encode_msr. cbn [msr_index msr_data].
  change (le_bytes 4 0) with [0; 0; 0; 0]. rewrite <- Hp, !le_bytes_slice by (done || lia).
  unfold slice. rewrite drop_0. rewrite <- (take_drop 4 x) at 1. f_equal.
  rewrite <- (take_drop 4 (drop 4 x)) at 1. rewrite drop_drop. f_equal.
  symmetry. apply take_ge. rewrite length_drop. lia.
Qed.

Lemma decode_msrs_iff wanted i b l rest :
  bytes_ok b -> Forall u32 wanted ->
  decode_msrs i wanted b = Ok (l, rest) <->
  b = concat (encode_msr <$> l) ++ rest /\ msr_index <$> l = wanted /\ Forall (fun e => u64 (msr_data e)) l.
Proof.
  intros Hb Hw. revert i b l Hb. induction Hw as [|w wanted Hw _ IH]; intros i b l Hb; cbn [decode_msrs].
  { split; [by intros [= <- <-]|]. intros (-> & Hl & _). by apply fmap_nil_inv in Hl as ->. }
  split.
  - destruct (get_bytes 16 b) as [[x y]| |] eqn:E; [|done..]. apply get_bytes_iff in E as [-> Hl].
    apply Forall_app in Hb as [Hx Hy]. cbn [mbind outcome_bind].
    destruct (Z.eqb_spec (of_le (slice 0 4 x)) w) as [Hi|]; [|done]. cbn [negb].
    case_bool_decide as Hp; [|done]. cbn [negb].
    destruct (decode_msrs (S i) wanted y) as [[l' r']| |] eqn:E; [|done..]. cbn. intros [= <- <-].
    apply IH in E as (-> & <- & Hd); [|done]. split_and!; [|by rewrite <- Hi|].
    + cbn [fmap list_fmap concat fst]. by rewrite <- encode_msr_record, <- app_assoc.
    + constructor; [|done]. cbn. apply (of_le_slice_bound 8 8); [done|lia].
  - intros (-> & Hi & Hd). destruct l as [|e l]; [done|]. cbn in Hi. injection Hi as <- <-.
    apply Forall_cons_1 in Hd as [He Hd]. cbn [fmap list_fmap concat]. rewrite <- app_assoc.
    rewrite (proj2 (get_bytes_iff 16 _ (encode_msr e) (concat (encode_msr <$> l) ++ rest))) by done.
    cbn [mbind outcome_bind]. 
    change (slice 0 4 (encode_msr e)) with (le_bytes 4 (msr_index e)).
    change (slice 4 4 (encode_msr e)) with (le_bytes 4 0).
    change (slice 8 8 (encode_msr e)) with (le_bytes 8 (msr_data e)).
    rewrite of_le_u32, of_le_u64 by done. rewrite Z.eqb_refl. cbn [negb].
    rewrite bool_decide_eq_true_2 by reflexivity. cbn [negb].
    cbn [fmap list_fmap concat] in Hb. rewrite <- app_assoc in Hb. apply Forall_app in Hb as [_ Hb].
    rewrite (proj2 (IH (S i) (concat (encode_msr <$> l) ++ rest) l Hb)) by done. by destruct e.
Qed.

(** The states the codec carries: every field fits its width, the area has the
    fixed length and the MSRs are the capture list's, in order. *)
Definition state_fits (st : VcpuState) : Prop :=
  fits r_regs (vs_regs st) /\ fits r_sregs (vs_sregs st) /\ fits r_fpu (vs_fpu st) /\
  array XSAVE_AREA_LEN (vs_xsave st) /\ fits r_xcrs (vs_xcrs st) /\
  msr_index <$> vs_msrs st = RESTORE_MSR_LIST /\ Forall (fun e => u64 (msr_data e)) (vs_msrs st) /\
  fits r_events (vs_events st) /\ fits r_debugregs (vs_dbg st).

Lemma restore_list_u32 : Forall u32 RESTORE_MSR_LIST.
Proof. by apply (bool_decide_unpack _). Qed.

Lemma bytes_ok_suffix x y : bytes_ok (x ++ y) -> bytes_ok y.
Proof. by intros [_ H]%Forall_app. Qed.

(** A parsed field of a decoder's hypothesis, and a struct it will read. *)
Ltac field H t r := let E := fresh "E" in
  destruct H as [[t r]|?|] eqn:E; [|done..]; cbn [mbind outcome_bind fst snd].
Ltac step_struct Hb F := rewrite (proj2 (read_struct_iff _ _ _ _ Hb) (conj eq_refl F));
  cbn [mbind outcome_bind fst snd]; apply bytes_ok_suffix in Hb.

Lemma vcpu_decode_sound b v st :
  bytes_ok b -> vcpu_decode b v = Ok st -> v = VCPU_SECTION_VERSION /\ b = vcpu_encode st /\ state_fits st.
Proof.
  intros Hb. unfold vcpu_decode. destruct (Z.eqb_spec v VCPU_SECTION_VERSION) as [->|]; [|done]. cbn [negb].
  field (read_struct r_regs b) ta ra. apply read_struct_iff in E as [-> F1]; [|apply _|done]. apply bytes_ok_suffix in Hb.
  field (read_struct r_sregs ra) tb rb. apply read_struct_iff in E as [-> F2]; [|apply _|done]. apply bytes_ok_suffix in Hb.
  field (read_struct r_fpu rb) tc rc. apply read_struct_iff in E as [-> F3]; [|apply _|done]. apply bytes_ok_suffix in Hb.
  field (read_len rc) td rd. apply read_len_iff in E as [-> F4]; [|done]. apply bytes_ok_suffix in Hb.
  destruct (Z.eqb_spec td (Z.of_nat XSAVE_AREA_LEN)) as [->|]; [|done]. cbn [negb].
  field (get_bytes (Z.to_nat (Z.of_nat XSAVE_AREA_LEN)) rd) te re. apply get_bytes_iff in E as [-> F5].
  apply Forall_app in Hb as [F5' Hb]. rewrite Nat2Z.id in F5.
  field (read_struct r_xcrs re) tf rf. apply read_struct_iff in E as [-> F6]; [|apply _|done]. apply bytes_ok_suffix in Hb.
  field (read_len rf) tg rg. apply read_len_iff in E as [-> F7]; [|done]. apply bytes_ok_suffix in Hb.
  destruct (Z.eqb_spec tg (Z.of_nat (length RESTORE_MSR_LIST))) as [->|]; [|done]. cbn [negb].
  field (decode_msrs 0 RESTORE_MSR_LIST rg) th rh. apply decode_msrs_iff in E as (-> & F8 & F9); [|done|apply restore_list_u32].
  apply bytes_ok_suffix in Hb.
  field (read_struct r_events rh) tk rk. apply read_struct_iff in E as [-> F10]; [|apply _|done]. apply bytes_ok_suffix in Hb.
  field (read_struct r_debugregs rk) tm rm. apply read_struct_iff in E as [-> F11]; [|apply _|done].
  destruct (length rm =? 0)%nat eqn:E; [|done]. cbn [negb]. intros [= <-].
  apply Nat.eqb_eq, nil_length_inv in E as ->. split; [done|].
  unfold state_fits, vcpu_encode. cbn [vs_regs vs_sregs vs_fpu vs_xsave vs_xcrs vs_msrs vs_events vs_dbg].
  split; [|by split_and!]. rewrite F5. rewrite <- F8, length_fmap, app_nil_r. done.
Qed.

Lemma vcpu_encode_ok st : state_fits st -> bytes_ok (vcpu_encode st).
Proof.
  intros (? & ? & ? & [? ?] & ? & ? & ? & ? & ?). unfold vcpu_encode, bytes_ok.
  repeat lazymatch goal with |- Forall _ (_ ++ _) => apply Forall_app_2 end;
    try apply le_bytes_ok; try (by apply image_ok); try done.
  apply Forall_concat, Forall_fmap, Forall_true. intros e. unfold encode_msr, compose.
  repeat apply Forall_app_2; apply le_bytes_ok.
Qed.

Lemma vcpu_decode_encode st : state_fits st -> vcpu_decode (vcpu_encode st) VCPU_SECTION_VERSION = Ok st.
Proof.
  intros Hst. pose proof (vcpu_encode_ok st Hst) as Hb.
  destruct Hst as (F1 & F2 & F3 & [F5 F5'] & F6 & F8 & F9 & F10 & F11).
  unfold vcpu_decode, vcpu_encode in *. cbn [Z.eqb Pos.eqb negb VCPU_SECTION_VERSION].
  step_struct Hb F1. step_struct Hb F2. step_struct Hb F3.
  rewrite F5 in Hb |- *.
  assert (u32 (Z.of_nat XSAVE_AREA_LEN)) as U1 by (vm_compute; intuition discriminate).
  rewrite (proj2 (read_len_iff _ _ _ Hb) (conj eq_refl U1)).
  cbn [mbind outcome_bind fst snd]. apply bytes_ok_suffix in Hb. rewrite Z.eqb_refl, Nat2Z.id. cbn [negb].
  rewrite (proj2 (get_bytes_iff _ _ _ _) (conj eq_refl F5)). cbn [mbind outcome_bind fst snd]. apply bytes_ok_suffix in Hb.
  step_struct Hb F6.
  assert (length (vs_msrs st) = length RESTORE_MSR_LIST) as Hn by (by rewrite <- F8, length_fmap).
  rewrite Hn in Hb |- *.
  assert (u32 (Z.of_nat (length RESTORE_MSR_LIST))) as U2 by (vm_compute; intuition discriminate).
  rewrite (proj2 (read_len_iff _ _ _ Hb) (conj eq_refl U2)).
  cbn [mbind outcome_bind fst snd]. apply bytes_ok_suffix in Hb. rewrite Z.eqb_refl. cbn [negb].
  rewrite (proj2 (decode_msrs_iff _ _ _ _ _ Hb restore_list_u32) (conj eq_refl (conj F8 F9))).
  cbn [mbind outcome_bind fst snd]. apply bytes_ok_suffix in Hb. step_struct Hb F10.
  rewrite <- (app_nil_r (to_bytes r_debugregs _)) in Hb |- *. step_struct Hb F11. cbn [length Nat.eqb negb]. by destruct st.
Qed.

(** The [VCPU] section is an exact codec.  A section decodes exactly when it
    is the encoding, at the current version, of a state whose fields fit their
    widths, whose XSAVE area has the fixed length and whose MSRs are the capture
    list's: decoding is total, inverts encoding, and accepts nothing else
    (truncated, padded, reordered or trailing bytes). *)
Theorem vcpu_section_exact b v st :
  bytes_ok b ->
  (vcpu_decode b v = Ok st <-> v = VCPU_SECTION_VERSION /\ b = vcpu_encode st /\ state_fits st) /\
  vcpu_decode b v <> Panic.
Proof.
  intros Hb. split; [split|].
  - by apply vcpu_decode_sound.
  - intros (-> & -> & Hf). by apply vcpu_decode_encode.
  - unfold vcpu_decode. destruct (negb _); [done|].
    assert (forall n x, get_bytes n x <> Panic) as Hg by (intros; unfold get_bytes; by destruct (_ <=? _)%nat).
    assert (forall T (r : Repr T) x, read_struct r x <> Panic) as Hs.
    { intros. unfold read_struct. apply bind_not_panic; [apply Hg|done]. }
    assert (forall x, read_len x <> Panic) as Hl.
    { intros. unfold read_len. apply bind_not_panic; [apply Hg|done]. }
    assert (forall w i x, decode_msrs i w x <> Panic) as Hm.
    { induction w as [|e w IH]; intros i x; [done|]. cbn [decode_msrs]. apply bind_not_panic; [apply Hg|].
      intros [rec y] _. destruct (negb _); [done|]. destruct (negb _); [done|].
      apply bind_not_panic; [apply IH|done]. }
    repeat first [apply bind_not_panic; [by auto|intros] | destruct (negb _); [done|] | done].
Qed.

Definition zeroed {T} (r : Repr T) : T := of_bytes r (replicate (size_of r) 0).
Lemma zeroed_fits {T} (r : Repr T) `{!ReprOk r} : fits r (zeroed r).
Proof. apply to_of; [apply length_replicate|apply bytes_ok_replicate; unfold u8; lia]. Qed.

Definition example_state : VcpuState :=
  mkVcpuState (zeroed r_regs) (zeroed r_sregs) (zeroed r_fpu) (replicate #4096 0) (zeroed r_xcrs)
    ((fun i => mkMsr i 7) <$> RESTORE_MSR_LIST) (zeroed r_events) (zeroed r_debugregs).
Lemma example_state_fits : state_fits example_state.
Proof.
  refine (conj (zeroed_fits r_regs) (conj (zeroed_fits r_sregs) (conj (zeroed_fits r_fpu) (conj _
    (conj (zeroed_fits r_xcrs) (conj _ (conj _ (conj (zeroed_fits r_events) (zeroed_fits r_debugregs))))))))).
  - split; [apply length_replicate|apply bytes_ok_replicate; unfold u8; lia].
  - reflexivity.
  - apply Forall_fmap, Forall_true. intros e. unfold u64. cbn. lia.
Qed.

Lemma vcpu_section_exact_witness :
  vcpu_decode (vcpu_encode example_state) 1 = Ok example_state /\
  vcpu_decode (vcpu_encode example_state) 1 <> Panic.
Proof.
  split; [|apply (vcpu_section_exact (vcpu_encode example_state) 1 example_state);
           apply vcpu_encode_ok, example_state_fits].
  apply (vcpu_section_exact (vcpu_encode example_state) 1 example_state).
  - apply vcpu_encode_ok, example_state_fits.
  - split_and!; [reflexivity|reflexivity|apply example_state_fits].
Defined.
