(* ===== verification/StateHash.v ===== *)
(** * The state-hash chain: [dh-vmm/src/hash.rs]

    [canonical_vcpu_blob] serializes the vCPU field by field, [push_link] and
    [push_final_link] fold a link into the chain value.  The theorem is that
    equal chain values mean equal histories, as long as the hash does not
    collide on the two histories themselves. *)

From Stdlib Require Import String.
From S2P Require Import Prelude DhSnap DhSnapSections Lapic DevCtx Devices Bus Kvm ReprC Msr Xsave VcpuState.

Definition PAGE_SIZE : nat := #4096.

(** [MSR_CAPTURE_LIST] and the place of the normalized IA32_TSC slot. *)
Definition MSR_CAPTURE_LIST : list Z :=
  [MSR_EFER; MSR_STAR; MSR_LSTAR; MSR_CSTAR; MSR_SFMASK; MSR_KERNEL_GS_BASE; MSR_FS_BASE; MSR_GS_BASE;
   MSR_SYSENTER_CS; MSR_SYSENTER_ESP; MSR_SYSENTER_EIP; MSR_PAT; MSR_TSC_AUX; MSR_SPEC_CTRL].
Definition TSC_SLOT_AT : nat := 13.

Inductive HashError := HashVcpu (e : StateError) | HashPageRead (idx : Z).

(** ** The vCPU blob *)

Definition blob_seg (s : kvm_segment) : bytes :=
  le_bytes 8 (sg_base s) ++ le_bytes 4 (sg_limit s) ++ le_bytes 2 (sg_selector s) ++
  concat (le_bytes 1 <$> [sg_type s; sg_present s; sg_dpl s; sg_db s; sg_s s; sg_l s; sg_g s; sg_avl s; sg_unusable s]).
Definition blob_regs (r : kvm_regs) : bytes :=
  concat (le_bytes 8 <$> [rax r; rbx r; rcx r; rdx r; rsi r; rdi r; rsp r; rbp r; r8 r; r9 r; r10 r; r11 r;
    r12 r; r13 r; r14 r; r15 r; rip r; rflags r]).
Definition blob_sregs (s : kvm_sregs) : bytes :=
  concat (blob_seg <$> [sr_cs s; sr_ds s; sr_es s; sr_fs s; sr_gs s; sr_ss s; sr_tr s; sr_ldt s]) ++
  concat ((fun d => le_bytes 8 (dt_base d) ++ le_bytes 2 (dt_limit d)) <$> [sr_gdt s; sr_idt s]) ++
  concat (le_bytes 8 <$> [sr_cr0 s; sr_cr2 s; sr_cr3 s; sr_cr4 s; sr_cr8 s; sr_efer s; sr_apic_base s]) ++
  concat (le_bytes 8 <$> sr_interrupt_bitmap s).
Definition blob_fpu (f : kvm_fpu) : bytes :=
  concat (fp_fpr f) ++ le_bytes 2 (fp_fcw f) ++ le_bytes 2 (fp_fsw f) ++ le_bytes 1 (fp_ftwx f) ++
  le_bytes 2 (fp_last_opcode f) ++ le_bytes 8 (fp_last_ip f) ++ le_bytes 8 (fp_last_dp f) ++ concat (fp_xmm f).
Definition blob_events (e : kvm_vcpu_events) : bytes :=
  concat (le_bytes 1 <$> [exc_injected e; exc_nr e; exc_has_error_code e; exc_pending e]) ++
  le_bytes 4 (exc_error_code e) ++
  concat (le_bytes 1 <$> [int_injected e; int_nr e; int_soft e; int_shadow e; nmi_injected e; nmi_pending e; nmi_masked e]) ++
  le_bytes 4 (ev_sipi_vector e) ++ le_bytes 4 (ev_flags e) ++
  concat (le_bytes 1 <$> [smi_smm e; smi_pending e; smi_smm_inside_nmi e; smi_latched_init e; ev_triple_fault e]).
Definition blob_dbg (d : kvm_debugregs) : bytes :=
  concat (le_bytes 8 <$> dbg_db d) ++ le_bytes 8 (dbg_dr6 d) ++ le_bytes 8 (dbg_dr7 d) ++ le_bytes 8 (dbg_flags d).
(** The loop over the captured MSRs, with the TSC slot before index 13. *)
Definition blob_msr (vns : Z) (i : nat) (e : kvm_msr_entry) : bytes :=
  (if (i =? TSC_SLOT_AT)%nat then le_bytes 4 0x10 ++ le_bytes 8 vns else []) ++
  le_bytes 4 (msr_index e) ++ le_bytes 8 (msr_data e).

Section Blob.
Context {S : Type} `{!Vcpu S, !VcpuGets S}.
Implicit Types s : S.

Definition canonical_vcpu_blob s (vns : Z) : outcome StateError bytes :=
  regs ← err_map (GetFailed "KVM_GET_REGS") (kvm_get_regs s);
  sregs ← err_map (GetFailed "KVM_GET_SREGS") (kvm_get_sregs s);
  fpu ← err_map (GetFailed "KVM_GET_FPU") (kvm_get_fpu s);
  events ← err_map (GetFailed "KVM_GET_VCPU_EVENTS") (kvm_get_vcpu_events s);
  dbg ← err_map (GetFailed "KVM_GET_DEBUGREGS") (kvm_get_debug_regs s);
  xs ← xsave_area s;
  msrs ← read_msrs MSR_CAPTURE_LIST s;
  Ok (blob_regs regs ++ blob_sregs (canonicalize_sregs sregs) ++ blob_fpu fpu ++
      le_bytes 4 (default 0 ((xs : list Z * bytes).1 !! 6%nat)) ++ xs.2 ++
      blob_events (canonicalize_vcpu_events events) ++ blob_dbg dbg ++
      concat (imap (blob_msr vns) msrs)).
End Blob.

(** ** Section framing *)

(** One device's frame, and [device_sections] over the bus' devices in address
    order. *)
Definition device_frame {X : AnyChannel} {M E} (d : BoxDev M E) : bytes :=
  let section := @snapshot _ _ _ (box_dev d) (box_val d) in
  le_bytes 2 (box_id d) ++ le_bytes 2 (box_version d) ++ le_bytes 4 (Z.of_nat (length section)) ++ section.
Definition device_sections {X : AnyChannel} {M E} (bus : list (Z * BoxDev M E)) : bytes := concat (device_frame <$> bus.*2).

Definition lapic_section (a : LocalApic) : bytes :=
  let contents := LapcSection_encode (to_lapc_section a) in
  LAPC ++ le_bytes 2 LapcSection_VERSION ++ le_bytes 4 (Z.of_nat (length contents)) ++ contents.

(** ** The chain *)

Definition DOMAIN : bytes := [100; 104; 45; 115; 116; 97; 116; 101; 104; 97; 115; 104; 45; 118; 49].

Section Chain.
Context `{!Blake3}.

(** [StateHashChain] is its 32-byte value. *)
Definition StateHashChain : Type := bytes.
Definition StateHashChain_new (machine_config_hash base_snapshot_ref : bytes) : StateHashChain :=
  blake3 (DOMAIN ++ machine_config_hash ++ base_snapshot_ref).

Definition page_bytes (p : Z * bytes) : bytes := le_bytes 8 p.1 ++ p.2.
(** What a link hashes. *)
Definition link_preimage (value vcpu_blob device_sections : bytes) (pages : list (Z * bytes)) (icount vns : Z) : bytes :=
  value ++ le_bytes 8 (Z.of_nat (length vcpu_blob)) ++ vcpu_blob ++
  le_bytes 8 (Z.of_nat (length device_sections)) ++ device_sections ++
  concat (page_bytes <$> pages) ++ le_bytes 8 icount ++ le_bytes 8 vns.

(** The loop's assertions: pages of [PAGE_SIZE] bytes, strictly ascending. *)
Fixpoint pages_asserted (last : option Z) (pages : list (Z * bytes)) : bool :=
  match pages with
  | [] => true
  | (idx, b) :: pages =>
      (length b =? PAGE_SIZE)%nat && match last with Some l => l <? idx | None => true end &&
      pages_asserted (Some idx) pages
  end.

Definition push_link {E} (vcpu_blob device_sections : bytes) (pages : list (Z * bytes)) (icount vns : Z)
    (chain : StateHashChain) : outcome E StateHashChain :=
  if pages_asserted None pages
  then Ok (blake3 (link_preimage chain vcpu_blob device_sections pages icount vns)) else Panic.

(** A paused slot's memory. *)
Class SlotMem (S : Type) := {
  slot_mem_bytes : S -> Z;
  read_page : Z -> S -> outcome Z bytes }.

Context {S : Type} `{!Vcpu S, !VcpuGets S, !SlotMem S}.

(** The full walk of guest RAM. *)
Fixpoint walk_pages (n : nat) (idx : Z) (s : S) : outcome HashError (list (Z * bytes)) :=
  match n with
  | O => Ok []
  | Datatypes.S n =>
      page ← err_map (fun _ => HashPageRead idx) (read_page (idx * Z.of_nat PAGE_SIZE) s);
      rest ← walk_pages n (idx + 1) s;
      Ok ((idx, page) :: rest)
  end.

Definition push_final_link (s : S) (device_sections : bytes) (icount vns : Z)
    (chain : StateHashChain) : outcome HashError StateHashChain :=
  vcpu_blob ← err_map HashVcpu (canonical_vcpu_blob s vns);
  pages ← walk_pages (Z.to_nat (slot_mem_bytes s / Z.of_nat PAGE_SIZE)) 0 s;
  Ok (blake3 (link_preimage chain vcpu_blob device_sections pages icount vns)).
End Chain.

(** ** Links *)

Record Link := mkLink {
  l_blob : bytes; l_sections : bytes; l_pages : list (Z * bytes); l_icount : Z; l_vns : Z }.
Definition link_wf (l : Link) : Prop :=
  Z.of_nat (length (l_blob l)) < 2 ^ 64 /\ Z.of_nat (length (l_sections l)) < 2 ^ 64 /\
  Forall (fun p => u64 p.1 /\ length p.2 = PAGE_SIZE) (l_pages l) /\ u64 (l_icount l) /\ u64 (l_vns l).

Definition preimage (value : bytes) (l : Link) : bytes :=
  link_preimage value (l_blob l) (l_sections l) (l_pages l) (l_icount l) (l_vns l).

Lemma app_inj_len {A} (a b c d : list A) : length a = length b -> a ++ c = b ++ d -> a = b /\ c = d.
Proof. intros. by apply app_inj_1. Qed.

Lemma le_bytes_inj_u64 x y : u64 x -> u64 y -> le_bytes 8 x = le_bytes 8 y -> x = y.
Proof. intros Hx Hy H. by rewrite <- (of_le_u64 x Hx), H, of_le_u64. Qed.

Lemma length_pages ps :
  Forall (fun p : Z * bytes => u64 p.1 /\ length p.2 = PAGE_SIZE) ps ->
  length (concat (page_bytes <$> ps)) = (length ps * (8 + PAGE_SIZE))%nat.
Proof.
  induction 1 as [|p ps [_ Hp] _ IH]; [done|]. cbn [fmap list_fmap concat length].
  rewrite length_app, IH. unfold page_bytes. rewrite length_app, length_le_bytes, Hp. lia.
Qed.

Lemma pages_inj ps qs tail tail' :
  Forall (fun p : Z * bytes => u64 p.1 /\ length p.2 = PAGE_SIZE) ps ->
  Forall (fun p : Z * bytes => u64 p.1 /\ length p.2 = PAGE_SIZE) qs ->
  length tail = length tail' ->
  concat (page_bytes <$> ps) ++ tail = concat (page_bytes <$> qs) ++ tail' -> ps = qs /\ tail = tail'.
Proof.
  intros Hp Hq Ht H.
  assert (length ps = length qs) as Hl.
  { apply (f_equal length) in H. rewrite !length_app, !length_pages in H by done. unfold PAGE_SIZE in H. nia. }
  revert qs Hq Hl H. induction Hp as [|p ps [Hp1 Hp2] Hps IH]; intros qs Hq Hl H.
  - by destruct qs.
  - destruct Hq as [|q qs [Hq1 Hq2] Hqs]; [done|]. cbn [fmap list_fmap concat] in H. rewrite <- !app_assoc in H.
    unfold page_bytes at 1 3 in H. rewrite <- !app_assoc in H.
    apply app_inj_len in H as [H1 H]; [|by rewrite !length_le_bytes]. apply app_inj_len in H as [H2 H]; [|congruence].
    destruct (IH qs Hqs) as [-> ->]; [by injection Hl|done|]. split; [|done]. f_equal.
    destruct p, q. cbn in *. f_equal; [by apply le_bytes_inj_u64|done].
Qed.

(** A preimage determines the value before the link and the link. *)
Lemma preimage_inj v v' l l' :
  length v = length v' -> link_wf l -> link_wf l' -> preimage v l = preimage v' l' -> v = v' /\ l = l'.
Proof.
  intros Hv (Hb & Hs & Hp & Hi & Hn) (Hb' & Hs' & Hp' & Hi' & Hn') H. unfold preimage, link_preimage in H.
  apply app_inj_len in H as [-> H]; [|done]. split; [done|].
  apply app_inj_len in H as [H1 H]; [|by rewrite !length_le_bytes].
  apply le_bytes_inj_u64 in H1; [|unfold u64; lia..].
  apply app_inj_len in H as [H2 H]; [|lia].
  apply app_inj_len in H as [H3 H]; [|by rewrite !length_le_bytes].
  apply le_bytes_inj_u64 in H3; [|unfold u64; lia..].
  apply app_inj_len in H as [H4 H]; [|lia].
  apply pages_inj in H as [H5 H]; [|done|done|by rewrite !length_app, !length_le_bytes].
  apply app_inj_len in H as [H6 H]; [|by rewrite !length_le_bytes].
  apply le_bytes_inj_u64 in H6; [|done..]. apply le_bytes_inj_u64 in H; [|done..].
  destruct l, l'. cbn in *. congruence.
Qed.

(** ** Histories *)

Section Histories.
Context {B : Blake3} {HB : Blake3Spec B}.

(** The chain after a sequence of links. *)
Fixpoint push_links (ls : list Link) (chain : StateHashChain) : outcome Empty_set StateHashChain :=
  match ls with
  | [] => Ok chain
  | l :: ls =>
      chain ← push_link (l_blob l) (l_sections l) (l_pages l) (l_icount l) (l_vns l) chain;
      push_links ls chain
  end.

(** Everything a history hashes. *)
Fixpoint hashed_from (ls : list Link) (chain : StateHashChain) : list bytes :=
  match ls with
  | [] => []
  | l :: ls => preimage chain l :: hashed_from ls (blake3 (preimage chain l))
  end.
Definition hashed (cfg base : bytes) (ls : list Link) : list bytes :=
  (DOMAIN ++ cfg ++ base) :: hashed_from ls (StateHashChain_new cfg base).

Lemma push_links_snoc ls l chain :
  push_links (ls ++ [l]) chain
  = (c ← push_links ls chain; push_link (l_blob l) (l_sections l) (l_pages l) (l_icount l) (l_vns l) c).
Proof.
  revert chain. induction ls as [|x ls IH]; intros chain; cbn [push_links app mbind outcome_bind].
  - by destruct (push_link _ _ _ _ _ chain).
  - destruct (push_link _ _ _ _ _ chain); cbn [mbind outcome_bind]; [apply IH|done..].
Qed.

Lemma push_link_ok {E} b s p i v chain c :
  @push_link _ E b s p i v chain = Ok c -> c = blake3 (link_preimage chain b s p i v).
Proof. unfold push_link. destruct (pages_asserted None p); [by intros [= <-]|done]. Qed.

Lemma hashed_from_snoc ls l chain c :
  push_links ls chain = Ok c -> hashed_from (ls ++ [l]) chain = hashed_from ls chain ++ [preimage c l].
Proof.
  revert chain. induction ls as [|x ls IH]; intros chain; cbn [push_links hashed_from app].
  - by intros [= <-].
  - destruct (push_link _ _ _ _ _ chain) as [c'| |] eqn:E; [|done..]. cbn [mbind outcome_bind]. intros H.
    apply push_link_ok in E as ->. f_equal. by apply IH.
Qed.

Lemma push_links_length ls chain c :
  length chain = 32%nat -> push_links ls chain = Ok c -> length c = 32%nat.
Proof.
  revert chain. induction ls as [|x ls IH]; intros chain Hc; cbn [push_links]; [by intros [= <-]|].
  destruct (push_link _ _ _ _ _ chain) as [c'| |] eqn:E; [|done..]. cbn [mbind outcome_bind].
  apply push_link_ok in E as ->. apply IH, length_blake3.
Qed.

Lemma chain_length cfg base ls c :
  push_links ls (StateHashChain_new cfg base) = Ok c -> length c = 32%nat.
Proof. apply push_links_length. unfold StateHashChain_new. apply length_blake3. Qed.

Lemma hashed_head cfg base ls : DOMAIN ++ cfg ++ base ∈ hashed cfg base ls.
Proof. apply elem_of_cons. by left. Qed.
Lemma hashed_snoc cfg base ls l c x :
  push_links ls (StateHashChain_new cfg base) = Ok c ->
  x ∈ hashed cfg base (ls ++ [l]) <-> x ∈ hashed cfg base ls \/ x = preimage c l.
Proof.
  intros Hc. unfold hashed. rewrite (hashed_from_snoc _ _ _ _ Hc), !elem_of_cons, elem_of_app, list_elem_of_singleton.
  tauto.
Qed.

(** The vCPU blob opens with the 18 registers, so no link's preimage is as short
    as an initial one. *)
Definition link_ok (l : Link) : Prop := link_wf l /\ (#144 <= length (l_blob l))%nat.

Lemma preimage_long v l : length v = 32%nat -> link_ok l -> (#200 < length (preimage v l))%nat.
Proof.
  intros Hv [_ Hb]. unfold preimage, link_preimage. rewrite !length_app, !length_le_bytes. lia.
Qed.

(** C10: equal state hashes mean equal histories.  Two chains, each started from a
    machine-config hash and a base snapshot and extended by any links, have the
    same value only if they started alike and were extended by the same links:
    same vCPU blobs, device sections, memory pages, icounts and virtual times in
    the same order.  The only assumption on the hash is that it does not collide
    on what these two histories hash. *)
Theorem chain_binds_history cfg base ls v cfg' base' ls' v' :
  length cfg = 32%nat -> length base = 32%nat -> length cfg' = 32%nat -> length base' = 32%nat ->
  Forall link_ok ls -> Forall link_ok ls' ->
  push_links ls (StateHashChain_new cfg base) = Ok v ->
  push_links ls' (StateHashChain_new cfg' base') = Ok v' ->
  (forall x y, x ∈ hashed cfg base ls -> y ∈ hashed cfg' base' ls' -> blake3 x = blake3 y -> x = y) ->
  v = v' -> cfg = cfg' /\ base = base' /\ ls = ls'.
Proof.
  intros H1 H2 H3 H4 Hls Hls' Hv Hv' Hcol ->. revert ls' v' Hls Hls' Hv Hv' Hcol.
  induction ls as [|l ls IH] using rev_ind; intros ls' v' Hls Hls' Hv Hv' Hcol;
    destruct ls' as [|l' ls' _] using rev_ind.
  - injection Hv as <-. injection Hv' as Hv'. symmetry in Hv'. apply Hcol in Hv'; [|apply hashed_head..].
    apply app_inj_len in Hv' as [_ Hv']; [|done]. apply app_inj_len in Hv' as [-> ->]; [done|congruence].
  - exfalso. injection Hv as <-. rewrite push_links_snoc in Hv'.
    destruct (push_links ls' _) as [c| |] eqn:Hc; [|done..]. cbn [mbind outcome_bind] in Hv'.
    apply push_link_ok in Hv'. apply Hcol in Hv'; [|apply hashed_head|].
    + apply (f_equal length) in Hv'. apply Forall_app in Hls' as [_ [Hl' _]%Forall_cons_1].
      pose proof (preimage_long c l' (chain_length _ _ _ _ Hc) Hl') as Hlong.
      unfold preimage in Hlong. rewrite <- Hv', !length_app in Hlong. cbn [DOMAIN length] in Hlong. lia.
    + apply (hashed_snoc _ _ _ _ _ _ Hc). by right.
  - exfalso. injection Hv' as <-. rewrite push_links_snoc in Hv.
    destruct (push_links ls _) as [c| |] eqn:Hc; [|done..]. cbn [mbind outcome_bind] in Hv.
    apply push_link_ok in Hv. symmetry in Hv. apply Hcol in Hv; [| |apply hashed_head].
    + apply (f_equal length) in Hv. apply Forall_app in Hls as [_ [Hl _]%Forall_cons_1].
      pose proof (preimage_long c l (chain_length _ _ _ _ Hc) Hl) as Hlong.
      unfold preimage in Hlong. rewrite Hv, !length_app in Hlong. cbn [DOMAIN length] in Hlong. lia.
    + apply (hashed_snoc _ _ _ _ _ _ Hc). by right.
  - rewrite push_links_snoc in Hv, Hv'.
    destruct (push_links ls _) as [c| |] eqn:Hc; [|done..]. cbn [mbind outcome_bind] in Hv.
    destruct (push_links ls' _) as [c'| |] eqn:Hc'; [|done..]. cbn [mbind outcome_bind] in Hv'.
    apply push_link_ok in Hv as ->. apply push_link_ok in Hv'.
    apply Forall_app in Hls as [Hls [Hl _]%Forall_cons_1]. apply Forall_app in Hls' as [Hls' [Hl' _]%Forall_cons_1].
    apply Hcol in Hv'; [|apply (hashed_snoc _ _ _ _ _ _ Hc); by right|apply (hashed_snoc _ _ _ _ _ _ Hc'); by right].
    apply preimage_inj in Hv' as [-> ->]; [|by rewrite (chain_length _ _ _ _ Hc),
      (chain_length _ _ _ _ Hc')|apply Hl|apply Hl'].
    destruct (IH ls' c') as (-> & -> & ->); try done. intros x y Hx Hy.
    apply Hcol; [apply (hashed_snoc _ _ _ _ _ _ Hc)|apply (hashed_snoc _ _ _ _ _ _ Hc')]; by left.
Qed.
End Histories.

(** ** The blob is injective *)

(** What the blob carries of the vCPU: the structures' fields without padding,
    reserved words, exception payloads and the duplicate MXCSR. *)
Definition seg_view (s : kvm_segment) : Z * (Z * (Z * list Z)) :=
  (sg_base s, (sg_limit s, (sg_selector s,
    [sg_type s; sg_present s; sg_dpl s; sg_db s; sg_s s; sg_l s; sg_g s; sg_avl s; sg_unusable s]))).
Definition regs_view (r : kvm_regs) : list Z :=
  [rax r; rbx r; rcx r; rdx r; rsi r; rdi r; rsp r; rbp r; r8 r; r9 r; r10 r; r11 r;
   r12 r; r13 r; r14 r; r15 r; rip r; rflags r].
Definition sregs_view (s : kvm_sregs) :=
  (seg_view <$> [sr_cs s; sr_ds s; sr_es s; sr_fs s; sr_gs s; sr_ss s; sr_tr s; sr_ldt s],
   ((fun d => (dt_base d, dt_limit d)) <$> [sr_gdt s; sr_idt s],
    ([sr_cr0 s; sr_cr2 s; sr_cr3 s; sr_cr4 s; sr_cr8 s; sr_efer s; sr_apic_base s], sr_interrupt_bitmap s))).
Definition fpu_view (f : kvm_fpu) :=
  (fp_fpr f, (fp_fcw f, (fp_fsw f, (fp_ftwx f, (fp_last_opcode f, (fp_last_ip f, (fp_last_dp f, fp_xmm f))))))).
Definition events_view (e : kvm_vcpu_events) :=
  ([exc_injected e; exc_nr e; exc_has_error_code e; exc_pending e], (exc_error_code e,
   ([int_injected e; int_nr e; int_soft e; int_shadow e; nmi_injected e; nmi_pending e; nmi_masked e],
    (ev_sipi_vector e, (ev_flags e,
     [smi_smm e; smi_pending e; smi_smm_inside_nmi e; smi_latched_init e; ev_triple_fault e]))))).
Definition dbg_view (d : kvm_debugregs) := (dbg_db d, (dbg_dr6 d, (dbg_dr7 d, dbg_flags d))).
Definition msrs_view (vns : Z) (l : list kvm_msr_entry) :=
  ((fun e => (msr_index e, msr_data e)) <$> take TSC_SLOT_AT l, ((0x10, vns),
   (fun e => (msr_index e, msr_data e)) <$> drop TSC_SLOT_AT l)).

Definition v_regs : Repr (list Z) := r_array 18 (r_uint 8).
Definition v_sregs :=
  r_array 8 (r_uint 8 ⊗ r_uint 4 ⊗ r_uint 2 ⊗ r_array 9 (r_uint 1)) ⊗ r_array 2 (r_uint 8 ⊗ r_uint 2) ⊗
  r_array 7 (r_uint 8) ⊗ r_array 4 (r_uint 8).
Definition v_fpu :=
  r_array 8 (r_array 16 (r_uint 1)) ⊗ r_uint 2 ⊗ r_uint 2 ⊗ r_uint 1 ⊗ r_uint 2 ⊗ r_uint 8 ⊗ r_uint 8 ⊗
  r_array 16 (r_array 16 (r_uint 1)).
Definition v_events :=
  r_array 4 (r_uint 1) ⊗ r_uint 4 ⊗ r_array 7 (r_uint 1) ⊗ r_uint 4 ⊗ r_uint 4 ⊗ r_array 5 (r_uint 1).
Definition v_dbg := r_array 4 (r_uint 8) ⊗ r_uint 8 ⊗ r_uint 8 ⊗ r_uint 8.
Definition v_msrs :=
  r_array 13 (r_uint 4 ⊗ r_uint 8) ⊗ (r_uint 4 ⊗ r_uint 8) ⊗ r_array 1 (r_uint 4 ⊗ r_uint 8).
(** Registers, special registers, FPU, MXCSR, XSAVE area, events, debug
    registers, MSRs with the normalized TSC. *)
Definition v_vcpu := v_regs ⊗ v_sregs ⊗ v_fpu ⊗ r_uint 4 ⊗ r_array #4096 (r_uint 1) ⊗ v_events ⊗ v_dbg ⊗ v_msrs.

#[export] Instance v_vcpu_ok : ReprOk v_vcpu.
Proof. unfold v_vcpu, v_regs, v_sregs, v_fpu, v_events, v_dbg, v_msrs. apply _. Qed.

Lemma bytes_as_array row : bytes_ok row -> concat (le_bytes 1 <$> row) = row.
Proof.
  induction 1 as [|x row Hx _ IH]; [done|]. cbn [fmap list_fmap concat]. rewrite IH.
  unfold u8 in Hx. cbn. by rewrite Z.mod_small.
Qed.
Lemma rows_as_array rows :
  Forall bytes_ok rows -> concat (to_bytes (r_array 16 (r_uint 1)) <$> rows) = concat rows.
Proof.
  induction 1 as [|x rows Hx _ IH]; [done|]. cbn [fmap list_fmap concat]. rewrite IH. f_equal.
  by apply bytes_as_array.
Qed.

Definition vcpu_view (regs : kvm_regs) (sregs : kvm_sregs) (fpu : kvm_fpu) (mxcsr : Z) (area : bytes)
    (events : kvm_vcpu_events) (dbg : kvm_debugregs) (msrs : list kvm_msr_entry) (vns : Z) :=
  (regs_view regs, (sregs_view (canonicalize_sregs sregs), (fpu_view fpu, (mxcsr, (area,
    (events_view (canonicalize_vcpu_events events), (dbg_view dbg, msrs_view vns msrs))))))).

Lemma msrs_blob vns l : length l = 14%nat -> concat (imap (blob_msr vns) l) = to_bytes v_msrs (msrs_view vns l).
Proof. intros Hl. do 14 (destruct l as [|? l]; [done|]). destruct l; [|done]. reflexivity. Qed.

Lemma byte_rows rows : Forall (fits (r_array 16 (r_uint 1))) rows -> Forall bytes_ok rows.
Proof.
  intros H. eapply Forall_impl; [exact H|]. intros row [_ Hrow]. eapply Forall_impl; [exact Hrow|].
  intros x Hx. cbn in Hx. unfold u8. lia.
Qed.
Lemma byte_row n row : fits (r_array n (r_uint 1)) row -> bytes_ok row.
Proof. intros [_ Hrow]. eapply Forall_impl; [exact Hrow|]. intros x Hx. cbn in Hx. unfold u8. lia. Qed.

Section BlobOk.
Context {S : Type} `{!Vcpu S, !VcpuGets S}.
Implicit Types s : S.

(** The vCPU's answers to the gets, as the blob sees them. *)
Inductive views s (vns : Z) : _ -> Prop :=
| views_intro regs sregs fpu region area events dbg msrs :
    kvm_get_regs s = Ok regs -> kvm_get_sregs s = Ok sregs -> kvm_get_fpu s = Ok fpu ->
    kvm_get_vcpu_events s = Ok events -> kvm_get_debug_regs s = Ok dbg ->
    xsave_area s = Ok (region, area) -> read_msrs MSR_CAPTURE_LIST s = Ok msrs ->
    views s vns (vcpu_view regs sregs fpu (default 0 (region !! 6%nat)) area events dbg msrs vns).

Lemma blob_of_view s vns v :
  views s vns v -> fits v_vcpu v -> canonical_vcpu_blob s vns = Ok (to_bytes v_vcpu v).
Proof.
  intros [regs sregs fpu region area events dbg msrs H1 H2 H3 H4 H5 H6 H7] Hf.
  unfold canonical_vcpu_blob. rewrite H1, H2, H3, H4, H5, H6, H7. cbn [err_map mbind outcome_bind].
  destruct Hf as (_ & _ & Hfpu & _ & Harea & _). cbn [fst snd vcpu_view] in Hfpu, Harea.
  destruct Hfpu as (Hfpr & _ & _ & _ & _ & _ & _ & Hxmm). cbn [fst snd fpu_view] in Hfpr, Hxmm.
  assert (length msrs = 14%nat) as Hl.
  { unfold read_msrs in H7. destruct (err_map _ _) as [l| |]; [|done..]. cbn [mbind outcome_bind] in H7.
    destruct (length l =? _)%nat eqn:E; [|done]. injection H7 as <-. by apply Nat.eqb_eq in E. }
  f_equal. unfold v_vcpu, vcpu_view, r_pair at 1. cbn [to_bytes fst snd].
  apply (f_equal2 app); [reflexivity|]. apply (f_equal2 app); [reflexivity|]. apply (f_equal2 app).
  { unfold blob_fpu, v_fpu, fpu_view, r_pair. cbn [to_bytes fst snd r_array].
    apply (f_equal2 app); [symmetry; apply rows_as_array, byte_rows, Hfpr|].
    do 6 (apply (f_equal2 app); [reflexivity|]). symmetry. apply rows_as_array, byte_rows, Hxmm. }
  apply (f_equal2 app); [reflexivity|].
  apply (f_equal2 app); [symmetry; by eapply bytes_as_array, byte_row|].
  do 2 (apply (f_equal2 app); [reflexivity|]).
  by apply msrs_blob.
Qed.
End BlobOk.

Section FinalLink.
Context {B : Blake3} {S : Type} `{!Vcpu S, !VcpuGets S, !SlotMem S}.
Implicit Types s : S.

(** A slot whose RAM can be read page by page. *)
Definition ram_pages s : nat := Z.to_nat (slot_mem_bytes s / Z.of_nat PAGE_SIZE).
Definition ram_readable s : Prop :=
  0 <= slot_mem_bytes s < 2 ^ 64 /\
  forall idx, 0 <= idx < Z.of_nat (ram_pages s) ->
    exists page, read_page (idx * Z.of_nat PAGE_SIZE) s = Ok page /\ length page = PAGE_SIZE.

Lemma walk_pages_spec s n idx :
  ram_readable s -> 0 <= idx -> idx + Z.of_nat n <= Z.of_nat (ram_pages s) ->
  exists ps, walk_pages n idx s = Ok ps /\ ps.*1 = seqZ idx (Z.of_nat n) /\
    Forall (fun p => u64 p.1 /\ length p.2 = PAGE_SIZE) ps /\
    Forall (fun p => read_page (p.1 * Z.of_nat PAGE_SIZE) s = Ok p.2) ps.
Proof.
  intros [Hm Hr]. revert idx. induction n as [|n IH]; intros idx H0 Hn; cbn [walk_pages].
  { exists []. by split_and!; try constructor. }
  destruct (Hr idx ltac:(lia)) as (page & Hp & Hl). rewrite Hp. cbn [err_map mbind outcome_bind].
  destruct (IH (idx + 1) ltac:(lia) ltac:(lia)) as (ps & -> & H1 & H2 & H3). cbn [mbind outcome_bind].
  exists ((idx, page) :: ps). split_and!; [done| |constructor; [|done]|by constructor].
  - rewrite (seqZ_cons idx) by lia. rewrite fmap_cons, H1. cbn [fst]. do 2 f_equal; lia.
  - cbn. split; [|done]. assert (ram_pages s <= Z.to_nat (slot_mem_bytes s))%nat.
    { unfold ram_pages. apply Z2Nat.inj_le; [apply Z.div_pos; [lia|done]|lia|]. apply Z.div_le_upper_bound; [done|].
      change (Z.of_nat PAGE_SIZE) with 4096. lia. }
    unfold u64. lia.
Qed.

(** The link [push_final_link] folds in. *)
Lemma push_final_link_spec s sections icount vns chain v :
  views s vns v -> fits v_vcpu v -> ram_readable s ->
  exists ps, walk_pages (ram_pages s) 0 s = Ok ps /\
    push_final_link s sections icount vns chain
    = Ok (blake3 (preimage chain (mkLink (to_bytes v_vcpu v) sections ps icount vns))) /\
    Forall (fun p => u64 p.1 /\ length p.2 = PAGE_SIZE) ps.
Proof.
  intros Hv Hf Hr. destruct (walk_pages_spec s (ram_pages s) 0 Hr) as (ps & Hp & _ & Hok & _); [lia..|].
  exists ps. split_and!; [done| |done]. unfold push_final_link.
  rewrite (blob_of_view s vns v Hv Hf). cbn [err_map mbind outcome_bind]. fold (ram_pages s). by rewrite Hp.
Qed.

(** C25: a final link binds the whole paused machine.  If two slots' final links
    give the same chain value, and the hash does not collide on the two
    preimages, then the chains were equal before, and so are the registers,
    special registers, FPU, MXCSR, canonical XSAVE area, pending events, debug
    registers, captured MSRs, device sections, every page of guest RAM, the
    icount and the virtual time. *)
Theorem final_link_binds_machine s sections icount vns chain v s' sections' icount' vns' chain' v' h :
  length chain = 32%nat -> length chain' = 32%nat ->
  views s vns v -> views s' vns' v' -> fits v_vcpu v -> fits v_vcpu v' -> ram_readable s -> ram_readable s' ->
  Z.of_nat (length sections) < 2 ^ 64 -> Z.of_nat (length sections') < 2 ^ 64 ->
  u64 icount -> u64 icount' -> u64 vns -> u64 vns' ->
  push_final_link s sections icount vns chain = Ok h ->
  push_final_link s' sections' icount' vns' chain' = Ok h ->
  (forall ps ps', walk_pages (ram_pages s) 0 s = Ok ps -> walk_pages (ram_pages s') 0 s' = Ok ps' ->
    let x := preimage chain (mkLink (to_bytes v_vcpu v) sections ps icount vns) in
    let y := preimage chain' (mkLink (to_bytes v_vcpu v') sections' ps' icount' vns') in
    blake3 x = blake3 y -> x = y) ->
  chain = chain' /\ v = v' /\ sections = sections' /\ icount = icount' /\ vns = vns' /\
  walk_pages (ram_pages s) 0 s = walk_pages (ram_pages s') 0 s'.
Proof.
  intros Hc Hc' Hv Hv' Hf Hf' Hr Hr' Hs Hs' Hi Hi' Hn Hn' H H' Hcol.
  destruct (push_final_link_spec s sections icount vns chain v Hv Hf Hr) as (ps & Hp & E & Hok).
  destruct (push_final_link_spec s' sections' icount' vns' chain' v' Hv' Hf' Hr') as (ps' & Hp' & E' & Hok').
  rewrite E in H. rewrite E' in H'. injection H as H. injection H' as H'.
  assert (Z.of_nat (size_of v_vcpu) < 2 ^ 64) as Hsz by (vm_compute; reflexivity).
  rewrite <- H' in H. apply (Hcol ps ps' Hp Hp') in H. apply preimage_inj in H as [<- Heq].
  - pose proof (f_equal l_blob Heq) as Hb. pose proof (f_equal l_sections Heq) as H1.
    pose proof (f_equal l_pages Heq) as H2. pose proof (f_equal l_icount Heq) as H3.
    pose proof (f_equal l_vns Heq) as H4. cbn [l_blob l_sections l_pages l_icount l_vns] in *.
    split; [done|]. split; [|rewrite Hp, Hp', H2; by split_and!].
    rewrite <- (of_to (r := v_vcpu) v Hf), <- (of_to (r := v_vcpu) v' Hf'). by f_equal.
  - congruence.
  - unfold link_wf. cbn [l_blob l_sections l_pages l_icount l_vns].
    rewrite (length_image v Hf). exact (conj Hsz (conj Hs (conj Hok (conj Hi Hn)))).
  - unfold link_wf. cbn [l_blob l_sections l_pages l_icount l_vns].
    rewrite (length_image v' Hf'). exact (conj Hsz (conj Hs' (conj Hok' (conj Hi' Hn')))).
Qed.
End FinalLink.

(** ** Example *)

Definition example_link (icount : Z) : Link := mkLink (replicate #144 7) [1; 2] [] icount (2 * icount).
Lemma example_link_ok i : 0 <= i <= 100 -> link_ok (example_link i).
Proof.
  intros Hi. unfold link_ok, link_wf. cbn [example_link l_blob l_sections l_pages l_icount l_vns].
  rewrite length_replicate. split_and!; first [lia | unfold u64; lia | by constructor].
Qed.
Definition example_base : bytes := @StateHashChain_new example_hash (replicate 32 1) (replicate 32 2).
Definition example_chain : bytes :=
  match @push_links example_hash [example_link 10; example_link 20] example_base with Ok v => v | _ => [] end.

Lemma example_hashed x :
  x ∈ @hashed example_hash (replicate 32 1) (replicate 32 2) [example_link 10; example_link 20] ->
  x = DOMAIN ++ replicate 32 1 ++ replicate 32 2 \/ x = preimage example_base (example_link 10) \/
  x = preimage (example_hash (preimage example_base (example_link 10))) (example_link 20).
Proof. unfold hashed. cbn [hashed_from]. rewrite !elem_of_cons, elem_of_nil. tauto. Qed.

Lemma distinct_images (f : bytes -> bytes) p0 p1 p2 x y :
  bool_decide (f p0 <> f p1 /\ f p0 <> f p2 /\ f p1 <> f p2) = true ->
  (x = p0 \/ x = p1 \/ x = p2) -> (y = p0 \/ y = p1 \/ y = p2) -> f x = f y -> x = y.
Proof.
  intros (H1 & H2 & H3)%bool_decide_eq_true. intros [-> | [-> | ->]] [-> | [-> | ->]] H; try done; congruence.
Qed.

Lemma example_no_collision x y :
  x ∈ @hashed example_hash (replicate 32 1) (replicate 32 2) [example_link 10; example_link 20] ->
  y ∈ @hashed example_hash (replicate 32 1) (replicate 32 2) [example_link 10; example_link 20] ->
  example_hash x = example_hash y -> x = y.
Proof.
  intros Hx%example_hashed Hy%example_hashed. eapply distinct_images; [|exact Hx|exact Hy].
  vm_compute. reflexivity.
Qed.

Lemma chain_binds_history_witness :
  replicate 32 1 = replicate 32 1 /\ replicate 32 2 = replicate 32 2 /\
  [example_link 10; example_link 20] = [example_link 10; example_link 20].
Proof.
  apply (@chain_binds_history example_hash example_hash_spec (replicate 32 1) (replicate 32 2)
    [example_link 10; example_link 20] example_chain (replicate 32 1) (replicate 32 2)
    [example_link 10; example_link 20] example_chain); try reflexivity.
  1-2: repeat constructor; apply example_link_ok; lia.
  exact example_no_collision.
Defined.
