(* ===== verification/Boundary.v ===== *)
(** * The boundary engine: [dh-vmm/src/boundary.rs], [dh-detclock/src/counter.rs]

    [land_at] stops the vCPU at exactly a target icount: a far approach that
    arms the counter short of the target, then single steps.  The definitions
    run over any [Vcpu]; [GuestPath] states what the engine relies on of KVM and
    of the counter, and the theorems are proved against it. *)

From S2P Require Import Prelude Kvm.

(** ** The retired-instruction counter *)

Definition NEVER_FIRES_PERIOD : Z := 2 ^ 62.

(** The messages of the source carry an errno, a length or an ioctl's name. *)
Inductive CounterError :=
| Open (errno : Z)
| NotPinned
| ReadFailed (errno : Z)
| ShortRead (n : nat)
| Ioctl (c : PerfIoctl) (errno : Z).

(** ** Data *)

Record Margins := mkMargins { skid_margin : Z; resync_slack : Z }.
Definition Margins_default : Margins := mkMargins 8192 1024.

Record Boundary := mkBoundary { b_icount : Z; b_rip : Z; b_rcx : Z }.

(** The calls whose failure an error names. *)
Inductive KvmCall := KVM_RUN | KVM_GET_REGS | KVM_SET_GUEST_DEBUG | KVM_GET_VCPU_EVENTS | KVM_INTERRUPT.

(** The messages an exit handler fails with: run control's own sentinels and
    refusals, and those of the callers' handlers. *)
Inductive ExitMsg :=
| guest_halted
| frame_counter_not_u32
| frame_counter_not_monotone (previous frame : Z)
| frame_counter_read (e : CounterError)
| frame_input_queued_irq (frame : Z)
| frame_sink_requested_stop
| frame_budget_reached
| sdk_event_matched
| handler_failed (code : Z).

Inductive BoundaryError :=
| Overshoot (target counted : Z)
| CounterFailed (e : CounterError)
| Kvm (c : KvmCall) (errno : Z)
| Exit (m : ExitMsg).

Section Engine.
Context {S : Type} `{!Vcpu S}.
Implicit Types s : S.

(** [InstRetired::read]: a 24-byte record of value, time enabled, time running. *)
Definition InstRetired_read s : outcome CounterError Z :=
  b ← err_map ReadFailed (perf_read s);
  if (length b =? 0)%nat then Err NotPinned
  else if negb (length b =? 24)%nat then Err (ShortRead (length b))
  else
    let value := of_le (slice 0 8 b) in
    let enabled := of_le (slice 8 8 b) in
    let running := of_le (slice 16 8 b) in
    if (0 <? enabled) && (running =? 0) then Err NotPinned else Ok value.

Definition perf_call (c : PerfIoctl) : prog S CounterError unit :=
  map_err (Ioctl c) (io (perf_ioctl c)).
Definition InstRetired_reset : prog S CounterError unit := perf_call RESET.
Definition InstRetired_enable : prog S CounterError unit := perf_call ENABLE.
Definition InstRetired_disable : prog S CounterError unit := perf_call DISABLE.
Definition arm_period (period : Z) : prog S CounterError unit := perf_call (PERIOD period).

Definition clear_immediate_exit s : S := set_kvm_immediate_exit 0 s.

Definition set_singlestep (on : bool) : prog S BoundaryError unit :=
  let control := if on then Z.lor KVM_GUESTDBG_ENABLE KVM_GUESTDBG_SINGLESTEP else 0 in
  map_err (Kvm KVM_SET_GUEST_DEBUG) (io (kvm_set_guest_debug control)).

Definition read_counter : prog S BoundaryError Z := map_err CounterFailed (observe InstRetired_read).
Definition get_regs : prog S BoundaryError kvm_regs := map_err (Kvm KVM_GET_REGS) (observe kvm_get_regs).

(** [guard.run()]: the three arms of the source's matches. *)
Inductive Entered := Trapped (e : VcpuExit) | Interrupted | Failed (errno : Z).
Definition guard_run : prog S BoundaryError Entered := fun s =>
  let '(r, s) := kvm_run s in
  Some (Ok (match r with
            | Exited e => Trapped e
            | RunErrno n => if n =? EINTR then Interrupted else Failed n
            end), s).

Definition handler : Type := VcpuExit -> prog S BoundaryError unit.

(** One pass of the loop: [inl stepping] goes round again, [inr (result,
    stepping)] is a [break]; an error of the program itself is a [?], which
    returns from [land_at] at once. *)
Definition land_pass (target : Z) (m : Margins) (on_exit : handler) (stepping : bool) :
    prog S BoundaryError (bool + outcome BoundaryError Boundary * bool) :=
  c ← read_counter;
  if target <? c then mret (inr (Err (Overshoot target c), stepping))
  else if c =? target then
    regs ← get_regs;
    mret (inr (Ok (mkBoundary c (rip regs) (rcx regs)), stepping))
  else
    let d := target - c in
    if negb stepping && (u64_max <? skid_margin m + resync_slack m) then crash
    else if negb stepping && (skid_margin m + resync_slack m <? d) then
      _ ← map_err CounterFailed (arm_period (d - skid_margin m));
      r ← guard_run;
      match r with
      | Trapped e => _ ← on_exit e; mret (inl stepping)
      | Interrupted => _ ← modify clear_immediate_exit; mret (inl stepping)
      | Failed n => mret (inr (Err (Kvm KVM_RUN n), stepping))
      end
    else
      _ ← (if stepping then pass
           else _ ← map_err CounterFailed (arm_period NEVER_FIRES_PERIOD); set_singlestep true);
      r ← guard_run;
      match r with
      | Trapped Debug => _ ← set_singlestep true; mret (inl true)
      | Trapped e => _ ← on_exit e; _ ← set_singlestep true; mret (inl true)
      | Interrupted => _ ← modify clear_immediate_exit; mret (inl true)
      | Failed n => mret (inr (Err (Kvm KVM_RUN n), true))
      end.

Fixpoint land_loop (fuel : nat) (target : Z) (m : Margins) (on_exit : handler) (stepping : bool) :
    prog S BoundaryError (outcome BoundaryError Boundary * bool) :=
  match fuel with
  | O => spin
  | Datatypes.S fuel =>
      r ← land_pass target m on_exit stepping;
      match r with
      | inl stepping => land_loop fuel target m on_exit stepping
      | inr broke => mret broke
      end
  end.

Definition land_at (fuel : nat) (target : Z) (m : Margins) (on_exit : handler) :
    prog S BoundaryError Boundary :=
  broke ← land_loop fuel target m on_exit false;
  let '(result, stepping) := (broke : outcome BoundaryError Boundary * bool) in
  _ ← (if stepping then set_singlestep false else pass);
  of_outcome result.

(** The loop of [step_one_entry] and its [break] value. *)
Fixpoint step_loop (fuel : nat) (on_exit : handler) : prog S BoundaryError (outcome BoundaryError unit) :=
  match fuel with
  | O => spin
  | Datatypes.S fuel =>
      r ← guard_run;
      match r with
      | Trapped Debug => mret (Ok tt)
      | Trapped e =>
          o ← reify (on_exit e);
          match o with
          | Err x => mret (Err x)
          | _ => _ ← set_singlestep true; step_loop fuel on_exit
          end
      | Interrupted => _ ← modify clear_immediate_exit; step_loop fuel on_exit
      | Failed n => mret (Err (Kvm KVM_RUN n))
      end
  end.

Definition step_one_entry (fuel : nat) (on_exit : handler) : prog S BoundaryError Boundary :=
  _ ← set_singlestep true;
  result ← step_loop fuel on_exit;
  _ ← set_singlestep false;
  _ ← of_outcome result;
  icount ← read_counter;
  if icount <=? 0 then crash
  else
    regs ← get_regs;
    mret (mkBoundary icount (rip regs) (rcx regs)).
End Engine.
Arguments handler S : clear implicits.

(** ** What the engine relies on

    [Probe] names what is observable of a world beside the counter: whether the
    single-step trap is armed, the icount at which the armed period elapses, and
    a bound on the entries that may still return before another instruction
    retires (REP iterations, exits of one instruction, queued kicks). *)
Class Probe (S : Type) := {
  armed : S -> bool;
  deadline : S -> Z;
  work : S -> nat }.

(** The deterministic execution of a guest: [path n s] when [s] is at the
    instruction boundary after [n] retirements, [flight n s] when it may be
    inside the next instruction.  [settle] is the boundary of the first trap
    after the last queued vector (0 when none is): an entry that delivers a
    vector does not trap before.  The execution is known up to [horizon]. *)
Record Track (S : Type) := mkTrack {
  path : Z -> S -> Prop;
  flight : Z -> S -> Prop;
  settle : Z;
  horizon : Z;
  regs_at : Z -> kvm_regs;
  quiet : VcpuExit -> Prop;
  work_max : nat;
  skid : Z }.
Arguments path {S}. Arguments flight {S}. Arguments settle {S}. Arguments horizon {S}. Arguments regs_at {S}.
Arguments quiet {S}. Arguments work_max {S}. Arguments skid {S}.

Section Follows.
Context {S : Type} `{!Vcpu S, !Probe S}.
Implicit Types s : S.

(** The world after an entry has been answered: a debug trap needs nothing, a
    kick is cleared, any other exit is serviced by the handler. *)
Definition serviced (T : Track S) (on_exit : handler S) (r : RunResult) s' s'' : Prop :=
  match r with
  | Exited Debug => s'' = s'
  | Exited e => quiet T e /\ on_exit e s' = Some (Ok tt, s'')
  | RunErrno n => n = EINTR /\ s'' = set_kvm_immediate_exit 0 s'
  end.

(** The documented behaviour of KVM and of a pinned guest-only counter.  Kernel
    calls succeed and move no instruction; the counter counts retirements; a
    period fires within the skid; an armed entry retires at most one instruction
    and may consume the arming, except while a queued vector is delivered; and
    between retirements only finitely many entries return. *)
Class Follows (T : Track S) (on_exit : handler S) : Prop := {
  path_flight : forall n s, path T n s -> flight T n s;
  horizon_width : horizon T <= u64_max;
  flight_width : forall n s, flight T n s -> 0 <= n <= horizon T;
  flight_counter : forall n s, flight T n s -> exists enabled running,
    u64 enabled /\ u64 running /\ (enabled = 0 \/ running <> 0) /\
    perf_read s = Ok (le_bytes 8 n ++ le_bytes 8 enabled ++ le_bytes 8 running);
  path_regs : forall n s, path T n s -> kvm_get_regs s = Ok (regs_at T n);
  work_bound : forall n s, flight T n s -> (work s <= work_max T)%nat;
  debug_set : forall n s c, flight T n s -> exists s',
    kvm_set_guest_debug c s = (Ok tt, s') /\ flight T n s' /\ (path T n s -> path T n s') /\
    armed s' = negb (c =? 0) /\ work s' = work s;
  period_set : forall n s p, flight T n s -> exists s',
    perf_ioctl (PERIOD p) s = (Ok tt, s') /\ flight T n s' /\ (path T n s -> path T n s') /\
    armed s' = armed s /\ work s' = work s /\ deadline s' = n + p;
  run_free : forall n s, flight T n s -> armed s = false ->
    n < deadline s -> deadline s + skid T <= horizon T ->
    exists s'' n', serviced T on_exit (kvm_run s).1 (kvm_run s).2 s'' /\ (kvm_run s).1 <> Exited Debug /\
      n <= n' < deadline s + skid T /\ flight T n' s'' /\ (n < n' \/ (work s'' < work s)%nat) /\
      armed s'' = false;
  run_step : forall n s, flight T n s -> armed s = true -> settle T <= n < horizon T ->
    exists s'', serviced T on_exit (kvm_run s).1 (kvm_run s).2 s'' /\
      (flight T n s'' /\ (work s'' < work s)%nat \/ path T (n + 1) s'') /\
      (forall e, (kvm_run s).1 = RunErrno e -> armed s'' = true);
  run_delivery : forall n s, flight T n s -> armed s = true -> n < settle T <= horizon T ->
    exists s'', serviced T on_exit (kvm_run s).1 (kvm_run s).2 s'' /\
      ((kvm_run s).1 = Exited Debug /\ path T (settle T) s'' \/
       (kvm_run s).1 <> Exited Debug /\ exists n', n <= n' < settle T /\ flight T n' s'' /\
         (n < n' \/ (work s'' < work s)%nat)) /\
      (forall e, (kvm_run s).1 = RunErrno e -> armed s'' = true) }.

(** Handlers that agree on the exits of an execution follow it alike. *)
Lemma follows_handler T on_exit on_exit' :
  (forall e s, quiet T e -> on_exit' e s = on_exit e s) -> Follows T on_exit -> Follows T on_exit'.
Proof.
  intros Hq F.
  assert (forall r s' s'', serviced T on_exit r s' s'' -> serviced T on_exit' r s' s'') as Hsv.
  { intros [[]|] s' s''; cbn; try done; intros [? ?]; (split; [done|]); by rewrite Hq. }
  split; try apply F; intros.
  - edestruct run_free as (s'' & n' & ? & ?); eauto 10.
  - edestruct run_step as (s'' & ? & ?); eauto 10.
  - edestruct run_delivery as (s'' & ? & ?); eauto 10.
Qed.
End Follows.

(** ** Landing *)

Section Landing.
Context {S : Type} `{!Vcpu S, !Probe S} (T : Track S) (on_exit : handler S) `{!Follows T on_exit}.
Implicit Types s : S.

Lemma read_counter_flight n s : flight T n s -> read_counter s = Some (Ok n, s).
Proof.
  intros Hf. destruct (flight_counter n s Hf) as (en & ru & He & Hr & Hz & Hp).
  pose proof (flight_width n s Hf) as Hn. pose proof horizon_width.
  unfold read_counter, map_err, observe, InstRetired_read. rewrite Hp. cbn [err_map mbind outcome_bind].
  repeat len_rw. cbn [Nat.eqb negb].
  replace (slice 0 8 _) with (le_bytes 8 n) by reflexivity.
  replace (slice 8 8 _) with (le_bytes 8 en) by reflexivity.
  replace (slice 16 8 _) with (le_bytes 8 ru) by reflexivity.
  rewrite !of_le_u64 by (done || ulia).
  destruct ((0 <? en) && (ru =? 0)) eqn:E; [lia|done].
Qed.

Lemma get_regs_path n s : path T n s -> get_regs s = Some (Ok (regs_at T n), s).
Proof. intros H. unfold get_regs, map_err, observe. by rewrite (path_regs n s H). Qed.

Lemma set_singlestep_flight on n s :
  flight T n s -> exists s', set_singlestep on s = Some (Ok tt, s') /\ flight T n s' /\
    (path T n s -> path T n s') /\ armed s' = on /\ work s' = work s.
Proof.
  intros Hf. unfold set_singlestep, map_err, io.
  destruct (debug_set n s (if on then Z.lor KVM_GUESTDBG_ENABLE KVM_GUESTDBG_SINGLESTEP else 0) Hf)
    as (s' & Hs & ? & ? & Ha & ?).
  exists s'. rewrite Hs. split_and!; try done. rewrite Ha. by destruct on.
Qed.

Lemma arm_period_flight p n s :
  flight T n s -> exists s', map_err CounterFailed (arm_period p) s = Some (Ok tt, s') /\ flight T n s' /\
    armed s' = armed s /\ work s' = work s /\ deadline s' = n + p.
Proof.
  intros Hf. destruct (period_set n s p Hf) as (s' & Hs & ? & ? & ? & ? & ?). exists s'.
  unfold map_err, arm_period, perf_call, io, map_err. by rewrite Hs.
Qed.

(** The boundary of icount [n]. *)
Definition boundary_at (n : Z) : Boundary := mkBoundary n (rip (regs_at T n)) (rcx (regs_at T n)).

(** One answered entry: the handler's part and the re-arming of the near
    approach. *)
Definition near_entry : prog S BoundaryError (bool + outcome BoundaryError Boundary * bool) :=
  r ← guard_run;
  match r with
  | Trapped Debug => _ ← set_singlestep true; mret (inl true)
  | Trapped e => _ ← on_exit e; _ ← set_singlestep true; mret (inl true)
  | Interrupted => _ ← modify clear_immediate_exit; mret (inl true)
  | Failed n => mret (inr (Err (Kvm KVM_RUN n), true))
  end.

(** A step of the execution towards [target]. *)
Definition advanced (target n : Z) s n' s' : Prop :=
  n <= n' <= target /\ flight T n' s' /\ (n' = target -> path T n' s') /\
  (n < n' \/ n' = n /\ (work s' < work s)%nat).

Lemma rearm n s : flight T n s -> exists s',
  (_ ← set_singlestep true; mret (inl true) : prog S BoundaryError (bool + outcome BoundaryError Boundary * bool)) s
    = Some (Ok (inl true), s') /\
  flight T n s' /\ (path T n s -> path T n s') /\ armed s' = true /\ work s' = work s.
Proof.
  intros Hf. destruct (set_singlestep_flight true n s Hf) as (s' & Hs & ?).
  exists s'. by rewrite (prog_bind_ok _ _ _ _ _ Hs).
Qed.

Lemma near_entry_serviced s s'' n' :
  serviced T on_exit (kvm_run s).1 (kvm_run s).2 s'' -> flight T n' s'' ->
  (forall e, (kvm_run s).1 = RunErrno e -> armed s'' = true) ->
  exists s', near_entry s = Some (Ok (inl true), s') /\ flight T n' s' /\
    (path T n' s'' -> path T n' s') /\ armed s' = true /\ work s' = work s''.
Proof.
  intros Hsv Hf Ha. destruct (rearm n' s'' Hf) as (s' & Hr & Hf' & Hp & Ha' & Hw).
  unfold near_entry, mbind at 1, prog_bind at 1, guard_run.
  destruct (kvm_run s) as [[e|x] s1] eqn:Hk; cbn [fst snd] in *.
  - exists s'. destruct e; cbn in Hsv; lazymatch type of Hsv with
      | _ /\ _ => destruct Hsv as [_ Hx]; by rewrite (prog_bind_ok _ _ _ _ _ Hx)
      | _ => by subst s''
      end.
  - destruct Hsv as [-> ->]. exists (set_kvm_immediate_exit 0 s1). split_and!; try done. by eapply Ha.
Qed.

Lemma near_entry_advances target n s :
  flight T n s -> armed s = true -> n < target -> settle T <= target <= horizon T ->
  exists s' n', near_entry s = Some (Ok (inl true), s') /\ advanced target n s n' s' /\ armed s' = true.
Proof.
  intros Hf Ha Hn Hs. destruct (decide (settle T <= n)) as [Hset|Hset].
  - destruct (run_step n s Hf Ha ltac:(lia)) as (s'' & Hsv & [[Hf'' Hw]|Hp] & He).
    + destruct (near_entry_serviced s s'' n Hsv Hf'' He) as (s' & ? & ? & ? & ? & ?).
      exists s', n. unfold advanced. split_and!; auto; lia.
    + pose proof (path_flight _ _ Hp) as Hf''.
      destruct (near_entry_serviced s s'' (n + 1) Hsv Hf'' He) as (s' & ? & ? & ? & ? & ?).
      exists s', (n + 1). unfold advanced. split_and!; auto; lia.
  - destruct (run_delivery n s Hf Ha ltac:(lia)) as (s'' & Hsv & [[_ Hp]|(_ & n' & Hn' & Hf'' & Hw)] & He).
    + pose proof (path_flight _ _ Hp) as Hf''.
      destruct (near_entry_serviced s s'' (settle T) Hsv Hf'' He) as (s' & ? & ? & ? & ? & ?).
      exists s', (settle T). unfold advanced. split_and!; auto; lia.
    + destruct (near_entry_serviced s s'' n' Hsv Hf'' He) as (s' & ? & ? & ? & ? & ?).
      exists s', n'. unfold advanced. split_and!; auto; lia.
Qed.

(** Margins that make landing possible: they cover the skid. *)
Definition margins_ok (m : Margins) : Prop :=
  skid T <= skid_margin m /\ 0 <= skid_margin m /\ 0 <= resync_slack m /\
  skid_margin m + resync_slack m <= u64_max.

Context (m : Margins) (Hm : margins_ok m).

Lemma far_pass target n s :
  flight T n s -> armed s = false -> skid_margin m + resync_slack m < target - n -> target <= horizon T ->
  exists s' n', land_pass target m on_exit false s = Some (Ok (inl false), s') /\
    advanced target n s n' s' /\ armed s' = false.
Proof.
  intros Hf Ha Hd Hh. unfold land_pass. destruct Hm as (Hskid & Hk0 & Hk1 & Hk2).
  rewrite (prog_bind_ok _ _ _ _ _ (read_counter_flight n s Hf)).
  destruct (arm_period_flight (target - n - skid_margin m) n s Hf) as (s1 & H1 & Hf1 & Ha1 & Hw1 & Hd1).
  destruct (run_free n s1 Hf1) as (s'' & n' & Hsv & Hnd & Hn' & Hf'' & Hw & Ha''); [congruence|lia..|].
  rewrite Hd1 in Hn'.
  replace (target <? n) with false by lia. replace (n =? target) with false by lia. cbv zeta.
  cbn [negb andb]. replace (u64_max <? _) with false by lia. replace (_ <? target - n) with true by lia.
  rewrite (prog_bind_ok _ _ _ _ _ H1). unfold mbind at 1, prog_bind at 1, guard_run.
  exists s'', n'. assert (advanced target n s n' s'') as Hadv.
  { unfold advanced. split_and!; try done; lia. }
  destruct (kvm_run s1) as [[e|x] s2] eqn:Hk; cbn [fst snd] in *.
  - split; [|done]. destruct e; cbn in Hsv; try done; destruct Hsv as [_ Hx];
      by rewrite (prog_bind_ok _ _ _ _ _ Hx).
  - by destruct Hsv as [-> ->].
Qed.

Lemma land_pass_advances target n s stepping :
  flight T n s -> armed s = stepping -> n < target -> settle T <= target <= horizon T ->
  exists s' n' stepping', land_pass target m on_exit stepping s = Some (Ok (inl stepping'), s') /\
    advanced target n s n' s' /\ armed s' = stepping'.
Proof.
  intros Hf Ha Hn Hs. pose proof Hm as (Hskid & Hk0 & Hk1 & Hk2).
  destruct (decide (stepping = false /\ skid_margin m + resync_slack m < target - n)) as [[-> Hd]|Hnear].
  { destruct (far_pass target n s Hf Ha Hd ltac:(lia)) as (s' & n' & ?). by exists s', n', false. }
  unfold land_pass. rewrite (prog_bind_ok _ _ _ _ _ (read_counter_flight n s Hf)).
  replace (target <? n) with false by lia. replace (n =? target) with false by lia. cbv zeta.
  replace (u64_max <? _) with false by lia. rewrite andb_false_r.
  replace (negb stepping && _) with false by (destruct stepping; cbn; [done|]; symmetry; apply Z.ltb_ge; naive_solver lia).
  destruct stepping.
  - destruct (near_entry_advances target n s Hf Ha Hn Hs) as (s' & n' & Hne & ?).
    exists s', n', true. split; [|done]. rewrite (prog_bind_ok _ _ s tt s eq_refl). exact Hne.
  - destruct (arm_period_flight NEVER_FIRES_PERIOD n s Hf) as (s1 & H1 & Hf1 & Ha1 & Hw1 & _).
    destruct (set_singlestep_flight true n s1 Hf1) as (s2 & H2 & Hf2 & _ & Ha2 & Hw2).
    destruct (near_entry_advances target n s2 Hf2 Ha2 Hn Hs) as (s' & n' & Hne & Hadv & Ha').
    exists s', n', true. split_and!; [|unfold advanced in *; rewrite Hw2, Hw1 in Hadv; exact Hadv|done].
    rewrite (prog_bind_ok _ _ s tt s2); [exact Hne|].
    by rewrite (prog_bind_ok _ _ _ _ _ H1).
Qed.

(** The passes a landing may need. *)
Definition land_fuel (target n : Z) : nat := (Z.to_nat (target - n) + 1) * (work_max T + 1) + 1.

Lemma land_loop_exact target : settle T <= target <= horizon T -> forall fuel n s stepping,
  flight T n s -> armed s = stepping -> n <= target -> (n = target -> path T n s) ->
  (Z.to_nat (target - n) * (work_max T + 1) + work s < fuel)%nat ->
  exists s' stepping', land_loop fuel target m on_exit stepping s
      = Some (Ok (Ok (boundary_at target), stepping'), s') /\
    path T target s' /\ armed s' = stepping'.
Proof.
  intros Hs. induction fuel as [|fuel IH]; intros n s stepping Hf Ha Hn Hp Hfu; [lia|].
  cbn [land_loop]. destruct (decide (n = target)) as [->|Hne].
  - exists s, stepping. split_and!; auto.
    unfold land_pass. erewrite prog_bind_ok.
    2: { rewrite (prog_bind_ok _ _ _ _ _ (read_counter_flight _ s Hf)), Z.ltb_irrefl, Z.eqb_refl.
         rewrite (prog_bind_ok _ _ _ _ _ (get_regs_path _ s (Hp eq_refl))). reflexivity. }
    reflexivity.
  - destruct (land_pass_advances target n s stepping Hf Ha) as (s1 & n1 & st1 & H1 & Hadv & Ha1); [lia|done|].
    rewrite (prog_bind_ok _ _ _ _ _ H1). destruct Hadv as (Hr & Hf1 & Hp1 & Hw).
    apply (IH n1); try done; [lia|]. pose proof (work_bound _ _ Hf1).
    destruct Hw as [Hw|[-> Hw]]; [|lia].
    assert (Z.to_nat (target - n) = Z.to_nat (target - n1) + Z.to_nat (n1 - n))%nat as E by lia.
    rewrite E in Hfu. nia.
Qed.

Lemma land_at_spec target n s fuel :
  path T n s -> armed s = false -> n <= target <= horizon T -> (n < target -> settle T <= target) ->
  (land_fuel target n <= fuel)%nat ->
  exists s', land_at fuel target m on_exit s = Some (Ok (boundary_at target), s') /\
    path T target s' /\ armed s' = false.
Proof.
  intros Hp Ha Hn Hs Hfu. pose proof (path_flight _ _ Hp) as Hf. pose proof (work_bound _ _ Hf).
  assert (exists s' st, land_loop fuel target m on_exit false s = Some (Ok (Ok (boundary_at target), st), s') /\
            path T target s' /\ armed s' = st) as (s1 & st & H1 & Hp1 & Ha1).
  { destruct (decide (n = target)) as [->|].
    - destruct fuel as [|fuel]; [unfold land_fuel in Hfu; lia|]. exists s, false. split_and!; auto.
      cbn [land_loop]. unfold land_pass. erewrite prog_bind_ok.
      2: { rewrite (prog_bind_ok _ _ _ _ _ (read_counter_flight _ s Hf)), Z.ltb_irrefl, Z.eqb_refl.
           rewrite (prog_bind_ok _ _ _ _ _ (get_regs_path _ s Hp)). reflexivity. }
      reflexivity.
    - apply (land_loop_exact target ltac:(lia) fuel n s false); auto; unfold land_fuel in Hfu; nia. }
  unfold land_at. rewrite (prog_bind_ok _ _ _ _ _ H1). destruct st.
  - destruct (set_singlestep_flight false _ s1 (path_flight _ _ Hp1)) as (s' & H2 & _ & Hp' & Ha' & _).
    exists s'. rewrite (prog_bind_ok _ _ _ _ _ H2). auto.
  - exists s1. rewrite (prog_bind_ok _ _ s1 tt s1 eq_refl). auto.
Qed.

Lemma reify_ok {A} (p : prog S BoundaryError A) s a s' :
  p s = Some (Ok a, s') -> (reify p : prog S BoundaryError _) s = Some (Ok (Ok a), s').
Proof. intros H. unfold reify. by rewrite H. Qed.

Lemma step_loop_spec fuel n s :
  flight T n s -> armed s = true -> n < settle T <= horizon T ->
  (Z.to_nat (settle T - n) * (work_max T + 1) + work s < fuel)%nat ->
  exists s', step_loop fuel on_exit s = Some (Ok (Ok tt), s') /\ path T (settle T) s'.
Proof.
  revert n s. induction fuel as [|fuel IH]; intros n s Hf Ha Hn Hfu; [lia|].
  destruct (run_delivery n s Hf Ha Hn) as (s'' & Hsv & Hcase & He).
  cbn [step_loop]. unfold mbind at 1, prog_bind at 1, guard_run.
  destruct (kvm_run s) as [r s1] eqn:Hk; cbn [fst snd] in *.
  destruct Hcase as [[-> Hp]|(Hnd & n' & Hn' & Hf'' & Hw)].
  { cbn in Hsv. subst s''. exists s1. done. }
  assert (forall s2, flight T n' s2 -> work s2 = work s'' -> armed s2 = true ->
    exists s', step_loop fuel on_exit s2 = Some (Ok (Ok tt), s') /\ path T (settle T) s') as Hgo.
  { intros s2 Hf2 Hw2 Ha2. apply (IH n'); auto; [lia|]. pose proof (work_bound _ _ Hf2).
    destruct Hw as [Hw|Hw]; [|assert (Z.to_nat (settle T - n') <= Z.to_nat (settle T - n))%nat by lia; nia].
    assert (Z.to_nat (settle T - n) = Z.to_nat (settle T - n') + Z.to_nat (n' - n))%nat as E by lia.
    rewrite E in Hfu. nia. }
  destruct r as [e|x].
  - destruct (set_singlestep_flight true n' s'' Hf'') as (s2 & H2 & Hf2 & _ & Ha2 & Hw2).
    destruct (Hgo s2 Hf2 Hw2 Ha2) as (s' & Hs' & ?). exists s'. split; [|done].
    destruct e; cbn in Hsv; try done; destruct Hsv as [_ Hx];
      rewrite (prog_bind_ok _ _ _ _ _ (reify_ok _ _ _ _ Hx)), (prog_bind_ok _ _ _ _ _ H2); exact Hs'.
  - destruct Hsv as [-> ->]. apply Hgo; [done..|by eapply He].
Qed.

Lemma step_one_entry_spec fuel n s :
  path T n s -> n < settle T <= horizon T -> (land_fuel (settle T) n <= fuel)%nat ->
  exists s', step_one_entry fuel on_exit s = Some (Ok (boundary_at (settle T)), s') /\
    path T (settle T) s' /\ armed s' = false.
Proof.
  intros Hp Hn Hfu. pose proof (path_flight _ _ Hp) as Hf. pose proof (flight_width _ _ Hf) as Hwn. pose proof horizon_width as Hhw.
  destruct (set_singlestep_flight true n s Hf) as (s1 & H1 & Hf1 & _ & Ha1 & Hw1).
  pose proof (work_bound _ _ Hf1).
  destruct (step_loop_spec fuel n s1 Hf1 Ha1 Hn) as (s2 & H2 & Hp2); [unfold land_fuel in Hfu; nia|].
  destruct (set_singlestep_flight false _ s2 (path_flight _ _ Hp2)) as (s3 & H3 & Hf3 & Hp3 & Ha3 & _).
  specialize (Hp3 Hp2). exists s3. split; [|done].
  unfold step_one_entry. rewrite (prog_bind_ok _ _ _ _ _ H1), (prog_bind_ok _ _ _ _ _ H2),
    (prog_bind_ok _ _ _ _ _ H3), (prog_bind_ok _ _ s3 tt s3 eq_refl),
    (prog_bind_ok _ _ _ _ _ (read_counter_flight _ s3 Hf3)).
  replace (settle T <=? 0) with false by ulia.
  by rewrite (prog_bind_ok _ _ _ _ _ (get_regs_path _ s3 Hp3)).
Qed.
End Landing.

(** ** Single-step never outlives a landing, except past the exit handler *)

(** The guest-debug control word KVM holds: what the last successful
    [KVM_SET_GUEST_DEBUG] wrote. *)
Class DebugControl (S : Type) `{!Vcpu S} := {
  control : S -> Z;
  control_set : forall c s, control (kvm_set_guest_debug c s).2
    = match (kvm_set_guest_debug c s).1 with Ok _ => c | _ => control s end;
  control_run : forall s, control (kvm_run s).2 = control s;
  control_perf : forall c s, control (perf_ioctl c s).2 = control s;
  control_exit : forall b s, control (set_kvm_immediate_exit b s) = control s }.

Definition STEPPING : Z := Z.lor KVM_GUESTDBG_ENABLE KVM_GUESTDBG_SINGLESTEP.

(** The control word of the engine's [stepping] flag. *)
Definition control_of (stepping : bool) : Z := if stepping then STEPPING else 0.

(** The failures that leave [land_at] through a [?] instead of a [break]. *)
Definition escapes (x : BoundaryError) : Prop :=
  match x with Overshoot _ _ | Kvm KVM_RUN _ => False | _ => True end.

Section Control.
Context {S : Type} `{!Vcpu S, !DebugControl S} (on_exit : handler S).
Implicit Types s : S.

(** [holds b]: the control word says [b]. *)
Definition holds (stepping : bool) s : Prop := control s = control_of stepping.
Notation escaping := (fun x _ => escapes x).

(** The handler leaves the vCPU's debug state alone and fails only with exit
    errors. *)
Context (Hexit : forall b e, triple (holds b) (on_exit e) (fun _ => holds b) (fun x _ => exists msg, x = Exit msg)).

Lemma set_singlestep_triple P on : triple P (set_singlestep on) (fun _ => holds on) escaping.
Proof.
  intros s _. unfold set_singlestep, map_err, io. set (c := if on then _ else _).
  pose proof (control_set c s). destruct (kvm_set_guest_debug c s) as [[?|?|] s1]; cbn in *; try done;
    unfold holds; rewrite H; by destruct on.
Qed.
Lemma arm_period_triple b p :
  triple (holds b) (map_err CounterFailed (arm_period p)) (fun _ => holds b) escaping.
Proof.
  intros s Hs. unfold map_err, arm_period, perf_call, io, map_err.
  pose proof (control_perf (PERIOD p) s). destruct (perf_ioctl _ s) as [[?|?|] s1]; cbn in *; try done;
    unfold holds in *; congruence.
Qed.
Lemma read_counter_triple b : triple (holds b) read_counter (fun _ => holds b) escaping.
Proof. intros s Hs. unfold read_counter, map_err, observe. by destruct (InstRetired_read s). Qed.
Lemma get_regs_triple b : triple (holds b) get_regs (fun _ => holds b) escaping.
Proof. intros s Hs. unfold get_regs, map_err, observe. by destruct (kvm_get_regs s). Qed.
Lemma guard_run_triple b : triple (holds b) guard_run (fun _ => holds b) escaping.
Proof.
  intros s Hs. unfold guard_run. pose proof (control_run s). destruct (kvm_run s). cbn in *.
  unfold holds in *. congruence.
Qed.
Lemma clear_triple b : triple (holds b) (modify clear_immediate_exit) (fun _ => holds b) escaping.
Proof. intros s Hs. cbn. unfold holds, clear_immediate_exit. by rewrite control_exit. Qed.
Lemma on_exit_triple b e : triple (holds b) (on_exit e) (fun _ => holds b) escaping.
Proof.
  intros s Hs. specialize (Hexit b e s Hs). destruct (on_exit e s) as [[[?|?|] ?]|]; try done.
  by destruct Hexit as [msg ->].
Qed.

Definition broke_ok (target : Z) (r : outcome BoundaryError Boundary) : Prop :=
  match r with
  | Ok b => b_icount b = target
  | Err (Overshoot t c) => t = target /\ target < c
  | Err (Kvm KVM_RUN _) => True
  | _ => False
  end.
Definition passed (target : Z) (r : bool + outcome BoundaryError Boundary * bool) s : Prop :=
  match r with
  | inl b => holds b s
  | inr (r, b) => holds b s /\ broke_ok target r
  end.

Create HintDb triples.
Hint Resolve set_singlestep_triple arm_period_triple read_counter_triple get_regs_triple
  guard_run_triple clear_triple on_exit_triple : triples.
Ltac tstep := first
  [ apply triple_ret; intros; cbn; try done
  | eapply triple_bind; [solve [eauto with triples]|intros]
  | solve [eauto with triples] ].

Lemma land_pass_triple target m b :
  triple (holds b) (land_pass target m on_exit b) (passed target) escaping.
Proof.
  unfold land_pass. eapply triple_bind; [apply read_counter_triple|]. intros c. cbn beta.
  destruct (target <? c) eqn:?; [tstep; split; [done|lia]|].
  destruct (c =? target) eqn:?; [tstep; tstep; split; [done|lia]|].
  destruct (negb b && (u64_max <? _)); [done|].
  destruct (negb b && (_ <? _)).
  - tstep. tstep. destruct a0; repeat tstep.
  - eapply (triple_bind _ _ _ (fun _ => holds true)).
    + destruct b; [by intros s Hs|]. repeat tstep.
    + intros _. tstep. destruct a as [e| |n]; [|repeat tstep..]. destruct e; repeat tstep.
Qed.

Lemma land_loop_triple target m fuel b :
  triple (holds b) (land_loop fuel target m on_exit b)
    (fun r s => holds r.2 s /\ broke_ok target r.1) escaping.
Proof.
  revert b. induction fuel as [|fuel IH]; intros b; [done|]. cbn [land_loop].
  eapply triple_bind; [apply land_pass_triple|]. intros [b'|[r b']]; [apply IH|].
  by apply triple_ret.
Qed.
End Control.

(** ** The engine's properties *)

(** C7: landing is exact, terminates and does not depend on the margins.  On
    every execution that behaves as documented, from the boundary of icount [n]
    and with margins that cover the skid, [land_at] returns the boundary of the
    target: the vCPU stands at that instruction boundary with single-step off,
    and the returned icount, rip and rcx are those of the guest at the target,
    whatever the margins, the exits and the kicks on the way. *)
Theorem land_at_exact {S} `{!Vcpu S, !Probe S} (T : Track S) (on_exit : handler S) m target n s fuel :
  Follows T on_exit -> margins_ok T m ->
  path T n s -> armed s = false -> n <= target <= horizon T -> (n < target -> settle T <= target) ->
  (land_fuel T target n <= fuel)%nat ->
  exists s', land_at fuel target m on_exit s = Some (Ok (boundary_at T target), s') /\
    path T target s' /\ armed s' = false.
Proof. intros HF Hm. by apply land_at_spec. Qed.

(** Single-step does not outlive a landing that breaks out of its loop, and
    overshoot is never absorbed.  Whatever KVM and the counter do, a landing that
    returns a boundary returns the target's icount with the debug control word
    cleared, an overshoot is reported with a count past the target, and the word
    is cleared on an overshoot and on a failed [KVM_RUN] too. *)
Theorem land_at_drops_single_step {S} `{!Vcpu S, !DebugControl S} (on_exit : handler S) m target fuel s o s' :
  (forall b e, triple (holds b) (on_exit e) (fun _ => holds b) (fun x _ => exists msg, x = Exit msg)) ->
  control s = 0 -> land_at fuel target m on_exit s = Some (o, s') ->
  match o with
  | Ok b => b_icount b = target /\ control s' = 0
  | Err (Overshoot t c) => t = target /\ target < c /\ control s' = 0
  | Err (Kvm KVM_RUN _) => control s' = 0
  | _ => True
  end.
Proof.
  intros Hexit Hc H. unfold land_at in H.
  pose proof (land_loop_triple on_exit Hexit target m fuel false s Hc) as Hl.
  apply prog_bind_inv in H as [([r b] & s1 & H1 & H)|[(x & H1 & ->)|[H1 ->]]]; [| |done]; rewrite H1 in Hl.
  2: by destruct x as [| |[]|].
  destruct Hl as [Hh Hr]. cbn in Hh, Hr.
  apply prog_bind_inv in H as [([] & s2 & H2 & H)|[(x & H2 & ->)|[H2 ->]]]; [| |done].
  - injection H as <- <-. assert (control s2 = 0) as Hz.
    { destruct b; [|by injection H2 as <-].
      pose proof (set_singlestep_triple (fun _ => True) false s1 I) as Hs. by rewrite H2 in Hs. }
    destruct r as [|[| |[]|]|]; cbn in Hr; naive_solver.
  - destruct b; [|done]. pose proof (set_singlestep_triple (fun _ => True) false s1 I) as Hs.
    rewrite H2 in Hs. by destruct x as [| |[]|].
Qed.

(** C31: an exit handler's error leaves the vCPU in single-step.  In the near
    approach, when the handler refuses an exit (run control's halt, frame and
    SDK-event stops travel this way), [land_at] returns the error at once and
    the debug control word still enables single-step. *)
Theorem land_at_exit_error_keeps_single_step {S} `{!Vcpu S, !DebugControl S} (on_exit : handler S)
    m target fuel s c s1 s2 e s3 x s4 :
  InstRetired_read s = Ok c -> c < target <= c + skid_margin m + resync_slack m ->
  skid_margin m + resync_slack m <= u64_max ->
  perf_ioctl (PERIOD NEVER_FIRES_PERIOD) s = (Ok tt, s1) ->
  kvm_set_guest_debug STEPPING s1 = (Ok tt, s2) ->
  kvm_run s2 = (Exited e, s3) -> e <> Debug ->
  on_exit e s3 = Some (Err x, s4) -> control s4 = control s3 ->
  land_at (Datatypes.S fuel) target m on_exit s = Some (Err x, s4) /\ control s4 = STEPPING.
Proof.
  intros Hc Ht Hm Hp Hd Hr He Hx Hctl. split.
  - unfold land_at. apply prog_bind_err. cbn [land_loop]. apply prog_bind_err. unfold land_pass.
    assert (read_counter s = Some (Ok c, s)) as H1 by (unfold read_counter, map_err, observe; by rewrite Hc).
    rewrite (prog_bind_ok _ _ _ _ _ H1).
    replace (target <? c) with false by lia. replace (c =? target) with false by lia. cbv zeta. cbn [negb andb].
    replace (u64_max <? _) with false by lia. replace (_ <? target - c) with false by lia.
    rewrite (prog_bind_ok _ _ s tt s2).
    2: { rewrite (prog_bind_ok _ _ s tt s1); [|unfold map_err, arm_period, perf_call, io, map_err; by rewrite Hp].
         unfold set_singlestep, map_err, io. cbn [KVM_GUESTDBG_ENABLE]. fold STEPPING. by rewrite Hd. }
    rewrite (prog_bind_ok _ _ s2 (Trapped e) s3); [|unfold guard_run; by rewrite Hr].
    destruct e; try done; by apply prog_bind_err.
  - pose proof (control_set STEPPING s1) as H1. rewrite Hd in H1.
    pose proof (control_run s2) as H2. rewrite Hr in H2. cbn in *. congruence.
Qed.
