(* ===== verification/Inject.v ===== *)
(** * Interrupt injection: [dh-vmm/src/inject.rs]

    A vector is queued at the first injectable boundary at or after the one it
    was requested at.  [Guest] adds to the executions of [Boundary] what a queued
    vector does to them. *)

From S2P Require Import Prelude Kvm Boundary.

Record Injection := mkInjection {
  inj_vector : Z; requested_icount : Z; delivered_icount : Z; delivered_rip : Z }.

Inductive InjectError :=
| InjectBoundary (e : BoundaryError)
| InjectKvm (c : KvmCall) (errno : Z)
| WindowNeverOpened (stepped : Z)
| BadVector (vector : Z).

Section Inject.
Context {S : Type} `{!Vcpu S}.
Implicit Types s : S.

Definition injectable s : outcome InjectError bool :=
  if (ready_for_interrupt_injection s =? 0) || (if_flag s =? 0) then Ok false
  else
    ev ← err_map (InjectKvm KVM_GET_VCPU_EVENTS) (kvm_get_vcpu_events s);
    Ok ((exc_pending ev =? 0) && (exc_injected ev =? 0) && (int_shadow ev =? 0)).

Definition queue_interrupt (vector : Z) : prog S InjectError unit :=
  if vector <? 32 then throw (BadVector vector)
  else map_err (InjectKvm KVM_INTERRUPT) (io (kvm_interrupt vector)).

(** The deferral's handler: an open window is what is being polled for. *)
Definition deferring (on_exit : handler S) : handler S := fun e =>
  match e with IrqWindowOpen => pass | other => on_exit other end.

(** [budget] is [max_defer_steps - stepped], the steps the budget still allows. *)
Fixpoint inject_loop (budget fuel : nat) (vector : Z) (at_ : Boundary) (m : Margins)
    (max_defer_steps : Z) (on_exit : handler S) (current : Boundary) (stepped : Z) :
    prog S InjectError Injection :=
  ok ← observe injectable;
  if (ok : bool) then
    _ ← queue_interrupt vector;
    mret (mkInjection vector (b_icount at_) (b_icount current) (b_rip current))
  else if max_defer_steps <=? stepped then throw (WindowNeverOpened stepped)
  else
    match budget with
    | O => spin
    | Datatypes.S budget =>
        if u64_max <? b_icount current + 1 then crash else
        current ← map_err InjectBoundary (land_at fuel (b_icount current + 1) m (deferring on_exit));
        inject_loop budget fuel vector at_ m max_defer_steps on_exit current (stepped + 1)
    end.

Definition inject_at_boundary (fuel : nat) (vector : Z) (at_ : Boundary) (m : Margins)
    (max_defer_steps : Z) (on_exit : handler S) : prog S InjectError Injection :=
  inject_loop (Z.to_nat max_defer_steps) fuel vector at_ m max_defer_steps on_exit at_ 0.
End Inject.

(** ** Guests that take interrupts

    [H] is what has been done to the guest from outside; the execution that
    follows, and the boundaries at which its interrupt window is open, are
    functions of it. *)
Record Guest (S H : Type) := mkGuest {
  track : H -> Track S;
  window : H -> Z -> bool;
  queued : H -> Z -> Z -> H }.
Arguments track {S H}. Arguments window {S H}. Arguments queued {S H}.

Section Takes.
Context {S H : Type} `{!Vcpu S, !Probe S}.
Implicit Types (s : S) (h : H).

(** The documented behaviour of the injection interface: the window is a
    function of the guest's state, a vector accepted in an open window changes
    the guest's future and nothing now, and its delivery ends in a later trap. *)
Class Takes (G : Guest S H) (on_exit : handler S) : Prop := {
  takes_follows : forall h, Follows (track G h) on_exit;
  takes_quiet : forall h, ~ quiet (track G h) IrqWindowOpen;
  window_open : forall h n s, path (track G h) n s -> exists ev, kvm_get_vcpu_events s = Ok ev /\
    window G h n = negb (ready_for_interrupt_injection s =? 0) && negb (if_flag s =? 0) &&
      ((exc_pending ev =? 0) && (exc_injected ev =? 0) && (int_shadow ev =? 0));
  vector_queued : forall h n v s, path (track G h) n s -> window G h n = true -> 32 <= v < 256 ->
    exists s', kvm_interrupt v s = (Ok tt, s') /\ path (track G (queued G h n v)) n s' /\
      armed s' = armed s;
  delivery_later : forall h n v, n < settle (track G (queued G h n v));
  same_limits : forall h h', horizon (track G h) = horizon (track G h') /\
    skid (track G h) = skid (track G h') /\ work_max (track G h) = work_max (track G h') }.

Context (G : Guest S H) (on_exit : handler S) `{!Takes G on_exit}.
#[local] Existing Instance takes_follows.

#[export] Instance deferring_follows h : Follows (track G h) (deferring on_exit).
Proof.
  apply (follows_handler _ on_exit); [|apply takes_follows].
  intros e s Hq. destruct e; try done. by apply takes_quiet in Hq.
Qed.

Lemma injectable_window h n s : path (track G h) n s -> injectable s = Ok (window G h n).
Proof.
  intros Hp. destruct (window_open h n s Hp) as (ev & He & ->). unfold injectable. rewrite He.
  destruct (ready_for_interrupt_injection s =? 0), (if_flag s =? 0); done.
Qed.

Lemma queue_interrupt_path h n v s :
  path (track G h) n s -> window G h n = true -> 32 <= v < 256 ->
  exists s', queue_interrupt v s = Some (Ok tt, s') /\ path (track G (queued G h n v)) n s' /\
    armed s' = armed s.
Proof.
  intros Hp Hw Hv. destruct (vector_queued h n v s Hp Hw Hv) as (s' & Hs & ?). exists s'.
  unfold queue_interrupt, map_err, io. replace (v <? 32) with false by lia. by rewrite Hs.
Qed.

Context (m : Margins) (Hm : forall h, margins_ok (track G h) m).

(** The first boundary from [n] on, among [k + 1], whose window is open. *)
Fixpoint first_window (k : nat) h (n : Z) : option Z :=
  if window G h n then Some n
  else match k with O => None | Datatypes.S k => first_window k h (n + 1) end.

Lemma first_window_spec k h n :
  match first_window k h n with
  | Some d => n <= d <= n + Z.of_nat k /\ window G h d = true /\ forall x, n <= x < d -> window G h x = false
  | None => forall x, n <= x <= n + Z.of_nat k -> window G h x = false
  end.
Proof.
  revert n. induction k as [|k IH]; intros n; cbn [first_window]; destruct (window G h n) eqn:Hw.
  1,3: split_and!; try done; lia.
  - intros x Hx. by replace x with n by lia.
  - specialize (IH (n + 1)). destruct (first_window k h (n + 1)) as [d|].
    + destruct IH as (? & ? & IH). split_and!; try done; [lia..|]. intros x Hx.
      destruct (decide (x = n)) as [->|]; [done|]. apply IH; lia.
    + intros x Hx. destruct (decide (x = n)) as [->|]; [done|]. apply IH; lia.
Qed.

(** Fuel for one deferral step. *)
Definition defer_fuel h : nat := land_fuel (track G h) 1 0.

Lemma inject_loop_spec h at_ v max fuel : 32 <= v < 256 -> (defer_fuel h <= fuel)%nat ->
  forall budget n s stepped current,
  path (track G h) n s -> armed s = false -> settle (track G h) <= n ->
  b_icount current = n -> b_rip current = rip (regs_at (track G h) n) ->
  n + Z.of_nat budget <= horizon (track G h) -> max = stepped + Z.of_nat budget ->
  match first_window budget h n with
  | Some d => exists s', inject_loop budget fuel v at_ m max on_exit current stepped s
        = Some (Ok (mkInjection v (b_icount at_) d (rip (regs_at (track G h) d))), s') /\
      path (track G (queued G h d v)) d s' /\ armed s' = false
  | None => exists s', inject_loop budget fuel v at_ m max on_exit current stepped s
        = Some (Err (WindowNeverOpened max), s') /\
      path (track G h) (n + Z.of_nat budget) s' /\ armed s' = false
  end.
Proof.
  intros Hv Hfu. induction budget as [|budget IH]; intros n s stepped current Hp Ha Hs Hci Hcr Hh Hmax;
    cbn [first_window inject_loop];
    (rewrite (prog_bind_ok _ _ s (window G h n) s);
      [|unfold observe; by rewrite (injectable_window h n s Hp)]);
    destruct (window G h n) eqn:Hw.
  1,3: destruct (queue_interrupt_path h n v s Hp Hw Hv) as (s' & Hq & ? & ?); exists s';
    rewrite (prog_bind_ok _ _ _ _ _ Hq), Hci, Hcr; split_and!; try done; congruence.
  - exists s. replace (max <=? stepped) with true by lia. rewrite Z.add_0_r. split_and!; try done.
    unfold throw. do 4 f_equal. lia.
  - replace (max <=? stepped) with false by lia. rewrite Hci.
    pose proof (horizon_width (T := track G h) (on_exit := on_exit)).
    replace (u64_max <? n + 1) with false by lia.
    destruct (land_at_spec (track G h) (deferring on_exit) m (Hm h) (n + 1) n s fuel) as (s1 & H1 & Hp1 & Ha1);
      try done; try lia.
    { unfold defer_fuel, land_fuel in *. by replace (n + 1 - n) with (1 - 0) by lia. }
    rewrite (prog_bind_ok _ _ _ _ _ (map_err_ok _ _ _ _ _ H1)).
    specialize (IH (n + 1) s1 (stepped + 1) (boundary_at (track G h) (n + 1)) Hp1 Ha1 ltac:(lia) eq_refl eq_refl ltac:(lia) ltac:(lia)).
    destruct (first_window budget h (n + 1)); destruct IH as (s' & IH & ?); exists s'; [done|].
    by replace (n + Z.of_nat (Datatypes.S budget)) with (n + 1 + Z.of_nat budget) by lia.
Qed.
End Takes.

(** C24: a vector is queued at the first injectable boundary.  From the boundary
    [n] it was requested at, with no delivery in progress, [inject_at_boundary]
    single-steps through closed windows and queues the vector at the first
    boundary whose window is open, reporting the requested and the delivered
    icount; a window that stays closed for the whole budget is an error after
    exactly the budget's steps; an exception vector is refused. *)
Theorem inject_first_window {S H} `{!Vcpu S, !Probe S} (G : Guest S H) (on_exit : handler S) m h n s max fuel :
  Takes G on_exit -> (forall h, margins_ok (track G h) m) ->
  path (track G h) n s -> armed s = false -> settle (track G h) <= n ->
  0 <= max -> n + max <= horizon (track G h) -> (defer_fuel G h <= fuel)%nat ->
  (forall v d, 32 <= v < 256 -> n <= d <= n + max -> window G h d = true ->
    (forall x, n <= x < d -> window G h x = false) ->
    exists s', inject_at_boundary fuel v (boundary_at (track G h) n) m max on_exit s
        = Some (Ok (mkInjection v n d (rip (regs_at (track G h) d))), s') /\
      path (track G (queued G h d v)) d s' /\ armed s' = false) /\
  (forall v, 32 <= v < 256 -> (forall x, n <= x <= n + max -> window G h x = false) ->
    exists s', inject_at_boundary fuel v (boundary_at (track G h) n) m max on_exit s
        = Some (Err (WindowNeverOpened max), s') /\ path (track G h) (n + max) s' /\ armed s' = false) /\
  (forall v, v < 32 -> window G h n = true ->
    inject_at_boundary fuel v (boundary_at (track G h) n) m max on_exit s = Some (Err (BadVector v), s)).
Proof.
  intros HT Hm Hp Ha Hs Hmax Hh Hfu. unfold inject_at_boundary. split_and!.
  - intros v d Hv Hd Hw Hc.
    pose proof (inject_loop_spec G on_exit m Hm h (boundary_at (track G h) n) v max fuel Hv Hfu
      (Z.to_nat max) n s 0 (boundary_at (track G h) n) Hp Ha Hs eq_refl eq_refl ltac:(lia) ltac:(lia)) as HI.
    pose proof (first_window_spec G (Z.to_nat max) h n) as HF.
    destruct (first_window _ _ _ _) as [d'|]; [|rewrite HF in Hw by lia; done].
    destruct HF as (Hd' & Hw' & HF). replace d' with d in HI; [done|].
    destruct (decide (d < d')); [rewrite HF in Hw by lia; done|].
    destruct (decide (d' < d)); [rewrite Hc in Hw' by lia; done|]. lia.
  - intros v Hv Hc.
    pose proof (inject_loop_spec G on_exit m Hm h (boundary_at (track G h) n) v max fuel Hv Hfu
      (Z.to_nat max) n s 0 (boundary_at (track G h) n) Hp Ha Hs eq_refl eq_refl ltac:(lia) ltac:(lia)) as HI.
    pose proof (first_window_spec G (Z.to_nat max) h n) as HF.
    destruct (first_window _ _ _ _) as [d|]; [destruct HF as (Hd & Hw & _); rewrite Hc in Hw by lia; done|].
    by rewrite Z2Nat.id in HI by lia.
  - intros v Hv Hw. destruct (Z.to_nat max); cbn [inject_loop];
      (rewrite (prog_bind_ok _ _ s true s);
        [|unfold observe; by rewrite (injectable_window G on_exit h n s Hp), Hw]);
      apply prog_bind_err; unfold queue_interrupt; by replace (v <? 32) with true by lia.
Qed.
