(* ===== verification/RunCtl.v ===== *)
(** * Run control: [dh-vmm/src/runctl.rs] and [dh-vmm/src/tsc.rs]

    One Run segment: the agenda is compiled and walked point by point, each point
    landed on, its inputs and vectors applied, its epoch hashed, its goal polled,
    and the segment finished with a final link.  The world is the slot, its
    counter and whatever the callers' sinks capture; the function's own locals
    and the segment's hash chain travel beside it. *)

From S2P Require Import Prelude Vt Agenda Kvm VcpuState StateHash Config Boundary Inject.

Definition INJECT_DEFER_BUDGET : Z := 2 ^ 16.

Record FrameMark := mkFrameMark { fm_frame : Z; fm_icount : Z }.
Inductive FrameSinkFlow := Continue | Stop.

Inductive Until :=
| UntilIcount (budget : Z)
| UntilVns (budget : Z)
| UntilGoal (poll_period hard_cap : Z)
| UntilSdkEvent (hard_cap : Z)
| UntilFrames (frames hard_cap : Z).

Record RunOptions := mkRunOptions { paranoid_hash : bool; hash_final_stop : bool; hash_final_epoch : bool }.
Definition RunOptions_default : RunOptions := mkRunOptions false true true.

Inductive StopReason := BudgetReached | GoalSatisfied | HardCapReached | Paused | GuestHalted | NextSdkEvent.
#[export] Instance StopReason_eq_dec : EqDecision StopReason.
Proof. solve_decision. Defined.

Record ScheduledInjection := mkScheduledInjection { si_icount : Z; si_vector : Z }.
Record ScheduledFrameInput := mkScheduledFrameInput { sf_frame : Z; sf_index : nat }.
Record TimerArm := mkTimerArm { deadline_vns : Z; timer_vector : Z }.
Record TimerFired := mkTimerFired { tf_vector : Z; armed_deadline_vns : Z; tf_delivered_icount : Z }.

Record SegmentOutcome := mkSegmentOutcome {
  reason : StopReason;
  boundary : Boundary;
  vns : Z;
  state_hash : bytes;
  injections_delivered : Z;
  timer_fired : option TimerFired;
  frames_elapsed : Z }.

(** What [RunError::Kvm] names. *)
Inductive RunKvmMsg :=
| RunCounter (e : CounterError)
| StartMismatch (start actual : Z)
| SegmentStartTsc (errno : Z)
| LinkFailed (e : HashError)
| RunGetRegs (errno : Z).
Inductive RunError :=
| RunAgenda (e : AgendaError)
| RunBoundary (e : BoundaryError)
| RunInject (e : InjectError)
| RunKvm (m : RunKvmMsg)
| ClockOverflow
| MissingSdkEventFeed.

(** ** The TSC offset *)

Class TscClock (S : Type) := {
  rdtsc : S -> Z * S;
  kvm_set_tsc_offset : Z -> S -> outcome Z unit * S }.

Section Tsc.
Context {S : Type} `{!TscClock S}.
(** The offset is an i64; the attribute carries its two's complement. *)
Definition set_tsc_offset (offset : Z) : prog S Z unit := io (kvm_set_tsc_offset (to_u64 offset)).
Definition set_tsc_value_with_offset (value : Z) : prog S Z unit := fun s =>
  let '(host_tsc, s) := rdtsc s in set_tsc_offset (to_u64 (value - host_tsc)) s.
End Tsc.

(** ** Timers *)

Definition timer_to_injection (timer : TimerArm) (clock : ClockRatio) (start_icount : Z) :
    outcome RunError ScheduledInjection :=
  icount ← ok_or ClockOverflow (icount_for_vns_target clock (deadline_vns timer));
  if u64_max <? start_icount + 1 then Panic
  else Ok (mkScheduledInjection (Z.max icount (start_icount + 1)) (timer_vector timer)).

(** ** A segment and its sinks *)

(** [Segment], without the slot, the counter and the chain, which are state. *)
Record Segment (S : Type) := mkSegmentIn {
  config : MachineConfig;
  seg_start_icount : Z;
  seg_injections : list ScheduledInjection;
  seg_timer : option TimerArm;
  pause : S -> bool * S;
  sdk_events : option (S -> Z);
  hash_sections : option (S -> bytes) }.
Arguments config {S}. Arguments seg_start_icount {S}. Arguments seg_injections {S}. Arguments seg_timer {S}.
Arguments pause {S}. Arguments sdk_events {S}. Arguments hash_sections {S}. Arguments mkSegmentIn {S}.

(** The callers' closures. *)
Record Sinks (S : Type) := mkSinks {
  goal : S -> bool * S;
  on_exit : handler S;
  input_sink : nat -> Boundary -> prog S BoundaryError (list Z);
  epoch_sink : Z -> Boundary -> bytes -> bool -> prog S BoundaryError unit;
  frame_sink : FrameMark -> prog S BoundaryError FrameSinkFlow;
  live_input_sink : Z -> Boundary -> prog S BoundaryError unit }.
Arguments goal {S}. Arguments on_exit {S}. Arguments input_sink {S}. Arguments epoch_sink {S}.
Arguments frame_sink {S}. Arguments live_input_sink {S}. Arguments mkSinks {S}.

(** The arguments of one call. *)
Record Request (S : Type) := mkRequest {
  seg : Segment S;
  until : Until;
  options : RunOptions;
  scheduled : list Z;
  frame_inputs : list ScheduledFrameInput;
  start_frame_counter : Z;
  sinks : Sinks S }.
Arguments seg {S}. Arguments until {S}. Arguments options {S}. Arguments scheduled {S}. Arguments frame_inputs {S}.
Arguments start_frame_counter {S}. Arguments sinks {S}. Arguments mkRequest {S}.

(** What is fixed before the walk: the SDK-event feed with its value at the
    start, the injections with the timer's, and the timer's place among them. *)
Record Plan (S : Type) := mkPlan {
  feed : option ((S -> Z) * Z);
  all_injections : list ScheduledInjection;
  timer_slot : option nat }.
Arguments feed {S}. Arguments all_injections {S}. Arguments timer_slot {S}. Arguments mkPlan {S}.

(** The locals of [run_segment_inner], with the segment's chain. *)
Record Run := mkRun {
  chain : StateHashChain;
  delivered : Z;
  fired : option TimerFired;
  halted : bool;
  event_stop : bool;
  frame_sink_stop : bool;
  frames_seen : Z;
  last_frame_counter : Z;
  frame_inputs_applied : list bool }.

Definition set_chain (c : StateHashChain) (r : Run) : Run :=
  mkRun c (delivered r) (fired r) (halted r) (event_stop r) (frame_sink_stop r) (frames_seen r)
    (last_frame_counter r) (frame_inputs_applied r).
Definition count_delivery (r : Run) : Run :=
  mkRun (chain r) (delivered r + 1) (fired r) (halted r) (event_stop r) (frame_sink_stop r) (frames_seen r)
    (last_frame_counter r) (frame_inputs_applied r).
Definition set_fired (t : TimerFired) (r : Run) : Run :=
  mkRun (chain r) (delivered r) (Some t) (halted r) (event_stop r) (frame_sink_stop r) (frames_seen r)
    (last_frame_counter r) (frame_inputs_applied r).
Definition set_halted (r : Run) : Run :=
  mkRun (chain r) (delivered r) (fired r) true (event_stop r) (frame_sink_stop r) (frames_seen r)
    (last_frame_counter r) (frame_inputs_applied r).
Definition set_event_stop (r : Run) : Run :=
  mkRun (chain r) (delivered r) (fired r) (halted r) true (frame_sink_stop r) (frames_seen r)
    (last_frame_counter r) (frame_inputs_applied r).
Definition set_frame_sink_stop (r : Run) : Run :=
  mkRun (chain r) (delivered r) (fired r) (halted r) (event_stop r) true (frames_seen r)
    (last_frame_counter r) (frame_inputs_applied r).
Definition count_frame (frame : Z) (r : Run) : Run :=
  mkRun (chain r) (delivered r) (fired r) (halted r) (event_stop r) (frame_sink_stop r) (frames_seen r + 1)
    frame (frame_inputs_applied r).
Definition mark_applied (slot : nat) (r : Run) : Run :=
  mkRun (chain r) (delivered r) (fired r) (halted r) (event_stop r) (frame_sink_stop r) (frames_seen r)
    (last_frame_counter r) (<[slot := true]> (frame_inputs_applied r)).

(** ** The segment *)

(** Programs of the world and the locals. *)
Section Lift.
Context {S L : Type}.
Definition lift {E A} (m : prog S E A) : prog (S * L) E A := fun w =>
  match m w.1 with Some (o, s) => Some (o, (s, w.2)) | None => None end.
Definition ask {E A} (f : S -> A * S) : prog (S * L) E A := fun w =>
  let '(a, s) := f w.1 in Some (Ok a, (s, w.2)).
Definition locals {E} : prog (S * L) E L := fun w => Some (Ok w.2, w).
Definition update {E} (f : L -> L) : prog (S * L) E unit := modify (fun w => (w.1, f w.2)).
End Lift.

(** pv-pad's FRAME_COUNTER register. *)
Definition frame_mark_gpa : Z := 0xD0001000 + 0x1C.

(** The frame a write marks; [Err] for a write of another width. *)
Definition seen_frame_mark (e : VcpuExit) : outcome ExitMsg (option Z) :=
  match e with
  | MmioWrite gpa data =>
      if gpa =? frame_mark_gpa then
        if (length data =? 4)%nat then Ok (Some (of_le data)) else Err frame_counter_not_u32
      else Ok None
  | _ => Ok None
  end.

Section Inner.
Context {B : Blake3} {S : Type} `{!Vcpu S, !VcpuGets S, !SlotMem S, !TscClock S}.
Context (fuel : nat) (rq : Request S).

Definition seg_clock : ClockRatio := Config.clock (config (seg rq)).
Definition margins : Margins := mkMargins (cfg_skid_margin (config (seg rq))) (cfg_resync_slack (config (seg rq))).

(** The request's final stop and poll period, the frame target, and the reason
    an event-driven stop reports. *)
Definition final_request : FinalStop * option Z :=
  match until rq with
  | UntilIcount b => (IcountBudget b, None)
  | UntilVns b => (VnsBudget b, None)
  | UntilGoal poll_period hard_cap => (HardCap hard_cap, if poll_period =? 0 then None else Some poll_period)
  | UntilSdkEvent hard_cap => (HardCap hard_cap, None)
  | UntilFrames _ hard_cap => (HardCap hard_cap, None)
  end.
Definition frame_target : option Z := match until rq with UntilFrames frames _ => Some frames | _ => None end.
Definition event_reason : StopReason := match until rq with UntilFrames _ _ => BudgetReached | _ => NextSdkEvent end.
(** The feed and its value at the start of the segment. *)
Definition sdk_feed (s : S) : outcome RunError (option ((S -> Z) * Z)) :=
  match until rq with
  | UntilSdkEvent _ => cell ← ok_or MissingSdkEventFeed (sdk_events (seg rq)); Ok (Some (cell, cell s))
  | _ => Ok None
  end.

Definition at_exit (icount : Z) : Boundary := mkBoundary icount 0 0.

(** The loop over the frame-scheduled inputs. *)
Fixpoint apply_frame_inputs (frame icount : Z) (slot : nat) (l : list ScheduledFrameInput) :
    prog (S * Run) BoundaryError unit :=
  match l with
  | [] => pass
  | scheduled :: l =>
      r ← locals;
      if default false (frame_inputs_applied r !! slot) || negb (sf_frame scheduled =? frame)
      then apply_frame_inputs frame icount (Datatypes.S slot) l
      else
        vectors ← lift (input_sink (sinks rq) (sf_index scheduled) (at_exit icount));
        if bool_decide (vectors = []) then
          _ ← update (mark_applied slot);
          apply_frame_inputs frame icount (Datatypes.S slot) l
        else throw (Exit (frame_input_queued_irq frame))
  end.

Definition on_frame (frame : Z) : prog (S * Run) BoundaryError unit :=
  r ← locals;
  if frame <=? last_frame_counter r then throw (Exit (frame_counter_not_monotone (last_frame_counter r) frame))
  else
    _ ← update (count_frame frame);
    icount ← lift (map_err (fun e => Exit (frame_counter_read e)) (observe InstRetired_read));
    _ ← apply_frame_inputs frame icount 0 (frame_inputs rq);
    _ ← lift (live_input_sink (sinks rq) frame (at_exit icount));
    flow ← lift (frame_sink (sinks rq) (mkFrameMark frame icount));
    match flow with
    | Stop => _ ← update set_frame_sink_stop; throw (Exit frame_sink_requested_stop)
    | Continue =>
        r ← locals;
        if bool_decide (frame_target = Some (frames_seen r))
        then _ ← update set_event_stop; throw (Exit frame_budget_reached)
        else pass
    end.

(** An SDK event counted since the start of the segment. *)
Definition check_feed (fd : option ((S -> Z) * Z)) : prog (S * Run) BoundaryError unit := fun w =>
  match fd with
  | Some (cell, baseline) =>
      if baseline <? cell w.1 then Some (Err (Exit sdk_event_matched), (w.1, set_event_stop w.2)) else Some (Ok tt, w)
  | None => Some (Ok tt, w)
  end.

(** [exits!]. *)
Definition exits (fd : option ((S -> Z) * Z)) : handler (S * Run) := fun e =>
  match e with
  | Hlt => _ ← update set_halted; throw (Exit guest_halted)
  | _ =>
      match seen_frame_mark e with
      | Ok mark =>
          _ ← lift (on_exit (sinks rq) e);
          _ ← match mark with Some frame => on_frame frame | None => pass end;
          check_feed fd
      | Err m => throw (Exit m)
      | Panic => crash
      end
  end.

(** One link over the slot as it stands. *)
Definition push_here (icount vns : Z) : prog (S * Run) RunError unit := fun w =>
  let sections := match hash_sections (seg rq) with Some f => f w.1 | None => [] end in
  match push_final_link w.1 sections icount vns (chain w.2) with
  | Ok c => Some (Ok tt, (w.1, set_chain c w.2))
  | Err e => Some (Err (RunKvm (LinkFailed e)), w)
  | Panic => Some (Panic, w)
  end.

Definition outcome_now (why : StopReason) (b : Boundary) (vns : Z) : prog (S * Run) RunError SegmentOutcome :=
  r ← locals;
  mret (mkSegmentOutcome why b vns (chain r) (delivered r) (fired r) (frames_seen r)).

Definition finish (why : StopReason) (b : Boundary) (vns : Z) (already_hashed : bool) :
    prog (S * Run) RunError SegmentOutcome :=
  _ ← (if hash_final_stop (options rq) && negb already_hashed then push_here (b_icount b) vns else pass);
  outcome_now why b vns.

Definition clock_now (icount : Z) : prog (S * Run) RunError Z :=
  of_outcome (ok_or ClockOverflow (vns_from_icount seg_clock icount)).

Definition finish_at_counter (why : StopReason) : prog (S * Run) RunError SegmentOutcome :=
  icount ← lift (map_err (fun e => RunKvm (RunCounter e)) (observe InstRetired_read));
  regs ← lift (map_err (fun e => RunKvm (RunGetRegs e)) (observe kvm_get_regs));
  vns ← clock_now icount;
  finish why (mkBoundary icount (rip regs) (rcx regs)) vns false.

(** [unwind_or!], with what follows the flight as its continuation. *)
Definition unwind_or {E A} (m : prog (S * Run) E A) (wrap : E -> RunError)
    (next : A -> prog (S * Run) RunError SegmentOutcome) : prog (S * Run) RunError SegmentOutcome :=
  res ← reify m;
  match res with
  | Ok v => next v
  | Err e =>
      r ← locals;
      if halted r then finish_at_counter GuestHalted
      else if frame_sink_stop r then finish_at_counter Paused
      else if event_stop r then finish_at_counter event_reason
      else throw (wrap e)
  | Panic => crash
  end.

(** ** One stop point *)

Context (pl : Plan S).

(** The inputs of a point, and the vectors they queue. *)
Fixpoint land_inputs (b : Boundary) (inputs : list nat) (vectors : list (Z * option nat))
    (next : list (Z * option nat) -> prog (S * Run) RunError SegmentOutcome) : prog (S * Run) RunError SegmentOutcome :=
  match inputs with
  | [] => next vectors
  | idx :: inputs =>
      unwind_or (lift (input_sink (sinks rq) idx b)) RunBoundary (fun queued =>
        land_inputs b inputs (vectors ++ ((fun v => (v, None)) <$> queued)) next)
  end.

(** The vectors of a point, one guest entry between two of them. *)
Fixpoint deliver (first : bool) (vectors : list (Z * option nat)) (at_ : Boundary)
    (next : Boundary -> prog (S * Run) RunError SegmentOutcome) : prog (S * Run) RunError SegmentOutcome :=
  match vectors with
  | [] => next at_
  | (vector, injection_idx) :: vectors =>
      let inject at_ :=
        unwind_or (inject_at_boundary fuel vector at_ margins INJECT_DEFER_BUDGET (exits (feed pl))) RunInject (fun inj =>
          _ ← update count_delivery;
          _ ← (if bool_decide (timer_slot pl = injection_idx) then
                 match seg_timer (seg rq) with
                 | Some t => update (set_fired (mkTimerFired (inj_vector inj) (deadline_vns t) (delivered_icount inj)))
                 | None => crash
                 end
               else pass);
          deliver false vectors (mkBoundary (delivered_icount inj) (delivered_rip inj) (b_rcx at_)) next) in
      if first then inject at_ else unwind_or (step_one_entry fuel (exits (feed pl))) RunBoundary inject
  end.

(** The precomputed vectors of a point; an index out of range panics. *)
Definition injection_vectors (idxs : list nat) : option (list (Z * option nat)) :=
  mapM (fun idx => i ← all_injections pl !! idx; Some (si_vector i, Some idx)) idxs.

Definition epoch_hashes_enabled : bool :=
  bool_decide (hash_epochs (config (seg rq)) = EpochsOn) || paranoid_hash (options rq).
Definition epoch_grid : Z := Z.max (Config.epoch_len (config (seg rq))) 1.

(** Asynchronous pause at a point that is not on the hash grid: on to the next
    grid point. *)
Definition roll_forward (icount : Z) : prog (S * Run) RunError SegmentOutcome :=
  let next_epoch := Z.max (div_ceil icount epoch_grid) 1 * epoch_grid in
  if u64_max <? next_epoch then crash
  else
    unwind_or (land_at fuel next_epoch margins (exits (feed pl))) RunBoundary (fun b =>
      vns ← clock_now (b_icount b);
      _ ← push_here (b_icount b) vns;
      r ← locals;
      _ ← (if epoch_hashes_enabled
           then lift (map_err RunBoundary (epoch_sink (sinks rq) (b_icount b / epoch_grid) b (chain r) true)) else pass);
      outcome_now Paused b vns).

Definition stop_reason (kind : StopKind) : StopReason :=
  match kind with KBudget => BudgetReached | KHardCap => HardCapReached end.

(** After the vectors: epoch link, goal, final stop, pause. *)
Definition close_point (point : StopPoint) (b at_ : Boundary) (checkpointable : bool)
    (next : prog (S * Run) RunError SegmentOutcome) : prog (S * Run) RunError SegmentOutcome :=
  vns ← clock_now (sp_icount point);
  let hashed_epoch := sp_epoch_hash point && (bool_decide (sp_final_stop point = None) || hash_final_epoch (options rq)) in
  _ ← (if hashed_epoch then
         _ ← push_here (sp_icount point) vns;
         r ← locals;
         lift (map_err RunBoundary (epoch_sink (sinks rq) (sp_icount point / epoch_grid)
           (mkBoundary (sp_icount point) (b_rip at_) (b_rcx at_)) (chain r) checkpointable))
       else pass);
  reached ← (if sp_goal_poll point then ask (goal (sinks rq)) else mret false);
  if (reached : bool) then finish GoalSatisfied b vns hashed_epoch
  else
    match sp_final_stop point with
    | Some kind => finish (stop_reason kind) b vns hashed_epoch
    | None =>
        paused ← ask (pause (seg rq));
        if (paused : bool) then
          if sp_epoch_hash point then outcome_now Paused b vns else roll_forward (sp_icount point)
        else next
    end.

Definition at_point (point : StopPoint) (next : prog (S * Run) RunError SegmentOutcome) :
    prog (S * Run) RunError SegmentOutcome :=
  unwind_or (land_at fuel (sp_icount point) margins (exits (feed pl))) RunBoundary (fun b =>
    land_inputs b (sp_inputs point) [] (fun queued =>
      match injection_vectors (sp_injections point) with
      | Some precomputed =>
          let vectors := queued ++ precomputed in
          deliver true vectors b (fun at_ => close_point point b at_ (bool_decide (vectors = [])) next)
      | None => crash
      end)).

(** The walk over the agenda. *)
Fixpoint walk (n : nat) (agenda : AgendaIter) : prog (S * Run) RunError SegmentOutcome :=
  match n with
  | O => spin
  | Datatypes.S n =>
      match AgendaIter_next agenda with
      | Some (point, agenda) => at_point point (walk n agenda)
      | None => crash
      end
  end.

Definition agenda_inputs : AgendaInputs :=
  let '(final, poll) := final_request in
  {| Agenda.start_icount := seg_start_icount (seg rq);
     Agenda.scheduled_inputs := scheduled rq;
     Agenda.injections := si_icount <$> all_injections pl;
     Agenda.epoch_len :=
       if epoch_hashes_enabled then
         if Config.epoch_len (config (seg rq)) =? 0 then None else Some (Config.epoch_len (config (seg rq)))
       else None;
     Agenda.goal_poll_period := poll;
     Agenda.final_stop := final;
     Agenda.clock := seg_clock |}.
End Inner.

Section Run.
Context {B : Blake3} {S : Type} `{!Vcpu S, !VcpuGets S, !SlotMem S, !TscClock S}.
Context (fuel : nat) (rq : Request S).

(** The injections with the timer's, and where the timer's is. *)
Definition plan_injections : outcome RunError (list ScheduledInjection * option nat) :=
  let l := seg_injections (seg rq) in
  match seg_timer (seg rq) with
  | Some t =>
      i ← timer_to_injection t (seg_clock rq) (seg_start_icount (seg rq));
      Ok (l ++ [i], Some (length l))
  | None => Ok (l, None)
  end.

Definition segment_body : prog (S * Run) RunError SegmentOutcome :=
  actual ← lift (map_err (fun e => RunKvm (RunCounter e)) (observe InstRetired_read));
  if negb (actual =? seg_start_icount (seg rq))
  then throw (RunKvm (StartMismatch (seg_start_icount (seg rq)) actual))
  else
    start_vns ← clock_now rq (seg_start_icount (seg rq));
    _ ← lift (map_err (fun e => RunKvm (SegmentStartTsc e)) (set_tsc_value_with_offset start_vns));
    fd ← lift (observe (sdk_feed rq));
    if bool_decide (frame_target rq = Some 0) then finish_at_counter rq BudgetReached
    else
      planned ← of_outcome plan_injections;
      let '(injections, slot) := (planned : list ScheduledInjection * option nat) in
      let pl := mkPlan fd injections slot in
      agenda ← of_outcome (err_map RunAgenda (AgendaIter_new (agenda_inputs rq pl)));
      walk fuel rq pl fuel agenda.

Definition run_new (chain : StateHashChain) : Run :=
  mkRun chain 0 None false false false 0 (start_frame_counter rq) (replicate (length (frame_inputs rq)) false).

Definition run_segment_inner : prog (S * StateHashChain) RunError SegmentOutcome := fun w =>
  match segment_body (w.1, run_new w.2) with
  | Some (o, (s, r)) => Some (o, (s, chain r))
  | None => None
  end.
End Run.

(** ** The entry points *)

Section Entry.
Context {B : Blake3} {S : Type} `{!Vcpu S, !VcpuGets S, !SlotMem S, !TscClock S}.
Context (fuel : nat) (sg : Segment S) (u : Until) (goal : S -> bool * S) (on_exit : handler S).

Definition no_inputs : nat -> Boundary -> prog S BoundaryError (list Z) := fun _ _ => mret [].
Definition no_epochs : Z -> Boundary -> bytes -> bool -> prog S BoundaryError unit := fun _ _ _ _ => pass.
Definition no_frames : FrameMark -> prog S BoundaryError FrameSinkFlow := fun _ => mret Continue.
Definition no_live : Z -> Boundary -> prog S BoundaryError unit := fun _ _ => pass.

Definition run_segment_with_epoch_options (o : RunOptions) epoch_sink :=
  run_segment_inner fuel (mkRequest sg u o [] [] 0 (mkSinks goal on_exit no_inputs epoch_sink no_frames no_live)).
Definition run_segment_with_epochs epoch_sink := run_segment_with_epoch_options RunOptions_default epoch_sink.
Definition run_segment_with_options (o : RunOptions) := run_segment_with_epoch_options o no_epochs.
Definition run_segment := run_segment_with_options RunOptions_default.

Definition run_segment_with_frame_captures (inputs : list Z) (frames : list ScheduledFrameInput) (start_frame : Z)
    input_sink epoch_sink frame_sink live_input_sink :=
  run_segment_inner fuel (mkRequest sg u RunOptions_default inputs frames start_frame
    (mkSinks goal on_exit input_sink epoch_sink frame_sink live_input_sink)).
Definition run_segment_with_scheduled_inputs_frames_and_epochs inputs frames start_frame input_sink epoch_sink :=
  run_segment_with_frame_captures inputs frames start_frame input_sink epoch_sink no_frames no_live.
Definition run_segment_with_scheduled_inputs_and_frames inputs frames start_frame input_sink :=
  run_segment_with_scheduled_inputs_frames_and_epochs inputs frames start_frame input_sink no_epochs.
Definition run_segment_with_scheduled_inputs inputs input_sink :=
  run_segment_with_scheduled_inputs_and_frames inputs [] 0 input_sink.
End Entry.
