(* ===== verification/RunCtlOk.v ===== *)
(** * Run control is deterministic

    A specification of a segment as a pure function of the guest's execution,
    the agenda and the answers of the sinks, and the proof that the walk computes
    it: the outcome, the hash chain and the epoch hashes do not depend on the
    landing margins, on kicks or on how the host schedules the vCPU. *)

From S2P Require Import Prelude Vt Agenda Kvm VcpuState StateHash Config Boundary Inject RunCtl.

#[export] Instance Probe_captured {S L} `{!Probe S} : Probe (S * L) := {
  armed w := armed w.1; deadline w := deadline w.1; work w := work w.1 }.

(** How often the guest has written FRAME_COUNTER, and what it wrote last. *)
Class Marks (S : Type) := marks : S -> Z * Z.

(** Only the exit handler moves them. *)
Class MarksOk {S} `{!Vcpu S, !Marks S} (on_exit : handler S) : Prop := {
  marks_run : forall s, marks (kvm_run s).2 = marks s;
  marks_debug : forall c s, marks (kvm_set_guest_debug c s).2 = marks s;
  marks_perf : forall c s, marks (perf_ioctl c s).2 = marks s;
  marks_interrupt : forall v s, marks (kvm_interrupt v s).2 = marks s;
  marks_immediate : forall b s, marks (set_kvm_immediate_exit b s) = marks s;
  marks_exit : forall e s s', on_exit e s = Some (Ok tt, s') ->
    marks s' = match seen_frame_mark e with Ok (Some f) => ((marks s).1 + 1, f) | _ => marks s end }.

(** ** The exits of a plain run *)

(** The guest's frames at the start of the segment, and the walk's results. *)
Record Books := mkBooks {
  bk_frames : Z; bk_chain : bytes; bk_delivered : Z; bk_fired : option TimerFired }.

Section Lifted.
Context {S H : Type} `{!Vcpu S, !Probe S, !Marks S}.
Implicit Types (s : S) (r : Run).

(** The locals between two exits: no stop pending, the frames counted are the
    guest's since the start, and the rest is as the walk left it. *)
Definition idle r : Prop := halted r = false /\ event_stop r = false /\ frame_sink_stop r = false.
Definition booked (c0 : Books) (w : S * Run) : Prop :=
  idle w.2 /\ frames_seen w.2 = (marks w.1).1 - bk_frames c0 /\ last_frame_counter w.2 = (marks w.1).2 /\
  chain w.2 = bk_chain c0 /\ delivered w.2 = bk_delivered c0 /\ fired w.2 = bk_fired c0.

Definition lifted_track (c0 : Books) (T : Track S) : Track (S * Run) := {|
  path n w := path T n w.1 /\ booked c0 w;
  flight n w := flight T n w.1 /\ booked c0 w;
  settle := settle T;
  horizon := horizon T;
  regs_at := regs_at T;
  quiet := quiet T;
  work_max := work_max T;
  skid := skid T |}.
Definition lifted (c0 : Books) (G : Guest S H) : Guest (S * Run) H := {|
  track h := lifted_track c0 (track G h);
  window := window G;
  queued := queued G |}.

(** A request whose frame sinks only look, and whose stop is not an exit. *)
Record plain (rq : Request S) : Prop := {
  plain_target : frame_target rq = None;
  plain_feed : forall s, sdk_feed rq s = Ok None;
  plain_inputs : frame_inputs rq = [];
  plain_live : forall f b s, live_input_sink (sinks rq) f b s = Some (Ok tt, s);
  plain_frame : forall m s, frame_sink (sinks rq) m s = Some (Ok Continue, s) }.

(** An execution run control services without stopping: no halt, no malformed
    frame write, and frame counters that increase. *)
Record served (T : Track S) : Prop := {
  served_exit : forall e, quiet T e -> e <> Hlt /\ exists mark, seen_frame_mark e = Ok mark;
  served_frame : forall n s e s' f, flight T n s -> kvm_run s = (Exited e, s') ->
    seen_frame_mark e = Ok (Some f) -> (marks s).2 < f }.

Context (c0 : Books) (rq : Request S) (Hpl : plain rq) (T : Track S)
  `{!MarksOk (on_exit (sinks rq)), !Follows T (on_exit (sinks rq))} (Hsv : served T).

Lemma counter_flight n s : flight T n s -> InstRetired_read s = Ok n.
Proof.
  intros Hf. pose proof (read_counter_flight T (on_exit (sinks rq)) n s Hf) as Hr.
  unfold read_counter, map_err, observe in Hr. destruct (InstRetired_read s); cbn in Hr; congruence.
Qed.

(** One serviced exit. *)
Lemma exits_quiet n1 e s' s'' r :
  quiet T e -> on_exit (sinks rq) e s' = Some (Ok tt, s'') -> flight T n1 s'' -> booked c0 (s', r) ->
  (forall f, seen_frame_mark e = Ok (Some f) -> (marks s').2 < f) ->
  exists r'', exits rq None e (s', r) = Some (Ok tt, (s'', r'')) /\ booked c0 (s'', r'').
Proof.
  intros Hq Hx Hf (Hi & Hc & Hl & ? & ? & ?) Hmono. destruct (served_exit T Hsv e Hq) as [Hh [mark Hmark]].
  pose proof (marks_exit e s' s'' Hx) as Hm. rewrite Hmark in Hm, Hmono. cbn [fst snd] in *.
  assert (forall r', (_ ← lift (on_exit (sinks rq) e); _ ← match mark with Some f => on_frame rq f | None => pass end;
    check_feed None) (s', r) = Some (Ok tt, (s'', r')) -> exits rq None e (s', r) = Some (Ok tt, (s'', r'))) as Hex.
  { intros r' <-. unfold exits. destruct e; try done; by rewrite Hmark. }
  assert (lift (on_exit (sinks rq) e) (s', r) = Some (Ok tt, (s'', r))) as Hl1 by (unfold lift; cbn; by rewrite Hx).
  destruct mark as [f|].
  - specialize (Hmono f eq_refl). exists (count_frame f r). split; [|unfold booked; cbn in *; rewrite Hm; cbn; split_and!; try done; lia].
    apply Hex. rewrite (prog_bind_ok _ _ _ _ _ Hl1).
    rewrite (prog_bind_ok _ _ (s'', r) tt (s'', count_frame f r)); [done|].
    unfold on_frame. rewrite (prog_bind_ok _ _ _ r (s'', r)) by done.
    replace (f <=? last_frame_counter r) with false by (cbn in *; lia).
    rewrite (prog_bind_ok _ _ _ tt (s'', count_frame f r)) by done.
    rewrite (prog_bind_ok _ _ _ n1 (s'', count_frame f r)); [|unfold lift, map_err, observe; cbn [fst snd];
      by rewrite (counter_flight n1 s'' Hf)].
    rewrite (plain_inputs rq Hpl). cbn [apply_frame_inputs]. rewrite (prog_bind_ok _ _ _ tt (s'', count_frame f r)) by done.
    rewrite (prog_bind_ok _ _ _ tt (s'', count_frame f r)); [|unfold lift; cbn [fst snd]; by rewrite (plain_live rq Hpl)].
    rewrite (prog_bind_ok _ _ _ Continue (s'', count_frame f r)); [|unfold lift; cbn [fst snd]; by rewrite (plain_frame rq Hpl)].
    rewrite (prog_bind_ok _ _ _ (count_frame f r) (s'', count_frame f r)) by done.
    rewrite (plain_target rq Hpl). done.
  - exists r. split; [|unfold booked; cbn in *; by rewrite Hm]. apply Hex.
    by rewrite (prog_bind_ok _ _ _ _ _ Hl1).
Qed.

(** Servicing an entry keeps the books. *)
Lemma exits_serviced n n1 s r s'' :
  flight T n s -> booked c0 (s, r) -> flight T n1 s'' ->
  serviced T (on_exit (sinks rq)) (kvm_run s).1 (kvm_run s).2 s'' ->
  exists r'', serviced (lifted_track c0 T) (exits rq None) (kvm_run s).1 ((kvm_run s).2, r) (s'', r'') /\
    booked c0 (s'', r'').
Proof.
  intros Hf Hb Hf1 Hs. pose proof (marks_run (on_exit := on_exit (sinks rq)) s) as Hm.
  pose proof (served_frame T Hsv n s) as Hmono.
  destruct (kvm_run s) as [[e|x] s'] eqn:Hk; cbn [fst snd] in *.
  2: { destruct Hs as [-> ->]. exists r. unfold booked in *. cbn in *.
       rewrite (marks_immediate (on_exit := on_exit (sinks rq))), Hm. done. }
  assert (booked c0 (s', r)) as Hb' by (unfold booked in *; cbn in *; by rewrite Hm).
  assert (quiet T e -> on_exit (sinks rq) e s' = Some (Ok tt, s'') -> exists r'', exits rq None e (s', r) = Some (Ok tt, (s'', r'')) /\
    booked c0 (s'', r'')) as Hgo.
  { intros Hq Hx. eapply exits_quiet; eauto. intros f Hmk. rewrite Hm. by eapply Hmono. }
  destruct e; cbn in Hs |- *; try (destruct Hs; destruct Hgo as (r'' & ? & ?); [done..|]; by exists r'').
  subst s''. by exists r.
Qed.

Lemma lifted_follows : Follows (lifted_track c0 T) (exits rq None).
Proof.
  split; cbn [lifted_track path flight settle horizon regs_at quiet work_max skid].
  - intros n [s r] [Hp Hb]. split; [|done]. by apply path_flight.
  - apply (horizon_width (on_exit := on_exit (sinks rq))).
  - intros n [s r] [Hf _]. by eapply (flight_width (on_exit := on_exit (sinks rq))).
  - intros n [s r] [Hf _]. by apply (flight_counter (on_exit := on_exit (sinks rq))) in Hf.
  - intros n [s r] [Hp _]. by apply (path_regs (on_exit := on_exit (sinks rq))) in Hp.
  - intros n [s r] [Hf _]. by apply (work_bound (on_exit := on_exit (sinks rq))) in Hf.
  - intros n [s r] c [Hf Hb]. destruct (debug_set (on_exit := on_exit (sinks rq)) n s c Hf) as (s' & Hs & ? & ? & ? & ?).
    pose proof (marks_debug (on_exit := on_exit (sinks rq)) c s) as Hm. rewrite Hs in Hm. cbn in Hm.
    assert (booked c0 (s', r)) by (unfold booked in *; cbn in *; by rewrite Hm).
    exists (s', r). cbn. unfold on_fst. cbn. rewrite Hs. split_and!; try done; tauto.
  - intros n [s r] p [Hf Hb]. destruct (period_set (on_exit := on_exit (sinks rq)) n s p Hf) as (s' & Hs & ? & ? & ? & ? & ?).
    pose proof (marks_perf (on_exit := on_exit (sinks rq)) (PERIOD p) s) as Hm. rewrite Hs in Hm. cbn in Hm.
    assert (booked c0 (s', r)) by (unfold booked in *; cbn in *; by rewrite Hm).
    exists (s', r). cbn. unfold on_fst. cbn. rewrite Hs. split_and!; try done; tauto.
  - intros n [s r] [Hf Hb] Ha Hd Hh. cbn in Ha, Hd, Hh.
    destruct (run_free (on_exit := on_exit (sinks rq)) n s Hf Ha Hd Hh) as (s'' & n' & Hs & Hnd & Hn & Hf'' & Hw & Ha'').
    destruct (exits_serviced n n' s r s'' Hf Hb Hf'' Hs) as (r'' & Hs' & Hb'').
    exists (s'', r''), n'. cbn. unfold on_fst. cbn. destruct (kvm_run s) as [x s']. cbn in *. split_and!; try done; lia.
  - intros n [s r] [Hf Hb] Ha Hn. cbn in Ha.
    destruct (run_step (on_exit := on_exit (sinks rq)) n s Hf Ha Hn) as (s'' & Hs & Hc & He).
    assert (exists n', flight T n' s'') as [n' Hf''].
    { destruct Hc as [[? _]|Hp]; [by eexists|]. exists (n + 1). by apply path_flight. }
    destruct (exits_serviced n n' s r s'' Hf Hb Hf'' Hs) as (r'' & Hs' & Hb'').
    exists (s'', r''). cbn. unfold on_fst. cbn. destruct (kvm_run s) as [x s']. cbn in *. split_and!; try done; tauto.
  - intros n [s r] [Hf Hb] Ha Hn. cbn in Ha.
    destruct (run_delivery (on_exit := on_exit (sinks rq)) n s Hf Ha Hn) as (s'' & Hs & Hc & He).
    assert (exists n', flight T n' s'') as [n' Hf''].
    { destruct Hc as [[_ Hp]|(_ & n' & _ & ? & _)]; [|by eexists]. exists (settle T). by apply path_flight. }
    destruct (exits_serviced n n' s r s'' Hf Hb Hf'' Hs) as (r'' & Hs' & Hb'').
    exists (s'', r''). cbn. unfold on_fst. cbn. destruct (kvm_run s) as [x s']. cbn in *.
    split_and!; try done. destruct Hc as [[? ?]|(? & n1 & ? & ? & ?)]; [left|right]; [done|]. split; [done|].
    exists n1. done.
Qed.
End Lifted.

Section LiftedTakes.
Context {S H : Type} `{!Vcpu S, !Probe S, !Marks S}.

Lemma lifted_takes c0 (rq : Request S) (G : Guest S H) :
  plain rq -> MarksOk (on_exit (sinks rq)) -> (forall h, served (track G h)) ->
  Takes G (on_exit (sinks rq)) -> Takes (lifted c0 G) (exits rq None).
Proof.
  intros Hpl HM Hsv HT. split; cbn [lifted track window queued].
  - intros h. pose proof (takes_follows h). by apply lifted_follows.
  - intros h. apply (takes_quiet h).
  - intros h n [s r] [Hp _]. apply (window_open h n s Hp).
  - intros h n v [s r] [Hp Hb] Hw Hv. cbn [fst snd] in *.
    destruct (vector_queued h n v s Hp Hw Hv) as (s' & Hs & Hp' & Ha).
    pose proof (marks_interrupt (on_exit := on_exit (sinks rq)) v s) as Hm. rewrite Hs in Hm.
    exists (s', r). cbn. unfold on_fst. cbn. rewrite Hs. split_and!; try done. unfold booked in *. cbn in *. by rewrite Hm.
  - intros h n v. apply delivery_later.
  - intros h h'. apply same_limits.
Qed.
End LiftedTakes.

(** ** The specification *)

(** What the environment of a segment does, as functions of the history [H] of
    what has been done to the guest and of the icount [n]. *)
Record Machine (S H : Type) := mkMachine {
  guest : Guest S H;
  input_at : H -> Z -> nat -> list Z * H;    (* the vectors an input queues, and the history after it *)
  goal_at : H -> Z -> bool;
  asked : H -> Z -> bool;                     (* a pause is seen *)
  blob_at : H -> Z -> Z -> bytes;             (* the vCPU blob at a virtual time *)
  pages_at : H -> Z -> list (Z * bytes);
  sections_at : H -> Z -> bytes;
  marks_at : H -> Z -> Z * Z }.
Arguments guest {S H}. Arguments input_at {S H}. Arguments goal_at {S H}. Arguments asked {S H}.
Arguments blob_at {S H}. Arguments pages_at {S H}. Arguments sections_at {S H}. Arguments marks_at {S H}.

(** The contracts of the sinks and of the slot: they are functions of the guest's
    state, and none of them but the inputs changes the guest. *)
Class Runs {S H} `{!Vcpu S, !VcpuGets S, !SlotMem S, !TscClock S, !Probe S, !Marks S}
    (M : Machine S H) (rq : Request S) : Prop := {
  runs_takes : Takes (guest M) (on_exit (sinks rq));
  runs_marks_ok : MarksOk (on_exit (sinks rq));
  runs_plain : plain rq;
  runs_served : forall h, served (track (guest M) h);
  runs_marks : forall h n s, path (track (guest M) h) n s -> marks s = marks_at M h n;
  runs_input : forall h n s idx b, path (track (guest M) h) n s -> armed s = false ->
    exists s', input_sink (sinks rq) idx b s = Some (Ok (input_at M h n idx).1, s') /\
      path (track (guest M) (input_at M h n idx).2) n s' /\ armed s' = false /\ marks s' = marks s;
  runs_input_regs : forall h n idx, regs_at (track (guest M) (input_at M h n idx).2) n = regs_at (track (guest M) h) n;
  runs_goal : forall h n s, path (track (guest M) h) n s -> armed s = false ->
    exists s', goal (sinks rq) s = (goal_at M h n, s') /\ path (track (guest M) h) n s' /\ armed s' = false;
  runs_pause : forall h n s, path (track (guest M) h) n s -> armed s = false ->
    exists s', pause (seg rq) s = (asked M h n, s') /\ path (track (guest M) h) n s' /\ armed s' = false;
  runs_epoch : forall h n s i b c k, path (track (guest M) h) n s -> armed s = false ->
    exists s', epoch_sink (sinks rq) i b c k s = Some (Ok tt, s') /\
      path (track (guest M) h) n s' /\ armed s' = false;
  runs_tsc : forall h n s v, path (track (guest M) h) n s -> armed s = false ->
    exists s', set_tsc_value_with_offset v s = Some (Ok tt, s') /\ path (track (guest M) h) n s' /\ armed s' = false;
  runs_blob : forall h n s vns, path (track (guest M) h) n s -> canonical_vcpu_blob s vns = Ok (blob_at M h n vns);
  runs_pages : forall h n s, path (track (guest M) h) n s ->
    walk_pages (Z.to_nat (slot_mem_bytes s / Z.of_nat PAGE_SIZE)) 0 s = Ok (pages_at M h n);
  runs_sections : forall h n s, path (track (guest M) h) n s ->
    match hash_sections (seg rq) with Some f => f s | None => [] end = sections_at M h n }.

(** Where a segment stands: the history, the icount, and the results so far. *)
Record Spot (H : Type) := mkSpot {
  p_h : H; p_n : Z; p_chain : bytes; p_delivered : Z; p_fired : option TimerFired }.
Arguments p_h {H}. Arguments p_n {H}. Arguments p_chain {H}. Arguments p_delivered {H}. Arguments p_fired {H}.
Arguments mkSpot {H}.

Section Spec.
Context {B : Blake3} {S H : Type} (M : Machine S H) (c0 : Z) (rq : Request S) (pl : Plan S).
Implicit Types (p : Spot H).

(** A result, or [None] for what the engine's contract leaves open: a target
    behind the vCPU or inside the delivery of a vector, an execution that is not
    known far enough. *)
Definition Verdict : Type := option (outcome RunError SegmentOutcome).

Definition now_track p : Track S := track (guest M) (p_h p).
Definition move (h : H) (n : Z) p : Spot H := mkSpot h n (p_chain p) (p_delivered p) (p_fired p).

Definition spec_land (target : Z) p (next : Boundary -> Spot H -> Verdict) : Verdict :=
  let T := now_track p in
  if (p_n p <=? target) && (target <=? horizon T) && ((p_n p =? target) || (settle T <=? target))
  then next (boundary_at T target) (move (p_h p) target p) else None.

Definition spec_link (icount vns : Z) p : Spot H :=
  mkSpot (p_h p) (p_n p)
    (blake3 (link_preimage (p_chain p) (blob_at M (p_h p) (p_n p) vns) (sections_at M (p_h p) (p_n p))
       (pages_at M (p_h p) (p_n p)) icount vns))
    (p_delivered p) (p_fired p).
Definition spec_outcome (why : StopReason) (b : Boundary) (vns : Z) p : Verdict :=
  Some (Ok (mkSegmentOutcome why b vns (p_chain p) (p_delivered p) (p_fired p)
    ((marks_at M (p_h p) (p_n p)).1 - c0))).
Definition spec_finish (why : StopReason) (b : Boundary) (vns : Z) (already : bool) p : Verdict :=
  spec_outcome why b vns (if hash_final_stop (options rq) && negb already then spec_link (b_icount b) vns p else p).

Fixpoint spec_inputs (inputs : list nat) (vectors : list (Z * option nat)) p : list (Z * option nat) * Spot H :=
  match inputs with
  | [] => (vectors, p)
  | idx :: inputs =>
      let '(queued, h) := input_at M (p_h p) (p_n p) idx in
      spec_inputs inputs (vectors ++ ((fun v => (v, None)) <$> queued)) (move h (p_n p) p)
  end.

(** One vector, from the boundary [at_]: it is queued at the first open window. *)
Definition spec_inject (vector : Z) (idx : option nat) (at_ : Boundary) p (next : Boundary -> Spot H -> Verdict) : Verdict :=
  let T := now_track p in
  if (32 <=? vector) && (vector <? 256) && (settle T <=? p_n p) && (p_n p + INJECT_DEFER_BUDGET <=? horizon T) then
    match first_window (guest M) (Z.to_nat INJECT_DEFER_BUDGET) (p_h p) (p_n p) with
    | None => Some (Err (RunInject (WindowNeverOpened INJECT_DEFER_BUDGET)))
    | Some d =>
        let landed fired :=
          next (mkBoundary d (rip (regs_at T d)) (b_rcx at_))
            (mkSpot (queued (guest M) (p_h p) d vector) d (p_chain p) (p_delivered p + 1) fired) in
        if bool_decide (timer_slot pl = idx) then
          match seg_timer (seg rq) with
          | Some t => landed (Some (mkTimerFired vector (deadline_vns t) d))
          | None => Some Panic
          end
        else landed (p_fired p)
    end
  else None.
Definition spec_step p (next : Boundary -> Spot H -> Verdict) : Verdict :=
  let T := now_track p in
  if (p_n p <? settle T) && (settle T <=? horizon T)
  then next (boundary_at T (settle T)) (move (p_h p) (settle T) p) else None.
Fixpoint spec_deliver (first : bool) (vectors : list (Z * option nat)) (at_ : Boundary) p
    (next : Boundary -> Spot H -> Verdict) : Verdict :=
  match vectors with
  | [] => next at_ p
  | (vector, idx) :: vectors =>
      let inject at_ p := spec_inject vector idx at_ p (fun at_ p => spec_deliver false vectors at_ p next) in
      if first then inject at_ p else spec_step p inject
  end.

Definition spec_clock (icount : Z) (next : Z -> Verdict) : Verdict :=
  match vns_from_icount (seg_clock rq) icount with Some vns => next vns | None => Some (Err ClockOverflow) end.

Definition spec_roll_forward (icount : Z) p : Verdict :=
  let next_epoch := Z.max (div_ceil icount (epoch_grid rq)) 1 * epoch_grid rq in
  if u64_max <? next_epoch then Some Panic
  else spec_land next_epoch p (fun b p => spec_clock next_epoch (fun vns =>
    spec_outcome Paused b vns (spec_link next_epoch vns p))).

Definition spec_close (point : StopPoint) (b : Boundary) p (next : Spot H -> Verdict) : Verdict :=
  spec_clock (sp_icount point) (fun vns =>
    let hashed := sp_epoch_hash point && (bool_decide (sp_final_stop point = None) || hash_final_epoch (options rq)) in
    let p := if hashed then spec_link (sp_icount point) vns p else p in
    if sp_goal_poll point && goal_at M (p_h p) (p_n p) then spec_finish GoalSatisfied b vns hashed p
    else
      match sp_final_stop point with
      | Some kind => spec_finish (stop_reason kind) b vns hashed p
      | None =>
          if asked M (p_h p) (p_n p) then
            if sp_epoch_hash point then spec_outcome Paused b vns p else spec_roll_forward (sp_icount point) p
          else next p
      end).

Definition spec_point (point : StopPoint) (next : Spot H -> Verdict) p : Verdict :=
  spec_land (sp_icount point) p (fun b p =>
    let '(queued, p) := spec_inputs (sp_inputs point) [] p in
    match injection_vectors pl (sp_injections point) with
    | Some precomputed => spec_deliver true (queued ++ precomputed) b p (fun _ p => spec_close point b p next)
    | None => Some Panic
    end).

Fixpoint spec_walk (points : list StopPoint) p : Verdict :=
  match points with
  | [] => None
  | point :: points => spec_point point (spec_walk points) p
  end.
End Spec.

(** ** The walk computes the specification *)

Lemma collect_length n it ps : collect n it = Ok ps -> (length ps < n)%nat.
Proof.
  revert it ps. induction n as [|n IH]; intros it ps; cbn [collect]; [done|].
  destruct (AgendaIter_next it) as [[pt it']|]; [|intros [= <-]; cbn; lia].
  intros (ps' & H1 & [= <-])%bind_ok. apply IH in H1. cbn. lia.
Qed.

Section Sim.
Context {B : Blake3} {S H : Type} `{!Vcpu S, !VcpuGets S, !SlotMem S, !TscClock S, !Probe S, !Marks S}.
Context (M : Machine S H) (rq : Request S) `{!Runs M rq} (c0 : Z) (pl : Plan S) (Hfeed : feed pl = None) (fuel : nat).
Context (Hm : forall h, margins_ok (track (guest M) h) (margins rq)).
Implicit Types (p : Spot H) (w : S * Run).

(** Enough for every landing of the segment. *)
Definition segment_fuel (h : H) : nat :=
  ((Z.to_nat (horizon (track (guest M) h)) + 1) * (work_max (track (guest M) h) + 1) + 1)%nat.
Context (h0 : H) (Hfuel : (segment_fuel h0 <= fuel)%nat).

Definition books p : Books := mkBooks c0 (p_chain p) (p_delivered p) (p_fired p).
Definition at_spot p w : Prop := path (lifted_track (books p) (now_track M p)) (p_n p) w /\ armed w = false.
Definition yields (m : prog (S * Run) RunError SegmentOutcome) w (v : outcome RunError SegmentOutcome) : Prop :=
  exists w', m w = Some (v, w') /\ match v with Ok o => chain w'.2 = state_hash o | _ => True end.

#[local] Instance exits_takes k : Takes (lifted k (guest M)) (exits rq None).
Proof. apply lifted_takes; apply Runs0. Qed.
#[local] Instance exits_follows k h : Follows (lifted_track k (track (guest M) h)) (exits rq None).
Proof. apply (takes_follows (G := lifted k (guest M)) h). Qed.

Lemma fuel_covers k h target n :
  0 <= n -> target <= horizon (track (guest M) h) ->
  (land_fuel (lifted_track k (track (guest M) h)) target n <= fuel)%nat.
Proof.
  intros Hn Ht. destruct (same_limits (G := lifted k (guest M)) (on_exit := exits rq None) h h0) as (Hh & _ & Hw).
  cbn in Hh, Hw. unfold segment_fuel in Hfuel. unfold land_fuel. cbn. rewrite Hw.
  assert (Z.to_nat (target - n) <= Z.to_nat (horizon (track (guest M) h0)))%nat by lia. nia.
Qed.

Lemma unwind_ok {E A} (m : prog (S * Run) E A) wrap next w a w' :
  m w = Some (Ok a, w') -> unwind_or rq m wrap next w = next a w'.
Proof. intros Hw. unfold unwind_or. rewrite (prog_bind_ok _ _ w (Ok a) w'); [done|]. unfold reify. by rewrite Hw. Qed.
Lemma unwind_err {E A} (m : prog (S * Run) E A) wrap next w e w' :
  m w = Some (Err e, w') -> idle w'.2 -> unwind_or rq m wrap next w = Some (Err (wrap e), w').
Proof.
  intros Hw (H1 & H2 & H3). unfold unwind_or. rewrite (prog_bind_ok _ _ w (Err e) w'); [|unfold reify; by rewrite Hw].
  rewrite (prog_bind_ok _ _ w' w'.2 w') by done. by rewrite H1, H2, H3.
Qed.

Lemma yields_unwind {E A} (m : prog (S * Run) E A) wrap next w a w' v :
  m w = Some (Ok a, w') -> yields (next a) w' v -> yields (unwind_or rq m wrap next) w v.
Proof. intros Hw. unfold yields. by rewrite (unwind_ok _ _ _ _ _ _ Hw). Qed.
Lemma yields_bind {A} (m : prog (S * Run) RunError A) next w a w' v :
  m w = Some (Ok a, w') -> yields (next a) w' v -> yields (m ≫= next) w v.
Proof. intros Hw. unfold yields. by rewrite (prog_bind_ok _ _ _ _ _ Hw). Qed.

Lemma at_spot_width p w : at_spot p w -> 0 <= p_n p <= horizon (now_track M p).
Proof.
  intros (Hp & _). apply (path_flight (on_exit := exits rq None)) in Hp.
  by eapply (flight_width (T := lifted_track (books p) (now_track M p)) (on_exit := exits rq None)).
Qed.

(** Continuations that compute what the specification says. *)
Definition computes {A} (P : A -> Spot H -> Prop) (next : A -> prog (S * Run) RunError SegmentOutcome)
    (next_spec : A -> Spot H -> Verdict) : Prop :=
  forall a p w v, P a p -> at_spot p w -> next_spec a p = Some v -> yields (next a) w v.

(** A boundary where the vCPU stands. *)
Definition stands (b : Boundary) p : Prop :=
  b_icount b = p_n p /\ b_rip b = rip (regs_at (now_track M p) (p_n p)).

Lemma sim_land target p w v next_spec next :
  at_spot p w -> spec_land M target p next_spec = Some v ->
  computes (fun b p' => stands b p' /\ p_n p' = target) next next_spec ->
  yields (unwind_or rq (land_at fuel target (margins rq) (exits rq (feed pl))) RunBoundary next) w v.
Proof.
  intros Hw Hs Hnext. pose proof (at_spot_width p w Hw) as Hn. destruct Hw as (Hp & Ha).
  unfold spec_land in Hs. destruct ((p_n p <=? target) && _ && _) eqn:Hg; [|done].
  assert (p_n p <= target <= horizon (now_track M p) /\ (p_n p < target -> settle (now_track M p) <= target)) as [Ht Hst] by lia.
  destruct (land_at_spec (lifted_track (books p) (now_track M p)) (exits rq None) (margins rq) (Hm _) target (p_n p) w fuel)
    as (w' & H1 & Hp' & Ha'); try done; [apply fuel_covers; [lia|apply Ht]|].
  rewrite Hfeed. eapply yields_unwind; [exact H1|].
  by refine (Hnext _ (move (p_h p) target p) w' v _ (conj Hp' Ha') Hs).
Qed.

Lemma sim_step p w v next_spec next :
  at_spot p w -> spec_step M p next_spec = Some v ->
  computes (fun b p' => stands b p' /\ settle (now_track M p') <= p_n p') next next_spec ->
  yields (unwind_or rq (step_one_entry fuel (exits rq (feed pl))) RunBoundary next) w v.
Proof.
  intros Hw Hs Hnext. pose proof (at_spot_width p w Hw) as Hn. destruct Hw as (Hp & Ha).
  unfold spec_step in Hs. destruct ((p_n p <? _) && _) eqn:Hg; [|done].
  destruct (step_one_entry_spec (lifted_track (books p) (now_track M p)) (exits rq None) fuel (p_n p) w Hp)
    as (w' & H1 & Hp' & Ha'); [cbn; lia|apply fuel_covers; unfold now_track in *; cbn; lia|].
  rewrite Hfeed. eapply yields_unwind; [exact H1|].
  by refine (Hnext _ (move (p_h p) (settle (now_track M p)) p) w' v _ (conj Hp' Ha') Hs).
Qed.

(** A sink's call: the slot stays where it is. *)
Lemma at_spot_world p w s' :
  at_spot p w -> path (now_track M p) (p_n p) s' -> armed s' = false -> at_spot p (s', w.2).
Proof.
  intros [[Hp (? & H1 & H2 & ?)] Ha] Hp' Ha'. split; [|done]. split; [done|]. unfold booked. cbn [fst snd].
  rewrite (runs_marks _ _ _ Hp) in H1, H2. by rewrite (runs_marks _ _ _ Hp').
Qed.

(** The sinks of a point. *)
Lemma sim_epoch p w i b c k :
  at_spot p w -> exists w', lift (map_err RunBoundary (epoch_sink (sinks rq) i b c k)) w = Some (Ok tt, w') /\ at_spot p w'.
Proof.
  intros Hw. pose proof Hw as [[Hp _] Ha]. destruct (runs_epoch _ _ _ i b c k Hp Ha) as (s' & Hs & Hp' & Ha').
  exists (s', w.2). split; [|by eapply at_spot_world]. unfold lift, map_err. by rewrite Hs.
Qed.
Lemma sim_goal p w :
  at_spot p w -> exists w', ask (E := RunError) (goal (sinks rq)) w = Some (Ok (goal_at M (p_h p) (p_n p)), w') /\ at_spot p w'.
Proof.
  intros Hw. pose proof Hw as [[Hp _] Ha]. destruct (runs_goal _ _ _ Hp Ha) as (s' & Hs & Hp' & Ha').
  exists (s', w.2). split; [|by eapply at_spot_world]. unfold ask. by rewrite Hs.
Qed.
Lemma sim_pause p w :
  at_spot p w -> exists w', ask (E := RunError) (pause (seg rq)) w = Some (Ok (asked M (p_h p) (p_n p)), w') /\ at_spot p w'.
Proof.
  intros Hw. pose proof Hw as [[Hp _] Ha]. destruct (runs_pause _ _ _ Hp Ha) as (s' & Hs & Hp' & Ha').
  exists (s', w.2). split; [|by eapply at_spot_world]. unfold ask. by rewrite Hs.
Qed.

Lemma sim_link p w icount vns :
  at_spot p w -> exists w', push_here rq icount vns w = Some (Ok tt, w') /\ at_spot (spec_link M icount vns p) w'.
Proof.
  intros Hw. pose proof Hw as [[Hp (? & ? & ? & Hc & ? & ?)] Ha]. unfold push_here, push_final_link.
  rewrite (runs_sections _ _ _ Hp), (runs_blob _ _ _ vns Hp), (runs_pages _ _ _ Hp). cbn [err_map mbind outcome_bind].
  eexists. split; [reflexivity|]. split; [|done]. split; [done|]. unfold booked. cbn in *. rewrite Hc. by split_and!.
Qed.

Lemma sim_outcome p w why b vns v :
  at_spot p w -> spec_outcome M c0 why b vns p = Some v -> yields (outcome_now why b vns) w v.
Proof.
  intros [[Hp (? & Hf & ? & Hc & Hd & Ht)] _] [= <-]. unfold outcome_now.
  eapply yields_bind; [reflexivity|]. exists w. cbn in Hf, Hc, Hd, Ht.
  rewrite Hf, Hc, Hd, Ht, (runs_marks _ _ _ Hp). done.
Qed.
Lemma sim_finish p w why b vns already v :
  at_spot p w -> spec_finish M c0 rq why b vns already p = Some v -> yields (finish rq why b vns already) w v.
Proof.
  intros Hw Hs. unfold finish, spec_finish in *. destruct (_ && _).
  - destruct (sim_link p w (b_icount b) vns Hw) as (w' & H1 & Hw'). eapply yields_bind; [exact H1|].
    by eapply sim_outcome.
  - eapply yields_bind; [reflexivity|]. by eapply sim_outcome.
Qed.
Lemma sim_clock icount w v next next_spec :
  spec_clock rq icount next_spec = Some v ->
  (forall vns, next_spec vns = Some v -> yields (next vns) w v) ->
  yields (clock_now rq icount ≫= next) w v.
Proof.
  unfold spec_clock, clock_now. intros Hs Hn. destruct (vns_from_icount _ _) as [vns|].
  - eapply yields_bind; [reflexivity|]. auto.
  - injection Hs as <-. exists w. done.
Qed.

Lemma first_window_lifted k (N : nat) h n : first_window (lifted k (guest M)) N h n = first_window (guest M) N h n.
Proof. revert n. induction N as [|N IH]; intros n; cbn [first_window lifted window]; [done|]. by rewrite IH. Qed.

Lemma sim_inject vector idx at_ p w v next next_spec :
  at_spot p w -> stands at_ p -> spec_inject M rq pl vector idx at_ p next_spec = Some v ->
  computes (fun _ _ => True) next next_spec ->
  yields (unwind_or rq (inject_at_boundary fuel vector at_ (margins rq) INJECT_DEFER_BUDGET (exits rq (feed pl))) RunInject
    (fun inj => _ ← update count_delivery;
      _ ← (if bool_decide (timer_slot pl = idx) then
             match seg_timer (seg rq) with
             | Some t => update (set_fired (mkTimerFired (inj_vector inj) (deadline_vns t) (delivered_icount inj)))
             | None => crash
             end
           else pass);
      next (mkBoundary (delivered_icount inj) (delivered_rip inj) (b_rcx at_)))) w v.
Proof.
  intros Hw [Hai Har] Hs Hnext. pose proof (at_spot_width p w Hw) as Hwd. destruct Hw as [Hp Ha].
  unfold spec_inject in Hs. destruct (_ && _ && _ && _) eqn:Hg; [|done].
  assert (Z.of_nat (Z.to_nat INJECT_DEFER_BUDGET) = INJECT_DEFER_BUDGET) as HB by (unfold INJECT_DEFER_BUDGET; lia).
  assert ((defer_fuel (lifted (books p) (guest M)) (p_h p) <= fuel)%nat) as Hdf.
  { apply fuel_covers; [done|]. unfold now_track, INJECT_DEFER_BUDGET in *. lia. }
  pose proof (inject_loop_spec (lifted (books p) (guest M)) (exits rq None) (margins rq) Hm (p_h p) at_ vector
    INJECT_DEFER_BUDGET fuel ltac:(lia) Hdf (Z.to_nat INJECT_DEFER_BUDGET) (p_n p) w 0 at_ Hp Ha) as HI.
  specialize (HI ltac:(unfold now_track in *; cbn; lia) Hai Har ltac:(unfold now_track in *; cbn; lia) ltac:(lia)).
  rewrite first_window_lifted in HI.
  rewrite Hfeed. unfold inject_at_boundary. destruct (first_window _ _ _ _) as [d|].
  - destruct HI as (w1 & H1 & Hp1 & Ha1). eapply yields_unwind; [exact H1|]. cbn [inj_vector delivered_icount delivered_rip].
    eapply yields_bind; [reflexivity|].
    assert (forall f, at_spot (mkSpot (queued (guest M) (p_h p) d vector) d (p_chain p) (p_delivered p + 1) f)
      (w1.1, mkRun (chain w1.2) (delivered w1.2 + 1) f (halted w1.2) (event_stop w1.2) (frame_sink_stop w1.2)
         (frames_seen w1.2) (last_frame_counter w1.2) (frame_inputs_applied w1.2))) as Hspot.
    { intros f. destruct Hp1 as [Hp1 (? & ? & ? & ? & Hd & ?)]. split; [|done]. split; [done|]. unfold booked. cbn in *.
      rewrite Hd. by split_and!. }
    destruct (bool_decide _).
    + destruct (seg_timer _) as [t|]; [|injection Hs as <-; exists (w1.1, count_delivery w1.2); split; [reflexivity|exact I]].
      eapply yields_bind; [reflexivity|]. eapply Hnext; [done| |exact Hs]. apply Hspot.
    + eapply yields_bind; [reflexivity|]. eapply Hnext; [done| |exact Hs].
      destruct Hp1 as [? (? & ? & ? & ? & ? & Hf)]. cbn in Hf. rewrite <- Hf. apply Hspot.
  - destruct HI as (w1 & H1 & Hp1 & Ha1). injection Hs as <-. exists w1. split; [|done].
    apply (unwind_err _ _ _ _ _ _ H1). apply Hp1.
Qed.

Lemma sim_deliver vectors : forall first at_ p w v next next_spec,
  at_spot p w -> (first = true -> stands at_ p) ->
  spec_deliver M rq pl first vectors at_ p next_spec = Some v ->
  computes (fun _ _ => True) next next_spec ->
  yields (deliver fuel rq pl first vectors at_ next) w v.
Proof.
  induction vectors as [|[vector idx] vectors IH]; intros first at_ p w v next next_spec Hw Hst Hs Hnext;
    cbn [spec_deliver deliver] in *; [by eapply Hnext|].
  assert (computes (fun _ _ => True) (fun b => deliver fuel rq pl false vectors b next)
    (fun b p => spec_deliver M rq pl false vectors b p next_spec)) as Hrest.
  { intros b p' w' v' _ Hw' Hs'. by eapply IH. }
  destruct first.
  - exact (sim_inject vector idx at_ p w v _ _ Hw (Hst eq_refl) Hs Hrest).
  - eapply sim_step; [done|exact Hs|]. intros b p' w' v' [Hst' _] Hw' Hs'.
    exact (sim_inject vector idx b p' w' v' _ _ Hw' Hst' Hs' Hrest).
Qed.

Lemma sim_inputs inputs b : forall vectors p w v next next_spec,
  at_spot p w -> stands b p ->
  (let '(queued, p) := spec_inputs M inputs vectors p in next_spec queued p) = Some v ->
  computes (fun _ p' => stands b p' /\ p_n p' = p_n p) next next_spec ->
  yields (land_inputs rq b inputs vectors next) w v.
Proof.
  induction inputs as [|idx inputs IH]; intros vectors p w v next next_spec Hw Hst Hs Hnext; cbn [spec_inputs land_inputs] in *.
  { by eapply Hnext. }
  pose proof Hw as [[Hp Hb] Ha]. destruct (runs_input _ _ _ idx b Hp Ha) as (s' & H1 & Hp' & Ha' & Hmk).
  pose proof (runs_input_regs (p_h p) (p_n p) idx) as Hr. destruct (input_at M (p_h p) (p_n p) idx) as [qs h] eqn:Hi. cbn [fst snd] in *.
  eapply (yields_unwind _ _ _ _ _ (s', w.2)); [unfold lift; by rewrite H1|].
  eapply (IH _ (move h (p_n p) p)); [| |exact Hs|].
  - split; [|done]. split; [done|]. unfold booked in *. cbn [fst snd] in *. by rewrite Hmk.
  - destruct Hst as [? Hrip]. split; [done|]. unfold now_track in *. cbn. by rewrite Hr.
  - exact Hnext.
Qed.

Lemma sim_roll_forward icount p w v :
  at_spot p w -> spec_roll_forward M c0 rq icount p = Some v -> yields (roll_forward fuel rq pl icount) w v.
Proof.
  intros Hw Hs. unfold roll_forward, spec_roll_forward in *. destruct (u64_max <? _).
  { injection Hs as <-. by exists w. }
  eapply sim_land; [done|exact Hs|]. clear w Hw Hs p v. intros b p w v [[Hb _] Hn] Hw Hs. rewrite Hb, Hn.
  eapply sim_clock; [exact Hs|]. cbv beta. intros vns Hs'.
  destruct (sim_link p w (Z.max (div_ceil icount (epoch_grid rq)) 1 * epoch_grid rq) vns Hw) as (w1 & H1 & Hw1).
  eapply yields_bind; [exact H1|]. eapply yields_bind; [reflexivity|]. destruct (epoch_hashes_enabled rq).
  - destruct (sim_epoch _ w1 (Z.max (div_ceil icount (epoch_grid rq)) 1 * epoch_grid rq / epoch_grid rq) b (chain w1.2) true Hw1)
      as (w2 & H2 & Hw2).
    eapply yields_bind; [exact H2|]. by eapply sim_outcome.
  - eapply yields_bind; [reflexivity|]. by eapply sim_outcome.
Qed.

Lemma sim_close point b at_ checkpointable p w v next next_spec :
  at_spot p w -> spec_close M c0 rq point b p next_spec = Some v ->
  (forall p' w' v', at_spot p' w' -> next_spec p' = Some v' -> yields next w' v') ->
  yields (close_point fuel rq pl point b at_ checkpointable next) w v.
Proof.
  intros Hw Hs Hnext. unfold close_point. eapply sim_clock; [exact Hs|]. cbv beta zeta. intros vns Hs'.
  set (hashed := sp_epoch_hash point && _) in *.
  set (q := if hashed then spec_link M (sp_icount point) vns p else p) in *.
  assert (exists w1, (if hashed then
      _ ← push_here rq (sp_icount point) vns;
      r ← locals;
      lift (map_err RunBoundary (epoch_sink (sinks rq) (sp_icount point / epoch_grid rq)
        (mkBoundary (sp_icount point) (b_rip at_) (b_rcx at_)) (chain r) checkpointable))
    else pass) w = Some (Ok tt, w1) /\ at_spot q w1) as (w1 & H1 & Hw1).
  { subst q. destruct hashed; [|by exists w]. destruct (sim_link p w (sp_icount point) vns Hw) as (w1 & H1 & Hw1).
    destruct (sim_epoch _ w1 (sp_icount point / epoch_grid rq) (mkBoundary (sp_icount point) (b_rip at_) (b_rcx at_))
      (chain w1.2) checkpointable Hw1) as (w2 & H2 & Hw2).
    exists w2. split; [|done]. by rewrite (prog_bind_ok _ _ _ _ _ H1), (prog_bind_ok _ _ w1 w1.2 w1). }
  eapply yields_bind; [exact H1|].
  assert (exists w2, (if sp_goal_poll point then ask (goal (sinks rq)) else mret false : prog (S * Run) RunError bool) w1
      = Some (Ok (sp_goal_poll point && goal_at M (p_h q) (p_n q)), w2) /\ at_spot q w2) as (w2 & H2 & Hw2).
  { destruct (sp_goal_poll point); [apply (sim_goal q w1 Hw1)|by exists w1]. }
  eapply yields_bind; [exact H2|]. destruct (sp_goal_poll point && _); [by eapply sim_finish|].
  destruct (sp_final_stop point) as [kind|]; [by eapply sim_finish|].
  destruct (sim_pause q w2 Hw2) as (w3 & H3 & Hw3). eapply yields_bind; [exact H3|].
  destruct (asked M (p_h q) (p_n q)); [|by eapply Hnext].
  destruct (sp_epoch_hash point); [by eapply sim_outcome|by eapply sim_roll_forward].
Qed.

Lemma sim_point point p w v next next_spec :
  at_spot p w -> spec_point M c0 rq pl point next_spec p = Some v ->
  (forall p' w' v', at_spot p' w' -> next_spec p' = Some v' -> yields next w' v') ->
  yields (at_point fuel rq pl point next) w v.
Proof.
  intros Hw Hs Hnext. unfold at_point, spec_point in *. eapply sim_land; [done|exact Hs|].
  clear p w v Hw Hs. intros b p w v [Hst _] Hw Hs.
  eapply (sim_inputs _ _ _ _ _ _ _ (fun queued p =>
    match injection_vectors pl (sp_injections point) with
    | Some precomputed =>
        spec_deliver M rq pl true (queued ++ precomputed) b p (fun _ p => spec_close M c0 rq point b p next_spec)
    | None => Some Panic
    end)); [done|done|exact Hs|].
  clear w v Hst Hw Hs. intros queued q w v [Hst _] Hw Hs.
  destruct (injection_vectors pl _) as [pre|]; [|injection Hs as <-; by exists w].
  eapply sim_deliver; [done|done|exact Hs|]. intros at_ p' w' v' _ Hw' Hs'. by eapply sim_close; eauto.
Qed.

Lemma sim_walk ps : forall n k it p w v,
  collect k it = Ok ps -> (length ps <= n)%nat -> at_spot p w ->
  spec_walk M c0 rq pl ps p = Some v -> yields (walk fuel rq pl n it) w v.
Proof.
  induction ps as [|pt ps IH]; intros n k it p w v Hc Hn Hw Hs; [done|].
  destruct k as [|k]; [done|]. cbn [collect] in Hc. destruct n as [|n]; [cbn in Hn; lia|]. cbn [walk].
  destruct (AgendaIter_next it) as [[pt' it']|]; [|done]. apply bind_ok in Hc as (ps' & Hc & [= -> ->]).
  cbn [spec_walk] in Hs. eapply sim_point; [done|exact Hs|].
  intros p' w' v' Hw' Hs'. eapply IH; eauto. cbn in Hn. lia.
Qed.
End Sim.

(** ** The theorem *)

Section Deterministic.
Context {B : Blake3} {S H : Type} `{!Vcpu S, !VcpuGets S, !SlotMem S, !TscClock S, !Probe S, !Marks S}.
Context (M : Machine S H).

(** The outcome of a segment that starts at a spot. *)
Definition spec_segment (c0 : Z) (rq : Request S) (p : Spot H) : Verdict :=
  spec_clock rq (seg_start_icount (seg rq)) (fun _ =>
    match plan_injections rq with
    | Ok (injections, slot) =>
        let pl := mkPlan None injections slot in
        match AgendaIter_new (agenda_inputs rq pl) with
        | Ok it =>
            match collect (Z.to_nat (it_final_icount it - seg_start_icount (seg rq)) + 2) it with
            | Ok points => spec_walk M c0 rq pl points p
            | _ => None
            end
        | Err e => Some (Err (RunAgenda e))
        | Panic => Some Panic
        end
    | Err e => Some (Err e)
    | Panic => Some Panic
    end).

(** Enough for every landing and for every point of the agenda. *)
Definition run_fuel (rq : Request S) (h : H) : nat :=
  (segment_fuel M h +
   match plan_injections rq with
   | Ok (injections, slot) =>
       match AgendaIter_new (agenda_inputs rq (mkPlan None injections slot)) with
       | Ok it => Z.to_nat (it_final_icount it - seg_start_icount (seg rq)) + 2
       | _ => 0
       end
   | _ => 0
   end)%nat.

(** The same request with other landing knobs. *)
Definition reland (skid slack : Z) (rq : Request S) : Request S :=
  let sg := seg rq in
  let c := config sg in
  mkRequest
    (mkSegmentIn
      (mkConfig (version c) (mem_bytes c) (vcpus c) (Config.clock c) (base_image_hash c) (boot c) (Config.epoch_len c)
         (hash_epochs c) skid slack (cpuid_table c) (device_set c))
      (seg_start_icount sg) (seg_injections sg) (seg_timer sg) (pause sg) (sdk_events sg) (hash_sections sg))
    (until rq) (options rq) (scheduled rq) (frame_inputs rq) (start_frame_counter rq) (sinks rq).

Lemma runs_reland skid slack rq : Runs M rq -> Runs M (reland skid slack rq).
Proof. intros []. split; try assumption. by destruct runs_plain0. Qed.

Lemma segment_spec (rq : Request S) fuel h s c v :
  Runs M rq -> (forall h, margins_ok (track (guest M) h) (margins rq)) -> (run_fuel rq h <= fuel)%nat ->
  path (track (guest M) h) (seg_start_icount (seg rq)) s -> armed s = false ->
  (marks s).2 = start_frame_counter rq ->
  spec_segment (marks s).1 rq (mkSpot h (seg_start_icount (seg rq)) c 0 None) = Some v ->
  yields (segment_body fuel rq) (s, run_new rq c) v.
Proof.
  intros HR Hm Hfu Hp Ha Hl Hs. set (p0 := mkSpot h (seg_start_icount (seg rq)) c 0 None) in *.
  pose proof (takes_follows (Takes := runs_takes (rq := rq)) h) as HF.
  assert (at_spot M (marks s).1 p0 (s, run_new rq c)) as Hw.
  { split; [|done]. split; [done|]. unfold booked. cbn. split_and!; try done. lia. }
  unfold segment_body. eapply yields_bind.
  { unfold lift, map_err, observe. cbn [fst]. rewrite (counter_flight rq _ _ s (path_flight _ _ Hp)). reflexivity. }
  rewrite Z.eqb_refl. cbn [negb].
  eapply sim_clock; [exact Hs|]. cbv beta. intros vns0 Hs'.
  destruct (runs_tsc _ _ _ vns0 Hp Ha) as (s1 & H1 & Hp1 & Ha1).
  eapply yields_bind. { unfold lift, map_err. cbn [fst]. rewrite H1. reflexivity. } cbn [err_map snd].
  pose proof (at_spot_world M rq _ p0 _ s1 Hw Hp1 Ha1) as Hw1. cbn [snd] in Hw1.
  eapply yields_bind. { unfold lift, observe. cbn [fst]. rewrite (plain_feed rq runs_plain). reflexivity. }
  rewrite (plain_target rq runs_plain). cbn [snd].
  unfold run_fuel in Hfu.
  destruct (plan_injections rq) as [[injections slot]| |] eqn:Hpl.
  - eapply yields_bind; [reflexivity|]. cbv beta iota zeta in Hs' |- *.
    destruct (AgendaIter_new _) as [it|e|] eqn:Hit; cbn [err_map].
    + eapply yields_bind; [reflexivity|]. destruct (collect _ it) as [points| |] eqn:Hcol; [|done..].
      pose proof (collect_length _ _ _ Hcol) as Hlen.
      refine (sim_walk M rq (marks s).1 (mkPlan None injections slot) eq_refl fuel Hm h _ points fuel _ it p0
        (s1, run_new rq c) v Hcol _ Hw1 Hs'); lia.
    + injection Hs' as <-. eexists. split; [reflexivity|done].
    + injection Hs' as <-. eexists. split; [reflexivity|done].
  - injection Hs' as <-. eexists. split; [reflexivity|done].
  - injection Hs' as <-. eexists. split; [reflexivity|done].
Qed.

(** C5: a run is a function of the guest.  For a budget, virtual-time or goal run
    on a guest that behaves as documented, from the boundary it starts at, the
    outcome is the one the specification computes from the guest's execution,
    the agenda and the sinks' answers: where the run stops and why, the virtual
    time, every vector at its first open window, the timer, the frames, and the
    hash chain with its epoch and final links.  It is so whatever the landing
    knobs that cover the skid, whatever kicks and device exits come in between,
    and the run returns. *)
Theorem run_segment_deterministic (rq : Request S) skid slack fuel h s c v :
  Runs M rq -> (forall h, margins_ok (track (guest M) h) (mkMargins skid slack)) ->
  (run_fuel rq h <= fuel)%nat ->
  path (track (guest M) h) (seg_start_icount (seg rq)) s -> armed s = false ->
  (marks s).2 = start_frame_counter rq ->
  spec_segment (marks s).1 rq (mkSpot h (seg_start_icount (seg rq)) c 0 None) = Some v ->
  exists s' c', run_segment_inner fuel (reland skid slack rq) (s, c) = Some (v, (s', c')) /\
    forall o, v = Ok o -> c' = state_hash o.
Proof.
  intros HR Hm Hfu Hp Ha Hl Hs.
  destruct (segment_spec (reland skid slack rq) fuel h s c v) as ([s' r'] & H1 & H2); try done.
  { by apply runs_reland. }
  exists s', (chain r'). unfold run_segment_inner. cbn [fst snd]. rewrite H1. split; [done|].
  intros o ->. exact H2.
Qed.
End Deterministic.

(** ** Two paths that are not what the comments say *)

Section Faults.
Context {B : Blake3} {S : Type} `{!Vcpu S, !VcpuGets S, !SlotMem S, !TscClock S}.

(** C34: a vector an input queues panics when no timer is armed.  The vectors of
    inputs carry no injection index and a segment without a timer has no timer
    slot, so the two compare equal and the delivery of such a vector is taken
    for the timer's, whose arming does not exist. *)
Theorem input_vector_without_timer_panics fuel (rq : Request S) fd injections slot vector vectors at_ next w inj w' :
  seg_timer (seg rq) = None -> plan_injections rq = Ok (injections, slot) ->
  inject_at_boundary fuel vector at_ (margins rq) INJECT_DEFER_BUDGET (exits rq fd) w = Some (Ok inj, w') ->
  deliver fuel rq (mkPlan fd injections slot) true ((vector, None) :: vectors) at_ next w
  = Some (Panic, (w'.1, count_delivery w'.2)).
Proof.
  intros Ht Hp Hi. unfold plan_injections in Hp. rewrite Ht in Hp. injection Hp as <- <-. cbn [deliver feed timer_slot].
  unfold unwind_or. rewrite (prog_bind_ok _ _ w (Ok inj) w'); [|unfold reify; by rewrite Hi].
  rewrite (prog_bind_ok _ _ w' tt (w'.1, count_delivery w'.2)) by done. rewrite Ht. done.
Qed.

(** A pause seen off the hash grid drops the rest of the agenda: what follows
    the point does not matter any more, although inputs, vectors, goal polls and
    the stop itself may lie before the grid point the run rolls forward to. *)
Lemma pause_drops_the_agenda fuel (rq : Request S) pl point b at_ checkpointable next next' w :
  sp_epoch_hash point = false -> sp_goal_poll point = false -> sp_final_stop point = None ->
  (pause (seg rq) w.1).1 = true ->
  close_point fuel rq pl point b at_ checkpointable next w = close_point fuel rq pl point b at_ checkpointable next' w.
Proof.
  intros H1 H2 H3 H4. unfold close_point, clock_now, mbind, prog_bind, of_outcome. destruct (ok_or _ _); try done.
  rewrite H1, H2, H3. cbn [andb]. unfold pass, mret, prog_ret, ask. destruct (pause (seg rq) w.1) as [[] s]; done.
Qed.
End Faults.
