(* ===== verification/RunKeeps.v ===== *)
(** * What a Run segment leaves alone

    A property of the world that the kernel calls and the exit handler keep, and
    that an accepting epoch sink keeps, is kept by every segment that returns:
    the frame rule of run control, for callers whose closures carry state of
    their own beside the vCPU's. *)

From S2P Require Import Prelude Vt Agenda Kvm VcpuState StateHash Config Boundary Inject RunCtl.

(** ** Programs that keep a property *)

Section Keeps.
Context {S E : Type}.
Implicit Types I : S -> Prop.

(** However [m] ends; and [I] only when it returns, [W] when it fails. *)
Definition keeps {A} I (m : prog S E A) : Prop := forall s o s', I s -> m s = Some (o, s') -> I s'.
Definition keeps_ok {A} (W I : S -> Prop) (m : prog S E A) : Prop := forall s o s', I s -> m s = Some (o, s') ->
  match o with Ok _ => I s' | _ => W s' end.

Lemma keeps_is_ok {A} (W I : S -> Prop) (m : prog S E A) : (forall s, I s -> W s) -> keeps I m -> keeps_ok W I m.
Proof. intros HW H s o s' Hs Hm. specialize (H s o s' Hs Hm). destruct o; auto. Qed.
Lemma keeps_ret {A} I (a : A) : keeps I (mret a).
Proof. by intros s o s' Hs [= <- <-]. Qed.
Lemma keeps_pass I : keeps I pass.
Proof. by intros s o s' Hs [= <- <-]. Qed.
Lemma keeps_throw {A} I e : keeps I (throw e : prog S E A).
Proof. by intros s o s' Hs [= <- <-]. Qed.
Lemma keeps_crash {A} I : keeps I (crash : prog S E A).
Proof. by intros s o s' Hs [= <- <-]. Qed.
Lemma keeps_spin {A} I : keeps I (spin : prog S E A).
Proof. by intros s o s' Hs. Qed.
Lemma keeps_outcome {A} I (o : outcome E A) : keeps I (of_outcome o).
Proof. by intros s o' s' Hs [= <- <-]. Qed.
Lemma keeps_observe {A} I (f : S -> outcome E A) : keeps I (observe f).
Proof. by intros s o s' Hs [= <- <-]. Qed.
Lemma keeps_io {A} I (f : S -> outcome E A * S) : (forall s, I s -> I (f s).2) -> keeps I (io f).
Proof. intros H s o s' Hs [= Hf]. specialize (H s Hs). by rewrite Hf in H. Qed.
Lemma keeps_modify I (f : S -> S) : (forall s, I s -> I (f s)) -> keeps I (modify f).
Proof. intros H s o s' Hs [= <- <-]. by apply H. Qed.
Lemma keeps_bind {A B} I (m : prog S E A) (k : A -> prog S E B) : keeps I m -> (forall a, keeps I (k a)) -> keeps I (m ≫= k).
Proof.
  intros Hm Hk s o s' Hs H. apply prog_bind_inv in H as [(a & s1 & H1 & H)|[(e & H & _)|[H _]]];
    [|by eapply Hm..]. eapply Hk; [|exact H]. by eapply Hm.
Qed.
Lemma keeps_ok_bind {A B} (W I : S -> Prop) (m : prog S E A) (k : A -> prog S E B) :
  keeps_ok W I m -> (forall a, keeps_ok W I (k a)) -> keeps_ok W I (m ≫= k).
Proof.
  intros Hm Hk s b s' Hs H. apply prog_bind_inv in H as [(a & s1 & H1 & H)|[(e & H & ->)|[H ->]]].
  - eapply Hk; [|exact H]. exact (Hm _ _ _ Hs H1).
  - exact (Hm _ _ _ Hs H).
  - exact (Hm _ _ _ Hs H).
Qed.
End Keeps.

Lemma keeps_map_err {S E F A} (I : S -> Prop) (f : E -> F) (m : prog S E A) : keeps I m -> keeps I (map_err f m).
Proof. intros H s o s' Hs. unfold map_err. destruct (m s) as [[o1 s1]|] eqn:Hm; [|done]. intros [= _ <-]. by eapply H. Qed.
Lemma keeps_ok_map_err {S E F A} (W I : S -> Prop) (f : E -> F) (m : prog S E A) : keeps_ok W I m -> keeps_ok W I (map_err f m).
Proof.
  intros H s o s' Hs. unfold map_err. destruct (m s) as [[o1 s1]|] eqn:Hm; [|done]. intros [= <- <-].
  specialize (H _ _ _ Hs Hm). by destruct o1.
Qed.
Lemma keeps_reify {S E F A} (I : S -> Prop) (m : prog S E A) : keeps I m -> keeps I (reify (F := F) m).
Proof.
  intros H s o s' Hs. unfold reify. destruct (m s) as [[[x|e|] s1]|] eqn:Hm; [| | |done]; intros [= _ <-]; by eapply H.
Qed.

Create HintDb keeps discriminated.
#[export] Hint Resolve keeps_ret keeps_pass keeps_throw keeps_crash keeps_spin keeps_outcome keeps_observe keeps_bind
  keeps_map_err keeps_reify : keeps.
#[export] Hint Resolve keeps_ok_bind keeps_ok_map_err : keeps.
(** Split a program along its binds and cases. *)
Ltac keep :=
  repeat first
    [ solve [eauto 1] | apply keeps_ret | apply keeps_pass | apply keeps_throw | apply keeps_crash | apply keeps_spin | apply keeps_outcome
    | apply keeps_observe | (apply keeps_bind; [|intros]) | (apply keeps_ok_bind; [|intros])
    | assumption | solve [eauto with keeps]
    | apply keeps_map_err | apply keeps_ok_map_err | apply keeps_reify
    | match goal with |- context [match ?x with _ => _ end] => destruct x end ].

(** ** The kernel's calls *)

(** [I] does not look at what the kernel's calls change. *)
Class Unseen {S : Type} `{!Vcpu S} (I : S -> Prop) : Prop := {
  unseen_run : forall s, I s -> I (kvm_run s).2;
  unseen_debug : forall c s, I s -> I (kvm_set_guest_debug c s).2;
  unseen_interrupt : forall v s, I s -> I (kvm_interrupt v s).2;
  unseen_kick : forall b s, I s -> I (set_kvm_immediate_exit b s);
  unseen_perf : forall c s, I s -> I (perf_ioctl c s).2 }.
Class UnseenTsc {S : Type} `{!TscClock S} (I : S -> Prop) : Prop := {
  unseen_rdtsc : forall s, I s -> I (rdtsc s).2;
  unseen_tsc : forall o s, I s -> I (kvm_set_tsc_offset o s).2 }.

Section Engine.
Context {S : Type} `{!Vcpu S} (I : S -> Prop) `{!Unseen I}.

Lemma keeps_guard_run : keeps I guard_run.
Proof. intros s o s' Hs. unfold guard_run. pose proof (unseen_run s Hs) as H. destruct (kvm_run s). by intros [= _ <-]. Qed.
Lemma keeps_singlestep on : keeps I (set_singlestep on).
Proof. apply keeps_map_err, keeps_io. intros s. apply unseen_debug. Qed.
Lemma keeps_perf c : keeps I (perf_call c).
Proof. apply keeps_map_err, keeps_io. intros s. apply unseen_perf. Qed.
Lemma keeps_read_counter : keeps I read_counter.
Proof. apply keeps_map_err, keeps_observe. Qed.
Lemma keeps_get_regs : keeps I get_regs.
Proof. apply keeps_map_err, keeps_observe. Qed.
Lemma keeps_kick : keeps I (modify clear_immediate_exit : prog S BoundaryError unit).
Proof. apply keeps_modify. intros s. apply unseen_kick. Qed.
Hint Resolve keeps_guard_run keeps_singlestep keeps_perf keeps_read_counter keeps_get_regs keeps_kick : keeps.

Context (on_exit : handler S) (Hexit : forall e, keeps I (on_exit e)).

Lemma keeps_land_pass target m stepping : keeps I (land_pass target m on_exit stepping).
Proof. unfold land_pass, arm_period. keep. Qed.
Lemma keeps_land_loop fuel target m : forall stepping, keeps I (land_loop fuel target m on_exit stepping).
Proof. induction fuel as [|fuel IH]; intros stepping; cbn [land_loop]; [keep|]. apply keeps_bind; [apply keeps_land_pass|]. intros []; keep. Qed.
Lemma keeps_land_at fuel target m : keeps I (land_at fuel target m on_exit).
Proof. unfold land_at. apply keeps_bind; [apply keeps_land_loop|]. intros [r st]. keep. Qed.
Lemma keeps_step_loop fuel : keeps I (step_loop fuel on_exit).
Proof. induction fuel as [|fuel IH]; cbn [step_loop]; keep. Qed.
Lemma keeps_step_one fuel : keeps I (step_one_entry fuel on_exit).
Proof. pose proof keeps_step_loop. unfold step_one_entry. keep. Qed.
End Engine.

Section Injects.
Context {S : Type} `{!Vcpu S} (I : S -> Prop) `{!Unseen I} (on_exit : handler S) (Hexit : forall e, keeps I (on_exit e)).
Lemma keeps_deferring e : keeps I (deferring on_exit e).
Proof. destruct e; cbn; first [apply keeps_pass|apply Hexit]. Qed.
Lemma keeps_queue v : keeps I (queue_interrupt v).
Proof. unfold queue_interrupt. destruct (v <? 32); [keep|]. apply keeps_map_err, keeps_io. intros s. apply unseen_interrupt. Qed.
Lemma keeps_inject_loop budget : forall fuel v at_ m n current stepped,
  keeps I (inject_loop budget fuel v at_ m n on_exit current stepped).
Proof.
  pose proof keeps_queue. pose proof (keeps_land_at I (deferring on_exit) keeps_deferring).
  induction budget as [|budget IH]; intros; cbn [inject_loop]; keep.
Qed.
Lemma keeps_inject fuel v at_ m n : keeps I (inject_at_boundary fuel v at_ m n on_exit).
Proof. apply keeps_inject_loop. Qed.
End Injects.

(** ** Segments *)

Section Segments.
Context {B : Blake3} {S : Type} `{!Vcpu S, !VcpuGets S, !SlotMem S, !TscClock S}.
Context (W I : S -> Prop) (HW : forall s, I s -> W s) `{!Unseen I, !UnseenTsc I} (fuel : nat) (rq : Request S).
(** The property beside the locals. *)
Definition beside {L} (P : S -> Prop) (w : S * L) : Prop := P w.1.

Lemma keeps_lift {L E A} (m : prog S E A) : keeps I m -> keeps (beside (L := L) I) (RunCtl.lift m).
Proof. intros H [s l] o w' Hs. unfold RunCtl.lift. cbn. destruct (m s) as [[o1 s1]|] eqn:Hm; [|done]. intros [= _ <-]. by eapply H. Qed.
Lemma keeps_ok_lift {L E A} (m : prog S E A) : keeps_ok W I m -> keeps_ok (beside (L := L) W) (beside (L := L) I) (RunCtl.lift m).
Proof.
  intros H [s l] o w' Hs. unfold RunCtl.lift. cbn. destruct (m s) as [[o1 s1]|] eqn:Hm; [|done]. intros [= <- <-].
  specialize (H _ _ _ Hs Hm). by destruct o1.
Qed.
Lemma keeps_locals {L E} : keeps (beside (L := L) I) (locals (E := E)).
Proof. by intros w o w' Hw [= <- <-]. Qed.
Lemma keeps_update {L E} (f : L -> L) : keeps (beside (L := L) I) (update (E := E) f).
Proof. by apply keeps_modify. Qed.
Lemma keeps_ask {L E A} (f : S -> A * S) : (forall s, I s -> I (f s).2) -> keeps (beside (L := L) I) (ask (E := E) f).
Proof. intros H [s l] o w' Hs. unfold ask. cbn. specialize (H s Hs). destruct (f s). by intros [= _ <-]. Qed.
#[local] Instance Unseen_captured {L} : Unseen (beside (L := L) I).
Proof.
  constructor; intros; destruct s as [s l]; unfold beside in *; cbn in *.
  - pose proof (unseen_run s H). unfold on_fst. cbn. by destruct (kvm_run s).
  - pose proof (unseen_debug c s H). unfold on_fst. cbn. by destruct (kvm_set_guest_debug c s).
  - pose proof (unseen_interrupt v s H). unfold on_fst. cbn. by destruct (kvm_interrupt v s).
  - by apply unseen_kick.
  - pose proof (unseen_perf c s H). unfold on_fst. cbn. by destruct (perf_ioctl c s).
Qed.

(** The callers' closures: only the epoch sink may spoil [I], and only when it fails. *)
Record sinks_keep : Prop := {
  sk_goal : forall s, I s -> I (goal (sinks rq) s).2;
  sk_pause : forall s, I s -> I (pause (seg rq) s).2;
  sk_exit : forall e, keeps I (on_exit (sinks rq) e);
  sk_input : forall i b, keeps I (input_sink (sinks rq) i b);
  sk_frame : forall f, keeps I (frame_sink (sinks rq) f);
  sk_live : forall f b, keeps I (live_input_sink (sinks rq) f b);
  sk_epoch : forall i b v c, keeps_ok W I (epoch_sink (sinks rq) i b v c) }.
Context (Hs : sinks_keep).
Local Notation J := (beside (L := Run) I).
Local Notation JW := (beside (L := Run) W).
Lemma ok_kept {E A} (m : prog (S * Run) E A) : keeps J m -> keeps_ok JW J m.
Proof. apply keeps_is_ok. intros w. apply HW. Qed.
Hint Resolve keeps_lift keeps_ok_lift keeps_locals keeps_update keeps_ask sk_goal sk_pause sk_exit sk_input sk_frame sk_live sk_epoch
  : keeps.

Lemma keeps_apply_frame_inputs frame icount l : forall slot, keeps J (apply_frame_inputs rq frame icount slot l).
Proof. induction l as [|x l IH]; intros slot; cbn [apply_frame_inputs]; keep. Qed.
Lemma keeps_on_frame frame : keeps J (on_frame rq frame).
Proof. pose proof keeps_apply_frame_inputs. unfold on_frame. keep. Qed.
Lemma keeps_check_feed fd : keeps J (check_feed fd).
Proof. intros w o w' Hw. unfold check_feed. destruct fd as [[c b]|]; [destruct (b <? c w.1)|]; by intros [= _ <-]. Qed.
Lemma keeps_exits fd e : keeps J (exits rq fd e).
Proof. pose proof keeps_on_frame. pose proof keeps_check_feed. unfold exits. keep. Qed.
Lemma keeps_push_here icount vns : keeps J (push_here rq icount vns).
Proof. intros w o w' Hw. unfold push_here. cbn zeta. destruct (push_final_link _ _ _ _ _); by intros [= _ <-]. Qed.
Lemma keeps_outcome_now why b vns : keeps J (outcome_now why b vns).
Proof. unfold outcome_now. keep. Qed.
Lemma keeps_finish why b vns h : keeps J (finish rq why b vns h).
Proof. pose proof keeps_push_here. pose proof keeps_outcome_now. unfold finish. keep. Qed.
Lemma keeps_clock icount : keeps J (clock_now rq icount).
Proof. apply keeps_outcome. Qed.
Lemma keeps_finish_at_counter why : keeps J (finish_at_counter rq why).
Proof. pose proof keeps_finish. pose proof keeps_clock. unfold finish_at_counter. keep. Qed.
Lemma keeps_unwind {E A} (m : prog (S * Run) E A) wrap next :
  keeps J m -> (forall a, keeps_ok JW J (next a)) -> keeps_ok JW J (unwind_or rq m wrap next).
Proof.
  intros Hm Hn. pose proof keeps_finish_at_counter. unfold unwind_or.
  apply keeps_ok_bind; [by apply ok_kept, keeps_reify|]. intros [a|e|]; [done| |apply ok_kept, keeps_crash].
  apply ok_kept. keep.
Qed.

Context (pl : Plan S).
Lemma keeps_land_inputs b inputs next : (forall v, keeps_ok JW J (next v)) ->
  forall vectors, keeps_ok JW J (land_inputs rq b inputs vectors next).
Proof.
  intros Hn. induction inputs as [|i inputs IH]; intros vectors; cbn [land_inputs]; [done|].
  apply keeps_unwind; [apply keeps_lift, sk_input, Hs|]. intros queued. apply IH.
Qed.
Lemma keeps_deliver vectors next : (forall b, keeps_ok JW J (next b)) ->
  forall first at_, keeps_ok JW J (deliver fuel rq pl first vectors at_ next).
Proof.
  intros Hn. pose proof (keeps_exits (feed pl)) as He.
  induction vectors as [|[v idx] vectors IH]; intros first at_; cbn [deliver]; [done|].
  assert (forall at_, keeps_ok JW J (unwind_or rq (inject_at_boundary fuel v at_ (margins rq) INJECT_DEFER_BUDGET (exits rq (feed pl)))
    RunInject (fun inj => _ ← update count_delivery;
          _ ← (if bool_decide (timer_slot pl = idx) then
                 match seg_timer (seg rq) with
                 | Some t => update (set_fired (mkTimerFired (inj_vector inj) (deadline_vns t) (delivered_icount inj)))
                 | None => crash
                 end
               else pass);
          deliver fuel rq pl false vectors (mkBoundary (delivered_icount inj) (delivered_rip inj) (b_rcx at_)) next))) as Hi.
  { intros at0. apply keeps_unwind; [apply (keeps_inject J); exact He|]. intros inj.
    apply keeps_ok_bind; [apply ok_kept, keeps_update|intros _]. apply keeps_ok_bind; [|intros _; apply IH].
    apply ok_kept. keep. }
  destruct first; [apply Hi|]. apply keeps_unwind; [apply (keeps_step_one J); exact He|apply Hi].
Qed.
Lemma keeps_roll_forward icount : keeps_ok JW J (roll_forward fuel rq pl icount).
Proof.
  pose proof (keeps_exits (feed pl)) as He. pose proof keeps_push_here. pose proof keeps_outcome_now. pose proof keeps_clock.
  unfold roll_forward. destruct (_ <? _); [apply ok_kept, keeps_crash|].
  apply keeps_unwind; [apply (keeps_land_at J); exact He|]. intros b.
  apply keeps_ok_bind; [by apply ok_kept|intros vns]. apply keeps_ok_bind; [by apply ok_kept|intros _].
  apply keeps_ok_bind; [apply ok_kept, keeps_locals|intros r]. apply keeps_ok_bind; [|intros _; by apply ok_kept].
  destruct (epoch_hashes_enabled rq); [|apply ok_kept, keeps_pass]. apply keeps_ok_lift, keeps_ok_map_err, sk_epoch, Hs.
Qed.
Lemma keeps_close_point point b at_ ck next : keeps_ok JW J next -> keeps_ok JW J (close_point fuel rq pl point b at_ ck next).
Proof.
  intros Hn. pose proof keeps_push_here. pose proof keeps_outcome_now. pose proof keeps_clock. pose proof keeps_finish.
  pose proof keeps_roll_forward. unfold close_point.
  apply keeps_ok_bind; [by apply ok_kept|intros vns]. cbn zeta. apply keeps_ok_bind.
  { destruct (_ && _); [|apply ok_kept, keeps_pass]. apply keeps_ok_bind; [by apply ok_kept|intros _].
    apply keeps_ok_bind; [apply ok_kept, keeps_locals|intros r]. apply keeps_ok_lift, keeps_ok_map_err, sk_epoch, Hs. }
  intros _. apply keeps_ok_bind.
  { apply ok_kept. destruct (sp_goal_poll point); [apply keeps_ask, sk_goal, Hs|apply keeps_ret]. }
  intros [|]; [by apply ok_kept|]. destruct (sp_final_stop point); [by apply ok_kept|].
  apply keeps_ok_bind; [apply ok_kept, keeps_ask, sk_pause, Hs|]. intros [|]; [|done].
  destruct (sp_epoch_hash point); [by apply ok_kept|done].
Qed.
Lemma keeps_walk n : forall agenda, keeps_ok JW J (walk fuel rq pl n agenda).
Proof.
  pose proof (keeps_exits (feed pl)) as He.
  induction n as [|n IH]; intros agenda; cbn [walk]; [apply ok_kept, keeps_spin|].
  destruct (AgendaIter_next agenda) as [[point agenda']|]; [|apply ok_kept, keeps_crash]. unfold at_point.
  apply keeps_unwind; [apply (keeps_land_at J); exact He|]. intros b. apply keeps_land_inputs. intros queued.
  destruct (injection_vectors pl _) as [pre|]; [|apply ok_kept, keeps_crash]. cbn zeta.
  apply keeps_deliver. intros at_. by apply keeps_close_point.
Qed.
End Segments.

Section Segment.
Context {B : Blake3} {S : Type} `{!Vcpu S, !VcpuGets S, !SlotMem S, !TscClock S}.
Context (W I : S -> Prop) (HW : forall s, I s -> W s) `{!Unseen I, !UnseenTsc I} (fuel : nat) (rq : Request S).

Lemma keeps_set_tsc v : keeps I (set_tsc_value_with_offset v).
Proof.
  intros s o s' Hi. unfold set_tsc_value_with_offset, set_tsc_offset, io. pose proof (unseen_rdtsc s Hi) as H.
  destruct (rdtsc s) as [t s1]. cbn in H. intros [= Hk]. pose proof (unseen_tsc (to_u64 (to_u64 (v - t))) s1 H) as Hr. by rewrite Hk in Hr.
Qed.

(** A segment keeps what its closures keep. *)
Lemma segment_keeps : sinks_keep W I rq -> forall s c o s' c', I s ->
  run_segment_inner fuel rq (s, c) = Some (o, (s', c')) -> match o with Ok _ => I s' | _ => W s' end.
Proof.
  intros Hs s c out s' c' Hi. unfold run_segment_inner.
  destruct (segment_body fuel rq _) as [[o [s1 r1]]|] eqn:Hb; [|done]. intros [= -> <- <-].
  assert (keeps_ok (beside W) (beside I) (segment_body fuel rq)) as H; [|exact (H (s, run_new rq c) _ _ Hi Hb)].
  pose proof (keeps_clock I rq). pose proof (keeps_finish_at_counter I rq). clear Hb.
  unfold segment_body. apply keeps_ok_bind; [apply (ok_kept W I HW), keeps_lift, keeps_map_err, keeps_observe|intros actual].
  destruct (negb _); [apply (ok_kept W I HW), keeps_throw|]. apply keeps_ok_bind; [by apply (ok_kept W I HW)|intros vns].
  apply keeps_ok_bind; [apply (ok_kept W I HW), keeps_lift, keeps_map_err, keeps_set_tsc|intros _].
  apply keeps_ok_bind; [apply (ok_kept W I HW), keeps_lift, keeps_observe|intros fd].
  destruct (bool_decide _); [by apply (ok_kept W I HW)|].
  apply keeps_ok_bind; [apply (ok_kept W I HW), keeps_outcome|intros [inj slot]].
  apply keeps_ok_bind; [apply (ok_kept W I HW), keeps_outcome|intros agenda]. by apply keeps_walk.
Qed.
End Segment.
