(* ===== verification/Recording.v ===== *)
(** * The device rail: [dh-vmm/src/recording.rs]

    One log segment's devices, log, memory and pending interrupts.  [service_exit]
    answers the guest's exits; the [apply_*] and [log_*] methods pair a device
    change with its record; [seal_rail] ends the segment.  What an exit handler
    writes into the exit's buffer is its [Answer]. *)

From S2P Require Import Prelude Vt DhiLog LogReader LogRoundtrip DevCtx Devices DevicesOk Bus DhSnapSections Lapic Msr Kvm Boundary RunCtl.

Definition stop_reason_u8 (why : StopReason) : Z :=
  match why with
  | BudgetReached => 1
  | GoalSatisfied => 2
  | NextSdkEvent => 3
  | HardCapReached => 4
  | Paused => 5
  | GuestHalted => 6
  end.

Inductive RailDevice := pv_pad | pv_net | pv_clock.
Inductive RecordError :=
| PadRefused (e : Pad.PadError)
| NetRefused (e : Net.NetRxError)
| LogFailed (e : WriteError)
| NoDevice (what : RailDevice)
| UndrainedIrqs (n : nat).

(** The texts of [BoundaryError::Exit]. *)
Inductive RailFault :=
| LapicMmioRead (gpa : Z) (e : LapicError)
| LapicMmioWrite (gpa : Z) (e : LapicError)
| LapicRdmsr (index : Z) (e : LapicError)
| LapicWrmsr (index : Z) (e : LapicError)
| BusRead (gpa : Z) (e : BusError)
| BusWrite (gpa : Z) (e : BusError)
| UnexpectedExit (e : VcpuExit)
| LogFault (e : WriteError).

Inductive Answer :=
| NoAnswer
| Filled (data : bytes)
| MsrError (error : Z)
| MsrValue (data error : Z).

Record DeviceRail {X : AnyChannel} (M E : Type) := mkRail {
  rail_bus : list (Z * BoxDev M E);
  rail_lapic : LocalApic;
  rail_serial : Serial.DebugSerial;
  rail_entropy : E;
  rail_log : LogWriter;
  rail_mem : M;
  rail_irqs : list Z }.
Arguments mkRail {X M E}. Arguments rail_bus {X M E}. Arguments rail_lapic {X M E}. Arguments rail_serial {X M E}.
Arguments rail_entropy {X M E}. Arguments rail_log {X M E}. Arguments rail_mem {X M E}. Arguments rail_irqs {X M E}.

Section Rail.
Context {X : AnyChannel} {M E : Type}.
Local Notation DeviceRail := (DeviceRail M E).

Definition DeviceRail_new (bus : list (Z * BoxDev M E)) (entropy : E) (log : LogWriter) (mem : M) : DeviceRail :=
  mkRail bus LocalApic_default Serial.DebugSerial_new entropy log mem [].

Definition with_lapic (a : LocalApic) (r : DeviceRail) : DeviceRail :=
  mkRail (rail_bus r) a (rail_serial r) (rail_entropy r) (rail_log r) (rail_mem r) (rail_irqs r).
Definition with_serial (s : Serial.DebugSerial) (r : DeviceRail) : DeviceRail :=
  mkRail (rail_bus r) (rail_lapic r) s (rail_entropy r) (rail_log r) (rail_mem r) (rail_irqs r).
Definition with_log (w : LogWriter) (r : DeviceRail) : DeviceRail :=
  mkRail (rail_bus r) (rail_lapic r) (rail_serial r) (rail_entropy r) w (rail_mem r) (rail_irqs r).
Definition with_irqs (q : list Z) (r : DeviceRail) : DeviceRail :=
  mkRail (rail_bus r) (rail_lapic r) (rail_serial r) (rail_entropy r) (rail_log r) (rail_mem r) q.
Definition with_device (bus : list (Z * BoxDev M E)) (m : M) (r : DeviceRail) : DeviceRail :=
  mkRail bus (rail_lapic r) (rail_serial r) (rail_entropy r) (rail_log r) m (rail_irqs r).
(** The fields the context of an exit borrows. *)
Definition rail_ctx (icount : Z) (r : DeviceRail) : DevCtx M E :=
  DevCtx_new icount 0 (rail_log r) (rail_mem r) (rail_entropy r) (rail_irqs r).
Definition with_ctx (bus : list (Z * BoxDev M E)) (c : DevCtx M E) (r : DeviceRail) : DeviceRail :=
  mkRail bus (rail_lapic r) (rail_serial r) (ctx_entropy c) (ctx_log c) (ctx_mem c) (irq_queue c).

(** ** Exits *)

Definition serial_port (port : Z) : bool := (PIO_SERIAL_BASE <=? port) && (port <? PIO_SERIAL_BASE + PIO_SERIAL_LEN).

(** The result, what the guest sees, and the rail. *)
Definition exit_result : Type := outcome RailFault unit * Answer * DeviceRail.

(** The last check of [service_exit]. *)
Definition check_log (fault : option WriteError) (a : Answer) (r : DeviceRail) : exit_result :=
  match fault with Some e => (Err (LogFault e), a, r) | None => (Ok tt, a, r) end.

Definition service_exit (icount : Z) (e : VcpuExit) (r : DeviceRail) : exit_result :=
  let ctx := rail_ctx icount r in
  match e with
  | IoOut port data =>
      if serial_port port then check_log (log_fault ctx) NoAnswer (with_serial (Serial.pio_write port data (rail_serial r)) r)
      else check_log (log_fault ctx) NoAnswer r
  | IoIn port len =>
      if serial_port port then check_log (log_fault ctx) (Filled (Serial.pio_read port len (rail_serial r))) r
      else check_log (log_fault ctx) (Filled (zeros len)) r
  | MmioRead gpa len =>
      if contains_mmio gpa then
        match read_mmio (rail_lapic r) gpa len with
        | Ok data => check_log (log_fault ctx) (Filled data) r
        | Err e => (Err (LapicMmioRead gpa e), NoAnswer, r)
        | Panic => (Panic, NoAnswer, r)
        end
      else
        match Bus.read gpa len ctx (rail_bus r) with
        | (Ok data, bus, ctx) => check_log (log_fault ctx) (Filled data) (with_ctx bus ctx r)
        | (Err e, bus, ctx) => (Err (BusRead gpa e), NoAnswer, with_ctx bus ctx r)
        | (Panic, bus, ctx) => (Panic, NoAnswer, with_ctx bus ctx r)
        end
  | MmioWrite gpa data =>
      if contains_mmio gpa then
        match write_mmio gpa data (rail_lapic r) with
        | (Ok _, a) => check_log (log_fault ctx) NoAnswer (with_lapic a r)
        | (Err e, a) => (Err (LapicMmioWrite gpa e), NoAnswer, with_lapic a r)
        | (Panic, a) => (Panic, NoAnswer, with_lapic a r)
        end
      else
        match Bus.write gpa data ctx (rail_bus r) with
        | (Ok _, bus, ctx) => check_log (log_fault ctx) NoAnswer (with_ctx bus ctx r)
        | (Err e, bus, ctx) => (Err (BusWrite gpa e), NoAnswer, with_ctx bus ctx r)
        | (Panic, bus, ctx) => (Panic, NoAnswer, with_ctx bus ctx r)
        end
  | X86Rdmsr index =>
      if is_lapic_msr index then
        match read_msr (rail_lapic r) index with
        | Ok value => check_log (log_fault ctx) (MsrValue value 0) r
        | Err e => (Err (LapicRdmsr index e), MsrError 1, r)
        | Panic => (Panic, NoAnswer, r)
        end
      else
        match on_denied_rdmsr index with
        | SupplyValue value => check_log (log_fault ctx) (MsrValue value 0) r
        | AckWrite | InjectGp => check_log (log_fault ctx) (MsrError 1) r
        end
  | X86Wrmsr index data =>
      if is_lapic_msr index then
        match write_msr index data (rail_lapic r) with
        | (Ok _, a) => check_log (log_fault ctx) (MsrError 0) (with_lapic a r)
        | (Err e, a) => (Err (LapicWrmsr index e), MsrError 1, with_lapic a r)
        | (Panic, a) => (Panic, NoAnswer, with_lapic a r)
        end
      else
        match on_denied_wrmsr index with
        | SupplyValue _ | AckWrite => check_log (log_fault ctx) (MsrError 0) r
        | InjectGp => check_log (log_fault ctx) (MsrError 1) r
        end
  | other => (Err (UnexpectedExit other), NoAnswer, r)
  end.

(** ** Reaching a concrete device *)

Definition downcast {T} (tag : AnyId T) (b : BoxDev M E) : option (T * (T -> BoxDev M E)) :=
  a ← box_any b;
  eq ← same_type a tag;
  Some (eq_rect _ (fun U => U) (box_val b) _ eq,
        fun v => mkBox (box_ty b) (box_dev b) (box_any b) (eq_rect_r (fun U => U) v eq)).

Fixpoint find_id (id : Z) (bus : list (Z * BoxDev M E)) : option nat :=
  match bus with
  | [] => None
  | (_, dev) :: bus => if box_id dev =? id then Some 0%nat else S <$> find_id id bus
  end.

(** [device_mut], and what the caller does with the reference; guest memory is
    borrowed beside it. *)
Definition device_mut {T A} (tag : AnyId T) (id : Z) (what : RailDevice)
    (f : T -> M -> outcome RecordError A * M * T) : method DeviceRail RecordError A := fun r =>
  match (i ← find_id id (rail_bus r); e ← rail_bus r !! i; d ← downcast tag e.2; Some (i, e.1, d)) with
  | None => (Err (NoDevice what), r)
  | Some (i, base, (v, put)) =>
      let '(o, m, v) := f v (rail_mem r) in (o, with_device (<[i := (base, put v)]> (rail_bus r)) m r)
  end.

(** A writer call on the rail's log. *)
Definition rail_record (call : method LogWriter WriteError unit) : method DeviceRail RecordError unit := fun r =>
  let '(o, w) := call (rail_log r) in (err_map LogFailed o, with_log w r).

Definition push_vector (v : option Z) : method DeviceRail RecordError unit := fun r =>
  (Ok tt, match v with Some v => with_irqs (rail_irqs r ++ [v]) r | None => r end).

(** ** Canonical inputs *)

Definition apply_pad_set (icount boundary_rip port buttons frame_hint : Z) : method DeviceRail RecordError (option Z) :=
  vector ← device_mut AnyPad Pad.DEVICE_ID_PV_PAD pv_pad (fun pad m =>
    let '(o, pad) := Pad.apply_pad_set port buttons pad in (err_map PadRefused o, m, pad));
  _ ← rail_record (pad_set icount boundary_rip port buttons frame_hint);
  _ ← push_vector vector;
  mret vector.

Definition apply_net_rx `{!GuestMem M} (icount boundary_rip : Z) (frame : bytes) : method DeviceRail RecordError (option Z) :=
  vector ← device_mut AnyNet Net.DEVICE_ID_PV_NET pv_net (fun net m =>
    let '(o, m, net) := Net.apply_net_rx frame m net in (err_map NetRefused o, m, net));
  _ ← rail_record (net_rx icount boundary_rip frame);
  _ ← push_vector vector;
  mret vector.

Definition apply_dev_event (icount boundary_rip device_id event_type : Z) (payload : bytes) :
    method DeviceRail RecordError (option Z) :=
  _ ← rail_record (dev_event icount boundary_rip device_id event_type payload);
  mret None.

(** The frame of a transmit that just succeeded. *)
Definition drain_net_tx `{!GuestMem M} : method DeviceRail RecordError (option bytes) :=
  regs ← device_mut AnyNet Net.DEVICE_ID_PV_NET pv_net (fun net m => (Ok (Net.tx_regs net), m, net));
  let '(gpa, len, status) := regs : Z * Z * Z in
  if negb (status =? Net.STATUS_OK) || (len =? 0) then mret None
  else if Net.MAX_FRAME <? len then (fun r => (Err (NetRefused Net.FrameTooBig), r))
  else fun r =>
    match mem_read (rail_mem r) gpa (zeros (Z.to_nat len)) with
    | (true, frame) => (Ok (Some frame), r)
    | (false, _) => (Err (NetRefused Net.MemFault), r)
    end.

(** ** AUX records *)

Definition log_timer_fired (icount boundary_rip : Z) (fired : TimerFired) : method DeviceRail RecordError unit :=
  _ ← device_mut AnyClock Clock.DEVICE_ID_PV_CLOCK pv_clock (fun clk m => (Ok tt, m, Clock.disarm clk));
  rail_record (timer_fire icount boundary_rip (tf_vector fired) (armed_deadline_vns fired) (tf_delivered_icount fired)).

Definition set_clock_vns_base (vns : Z) : method DeviceRail RecordError unit :=
  device_mut AnyClock Clock.DEVICE_ID_PV_CLOCK pv_clock (fun clk m => (Ok tt, m, Clock.set_vns_base vns clk)).

Definition log_epoch_hash (epoch_index icount : Z) (chain_value : bytes) : method DeviceRail RecordError unit :=
  rail_record (epoch_hash icount 0 epoch_index chain_value).

Definition log_bisection_checkpoint (icount boundary_rip max_covered_gap : Z) (checkpoint_snapshot_ref : bytes)
    (checkpoint_vns : Z) : method DeviceRail RecordError unit :=
  rail_record (bisection_checkpoint icount boundary_rip max_covered_gap checkpoint_snapshot_ref checkpoint_vns).

(** ** Sealing *)

Definition seal_params (outcome : SegmentOutcome) (end_snapshot_id : bytes) : SealParams :=
  mkSealParams end_snapshot_id (b_icount (boundary outcome)) (vns outcome) (state_hash outcome)
    (stop_reason_u8 (reason outcome)).
Definition seal_rail {B : Blake3} (o : SegmentOutcome) (end_snapshot_id : bytes) (r : DeviceRail) : outcome RecordError bytes :=
  match rail_irqs r with
  | [] => err_map LogFailed (seal (seal_params o end_snapshot_id) (rail_log r))
  | q => Err (UndrainedIrqs (length q))
  end.
End Rail.
