(* ===== verification/ProtoMap.v ===== *)
(** * Wire messages: [dh-worker/src/proto_map.rs]

    The bridges between the domain types and the messages of
    [proto/hypervisor.proto].  A message is the record of its fields; an open
    enum is its wire number. *)

From Stdlib Require Import String.
From S2P Require Import Prelude Vt SlotState SlotManager Status Config RunCtl Recording.
Local Open Scope string_scope.
Local Open Scope list_scope.
Local Open Scope Z_scope.

(** ** Enums and introspection rows *)

Definition slot_state_to_proto (s : SlotState) : Z :=
  match s with Empty => 1 | SlotState.Paused => 2 | Running => 3 | Frozen => 4 | Faulted => 5 end.
Definition stop_reason_to_proto (r : StopReason) : Z :=
  match r with
  | BudgetReached => 1
  | GoalSatisfied => 2
  | NextSdkEvent => 3
  | HardCapReached => 4
  | RunCtl.Paused => 5
  | GuestHalted => 6
  end.

Definition lease_to_proto (l : Lease) : WireLease := mkWireLease (slot_id l) (token l).

Record WireSlotInfo := mkWireSlotInfo { wi_slot_id : nat; wi_state : Z; wi_icount : Z; wi_base : option bytes; wi_live_children : Z }.
Definition slot_info_to_proto (i : SlotInfo) : WireSlotInfo :=
  mkWireSlotInfo (si_slot_id i) (slot_state_to_proto (si_state i)) (SlotManager.si_icount i) (si_base_snapshot_id i) (si_live_children i).

(** ** Fork seeds *)

Inductive ForkRequestWireError := EntropySeedCountMismatch (count : Z) (seeds : nat) | BadEntropySeed (index len : nat).

(** The seed of one child; an all-zero entry continues the fork point's stream. *)
Definition fork_seed (index : nat) (seed : bytes) : outcome ForkRequestWireError (option bytes) :=
  if (length seed =? 32)%nat then Ok (if bool_decide (seed = replicate 32 0) then None else Some seed)
  else Err (BadEntropySeed index (length seed)).
Fixpoint fork_seeds (index : nat) (seeds : list bytes) : outcome ForkRequestWireError (list (option bytes)) :=
  match seeds with
  | [] => Ok []
  | s :: seeds => s ← fork_seed index s; rest ← fork_seeds (S index) seeds; Ok (s :: rest)
  end.
Definition fork_entropy_seeds_from_proto (count : Z) (entropy_seeds : list bytes) : outcome ForkRequestWireError (list (option bytes)) :=
  match entropy_seeds with
  | [] => Ok (replicate (Z.to_nat count) None)
  | _ =>
      if (length entropy_seeds =? Z.to_nat count)%nat then fork_seeds 0 entropy_seeds
      else Err (EntropySeedCountMismatch count (length entropy_seeds))
  end.

(** ** The machine configuration *)

Inductive WireBoot := WireElf (kernel_hash cmdline : bytes) | WireBzimage (kernel_hash initramfs_hash cmdline : bytes).
(** [boot] is absent when the message or its [oneof] is. *)
Record WireConfig := mkWireConfig {
  wc_version : Z;
  wc_mem_bytes : Z;
  wc_vcpus : Z;
  wc_clock_num : Z;
  wc_clock_den : Z;
  wc_base_image_hash : bytes;
  wc_boot : option WireBoot;
  wc_epoch_len : Z;
  wc_hash_epochs : Z;
  wc_skid_margin : Z;
  wc_cpuid_table : list CpuidLeaf;
  wc_device_set : list Z }.

Inductive MachineConfigWireError :=
| MissingBoot
| BadHash (field : string) (len : nat)
| BadHashEpochs (v : Z)
| BadDeviceId (id : Z)
| ZeroClockTerm
| InvalidConfig (e : ConfigError).

Definition hash32 (field : string) (b : bytes) : outcome MachineConfigWireError bytes :=
  if (length b =? 32)%nat then Ok b else Err (BadHash field (length b)).

(** [expect] on the canonical command line. *)
Definition boot_spec_to_proto (b : BootSpec) : outcome MachineConfigWireError WireBoot :=
  match b with
  | Elf kernel_hash cmdline => Ok (WireElf kernel_hash cmdline)
  | BzImage kernel_hash initramfs_hash cmdline =>
      match bzimage_cmdline_extras_from_canonical cmdline with
      | Ok extras => Ok (WireBzimage kernel_hash initramfs_hash extras)
      | _ => Panic
      end
  end.
Definition machine_config_to_proto (c : MachineConfig) : outcome MachineConfigWireError WireConfig :=
  b ← boot_spec_to_proto (boot c);
  Ok (mkWireConfig (version c) (mem_bytes c) (vcpus c) (clock_num (clock c)) (clock_den (clock c)) (base_image_hash c) (Some b)
        (epoch_len c) (match hash_epochs c with EpochsOn => 1 | FinalOnly => 2 end) (cfg_skid_margin c) (cpuid_table c) (device_set c)).

Definition boot_from_proto (b : WireBoot) : outcome MachineConfigWireError BootSpec :=
  match b with
  | WireElf kernel cmdline => k ← hash32 "boot.elf.kernel_hash" kernel; Ok (Elf k cmdline)
  | WireBzimage kernel initramfs cmdline =>
      k ← hash32 "boot.bzimage.kernel_hash" kernel;
      i ← hash32 "boot.bzimage.initramfs_hash" initramfs;
      c ← err_map InvalidConfig (canonicalize_bzimage_cmdline_extras cmdline);
      Ok (BzImage k i c)
  end.
Definition device_id_from_proto (id : Z) : outcome MachineConfigWireError Z :=
  if id <=? u16_max then Ok id else Err (BadDeviceId id).
Definition machine_config_from_proto (w : WireConfig) : outcome MachineConfigWireError MachineConfig :=
  ratio ← ok_or ZeroClockTerm (ClockRatio_new (wc_clock_num w) (wc_clock_den w));
  wire_boot ← ok_or MissingBoot (wc_boot w);
  b ← boot_from_proto wire_boot;
  epochs ← (if wc_hash_epochs w =? 1 then Ok EpochsOn
            else if wc_hash_epochs w =? 2 then Ok FinalOnly
            else Err (BadHashEpochs (wc_hash_epochs w)));
  devices ← mapM device_id_from_proto (wc_device_set w);
  base ← hash32 "base_image_hash" (wc_base_image_hash w);
  let out := mkConfig (wc_version w) (wc_mem_bytes w) (wc_vcpus w) ratio base b (wc_epoch_len w) epochs (wc_skid_margin w)
               DEFAULT_RESYNC_SLACK (wc_cpuid_table w) devices in
  _ ← err_map InvalidConfig (validate out);
  Ok out.

(** ** Enums and leases cross unchanged *)

Lemma slot_state_to_proto_inj s t : slot_state_to_proto s = slot_state_to_proto t -> s = t.
Proof. by destruct s, t. Qed.
Lemma slot_state_specified s : 1 <= slot_state_to_proto s <= 5.
Proof. destruct s; cbn; lia. Qed.
(** The log's END byte is the wire number. *)
Lemma stop_reason_wire_number r : stop_reason_to_proto r = stop_reason_u8 r.
Proof. by destruct r. Qed.
Lemma lease_roundtrip l : length (token l) = 16%nat -> lease_from_proto (Some (lease_to_proto l)) = Ok l.
Proof. intros H. unfold lease_from_proto, exact_bytes. cbn. rewrite H. by destruct l. Qed.

(** ** Fork seeds *)

Lemma fork_seeds_ok i seeds l :
  fork_seeds i seeds = Ok l <->
  Forall (fun s => length s = 32%nat) seeds /\ l = (fun s => if bool_decide (s = replicate 32 0) then None else Some s) <$> seeds.
Proof.
  revert i l; induction seeds as [|s seeds IH]; intros i l; cbn [fork_seeds]; [naive_solver|].
  unfold fork_seed. destruct (length s =? 32)%nat eqn:E; cbn.
  - apply Nat.eqb_eq in E. split.
    + intros (rest & [Hf ->]%IH & [= <-])%bind_ok. by repeat constructor.
    + intros [Hf ->]. inversion Hf; subst. by rewrite (proj2 (IH (S i) _) (conj H2 eq_refl)).
  - apply Nat.eqb_neq in E. split; [done|]. intros [Hf _]. by inversion Hf.
Qed.

(** ** The configuration crosses exactly *)

Lemma device_id_ok id id' : device_id_from_proto id = Ok id' <-> id' = id /\ id <= u16_max.
Proof. unfold device_id_from_proto. destruct (Z.leb_spec id u16_max); split; try done; [by intros [= <-]|by intros [-> _]|lia]. Qed.
Lemma mapM_devices l l' : mapM device_id_from_proto l = Ok l' <-> l' = l /\ Forall (fun id => id <= u16_max) l.
Proof.
  revert l'; induction l as [|id l IH]; intros l'; simpl.
  { split; [by intros [= <-]|by intros [-> _]]. }
  split.
  - intros (id' & [-> Hid]%device_id_ok & H)%bind_ok. apply bind_ok in H as (rest & [-> Hf]%IH & [= <-]). by repeat constructor.
  - intros [-> Hf]. inversion Hf; subst. rewrite (proj2 (device_id_ok id id)) by done. simpl. by rewrite (proj2 (IH l)).
Qed.
Lemma hash32_ok field b h : hash32 field b = Ok h <-> h = b /\ length b = 32%nat.
Proof. unfold hash32. destruct (length b =? 32)%nat eqn:E; [apply Nat.eqb_eq in E|apply Nat.eqb_neq in E]; naive_solver. Qed.
Lemma err_map_ok_iff {E E' A} (f : E -> E') (o : outcome E A) a : err_map f o = Ok a <-> o = Ok a.
Proof. destruct o; cbn; naive_solver. Qed.

(** What reading a message off the wire gives. *)
Definition wire_epochs (h : HashEpochs) : Z := match h with EpochsOn => 1 | FinalOnly => 2 end.
Record describes_config (w : WireConfig) (c : MachineConfig) : Prop := {
  dc_fields : version c = wc_version w /\ mem_bytes c = wc_mem_bytes w /\ vcpus c = wc_vcpus w /\ epoch_len c = wc_epoch_len w /\
    cfg_skid_margin c = wc_skid_margin w /\ cpuid_table c = wc_cpuid_table w /\ device_set c = wc_device_set w;
  dc_clock : clock c = mkClockRatio (wc_clock_num w) (wc_clock_den w) /\ wc_clock_num w <> 0 /\ wc_clock_den w <> 0;
  dc_base : base_image_hash c = wc_base_image_hash w /\ length (wc_base_image_hash w) = 32%nat;
  dc_epochs : wc_hash_epochs w = wire_epochs (hash_epochs c);
  dc_devices : Forall (fun id => id <= u16_max) (wc_device_set w);
  dc_slack : cfg_resync_slack c = DEFAULT_RESYNC_SLACK;
  dc_boot : match wc_boot w with
    | Some (WireElf k l) => boot c = Elf k l /\ length k = 32%nat
    | Some (WireBzimage k i extras) =>
        exists l, boot c = BzImage k i l /\ canonicalize_bzimage_cmdline_extras extras = Ok l /\ length k = 32%nat /\ length i = 32%nat
    | None => False
    end;
  dc_valid : validate c = Ok tt }.

Lemma boot_from_proto_ok w b :
  boot_from_proto w = Ok b <->
  match w with
  | WireElf k l => b = Elf k l /\ length k = 32%nat
  | WireBzimage k i extras =>
      exists l, b = BzImage k i l /\ canonicalize_bzimage_cmdline_extras extras = Ok l /\ length k = 32%nat /\ length i = 32%nat
  end.
Proof.
  destruct w as [k l|k i extras]; cbn [boot_from_proto].
  - split.
    + intros (k' & [-> ?]%hash32_ok & [= <-])%bind_ok. done.
    + intros [-> H]. by rewrite (proj2 (hash32_ok _ k k) (conj eq_refl H)).
  - split.
    + intros (k' & [-> Hk]%hash32_ok & H)%bind_ok. apply bind_ok in H as (i' & [-> Hi]%hash32_ok & H).
      apply bind_ok in H as (l & Hl%err_map_ok_iff & [= <-]). by exists l.
    + intros (l & -> & Hl & Hk & Hi). rewrite (proj2 (hash32_ok _ k k) (conj eq_refl Hk)). cbn.
      rewrite (proj2 (hash32_ok _ i i) (conj eq_refl Hi)). cbn. by rewrite Hl.
Qed.

Lemma from_proto_ok w c : machine_config_from_proto w = Ok c <-> describes_config w c.
Proof.
  unfold machine_config_from_proto, ClockRatio_new. split.
  - intros (r & Hr & H)%bind_ok. apply bind_ok in H as (wb & Hwb & H). apply bind_ok in H as (b & Hb%boot_from_proto_ok & H).
    apply bind_ok in H as (ep & Hep & H). apply bind_ok in H as (ds & [-> Hds]%mapM_devices & H).
    apply bind_ok in H as (base & [-> Hbase]%hash32_ok & H). apply bind_ok in H as ([] & Hv%err_map_ok_iff & [= <-]).
    destruct (wc_boot w) as [wb'|] eqn:Ew; [|done]. injection Hwb as <-.
    destruct (negb (wc_clock_num w =? 0) && negb (wc_clock_den w =? 0)) eqn:Ec; [|done]. injection Hr as <-.
    split; cbn; try done; [split; [done|lia]| |by rewrite Ew].
    destruct (wc_hash_epochs w =? 1) eqn:E1; [injection Hep as <-; cbn; lia|].
    destruct (wc_hash_epochs w =? 2) eqn:E2; [injection Hep as <-; cbn; lia|done].
  - intros [(Hf1 & Hf2 & Hf3 & Hf4 & Hf5 & Hf6 & Hf7) (Hc1 & Hc2 & Hc3) [Hb1 Hb2] He Hd Hs Hb Hv].
    assert (negb (wc_clock_num w =? 0) && negb (wc_clock_den w =? 0) = true) as -> by lia. cbn [ok_or mbind outcome_bind].
    destruct (wc_boot w) as [wb|]; [|done]. cbn [ok_or mbind outcome_bind]. apply boot_from_proto_ok in Hb as ->. cbn [mbind outcome_bind].
    assert ((if wc_hash_epochs w =? 1 then Ok EpochsOn else if wc_hash_epochs w =? 2 then Ok FinalOnly
             else Err (BadHashEpochs (wc_hash_epochs w))) = Ok (hash_epochs c)) as -> by (rewrite He; by destruct (hash_epochs c)).
    cbn [mbind outcome_bind]. rewrite (proj2 (mapM_devices _ _) (conj eq_refl Hd)). cbn [mbind outcome_bind].
    rewrite (proj2 (hash32_ok _ _ _) (conj eq_refl Hb2)). cbn [mbind outcome_bind].
    destruct c as [v m n ck bh bt el hs sk rs ct ds]. cbn in *. subst. by rewrite Hv.
Qed.

(** What the message does not carry. *)
Definition default_slack (c : MachineConfig) : MachineConfig :=
  mkConfig (version c) (mem_bytes c) (vcpus c) (clock c) (base_image_hash c) (boot c) (epoch_len c) (hash_epochs c)
    (cfg_skid_margin c) DEFAULT_RESYNC_SLACK (cpuid_table c) (device_set c).

(** A valid configuration's own message describes it. *)
Lemma to_proto_ok c :
  validate c = Ok tt -> ratio_wf (clock c) -> length (base_image_hash c) = 32%nat -> boot_typed (boot c) -> Forall u16 (device_set c) ->
  exists w, machine_config_to_proto c = Ok w /\ describes_config w (default_slack c) /\
    match boot c with Elf k l => wc_boot w = Some (WireElf k l) | BzImage _ _ _ => True end.
Proof.
  intros Hv Hck Hbh Hbt Hds. assert (validate (default_slack c) = Ok tt) as Hv' by done.
  assert (Forall (fun id => id <= u16_max) (device_set c)) as Hds'
    by (eapply Forall_impl; [exact Hds|]; unfold u16, u16_max; intros; cbn in *; lia).
  assert (clock c = mkClockRatio (clock_num (clock c)) (clock_den (clock c))) as Hck' by by destruct (clock c).
  assert (exists b, boot_spec_to_proto (boot c) = Ok b /\
    (match b with
     | WireElf k l => boot c = Elf k l /\ length k = 32%nat
     | WireBzimage k i extras =>
         exists l, boot c = BzImage k i l /\ canonicalize_bzimage_cmdline_extras extras = Ok l /\ length k = 32%nat /\ length i = 32%nat
     end) /\ match boot c with Elf k l => b = WireElf k l | BzImage _ _ _ => True end) as (b & Hb & Hbd & Hbe).
  { unfold validate in Hv. repeat (case_match; [done|]). destruct (boot c) as [k l|k i l] eqn:Eb; cbn [boot_spec_to_proto].
    - exists (WireElf k l). split_and!; try done. apply Hbt.
    - apply bind_ok in Hv as ([] & Hl & _). unfold validate_canonical_bzimage_cmdline in Hl. case_match; [done|].
      apply bind_ok in Hl as (e & He & _). rewrite He. exists (WireBzimage k i e). split_and!; try done.
      exists l. split_and!; try done; [|apply Hbt..]. by apply (proj2 (proj2 (bzimage_cmdline_canonical l e))). }
  unfold machine_config_to_proto. rewrite Hb. eexists. split; [reflexivity|]. split; [|by destruct (boot c); cbn; congruence].
  split; cbn; try done.
  split; [done|]. unfold ratio_wf in Hck. unfold u32 in Hck. lia.
Qed.

(** C35: the machine configuration crosses the wire exactly.  Reading a message
    never panics and accepts exactly the messages that describe a valid
    configuration, with 32-byte digests, nonzero clock terms, device ids of 16
    bits, a known hashing mode and a bzImage command line of allowed extras;
    what is read writes back to a message that reads the same again, for an ELF
    boot the same message.  Writing a valid configuration never hits its
    [expect] and reads back as that configuration, except for the resync slack,
    which the message does not carry and which is no part of the machine's
    identity: the configuration hash is the same. *)
Theorem wire_config_exact `{!Blake3} w c :
  machine_config_from_proto w <> Panic /\
  (machine_config_from_proto w = Ok c <-> describes_config w c) /\
  (machine_config_from_proto w = Ok c -> ratio_wf (clock c) -> Forall u16 (device_set c) -> boot_typed (boot c) ->
     exists w', machine_config_to_proto c = Ok w' /\ machine_config_from_proto w' = Ok c /\
       match boot c with Elf _ _ => w' = w | BzImage _ _ _ => True end) /\
  (config_typed c -> validate c = Ok tt ->
     exists w', machine_config_to_proto c = Ok w' /\ machine_config_from_proto w' = Ok (default_slack c) /\
       config_hash (default_slack c) = config_hash c).
Proof.
  split; [|split; [apply from_proto_ok|split]].
  - unfold machine_config_from_proto.
    apply bind_not_panic; [by destruct ClockRatio_new|intros ratio _]. apply bind_not_panic; [by destruct (wc_boot w)|intros wb _].
    apply bind_not_panic; [destruct wb; cbn [boot_from_proto]; unfold hash32|intros b _].
    { apply bind_not_panic; [by case_match|done]. }
    { apply bind_not_panic; [by case_match|intros k _]. apply bind_not_panic; [by case_match|intros i _].
      apply bind_not_panic; [|done]. pose proof (canonicalize_calm cmdline) as Hc. by destruct canonicalize_bzimage_cmdline_extras. }
    apply bind_not_panic; [by repeat case_match|intros ep _].
    apply bind_not_panic.
    { induction (wc_device_set w) as [|d ds IH]; [done|]. simpl. apply bind_not_panic; [unfold device_id_from_proto; by case_match|].
      intros d' _. by apply bind_not_panic. }
    intros ds _. apply bind_not_panic; [unfold hash32; by case_match|intros base _].
    apply bind_not_panic; [|done]. match goal with |- err_map _ (validate ?x) <> _ => pose proof (validate_calm x); by destruct (validate x) end.
  - intros Hd%from_proto_ok Hck Hds Hbt. destruct (to_proto_ok c) as (w' & Hw' & Hd' & Hb'); try done; [apply Hd|destruct (dc_base _ _ Hd); congruence|].
    exists w'. split; [done|]. assert (default_slack c = c) as Hc.
    { pose proof (dc_slack _ _ Hd) as Hs. destruct c. cbn in *. by rewrite Hs. }
    rewrite Hc in Hd'. split; [by apply from_proto_ok|]. destruct (boot c) as [k l|] eqn:Eb; [|done].
    destruct Hd as [(E1&E2&E3&E4&E5&E6&E7) (E8&_) [E9 _] E10 _ _ E11 _], Hd' as [(F1&F2&F3&F4&F5&F6&F7) (F8&_) [F9 _] F10 _ _ _ _].
    destruct w as [v m n cn cd bh bt el he sk ct ds], w' as [v' m' n' cn' cd' bh' bt' el' he' sk' ct' ds']. cbn in *.
    assert (bt = Some (WireElf k l)).
    { destruct bt as [[k0 l0|k0 i0 l0]|]; [|destruct E11 as (? & E11 & _); congruence|done]. destruct E11 as [E11 _]. congruence. }
    congruence.
  - intros (_ & _ & _ & Hck & [Hbh _] & Hbt & _ & _ & Hds) Hv. destruct (to_proto_ok c) as (w' & Hw' & Hd' & _); try done.
    exists w'. split_and!; [done|by apply from_proto_ok|done].
Qed.

(** The example configuration, there and back. *)
Lemma wire_config_exact_witness : exists w, machine_config_to_proto example_config = Ok w /\ machine_config_from_proto w = Ok example_config.
Proof.
  destruct (proj2 (proj2 (proj2 (@wire_config_exact (fun b => b) (mkWireConfig 0 0 0 0 0 [] None 0 0 0 [] []) example_config)))
    example_config_typed ltac:(vm_compute; reflexivity)) as (w & Hw & Hr & _).
  exists w. split; [exact Hw|exact Hr].
Defined.
