(* ===== verification/RecordingOk.v ===== *)
(** * The rail records every input

    What a device may log, what each rail operation logs, and the theorem that a
    sealed rail's log holds, in order, exactly the canonical inputs that were
    applied. *)

From S2P Require Import Prelude Vt DhiLog LogReader LogRoundtrip DevCtx Devices DevicesOk Bus DhSnapSections Lapic Msr Kvm Boundary RunCtl Recording.

#[local] Existing Instances Clock.PvClock_device Pad.PvPad_device Net.PvNet_device Entropy.PvEntropy_device.
#[local] Existing Instances ClockOk.PvClock_ok PadOk.PvPad_ok NetOk.PvNet_ok EntropyOk.PvEntropy_ok.

(** The calls [cs], all accepted, take one writer to the other. *)
Definition logged (w : LogWriter) (cs : list call) (w' : LogWriter) : Prop := drive cs w = (cs, w').

Lemma logged_nil w : logged w [] w.
Proof. done. Qed.
Lemma logged_call c w w' : run_call c w = (Ok tt, w') -> logged w [c] w'.
Proof. unfold logged. cbn. by intros ->. Qed.
Lemma logged_app w1 cs1 w2 cs2 w3 : logged w1 cs1 w2 -> logged w2 cs2 w3 -> logged w1 (cs1 ++ cs2) w3.
Proof.
  unfold logged. revert w1. induction cs1 as [|c cs IH]; cbn; intros w1.
  - by intros [= ->].
  - destruct (run_call c w1) as [[[]|e|] w'] eqn:E.
    + destruct (drive cs w') as [acc w''] eqn:Ed. intros [= -> ->] H. specialize (IH _ Ed H). cbn in *. by rewrite IH.
    + intros H _. exfalso. assert (forall l w, (length (drive l w).1 <= length l)%nat) as Hle.
      { intros l. induction l as [|x l IHl]; intros w; cbn; [lia|]. destruct (run_call x w) as [[[]|?|] ?];
          repeat match goal with |- context [drive l ?w] => pose proof (IHl w); destruct (drive l w) end; cbn in *; lia. }
      specialize (Hle cs w'). rewrite H in Hle. cbn in Hle. lia.
    + intros H _. exfalso. apply run_call_fail in E as [_ [? E]]; done.
Qed.

Definition aux_call (c : call) : Prop := call_wf c /\ call_is_aux c = true.

(** ** What a device may log *)

(** A register write logs AUX records only, or leaves a fault. *)
Class DetDeviceLogs (D M E : Type) `{!DetDevice D M E} (dev_wf : D -> Prop) : Prop :=
  write_logs : forall off data d (c : DevCtx M E), dev_wf d -> bytes_ok data ->
    u64 (ctx_icount c) -> u64 (ctx_boundary_rip c) -> log_fault c = None ->
    let c' := (mmio_write off data d c).2 in
    log_fault c' = None -> exists cs, Forall aux_call cs /\ logged (ctx_log c) cs (ctx_log c').

Lemma ctx_record_logged {M E} (x : call) (c : DevCtx M E) : aux_call x -> log_fault c = None ->
  log_fault (ctx_record (run_call x) c) = None ->
  exists cs, Forall aux_call cs /\ logged (ctx_log c) cs (ctx_log (ctx_record (run_call x) c)).
Proof.
  unfold ctx_record. intros Hx Hf. destruct (run_call x (ctx_log c)) as [[[]|e|] w] eqn:Er; cbn; rewrite Hf; intros Hn.
  - exists [x]. split; [by constructor|]. by apply logged_call.
  - done.
  - by apply run_call_fail in Er as [_ [? ?]].
Qed.

Lemma digest8_u64 {B : Blake3} `{!Blake3Spec B} b : u64 (digest8 b).
Proof.
  unfold digest8. assert (bytes_ok (slice 0 8 (blake3 b))) as H.
  { unfold slice. by apply Forall_take, Forall_drop, blake3_ok. }
  pose proof (of_le_bound _ H) as Hb. rewrite length_slice in Hb by (rewrite length_blake3; lia). exact Hb.
Qed.

#[export] Instance PvClock_logs {M E} : DetDeviceLogs Clock.PvClock M E ClockOk.wf.
Proof.
  intros off data d c _ _ _ _ Hf c' _. exists []. split; [done|]. unfold c'. cbn. unfold Clock.write.
  repeat case_match; apply logged_nil.
Qed.

#[export] Instance PvPad_logs {M E} : DetDeviceLogs Pad.PvPad M E PadOk.wf.
Proof.
  intros off data d c Hd Hb Hi Hr Hf c'. unfold c'. cbn. unfold Pad.write. destruct (length data =? 4)%nat eqn:El; cbn [negb].
  2:{ exists []. split; [done|apply logged_nil]. }
  case_match; [exists []; split; [done|apply logged_nil]|].
  case_match; [|exists []; split; [done|apply logged_nil]].
  cbn [snd]. apply (ctx_record_logged (CFrameMark (ctx_icount c) (ctx_boundary_rip c) (of_le data))); [|done].
  split; [|done]. cbn. split_and!; [done..|]. by apply of_le_data_u32.
Qed.

Section Logs.
Context {B : Blake3} `{!Blake3Spec B} {M E : Type} `{!GuestMem M}.

#[export] Instance PvNet_logs : DetDeviceLogs Net.PvNet M E NetOk.wf.
Proof.
  intros off data d c (_ & Hl & _) Hb Hi Hr Hf c'. unfold c'. cbn. unfold Net.write, Net.doorbell.
  repeat (case_match; cbn [snd]; try (exists []; split; [done|apply logged_nil])).
  intros Hn. revert Hn. cbn [snd]. apply (ctx_record_logged (CNetTx _ _ _ _)); [|done].
  split; [|done]. cbn. split_and!; try done. apply digest8_u64.
Qed.

#[export] Instance PvEntropy_logs `{!EntropySource E} : DetDeviceLogs Entropy.PvEntropy M E EntropyOk.wf.
Proof.
  intros off data d c (_ & Hl & _) Hb Hi Hr Hf c'. unfold c'. cbn. unfold Entropy.write, Entropy.doorbell.
  repeat (case_match; cbn [snd]; try (exists []; split; [done|apply logged_nil])).
  intros Hn. revert Hn. cbn [snd].
  apply (ctx_record_logged (CEntropy _ _ _ _) (with_mem _ (with_entropy _ c))); [|done].
  split; [|done]. cbn. split_and!; try done. apply digest8_u64.
Qed.
End Logs.

(** ** The rail's devices *)

Section RailOk.
Context {X : AnyChannel} {B : Blake3} `{!Blake3Spec B} {M E : Type} `{!GuestMem M}.
Local Notation Rail := (DeviceRail M E).

(** A device of the rail: one of the three with an [as_any_mut], or any other
    that keeps the device contract. *)
Inductive rail_dev : BoxDev M E -> Prop :=
| rd_clock v : ClockOk.wf v -> rail_dev (mkBox _ Clock.PvClock_device (Some AnyClock) v)
| rd_pad v : PadOk.wf v -> rail_dev (mkBox _ Pad.PvPad_device (Some AnyPad) v)
| rd_net v : NetOk.wf v -> rail_dev (mkBox _ Net.PvNet_device (Some AnyNet) v)
| rd_other T (dev : DetDevice T M E) wf v :
    DetDeviceOk T M E wf -> DetDeviceLogs T M E wf -> wf v -> rail_dev (mkBox T dev None v).

Definition rail_wf (r : Rail) : Prop := Forall (fun e => rail_dev e.2) (rail_bus r).

Lemma box_write_dev off data b (c : DevCtx M E) :
  rail_dev b -> bytes_ok data -> u64 (ctx_icount c) -> u64 (ctx_boundary_rip c) -> log_fault c = None ->
  let '(b', c') := box_write off data b c in
  rail_dev b' /\ (log_fault c' = None -> exists cs, Forall aux_call cs /\ logged (ctx_log c) cs (ctx_log c')).
Proof.
  intros Hb Hd Hi Hr Hf. unfold box_write. destruct Hb as [v Hv|v Hv|v Hv|T dev wf v Hok Hl Hv]; cbn [box_dev box_val box_ty box_any].
  - pose proof (write_wf (dev_wf := ClockOk.wf) off data v c Hv Hd) as Hw.
    pose proof (write_logs (dev_wf := ClockOk.wf) off data v c Hv Hd Hi Hr Hf) as Hl.
    destruct (mmio_write off data v c) as [v' c']. split; [by constructor|done].
  - pose proof (write_wf (dev_wf := PadOk.wf) off data v c Hv Hd) as Hw.
    pose proof (write_logs (dev_wf := PadOk.wf) off data v c Hv Hd Hi Hr Hf) as Hl.
    destruct (mmio_write off data v c) as [v' c']. split; [by constructor|done].
  - pose proof (write_wf (dev_wf := NetOk.wf) off data v c Hv Hd) as Hw.
    pose proof (write_logs (dev_wf := NetOk.wf) off data v c Hv Hd Hi Hr Hf) as Hl.
    destruct (mmio_write off data v c) as [v' c']. split; [by constructor|done].
  - pose proof (write_wf (dev_wf := wf) off data v c Hv Hd) as Hw.
    pose proof (write_logs (dev_wf := wf) off data v c Hv Hd Hi Hr Hf) as Hl'.
    destruct (mmio_write off data v c) as [v' c']. split; [by econstructor|done].
Qed.

Lemma box_read_dev off n b (c : DevCtx M E) : rail_dev b ->
  let '(_, b', c') := box_read off n b c in rail_dev b' /\ c' = c.
Proof.
  intros Hb. unfold box_read. destruct Hb as [v Hv|v Hv|v Hv|T dev wf v Hok Hl Hv]; cbn [box_dev box_val box_ty box_any].
  - split; [by constructor|done].
  - split; [by constructor|done].
  - split; [by constructor|done].
  - pose proof (read_pure (dev_wf := wf) off n v c) as [H1 H2]. destruct (mmio_read off n v c) as [[x v'] c']. cbn in *. subst.
    split; [by econstructor|done].
Qed.

Lemma lookup_dev bus gpa i base dev : Forall (fun e : Z * BoxDev M E => rail_dev e.2) bus ->
  Bus.lookup gpa bus = Ok (i, base, dev) -> rail_dev dev /\ (i < length bus)%nat.
Proof.
  intros HF. unfold Bus.lookup. intros (idx & _ & H)%bind_ok. destruct (bus !! idx) as [[b d]|] eqn:Hl; [|done].
  case_match; [done|]. simplify_eq. split; [|by eapply lookup_lt_Some]. rewrite Forall_lookup in HF. by apply (HF _ _ Hl).
Qed.

Lemma bus_read_dev gpa n c bus : Forall (fun e : Z * BoxDev M E => rail_dev e.2) bus ->
  let '(_, bus', c') := Bus.read gpa n c bus in Forall (fun e => rail_dev e.2) bus' /\ c' = c.
Proof.
  intros HF. unfold Bus.read. destruct (Bus.lookup gpa bus) as [[[i base] dev]|e|] eqn:Hl; [|done..].
  destruct (lookup_dev _ _ _ _ _ HF Hl) as [Hd _]. destruct (check_access _ _); [|done..].
  destruct (_ =? REG_MAGIC); [by destruct (negb _)|]. destruct (_ =? Bus.REG_VERSION); [by destruct (negb _)|].
  pose proof (box_read_dev (gpa - base) n dev c Hd) as Hr. destruct (box_read _ _ _ _) as [[x dev'] c'].
  destruct Hr as [Hd' ->]. split; [|done]. by apply Forall_insert.
Qed.

Lemma bus_write_dev gpa data c bus : Forall (fun e : Z * BoxDev M E => rail_dev e.2) bus ->
  bytes_ok data -> u64 (ctx_icount c) -> u64 (ctx_boundary_rip c) -> log_fault c = None ->
  let '(_, bus', c') := Bus.write gpa data c bus in Forall (fun e => rail_dev e.2) bus' /\
    (log_fault c' = None -> exists cs, Forall aux_call cs /\ logged (ctx_log c) cs (ctx_log c')).
Proof.
  intros HF Hb Hi Hr Hf. assert (exists cs, Forall aux_call cs /\ logged (ctx_log c) cs (ctx_log c)) as Hno by (by exists []).
  unfold Bus.write. destruct (Bus.lookup gpa bus) as [[[i base] dev]|e|] eqn:Hl; [|by split..].
  destruct (lookup_dev _ _ _ _ _ HF Hl) as [Hd _]. destruct (check_access _ _); [|by split..]. destruct (_ <? REG_DEVICE_BASE); [by split|].
  pose proof (box_write_dev (gpa - base) data dev c Hd Hb Hi Hr Hf) as Hw. destruct (box_write _ _ _ _) as [dev' c'].
  destruct Hw as [Hd' Hw]. split; [by apply Forall_insert|done].
Qed.

(** ** Exits *)

(** The bytes of an exit. *)
Definition exit_wf (e : VcpuExit) : Prop :=
  match e with IoOut _ data | MmioWrite _ data => bytes_ok data | _ => True end.

Lemma service_exit_logs icount e (r : Rail) a r' : rail_wf r -> u64 icount -> exit_wf e ->
  service_exit icount e r = (Ok tt, a, r') ->
  rail_wf r' /\ exists cs, Forall aux_call cs /\ logged (rail_log r) cs (rail_log r').
Proof.
  intros Hr Hi He. assert (exists cs, Forall aux_call cs /\ logged (rail_log r) cs (rail_log r)) as Hno by (by exists []).
  unfold service_exit, check_log. destruct e; try done.
  - repeat case_match; intros [= <- <-]; by split.
  - repeat case_match; intros [= <- <-]; by split.
  - destruct (contains_mmio gpa).
    + repeat case_match; intros [= <- <-]; by split.
    + pose proof (bus_read_dev gpa len (rail_ctx icount r) (rail_bus r) Hr) as H.
      destruct (Bus.read _ _ _ _) as [[[data|e|] bus] c]; [|done..]. destruct H as [HF ->].
      cbn [log_fault rail_ctx DevCtx_new]. intros [= <- <-]. by split.
  - destruct (contains_mmio gpa).
    + repeat case_match; intros [= <- <-]; by split.
    + pose proof (bus_write_dev gpa data (rail_ctx icount r) (rail_bus r) Hr He Hi ltac:(cbn; ulia) eq_refl) as H.
      destruct (Bus.write _ _ _ _) as [[[[]|e|] bus] c]; [|done..]. destruct H as [HF HL].
      destruct (log_fault c) eqn:Ef; [done|]. intros [= <- <-]. split; [done|]. by apply HL.
  - repeat case_match; intros [= <- <-]; by split.
  - repeat case_match; intros [= <- <-]; by split.
Qed.

(** ** The other operations *)

Definition tag_wf {T} (tag : AnyId T) : T -> Prop :=
  match tag in AnyId T return T -> Prop with
  | AnyClock => ClockOk.wf | AnyPad => PadOk.wf | AnyNet => NetOk.wf | AnyDetChannel => fun _ => False
  end.

Lemma downcast_dev {T} (tag : AnyId T) (b : BoxDev M E) v put : rail_dev b -> downcast tag b = Some (v, put) ->
  tag_wf tag v /\ forall v', tag_wf tag v' -> rail_dev (put v').
Proof.
  intros Hb. destruct Hb as [w Hw|w Hw|w Hw|]; destruct tag; cbn; try done; intros [= <- <-]; (split; [done|]);
    intros v' Hv'; by constructor.
Qed.

Lemma device_mut_spec {T A} (tag : AnyId T) id what (f : T -> M -> outcome RecordError A * M * T) (r : Rail) a r' :
  rail_wf r -> (forall v m, tag_wf tag v -> tag_wf tag (f v m).2) ->
  device_mut tag id what f r = (Ok a, r') -> rail_wf r' /\ rail_log r' = rail_log r /\ rail_irqs r' = rail_irqs r.
Proof.
  intros Hr Hf. unfold device_mut. destruct (find_id id (rail_bus r)) as [i|]; [|done]. cbn [mbind option_bind].
  destruct (rail_bus r !! i) as [[base b]|] eqn:Hl; [|done]. cbn [mbind option_bind snd].
  assert (rail_dev b) as Hb by (unfold rail_wf in Hr; rewrite Forall_lookup in Hr; by apply (Hr _ _ Hl)).
  destruct (downcast tag b) as [[v put]|] eqn:Hd; [|done]. cbn [mbind option_bind fst].
  destruct (downcast_dev _ _ _ _ Hb Hd) as [Hv Hp]. specialize (Hf v (rail_mem r) Hv).
  destruct (f v (rail_mem r)) as [[o m] v']. intros [= -> <-]. split; [|done]. unfold rail_wf. cbn. apply Forall_insert; [done|].
  by apply Hp.
Qed.

Lemma method_bind_ok {S F A C} (m : method S F A) (k : A -> method S F C) s c s' :
  (m ≫= k) s = (Ok c, s') -> exists a s1, m s = (Ok a, s1) /\ k a s1 = (Ok c, s').
Proof. unfold mbind, method_bind. destruct (m s) as [[a|e|] s1]; intros; try done. eauto. Qed.

Lemma rail_record_logs (c : call) (r : Rail) u r' : rail_record (run_call c) r = (Ok u, r') ->
  logged (rail_log r) [c] (rail_log r') /\ r' = with_log (rail_log r') r.
Proof.
  unfold rail_record. destruct (run_call c (rail_log r)) as [[[]|e|] w] eqn:E1; cbn; intros H; try discriminate H.
  injection H as <- <-. split; [by apply logged_call|done].
Qed.

(** ** Histories of a rail *)

Inductive rail_op :=
| OpExit (icount : Z) (e : VcpuExit)
| OpPadSet (icount rip port buttons frame_hint : Z)
| OpNetRx (icount rip : Z) (frame : bytes)
| OpDevEvent (icount rip device_id event_type : Z) (payload : bytes)
| OpDrainTx
| OpTimerFired (icount rip : Z) (fired : TimerFired)
| OpVnsBase (vns : Z)
| OpEpochHash (epoch_index icount : Z) (chain_value : bytes)
| OpCheckpoint (icount rip max_covered_gap : Z) (snapshot_ref : bytes) (vns : Z)
| OpTakeIrqs.

(** The record of an operation that is an input or a fixed AUX record. *)
Definition op_call (op : rail_op) : option call :=
  match op with
  | OpPadSet i r p b f => Some (CPadSet i r p b f)
  | OpNetRx i r f => Some (CNetRx i r f)
  | OpDevEvent i r d t x => Some (CDevEvent i r d t x)
  | OpTimerFired i r f => Some (CTimerFire i r (tf_vector f) (armed_deadline_vns f) (tf_delivered_icount f))
  | OpEpochHash n i v => Some (CEpochHash i 0 n v)
  | OpCheckpoint i r g s v => Some (CBisectionCheckpoint i r g s v)
  | _ => None
  end.
Definition op_wf (op : rail_op) : Prop :=
  match op with
  | OpExit i e => u64 i /\ exit_wf e
  | OpVnsBase v => u64 v
  | _ => from_option call_wf True (op_call op)
  end.

(** Run control also takes the queued vectors to inject them. *)
Definition rail_step (op : rail_op) (r : Rail) : bool * Rail :=
  let done {A} (x : outcome RecordError A * Rail) := (is_ok x.1, x.2) in
  match op with
  | OpExit i e => let '(o, _, r) := service_exit i e r in (is_ok o, r)
  | OpPadSet i p port b f => done (apply_pad_set i p port b f r)
  | OpNetRx i p f => done (apply_net_rx i p f r)
  | OpDevEvent i p d t x => done (apply_dev_event i p d t x r)
  | OpDrainTx => done (drain_net_tx r)
  | OpTimerFired i p f => done (log_timer_fired i p f r)
  | OpVnsBase v => done (set_clock_vns_base v r)
  | OpEpochHash n i v => done (log_epoch_hash n i v r)
  | OpCheckpoint i p g s v => done (log_bisection_checkpoint i p g s v r)
  | OpTakeIrqs => (true, with_irqs [] r)
  end.
(** Any error is fatal for the slot. *)
Fixpoint rail_run (ops : list rail_op) (r : Rail) : option Rail :=
  match ops with
  | [] => Some r
  | op :: ops => let '(ok, r) := rail_step op r in if ok then rail_run ops r else None
  end.

(** The inputs of a history, as the calls that record them. *)
Definition inputs (ops : list rail_op) : list call := List.filter (fun c => negb (call_is_aux c)) (omap op_call ops).

Lemma is_ok_eq {F A} (o : outcome F A) : is_ok o = true -> exists a, o = Ok a.
Proof. destruct o; try done. eauto. Qed.

Lemma apply_net_rx_wf frame (m : M) d : NetOk.wf d -> NetOk.wf (Net.apply_net_rx frame m d).2.
Proof.
  intros Hd. unfold Net.apply_net_rx. destruct (_ =? 0); [done|]. unfold try_u32.
  destruct (_ <=? u32_max) eqn:E1; [|done]. destruct (_ || _ || _); [done|]. destruct (mem_write _ _ _) as [[] m']; [|done].
  destruct Hd as (? & ? & ? & ? & ? & ? & ?). unfold NetOk.wf. cbn. split_and!; try done. ulia.
Qed.

Definition op_logs (op : rail_op) (r r' : Rail) : Prop :=
  rail_wf r' /\ exists cs, Forall call_wf cs /\ logged (rail_log r) cs (rail_log r') /\
    List.filter (fun c => negb (call_is_aux c)) cs = inputs [op].

(** An operation with one record of its own. *)
Lemma one_record op c (r r' : Rail) : op_call op = Some c -> call_wf c -> rail_wf r' ->
  logged (rail_log r) [c] (rail_log r') -> op_logs op r r'.
Proof.
  intros Hop Hc Hr Hl. split; [done|]. exists [c]. unfold inputs. cbn. rewrite Hop. cbn. split_and!; [by constructor|done|done].
Qed.
Lemma no_record op (r r' : Rail) : op_call op = None -> rail_wf r' -> rail_log r' = rail_log r -> op_logs op r r'.
Proof. intros Hop Hr Hl. split; [done|]. exists []. unfold inputs. cbn. by rewrite Hop, Hl. Qed.

(** A device change, then its record. *)
Lemma paired_record {T} (tag : AnyId T) id what (f : T -> M -> outcome RecordError (option Z) * M * T) c (r : Rail) v r' :
  rail_wf r -> (forall v m, tag_wf tag v -> tag_wf tag (f v m).2) ->
  (vector ← device_mut tag id what f; _ ← rail_record (run_call c); _ ← push_vector vector; mret vector) r = (Ok v, r') ->
  rail_wf r' /\ logged (rail_log r) [c] (rail_log r').
Proof.
  intros Hr Hf (x & r1 & H1 & H)%method_bind_ok. destruct (device_mut_spec _ _ _ _ _ _ _ Hr Hf H1) as (Hr1 & Hl1 & _).
  apply method_bind_ok in H as (u & r2 & H2 & H). apply rail_record_logs in H2 as [Hl2 Hr2].
  apply method_bind_ok in H as (u' & r3 & [= <- <-] & [= <- <-]). rewrite Hl1 in Hl2.
  assert (rail_wf r2) by (by rewrite Hr2). by destruct x.
Qed.

Lemma rail_step_logs op (r r' : Rail) : rail_wf r -> op_wf op -> rail_step op r = (true, r') -> op_logs op r r'.
Proof.
  intros Hr Hw. destruct op; cbn [rail_step op_wf op_call from_option] in *.
  - destruct (service_exit icount e r) as [[o a] r1] eqn:E1. intros [= Ho ->]. apply is_ok_eq in Ho as [[] ->].
    destruct Hw as [Hi He]. destruct (service_exit_logs _ _ _ _ _ Hr Hi He E1) as [Hr' (cs & Hcs & Hl)]. split; [done|].
    exists cs. split_and!; [|done|].
    + eapply Forall_impl; [exact Hcs|]. by intros c [? _].
    + unfold inputs. cbn. clear -Hcs. induction Hcs as [|c cs [_ Ha] _ IH]; [done|]. cbn. by rewrite Ha.
  - destruct (apply_pad_set icount rip port buttons frame_hint r) as [o r1] eqn:E1. intros [= Ho ->]. apply is_ok_eq in Ho as [v ->].
    eapply (paired_record AnyPad _ _ _ (CPadSet icount rip port buttons frame_hint)) in E1 as [Hr' Hl]; [by eapply one_record|done|].
    intros d m Hd. cbn in Hw. pose proof (PadOk.apply_pad_set_wf port buttons d Hd ltac:(tauto) ltac:(tauto)) as [H _].
    by destruct (Pad.apply_pad_set port buttons d).
  - destruct (apply_net_rx icount rip frame r) as [o r1] eqn:E1. intros [= Ho ->]. apply is_ok_eq in Ho as [v ->].
    eapply (paired_record AnyNet _ _ _ (CNetRx icount rip frame)) in E1 as [Hr' Hl]; [by eapply one_record|done|].
    intros d m Hd. pose proof (apply_net_rx_wf frame m d Hd) as H. by destruct (Net.apply_net_rx frame m d) as [[? ?] ?].
  - destruct (apply_dev_event icount rip device_id event_type payload r) as [o r1] eqn:E1. intros [= Ho ->]. apply is_ok_eq in Ho as [v ->].
    apply method_bind_ok in E1 as (u & r2 & H2 & [= <- <-]).
    apply (rail_record_logs (CDevEvent icount rip device_id event_type payload)) in H2 as [Hl Hr2].
    eapply one_record; try done. by rewrite Hr2.
  - destruct (drain_net_tx r) as [o r1] eqn:E1. intros [= Ho ->]. apply is_ok_eq in Ho as [v ->].
    apply method_bind_ok in E1 as ([[gpa len] status] & r2 & H2 & H3).
    eapply device_mut_spec in H2 as (Hr2 & Hl & _); [|done|done].
    assert (r' = r2) as ->; [|by apply no_record]. cbv beta iota zeta in H3. destruct (_ || _); [by injection H3|].
    destruct (_ <? len); [done|]. destruct (mem_read _ _ _) as [[] f]; [by injection H3|done].
  - destruct (log_timer_fired icount rip fired r) as [o r1] eqn:E1. intros [= Ho ->]. apply is_ok_eq in Ho as [v ->].
    apply method_bind_ok in E1 as (u & r2 & H2 & H3). cbn in Hw.
    eapply device_mut_spec in H2 as (Hr2 & Hl & _);
      [|done|intros ? ? (? & ? & ? & ? & ? & ?); unfold tag_wf, ClockOk.wf; cbn; split_and!; done || ulia].
    apply (rail_record_logs (CTimerFire _ _ _ _ _)) in H3 as [Hl3 Hr3]. rewrite Hl in Hl3.
    eapply one_record; try done. by rewrite Hr3.
  - destruct (set_clock_vns_base vns r) as [o r1] eqn:E1. intros [= Ho ->]. apply is_ok_eq in Ho as [v ->].
    eapply device_mut_spec in E1 as (Hr2 & Hl & _);
      [by apply no_record|done|intros ? ? (? & ? & ? & ? & ? & ?); unfold tag_wf, ClockOk.wf; cbn; split_and!; done].
  - destruct (log_epoch_hash epoch_index icount chain_value r) as [o r1] eqn:E1. intros [= Ho ->]. apply is_ok_eq in Ho as [v ->].
    apply (rail_record_logs (CEpochHash _ _ _ _)) in E1 as [Hl Hr2]. eapply one_record; try done. by rewrite Hr2.
  - destruct (log_bisection_checkpoint icount rip max_covered_gap snapshot_ref vns r) as [o r1] eqn:E1. intros [= Ho ->].
    apply is_ok_eq in Ho as [v ->].
    apply (rail_record_logs (CBisectionCheckpoint _ _ _ _ _)) in E1 as [Hl Hr2]. eapply one_record; try done. by rewrite Hr2.
  - intros [= <-]. by apply no_record.
Qed.

Lemma inputs_cons op ops : inputs (op :: ops) = inputs [op] ++ inputs ops.
Proof. unfold inputs. cbn. destruct (op_call op); cbn; [|done]. by case_match. Qed.

Lemma rail_run_logs ops : forall (r r' : Rail), rail_wf r -> Forall op_wf ops -> rail_run ops r = Some r' ->
  exists cs, Forall call_wf cs /\ logged (rail_log r) cs (rail_log r') /\
    List.filter (fun c => negb (call_is_aux c)) cs = inputs ops.
Proof.
  induction ops as [|op ops IH]; intros r r' Hr Hw; cbn [rail_run].
  - intros [= <-]. exists []. done.
  - inversion_clear Hw as [|?? Hop Hops]. destruct (rail_step op r) as [[] r1] eqn:E1; [|done]. intros H.
    destruct (rail_step_logs _ _ _ Hr Hop E1) as (Hr1 & cs1 & Hc1 & Hl1 & Hi1).
    destruct (IH _ _ Hr1 Hops H) as (cs2 & Hc2 & Hl2 & Hi2). exists (cs1 ++ cs2).
    split; [by apply Forall_app|]. split; [by eapply logged_app|]. by rewrite List.filter_app, inputs_cons, Hi1, Hi2.
Qed.

(** A canonical record and the input it records. *)
Definition records_input (c : call) (x : Rec) : Prop :=
  icount x = call_icount c /\ boundary_rip x = call_rip c /\ body x = Ok (call_body c).

Lemma calls_match_canonical n cs rs : calls_match n cs rs ->
  Forall2 records_input (List.filter (fun c => negb (call_is_aux c)) cs) (List.filter (fun r => negb (is_aux r)) rs).
Proof.
  revert n rs. induction cs as [|c cs IH]; intros n [|r rs]; try done. cbn [calls_match List.filter].
  intros [(_ & Hi & Hr & -> & Hb) H]. specialize (IH _ _ H). destruct (call_is_aux c); cbn [negb]; [done|]. by constructor.
Qed.

(** C3: the log of a rail is the list of its inputs.  Take any history of exits,
    canonical inputs, AUX records and drained interrupts on a rail whose devices
    keep their contract, in which no call failed, and seal it: no vector was left
    undelivered, the reader accepts the image, its canonical records are exactly
    the inputs of the history, in order, each with its icount, rip and content,
    whatever the devices logged in between, and END carries the outcome. *)
Theorem recording_complete hdr bus e (mem : M) ops (r : Rail) o id img :
  seg_wf hdr -> 0 < sh_clock_den hdr -> Forall (fun d => rail_dev d.2) bus -> Forall op_wf ops ->
  params_wf (seal_params o id) ->
  rail_run ops (DeviceRail_new bus e (LogWriter_new hdr) mem) = Some r -> seal_rail o id r = Ok img ->
  rail_irqs r = [] /\
  exists rd rs, LogReader_parse img = Ok rd /\ canonical rd = Ok rs /\ Forall2 records_input (inputs ops) rs /\
    LogReader_end rd = Ok (stop_reason_u8 (reason o), state_hash o) /\
    h_end_icount (rd_header rd) = b_icount (boundary o).
Proof.
  intros Hh Hd Hb Hw Hp Hrun Hs. unfold seal_rail in Hs. destruct (rail_irqs r); [|done]. split; [done|].
  destruct (seal _ _) as [x|?|] eqn:Hseal; try done. injection Hs as ->.
  destruct (rail_run_logs ops (DeviceRail_new bus e (LogWriter_new hdr) mem) r Hb Hw Hrun) as (cs & Hcs & Hl & Hi). cbn [rail_log DeviceRail_new] in Hl.
  destruct (drive_repr _ _ _ _ _ _ (wrepr_new hdr) Hcs Hl) as (rs & R & Hm). cbn [app length] in R, Hm.
  destruct (seal_parses _ _ _ _ _ R Hh Hd Hp Hseal) as (_ & Hparse & Hrec).
  eexists _, _. split; [exact Hparse|]. unfold canonical, LogReader_end. rewrite Hrec. cbn [mbind outcome_bind].
  split; [reflexivity|]. split; [|split].
  - rewrite List.filter_app. cbn. rewrite app_nil_r, <- Hi. by eapply calls_match_canonical.
  - rewrite last_snoc, end_record_body by done. done.
  - done.
Qed.
End RailOk.

(** ** A short segment: the guest asks for pad interrupts, a button is pressed *)

#[local] Existing Instance no_channel.

Definition ex_rail_bus : list (Z * BoxDev VecGuestMem unit) := ex_bus.
Definition ex_ops : list rail_op :=
  [OpExit 3 (MmioWrite 0xD0001018 [0x41; 0; 0; 0]); OpPadSet 5 0x40 0 8 0; OpTakeIrqs;
   OpExit 9 (MmioWrite 0xD000101C [1; 0; 0; 0]); OpEpochHash 1 16 (replicate 32 6)].
Definition ex_outcome : SegmentOutcome :=
  mkSegmentOutcome BudgetReached (mkBoundary 20 0 0) 20 (replicate 32 9) 0 None 1.
Definition ex_rail : DeviceRail VecGuestMem unit :=
  default (DeviceRail_new [] tt (LogWriter_new example_header) [])
    (rail_run ex_ops (DeviceRail_new ex_rail_bus tt (LogWriter_new example_header) (replicate 64 0))).
Definition ex_image : bytes := match seal_rail (B := example_hash) ex_outcome (replicate 32 0) ex_rail with Ok b => b | _ => [] end.

Lemma ex_rail_dev : Forall (fun d => rail_dev (B := example_hash) d.2) ex_rail_bus.
Proof.
  constructor; [|constructor; [|constructor]].
  - apply rd_clock. unfold ClockOk.wf. cbn. split_and!; done || ulia.
  - apply rd_pad. unfold PadOk.wf. cbn. split_and!; try done; try ulia. repeat (constructor; [ulia|]). constructor.
Qed.
Lemma ex_ops_wf : Forall op_wf ex_ops.
Proof.
  repeat constructor; try ulia.
Qed.

Lemma ex_ran : rail_run ex_ops (DeviceRail_new ex_rail_bus tt (LogWriter_new example_header) (replicate 64 0)) = Some ex_rail.
Proof.
  assert (is_Some (rail_run ex_ops (DeviceRail_new ex_rail_bus tt (LogWriter_new example_header) (replicate 64 0)))) as [r Hr].
  { match goal with |- is_Some ?x => assert ((if x then true else false) = true) as H by (vm_compute; reflexivity); destruct x; [eauto|done] end. }
  unfold ex_rail. by rewrite Hr.
Qed.
Lemma ex_sealed : seal_rail (B := example_hash) ex_outcome (replicate 32 0) ex_rail = Ok ex_image.
Proof.
  unfold ex_image. assert (is_ok (seal_rail (B := example_hash) ex_outcome (replicate 32 0) ex_rail) = true) as H
    by (vm_compute; reflexivity). by destruct (seal_rail _ _ _).
Qed.
Lemma ex_inputs : inputs ex_ops = [CPadSet 5 0x40 0 8 0].
Proof. reflexivity. Qed.

Lemma recording_complete_witness :
  rail_irqs ex_rail = [] /\
  exists rd rs, LogReader_parse (B := example_hash) ex_image = Ok rd /\ canonical rd = Ok rs /\
    Forall2 records_input [CPadSet 5 0x40 0 8 0] rs /\ LogReader_end rd = Ok (stop_reason_u8 (reason ex_outcome), state_hash ex_outcome) /\
    h_end_icount (rd_header rd) = b_icount (boundary ex_outcome).
Proof.
  rewrite <- ex_inputs.
  exact (recording_complete (B := example_hash) (Blake3Spec0 := example_hash_spec) example_header ex_rail_bus tt (replicate 64 0)
    ex_ops ex_rail ex_outcome (replicate 32 0) ex_image example_header_wf ltac:(cbn; lia) ex_rail_dev ex_ops_wf
    example_params_wf ex_ran ex_sealed).
Defined.
