(* ===== verification/Snapshot.v ===== *)
(** * Taking a snapshot: [dh-worker/src/snapshot_engine.rs]

    The page set of a full or an incremental snapshot, the DHSNAP container of
    the machine, and the upload.  The store is the sibling service's client: the
    class [Snapstore], one operation per call, over the store's state.  Guest
    pages are read from the paused slot; [HashMap] lookups by page index are
    lookups in the list of pairs, the last pair of an index winning. *)

From Stdlib Require Import String.
From stdpp Require Import sorting.
From S2P Require Import Prelude DhSnap DhSnapSections SlotState Lapic DevCtx Devices Bus Dirty Config Kvm VcpuState StateHash.

(** ** The store *)

Record DeviceBlob := mkDeviceBlob { blob_format : Z; blob_zstd : bool; blob_raw_len : Z; blob_bytes : bytes }.
Record Manifest := mkManifest { guest_ram_bytes : Z; device_blob : DeviceBlob }.

Class Snapstore (K : Type) := {
  StoreError : Type;
  get_snapshot : bytes -> K -> outcome StoreError bytes;
  Manifest_decode : bytes -> outcome StoreError Manifest;
  (** page index, page hash, payload unless only hashes were asked for *)
  resolve_pages : bytes -> option bytes -> bool -> K -> outcome StoreError (list (Z * bytes * option bytes));
  put_snapshot_from_parts : option bytes -> Z -> list (Z * bytes) -> DeviceBlob -> K -> outcome StoreError bytes * K }.

(** ** The segment's PRNG: [DetEntropy] over [rand_chacha] *)

Record EntropyState := mkEntropyState { es_seed : bytes; es_stream : Z; es_word_pos : Z }.
Class DetEntropy (E : Type) := {
  entropy_from_seed : bytes -> E;
  entropy_state : E -> EntropyState;
  entropy_restore : EntropyState -> E }.

(** ** Requests and results *)

Definition DEVICE_BLOB_FORMAT_DHSNAP : Z := 0x4448534E.
Definition DEVICE_ID_PV_ENTROPY : Z := 0x0004.

Record BoundaryState := mkBoundaryState {
  bs_icount : Z; bs_vns : Z; bs_epoch_index : Z; bs_hash_chain : bytes; bs_agenda_empty : bool }.

(** The ring and the dirty set an incremental source borrows are part of the
    state [take_snapshot_with_lapic] passes along. *)
Inductive PageSource :=
| FullPages
| Incremental (parent : bytes).

Record TakeSnapshotOutcome := mkTaken { tk_snapshot_ref : bytes; tk_pages_shipped : Z; tk_hash_chain : bytes }.

(** What the messages of [EngineError] name. *)
Inductive EngineError (X : Type) :=
| AgendaNotEmpty
| EngNotPaused (state : SlotState)
| EngHarvest (e : DirtyError)
| EngCapture (e : StateError)
| EngPageRead (idx : Z)
| EngConfigEncode (e : ConfigError)
| EngWriter (e : DhSnap.WriteError)
| TwoEntropyDevices
| NoTagForDevice (id : Z)
| EntropyDeviceMissing
| EngEntr (e : SectionError)
| RangeOverflows (id gpa len : Z)
| RangeExceedsRam (id gpa end_ : Z)
| ResolveParentPages (e : X)
| ParentPageMissing (idx : Z)
| PutSnapshot (e : X).
Arguments AgendaNotEmpty {X}. Arguments EngNotPaused {X}. Arguments EngHarvest {X}. Arguments EngCapture {X}.
Arguments EngPageRead {X}. Arguments EngConfigEncode {X}. Arguments EngWriter {X}. Arguments TwoEntropyDevices {X}.
Arguments NoTagForDevice {X}. Arguments EntropyDeviceMissing {X}. Arguments EngEntr {X}. Arguments RangeOverflows {X}.
Arguments RangeExceedsRam {X}. Arguments ResolveParentPages {X}. Arguments ParentPageMissing {X}. Arguments PutSnapshot {X}.

Definition box_snapshot {X : AnyChannel} {M E} (b : BoxDev M E) : bytes := @snapshot _ _ _ (box_dev b) (box_val b).
Definition box_ranges {X : AnyChannel} {M E} (b : BoxDev M E) : list (Z * Z) :=
  @guest_ram_snapshot_ranges _ _ _ (box_dev b) (box_val b).

Section Engine.
Context {B : Blake3} {X : AnyChannel} {M E K R S : Type}.
Context `{!Snapstore K, !DetEntropy E, !RingKernel R, !Vcpu S, !VcpuGets S, !SlotMem S}.
Local Notation Bus := (list (Z * BoxDev M E)).
Local Notation Error := (EngineError StoreError).

Definition validate_paused (st : SlotState) : outcome Error unit :=
  if negb (bool_decide (st = Paused)) then Err (EngNotPaused st) else Ok tt.
Definition validate_take_snapshot_preconditions (st : SlotState) (b : BoundaryState) : outcome Error unit :=
  if negb (bs_agenda_empty b) then Err AgendaNotEmpty else validate_paused st.

(** ** Pages *)

Fixpoint read_pages (s : S) (page_indices : list Z) : outcome Error (list (Z * bytes)) :=
  match page_indices with
  | [] => Ok []
  | idx :: rest =>
      page ← err_map (fun _ => EngPageRead idx) (read_page (idx * DIRTY_PAGE_SIZE) s);
      pages ← read_pages s rest;
      Ok ((idx, page) :: pages)
  end.

(** [HashMap::from_iter], then [get]. *)
Fixpoint last_of (idx : Z) (l : list (Z * bytes)) : option bytes :=
  match l with
  | [] => None
  | (i, h) :: l => match last_of idx l with Some h => Some h | None => if i =? idx then Some h else None end
  end.

Fixpoint retain_pages_changed_from_parent (pages parent_pages : list (Z * bytes)) : outcome Error (list (Z * bytes)) :=
  match pages with
  | [] => Ok []
  | (page_idx, page) :: pages =>
      parent_hash ← ok_or (ParentPageMissing page_idx) (last_of page_idx parent_pages);
      changed ← retain_pages_changed_from_parent pages parent_pages;
      Ok (if negb (bool_decide (blake3 page = parent_hash)) then (page_idx, page) :: changed else changed)
  end.

(** The inner loop: the pages of one device's ranges. *)
Fixpoint device_range_pages (id total_pages : Z) (ranges : list (Z * Z)) : outcome Error (list Z) :=
  match ranges with
  | [] => Ok []
  | (gpa, len) :: ranges =>
      if len =? 0 then device_range_pages id total_pages ranges
      else
        end_ ← ok_or (RangeOverflows id gpa len) (checked_add gpa len);
        let first_page := gpa / DIRTY_PAGE_SIZE in
        let end_page := Vt.div_ceil end_ DIRTY_PAGE_SIZE in
        if total_pages <? end_page then Err (RangeExceedsRam id gpa end_)
        else
          rest ← device_range_pages id total_pages ranges;
          Ok (seqZ first_page (end_page - first_page) ++ rest)
  end.
Fixpoint bus_range_pages (bus : Bus) (total_pages : Z) : outcome Error (list Z) :=
  match bus with
  | [] => Ok []
  | (_, dev) :: bus =>
      l ← device_range_pages (box_id dev) total_pages (box_ranges dev);
      rest ← bus_range_pages bus total_pages;
      Ok (l ++ rest)
  end.
(** [sort_unstable] and [dedup] leave each index once, ascending. *)
Fixpoint dedup (l : list Z) : list Z :=
  match l with
  | x :: (y :: _) as t => if x =? y then dedup t else x :: dedup t
  | _ => l
  end.
Definition include_device_guest_ram_pages (bus : Bus) (total_pages : Z) (page_indices : list Z) : outcome Error (list Z) :=
  l ← bus_range_pages bus total_pages;
  Ok (dedup (merge_sort Z.le (page_indices ++ l))).

(** ** The container *)

Definition push (t : bytes) (version : Z) (c : bytes) : method DhSnap.ContainerWriter Error unit := fun w =>
  let '(o, w) := DhSnap.push_section t version c w in (err_map EngWriter o, w).
Definition method_of {T A} (o : outcome Error A) : method T Error A := fun w => (o, w).

(** The walk of the bus: the entropy device's registers and the sections of
    the other devices, in bus order. *)
Fixpoint walk_devices (bus : Bus) (entropy_regs : option bytes) (device_sections : list DhSnap.Section_)
    : outcome Error (option bytes * list DhSnap.Section_) :=
  match bus with
  | [] => Ok (entropy_regs, device_sections)
  | (_, dev) :: bus =>
      let contents := box_snapshot dev in
      let id := box_id dev in
      if id =? DEVICE_ID_PV_ENTROPY then
        match entropy_regs with
        | Some _ => Err TwoEntropyDevices
        | None => walk_devices bus (Some contents) device_sections
        end
      else
        t ← ok_or (NoTagForDevice id) (DhSnap.tag_for_device_id id);
        walk_devices bus entropy_regs (device_sections ++ [DhSnap.mkSection t (box_version dev) contents])
  end.

(** [sort_by_key] on the position in the tag table, whose [expect] is [Panic]. *)
Definition tag_position (t : bytes) : option nat := fst <$> list_find (eq t) DhSnap.KNOWN_TAGS.
Definition section_le (a b : DhSnap.Section_) : Prop :=
  (default 0 (tag_position (DhSnap.tag a)) <= default 0 (tag_position (DhSnap.tag b)))%nat.
#[global] Instance section_le_dec a b : Decision (section_le a b).
Proof. unfold section_le. apply _. Defined.
Definition sort_sections (l : list DhSnap.Section_) : outcome Error (list DhSnap.Section_) :=
  if forallb (fun s => bool_decide (is_Some (tag_position (DhSnap.tag s)))) l
  then Ok (merge_sort section_le l) else Panic.

Fixpoint push_sections (l : list DhSnap.Section_) : method DhSnap.ContainerWriter Error unit :=
  match l with
  | [] => mret tt
  | s :: l => _ ← push (DhSnap.tag s) (DhSnap.sec_version s) (DhSnap.contents s); push_sections l
  end.

Definition boundary_time (b : BoundaryState) : TimeSection :=
  mkTimeSection (bs_icount b) (bs_vns b) (bs_epoch_index b) (bs_hash_chain b).

Definition dhsnap_sections (s : S) (bus : Bus) (lapic : LocalApic) (entropy : E) (machine_config : MachineConfig)
    (boundary : BoundaryState) : method DhSnap.ContainerWriter Error unit :=
  mcfg ← method_of (err_map EngConfigEncode (canonical_encode machine_config));
  _ ← push DhSnap.MCFG 1 mcfg;
  captured ← method_of (err_map EngCapture (capture s));
  _ ← push DhSnap.VCPU VCPU_SECTION_VERSION (vcpu_encode captured);
  _ ← push DhSnap.LAPC LapcSection_VERSION (LapcSection_encode (to_lapc_section lapic));
  _ ← push DhSnap.TIME TimeSection_VERSION (TimeSection_encode (boundary_time boundary));
  let prng := entropy_state entropy in
  walked ← method_of (walk_devices bus None []);
  regs ← method_of (ok_or EntropyDeviceMissing walked.1);
  v2 ← method_of (err_map EngEntr
         (from_parts (mkEntrSection (es_seed prng) (es_stream prng) (es_word_pos prng)) regs));
  _ ← push DhSnap.ENTR EntrSectionV2_VERSION (EntrSectionV2_encode v2);
  sorted ← method_of (sort_sections walked.2);
  push_sections sorted.

Definition build_dhsnap_with_lapic (s : S) (bus : Bus) (lapic : LocalApic) (entropy : E)
    (machine_config : MachineConfig) (boundary : BoundaryState) : outcome Error bytes :=
  let '(o, w) := dhsnap_sections s bus lapic entropy machine_config boundary DhSnap.ContainerWriter_new in
  _ ← o; Ok (DhSnap.finish w).

(** ** The upload *)

(** The store, beside whatever the caller holds. *)
Definition put_snapshot_from_pages {D} (parent : option bytes) (mem_bytes : Z) (pages : list (Z * bytes)) (dhsnap : bytes)
    : prog (K * D) Error bytes := fun st =>
  let '(o, k) := put_snapshot_from_parts parent mem_bytes pages
                   (mkDeviceBlob DEVICE_BLOB_FORMAT_DHSNAP false (Z.of_nat (length dhsnap)) dhsnap) st.1 in
  Some (err_map PutSnapshot o, (k, st.2)).

Definition on_drain {A} (m : prog (Drain R) DirtyError A) : prog (K * Drain R) Error A := fun st =>
  match m st.2 with
  | Some (o, d) => Some (err_map EngHarvest o, (st.1, d))
  | None => None
  end.

Definition take_snapshot_with_lapic (fuel : nat) (s : S) (slot_state : SlotState) (bus : Bus) (lapic : LocalApic)
    (entropy : E) (machine_config : MachineConfig) (boundary : BoundaryState) (source : PageSource)
    : prog (K * Drain R) Error TakeSnapshotOutcome :=
  _ ← of_outcome (validate_take_snapshot_preconditions slot_state boundary);
  let total_pages := slot_mem_bytes s / DIRTY_PAGE_SIZE in
  planned ← match source with
            | FullPages => mret (seqZ 0 total_pages, None)
            | Incremental parent =>
                _ ← on_drain (harvest_at_boundary fuel);
                dirty ← observe (fun st => Ok (dirty_iter (d_set st.2)));
                indices ← of_outcome (include_device_guest_ram_pages bus total_pages dirty);
                mret (indices, Some parent)
            end;
  let '(page_indices, parent) := (planned : list Z * option bytes) in
  pages ← of_outcome (read_pages s page_indices);
  pages ← match parent with
          | None => mret pages
          | Some parent_ref =>
              resolved ← observe (fun st => err_map ResolveParentPages (resolve_pages parent_ref None true st.1));
              of_outcome (retain_pages_changed_from_parent pages (fst <$> resolved))
          end;
  dhsnap ← of_outcome (build_dhsnap_with_lapic s bus lapic entropy machine_config boundary);
  snapshot_ref ← put_snapshot_from_pages parent (slot_mem_bytes s) pages dhsnap;
  _ ← match parent with
      | None => pass
      | Some _ => modify (fun st => (st.1, mkDrain (d_ring st.2) (dirty_clear (d_set st.2)) (d_kernel st.2)))
      end;
  mret (mkTaken snapshot_ref (Z.of_nat (length pages)) (bs_hash_chain boundary)).

(** A checkpoint is a full snapshot that leaves dirty tracking alone. *)
Definition capture_bisection_checkpoint_snapshot_with_lapic {D} (s : S) (slot_state : SlotState) (bus : Bus)
    (lapic : LocalApic) (entropy : E) (machine_config : MachineConfig) (boundary : BoundaryState)
    : prog (K * D) Error TakeSnapshotOutcome :=
  _ ← of_outcome (validate_paused slot_state);
  let total_pages := slot_mem_bytes s / DIRTY_PAGE_SIZE in
  pages ← of_outcome (read_pages s (seqZ 0 total_pages));
  dhsnap ← of_outcome (build_dhsnap_with_lapic s bus lapic entropy machine_config boundary);
  snapshot_ref ← put_snapshot_from_pages None (slot_mem_bytes s) pages dhsnap;
  mret (mkTaken snapshot_ref (Z.of_nat (length pages)) (bs_hash_chain boundary)).
End Engine.
