(* ===== verification/Restore.v ===== *)
(** * Restoring a snapshot: [dh-worker/src/restore_engine.rs], [vcpu_state::restore]

    RAM, then devices, then the vCPU.  A restore works on the slot, its bus and
    the dirty set; every failure leaves what had been written so far, and a
    device that refuses its section is left as it was.  The vCPU sets are the
    class [VcpuSets], guest RAM the class [SlotRam]. *)

From Stdlib Require Import String.
From S2P Require Import Prelude Vt DhSnap DhSnapSections SlotState Lapic DevCtx Devices Bus Dirty Config Msr Kvm VcpuState StateHash Boundary RunCtl Recording Snapshot.

(** ** [vcpu_state::restore] *)

Class VcpuSets (S : Type) := {
  kvm_set_sregs : kvm_sregs -> S -> outcome Z unit * S;
  kvm_set_regs : kvm_regs -> S -> outcome Z unit * S;
  kvm_set_fpu : kvm_fpu -> S -> outcome Z unit * S;
  kvm_set_xcrs : kvm_xcrs -> S -> outcome Z unit * S;
  (** the 1024-word region *)
  kvm_set_xsave : list Z -> S -> outcome Z unit * S;
  kvm_set_debug_regs : kvm_debugregs -> S -> outcome Z unit * S;
  kvm_set_vcpu_events : kvm_vcpu_events -> S -> outcome Z unit * S;
  (** answers how many entries it wrote *)
  kvm_set_msrs : list kvm_msr_entry -> S -> outcome Z nat * S }.

Inductive VcpuRestoreError :=
| XsaveAreaLen (n : nat)
| SetFailed (call : string) (errno : Z)
| MsrsWritten (n : nat) (first_unwritable : Z)
| TscOffset (errno : Z).

(** [as_chunks::<4>]: whole words, a rest dropped. *)
Fixpoint xsave_words (n : nat) (b : bytes) : list Z :=
  match n with O => [] | S n => of_le (take 4 b) :: xsave_words n (drop 4 b) end.

Section VcpuRestore.
Context {S : Type} `{!VcpuSets S, !TscClock S}.

Definition kvm_set {A} (call : string) (f : S -> outcome Z A * S) : prog S VcpuRestoreError A :=
  map_err (SetFailed call) (io f).

Definition vcpu_restore (st : VcpuState) (vns : Z) : prog S VcpuRestoreError unit :=
  if negb (length (vs_xsave st) =? XSAVE_AREA_LEN)%nat then throw (XsaveAreaLen (length (vs_xsave st)))
  else
    _ ← kvm_set "KVM_SET_SREGS" (kvm_set_sregs (vs_sregs st));
    _ ← kvm_set "KVM_SET_REGS" (kvm_set_regs (vs_regs st));
    _ ← kvm_set "KVM_SET_FPU" (kvm_set_fpu (vs_fpu st));
    _ ← kvm_set "KVM_SET_XCRS" (kvm_set_xcrs (vs_xcrs st));
    _ ← kvm_set "KVM_SET_XSAVE" (kvm_set_xsave (xsave_words (length (vs_xsave st) / 4) (vs_xsave st)));
    _ ← kvm_set "KVM_SET_DEBUGREGS" (kvm_set_debug_regs (vs_dbg st));
    _ ← kvm_set "KVM_SET_VCPU_EVENTS" (kvm_set_vcpu_events (vs_events st));
    n ← kvm_set "KVM_SET_MSRS" (kvm_set_msrs (vs_msrs st));
    if negb (n =? length (vs_msrs st))%nat then
      match vs_msrs st !! n with Some e => throw (MsrsWritten n (msr_index e)) | None => crash end
    else map_err TscOffset (set_tsc_value_with_offset vns).
End VcpuRestore.

(** ** Requests and results *)

Inductive RestoreSource := RestoreFull | BaselineDelta (baseline_ref : bytes).

Definition FIXED_ENGINE_SECTIONS : nat := 5.

Inductive RestoreError (X : Type) :=
| RestNotPaused (state : SlotState)
| RamSizeMismatch (snapshot slot : Z)
| BaselineRamMismatch (baseline snapshot : Z)
| BaselineConfigMismatch
| McfgMismatch
| GetSnapshot (e : X) | GetBaseline (e : X) | ResolvePages (e : X)
| ManifestDecode (e : X) | BaselineManifest (e : X)
| NotDhsnap (format : Z)
| BlobCompressed
| PageDuplicated (idx : Z) | PageWithoutPayload (idx : Z) | PagePayloadLen (idx : Z) (n : nat)
| PageWrite (idx : Z)
| PagesDoNotCover
| DhsnapParse (e : DhSnap.ReadError)
| MissingSection (t : bytes)
| McfgVersion (v : Z)
| McfgDecode (e : ConfigDecodeError)
| McfgEncode (e : ConfigError)
| TimeDecode (e : SectionError) | LapcDecode (e : SectionError) | EntrDecode (e : SectionError)
| LapcMalformed (e : LapicError)
| EntropyDevices (n : nat)
| SectionCount (total expected : nat)
| EntropyRegsRejected
| DeviceHasNoTag (id : Z) | DeviceHasNoSection (id : Z) | DeviceRejected (id : Z)
| ClockDowncast
| VcpuDecode (e : StateError)
| VcpuRestoreFailed (e : VcpuRestoreError)
| CounterResetFailed (e : CounterError).
Arguments RestNotPaused {X}. Arguments RamSizeMismatch {X}. Arguments BaselineRamMismatch {X}.
Arguments BaselineConfigMismatch {X}. Arguments McfgMismatch {X}. Arguments GetSnapshot {X}.
Arguments GetBaseline {X}. Arguments ResolvePages {X}. Arguments ManifestDecode {X}.
Arguments BaselineManifest {X}. Arguments NotDhsnap {X}. Arguments BlobCompressed {X}.
Arguments PageDuplicated {X}. Arguments PageWithoutPayload {X}. Arguments PagePayloadLen {X}.
Arguments PageWrite {X}. Arguments PagesDoNotCover {X}. Arguments DhsnapParse {X}. Arguments MissingSection {X}.
Arguments McfgVersion {X}. Arguments McfgDecode {X}. Arguments McfgEncode {X}. Arguments TimeDecode {X}.
Arguments LapcDecode {X}. Arguments EntrDecode {X}. Arguments LapcMalformed {X}. Arguments EntropyDevices {X}.
Arguments SectionCount {X}. Arguments EntropyRegsRejected {X}. Arguments DeviceHasNoTag {X}.
Arguments DeviceHasNoSection {X}. Arguments DeviceRejected {X}. Arguments ClockDowncast {X}.
Arguments VcpuDecode {X}. Arguments VcpuRestoreFailed {X}. Arguments CounterResetFailed {X}.

Record AppliedMachine (E : Type) := mkApplied {
  am_cumulative_icount : Z; am_vns : Z; am_epoch_index : Z; am_chain : StateHashChain;
  am_entropy : E; am_lapic : LocalApic }.
Arguments mkApplied {E}. Arguments am_cumulative_icount {E}. Arguments am_vns {E}. Arguments am_epoch_index {E}.
Arguments am_chain {E}. Arguments am_entropy {E}. Arguments am_lapic {E}.

(** [RestoreMode] is the source the restore was asked for. *)
Record RestoreOutcome (E : Type) := mkRestored {
  ro_pages_loaded : Z; ro_pages_resolved : Z; ro_mode : RestoreSource; ro_machine : AppliedMachine E }.
Arguments mkRestored {E}. Arguments ro_pages_loaded {E}. Arguments ro_pages_resolved {E}.
Arguments ro_mode {E}. Arguments ro_machine {E}.

#[export] Instance CpuidLeaf_eq_dec : EqDecision CpuidLeaf.
Proof. solve_decision. Defined.
#[export] Instance BootSpec_eq_dec : EqDecision BootSpec.
Proof. solve_decision. Defined.
#[export] Instance MachineConfig_eq_dec : EqDecision MachineConfig.
Proof. solve_decision. Defined.

(** Guest RAM as the devices see it, and writes to its mapping. *)
Class SlotRam (S M : Type) := {
  slot_ram : S -> M;
  write_slice : bytes -> Z -> S -> outcome Z unit * S }.

Section Engine.
Context {X : AnyChannel} {M E K S : Type}.
Context `{!Snapstore K, !DetEntropy E, !Vcpu S, !VcpuSets S, !TscClock S, !SlotMem S, !SlotRam S M}.
Local Notation Bus := (list (Z * BoxDev M E)).
Local Notation Error := (RestoreError StoreError).

(** What a restore writes. *)
Record Machine := mkMachine { m_slot : S; m_bus : Bus; m_dirty : option DirtyPageSet }.

Definition on_slot {A} (m : prog S Error A) : prog Machine Error A := fun st =>
  match m (m_slot st) with
  | Some (o, s) => Some (o, mkMachine s (m_bus st) (m_dirty st))
  | None => None
  end.

(** ** The machine configuration of a snapshot *)

Definition validate_dhsnap_blob (b : DeviceBlob) : outcome Error unit :=
  if negb (blob_format b =? DEVICE_BLOB_FORMAT_DHSNAP) then Err (NotDhsnap (blob_format b))
  else if blob_zstd b || negb (blob_raw_len b =? Z.of_nat (length (blob_bytes b))) then Err BlobCompressed
  else Ok tt.

Definition decode_machine_config_section (s : DhSnap.Section_) : outcome Error MachineConfig :=
  if negb (DhSnap.sec_version s =? 1) then Err (McfgVersion (DhSnap.sec_version s))
  else err_map McfgDecode (canonical_decode (DhSnap.contents s)).

Definition section (c : DhSnap.Container) (t : bytes) : outcome Error DhSnap.Section_ :=
  ok_or (MissingSection t) (DhSnap.get c t).

Definition recover_machine_config_from_dhsnap (dhsnap_bytes : bytes) : outcome Error MachineConfig :=
  dhsnap ← err_map DhsnapParse (DhSnap.parse dhsnap_bytes);
  mcfg ← section dhsnap DhSnap.MCFG;
  decode_machine_config_section mcfg.

Definition recover_machine_config_from_blob (b : DeviceBlob) : outcome Error MachineConfig :=
  _ ← validate_dhsnap_blob b; recover_machine_config_from_dhsnap (blob_bytes b).

Definition recover_machine_config (snapshot_ref : bytes) (store : K) : outcome Error MachineConfig :=
  container_bytes ← err_map GetSnapshot (get_snapshot snapshot_ref store);
  manifest ← err_map ManifestDecode (Manifest_decode container_bytes);
  recover_machine_config_from_blob (device_blob manifest).

(** ** Devices *)

Definition box_restore (ram : M) (c : bytes) (version : Z) (b : BoxDev M E) : option (BoxDev M E) :=
  v ← @restore _ _ _ (box_dev b) ram c version (box_val b);
  Some (mkBox (box_ty b) (box_dev b) (box_any b) v).

Definition restore_box (e : Error) (ram : M) (c : bytes) (version : Z) : method (BoxDev M E) Error unit := fun b =>
  match box_restore ram c version b with Some b => (Ok tt, b) | None => (Err e, b) end.

(** The body of the device loop. *)
Definition restore_device (dhsnap : DhSnap.Container) (entr : EntrSectionV2) (vns : Z) (ram : M)
    : method (BoxDev M E) Error unit := fun dev =>
  let id := box_id dev in
  if id =? DEVICE_ID_PV_ENTROPY then restore_box EntropyRegsRejected ram (device_regs entr) 1 dev
  else
    match DhSnap.tag_for_device_id id with
    | None => (Err (DeviceHasNoTag id), dev)
    | Some t =>
        match DhSnap.get dhsnap t with
        | None => (Err (DeviceHasNoSection id), dev)
        | Some s =>
            match restore_box (DeviceRejected id) ram (DhSnap.contents s) (DhSnap.sec_version s) dev with
            | (Ok _, dev) =>
                if id =? Clock.DEVICE_ID_PV_CLOCK then
                  match downcast AnyClock dev with
                  | Some (clk, put) => (Ok tt, put (Clock.set_vns_base vns clk))
                  | None => (Err ClockDowncast, dev)
                  end
                else (Ok tt, dev)
            | (o, dev) => (o, dev)
            end
        end
    end.

Fixpoint restore_devices (dhsnap : DhSnap.Container) (entr : EntrSectionV2) (vns : Z) (ram : M)
    (bus : Bus) : outcome Error unit * Bus :=
  match bus with
  | [] => (Ok tt, [])
  | (base, dev) :: bus =>
      match restore_device dhsnap entr vns ram dev with
      | (Ok _, dev) =>
          let '(o, bus) := restore_devices dhsnap entr vns ram bus in (o, (base, dev) :: bus)
      | (o, dev) => (o, (base, dev) :: bus)
      end
  end.

(** ** [apply_dhsnap] *)

Definition entropy_devices (bus : Bus) : nat :=
  length (List.filter (fun e => box_id e.2 =? DEVICE_ID_PV_ENTROPY) bus).

(** The bus's shape against the container's. *)
Definition check_shape (dhsnap : DhSnap.Container) (bus : Bus) : outcome Error unit :=
  let n := entropy_devices bus in
  if negb (n =? 1)%nat then Err (EntropyDevices n)
  else
    let expected := (FIXED_ENGINE_SECTIONS + (length bus - 1))%nat in
    let total := length (DhSnap.sections dhsnap) in
    if negb (total =? expected)%nat then Err (SectionCount total expected) else Ok tt.

Definition apply_dhsnap (machine_config : MachineConfig) (dhsnap_bytes : bytes) (counter : bool)
    : prog Machine Error (AppliedMachine E) :=
  dhsnap ← of_outcome (err_map DhsnapParse (DhSnap.parse dhsnap_bytes));
  mcfg ← of_outcome (section dhsnap DhSnap.MCFG);
  _ ← of_outcome (decode_machine_config_section mcfg);
  expected ← of_outcome (err_map McfgEncode (canonical_encode machine_config));
  if negb (bool_decide (DhSnap.contents mcfg = expected)) then throw McfgMismatch
  else
    t ← of_outcome (section dhsnap DhSnap.TIME);
    time ← of_outcome (err_map TimeDecode (TimeSection_decode (DhSnap.contents t) (DhSnap.sec_version t)));
    lapc ← of_outcome (section dhsnap DhSnap.LAPC);
    lapc_section ← of_outcome (err_map LapcDecode (decode_compat (DhSnap.contents lapc) (DhSnap.sec_version lapc)));
    lapic ← of_outcome (err_map LapcMalformed (from_lapc_section lapc_section));
    e ← of_outcome (section dhsnap DhSnap.ENTR);
    entr ← of_outcome (err_map EntrDecode (EntrSectionV2_decode (DhSnap.contents e) (DhSnap.sec_version e)));
    _ ← observe (fun st => check_shape dhsnap (m_bus st));
    _ ← io (fun st =>
          let '(o, bus) := restore_devices dhsnap entr (DhSnapSections.vns time) (slot_ram (m_slot st)) (m_bus st) in
          (o, mkMachine (m_slot st) bus (m_dirty st)));
    v ← of_outcome (section dhsnap DhSnap.VCPU);
    st ← of_outcome (err_map VcpuDecode (vcpu_decode (DhSnap.contents v) (DhSnap.sec_version v)));
    _ ← on_slot (map_err VcpuRestoreFailed (vcpu_restore st (DhSnapSections.vns time)));
    _ ← (if counter then on_slot (map_err CounterResetFailed InstRetired_reset) else pass);
    _ ← modify (fun st => mkMachine (m_slot st) (m_bus st) (dirty_clear <$> m_dirty st));
    mret (mkApplied (DhSnapSections.cumulative_icount time) (DhSnapSections.vns time) (DhSnapSections.epoch_index time)
            (DhSnapSections.hash_chain time)
            (entropy_restore (mkEntropyState (v2_seed entr) (v2_stream entr) (v2_word_pos entr))) lapic).

(** ** [restore_snapshot] *)

(** The loop over the resolved pages; [covered] is the vector of flags. *)
Fixpoint load_pages (total_pages : Z) (resolved : list (Z * bytes * option bytes)) (covered : list bool)
    : prog Machine Error (list bool) :=
  match resolved with
  | [] => mret covered
  | (idx, _, payload) :: resolved =>
      if (total_pages <=? idx) || default false (covered !! Z.to_nat idx) then throw (PageDuplicated idx)
      else
        b ← of_outcome (ok_or (PageWithoutPayload idx) payload);
        if negb (Z.of_nat (length b) =? DIRTY_PAGE_SIZE) then throw (PagePayloadLen idx (length b))
        else
          _ ← on_slot (map_err (fun _ => PageWrite idx) (io (write_slice b (idx * DIRTY_PAGE_SIZE))));
          load_pages total_pages resolved (<[Z.to_nat idx := true]> covered)
  end.

(** The checks of the baseline's manifest. *)
Definition check_baseline (machine_config : MachineConfig) (ram_bytes : Z) (store : K) (source : RestoreSource)
    : outcome Error (option bytes) :=
  match source with
  | RestoreFull => Ok None
  | BaselineDelta baseline_ref =>
      baseline_bytes ← err_map GetBaseline (get_snapshot baseline_ref store);
      baseline_manifest ← err_map BaselineManifest (Manifest_decode baseline_bytes);
      if negb (guest_ram_bytes baseline_manifest =? ram_bytes)
      then Err (BaselineRamMismatch (guest_ram_bytes baseline_manifest) ram_bytes)
      else
        baseline_config ← recover_machine_config_from_blob (device_blob baseline_manifest);
        if negb (bool_decide (baseline_config = machine_config)) then Err BaselineConfigMismatch
        else Ok (Some baseline_ref)
  end.

Definition restore_snapshot_with_source (slot_state : SlotState) (machine_config : MachineConfig) (snapshot_ref : bytes)
    (source : RestoreSource) (counter : bool) (store : K) : prog Machine Error (RestoreOutcome E) :=
  if negb (bool_decide (slot_state = SlotState.Paused)) then throw (RestNotPaused slot_state)
  else
    container_bytes ← of_outcome (err_map GetSnapshot (get_snapshot snapshot_ref store));
    manifest ← of_outcome (err_map ManifestDecode (Manifest_decode container_bytes));
    mem_bytes ← observe (fun st => Ok (slot_mem_bytes (m_slot st)));
    if negb (guest_ram_bytes manifest =? mem_bytes) then throw (RamSizeMismatch (guest_ram_bytes manifest) mem_bytes)
    else
      _ ← of_outcome (validate_dhsnap_blob (device_blob manifest));
      baseline_ref ← of_outcome (check_baseline machine_config (guest_ram_bytes manifest) store source);
      if negb (mem_bytes mod DIRTY_PAGE_SIZE =? 0) then crash
      else
        let total_pages := mem_bytes / DIRTY_PAGE_SIZE in
        resolved ← of_outcome (err_map ResolvePages (resolve_pages snapshot_ref baseline_ref false store));
        covered ← load_pages total_pages resolved (replicate (Z.to_nat total_pages) false);
        if negb (bool_decide (is_Some baseline_ref)) && existsb negb covered then throw PagesDoNotCover
        else
          applied ← apply_dhsnap machine_config (blob_bytes (device_blob manifest)) counter;
          mret (mkRestored total_pages (Z.of_nat (length (List.filter Datatypes.id covered)))
                  (match baseline_ref with Some r => BaselineDelta r | None => RestoreFull end) applied).

Definition restore_snapshot (slot_state : SlotState) (machine_config : MachineConfig) (snapshot_ref : bytes)
    (counter : bool) (store : K) : prog Machine Error (RestoreOutcome E) :=
  restore_snapshot_with_source slot_state machine_config snapshot_ref RestoreFull counter store.
End Engine.
Arguments Machine {_} _ _ _.
