(* ===== verification/Runtime.v ===== *)
(** * The resources of a slot: [dh-worker/src/runtime.rs]

    [SlotRuntime] is what the slot's actor thread owns; the counter is part of
    the slot's world, so the field says only whether one is attached.  The pause
    flag is shared with other threads: [PauseFlag] gives its loads and stores.
    [SlotLiveInputs] is the side channel of a streaming run, behind its mutex. *)

From Stdlib Require Import String Sorted.
From S2P Require Import Prelude Vt DhiLog Lapic DevCtx Devices Bus Dirty Config StateHash Snapshot Status.
Local Open Scope list_scope.
Local Open Scope Z_scope.

Record SlotPosition := mkPosition {
  cumulative_icount : Z; segment_icount : Z; pos_vns : Z; pos_epoch_index : Z; pos_frame_counter : Z }.
Definition SlotPosition_default : SlotPosition := mkPosition 0 0 0 0 0.

Inductive RuntimeThreadState :=
| Parked
| ThreadRunning (tid : Z)
| PauseRequested (tid : Z)
| ThreadFaulted (why : list piece).

Record DrainedGuestEvent := mkDrained { dg_stream : Z; dg_icount : Z; dg_vns : Z; dg_payload : bytes }.

(** ** Queued inputs *)

Inductive QueuedInputAt := QIcount (icount : Z) | QFrame (frame : Z).
Inductive QueuedInputKind :=
| QPadSet (port buttons frame_hint : Z)
| QNetRx (frame : bytes)
| QDevEvent (device_id event_type : Z) (payload : bytes).
Record QueuedInput := mkQueued { q_at : QueuedInputAt; q_order : Z; q_kind : QueuedInputKind }.
#[export] Instance QueuedInputAt_eq_dec : EqDecision QueuedInputAt.
Proof. solve_decision. Defined.
#[export] Instance QueuedInputKind_eq_dec : EqDecision QueuedInputKind.
Proof. solve_decision. Defined.
#[export] Instance QueuedInput_eq_dec : EqDecision QueuedInput.
Proof. solve_decision. Defined.

Definition with_order (n : Z) (q : QueuedInput) : QueuedInput := mkQueued (q_at q) n (q_kind q).

(** The key [(kind, value, order)] the queues are sorted by, lexicographically. *)
Definition at_key (a : QueuedInputAt) : Z * Z := match a with QIcount i => (0, i) | QFrame f => (1, f) end.
Definition key_le (a b : QueuedInput) : bool :=
  let '(ka, va) := at_key (q_at a) in
  let '(kb, vb) := at_key (q_at b) in
  (ka <? kb) || ((ka =? kb) && ((va <? vb) || ((va =? vb) && (q_order a <=? q_order b)))).

(** The stable [sort_by_key]. *)
Section SortBy.
Context {A : Type} (le : A -> A -> bool).
Fixpoint insert_by (x : A) (l : list A) : list A :=
  match l with
  | [] => [x]
  | y :: l' => if le x y then x :: l else y :: insert_by x l'
  end.
Definition sort_by (l : list A) : list A := foldr insert_by [] l.

Lemma insert_by_perm x l : insert_by x l ≡ₚ x :: l.
Proof. induction l as [|y l IH]; simpl; [done|]. case_match; [done|]. rewrite IH. apply Permutation_swap. Qed.
Lemma sort_by_perm l : sort_by l ≡ₚ l.
Proof. induction l as [|x l IH]; simpl; [done|]. by rewrite insert_by_perm, IH. Qed.

Context (total : forall a b, le a b = true \/ le b a = true).
Context (trans : forall a b c, le a b = true -> le b c = true -> le a c = true).
Lemma insert_by_sorted x l : StronglySorted (fun a b => le a b = true) l -> StronglySorted (fun a b => le a b = true) (insert_by x l).
Proof.
  induction 1 as [|y l Hs IH Hy]; simpl; [by repeat constructor|].
  destruct (le x y) eqn:E.
  - constructor; [by constructor|]. constructor; [done|]. eapply Forall_impl; [exact Hy|]. intros z Hz. by eapply trans.
  - constructor; [exact IH|]. rewrite insert_by_perm. constructor; [|done].
    destruct (total x y); congruence.
Qed.
Lemma sort_by_sorted l : StronglySorted (fun a b => le a b = true) (sort_by l).
Proof. induction l as [|x l IH]; simpl; [constructor|]. by apply insert_by_sorted. Qed.
End SortBy.

Definition queue_sorted (l : list QueuedInput) : Prop := StronglySorted (fun a b => key_le a b = true) l.
Definition sort_queue (l : list QueuedInput) : list QueuedInput := sort_by key_le l.

Lemma sort_queue_perm l : sort_queue l ≡ₚ l.
Proof. apply sort_by_perm. Qed.
Lemma sort_queue_sorted l : queue_sorted (sort_queue l).
Proof.
  apply sort_by_sorted; unfold key_le.
  - intros a b. destruct (at_key (q_at a)), (at_key (q_at b)). lia.
  - intros a b c. destruct (at_key (q_at a)), (at_key (q_at b)), (at_key (q_at c)). lia.
Qed.

(** ** The live side channel *)

Record LiveInputRun := mkLiveRun {
  last_reached_frame : Z;
  live_pending : list QueuedInput;
  live_next_order : Z;
  live_config : MachineConfig;
  pad_irq_blocked : option string;
  net_irq_blocked : option string }.
Definition live_set_pending (p : list QueuedInput) (next : Z) (r : LiveInputRun) : LiveInputRun :=
  mkLiveRun (last_reached_frame r) p next (live_config r) (pad_irq_blocked r) (net_irq_blocked r).

Definition SlotLiveInputs : Type := option LiveInputRun.
Definition SlotLiveInputs_new : SlotLiveInputs := None.
Definition activate (run : LiveInputRun) (_ : SlotLiveInputs) : SlotLiveInputs := Some run.
Definition deactivate (l : SlotLiveInputs) : list QueuedInput * SlotLiveInputs :=
  (match l with Some run => live_pending run | None => [] end, None).

(** The inputs a frame makes due. *)
Definition is_due (frame : Z) (q : QueuedInput) : bool := match q_at q with QFrame target => target <=? frame | QIcount _ => false end.
Definition order_le (a b : QueuedInput) : bool := q_order a <=? q_order b.

Definition observe_frame (frame : Z) (l : SlotLiveInputs) : list QueuedInput * SlotLiveInputs :=
  match l with
  | None => ([], None)
  | Some run =>
      (sort_by order_le (List.filter (is_due frame) (live_pending run)),
       Some (mkLiveRun (Z.max (last_reached_frame run) frame)
               (List.filter (fun q => negb (is_due frame q)) (live_pending run))
               (live_next_order run) (live_config run) (pad_irq_blocked run) (net_irq_blocked run)))
  end.

(** [with_active]. *)
Definition with_active {A} (f : LiveInputRun -> A * LiveInputRun) (l : SlotLiveInputs) : option A * SlotLiveInputs :=
  match l with Some run => let '(a, run) := f run in (Some a, Some run) | None => (None, None) end.

(** ** The slot's runtime *)

Class PauseFlag (S : Type) := {
  (** a load of the flag, beside the stores of the other threads *)
  pause_load : S -> bool * S;
  pause_store : bool -> S -> S }.

Record SlotRuntime {X : AnyChannel} (M E R S : Type) := mkRuntime {
  rt_slot : S;
  rt_bus : list (Z * BoxDev M E);
  rt_lapic : LocalApic;
  rt_entropy : E;
  rt_log : option LogWriter;
  rt_config : MachineConfig;
  rt_drain : Drain R;
  rt_chain : StateHashChain;
  rt_counter : bool;
  rt_base : option bytes;
  rt_position : SlotPosition;
  rt_anchor : Z;
  rt_queued : list QueuedInput;
  rt_events : list DrainedGuestEvent;
  rt_next_order : Z;
  rt_thread : RuntimeThreadState }.
Arguments mkRuntime {X M E R S}. Arguments rt_slot {X M E R S}. Arguments rt_bus {X M E R S}. Arguments rt_lapic {X M E R S}.
Arguments rt_entropy {X M E R S}. Arguments rt_log {X M E R S}. Arguments rt_config {X M E R S}. Arguments rt_drain {X M E R S}.
Arguments rt_chain {X M E R S}. Arguments rt_counter {X M E R S}. Arguments rt_base {X M E R S}. Arguments rt_position {X M E R S}.
Arguments rt_anchor {X M E R S}. Arguments rt_queued {X M E R S}. Arguments rt_events {X M E R S}.
Arguments rt_next_order {X M E R S}. Arguments rt_thread {X M E R S}.

Section Runtime.
Context {X : AnyChannel} {M E R S : Type}.
Local Notation Runtime := (SlotRuntime M E R S).

(** Field stores. *)
Definition with_slot (s : S) (r : Runtime) : Runtime :=
  mkRuntime s (rt_bus r) (rt_lapic r) (rt_entropy r) (rt_log r) (rt_config r) (rt_drain r) (rt_chain r) (rt_counter r)
    (rt_base r) (rt_position r) (rt_anchor r) (rt_queued r) (rt_events r) (rt_next_order r) (rt_thread r).
(** The four fields a rail borrows. *)
Definition with_devices (bus : list (Z * BoxDev M E)) (lapic : LocalApic) (entropy : E) (log : option LogWriter) (r : Runtime) : Runtime :=
  mkRuntime (rt_slot r) bus lapic entropy log (rt_config r) (rt_drain r) (rt_chain r) (rt_counter r)
    (rt_base r) (rt_position r) (rt_anchor r) (rt_queued r) (rt_events r) (rt_next_order r) (rt_thread r).
Definition with_bus (bus : list (Z * BoxDev M E)) (r : Runtime) : Runtime := with_devices bus (rt_lapic r) (rt_entropy r) (rt_log r) r.
Definition with_segment_log (log : option LogWriter) (r : Runtime) : Runtime := with_devices (rt_bus r) (rt_lapic r) (rt_entropy r) log r.
Definition with_drain (d : Drain R) (r : Runtime) : Runtime :=
  mkRuntime (rt_slot r) (rt_bus r) (rt_lapic r) (rt_entropy r) (rt_log r) (rt_config r) d (rt_chain r) (rt_counter r)
    (rt_base r) (rt_position r) (rt_anchor r) (rt_queued r) (rt_events r) (rt_next_order r) (rt_thread r).
Definition with_chain (c : StateHashChain) (r : Runtime) : Runtime :=
  mkRuntime (rt_slot r) (rt_bus r) (rt_lapic r) (rt_entropy r) (rt_log r) (rt_config r) (rt_drain r) c (rt_counter r)
    (rt_base r) (rt_position r) (rt_anchor r) (rt_queued r) (rt_events r) (rt_next_order r) (rt_thread r).
Definition with_counter (b : bool) (r : Runtime) : Runtime :=
  mkRuntime (rt_slot r) (rt_bus r) (rt_lapic r) (rt_entropy r) (rt_log r) (rt_config r) (rt_drain r) (rt_chain r) b
    (rt_base r) (rt_position r) (rt_anchor r) (rt_queued r) (rt_events r) (rt_next_order r) (rt_thread r).
Definition with_base (b : option bytes) (r : Runtime) : Runtime :=
  mkRuntime (rt_slot r) (rt_bus r) (rt_lapic r) (rt_entropy r) (rt_log r) (rt_config r) (rt_drain r) (rt_chain r) (rt_counter r)
    b (rt_position r) (rt_anchor r) (rt_queued r) (rt_events r) (rt_next_order r) (rt_thread r).
Definition at_position (p : SlotPosition) (r : Runtime) : Runtime :=
  mkRuntime (rt_slot r) (rt_bus r) (rt_lapic r) (rt_entropy r) (rt_log r) (rt_config r) (rt_drain r) (rt_chain r) (rt_counter r)
    (rt_base r) p (rt_anchor r) (rt_queued r) (rt_events r) (rt_next_order r) (rt_thread r).
Definition with_anchor (a : Z) (r : Runtime) : Runtime :=
  mkRuntime (rt_slot r) (rt_bus r) (rt_lapic r) (rt_entropy r) (rt_log r) (rt_config r) (rt_drain r) (rt_chain r) (rt_counter r)
    (rt_base r) (rt_position r) a (rt_queued r) (rt_events r) (rt_next_order r) (rt_thread r).
Definition with_queue (q : list QueuedInput) (next : Z) (r : Runtime) : Runtime :=
  mkRuntime (rt_slot r) (rt_bus r) (rt_lapic r) (rt_entropy r) (rt_log r) (rt_config r) (rt_drain r) (rt_chain r) (rt_counter r)
    (rt_base r) (rt_position r) (rt_anchor r) q (rt_events r) next (rt_thread r).
Definition with_events (ev : list DrainedGuestEvent) (r : Runtime) : Runtime :=
  mkRuntime (rt_slot r) (rt_bus r) (rt_lapic r) (rt_entropy r) (rt_log r) (rt_config r) (rt_drain r) (rt_chain r) (rt_counter r)
    (rt_base r) (rt_position r) (rt_anchor r) (rt_queued r) ev (rt_next_order r) (rt_thread r).
Definition with_thread (t : RuntimeThreadState) (r : Runtime) : Runtime :=
  mkRuntime (rt_slot r) (rt_bus r) (rt_lapic r) (rt_entropy r) (rt_log r) (rt_config r) (rt_drain r) (rt_chain r) (rt_counter r)
    (rt_base r) (rt_position r) (rt_anchor r) (rt_queued r) (rt_events r) (rt_next_order r) t.

Definition set_frame_counter (f : Z) (r : Runtime) : Runtime :=
  let p := rt_position r in
  at_position (mkPosition (cumulative_icount p) (segment_icount p) (pos_vns p) (pos_epoch_index p) f) r.
Definition set_segment_icount (i : Z) (r : Runtime) : Runtime :=
  let p := rt_position r in
  at_position (mkPosition (cumulative_icount p) i (pos_vns p) (pos_epoch_index p) (pos_frame_counter p)) r.

(** [SlotRuntime::new]; [drain] is the mapped ring with an empty page set. *)
Definition SlotRuntime_new (slot : S) (bus : list (Z * BoxDev M E)) (entropy : E) (config : MachineConfig) (drain : Drain R)
    (chain : StateHashChain) (counter : bool) (base_snapshot : option bytes) (position : SlotPosition) : Runtime :=
  mkRuntime slot bus LocalApic_default entropy None config drain chain counter base_snapshot position 0 [] [] 0 Parked.

Definition request_pause `{!PauseFlag S} (r : Runtime) : Runtime :=
  let r := with_slot (pause_store true (rt_slot r)) r in
  match rt_thread r with ThreadRunning tid => with_thread (PauseRequested tid) r | _ => r end.
Definition clear_pause_request `{!PauseFlag S} (r : Runtime) : Runtime :=
  let r := with_slot (pause_store false (rt_slot r)) r in
  match rt_thread r with PauseRequested tid => with_thread (ThreadRunning tid) r | _ => r end.

Definition boundary_state (agenda_empty : bool) (r : Runtime) : BoundaryState :=
  let p := rt_position r in mkBoundaryState (cumulative_icount p) (pos_vns p) (pos_epoch_index p) (rt_chain r) agenda_empty.

Definition set_boundary (cumulative segment vns epoch_index : Z) (chain : StateHashChain) (r : Runtime) : Runtime :=
  with_chain chain (at_position (mkPosition cumulative segment vns epoch_index (pos_frame_counter (rt_position r))) r).
End Runtime.
