(* ===== verification/Inputs.v ===== *)
(** * Scheduling inputs: [dh-worker/src/service.rs], the [InjectInputs] path

    A batch of wire events becomes queued inputs, either on the paused slot's
    runtime or in the side channel of a streaming run.  The queue keeps the order
    inputs were accepted in; a refused batch queues nothing.  The live theorem
    follows the side channel over any sequence of injections and frame marks. *)

From Stdlib Require Import String Sorted.
From S2P Require Import Prelude Vt DhiLog DevCtx Devices Bus Config Boundary Recording Status Runtime.
Local Open Scope string_scope.
Local Open Scope list_scope.
Local Open Scope Z_scope.

Definition FRAME_HINT_NONE : Z := 0xFFFFFFFF.

(** ** The wire *)

Inductive WireAt := AtIcount (icount : Z) | AtVns (vns : Z) | AtFrame (frame : Z).
Inductive WireEvent :=
| WPadSet (port buttons : Z)
| WNetRx (frame : bytes)
| WDevEvent (device_id event_type : Z) (payload : bytes).
Record ScheduledEvent := mkScheduled { ev_at : option WireAt; ev_event : option WireEvent }.

Definition machine_has_pv_pad (config : MachineConfig) : bool := bool_decide (Pad.DEVICE_ID_PV_PAD ∈ device_set config).

(** [events[index]] and the rest of a message. *)
Definition event_text (index : nat) (rest : list piece) : list piece := Lit "events[" :: Num (Z.of_nat index) :: rest.
Definition bad_event (index : nat) (rest : list piece) : Status := invalid_argument (event_text index rest).

(** Where the input lands, and the hint its record carries. *)
Definition input_at (index : nat) (at_ : WireAt) (current_frame_counter : Z) (config : MachineConfig) :
    outcome Status (QueuedInputAt * Z) :=
  match at_ with
  | AtIcount icount => Ok (QIcount icount, FRAME_HINT_NONE)
  | AtVns vns =>
      icount ← ok_or (bad_event index [Lit "].at_vns overflows"]) (icount_for_vns_target (clock config) vns);
      Ok (QIcount icount, FRAME_HINT_NONE)
  | AtFrame frame =>
      fail (bad_event index [Lit "].at_frame value "; Num frame; Lit " is reserved"]) when (frame =? FRAME_HINT_NONE);
      fail (failed_precondition (event_text index [Lit "].at_frame requires pv-pad in machine_config.device_set"]))
        when (negb (machine_has_pv_pad config));
      fail (bad_event index [Lit "].at_frame must be greater than current frame_counter "; Num current_frame_counter;
                             Lit ", got "; Num frame]) when (frame <=? current_frame_counter);
      Ok (QFrame frame, frame)
  end.

Definition input_kind (index : nat) (ev : WireEvent) (frame_hint : Z) : outcome Status QueuedInputKind :=
  match ev with
  | WPadSet port buttons =>
      fail (bad_event index [Lit "].pad_set.port must be 0..3"]) when (u8_max <? port);
      fail (bad_event index [Lit "].pad_set.port must be 0..3"]) when (Z.of_nat Pad.NUM_PORTS <=? port);
      Ok (QPadSet port buttons frame_hint)
  | WNetRx frame =>
      fail (bad_event index [Lit "].net_rx.frame must not be empty"]) when (bool_decide (frame = []));
      fail (bad_event index [Lit "].net_rx.frame exceeds "; Num Net.MAX_FRAME; Lit " bytes"])
        when (Net.MAX_FRAME <? Z.of_nat (length frame));
      Ok (QNetRx frame)
  | WDevEvent device_id event_type payload =>
      fail (bad_event index [Lit "].dev_event.device_id must fit u16"]) when (u16_max <? device_id);
      fail (bad_event index [Lit "].dev_event.event_type must fit u16"]) when (u16_max <? event_type);
      fail (bad_event index [Lit "].dev_event.payload exceeds "; Num MAX_DEV_EVENT_DATA; Lit " bytes"])
        when (MAX_DEV_EVENT_DATA <? Z.of_nat (length payload));
      Ok (QDevEvent device_id event_type payload)
  end.

Definition queued_input_from_proto (index : nat) (event : ScheduledEvent) (current_icount current_frame_counter : Z)
    (config : MachineConfig) : outcome Status QueuedInput :=
  at_ ← ok_or (bad_event index [Lit "].at is required"]) (ev_at event);
  placed ← input_at index at_ current_frame_counter config;
  let '(at_, frame_hint) := (placed : QueuedInputAt * Z) in
  _ ← match at_ with
      | QIcount icount =>
          fail (bad_event index [Lit "] must land after current segment icount "; Num current_icount; Lit ", got "; Num icount])
            when (icount <=? current_icount);
          Ok tt
      | QFrame _ => Ok tt
      end;
  ev ← ok_or (bad_event index [Lit "].event is required"]) (ev_event event);
  kind ← input_kind index ev frame_hint;
  Ok (mkQueued at_ 0 kind).

(** ** Frame-scheduled inputs whose delivery would need an IRQ *)

Section Precondition.
Context {X : AnyChannel} {M E : Type}.
Local Notation Bus := (list (Z * BoxDev M E)).

(** The first device with the id, as a value of its concrete type. *)
Definition first_device {T} (tag : AnyId T) (id : Z) (bus : Bus) : option T :=
  i ← find_id id bus; e ← bus !! i; fst <$> downcast tag e.2.

Definition PAD_IRQ_ENABLED : string := "pv-pad IRQ vector is enabled; frame-scheduled PAD_SET IRQ delivery is not wired".
Definition NET_IRQ_ENABLED : string := "pv-net RX vector is enabled; frame-scheduled NET_RX IRQ delivery is not wired".

Definition frame_scheduled_irq_precondition (bus : Bus) (kind : QueuedInputKind) : option string :=
  match kind with
  | QPadSet _ _ _ =>
      pad ← first_device AnyPad Pad.DEVICE_ID_PV_PAD bus;
      if negb (Pad.irq_vector pad =? 0) then Some PAD_IRQ_ENABLED else None
  | QNetRx _ =>
      net ← first_device AnyNet Net.DEVICE_ID_PV_NET bus;
      if negb (Net.rx_vector net =? 0) then Some NET_IRQ_ENABLED else None
  | QDevEvent _ _ _ => None
  end.
End Precondition.

Definition blocked_status (index : nat) (reason : string) : Status :=
  failed_precondition (event_text index [Lit "].at_frame cannot queue an IRQ: "; Lit reason]).
Definition refuse_blocked (index : nat) (blocked : option string) (q : QueuedInput) : outcome Status QueuedInput :=
  match blocked with Some reason => Err (blocked_status index reason) | None => Ok q end.

(** ** A batch *)

(** The loop of both paths: each event is converted, then takes the next order. *)
Fixpoint queue_loop (convert : nat -> ScheduledEvent -> outcome Status QueuedInput) (index : nat)
    (events : list ScheduledEvent) : method Z Status (list QueuedInput) := fun next =>
  match events with
  | [] => (Ok [], next)
  | event :: events =>
      match convert index event with
      | Ok input =>
          match checked_add next 1 with
          | Some next' =>
              let '(o, n) := queue_loop convert (S index) events next' in
              ((queued ← o; Ok (with_order next input :: queued)), n)
          | None => (Err (status CodeResourceExhausted [Lit "scheduled input order exhausted"]), next)
          end
      | Err e => (Err e, next)
      | Panic => (Panic, next)
      end
  end.

Definition too_many : Status := invalid_argument [Lit "too many scheduled events"].

Section Static.
Context {X : AnyChannel} {M E R S : Type}.
Local Notation Runtime := (SlotRuntime M E R S).

Definition static_input (rt : Runtime) (index : nat) (event : ScheduledEvent) : outcome Status QueuedInput :=
  input ← queued_input_from_proto index event (segment_icount (rt_position rt)) (pos_frame_counter (rt_position rt)) (rt_config rt);
  match q_at input with
  | QFrame _ => refuse_blocked index (frame_scheduled_irq_precondition (rt_bus rt) (q_kind input)) input
  | QIcount _ => Ok input
  end.

Definition queue_inputs_from_proto (events : list ScheduledEvent) : method Runtime Status Z := fun rt =>
  match try_u32 (Z.of_nat (length events)) with
  | None => (Err too_many, rt)
  | Some scheduled =>
      match queue_loop (static_input rt) 0 events (rt_next_order rt) with
      | (Ok queued, next) => (Ok scheduled, with_queue (sort_queue (rt_queued rt ++ queued)) next rt)
      | (Err e, next) => (Err e, with_queue (rt_queued rt) next rt)
      | (Panic, next) => (Panic, with_queue (rt_queued rt) next rt)
      end
  end.
End Static.

Definition live_input (run : LiveInputRun) (index : nat) (event : ScheduledEvent) : outcome Status QueuedInput :=
  match ev_at event with
  | Some (AtFrame _) =>
      input ← queued_input_from_proto index event 0 (last_reached_frame run) (live_config run);
      refuse_blocked index
        match q_kind input with
        | QPadSet _ _ _ => pad_irq_blocked run
        | QNetRx _ => net_irq_blocked run
        | QDevEvent _ _ _ => None
        end input
  | Some _ => Err (failed_precondition (event_text index
                [Lit "]: only at_frame events are accepted while a streaming run is active (the icount agenda is fixed at run start)"]))
  | None => Err (bad_event index [Lit "].at is required"])
  end.

Definition live_inject_from_proto (events : list ScheduledEvent) (run : LiveInputRun) : outcome Status Z * LiveInputRun :=
  match try_u32 (Z.of_nat (length events)) with
  | None => (Err too_many, run)
  | Some scheduled =>
      match queue_loop (live_input run) 0 events (live_next_order run) with
      | (Ok queued, next) => (Ok scheduled, live_set_pending (live_pending run ++ queued) next run)
      | (Err e, next) => (Err e, live_set_pending (live_pending run) next run)
      | (Panic, next) => (Panic, live_set_pending (live_pending run) next run)
      end
  end.

(** ** Applying *)

Section Apply.
Context {X : AnyChannel} {M E : Type} `{!GuestMem M}.

Definition apply_input (input : QueuedInput) (b : Boundary) : method (DeviceRail M E) RecordError (option Z) :=
  match q_kind input with
  | QPadSet port buttons frame_hint => apply_pad_set (b_icount b) (b_rip b) port buttons frame_hint
  | QNetRx frame => apply_net_rx (b_icount b) (b_rip b) frame
  | QDevEvent device_id event_type payload => apply_dev_event (b_icount b) (b_rip b) device_id event_type payload
  end.
Definition apply_queued_input (input : QueuedInput) (b : Boundary) : method (DeviceRail M E) RecordError (list Z) :=
  vector ← apply_input input b;
  mret (option_list vector).
End Apply.

(** ** What an accepted input is *)

(** The input the wire event describes: its place, its payload and its hint.
    A virtual-time target becomes the first boundary at or after it. *)
Definition placed_at (config : MachineConfig) (at_ : WireAt) (q : QueuedInputAt) : Prop :=
  match at_ with
  | AtIcount i => q = QIcount i
  | AtVns v => exists i, q = QIcount i /\ icount_for_vns_target (clock config) v = Some i
  | AtFrame f => q = QFrame f /\ f <> FRAME_HINT_NONE /\ Pad.DEVICE_ID_PV_PAD ∈ device_set config
  end.
Definition hint_of (a : QueuedInputAt) : Z := match a with QIcount _ => FRAME_HINT_NONE | QFrame f => f end.
(** What the devices and the log accept of a payload. *)
Definition carries (ev : WireEvent) (a : QueuedInputAt) (k : QueuedInputKind) : Prop :=
  match ev with
  | WPadSet port buttons => k = QPadSet port buttons (hint_of a) /\ port < 4
  | WNetRx frame => k = QNetRx frame /\ 1 <= Z.of_nat (length frame) <= Net.MAX_FRAME
  | WDevEvent d t p => k = QDevEvent d t p /\ d <= u16_max /\ t <= u16_max /\ Z.of_nat (length p) <= MAX_DEV_EVENT_DATA
  end.
Definition after (icount frame : Z) (a : QueuedInputAt) : Prop :=
  match a with QIcount i => icount < i | QFrame f => frame < f end.
Definition describes (config : MachineConfig) (event : ScheduledEvent) (q : QueuedInput) : Prop :=
  exists at_ ev, ev_at event = Some at_ /\ ev_event event = Some ev /\
    placed_at config at_ (q_at q) /\ carries ev (q_at q) (q_kind q).

Lemma queued_input_sound index event icount frame config q :
  queued_input_from_proto index event icount frame config = Ok q ->
  describes config event q /\ after icount frame (q_at q).
Proof.
  unfold queued_input_from_proto. intros H.
  apply bind_ok in H as (at_ & Hat & H). destruct (ev_at event) as [at'|] eqn:Ea; [|done]. injection Hat as ->.
  apply bind_ok in H as ([a hint] & Hp & H). cbn in H.
  apply bind_ok in H as ([] & Hfut & H).
  apply bind_ok in H as (ev & Hev & H). destruct (ev_event event) as [ev'|] eqn:Ee; [|done]. injection Hev as ->.
  apply bind_ok in H as (kind & Hk & [= <-]).
  assert (placed_at config at_ a /\ hint = hint_of a /\ after icount frame a) as (Hpl & -> & Haf).
  { destruct at_ as [i|v|f]; cbn in Hp |- *.
    - injection Hp as <- <-. destruct (Z.leb_spec i icount); [done|]. done.
    - apply bind_ok in Hp as (i & Hi & [= <- <-]). destruct (icount_for_vns_target _ v) as [i'|] eqn:Ev; [|done].
      injection Hi as ->. destruct (Z.leb_spec i icount); [done|]. eauto.
    - destruct (Z.eqb_spec f FRAME_HINT_NONE); [done|].
      unfold machine_has_pv_pad in Hp. destruct (bool_decide_reflect (Pad.DEVICE_ID_PV_PAD ∈ device_set config)) as [Hin|]; [|done].
      cbn in Hp. destruct (Z.leb_spec f frame); [done|]. injection Hp as <- <-. done. }
  split; [|done]. exists at_, ev. split_and!; [done..|].
  destruct ev as [port buttons|fr|d t p]; cbn in Hk |- *; split_ifs; repeat case_bool_decide; simplify_eq; split_and!; try done; try lia.
  - unfold Pad.NUM_PORTS in *. lia.
  - destruct fr; [done|]. cbn [length]. lia.
Qed.

(** ** The orders a batch takes *)

Definition seq_orders (next : Z) (l : list QueuedInput) : Prop :=
  (fun q => q_order q) <$> l = seqZ next (Z.of_nat (length l)).

Lemma queue_loop_ok convert index events next l n :
  queue_loop convert index events next = (Ok l, n) ->
  Forall2 (fun event q => exists i q0, convert i event = Ok q0 /\ q = with_order (q_order q) q0) events l /\
  seq_orders next l /\ n = next + Z.of_nat (length l) /\ (events = [] \/ n <= u64_max).
Proof.
  revert index next l n; induction events as [|event events IH]; intros index next l n; cbn [queue_loop].
  { intros [= <- <-]. unfold seq_orders. cbn [length]. split_and!; [constructor|done|lia|by left]. }
  destruct (convert index event) as [q0| |] eqn:Ec; [|done..].
  destruct (checked_add next 1) as [next'|] eqn:Ea; [|done]. apply try_u64_Some in Ea as [-> Hle].
  destruct (queue_loop convert (S index) events (next + 1)) as [o n'] eqn:Eq.
  destruct o as [l'| |]; cbn; [|done..]. intros [= <- <-].
  destruct (IH _ _ _ _ Eq) as (H2 & Ho & -> & Hn). split_and!.
  - constructor; [|done]. eauto.
  - unfold seq_orders in *. cbn [fmap list_fmap length]. rewrite Ho.
    rewrite (seqZ_cons next) by lia. cbn. do 2 f_equal; lia.
  - cbn [length]. lia.
  - right. destruct Hn as [->|]; [|lia]. inversion H2. subst. cbn. lia.
Qed.

Lemma queue_loop_next convert index events next o n :
  queue_loop convert index events next = (o, n) -> next <= n.
Proof.
  revert index next o n; induction events as [|event events IH]; intros index next o n; cbn [queue_loop].
  { intros [= _ <-]. lia. }
  destruct (convert index event); [|intros [= _ <-]; lia..].
  destruct (checked_add next 1) as [next'|] eqn:Ea; [|intros [= _ <-]; lia]. apply try_u64_Some in Ea as [-> Hle].
  destruct (queue_loop convert (S index) events (next + 1)) as [o' n'] eqn:Eq.
  intros [= _ <-]. apply IH in Eq. lia.
Qed.

Lemma seq_orders_elem next l q : seq_orders next l -> q ∈ l -> next <= q_order q < next + Z.of_nat (length l).
Proof.
  intros Ho Hq. assert (q_order q ∈ seqZ next (Z.of_nat (length l))) as Hin.
  { rewrite <- Ho. apply list_elem_of_fmap. by exists q. }
  by apply elem_of_seqZ in Hin.
Qed.
Lemma seq_orders_nodup next l : seq_orders next l -> NoDup ((fun q => q_order q) <$> l).
Proof. intros ->. apply NoDup_seqZ. Qed.

Lemma queued_input_no_panic index event icount frame config : queued_input_from_proto index event icount frame config <> Panic.
Proof.
  unfold queued_input_from_proto, input_at, input_kind. destruct (ev_at event) as [at_|]; [|done]. cbn.
  assert (forall (o : outcome Status (QueuedInputAt * Z)) k, o <> Panic -> (forall p, k p <> Panic) -> (p ← o; k p) <> (Panic : outcome Status QueuedInput)) as Hb.
  { intros [] k ? Hk; cbn; auto. }
  apply Hb.
  - destruct at_; [done|by destruct (icount_for_vns_target _ _)|split_ifs; done].
  - intros [a h]. destruct (ev_event event) as [ev|]; destruct a; cbn; split_ifs; try done; destruct ev; cbn; split_ifs; done.
Qed.

Lemma queue_loop_no_panic convert index events next n :
  (forall i ev, convert i ev <> Panic) -> queue_loop convert index events next <> (Panic, n).
Proof.
  intros Hc. revert index next; induction events as [|event events IH]; intros index next; cbn [queue_loop]; [done|].
  destruct (convert index event) eqn:E; [|done|by destruct (Hc index event)].
  destruct (checked_add next 1) as [next'|]; [|done].
  destruct (queue_loop convert (S index) events next') as [o n'] eqn:Eq.
  destruct o; cbn; [done..|]. intros [= ->]. by eapply IH.
Qed.

Section StaticOk.
Context {X : AnyChannel} {M E R S : Type}.
Implicit Types rt : SlotRuntime M E R S.

(** The queue's invariant: sorted, orders distinct and already handed out. *)
Definition queue_wf rt : Prop :=
  queue_sorted (rt_queued rt) /\ NoDup ((fun q => q_order q) <$> rt_queued rt) /\
  Forall (fun q => q_order q < rt_next_order rt) (rt_queued rt).

Lemma queue_wf_next rt n : queue_wf rt -> rt_next_order rt <= n -> queue_wf (with_queue (rt_queued rt) n rt).
Proof.
  intros (Hs & Hd & Hb) Hn. split_and!; [done..|]. cbn. eapply Forall_impl; [exact Hb|]. cbn. lia.
Qed.

Lemma queue_wf_add rt l :
  queue_wf rt -> seq_orders (rt_next_order rt) l ->
  queue_wf (with_queue (sort_queue (rt_queued rt ++ l)) (rt_next_order rt + Z.of_nat (length l)) rt).
Proof.
  intros (Hs & Hd & Hb) Ho. split_and!; cbn.
  - apply sort_queue_sorted.
  - rewrite sort_queue_perm, fmap_app. apply NoDup_app. split_and!; [done| |by eapply seq_orders_nodup].
    intros n Hn Hn'. apply list_elem_of_fmap in Hn as (q & -> & Hq). apply list_elem_of_fmap in Hn' as (q' & He & Hq').
    apply seq_orders_elem with (q := q') in Ho; [|done]. rewrite Forall_forall in Hb. specialize (Hb q Hq). cbn in *. lia.
  - rewrite sort_queue_perm. apply Forall_app. split; [eapply Forall_impl; [exact Hb|]; cbn; lia|].
    apply Forall_forall. intros q Hq. apply seq_orders_elem with (q := q) in Ho; [|done]. lia.
Qed.

Lemma static_input_sound rt index event q :
  static_input rt index event = Ok q ->
  describes (rt_config rt) event q /\ after (segment_icount (rt_position rt)) (pos_frame_counter (rt_position rt)) (q_at q) /\
  (forall f, q_at q = QFrame f -> frame_scheduled_irq_precondition (rt_bus rt) (q_kind q) = None).
Proof.
  unfold static_input. intros H. apply bind_ok in H as (q0 & Hq & H).
  assert (q = q0 /\ (forall f, q_at q0 = QFrame f -> frame_scheduled_irq_precondition (rt_bus rt) (q_kind q0) = None)) as [-> Hirq].
  { destruct (q_at q0); [by injection H as ->|]. unfold refuse_blocked in H.
    destruct (frame_scheduled_irq_precondition (rt_bus rt) (q_kind q0)) eqn:Ef; [done|].
    injection H as ->. done. }
  apply queued_input_sound in Hq as []. done.
Qed.

Lemma static_input_no_panic rt index event : static_input rt index event <> Panic.
Proof.
  unfold static_input. apply bind_not_panic; [apply queued_input_no_panic|].
  intros q _. unfold refuse_blocked. repeat case_match; done.
Qed.

(** C32: an InjectInputs batch on a paused slot is all or nothing.  When it is
    accepted, the queue gains exactly one input per event, in acceptance order:
    each is the input its event describes (a virtual-time target resolved to the
    first boundary that reaches it, a frame target only with pv-pad present), it
    lands strictly after the slot's current position, its payload is one the
    devices and the log accept, and no frame-scheduled one would need an IRQ.
    The queue stays sorted by (kind, target, order), with distinct orders below
    the next one.  When it is refused, the queue is as it was. *)
Theorem inject_batch_exact events rt o rt' :
  queue_inputs_from_proto events rt = (o, rt') -> queue_wf rt ->
  queue_wf rt' /\ rt' = with_queue (rt_queued rt') (rt_next_order rt') rt /\
  match o with
  | Ok n =>
      n = Z.of_nat (length events) /\
      exists new, rt_queued rt' ≡ₚ rt_queued rt ++ new /\ seq_orders (rt_next_order rt) new /\
        Forall2 (fun event q => describes (rt_config rt) event q /\
          after (segment_icount (rt_position rt)) (pos_frame_counter (rt_position rt)) (q_at q) /\
          (forall f, q_at q = QFrame f -> frame_scheduled_irq_precondition (rt_bus rt) (q_kind q) = None)) events new
  | Err _ => rt_queued rt' = rt_queued rt
  | Panic => False
  end.
Proof.
  unfold queue_inputs_from_proto. intros H Hwf.
  destruct (try_u32 (Z.of_nat (length events))) as [n|] eqn:En; cycle 1.
  { injection H as <- <-. split_and!; [done|by destruct rt|done]. }
  destruct (queue_loop (static_input rt) 0 events (rt_next_order rt)) as [[l|e|] next] eqn:Eq; injection H as <- <-; cbn.
  - destruct (queue_loop_ok _ _ _ _ _ _ Eq) as (H2 & Ho & -> & _). split_and!; [by apply queue_wf_add|done| |].
    { unfold try_u32 in En. split_ifs. done. }
    exists l. split_and!; [by rewrite sort_queue_perm|done|].
    eapply Forall2_impl; [exact H2|]. intros event q (i & q0 & Hc & ->). apply static_input_sound in Hc. done.
  - split_and!; [|done..]. apply queue_wf_next; [done|]. by eapply queue_loop_next.
  - exfalso. eapply queue_loop_no_panic; [|exact Eq]. apply static_input_no_panic.
Qed.
End StaticOk.

(** ** The live side channel over a run *)

(** What the two threads do to it under its mutex. *)
Inductive live_op := LiveInject (events : list ScheduledEvent) | LiveFrame (frame : Z).

(** The inputs an injection adds. *)
Definition newly_pending (before after_ : LiveInputRun) : list QueuedInput :=
  drop (length (live_pending before)) (live_pending after_).

Record LiveLog := mkLiveLog { accepted : list QueuedInput; applied : list (Z * list QueuedInput) }.

Definition live_step (op : live_op) (w : LiveInputRun * LiveLog) : LiveInputRun * LiveLog :=
  let '(run, log) := w in
  match op with
  | LiveInject events =>
      let run' := (live_inject_from_proto events run).2 in
      (run', mkLiveLog (accepted log ++ newly_pending run run') (applied log))
  | LiveFrame frame =>
      match observe_frame frame (Some run) with
      | (due, Some run') => (run', mkLiveLog (accepted log) (applied log ++ [(frame, due)]))
      | (_, None) => (run, log)
      end
  end.
Definition live_run (ops : list live_op) (run : LiveInputRun) : LiveInputRun * LiveLog :=
  foldl (fun w op => live_step op w) (run, mkLiveLog [] []) ops.

Definition frame_target_of (q : QueuedInput) (t : Z) : Prop := q_at q = QFrame t.
Definition order_lt (a b : QueuedInput) : Prop := q_order a < q_order b.

(** Sorting an already increasing list changes nothing. *)
Lemma sort_by_increasing l : StronglySorted order_lt l -> sort_by order_le l = l.
Proof.
  induction 1 as [|x l Hs IH Hx]; [done|]. cbn [sort_by foldr]. fold (sort_by order_le l). rewrite IH.
  destruct l as [|y l]; [done|]. cbn. apply Forall_cons in Hx as [Hxy _]. unfold order_lt in Hxy.
  unfold order_le. destruct (Z.leb_spec (q_order x) (q_order y)); [done|lia].
Qed.
Lemma StronglySorted_bfilter {A} (R : A -> A -> Prop) (f : A -> bool) l : StronglySorted R l -> StronglySorted R (List.filter f l).
Proof.
  induction 1 as [|x l Hs IH Hx]; cbn; [constructor|]. case_match; [|done]. constructor; [done|].
  apply Forall_forall. intros y Hy. apply elem_of_bfilter in Hy as [Hy _]. rewrite Forall_forall in Hx. auto.
Qed.
Lemma bfilter_partition {A} (f : A -> bool) l : List.filter f l ++ List.filter (fun x => negb (f x)) l ≡ₚ l.
Proof.
  induction l as [|x l IH]; [done|]. cbn. destruct (f x); cbn; [by rewrite IH|].
  by rewrite <- Permutation_middle, IH.
Qed.
Lemma StronglySorted_snoc_app {A} (R : A -> A -> Prop) l l' :
  StronglySorted R l -> StronglySorted R l' -> (forall x y, x ∈ l -> y ∈ l' -> R x y) -> StronglySorted R (l ++ l').
Proof.
  induction 1 as [|x l Hs IH Hx]; intros Hl' Hc; [done|]. cbn. constructor.
  - apply IH; [done|]. intros; apply Hc; [by right|done].
  - apply Forall_app. split; [done|]. apply Forall_forall. intros y Hy. apply Hc; [by left|done].
Qed.
Lemma seq_orders_increasing next l : seq_orders next l -> StronglySorted order_lt l.
Proof.
  revert next; induction l as [|q l IH]; intros next Ho; [constructor|].
  unfold seq_orders in Ho. cbn [fmap list_fmap length] in Ho. rewrite (seqZ_cons next) in Ho by lia. injection Ho as Hq Ho.
  assert (seq_orders (next + 1) l) as Hl.
  { unfold seq_orders. unfold fmap in *. rewrite Ho. f_equal; lia. }
  constructor; [by eapply IH|]. apply Forall_forall. intros y Hy.
  apply seq_orders_elem with (q := y) in Hl; [|done]. unfold order_lt. lia.
Qed.

Lemma live_input_sound run index event q :
  live_input run index event = Ok q ->
  describes (live_config run) event q /\ exists t, q_at q = QFrame t /\ last_reached_frame run < t.
Proof.
  unfold live_input. destruct (ev_at event) as [[]|] eqn:Ea; [done|done| |done]. intros H.
  apply bind_ok in H as (q0 & Hq & H).
  assert (q = q0) as -> by (unfold refuse_blocked in H; repeat case_match; congruence).
  apply queued_input_sound in Hq as [Hd Haf]. split; [done|].
  destruct Hd as (at_ & ev & Ha & _ & Hp & _). rewrite Ea in Ha. injection Ha as <-.
  destruct Hp as [Hp _]. rewrite Hp in Haf. by exists frame.
Qed.

Lemma live_inject_cases events run :
  let r := live_inject_from_proto events run in
  exists new next, r.2 = live_set_pending (live_pending run ++ new) next run /\
    seq_orders (live_next_order run) new /\ live_next_order run + Z.of_nat (length new) <= next /\
    match r.1 with
    | Ok n => n = Z.of_nat (length events) /\
        Forall2 (fun event q => describes (live_config run) event q /\ exists t, q_at q = QFrame t /\ last_reached_frame run < t) events new
    | Err _ => new = []
    | Panic => False
    end.
Proof.
  cbn. unfold live_inject_from_proto.
  destruct (try_u32 (Z.of_nat (length events))) as [n|] eqn:En; cycle 1.
  { exists [], (live_next_order run). rewrite app_nil_r. split_and!; [by destruct run|done|cbn; lia|done]. }
  destruct (queue_loop (live_input run) 0 events (live_next_order run)) as [[l|e|] next] eqn:Eq; cbn.
  - destruct (queue_loop_ok _ _ _ _ _ _ Eq) as (H2 & Ho & -> & _). exists l, (live_next_order run + Z.of_nat (length l)).
    split_and!; [done|done|lia| |].
    { unfold try_u32 in En. split_ifs. done. }
    eapply Forall2_impl; [exact H2|]. intros event q (i & q0 & Hc & ->). apply live_input_sound in Hc. done.
  - exists [], next. rewrite app_nil_r. split_and!; [done|done| |done]. cbn. apply queue_loop_next in Eq. lia.
  - exfalso. eapply queue_loop_no_panic; [|exact Eq]. intros i ev. unfold live_input. destruct (ev_at ev) as [[]|]; [done|done| |done].
    apply bind_not_panic; [apply queued_input_no_panic|]. intros q _. unfold refuse_blocked. by repeat case_match.
Qed.

(** The invariant: nothing accepted is lost or doubled; what is pending targets a
    frame past every one seen; what was applied was applied at the first frame
    mark at or past its target. *)
Record live_inv (floor : Z) (run : LiveInputRun) (log : LiveLog) : Prop := {
  live_conserved : accepted log ≡ₚ concat (applied log).*2 ++ live_pending run;
  live_orders : Forall (fun q => q_order q < live_next_order run) (live_pending run);
  live_increasing : StronglySorted order_lt (live_pending run);
  live_future : Forall (fun q => exists t, q_at q = QFrame t /\ last_reached_frame run < t) (live_pending run);
  live_floor : floor <= last_reached_frame run;
  live_seen : Forall (fun e => e.1 <= last_reached_frame run) (applied log);
  live_first : forall i f due, applied log !! i = Some (f, due) ->
    StronglySorted order_lt due /\
    forall q, q ∈ due -> exists t, q_at q = QFrame t /\ floor < t <= f /\
      forall j g other, (j < i)%nat -> applied log !! j = Some (g, other) -> g < t }.

Lemma live_inv_inject floor run log events :
  live_inv floor run log ->
  let run' := (live_inject_from_proto events run).2 in
  live_inv floor run' (mkLiveLog (accepted log ++ newly_pending run run') (applied log)).
Proof.
  intros [Hc Ho Hi Hf Hfl Hs H1]. cbn.
  destruct (live_inject_cases events run) as (new & next & -> & Hso & Hn & Hr).
  unfold newly_pending. cbn [live_pending live_set_pending]. rewrite drop_app_length.
  assert (Forall (fun q => exists t, q_at q = QFrame t /\ last_reached_frame run < t) new) as Hnew.
  { destruct (live_inject_from_proto events run).1; [|by subst|done]. destruct Hr as [_ Hr].
    clear -Hr. induction Hr as [|? ? ? ? [_ H]]; constructor; auto. }
  constructor; cbn; try done.
  - rewrite Hc, app_assoc. done.
  - apply Forall_app. split; [eapply Forall_impl; [exact Ho|]; cbn; lia|].
    apply Forall_forall. intros q Hq. apply seq_orders_elem with (q := q) in Hso; [lia|done].
  - apply StronglySorted_snoc_app; [done|by eapply seq_orders_increasing|]. intros x y Hx Hy.
    rewrite Forall_forall in Ho. apply seq_orders_elem with (q := y) in Hso; [|done]. specialize (Ho x Hx). unfold order_lt. cbn in *. lia.
  - apply Forall_app. done.
Qed.

Lemma live_inv_frame floor run log frame due run' :
  live_inv floor run log -> observe_frame frame (Some run) = (due, Some run') ->
  live_inv floor run' (mkLiveLog (accepted log) (applied log ++ [(frame, due)])).
Proof.
  intros [Hc Ho Hi Hf Hfl Hs H1] [= <- <-].
  rewrite sort_by_increasing by by apply StronglySorted_bfilter.
  constructor; cbn.
  - rewrite Hc, fmap_app, concat_app. cbn. rewrite app_nil_r, <- app_assoc. by rewrite bfilter_partition.
  - apply Forall_forall. intros q Hq. apply elem_of_bfilter in Hq as [Hq _]. rewrite Forall_forall in Ho. auto.
  - by apply StronglySorted_bfilter.
  - apply Forall_forall. intros q Hq. apply elem_of_bfilter in Hq as [Hq Hd]. rewrite Forall_forall in Hf.
    destruct (Hf q Hq) as (t & Ht & Hlt). exists t. split; [done|]. unfold is_due in Hd. rewrite Ht in Hd. lia.
  - lia.
  - apply Forall_app. split; [eapply Forall_impl; [exact Hs|]; cbn; lia|]. constructor; [cbn; lia|constructor].
  - intros i f d Hl. apply lookup_app_Some in Hl as [Hl|[Hge Hl]].
    + destruct (H1 _ _ _ Hl) as [Hsd Hq]. split; [done|]. intros q Hin. destruct (Hq q Hin) as (t & ? & ? & Hj).
      exists t. split_and!; [done|lia..|]. intros j g other Hji Hg. apply (Hj j g other Hji).
      rewrite lookup_app_l in Hg; [done|]. apply lookup_lt_Some in Hl. lia.
    + apply list_lookup_singleton_Some in Hl as [Hz [= <- <-]]. split; [by apply StronglySorted_bfilter|].
      intros q Hq. apply elem_of_bfilter in Hq as [Hq Hd]. rewrite Forall_forall in Hf. destruct (Hf q Hq) as (t & Ht & Hlt).
      exists t. unfold is_due in Hd. rewrite Ht in Hd. split_and!; [done|lia..|]. intros j g other Hji Hg.
      rewrite lookup_app_l in Hg by lia. rewrite Forall_forall in Hs.
      apply list_elem_of_lookup_2 in Hg. specialize (Hs _ Hg). cbn in Hs. lia.
Qed.

Lemma live_inv_run ops floor run log run' log' :
  live_inv floor run log -> foldl (fun w op => live_step op w) (run, log) ops = (run', log') -> live_inv floor run' log'.
Proof.
  revert run log; induction ops as [|op ops IH]; intros run log Hinv; cbn [foldl]; [by intros [= <- <-]|].
  destruct op as [events|frame].
  - apply IH. by apply live_inv_inject.
  - intros H. eapply IH; [|exact H]. by eapply live_inv_frame.
Qed.

(** C11: live injection delivers exactly once.  Over any sequence of InjectInputs
    calls and frame marks on an active streaming run, every input a call
    accepted is either applied at one frame mark or still pending when the run
    ends, and nothing else is.  An input is applied at the first frame mark at or
    past its target: every frame marked earlier, before or after it was accepted,
    is below the target.  The inputs of one mark are applied in acceptance order,
    and those returned at the end target frames the run never reached. *)
Theorem live_inputs_exactly_once ops run run' log :
  live_pending run = [] -> live_run ops run = (run', log) ->
  accepted log ≡ₚ concat (applied log).*2 ++ (deactivate (Some run')).1 /\
  (forall i f due q, applied log !! i = Some (f, due) -> q ∈ due ->
     exists t, q_at q = QFrame t /\ last_reached_frame run < t <= f /\
       forall j g other, (j < i)%nat -> applied log !! j = Some (g, other) -> g < t) /\
  (forall f due, (f, due) ∈ applied log -> StronglySorted order_lt due) /\
  Forall (fun q => exists t, q_at q = QFrame t /\ Forall (fun e => e.1 < t) (applied log)) (deactivate (Some run')).1.
Proof.
  intros Hp Hr. assert (live_inv (last_reached_frame run) run (mkLiveLog [] [])) as H0.
  { constructor; cbn; rewrite ?Hp; try done; try constructor. }
  apply (live_inv_run _ _ _ _ _ _ H0) in Hr as [Hc Ho Hi Hf Hfl Hs H1]. cbn [deactivate fst]. split_and!.
  - done.
  - intros i f due q Hl Hq. by apply (H1 _ _ _ Hl).
  - intros f due Hl. apply list_elem_of_lookup_1 in Hl as [i Hl]. by apply (H1 _ _ _ Hl).
  - eapply Forall_impl; [exact Hf|]. intros q (t & Ht & Hlt). exists t. split; [done|].
    eapply Forall_impl; [exact Hs|]. cbn. lia.
Qed.

(** ** An example batch *)

Definition example_live_config : MachineConfig :=
  mkConfig 1 (2 * 1024 * 1024) 1 (mkClockRatio 1 1) (replicate 32 0) (Elf (replicate 32 0) []) 50000000 EpochsOn 8192 1024 [] [3].
Definition example_live_run : LiveInputRun := mkLiveRun 10 [] (2 ^ 63) example_live_config None None.
Definition pad_at (frame buttons : Z) : ScheduledEvent := mkScheduled (Some (AtFrame frame)) (Some (WPadSet 0 buttons)).
Definition example_ops : list live_op :=
  [LiveInject [pad_at 12 1; pad_at 14 2]; LiveFrame 11; LiveInject [pad_at 11 3]; LiveInject [pad_at 12 4]; LiveFrame 13; LiveFrame 13].

(** Two inputs for frame 12 land at mark 13, in acceptance order; the one for a
    frame already passed is refused; the one for frame 14 comes back. *)
Lemma live_inputs_exactly_once_witness :
  let w := live_run example_ops example_live_run in
  applied w.2 = [(11, []); (13, [mkQueued (QFrame 12) (2 ^ 63) (QPadSet 0 1 12); mkQueued (QFrame 12) (2 ^ 63 + 2) (QPadSet 0 4 12)]); (13, [])] /\
  live_pending w.1 = [mkQueued (QFrame 14) (2 ^ 63 + 1) (QPadSet 0 2 14)] /\
  accepted w.2 ≡ₚ concat (applied w.2).*2 ++ (deactivate (Some w.1)).1.
Proof.
  cbn zeta. split; [vm_compute; reflexivity|]. split; [vm_compute; reflexivity|].
  destruct (live_run example_ops example_live_run) as [run' log] eqn:E.
  apply (live_inputs_exactly_once example_ops example_live_run run' log eq_refl E).
Defined.

Definition example_rt : @SlotRuntime no_channel unit unit unit unit :=
  mkRuntime tt [(0xD0001000, @mkBox no_channel unit unit _ Pad.PvPad_device (Some AnyPad) Pad.PvPad_new)]
    Lapic.LocalApic_default tt None example_live_config (Dirty.mkDrain (Dirty.mkDirtyRing 0 0) (Dirty.DirtyPageSet_new 0) tt) []
    true None (mkPosition 1000 100 1000 0 7) 0 [mkQueued (QIcount 500) 0 (QDevEvent 9 1 [])] [] 1 Parked.
Definition example_batch : list ScheduledEvent :=
  [pad_at 8 1; mkScheduled (Some (AtVns 200)) (Some (WDevEvent 9 2 [5]))].

(** A frame input and a virtual-time one join the one queued before. *)
Lemma inject_batch_exact_witness :
  let r := queue_inputs_from_proto example_batch example_rt in
  r.1 = Ok 2 /\
  rt_queued r.2 = [mkQueued (QIcount 200) 2 (QDevEvent 9 2 [5]); mkQueued (QIcount 500) 0 (QDevEvent 9 1 []);
                   mkQueued (QFrame 8) 1 (QPadSet 0 1 8)] /\ queue_wf r.2.
Proof.
  cbn zeta. split; [vm_compute; reflexivity|]. split; [vm_compute; reflexivity|].
  destruct (queue_inputs_from_proto example_batch example_rt) as [o rt'] eqn:E.
  apply (inject_batch_exact example_batch example_rt o rt' E).
  split_and!; [repeat constructor|apply NoDup_singleton|repeat constructor].
Defined.
