(* ===== verification/Capture.v ===== *)
(** * Reading a paused guest: [dh-worker/src/service.rs], captures and guest events

    The worker's detchannel on a bus, the feature bytes and the framebuffer a
    client reads at a boundary, and the backlog of guest events.  Region
    manifests and the reads through them are the guest SDK's: the class
    [RegionSdk].  The channel reads guest memory, which is an argument. *)

From Stdlib Require Import String.
From S2P Require Import Prelude DhiLog Status DevCtx Devices Detchannel Bus Recording Runtime.
Import DetChannel.
Local Open Scope string_scope.
Local Open Scope list_scope.
Local Open Scope Z_scope.

Record ManifestEntry := mkEntry { me_live : bool; me_flags : Z; me_name : bytes }.
Record ResolvedRegion := mkResolved { rr_len : Z; rr_layout_version : Z }.
Inductive RegionReadError := NameNotFound | OutOfBounds | WireFailed | MemFailed | RegionOther.
Class RegionSdk (M : Type) `{!GuestSdk M} := {
  REGION_FLAG_FRAMEBUFFER : Z;
  entries : RegionManifest -> list ManifestEntry;
  resolve : RegionManifest -> bytes -> option ResolvedRegion;
  read_region : M -> Channel -> bytes -> Z -> nat -> RegionReadError + bytes }.
(** [lz4_flex::compress_prepend_size] *)
Class Lz4 := compress_prepend_size : bytes -> bytes.

(** ** UTF-8: [std::str::from_utf8] accepts *)

Definition utf8_cont (b : Z) : bool := (0x80 <=? b) && (b <=? 0xBF).
(** The second byte after a lead byte of three or four. *)
Definition utf8_second (b0 b1 : Z) : bool :=
  if b0 =? 0xE0 then (0xA0 <=? b1) && (b1 <=? 0xBF)
  else if b0 =? 0xED then (0x80 <=? b1) && (b1 <=? 0x9F)
  else if b0 =? 0xF0 then (0x90 <=? b1) && (b1 <=? 0xBF)
  else if b0 =? 0xF4 then (0x80 <=? b1) && (b1 <=? 0x8F)
  else utf8_cont b1.
Fixpoint utf8_valid (b : bytes) : bool :=
  match b with
  | [] => true
  | b0 :: r0 =>
      if b0 <? 0x80 then utf8_valid r0
      else
        match r0 with
        | [] => false
        | b1 :: r1 =>
            if (0xC2 <=? b0) && (b0 <=? 0xDF) then utf8_cont b1 && utf8_valid r1
            else
              match r1 with
              | [] => false
              | b2 :: r2 =>
                  if (0xE0 <=? b0) && (b0 <=? 0xEF) then utf8_second b0 b1 && utf8_cont b2 && utf8_valid r2
                  else
                    match r2 with
                    | [] => false
                    | b3 :: r3 =>
                        (0xF0 <=? b0) && (b0 <=? 0xF4) && utf8_second b0 b1 && utf8_cont b2 && utf8_cont b3 && utf8_valid r3
                    end
              end
        end
  end.

(** ** Guest events *)

Definition MAX_RETAINED_GUEST_EVENTS_PER_SLOT : nat := Z.to_nat 1024.
Definition trim_guest_events_to_retention_cap (events : list DrainedGuestEvent) : list DrainedGuestEvent :=
  drop (length events - MAX_RETAINED_GUEST_EVENTS_PER_SLOT) events.
Definition append_guest_events_with_retention_cap (retained events : list DrainedGuestEvent) : list DrainedGuestEvent :=
  match events with [] => retained | _ => trim_guest_events_to_retention_cap (retained ++ events) end.
Definition sdk_event_matches (filter : option Z) (event : DrainedGuestEvent) : bool :=
  match filter with None => true | Some stream => dg_stream event =? stream end.

(** The events a client asked for, and the backlog that stays. *)
Definition stream_wanted (streams : list Z) (event : DrainedGuestEvent) : bool :=
  bool_decide (streams = []) || bool_decide (dg_stream event ∈ streams).
Definition select_stream_guest_events (guest_events : list DrainedGuestEvent) (streams : list Z) :
    list DrainedGuestEvent * list DrainedGuestEvent :=
  (List.filter (stream_wanted streams) guest_events,
   trim_guest_events_to_retention_cap (List.filter (fun e => negb (stream_wanted streams e)) guest_events)).

Definition cumulative_event_icount (start_segment_icount start_cumulative_icount segment_icount : Z) : Z :=
  saturating_add start_cumulative_icount (saturating_sub segment_icount start_segment_icount).

(** ** The worker's detchannel *)

Definition MAX_CAPTURE_FEATURE_BYTES : Z := 16 * 1024 * 1024.
Definition MAX_CAPTURE_FRAMEBUFFER_BYTES : Z := 64 * 1024 * 1024.

Record ExtractRange := mkRange { er_region : bytes; er_layout_version : Z; er_offset : Z; er_len : Z }.
Record CaptureSpec := mkCaptureSpec { cs_ranges : list ExtractRange; cs_framebuffer : bool }.
Record FbInfo := mkFbInfo { fb_width : Z; fb_height : Z; fb_stride : Z; fb_format : Z; fb_frame_counter : Z }.
Record CaptureOutput := mkCapture { co_feature_bytes : bytes; co_fb_lz4 : bytes; co_fb_info : option FbInfo }.
Definition CaptureOutput_default : CaptureOutput := mkCapture [] [] None.

Inductive FramebufferCaller := GetFramebuffer | CaptureSpecFramebuffer | RunWithFrameCapture.
Definition prefix (c : FramebufferCaller) : string :=
  match c with
  | GetFramebuffer => "GetFramebuffer"
  | CaptureSpecFramebuffer => "CaptureSpec.framebuffer"
  | RunWithFrameCapture => "RunWithFrameCapture"
  end.
Definition missing_device (c : FramebufferCaller) : string :=
  match c with
  | GetFramebuffer => "GetFramebuffer requires DetChannelDevice in machine_config"
  | CaptureSpecFramebuffer => "CaptureSpec requires DetChannelDevice in machine_config"
  | RunWithFrameCapture => "RunWithFrameCapture requires DetChannelDevice in machine_config"
  end.
Definition missing_channel (c : FramebufferCaller) : string :=
  match c with
  | GetFramebuffer => "GetFramebuffer requires an attached detchannel"
  | CaptureSpecFramebuffer => "CaptureSpec requires an attached detchannel"
  | RunWithFrameCapture => "RunWithFrameCapture requires an attached detchannel"
  end.
Definition read_manifest_context (c : FramebufferCaller) : string :=
  match c with
  | GetFramebuffer => "read framebuffer manifest"
  | CaptureSpecFramebuffer => "read capture manifest"
  | RunWithFrameCapture => "read frame-capture manifest"
  end.
Definition missing_region (c : FramebufferCaller) : string :=
  match c with
  | GetFramebuffer => "GetFramebuffer requested but no framebuffer region is published"
  | CaptureSpecFramebuffer => "CaptureSpec.framebuffer requested but no framebuffer region is published"
  | RunWithFrameCapture => "RunWithFrameCapture requested but no framebuffer region is published"
  end.

Record FramebufferLayout := mkLayout { fl_width : Z; fl_height : Z; fl_stride : Z; fl_format : Z }.
Definition FRAMEBUFFER_LAYOUT_V1 : FramebufferLayout := mkLayout 256 224 1024 1.
Definition framebuffer_layout (layout_version : Z) : option FramebufferLayout :=
  if layout_version =? 1 then Some FRAMEBUFFER_LAYOUT_V1 else None.
Definition expected_len (l : FramebufferLayout) : Z := fl_stride l * fl_height l.

Definition checked_capture_len (what : string) (len max : Z) : outcome Status nat :=
  if max <? len then Err (invalid_argument [Lit what; Lit " is "; Num len; Lit " bytes, max "; Num max]) else Ok (Z.to_nat len).

Definition capture_region_error (region : bytes) (e : RegionReadError) : Status :=
  match e with
  | NameNotFound => failed_precondition [Lit "capture region "; Shown region; Lit " is not published"]
  | OutOfBounds => invalid_argument [Lit "capture region "; Shown region; Lit " range is out of bounds"]
  | WireFailed => failed_precondition [Lit "read capture manifest: "; Shown e]
  | MemFailed | RegionOther => failed_precondition [Lit "read capture region "; Shown region; Lit ": "; Shown e]
  end.

(** Geometry comes from the layout table; the region is raw pixels. *)
Definition framebuffer_response_from_region (caller : FramebufferCaller) (layout_version : Z) (region : bytes) :
    outcome Status (FramebufferLayout * bytes) :=
  match framebuffer_layout layout_version with
  | None => Err (failed_precondition [Lit (prefix caller); Lit " framebuffer region layout_version "; Num layout_version;
                                      Lit " is not supported (known: 1)"])
  | Some layout =>
      if negb (Z.of_nat (length region) =? expected_len layout)
      then Err (failed_precondition [Lit (prefix caller); Lit " framebuffer region layout_version "; Num layout_version;
                                     Lit " expects "; Num (expected_len layout); Lit " bytes, got "; Num (Z.of_nat (length region))])
      else Ok (layout, region)
  end.
Definition framebuffer_capture (layout_version : Z) (region : bytes) (frame_counter : Z) : outcome Status (bytes * FbInfo) :=
  r ← framebuffer_response_from_region CaptureSpecFramebuffer layout_version region;
  let l := (r : FramebufferLayout * bytes).1 in
  Ok (r.2, mkFbInfo (fl_width l) (fl_height l) (fl_stride l) (fl_format l) frame_counter).

(** The total length of the ranges, [None] past u64. *)
Fixpoint ranges_len (acc : Z) (ranges : list ExtractRange) : option Z :=
  match ranges with [] => Some acc | r :: ranges => acc ← checked_add acc (er_len r); ranges_len acc ranges end.

Section Channel.
Context {M E P F : Type} `{!GuestSdk M, !RegionSdk M} {Lz : Lz4}.
#[local] Instance runtime_channel : AnyChannel := DetChannelDevice M P F.
Local Notation Bus := (list (Z * BoxDev M E)).
Local Notation Host := (DetChannelHost M P).

(** [runtime_detchannel_mut]: the first device with the id and the type; and the
    bus with its host replaced. *)
Fixpoint runtime_detchannel (bus : Bus) : option (Host * (Host -> Bus)) :=
  match bus with
  | [] => None
  | (base, dev) :: bus =>
      match (if box_id dev =? DEVICE_ID_DETCHANNEL then downcast AnyDetChannel dev else None) with
      | Some (v, put) => Some (host v, fun h => (base, put (mkDevice h (factory v))) :: bus)
      | None => hp ← runtime_detchannel bus; Some (hp.1, fun h => (base, dev) :: hp.2 h)
      end
  end.

(** Why the SDK could not read a manifest is not part of its interface; the
    statuses leave that suffix out. *)
Definition read_framebuffer_region_from_bus (mem : M) (bus : Bus) (caller : FramebufferCaller) : outcome Status (Z * bytes) :=
  hp ← ok_or (failed_precondition [Lit (missing_device caller)]) (runtime_detchannel bus);
  ch ← ok_or (failed_precondition [Lit (missing_channel caller)]) (channel (hp.1 : Host));
  m ← ok_or (failed_precondition [Lit (read_manifest_context caller)]) (read_manifest mem ch);
  entry ← ok_or (failed_precondition [Lit (missing_region caller)])
            (List.find (fun e => me_live e && negb (Z.land (me_flags e) REGION_FLAG_FRAMEBUFFER =? 0)) (entries m));
  let name := me_name entry in
  if negb (utf8_valid name) then Err (failed_precondition [Lit "framebuffer region name is not valid UTF-8"])
  else
    region ← ok_or (failed_precondition [Lit "framebuffer region could not be resolved"]) (resolve m name);
    fb_len ← checked_capture_len "framebuffer region" (rr_len region) MAX_CAPTURE_FRAMEBUFFER_BYTES;
    match read_region mem ch name 0 fb_len with
    | inl e => Err (capture_region_error name e)
    | inr b => Ok (rr_layout_version region, b)
    end.
Definition read_framebuffer_from_bus (mem : M) (bus : Bus) : outcome Status (FramebufferLayout * bytes) :=
  region ← read_framebuffer_region_from_bus mem bus GetFramebuffer;
  framebuffer_response_from_region GetFramebuffer (region.1 : Z) region.2.

(** One range of a capture. *)
Definition capture_range (mem : M) (ch : Channel) (m : RegionManifest) (index : nat) (range : ExtractRange) : outcome Status bytes :=
  let at_ rest := Lit "capture.ranges[" :: Num (Z.of_nat index) :: rest in
  if bool_decide (er_region range = []) then Err (invalid_argument (at_ [Lit "].region must not be empty"]))
  else
    region ← ok_or (failed_precondition (at_ [Lit "].region "; Shown (er_region range); Lit " is not published"])) (resolve m (er_region range));
    if negb (rr_layout_version region =? er_layout_version range)
    then Err (failed_precondition (at_ [Lit "] layout_version "; Num (er_layout_version range); Lit " != manifest ";
                                        Num (rr_layout_version region); Lit " for region "; Shown (er_region range)]))
    else
      end_ ← ok_or (invalid_argument (at_ [Lit "] overflows"])) (checked_add (er_offset range) (er_len range));
      if rr_len region <? end_
      then Err (invalid_argument (at_ [Lit "] exceeds region "; Shown (er_region range); Lit " length "; Num (rr_len region)]))
      else
        match read_region mem ch (er_region range) (er_offset range) (Z.to_nat (er_len range)) with
        | inl e => Err (capture_region_error (er_region range) e)
        | inr b => Ok b
        end.
Fixpoint capture_ranges (mem : M) (ch : Channel) (m : RegionManifest) (index : nat) (ranges : list ExtractRange) (out : bytes) :
    outcome Status bytes :=
  match ranges with
  | [] => Ok out
  | r :: ranges => b ← capture_range mem ch m index r; capture_ranges mem ch m (S index) ranges (out ++ b)
  end.

Definition capture_at_boundary (mem : M) (bus : Bus) (capture : option CaptureSpec) (frame_counter : Z) : outcome Status CaptureOutput :=
  match capture with
  | None => Ok CaptureOutput_default
  | Some capture =>
      if bool_decide (cs_ranges capture = []) && negb (cs_framebuffer capture) then Ok CaptureOutput_default
      else
        hp ← ok_or (failed_precondition [Lit "CaptureSpec requires DetChannelDevice in machine_config"]) (runtime_detchannel bus);
        ch ← ok_or (failed_precondition [Lit "CaptureSpec requires an attached detchannel"]) (channel (hp.1 : Host));
        m ← ok_or (failed_precondition [Lit "read capture manifest"]) (read_manifest mem ch);
        len ← ok_or (invalid_argument [Lit "CaptureSpec ranges are too large"]) (ranges_len 0 (cs_ranges capture));
        _ ← checked_capture_len "CaptureSpec feature_bytes" len MAX_CAPTURE_FEATURE_BYTES;
        feature_bytes ← capture_ranges mem ch m 0 (cs_ranges capture) [];
        if cs_framebuffer capture then
          region ← read_framebuffer_region_from_bus mem bus CaptureSpecFramebuffer;
          fb ← framebuffer_capture (region.1 : Z) region.2 frame_counter;
          Ok (mkCapture feature_bytes (compress_prepend_size (fb : bytes * FbInfo).1) (Some fb.2))
        else Ok (mkCapture feature_bytes [] None)
  end.

Lemma ok_or_no_panic {X A} (e : X) (o : option A) : ok_or e o <> Panic.
Proof. by destruct o. Qed.
Lemma region_no_panic mem bus caller : read_framebuffer_region_from_bus mem bus caller <> Panic.
Proof.
  unfold read_framebuffer_region_from_bus. do 4 (apply bind_not_panic; [apply ok_or_no_panic|intros ? _]). cbv zeta.
  destruct (negb _); [done|]. apply bind_not_panic; [apply ok_or_no_panic|intros region _].
  apply bind_not_panic; [unfold checked_capture_len; by case_match|intros n _]. by destruct (read_region _ _ _ _ _).
Qed.
Lemma capture_range_no_panic mem ch m i r : capture_range mem ch m i r <> Panic.
Proof.
  unfold capture_range. cbv zeta. case_bool_decide; [done|]. apply bind_not_panic; [apply ok_or_no_panic|intros region _].
  destruct (negb _); [done|]. apply bind_not_panic; [apply ok_or_no_panic|intros z _].
  destruct (_ <? _); [done|]. by destruct (read_region _ _ _ _ _).
Qed.
Lemma capture_ranges_no_panic mem ch m rs : forall i out, capture_ranges mem ch m i rs out <> Panic.
Proof.
  induction rs as [|r rs IH]; intros i out; [done|]. apply bind_not_panic; [apply capture_range_no_panic|intros b _; apply IH].
Qed.
Lemma capture_no_panic mem bus capture n : capture_at_boundary mem bus capture n <> Panic.
Proof.
  unfold capture_at_boundary. destruct capture as [c|]; [|done]. destruct (_ && _); [done|].
  do 4 (apply bind_not_panic; [apply ok_or_no_panic|intros ? _]).
  apply bind_not_panic; [unfold checked_capture_len; by case_match|intros ? _].
  apply bind_not_panic; [apply capture_ranges_no_panic|intros b _]. destruct (cs_framebuffer c); [|done].
  apply bind_not_panic; [apply region_no_panic|intros region _]. apply bind_not_panic; [|done].
  unfold framebuffer_capture, framebuffer_response_from_region. apply bind_not_panic; [|done].
  destruct (framebuffer_layout _); [|done]. by destruct (negb _).
Qed.

(** ** What a capture holds *)

(** [read_region] fills the buffer it is given. *)
Class RegionReads : Prop := read_region_len mem ch name offset n b :
  read_region mem ch name offset n = inr b -> length b = n.
Context {Rd : RegionReads}.

(** [b] is what the guest published under the range. *)
Definition range_bytes (mem : M) (ch : Channel) (m : RegionManifest) (range : ExtractRange) (b : bytes) : Prop :=
  exists region, resolve m (er_region range) = Some region /\ rr_layout_version region = er_layout_version range /\
    er_offset range + er_len range <= rr_len region /\
    read_region mem ch (er_region range) (er_offset range) (Z.to_nat (er_len range)) = inr b.

Lemma capture_range_inv mem ch m i r b : capture_range mem ch m i r = Ok b -> range_bytes mem ch m r b.
Proof.
  unfold capture_range. case_bool_decide as Hname; [done|]. intros (region & Hr & H)%bind_ok. destruct (resolve m (er_region r)) as [region'|] eqn:Eq; [|done].
  injection Hr as ->. destruct (rr_layout_version region =? er_layout_version r) eqn:El; [|done]. apply Z.eqb_eq in El. cbn [negb] in H.
  apply bind_ok in H as (end_ & He & H). unfold checked_add, try_u64 in He. destruct (rr_len region <? end_) eqn:Elen; [done|]. apply Z.ltb_ge in Elen.
  destruct (read_region _ _ _ _ _) as [|b'] eqn:Eb; [done|]. injection H as ->.
  exists region. split_and!; [done..| |done]. destruct (_ <=? u64_max); [|done]. injection He as <-. done.
Qed.

Lemma capture_ranges_inv mem ch m rs i out b :
  capture_ranges mem ch m i rs out = Ok b -> exists bs, b = out ++ concat bs /\ Forall2 (range_bytes mem ch m) rs bs.
Proof.
  revert i out. induction rs as [|r rs IH]; intros i out; cbn.
  - intros [= <-]. exists []. by rewrite app_nil_r.
  - intros (x & Hx%capture_range_inv & H)%bind_ok. destruct (IH _ _ H) as (bs & -> & Hbs). exists (x :: bs). cbn. rewrite <- app_assoc. by split; [|constructor].
Qed.

Lemma captured_len_sum mem ch m rs bs acc n :
  Forall (fun r => 0 <= er_len r) rs -> Forall2 (range_bytes mem ch m) rs bs -> ranges_len acc rs = Some n ->
  acc + Z.of_nat (length (concat bs)) = n.
Proof.
  intros Hrs Hbs. revert acc. induction Hbs as [|r b rs bs Hb Hbs IH]; intros acc; [cbn; intros [= <-]; lia|].
  apply Forall_cons in Hrs as [Hr Hrs]. cbn. unfold checked_add, try_u64. destruct (acc + er_len r <=? u64_max); [|done]. cbn.
  intros H%IH; [|done]. destruct Hb as (_ & _ & _ & _ & Hb%read_region_len). rewrite length_app. lia.
Qed.

Lemma framebuffer_region_len mem bus caller v b :
  read_framebuffer_region_from_bus mem bus caller = Ok (v, b) -> Z.of_nat (length b) <= MAX_CAPTURE_FRAMEBUFFER_BYTES.
Proof.
  intros (hp & _ & (ch & _ & (m & _ & (entry & _ & H)%bind_ok)%bind_ok)%bind_ok)%bind_ok. cbv zeta in H.
  destruct (negb (utf8_valid _)); [done|]. apply bind_ok in H as (region & _ & H). apply bind_ok in H as (n & Hn & H).
  unfold checked_capture_len in Hn. destruct (_ <? rr_len region) eqn:Eq; [done|]. apply Z.ltb_ge in Eq. injection Hn as <-.
  destruct (read_region _ _ _ _ _) as [|b'] eqn:Eb; [done|]. injection H as _ <-. apply read_region_len in Eb. rewrite Eb.
  unfold MAX_CAPTURE_FRAMEBUFFER_BYTES in *. lia.
Qed.

(** A capture of [capture] with the guest in [mem] and the channel on [bus]. *)
Record captured (mem : M) (bus : Bus) (capture : CaptureSpec) (frame_counter : Z) (out : CaptureOutput) : Prop := {
  captured_ranges : cs_ranges capture = [] /\ co_feature_bytes out = [] \/
    exists hp ch m bs, runtime_detchannel bus = Some hp /\ channel (hp.1 : Host) = Some ch /\ read_manifest mem ch = Some m /\
      co_feature_bytes out = concat bs /\ Forall2 (range_bytes mem ch m) (cs_ranges capture) bs;
  captured_len : Z.of_nat (length (co_feature_bytes out)) <= MAX_CAPTURE_FEATURE_BYTES;
  captured_frame : if cs_framebuffer capture
    then exists version layout pixels, read_framebuffer_region_from_bus mem bus CaptureSpecFramebuffer = Ok (version, pixels) /\
      framebuffer_layout version = Some layout /\ Z.of_nat (length pixels) = fl_stride layout * fl_height layout /\
      Z.of_nat (length pixels) <= MAX_CAPTURE_FRAMEBUFFER_BYTES /\ co_fb_lz4 out = compress_prepend_size pixels /\
      co_fb_info out = Some (mkFbInfo (fl_width layout) (fl_height layout) (fl_stride layout) (fl_format layout) frame_counter)
    else co_fb_lz4 out = [] /\ co_fb_info out = None }.

(** C33: a capture that is answered holds exactly what was asked for: the bytes
    the guest published under each range, in the order of the ranges, each
    within its region and of the layout version asked for, their total within
    16 MiB; and, exactly when asked for, the framebuffer, of the size its layout
    version prescribes and within 64 MiB, with that geometry and the boundary's
    frame counter. *)
Theorem capture_exact mem bus capture frame_counter out :
  Forall (fun r => 0 <= er_len r) (cs_ranges capture) ->
  capture_at_boundary mem bus (Some capture) frame_counter = Ok out -> captured mem bus capture frame_counter out.
Proof.
  intros Hrs. unfold capture_at_boundary. destruct (bool_decide _ && _) eqn:Eempty.
  { apply andb_true_iff in Eempty as [E1%bool_decide_eq_true Ef%negb_true_iff]. intros [= <-].
    split; [by left|done|by rewrite Ef]. }
  clear Eempty. intros (hp & Hhp & (ch & Hch & (m & Hm & (len & Hlen & (n & Hn & (b & Hb & H)%bind_ok)%bind_ok)%bind_ok)%bind_ok)%bind_ok)%bind_ok.
  apply capture_ranges_inv in Hb as (bs & -> & Hbs). cbn [app] in H.
  destruct (runtime_detchannel bus) as [hp'|] eqn:E1; [|done]. injection Hhp as ->.
  destruct (channel hp.1) as [ch'|] eqn:E2; [|done]. injection Hch as ->.
  destruct (read_manifest mem ch) as [m'|] eqn:E3; [|done]. injection Hm as ->.
  destruct (ranges_len 0 (cs_ranges capture)) as [len'|] eqn:E4; [|done]. injection Hlen as ->.
  pose proof (captured_len_sum _ _ _ _ _ _ _ Hrs Hbs E4) as Hsum.
  unfold checked_capture_len in Hn. destruct (_ <? len) eqn:E5; [done|]. apply Z.ltb_ge in E5. clear Hn.
  destruct (cs_framebuffer capture) eqn:Ef.
  - apply bind_ok in H as ([v px] & Hv & H). apply bind_ok in H as ([px' info] & Hfb & H). injection H as <-.
    cbn [fst snd] in Hfb. unfold framebuffer_capture in Hfb. apply bind_ok in Hfb as ([lay px2] & Hr & Hfb). injection Hfb as <- <-.
    unfold framebuffer_response_from_region in Hr. destruct (framebuffer_layout v) as [lay'|] eqn:El; [|done].
    destruct (Z.of_nat (length px) =? expected_len lay') eqn:Ex; [|done]. apply Z.eqb_eq in Ex. injection Hr as -> ->.
    pose proof (framebuffer_region_len _ _ _ _ _ Hv). split.
    + right. exists hp, ch, m, bs. done.
    + cbn [co_feature_bytes]. lia.
    + rewrite Ef. exists v, lay, px2. done.
  - injection H as <-. split; [right; by exists hp, ch, m, bs|cbn [co_feature_bytes]; lia|by rewrite Ef].
Qed.
End Channel.
