(* ===== verification/Worker.v ===== *)
(** * The worker's lifecycle helpers: [dh-worker/src/service.rs]

    The slot manager decides who owns a slot; the runtime table holds what the
    slot owns.  The helpers here allocate, publish, roll back and destroy across
    both.  Each handler is a program over the two tables, the published slot
    events and whatever else its builder touches ([V]); the readings of the
    clock and the number of references to an actor are its arguments.  An actor
    is the runtime its thread owns; [ThreadHost] is what the thread asks of the
    operating system before it serves. *)

From Stdlib Require Import String.
From S2P Require Import Prelude SlotState SlotManager Status Devices Kvm Boundary RuntimeTable Runtime.
Local Open Scope string_scope.
Local Open Scope list_scope.
Local Open Scope Z_scope.

(** [RuntimeActorError], of those a start can give. *)
Inductive RuntimeActorError := ActorStart (e : list piece) | ActorRecv.
Definition actor_error_text (e : RuntimeActorError) : list piece :=
  match e with
  | ActorStart e => Lit "runtime actor start failed: " :: e
  | ActorRecv => [Lit "runtime actor receive failed: receiving on a closed channel"]
  end.

Class ThreadHost (S : Type) := {
  thread_spawn : S -> outcome Z unit * S;
  current_tid : S -> Z;
  install_kick_handler : S -> outcome Z unit * S;
  pin_current_thread : Z -> S -> outcome Z unit * S;
  set_current_thread_fifo : S -> outcome Z unit * S;
  InstRetired_open : S -> outcome CounterError unit * S;
  route_overflow_to_thread : Z -> S -> outcome CounterError unit * S }.

(** The state of a handler. *)
Record World (T V : Type) := mkWorld {
  w_manager : SlotManager; w_table : RuntimeTable T; w_published : list SlotInfo; w_env : V }.
Arguments mkWorld {T V}. Arguments w_manager {T V}. Arguments w_table {T V}. Arguments w_published {T V}. Arguments w_env {T V}.

(** ** Calls on the two tables *)

Section Calls.
Context {T V : Type}.
Local Notation World := (World T V).

Definition manager_op {A} (f : op A) : prog World SlotError A := fun w =>
  let '(o, m, ev) := f (w_manager w) in
  Some (o, mkWorld m (w_table w) (w_published w ++ ev) (w_env w)).
Definition manager_read {A} (f : SlotManager -> outcome SlotError A) : prog World SlotError A := observe (fun w => f (w_manager w)).
Definition table_op {A} (f : method (RuntimeTable T) RuntimeError A) : prog World RuntimeError A := fun w =>
  let '(o, t) := f (w_table w) in Some (o, mkWorld (w_manager w) t (w_published w) (w_env w)).
Definition table_read {A} (f : RuntimeTable T -> outcome RuntimeError A) : prog World RuntimeError A := observe (fun w => f (w_table w)).

(** Failures of the manager as statuses; the allocating calls also look at the table. *)
Definition slot_checked {A} (m : prog World SlotError A) : prog World Status A := map_err slot_error_to_status m.
Definition allocating {A} (m : prog World SlotError A) : prog World Status A := fun w =>
  match m w with
  | Some (Err e, w') => Some (Err (allocation_error_to_status (w_manager w') e), w')
  | Some (Ok a, w') => Some (Ok a, w')
  | Some (Panic, w') => Some (Panic, w')
  | None => None
  end.

(** A builder that sees only the environment, or the table too. *)
Definition with_env {A} (m : prog V Status A) : prog World Status A := fun w =>
  match m (w_env w) with Some (o, v) => Some (o, mkWorld (w_manager w) (w_table w) (w_published w) v) | None => None end.
Definition with_table {A} (m : prog (RuntimeTable T * V) Status A) : prog World Status A := fun w =>
  match m (w_table w, w_env w) with Some (o, (t, v)) => Some (o, mkWorld (w_manager w) t (w_published w) v) | None => None end.

(** ** Rollback *)

(** The leases that could not be released, with why. *)
Fixpoint release_leases (leases : list Lease) (now_ms : Z) : prog World Status (list (nat * SlotError)) :=
  match leases with
  | [] => mret []
  | l :: leases =>
      o ← reify (manager_op (destroy l now_ms));
      errors ← release_leases leases now_ms;
      match o with
      | Ok _ => mret errors
      | Err e => mret ((slot_id l, e) :: errors)
      | Panic => crash
      end
  end.
Definition rollback_manager_leases (method_ : string) (leases : list Lease) (now_ms : Z) : prog World Status unit :=
  errors ← release_leases leases now_ms;
  match errors with
  | [] => pass
  | _ => throw (internal [Lit method_; Lit " rollback could not release manager leases: "; Shown errors])
  end.

(** The removed runtimes, [None] where the slot was already empty. *)
Fixpoint take_inserted (method_ : string) (inserted : list nat) : prog World Status (list (nat * option T)) :=
  match inserted with
  | [] => mret []
  | i :: inserted =>
      o ← reify (table_op (take_runtime i));
      removed ← match o with
                | Ok rt => mret (Some rt)
                | Err (RtEmpty _) => mret None
                | Err e => throw (internal [Lit method_; Lit " rollback could not remove inserted runtime slot "; Num (Z.of_nat i);
                                            Lit ": "; Shown e])
                | Panic => crash
                end;
      rest ← take_inserted method_ inserted;
      mret ((i, removed) :: rest)
  end.
Fixpoint reinsert (removed : list (nat * option T)) : prog World Status (list (nat * RuntimeError)) :=
  match removed with
  | [] => mret []
  | (_, None) :: removed => reinsert removed
  | (i, Some rt) :: removed =>
      o ← reify (table_op (insert i rt));
      errors ← reinsert removed;
      match o with Ok _ => mret errors | Err e => mret ((i, e) :: errors) | Panic => crash end
  end.
(** The leases from index [idx] on; a lease that stays keeps its runtime. *)
Fixpoint release_or_restore (method_ : string) (idx : nat) (leases : list Lease) (removed : list (nat * option T)) (now_ms : Z) :
    prog World Status unit :=
  match leases with
  | [] => pass
  | l :: leases =>
      o ← reify (manager_op (destroy l now_ms));
      match o with
      | Ok _ => release_or_restore method_ (S idx) leases removed now_ms
      | Err e =>
          errors ← reinsert (drop idx removed);
          throw (internal [Lit method_; Lit " rollback could not release slot "; Num (Z.of_nat (slot_id l)); Lit ": "; Shown e;
                           Shown errors])
      | Panic => crash
      end
  end.
Definition rollback_inserted_lifecycle_leases (method_ : string) (leases : list Lease) (inserted_runtime_slots : list nat) (now_ms : Z) :
    prog World Status unit :=
  removed ← take_inserted method_ inserted_runtime_slots;
  release_or_restore method_ 0 leases removed now_ms.

Definition original_or_rollback (method_ : string) (original : Status) (rollback : outcome Status unit) : Status :=
  match rollback with
  | Err r => internal (Lit method_ :: Lit " failed with " :: quoted original ++ Lit "; rollback also failed with " :: quoted r)
  | _ => original
  end.

(** [return Err(original_or_rollback(method, original, rollback))]. *)
Definition fail_after {A} (method_ : string) (rollback : prog World Status unit) (original : Status) : prog World Status A :=
  o ← reify rollback;
  match o with
  | Panic => crash
  | _ => throw (original_or_rollback method_ original o)
  end.

(** Run a step; on an error, undo and fail. *)
Definition or_rollback {A B} (method_ : string) (m : prog World Status A) (rollback : prog World Status unit)
    (k : A -> prog World Status B) : prog World Status B :=
  o ← reify m;
  match o with
  | Ok a => k a
  | Err e => fail_after method_ rollback e
  | Panic => crash
  end.
End Calls.

(** ** Lifecycle *)

Section Lifecycle.
Context {X : AnyChannel} {M E R S V : Type} `{!Vcpu S, !PauseFlag S, !ThreadHost S}.
Local Notation Runtime := (SlotRuntime M E R S).
Local Notation World := (World Runtime V).
Context (token_source : nat -> bytes).

(** What [actor_main] does before it serves. *)
Definition actor_setup (slot_id : nat) (core : Z) : prog S (list piece) unit :=
  tid ← observe (fun s => Ok (current_tid s));
  _ ← map_err (fun e => [Lit "install kick handler: "; Num e]) (io install_kick_handler);
  _ ← map_err (fun e => [Lit "pin slot "; Num (Z.of_nat slot_id); Lit " actor to core "; Num core; Lit ": "; Num e])
        (io (pin_current_thread core));
  _ ← reify (E := Z) (io set_current_thread_fifo);
  _ ← map_err (fun e => [Lit "open InstRetired on slot "; Num (Z.of_nat slot_id); Lit " actor: "; Shown e]) (io InstRetired_open);
  _ ← map_err (fun e => [Lit "route InstRetired overflow to tid "; Num tid; Lit ": "; Shown e]) (io (route_overflow_to_thread tid));
  _ ← map_err (fun e => [Lit "reset InstRetired on slot "; Num (Z.of_nat slot_id); Lit ": "; Shown e]) InstRetired_reset;
  _ ← map_err (fun e => [Lit "arm InstRetired on slot "; Num (Z.of_nat slot_id); Lit ": "; Shown e]) (arm_period NEVER_FIRES_PERIOD);
  map_err (fun e => [Lit "enable InstRetired on slot "; Num (Z.of_nat slot_id); Lit ": "; Shown e]) InstRetired_enable.

(** [SlotActor::start]: the runtime its thread owns once it serves.  A thread that
    panics before it serves closes the channel it would have answered on. *)
Definition SlotActor_start (slot_id : nat) (core : Z) (rt : Runtime) : option (outcome RuntimeActorError Runtime) :=
  match thread_spawn (rt_slot rt) with
  | (Err e, _) => Some (Err (ActorStart [Num e]))
  | (Panic, _) => Some Panic
  | (Ok _, s) =>
      match actor_setup slot_id core s with
      | Some (Ok _, s) => Some (Ok (with_slot (pause_store false s) (with_thread Parked (with_counter true rt))))
      | Some (Err e, _) => Some (Err (ActorStart e))
      | Some (Panic, _) => Some (Err ActorRecv)
      | None => None
      end
  end.

Definition runtime_core (m : SlotManager) (slot_id : nat) : outcome Status Z :=
  ok_or (failed_precondition [Lit "slot "; Num (Z.of_nat slot_id); Lit " has no dedicated core"]) (core_for m slot_id).

Definition start_slot_actor (method_ : string) (slot_id : nat) (rt : Runtime) : prog World Status Runtime :=
  fun w =>
  match runtime_core (w_manager w) slot_id with
  | Ok core =>
      match SlotActor_start slot_id core rt with
      | Some (Ok rt) => Some (Ok rt, w)
      | Some (Err e) => Some (Err (failed_precondition (Lit method_ :: Lit ": " :: actor_error_text e)), w)
      | Some Panic => Some (Panic, w)
      | None => None
      end
  | Err e => Some (Err e, w)
  | Panic => Some (Panic, w)
  end.

Definition runtime_position (rt : Runtime) : Z * option bytes := (cumulative_icount (rt_position rt), rt_base rt).

(** From the runtime the builder made to the published slot. *)
Definition publish_allocated (method_ : string) (l : Lease) (allocated_at_ms publish_ms : Z) (rt : Runtime) : prog World Status Lease :=
  let rollback := rollback_manager_leases method_ [l] allocated_at_ms in
  or_rollback method_ (slot_checked (manager_op (renew l publish_ms))) rollback (fun _ =>
  let '(ic, base) := runtime_position rt in
  or_rollback method_ (start_slot_actor method_ (slot_id l) rt) rollback (fun actor =>
  or_rollback method_ (map_err runtime_error_to_status (table_op (insert (slot_id l) actor))) rollback (fun _ =>
  or_rollback method_ (slot_checked (manager_op (set_position l ic base publish_ms)))
    (rollback_inserted_lifecycle_leases method_ [l] [slot_id l] allocated_at_ms) (fun _ =>
  mret l)))).

Definition install_allocated_runtime (method_ : string) (allocated_at_ms publish_ms : Z) (build_runtime : Lease -> prog V Status Runtime) :
    prog World Status Lease :=
  l ← allocating (manager_op (allocate token_source allocated_at_ms));
  or_rollback method_ (with_env (build_runtime l)) (rollback_manager_leases method_ [l] allocated_at_ms)
    (publish_allocated method_ l allocated_at_ms publish_ms).

(** The loops of the fork over the children. *)
Fixpoint renew_all (leases : list Lease) (now_ms : Z) : prog World Status unit :=
  match leases with
  | [] => pass
  | l :: leases => _ ← slot_checked (manager_op (renew l now_ms)); renew_all leases now_ms
  end.
Fixpoint start_all (pairs : list (Lease * Runtime)) : prog World Status (list (nat * Runtime)) :=
  match pairs with
  | [] => mret []
  | (l, rt) :: pairs =>
      actor ← start_slot_actor "Fork" (slot_id l) rt;
      rest ← start_all pairs;
      mret ((slot_id l, actor) :: rest)
  end.
Fixpoint position_all (pairs : list (Lease * (Z * option bytes))) (now_ms : Z) : prog World Status unit :=
  match pairs with
  | [] => pass
  | (l, (ic, base)) :: pairs => _ ← slot_checked (manager_op (set_position l ic base now_ms)); position_all pairs now_ms
  end.

(** A builder that gives another number of runtimes than there are leases. *)
Definition checked_children (leases : list Lease) (m : prog (RuntimeTable Runtime * V) Status (list Runtime)) :
    prog (RuntimeTable Runtime * V) Status (list Runtime) :=
  rts ← m;
  if (length rts =? length leases)%nat then mret rts
  else throw (internal [Lit "Fork built "; Num (Z.of_nat (length rts)); Lit " child runtimes for "; Num (Z.of_nat (length leases));
                        Lit " leases"]).

(** From the child runtimes to the published children. *)
Definition publish_children (parent_lease : Lease) (child_leases : list Lease) (forked_at_ms publish_ms : Z) (child_runtimes : list Runtime) :
    prog World Status (list Lease) :=
  let rollback := rollback_manager_leases "Fork" child_leases forked_at_ms in
  or_rollback "Fork" (slot_checked (manager_read (fun m => validate m parent_lease publish_ms))) rollback (fun _ =>
  or_rollback "Fork" (renew_all child_leases publish_ms) rollback (fun _ =>
  or_rollback "Fork" (start_all (zip child_leases child_runtimes)) rollback (fun entries =>
  or_rollback "Fork" (map_err runtime_error_to_status (table_op (insert_many entries))) rollback (fun _ =>
  or_rollback "Fork" (position_all (zip child_leases (runtime_position <$> child_runtimes)) publish_ms)
    (rollback_inserted_lifecycle_leases "Fork" child_leases (slot_id <$> child_leases) forked_at_ms) (fun _ =>
  mret child_leases))))).

Definition install_forked_runtimes (parent_lease : Lease) (count : nat) (forked_at_ms publish_ms : Z)
    (build_runtimes : list Lease -> prog (RuntimeTable Runtime * V) Status (list Runtime)) : prog World Status (list Lease) :=
  _ ← allocating (manager_read (fun m => check_fork m parent_lease count forked_at_ms));
  _ ← map_err runtime_error_to_status (table_read (fun t => ensure_occupied t (slot_id parent_lease)));
  child_leases ← allocating (manager_op (SlotManager.fork token_source parent_lease count forked_at_ms));
  or_rollback "Fork" (with_table (checked_children child_leases (build_runtimes child_leases)))
    (rollback_manager_leases "Fork" child_leases forked_at_ms)
    (publish_children parent_lease child_leases forked_at_ms publish_ms).

(** [outstanding] is the actor's reference count. *)
Definition destroy_runtime_slot (l : Lease) (now_ms : Z) (outstanding : nat) : prog World Status unit :=
  _ ← slot_checked (manager_read (fun m => check_destroy m l now_ms));
  actor ← map_err runtime_error_to_status (table_op (take_runtime (slot_id l)));
  if negb (outstanding =? 1)%nat then
    o ← reify (table_op (insert (slot_id l) actor));
    match o with
    | Err e => throw (internal [Lit "DestroyVm found slot "; Num (Z.of_nat (slot_id l)); Lit " actor busy ("; Num (Z.of_nat outstanding);
                                Lit " references); runtime restore failed: "; Shown e])
    | Ok _ => throw (failed_precondition [Lit "DestroyVm cannot stop slot "; Num (Z.of_nat (slot_id l)); Lit " actor while ";
                                          Num (Z.of_nat outstanding); Lit " references exist"])
    | Panic => crash
    end
  else
    o ← reify (manager_op (destroy l now_ms));
    match o with
    | Ok _ => pass
    | Err e =>
        o ← reify (table_op (insert (slot_id l) actor));
        match o with
        | Err e' => throw (internal [Lit "DestroyVm failed after runtime removal: "; Shown e; Lit "; runtime restore failed: "; Shown e'])
        | Ok _ => throw (slot_error_to_status e)
        | Panic => crash
        end
    | Panic => crash
    end.
End Lifecycle.
