(* ===== verification/WorkerOk.v ===== *)
(** * The two tables stay aligned

    The slot manager and the runtime table are separate mutexes; the lifecycle
    helpers keep a runtime exactly in the slots the manager has given out.  A
    helper that fails leaves both tables as they were; one whose builder panics
    leaves the slot allocated. *)

From Stdlib Require Import String.
From S2P Require Import Prelude SlotState SlotManager SlotInvariants SlotLifecycle Status Devices Kvm Boundary RuntimeTable Runtime Worker.
Local Open Scope string_scope.
Local Open Scope list_scope.
Local Open Scope Z_scope.

(** ** Leases and time *)

#[local] Instance Lease_eq_dec : EqDecision Lease.
Proof. solve_decision. Defined.

(** A lease granted at [now] is good at [now]. *)
Definition lease_granted (m : SlotManager) (now : Z) : Prop := forall ttl, ttl_ms m = Some ttl -> 0 < ttl /\ now < u64_max.
Definition live_at (exp : option Z) (now : Z) : Prop := forall x, exp = Some x -> now < x.

Lemma granted_live m now : lease_granted m now -> live_at (expiry m now) now.
Proof.
  intros Hg x Hx. unfold expiry in Hx. destruct (ttl_ms m) as [ttl|] eqn:Ht; [|done]. injection Hx as <-.
  destruct (Hg ttl Ht). unfold saturating_add. lia.
Qed.
Lemma live_at_le exp now now' : live_at exp now -> now' <= now -> live_at exp now'.
Proof. intros H Hle x Hx. specialize (H x Hx). lia. Qed.

Definition holds (e : SlotEntry) (l : Lease) (now : Z) : Prop := exists exp, SlotManager.lease e = Some (token l, exp) /\ live_at exp now.
Lemma holds_valid e l now : holds e l now -> validate_entry e l now = Ok tt.
Proof.
  intros (exp & He & Hl). unfold validate_entry. rewrite He, bool_decide_true by done.
  destruct exp as [x|]; [|done]. specialize (Hl x eq_refl). destruct (Z.leb_spec x now); [lia|done].
Qed.

(** A slot given out and not forked: what a rollback can release. *)
Definition releasable (e : SlotEntry) (l : Lease) (now : Z) : Prop :=
  holds e l now /\ state e = Paused /\ live_children e = 0.

Lemma destroy_releasable l now m e :
  slots m !! slot_id l = Some e -> releasable e l now ->
  destroy l now m = (Ok tt, with_slots (release (slots m) (slot_id l)).1 m, (release (slots m) (slot_id l)).2).
Proof.
  intros He (Hh & Hs & Hc). unfold destroy, check_destroy, get_entry. rewrite He. cbn.
  unfold check_destroy_entry. rewrite holds_valid by done. cbn. rewrite Hc. cbn. by rewrite Hs.
Qed.

Lemma renew_holds m l now e :
  slots m !! slot_id l = Some e -> holds e l now -> lease_granted m now ->
  exists e', renew l now m = (Ok tt, with_slots (<[slot_id l := e']> (slots m)) m, []) /\ holds e' l now /\
    state e' = state e /\ live_children e' = live_children e /\ parent e' = parent e /\ ram_is_cow e' = ram_is_cow e /\
    icount e' = icount e /\ base_snapshot_id e' = base_snapshot_id e.
Proof.
  intros He Hh Hg. pose proof (holds_valid _ _ _ Hh) as Hv. destruct Hh as (exp & Hl & Hlive).
  unfold renew, on_entry, get_entry. rewrite He. cbn. rewrite Hv. cbn. rewrite Hl.
  destruct (ttl_ms m) as [ttl|] eqn:Ht.
  - eexists. split; [done|]. split_and!; try done. eexists. split; [done|].
    intros x [= <-]. destruct (Hg ttl Ht). unfold saturating_add. lia.
  - eexists. split; [done|]. split_and!; try done. by exists exp.
Qed.

Lemma set_position_holds m l ic base now e :
  slots m !! slot_id l = Some e -> holds e l now ->
  set_position l ic base now m = (Ok tt, with_slots (<[slot_id l := with_position ic base e]> (slots m)) m, []).
Proof.
  intros He Hh. unfold set_position, on_entry, get_entry. rewrite He. cbn. by rewrite holds_valid.
Qed.

(** ** Programs *)

Section Programs.
Context {T V : Type}.
Local Notation World := (World T V).

Lemma or_rollback_inv {A B} name (m : prog World Status A) rb (k : A -> prog World Status B) w o w' :
  or_rollback name m rb k w = Some (o, w') ->
  (exists a w1, m w = Some (Ok a, w1) /\ k a w1 = Some (o, w')) \/
  (exists e w1, m w = Some (Err e, w1) /\ fail_after name rb e w1 = Some (o, w')) \/
  (m w = Some (Panic, w') /\ o = Panic).
Proof.
  unfold or_rollback, mbind, prog_bind, reify. destruct (m w) as [[[a|e|] w1]|] eqn:Em; [| | |done]; intros H.
  - left. eauto.
  - right. left. eauto.
  - right. right. naive_solver.
Qed.

Lemma fail_after_ok {A} name (rb : prog World Status unit) e w w' :
  rb w = Some (Ok tt, w') -> fail_after (A := A) name rb e w = Some (Err e, w').
Proof. intros H. unfold fail_after, mbind, prog_bind, reify. by rewrite H. Qed.

Lemma rollback_one name l now (w : World) e :
  slots (w_manager w) !! slot_id l = Some e -> releasable e l now ->
  rollback_manager_leases name [l] now w =
    Some (Ok tt, mkWorld (with_slots (release (slots (w_manager w)) (slot_id l)).1 (w_manager w)) (w_table w)
                   (w_published w ++ (release (slots (w_manager w)) (slot_id l)).2) (w_env w)).
Proof.
  intros He Hr. unfold rollback_manager_leases, release_leases, mbind, prog_bind, reify, manager_op.
  by rewrite (destroy_releasable _ _ _ _ He Hr).
Qed.
End Programs.

(** ** Alignment *)

Section Lifecycle.
Context {X : AnyChannel} {M E R S V : Type} `{!Vcpu S, !PauseFlag S, !ThreadHost S}.
Context (token_source : nat -> bytes).
Local Notation Runtime := (SlotRuntime M E R S).
Local Notation World := (World Runtime V).
Implicit Types (w : World) (rt : Runtime).

(** The manager's books balance, and the runtimes are where its slots are: in
    every slot given out, except the [reserved] ones a verification holds
    without a runtime, and at the position the manager reports. *)
Record aligned (reserved : list nat) w : Prop := {
  al_accounted : accounted (slots (w_manager w));
  al_freeze : freeze_ok (slots (w_manager w));
  al_length : length (w_table w) = length (slots (w_manager w));
  al_occupied : forall i e o, slots (w_manager w) !! i = Some e -> w_table w !! i = Some o ->
    (o = None <-> state e = Empty \/ i ∈ reserved);
  al_reserved : forall i e, slots (w_manager w) !! i = Some e -> i ∈ reserved -> state e <> Empty;
  al_position : forall i e rt, slots (w_manager w) !! i = Some e -> w_table w !! i = Some (Some rt) ->
    state e = Paused \/ state e = Frozen -> runtime_position rt = (icount e, base_snapshot_id e) }.

Lemma SlotActor_start_position i core rt rt' :
  SlotActor_start i core rt = Some (Ok rt') -> runtime_position rt' = runtime_position rt.
Proof.
  unfold SlotActor_start. destruct (thread_spawn (rt_slot rt)) as [[| |] s]; [|done..].
  destruct (actor_setup i core s) as [[[]]|]; [|done..]. by intros [= <-].
Qed.

Lemma start_slot_actor_inv name i rt w o w' :
  start_slot_actor name i rt w = Some (o, w') ->
  w' = w /\ forall rt', o = Ok rt' -> runtime_position rt' = runtime_position rt.
Proof.
  unfold start_slot_actor. destruct (runtime_core (w_manager w) i) as [core|e|].
  - destruct (SlotActor_start i core rt) as [[rt1|e|]|] eqn:Es; [| | |done]; intros [= <- <-]; (split; [done|]); try done.
    intros rt' [= <-]. by eapply SlotActor_start_position.
  - intros [= <- <-]. done.
  - intros [= <- <-]. done.
Qed.

(** The entry of a slot allocated and not yet published. *)
Definition fresh_entry (tok : bytes) (exp : option Z) : SlotEntry := mkSlotEntry Paused (Some (tok, exp)) 0 None false 0 None.

(** Undoing an allocation puts the table back. *)
Lemma rollback_fresh name i tok now w t exp :
  t !! i = Some SlotEntry_empty -> live_at exp now ->
  slots (w_manager w) = <[i := fresh_entry tok exp]> t ->
  exists w', rollback_manager_leases name [mkLease i tok] now w = Some (Ok tt, w') /\
    slots (w_manager w') = t /\ w_table w' = w_table w /\ w_env w' = w_env w.
Proof.
  intros Ht Hl Hw. pose proof (lookup_lt_Some _ _ _ Ht) as Hlt.
  assert (slots (w_manager w) !! i = Some (fresh_entry tok exp)) as He by (rewrite Hw; by rewrite list_lookup_insert_eq).
  rewrite (rollback_one name (mkLease i tok) now w _ He) by (split_and!; [by exists exp|done..]).
  eexists. split; [done|]. split_and!; [|done..]. cbn.
  unfold release. rewrite He. cbn. rewrite Hw, list_insert_insert_eq. by apply list_insert_id.
Qed.

Lemma undo_fresh {A} name i tok now w t exp st (o : outcome Status A) w' :
  fail_after name (rollback_manager_leases name [mkLease i tok] now) st w = Some (o, w') ->
  slots (w_manager w) = <[i := fresh_entry tok exp]> t -> t !! i = Some SlotEntry_empty -> live_at exp now ->
  o = Err st /\ slots (w_manager w') = t /\ w_table w' = w_table w.
Proof.
  intros H Hw Ht Hl. destruct (rollback_fresh name i tok now w t exp Ht Hl Hw) as (w1 & Hrb & ? & ? & _).
  rewrite (fail_after_ok _ _ _ _ _ Hrb) in H. by injection H as <- <-.
Qed.

Lemma renew_fresh m i tok exp now :
  slots m !! i = Some (fresh_entry tok exp) ->
  (exists e, renew (mkLease i tok) now m = (Err e, m, [])) \/
  (exists exp', renew (mkLease i tok) now m = (Ok tt, with_slots (<[i := fresh_entry tok exp']> (slots m)) m, []) /\
     (lease_granted m now -> live_at exp' now)).
Proof.
  intros He. unfold renew, on_entry, get_entry. cbn [slot_id]. rewrite He. cbn.
  unfold validate_entry. cbn [SlotManager.lease fresh_entry token slot_id]. rewrite bool_decide_true by done.
  destruct exp as [x|].
  - destruct (Z.leb_spec x now); [left; by eexists|]. right. cbn. destruct (ttl_ms m) as [ttl|] eqn:Ht.
    + exists (Some (saturating_add now ttl)). split; [done|]. intros Hg y [= <-]. destruct (Hg ttl Ht). unfold saturating_add. lia.
    + exists (Some x). split; [done|]. by intros _ y [= <-].
  - right. cbn. destruct (ttl_ms m) as [ttl|] eqn:Ht.
    + exists (Some (saturating_add now ttl)). split; [done|]. intros Hg y [= <-]. destruct (Hg ttl Ht). unfold saturating_add. lia.
    + exists None. split; [done|]. by intros _ y [=].
Qed.

(** What the steps of a transaction leave of the books. *)
Definition books_kept (t t' : list SlotEntry) : Prop := accounted t -> freeze_ok t -> accounted t' /\ freeze_ok t'.
Lemma keeps_books t ev t' : keeps True t ev t' -> books_kept t t'.
Proof. intros [H1 H2 _] Ha Hf. auto. Qed.

(** Alignment after a change of some slots, each then given out with a runtime at
    its position. *)
Lemma aligned_changed reserved w w' :
  aligned reserved w -> books_kept (slots (w_manager w)) (slots (w_manager w')) ->
  length (slots (w_manager w')) = length (slots (w_manager w)) -> length (w_table w') = length (w_table w) ->
  (forall j, slots (w_manager w') !! j = slots (w_manager w) !! j /\ w_table w' !! j = w_table w !! j \/
     j ∉ reserved /\ exists e rt, slots (w_manager w') !! j = Some e /\ w_table w' !! j = Some (Some rt) /\ state e <> Empty /\
       runtime_position rt = (icount e, base_snapshot_id e)) ->
  aligned reserved w'.
Proof.
  intros [Ha Hf Hlen Hocc Hrsv Hpos] Hbk Hl1 Hl2 Hj. destruct (Hbk Ha Hf) as [Ha' Hf']. split; [done|done|congruence|..].
  - intros j e o He Ho. destruct (Hj j) as [[H1 H2]|(Hr & e' & rt & H1 & H2 & Hs & _)].
    + rewrite H1 in He. rewrite H2 in Ho. by eapply Hocc.
    + simplify_eq. split; [done|]. intros []; done.
  - intros j e He Hin. destruct (Hj j) as [[H1 H2]|(Hr & _)]; [|done]. rewrite H1 in He. by eapply Hrsv.
  - intros j e rt He Ho Hst. destruct (Hj j) as [[H1 H2]|(Hr & e' & rt' & H1 & H2 & Hs & Hp)].
    + rewrite H1 in He. rewrite H2 in Ho. by eapply Hpos.
    + by simplify_eq.
Qed.

Lemma aligned_publish reserved w w' i e rt :
  aligned reserved w -> slots (w_manager w) !! i = Some SlotEntry_empty ->
  same_links SlotEntry_empty e -> state e = Paused -> runtime_position rt = (icount e, base_snapshot_id e) ->
  slots (w_manager w') = <[i := e]> (slots (w_manager w)) -> w_table w' = <[i := Some rt]> (w_table w) ->
  aligned reserved w'.
Proof.
  intros Hal Hi Hlk Hs Hp Hw Ht. pose proof (lookup_lt_Some _ _ _ Hi) as Hlt. pose proof (al_length _ _ Hal) as Hlen.
  apply (aligned_changed reserved w); rewrite ?Hw, ?Ht, ?length_insert; try done.
  - intros Ha Hf. split; [apply (accounted_update _ _ SlotEntry_empty); try done; by rewrite Hs|].
    apply (freeze_update _ _ SlotEntry_empty); try done. destruct Hlk as (_ & _ & ->). cbn. lia.
  - intros j. destruct (decide (j = i)) as [->|]; [right|left; by rewrite !list_lookup_insert_ne].
    split; [intros Hin; by apply (al_reserved _ _ Hal i _ Hi Hin)|]. exists e, rt.
    rewrite !list_lookup_insert_eq by lia. split_and!; try done. by rewrite Hs.
Qed.

Lemma aligned_free reserved w i :
  aligned reserved w -> slots (w_manager w) !! i = Some SlotEntry_empty -> w_table w !! i = Some None.
Proof.
  intros [Ha Hf Hlen Hocc Hrsv Hpos] Hi. pose proof (lookup_lt_Some _ _ _ Hi) as Hlt.
  destruct (w_table w !! i) as [o|] eqn:Ho; [|apply lookup_ge_None in Ho; lia].
  f_equal. apply (Hocc i _ o Hi Ho). by left.
Qed.

(** From the builder's runtime on. *)
Lemma publish_allocated_spec reserved name allocated_at publish_at i tok exp rt w w2 o w' :
  aligned reserved w -> slots (w_manager w) !! i = Some SlotEntry_empty -> live_at exp allocated_at ->
  slots (w_manager w2) = <[i := fresh_entry tok exp]> (slots (w_manager w)) -> w_table w2 = w_table w ->
  lease_granted (w_manager w2) publish_at -> allocated_at <= publish_at ->
  publish_allocated name (mkLease i tok) allocated_at publish_at rt w2 = Some (o, w') ->
  match o with
  | Ok l => l = mkLease i tok /\ w_env w' = w_env w2 /\ exists actor e, runtime_position actor = runtime_position rt /\
      w_table w' = <[i := Some actor]> (w_table w) /\ slots (w_manager w') = <[i := e]> (slots (w_manager w)) /\ state e = Paused /\
      holds e l publish_at /\ runtime_position rt = (icount e, base_snapshot_id e) /\ aligned reserved w'
  | Err _ => slots (w_manager w') = slots (w_manager w) /\ w_table w' = w_table w
  | Panic => exists e, slots (w_manager w') = <[i := e]> (slots (w_manager w)) /\ state e = Paused /\ w_table w' = w_table w
  end.
Proof.
  intros Hal Hi Hexp Hw2 Ht2 Hg2 Hle H. unfold publish_allocated in H. pose proof (lookup_lt_Some _ _ _ Hi) as Hlt.
  assert (slots (w_manager w2) !! i = Some (fresh_entry tok exp)) as He2 by (rewrite Hw2; by rewrite list_lookup_insert_eq).
  apply or_rollback_inv in H as [([] & w3 & H3 & H)|[(e & w3 & H3 & H)|[H3 ->]]];
    unfold slot_checked, map_err, manager_op in H3;
    destruct (renew_fresh (w_manager w2) i tok exp publish_at He2) as [[err Hrn]|(exp' & Hrn & Hlive)]; rewrite Hrn in H3; try done.
  2:{ injection H3 as <- <-. eapply undo_fresh in H as (-> & ? & ?); [|exact Hw2|done..]. cbn in *. by rewrite <- Ht2. }
  injection H3 as <-. specialize (Hlive Hg2).
  set (w3 := mkWorld _ _ _ _) in H. assert (slots (w_manager w3) = <[i := fresh_entry tok exp']> (slots (w_manager w))) as Hw3.
  { cbn. by rewrite Hw2, list_insert_insert_eq. }
  assert (live_at exp' allocated_at) as Hlive' by by eapply live_at_le.
  unfold runtime_position in H at 1. cbv beta iota in H.
  apply or_rollback_inv in H as [(actor & w4 & H4 & H)|[(e & w4 & H4 & H)|[H4 ->]]]; apply start_slot_actor_inv in H4 as [-> Hact].
  2:{ eapply undo_fresh in H as (-> & ? & ?); [|exact Hw3|done..]. cbn in *. by rewrite <- Ht2. }
  2:{ exists (fresh_entry tok exp'). split_and!; try done. }
  specialize (Hact actor eq_refl).
  assert (w_table w3 !! i = Some None) as Hti by (cbn; rewrite Ht2; by eapply aligned_free).
  apply or_rollback_inv in H as [([] & w4 & H4 & H)|[(e & w4 & H4 & H)|[H4 ->]]];
    unfold map_err, table_op in H4; cbn [slot_id] in H4; rewrite insert_ok in H4 by done; try done.
  injection H4 as <-. set (w4 := mkWorld _ _ _ _) in H.
  assert (slots (w_manager w4) !! i = Some (fresh_entry tok exp')) as He4.
  { change (slots (w_manager w3) !! i = Some (fresh_entry tok exp')). rewrite Hw3. by rewrite list_lookup_insert_eq. }
  assert (holds (fresh_entry tok exp') (mkLease i tok) publish_at) as Hh by by exists exp'.
  apply or_rollback_inv in H as [([] & w5 & H5 & H)|[(e & w5 & H5 & H)|[H5 ->]]];
    unfold slot_checked, map_err, manager_op in H5; rewrite (set_position_holds _ (mkLease i tok) _ _ _ _ He4 Hh) in H5; try done.
  injection H5 as <-. injection H as <- <-. split_and!; [done..|].
  set (e := with_position (cumulative_icount (rt_position rt)) (rt_base rt) (fresh_entry tok exp')).
  assert (<[i := e]> (slots (w_manager w3)) = <[i := e]> (slots (w_manager w))) as Hs5 by (by rewrite Hw3, list_insert_insert_eq).
  exists actor, e. split_and!; try done; [cbn; by rewrite Ht2|]. apply (aligned_publish reserved w _ i e actor); try done. cbn. by rewrite Ht2.
Qed.

(** C15: publishing a new VM is a transaction over the slot manager and the runtime
    table.  From aligned tables, when the handler answers with a lease, the slot
    was the first free one, the runtime the builder made sits in it, the manager
    shows the slot Paused at the runtime's position and base under that lease,
    every other slot is untouched and the tables are aligned.  When it answers an
    error, from the builder, an expired lease, a missing core, a thread that
    would not start or a table that refused, both tables are what they were.
    When the builder panics the slot stays allocated, with no runtime and no
    client that holds its lease. *)
Theorem install_is_transactional reserved name allocated_at publish_at build w o w' :
  aligned reserved w -> lease_granted (w_manager w) allocated_at -> lease_granted (w_manager w) publish_at ->
  allocated_at <= publish_at ->
  install_allocated_runtime token_source name allocated_at publish_at build w = Some (o, w') ->
  match o with
  | Ok l => exists rt actor e, head (empty_slots (slots (w_manager w))) = Some (slot_id l) /\
      build l (w_env w) = Some (Ok rt, w_env w') /\ runtime_position actor = runtime_position rt /\
      w_table w' = <[slot_id l := Some actor]> (w_table w) /\
      slots (w_manager w') = <[slot_id l := e]> (slots (w_manager w)) /\ state e = Paused /\
      holds e l publish_at /\ runtime_position rt = (icount e, base_snapshot_id e) /\ aligned reserved w'
  | Err _ => slots (w_manager w') = slots (w_manager w) /\ w_table w' = w_table w
  | Panic => exists i e, head (empty_slots (slots (w_manager w))) = Some i /\
      slots (w_manager w') = <[i := e]> (slots (w_manager w)) /\ state e = Paused /\ w_table w' = w_table w
  end.
Proof.
  intros Hal Hg1 Hg2 Hle H. unfold install_allocated_runtime in H.
  apply prog_bind_inv in H as [(l & w1 & H0 & H)|[(e & H0 & ->)|[H0 ->]]].
  - revert H0. unfold allocating, manager_op.
    destruct (allocate token_source allocated_at (w_manager w)) as [[r m1] ev] eqn:Ea.
    destruct (allocate_eq _ _ _ _ _ _ Ea (al_accounted _ _ Hal)) as [(-> & _)|(i & Hhd & Hi & -> & -> & ->)]; [done|].
    intros [= <- <-]. set (tok := token_source (minted (w_manager w))) in *.
    fold (fresh_entry tok (expiry (w_manager w) allocated_at)) in H.
    set (t := slots (w_manager w)) in *. set (exp := expiry (w_manager w) allocated_at) in *.
    assert (live_at exp allocated_at) as Hexp by by apply granted_live.
    apply or_rollback_inv in H as [(rt & w2 & H2 & H)|[(e & w2 & H2 & H)|[H2 ->]]];
      unfold with_env in H2; cbn [w_env w_manager w_table w_published] in H2;
      destruct (build _ (w_env w)) as [[ob v2]|] eqn:Eb; [|done| |done| |done]; injection H2 as -> <-.
    2:{ by eapply undo_fresh in H as (-> & ? & ?). }
    2:{ exists i, (fresh_entry tok exp). done. }
    eapply (publish_allocated_spec reserved name allocated_at publish_at i tok exp rt w) in H; try done.
    destruct o as [l|e|]; [|done|].
    + destruct H as (-> & Henv & actor & e & ? & ? & ? & ? & ? & ? & ?). exists rt, actor, e. split_and!; try done. by rewrite Henv.
    + destruct H as (e & ? & ? & ?). by exists i, e.
  - revert H0. unfold allocating, manager_op.
    destruct (allocate token_source allocated_at (w_manager w)) as [[r m1] ev] eqn:Ea.
    destruct (allocate_eq _ _ _ _ _ _ Ea (al_accounted _ _ Hal)) as [(-> & -> & _)|(i & Hhd & Hi & -> & -> & ->)]; [|done].
    by intros [= <- <-].
  - exfalso. revert H0. unfold allocating, manager_op.
    destruct (allocate token_source allocated_at (w_manager w)) as [[r m1] ev] eqn:Ea.
    destruct (allocate_eq _ _ _ _ _ _ Ea (al_accounted _ _ Hal)) as [(-> & -> & _)|(i & Hhd & Hi & -> & -> & ->)]; done.
Qed.

(** Releasing a childless slot together with its runtime keeps the tables aligned. *)
Lemma aligned_release reserved w w' i e :
  aligned reserved w -> slots (w_manager w) !! i = Some e -> live_children e = 0 -> i ∉ reserved ->
  slots (w_manager w') = (release (slots (w_manager w)) i).1 -> w_table w' = <[i := None]> (w_table w) ->
  aligned reserved w'.
Proof.
  intros [Ha Hf Hlen Hocc Hrsv Hpos] Hi Hc Hr Hw Ht. pose proof (lookup_lt_Some _ _ _ Hi) as Hlt.
  pose proof (no_self_parent _ _ _ _ Ha Hi) as Hself.
  destruct (release_ok _ _ _ Ha Hi Hc) as [Ha' Hf'].
  assert (forall j f', slots (w_manager w') !! j = Some f' -> j <> i ->
    exists f, slots (w_manager w) !! j = Some f /\ f' = unlink (parent e) j f) as Hback.
  { intros j f' Hj Hne. rewrite Hw, (release_lookup _ _ _ Hi Hself), decide_False in Hj by done.
    destruct (slots (w_manager w) !! j) as [f|]; [|done]. injection Hj as <-. eauto. }
  split; rewrite ?Hw, ?Ht; [done|by apply Hf'|by rewrite length_insert, (release_length _ _ _ Hi Hself)|..].
  - intros j f o Hj Ho. destruct (decide (j = i)) as [->|].
    + rewrite (release_lookup _ _ _ Hi Hself), decide_True in Hj by done. rewrite list_lookup_insert_eq in Ho by lia. simplify_eq.
      split; [by left|done].
    + rewrite <- Hw in Hj. destruct (Hback _ _ Hj ltac:(done)) as (f0 & Hf0 & ->). rewrite list_lookup_insert_ne in Ho by done.
      rewrite (Hocc _ _ _ Hf0 Ho). destruct (unlink_state (parent e) j f0) as [->|(-> & -> & _)]; [done|].
      split; intros []; auto; done.
  - intros j f Hj Hin. rewrite <- Hw in Hj. destruct (Hback _ _ Hj ltac:(by intros ->)) as (f0 & Hf0 & ->).
    specialize (Hrsv _ _ Hf0 Hin). destruct (unlink_state (parent e) j f0) as [->|(_ & -> & _)]; done.
  - intros j f rt Hj Ho Hst. destruct (decide (j = i)) as [->|].
    { rewrite list_lookup_insert_eq in Ho by lia. done. }
    rewrite <- Hw in Hj. destruct (Hback _ _ Hj ltac:(done)) as (f0 & Hf0 & ->). rewrite list_lookup_insert_ne in Ho by done.
    rewrite (Hpos _ _ _ Hf0 Ho); [unfold unlink; by repeat case_match|].
    destruct (unlink_state (parent e) j f0) as [He|(He & _)]; [by rewrite He in Hst|by right].
Qed.

Lemma check_destroy_inv m l now :
  check_destroy m l now = Ok tt -> accounted (slots m) ->
  exists e, slots m !! slot_id l = Some e /\ validate_entry e l now = Ok tt /\ live_children e = 0 /\ state e <> Empty /\
    destroy l now m = (Ok tt, with_slots (release (slots m) (slot_id l)).1 m, (release (slots m) (slot_id l)).2).
Proof.
  intros Hc Ha. unfold destroy. rewrite Hc. unfold check_destroy, get_entry in Hc.
  destruct (slots m !! slot_id l) as [e|] eqn:He; [|done]. cbn in Hc. exists e. unfold check_destroy_entry in Hc.
  apply bind_ok in Hc as ([] & Hv & Hc). destruct (0 <? live_children e) eqn:Hz; [done|].
  split_and!; try done; [|by eapply accounted_leased].
  destruct Ha as [_ Ha]. destruct (Ha _ _ He) as [_ Hl]. specialize (Hl ltac:(done)).
  pose proof (children_nonneg (slots m) (slot_id l)). lia.
Qed.

(** DestroyVm either frees the slot and its runtime together or changes neither
    table.  It succeeds only for the holder of the slot's lease, when the slot
    has no forked children and no other thread refers to its actor. *)
Theorem destroy_is_transactional reserved l now outstanding w o w' :
  aligned reserved w -> slot_id l ∉ reserved -> destroy_runtime_slot l now outstanding w = Some (o, w') ->
  match o with
  | Ok _ => outstanding = 1%nat /\ aligned reserved w' /\
      (exists e, slots (w_manager w) !! slot_id l = Some e /\ validate_entry e l now = Ok tt /\ live_children e = 0) /\
      slots (w_manager w') = (release (slots (w_manager w)) (slot_id l)).1 /\ w_table w' = <[slot_id l := None]> (w_table w)
  | Err _ => slots (w_manager w') = slots (w_manager w) /\ w_table w' = w_table w
  | Panic => False
  end.
Proof.
  intros Hal Hr H. unfold destroy_runtime_slot in H. pose proof (al_accounted _ _ Hal) as Ha.
  apply prog_bind_inv in H as [([] & w1 & H1 & H)|[(e & H1 & ->)|[H1 ->]]];
    unfold slot_checked, map_err, manager_read, observe in H1; cbn in H1;
    destruct (check_destroy (w_manager w) l now) as [[]|err|] eqn:Ec; cbn in H1; try discriminate H1; try (by destruct (check_destroy_no_panic _ _ _ Ec)).
  2:{ injection H1 as _ <-. done. }
  injection H1 as <-. destruct (check_destroy_inv _ _ _ Ec Ha) as (e & He & Hv & Hc & Hne & Hd).
  assert (exists rt, w_table w !! slot_id l = Some (Some rt)) as [rt Hrt].
  { pose proof (lookup_lt_Some _ _ _ He) as Hlt. rewrite <- (al_length _ _ Hal) in Hlt. apply lookup_lt_is_Some in Hlt as [o' Ho].
    destruct o' as [rt|]; [by exists rt|]. destruct (proj1 (al_occupied _ _ Hal _ _ _ He Ho) eq_refl); done. }
  apply prog_bind_inv in H as [(actor & w1 & H1 & H)|[(e' & H1 & ->)|[H1 ->]]];
    unfold map_err, table_op in H1; rewrite (take_ok _ _ _ Hrt) in H1; try done.
  injection H1 as <- <-. destruct (negb (outstanding =? 1)%nat) eqn:En.
  - unfold mbind, prog_bind, reify, table_op in H. cbn [w_table] in H. rewrite (insert_take _ _ _ Hrt) in H.
    by injection H as <- <-.
  - unfold mbind, prog_bind, reify, manager_op in H. cbn [w_manager] in H. rewrite Hd in H. injection H as <- <-.
    apply negb_false_iff, Nat.eqb_eq in En. split_and!; try done; [|by exists e].
    by apply (aligned_release reserved w _ (slot_id l) e).
Qed.

(** ** Forks *)

(** Between the fork of the slot table and its publication: the parent Frozen,
    counting the children whose leases are [ls], the children Paused and
    releasable at [now], every other slot as in [t0]. *)
Record half_forked (t0 : list SlotEntry) (pid : nat) (p : SlotEntry) (ls : list Lease) (now : Z) (t : list SlotEntry) : Prop := {
  hf_length : length t = length t0;
  hf_parent : t !! pid = Some match ls with [] => p | _ => with_children (Z.of_nat (length ls)) (with_state Frozen p) end;
  hf_child : forall l, l ∈ ls -> exists e, t !! slot_id l = Some e /\ releasable e l now /\ parent e = Some pid;
  hf_rest : forall j, j <> pid -> j ∉ slot_id <$> ls -> t !! j = t0 !! j }.

(** The slots a fork of [n] children claims. *)
Record forkable (t0 : list SlotEntry) (pid : nat) (p : SlotEntry) (ls : list Lease) : Prop := {
  fk_parent : t0 !! pid = Some p;
  fk_paused : state p = Paused;
  fk_childless : live_children p = 0;
  fk_free : forall l, l ∈ ls -> t0 !! slot_id l = Some SlotEntry_empty;
  fk_nodup : NoDup (slot_id <$> ls);
  fk_other : pid ∉ slot_id <$> ls }.

Lemma forkable_tail t0 pid p l ls : forkable t0 pid p (l :: ls) -> forkable t0 pid p ls.
Proof.
  intros [H1 H2 H3 H4 H5 H6]. split; try done.
  - intros l' Hl. apply H4. by right.
  - by apply NoDup_cons in H5 as [_ ?].
  - by apply not_elem_of_cons in H6 as [_ ?].
Qed.

Lemma half_forked_nil t0 pid p now t : forkable t0 pid p [] -> half_forked t0 pid p [] now t -> t = t0.
Proof.
  intros Hfk [Hl Hp _ Hr]. apply list_eq. intros j. destruct (decide (j = pid)) as [->|].
  - rewrite Hp. symmetry. apply Hfk.
  - apply Hr; [done|]. apply not_elem_of_nil.
Qed.

(** Releasing the last child thaws the parent. *)
Lemma unlink_forked pid p n :
  state p = Paused -> live_children p = 0 ->
  unlink (Some pid) pid (with_children (Z.of_nat (Datatypes.S n)) (with_state Frozen p)) =
  match n with O => p | _ => with_children (Z.of_nat n) (with_state Frozen p) end.
Proof.
  intros Hs Hc. unfold unlink. rewrite bool_decide_true by done. cbn [live_children with_children state with_state].
  replace (saturating_sub (Z.of_nat (Datatypes.S n)) 1) with (Z.of_nat n) by (unfold saturating_sub; lia).
  rewrite (bool_decide_true (Frozen = Frozen)) by done. destruct n as [|n].
  - cbn. destruct p; cbn in *. by subst.
  - rewrite (proj2 (Z.eqb_neq _ _)) by lia. done.
Qed.

Lemma half_forked_release t0 pid p l ls now m :
  forkable t0 pid p (l :: ls) -> half_forked t0 pid p (l :: ls) now (slots m) ->
  exists m' ev, destroy l now m = (Ok tt, m', ev) /\ half_forked t0 pid p ls now (slots m').
Proof.
  intros Hfk [Hl Hp Hc Hr]. destruct (Hc l ltac:(left)) as (e & He & Hrel & Hpar).
  destruct Hfk as [_ Hs Hz Hfree Hnd Hoth]. apply NoDup_cons in Hnd as [Hnl Hnd]. apply not_elem_of_cons in Hoth as [Hne Hoth].
  assert (parent e <> Some (slot_id l)) as Hself by congruence.
  do 2 eexists. split; [by apply (destroy_releasable l now m e)|]. cbn [slots with_slots].
  split; rewrite ?(release_length _ _ _ He Hself); [done|..].
  - rewrite (release_lookup _ _ _ He Hself), decide_False, Hp by done. cbn [length fmap option_fmap option_map].
    rewrite Hpar, unlink_forked by done. by destruct ls.
  - intros l' Hl'. assert (slot_id l' <> slot_id l) as Hd.
    { intros Heq. apply Hnl. rewrite <- Heq. apply list_elem_of_fmap. by exists l'. }
    assert (slot_id l' <> pid) as Hd'.
    { intros Heq. apply Hoth. rewrite <- Heq. apply list_elem_of_fmap. by exists l'. }
    destruct (Hc l' ltac:(by right)) as (e' & He' & ? & ?). exists e'.
    rewrite (release_lookup _ _ _ He Hself), decide_False, He' by done. cbn. rewrite Hpar. unfold unlink.
    rewrite bool_decide_false by congruence. done.
  - intros j Hj Hjl. rewrite (release_lookup _ _ _ He Hself). destruct (decide (j = slot_id l)) as [->|Hd].
    + symmetry. apply Hfree. left.
    + rewrite Hr; [|done|by apply not_elem_of_cons]. rewrite Hpar. unfold unlink. rewrite bool_decide_false by congruence.
      by destruct (t0 !! j).
Qed.

Lemma release_half_forked t0 pid p ls now w :
  forkable t0 pid p ls -> half_forked t0 pid p ls now (slots (w_manager w)) ->
  exists w', release_leases ls now w = Some (Ok [], w') /\ slots (w_manager w') = t0 /\ w_table w' = w_table w /\ w_env w' = w_env w.
Proof.
  revert w; induction ls as [|l ls IH]; intros w Hfk Hh.
  { exists w. split_and!; try done. by eapply half_forked_nil. }
  destruct (half_forked_release _ _ _ _ _ _ _ Hfk Hh) as (m' & ev & Hd & Hh').
  destruct (IH (mkWorld m' (w_table w) (w_published w ++ ev) (w_env w)) (forkable_tail _ _ _ _ _ Hfk) Hh') as (w' & Hrl & ? & ? & ?).
  exists w'. split_and!; try done. cbn [release_leases]. unfold mbind, prog_bind, reify, manager_op. rewrite Hd. by rewrite Hrl.
Qed.

Lemma undo_fork {A} t0 pid p ls now w st (o : outcome Status A) w' :
  fail_after "Fork" (rollback_manager_leases "Fork" ls now) st w = Some (o, w') ->
  forkable t0 pid p ls -> half_forked t0 pid p ls now (slots (w_manager w)) ->
  o = Err st /\ slots (w_manager w') = t0 /\ w_table w' = w_table w.
Proof.
  intros H Hfk Hh. destruct (release_half_forked _ _ _ _ _ _ Hfk Hh) as (w1 & Hrl & ? & ? & _).
  rewrite (fail_after_ok _ _ _ _ w1) in H; [by injection H as <- <-|].
  unfold rollback_manager_leases, mbind, prog_bind. by rewrite Hrl.
Qed.

Lemma NoDup_slot_ids (ls : list Lease) l l' : NoDup (slot_id <$> ls) -> l ∈ ls -> l' ∈ ls -> slot_id l = slot_id l' -> l = l'.
Proof.
  intros Hnd Hl Hl' Heq. apply list_elem_of_lookup in Hl as [i Hi]. apply list_elem_of_lookup in Hl' as [j Hj].
  assert (i = j) as ->; [|congruence]. eapply (NoDup_lookup _ i j (slot_id l) Hnd); rewrite list_lookup_fmap, ?Hi, ?Hj; cbn; by rewrite ?Heq.
Qed.

(** A renewal of a child, granted or refused. *)
Lemma half_forked_renew t0 pid p ls now l now' m r m' ev :
  forkable t0 pid p ls -> half_forked t0 pid p ls now (slots m) -> l ∈ ls -> renew l now' m = (r, m', ev) ->
  now <= now' -> lease_granted m now' ->
  half_forked t0 pid p ls now (slots m') /\ r <> Panic /\ ttl_ms m' = ttl_ms m /\
  (r = Ok tt -> exists e, slots m' !! slot_id l = Some e /\ holds e l now') /\
  (forall l', l' ∈ ls -> l' <> l -> slots m' !! slot_id l' = slots m !! slot_id l').
Proof.
  intros Hfk [Hl Hp Hc Hr] Hin Hrn Hle Hg. destruct (Hc l Hin) as (e & He & (Hh & Hs & Hz) & Hpar).
  assert (slot_id l <> pid) as Hd.
  { intros Heq. apply (fk_other _ _ _ _ Hfk). rewrite <- Heq. apply list_elem_of_fmap. by exists l. }
  assert (forall l', l' ∈ ls -> l' <> l -> slot_id l' <> slot_id l) as Hdist.
  { intros l' Hl' Hn Heq. apply Hn. by apply (NoDup_slot_ids ls); [apply Hfk|..]. }
  pose proof (lookup_lt_Some _ _ _ He) as Hlt.
  assert (r <> Ok tt /\ r <> Panic /\ m' = m \/ exists e', r = Ok tt /\ m' = with_slots (<[slot_id l := e']> (slots m)) m /\ holds e' l now' /\
    holds e' l now /\ state e' = Paused /\ live_children e' = 0 /\ parent e' = Some pid) as [(Hno & Hnp & ->)|(e' & -> & -> & Hh' & Hh'' & Hs' & Hz' & Hp')].
  { destruct (validate_entry e l now') as [[]|err|] eqn:Hv.
    - right. destruct (renew_holds m l now' e He) as (e' & Heq & Hh' & ? & ? & ? & _).
      { destruct Hh as (exp & Hlease & Hlive). exists exp. split; [done|]. intros x ->. unfold validate_entry in Hv. rewrite Hlease in Hv.
        rewrite bool_decide_true in Hv by done. destruct (Z.leb_spec x now'); [done|]. lia. }
      { done. }
      rewrite Heq in Hrn. injection Hrn as <- <- <-. exists e'. split_and!; try done; try congruence.
      destruct Hh' as (exp & ? & ?). exists exp. split; [done|]. by eapply live_at_le.
    - left. unfold renew, on_entry, get_entry in Hrn. rewrite He in Hrn. cbn in Hrn. rewrite Hv in Hrn. by injection Hrn as <- <- <-.
    - by destruct (validate_entry_no_panic e l now'). }
  { split_and!; done. }
  cbn [slots with_slots]. split_and!; try done.
  - split; [by rewrite length_insert|by rewrite list_lookup_insert_ne| |].
    + intros l' Hl'. destruct (decide (l' = l)) as [->|Hn].
      * exists e'. rewrite list_lookup_insert_eq by done. done.
      * rewrite list_lookup_insert_ne by (symmetry; by apply Hdist). by apply Hc.
    + intros j Hj Hjl. rewrite list_lookup_insert_ne; [by apply Hr|]. intros <-. apply Hjl, list_elem_of_fmap. by exists l.
  - intros _. exists e'. by rewrite list_lookup_insert_eq.
  - intros l' Hl' Hn. rewrite list_lookup_insert_ne; [done|]. symmetry. by apply Hdist.
Qed.

Lemma renew_all_half t0 pid p ls now now' sub w o w' :
  forkable t0 pid p ls -> half_forked t0 pid p ls now (slots (w_manager w)) -> now <= now' -> lease_granted (w_manager w) now' ->
  (forall l, l ∈ sub -> l ∈ ls) -> NoDup sub -> renew_all sub now' w = Some (o, w') ->
  half_forked t0 pid p ls now (slots (w_manager w')) /\ o <> Panic /\ w_table w' = w_table w /\
  books_kept (slots (w_manager w)) (slots (w_manager w')) /\
  (forall l, l ∈ ls -> l ∉ sub -> slots (w_manager w') !! slot_id l = slots (w_manager w) !! slot_id l) /\
  (o = Ok tt -> forall l, l ∈ sub -> exists e, slots (w_manager w') !! slot_id l = Some e /\ holds e l now').
Proof.
  intros Hfk. revert w; induction sub as [|l sub IH]; intros w Hh Hle Hg Hsub Hnd H.
  { injection H as <- <-. split_and!; try done; intros _ l Hl; by apply not_elem_of_nil in Hl. }
  apply NoDup_cons in Hnd as [Hnl Hnd].
  cbn [renew_all] in H. unfold mbind, prog_bind, slot_checked, map_err, manager_op in H.
  destruct (renew l now' (w_manager w)) as [[r m1] ev] eqn:Ern.
  destruct (half_forked_renew _ _ _ _ _ _ _ _ _ _ _ Hfk Hh (Hsub l ltac:(left)) Ern Hle Hg) as (Hh1 & Hnp & Httl & Hok & Hoth).
  pose proof (keeps_books _ _ _ (renew_keeps True _ _ _ _ _ _ Ern)) as Hbk.
  destruct r as [[]|err|]; cbn in H; [| |done].
  - destruct (IH (mkWorld m1 (w_table w) (w_published w ++ ev) (w_env w)) Hh1 Hle ltac:(cbn; intros ttl Ht; apply Hg; congruence) ltac:(intros; apply Hsub; by right) Hnd H) as (H1 & H2 & H3 & H4 & H5 & H6).
    split_and!; try done.
    + intros Ha Hf. destruct (Hbk Ha Hf). by apply H4.
    + intros l' Hl' Hn. apply not_elem_of_cons in Hn as [Hn1 Hn2]. rewrite H5 by done. by apply Hoth.
    + intros Ho l' Hl'. apply elem_of_cons in Hl' as [->|Hl']; [|by apply H6]. rewrite H5 by (try done; apply Hsub; left). by apply Hok.
  - injection H as <- <-. split_and!; try done. intros l' Hl' Hn. apply not_elem_of_cons in Hn as [Hn1 _]. by apply Hoth.
Qed.

Lemma start_all_inv pairs w o w' :
  start_all pairs w = Some (o, w') ->
  w' = w /\ forall entries, o = Ok entries ->
    Forall2 (fun pr en => en.1 = slot_id pr.1 /\ runtime_position en.2 = runtime_position pr.2) pairs entries.
Proof.
  revert o w'; induction pairs as [|[l rt] pairs IH]; intros o w' H; cbn [start_all] in H.
  { injection H as <- <-. split; [done|]. intros entries [= <-]. constructor. }
  apply prog_bind_inv in H as [(actor & w1 & H1 & H)|[(e & H1 & ->)|[H1 ->]]]; apply start_slot_actor_inv in H1 as [-> Ha]; [|done..].
  apply prog_bind_inv in H as [(rest & w1 & H1 & H)|[(e & H1 & ->)|[H1 ->]]]; apply IH in H1 as [-> Hr]; [|done..].
  injection H as <- <-. split; [done|]. intros entries [= <-]. constructor; [|by apply Hr]. cbn. split; [done|by apply Ha].
Qed.

Lemma position_all_ok pairs now w :
  (forall l pos, (l, pos) ∈ pairs -> exists e, slots (w_manager w) !! slot_id l = Some e /\ holds e l now) ->
  NoDup ((fun pr => slot_id pr.1) <$> pairs) ->
  exists w', position_all pairs now w = Some (Ok tt, w') /\ w_table w' = w_table w /\
    length (slots (w_manager w')) = length (slots (w_manager w)) /\
    books_kept (slots (w_manager w)) (slots (w_manager w')) /\
    (forall l ic base, (l, (ic, base)) ∈ pairs -> forall e, slots (w_manager w) !! slot_id l = Some e ->
       slots (w_manager w') !! slot_id l = Some (with_position ic base e)) /\
    (forall j, j ∉ ((fun pr => slot_id pr.1) <$> pairs) -> slots (w_manager w') !! j = slots (w_manager w) !! j).
Proof.
  revert w; induction pairs as [|[l [ic base]] pairs IH]; intros w Hh Hnd.
  { exists w. split_and!; try done; intros l ic base Hl; by apply not_elem_of_nil in Hl. }
  cbn [fmap list_fmap] in Hnd. apply NoDup_cons in Hnd as [Hnl Hnd]. cbn [fst] in Hnl.
  destruct (Hh l (ic, base) ltac:(left)) as (e & He & Hle). pose proof (lookup_lt_Some _ _ _ He) as Hlt.
  pose proof (set_position_holds (w_manager w) l ic base now e He Hle) as Hsp.
  set (w1 := mkWorld (with_slots (<[slot_id l := with_position ic base e]> (slots (w_manager w))) (w_manager w)) (w_table w)
               (w_published w ++ []) (w_env w)).
  assert (forall l' pos, (l', pos) ∈ pairs -> slot_id l' <> slot_id l) as Hd.
  { intros l' pos Hl' Heq. apply Hnl. rewrite <- Heq. apply list_elem_of_fmap. by exists (l', pos). }
  destruct (IH w1) as (w' & H1 & H2 & H3 & H4 & H5 & H6); [|done|].
  { intros l' pos Hl'. cbn. rewrite list_lookup_insert_ne by (symmetry; by eapply Hd). apply (Hh l' pos). by right. }
  exists w'. split_and!; try done.
  - cbn [position_all]. unfold mbind, prog_bind, slot_checked, map_err, manager_op. rewrite Hsp. cbn. exact H1.
  - rewrite H3. cbn. by rewrite length_insert.
  - intros Ha Hf. destruct (keeps_books _ _ _ (set_position_keeps True _ _ _ _ _ _ _ _ Hsp) Ha Hf). by apply H4.
  - intros l' ic' base' Hl' e' He'. apply elem_of_cons in Hl' as [[= -> -> ->]|Hl'].
    + rewrite H6 by done. cbn. rewrite list_lookup_insert_eq by done. by simplify_eq.
    + apply H5; [done|]. cbn. rewrite list_lookup_insert_ne; [done|]. symmetry. by eapply Hd.
  - intros j Hj. cbn [fmap list_fmap] in Hj. apply not_elem_of_cons in Hj as [Hj1 Hj2]. rewrite H6 by done. cbn.
    by rewrite list_lookup_insert_ne.
Qed.

(** What the fork's builder may do to the table: work on the parent's runtime,
    without moving it. *)
Definition parent_only {A} (pid : nat) (build : list Lease -> prog (RuntimeTable Runtime * V) Status A) : Prop :=
  forall ls t v o t' v', build ls (t, v) = Some (o, (t', v')) ->
    length t' = length t /\ (forall i, i <> pid -> t' !! i = t !! i) /\
    (forall rt, t !! pid = Some (Some rt) -> exists rt', t' !! pid = Some (Some rt') /\ runtime_position rt' = runtime_position rt).

Lemma parent_only_checked pid build ls0 :
  parent_only pid build -> parent_only pid (fun ls => checked_children ls0 (build ls)).
Proof.
  intros Hc ls t v o t' v' H. unfold checked_children in H.
  apply prog_bind_inv in H as [(rts & [t1 v1] & H1 & H)|[(e & H1 & ->)|[H1 ->]]]; [|by eapply Hc..].
  assert (t' = t1) as ->; [|by eapply Hc].
  destruct (length rts =? length ls0)%nat; unfold mret, prog_ret, throw in H; by injection H.
Qed.

(** Alignment when only the parent's runtime was worked on. *)
Lemma aligned_parent reserved w w' pid p rt :
  aligned reserved w -> slots (w_manager w) !! pid = Some p -> w_table w !! pid = Some (Some rt) -> state p = Paused ->
  slots (w_manager w') = slots (w_manager w) -> length (w_table w') = length (w_table w) ->
  (forall i, i <> pid -> w_table w' !! i = w_table w !! i) ->
  (exists rt', w_table w' !! pid = Some (Some rt') /\ runtime_position rt' = runtime_position rt) -> aligned reserved w'.
Proof.
  intros Hal Hp Hrt Hs Hw Hl Ho (rt' & Hrt' & Hpos).
  apply (aligned_changed reserved w); rewrite ?Hw; try done. intros j. destruct (decide (j = pid)) as [->|]; [|left; auto].
  right. split.
  - intros Hin. pose proof (proj2 (al_occupied _ _ Hal _ _ _ Hp Hrt) (or_intror Hin)). done.
  - exists p, rt'. split_and!; try done; [by rewrite Hs|]. rewrite Hpos. apply (al_position _ _ Hal _ _ _ Hp Hrt). by left.
Qed.

Lemma fork_leases_ids k free : slot_id <$> fork_leases token_source k free = free.
Proof. revert k; induction free as [|i free IH]; intros k; [done|]. cbn. f_equal. apply IH. Qed.

(** What a successful [fork] of the slot table leaves. *)
Lemma fork_half_forked l n now m ls m' ev :
  accounted (slots m) -> freeze_ok (slots m) -> lease_granted m now -> SlotManager.fork token_source l n now m = (Ok ls, m', ev) ->
  exists p, slots m !! slot_id l = Some p /\ state p = Paused /\ length ls = n /\ (0 < n)%nat /\ ttl_ms m' = ttl_ms m /\
    forkable (slots m) (slot_id l) p ls /\ half_forked (slots m) (slot_id l) p ls now (slots m').
Proof.
  intros Ha Hf Hg H.
  destruct (check_fork_entries (slots m) l n now) as [c|err|] eqn:Hc; [|unfold SlotManager.fork in H; by rewrite Hc in H..].
  apply check_fork_entries_ok in Hc as (p & Hp & Hv & Hn & Hcow & Hs & Hlen & _).
  destruct (fork_ok token_source l n now m p) as (Heq & Hpf & Hfl & Hfree & _); try done.
  rewrite Heq in H. injection H as <- <- <-. cbn [slots ttl_ms].
  set (free := take n (empty_slots (slots m))) in *. set (ls := fork_leases token_source (minted m) free).
  assert (slot_id <$> ls = free) as Hids by apply fork_leases_ids.
  assert (length ls = n) as Hll by (unfold ls; by rewrite fork_leases_length).
  assert (live_children p = 0) as Hz.
  { destruct Ha as [_ Ha]. destruct (Ha _ _ Hp) as [_ Hl]. specialize (Hl ltac:(done)). pose proof (children_nonneg (slots m) (slot_id l)).
    destruct (decide (0 < live_children p)) as [Hpos|]; [|lia]. specialize (Hf _ _ Hp Hpos). congruence. }
  exists p. split_and!; try done.
  - split; try done; rewrite ?Hids; [|apply NoDup_claimed|done]. intros l' Hl'. apply Hfree. rewrite <- Hids. apply list_elem_of_fmap. by exists l'.
  - split; rewrite ?length_insert, ?fork_table_length, ?Hids; try done.
    + rewrite list_lookup_insert_eq by (rewrite fork_table_length; by eapply lookup_lt_Some). rewrite Hz. destruct ls; [cbn in Hll; lia|].
      by rewrite Hll.
    + intros l' Hl'. apply list_elem_of_lookup in Hl' as [k Hk].
      assert (free !! k = Some (slot_id l')) as Hfk by (rewrite <- Hids, list_lookup_fmap, Hk; done).
      unfold ls in Hk. rewrite (fork_leases_lookup token_source _ free k (slot_id l')) in Hk by done. injection Hk as Hk.
      rewrite list_lookup_insert_ne by (intros Hx; apply Hpf; rewrite Hx; by eapply list_elem_of_lookup_2).
      rewrite (fork_table_child _ _ _ _ _ _ _ _ k (slot_id l')); [|apply NoDup_claimed|intros j Hj; rewrite Hfree by done; by eexists|done].
      eexists. split; [done|]. split; [|done]. split_and!; try done. exists (expiry m now). split; [cbn; by rewrite <- Hk|by apply granted_live].
    + intros j Hj Hjl. rewrite list_lookup_insert_ne by done. by apply fork_table_other.
Qed.

(** A child lease's place among the runtimes started for it. *)
Lemma forked_entries ls (rts : list Runtime) (entries : list (nat * Runtime)) l :
  Forall2 (fun pr en => en.1 = slot_id pr.1 /\ runtime_position en.2 = runtime_position pr.2) (zip ls rts) entries ->
  length rts = length ls -> NoDup (slot_id <$> ls) -> l ∈ ls ->
  exists rt actor, (l, runtime_position rt) ∈ zip ls (runtime_position <$> rts) /\ runtime_position actor = runtime_position rt /\
    exists k, list_find (fun e => e.1 = slot_id l) entries = Some (k, (slot_id l, actor)).
Proof.
  intros H2 Hlen Hnd Hl. apply list_elem_of_lookup in Hl as [k Hk].
  destruct (rts !! k) as [rt|] eqn:Hr; [|apply lookup_ge_None in Hr; apply lookup_lt_Some in Hk; lia].
  assert (zip ls rts !! k = Some (l, rt)) as Hz by (apply lookup_zip_with_Some; eauto).
  destruct (Forall2_lookup_l _ _ _ _ _ H2 Hz) as ([i actor] & He & Hi & Hp). cbn in Hi, Hp. subst i.
  exists rt, actor. split_and!; [|done|].
  - apply (list_elem_of_lookup_2 _ k). apply lookup_zip_with_Some. exists l, (runtime_position rt).
    split_and!; [done..|]. by rewrite list_lookup_fmap, Hr.
  - exists k. apply list_find_Some. split_and!; [done..|]. intros j [i' act'] Hj Hlt Heq. cbn in Heq. subst i'.
    destruct (Forall2_lookup_r _ _ _ _ _ H2 Hj) as ([l' rt'] & Hz' & Hi' & _). cbn in Hi'.
    apply lookup_zip_with_Some in Hz' as (l1 & rt1 & [= <- <-] & Hl' & _).
    assert (j = k) as ->; [|lia]. apply (NoDup_lookup _ j k (slot_id l) Hnd); rewrite list_lookup_fmap, ?Hl', ?Hk; cbn; by rewrite ?Hi'.
Qed.

Lemma zip_ids ls (pos : list (Z * option bytes)) : length pos = length ls -> (fun pr => slot_id pr.1) <$> zip ls pos = slot_id <$> ls.
Proof. revert pos; induction ls as [|l ls IH]; intros [|x pos] H; try done. cbn in *. f_equal. apply IH. lia. Qed.

(** The tables once every child is published. *)
Lemma aligned_forked reserved w (wb : World) w2 w' pid p ls now rt (rts : list Runtime) (entries : list (nat * Runtime)) :
  aligned reserved w -> forkable (slots (w_manager w)) pid p ls -> ls <> [] ->
  w_table w !! pid = Some (Some rt) ->
  length (w_table wb) = length (w_table w) -> (forall i, i <> pid -> w_table wb !! i = w_table w !! i) ->
  (exists rt', w_table wb !! pid = Some (Some rt') /\ runtime_position rt' = runtime_position rt) ->
  half_forked (slots (w_manager w)) pid p ls now (slots (w_manager w2)) ->
  books_kept (slots (w_manager w)) (slots (w_manager w')) ->
  Forall2 (fun pr en => en.1 = slot_id pr.1 /\ runtime_position en.2 = runtime_position pr.2) (zip ls rts) entries ->
  length rts = length ls -> w_table w' = store_entries entries (w_table wb) ->
  length (slots (w_manager w')) = length (slots (w_manager w2)) ->
  (forall l ic base, (l, (ic, base)) ∈ zip ls (runtime_position <$> rts) -> forall e, slots (w_manager w2) !! slot_id l = Some e ->
     slots (w_manager w') !! slot_id l = Some (with_position ic base e)) ->
  (forall j, j ∉ slot_id <$> ls -> slots (w_manager w') !! j = slots (w_manager w2) !! j) ->
  NoDup entries.*1 -> Forall (fun i => (i < length (w_table wb))%nat) entries.*1 -> entries.*1 = slot_id <$> ls ->
  aligned reserved w'.
Proof.
  intros Hal Hfk Hne Hrt Hlb Hob (rt' & Hrt' & Hpos) [Hl2 Hp2 Hc2 Hr2] Hbk H2 Hlr Ht Hls Hpl Hrest Hnd Hlt Hids.
  pose proof (fun j => store_entries_lookup entries (w_table wb) j Hnd Hlt) as Hse.
  apply (aligned_changed reserved w); [done|done|congruence| |].
  { rewrite Ht. unfold store_entries. rewrite <- Hlb. clear. generalize (w_table wb). induction entries as [|en l IH]; intros t; [done|].
    cbn. by rewrite IH, length_insert. }
  intros j. destruct (decide (j ∈ slot_id <$> ls)) as [Hj|Hj].
  - right. apply list_elem_of_fmap in Hj as (l & -> & Hl).
    destruct (forked_entries _ _ _ _ H2 Hlr (fk_nodup _ _ _ _ Hfk) Hl) as (r & actor & Hz & Hpa & k & Hf).
    destruct (Hc2 l Hl) as (e & He & (_ & Hs & _) & _). destruct (runtime_position r) as [ic base] eqn:Er.
    split; [intros Hin; by apply (al_reserved _ _ Hal _ _ (fk_free _ _ _ _ Hfk l Hl) Hin)|].
    exists (with_position ic base e), actor. rewrite (Hpl _ _ _ Hz _ He), Ht, Hse, Hf. cbn. split_and!; try done. by rewrite Hs.
  - assert (list_find (fun e => e.1 = j) entries = None) as Hf.
    { apply list_find_None. apply Forall_forall. intros en Hen Heq. apply Hj. rewrite <- Hids, <- Heq. apply list_elem_of_fmap. by exists en. }
    rewrite Hrest by done. rewrite Ht, Hse, Hf. destruct (decide (j = pid)) as [->|Hjp].
    + right. split; [intros Hin; by pose proof (proj2 (al_occupied _ _ Hal _ _ _ (fk_parent _ _ _ _ Hfk) Hrt) (or_intror Hin))|].
      rewrite Hp2. destruct ls; [done|]. do 2 eexists. split_and!; [done|exact Hrt'|done|]. cbn.
      rewrite Hpos. apply (al_position _ _ Hal _ _ _ (fk_parent _ _ _ _ Hfk) Hrt). left. apply Hfk.
    + left. rewrite Hr2, Hob by done. done.
Qed.

(** From the children's runtimes on; [wb] is the world the builder left. *)
Lemma publish_children_spec reserved pl ls now now' rts p rt w (wb : World) o w' :
  aligned reserved w -> forkable (slots (w_manager w)) (slot_id pl) p ls -> ls <> [] ->
  w_table w !! slot_id pl = Some (Some rt) -> length (w_table wb) = length (w_table w) ->
  (forall i, i <> slot_id pl -> w_table wb !! i = w_table w !! i) ->
  (exists rt', w_table wb !! slot_id pl = Some (Some rt') /\ runtime_position rt' = runtime_position rt) ->
  half_forked (slots (w_manager w)) (slot_id pl) p ls now (slots (w_manager wb)) ->
  books_kept (slots (w_manager w)) (slots (w_manager wb)) ->
  length rts = length ls -> now <= now' -> lease_granted (w_manager wb) now' ->
  publish_children pl ls now now' rts wb = Some (o, w') ->
  match o with
  | Ok ls' => ls' = ls /\ aligned reserved w' /\
      slots (w_manager w') !! slot_id pl = Some (with_children (Z.of_nat (length ls)) (with_state Frozen p)) /\
      forall l, l ∈ ls -> exists e rt, slots (w_manager w') !! slot_id l = Some e /\ w_table w' !! slot_id l = Some (Some rt) /\
        state e = Paused /\ parent e = Some (slot_id pl) /\ holds e l now'
  | Err _ => slots (w_manager w') = slots (w_manager w) /\ w_table w' = w_table wb
  | Panic => half_forked (slots (w_manager w)) (slot_id pl) p ls now (slots (w_manager w'))
  end.
Proof.
  intros Hal Hfk Hne Hrt Hlb Hob Hprt Hh Hbk Hlr Hle Hg H. unfold publish_children in H.
  apply or_rollback_inv in H as [([] & w1 & H1 & H)|[(e & w1 & H1 & H)|[H1 ->]]];
    unfold slot_checked, map_err, manager_read, observe in H1; cbn in H1; injection H1 as Hv <-.
  2:{ by eapply undo_fork in H as (-> & ? & ?). }
  2:{ done. }
  apply or_rollback_inv in H as [([] & w1 & H1 & H)|[(e & w1 & H1 & H)|[H1 ->]]];
    destruct (renew_all_half _ _ _ _ _ _ _ _ _ _ Hfk Hh Hle Hg (fun l Hl => Hl) (NoDup_fmap_1 _ _ (fk_nodup _ _ _ _ Hfk)) H1) as (Hh1 & Hnp & Ht1 & Hb1 & _ & Hhold); [| |done].
  2:{ eapply undo_fork in H as (-> & ? & ?); [|done..]. by rewrite <- Ht1. }
  apply or_rollback_inv in H as [(entries & w2 & H2 & H)|[(e & w2 & H2 & H)|[H2 ->]]]; apply start_all_inv in H2 as [-> Hst].
  2:{ eapply undo_fork in H as (-> & ? & ?); [|done..]. by rewrite <- Ht1. }
  2:{ done. }
  specialize (Hst entries eq_refl).
  assert (entries.*1 = slot_id <$> ls) as Hids.
  { clear -Hst Hlr. revert rts entries Hlr Hst. induction ls as [|l ls IH]; intros [|r rts] [|en entries] Hlr Hst; try done; cbn in *; inversion Hst; try done.
    subst. cbn. f_equal; [naive_solver|]. eapply IH; [|done]. lia. }
  assert (Forall (fun i => w_table w1 !! i = Some None) entries.*1) as Hfree.
  { rewrite Hids, Ht1. apply Forall_fmap, Forall_forall. intros l Hl. cbn. rewrite Hob.
    - eapply aligned_free; [done|]. by apply Hfk.
    - intros Heq. apply (fk_other _ _ _ _ Hfk). rewrite <- Heq. apply list_elem_of_fmap. by exists l. }
  assert (NoDup entries.*1) as Hnd by (rewrite Hids; apply Hfk).
  assert (insert_many entries (w_table w1) = (Ok tt, store_entries entries (w_table w1))) as Him.
  { unfold insert_many. rewrite (proj2 (check_entries_ok (w_table w1) [] entries.*1)); [done|]. split_and!; [done..|set_solver]. }
  apply or_rollback_inv in H as [([] & w2 & H2 & H)|[(e & w2 & H2 & H)|[H2 ->]]];
    unfold map_err, table_op in H2; rewrite Him in H2; try done. injection H2 as <-. set (w2 := mkWorld _ _ _ _) in H.
  assert (length (runtime_position <$> rts) = length ls) as Hlp by by rewrite length_fmap.
  destruct (position_all_ok (zip ls (runtime_position <$> rts)) now' w2) as (w3 & H3 & Ht3 & Hl3 & Hb3 & Hp3 & Hr3).
  { intros l pos Hz. apply Hhold; [done|]. by eapply elem_of_zip_l. }
  { rewrite zip_ids by done. apply Hfk. }
  unfold or_rollback, mbind, prog_bind, reify in H. rewrite H3 in H. injection H as <- <-. rewrite zip_ids in Hr3 by done.
  assert (aligned reserved w3) as Hal3.
  { eapply (aligned_forked reserved w wb w2 w3 (slot_id pl) p ls now rt rts entries); try done.
    - intros A1 A2. destruct (Hbk A1 A2) as [A3 A4]. destruct (Hb1 A3 A4). by apply Hb3.
    - rewrite Ht3. cbn. by rewrite Ht1.
    - eapply Forall_impl; [exact Hfree|]. intros i Hi. cbn in Hi. rewrite Ht1 in Hi. by eapply lookup_lt_Some. }
  split_and!; [done..| |].
  - rewrite Hr3 by apply Hfk. cbn. rewrite (hf_parent _ _ _ _ _ _ Hh1). by destruct ls.
  - intros l Hl. destruct (hf_child _ _ _ _ _ _ Hh1 l Hl) as (e & He & (_ & Hs & _) & Hp). destruct (Hhold eq_refl l Hl) as (e' & He' & Hh').
    destruct (forked_entries _ _ _ _ Hst Hlr (fk_nodup _ _ _ _ Hfk) Hl) as (r & actor & Hz & _ & k & Hf).
    destruct (runtime_position r) as [ic base]. exists (with_position ic base e), actor. rewrite (Hp3 _ _ _ Hz _ He), Ht3. cbn.
    rewrite store_entries_lookup, Hf; [|done|eapply Forall_impl; [exact Hfree|]; intros i Hi; cbn in Hi; by eapply lookup_lt_Some].
    simplify_eq. split_and!; done.
Qed.

(** C16: a fork is a transaction over the slot manager and the runtime table, for
    any number of children.  From aligned tables and a builder that works on no
    runtime but the parent's: when the handler answers, it answers one lease per
    child asked for, each child sits in a slot that was free, Paused under its
    lease with its runtime in the table, the parent is Frozen and counts them,
    and the tables are aligned.  When it answers an error, after however many
    children had been allocated, built, renewed or started, every slot of the
    manager is exactly what it was, the parent thawed again, no runtime other
    than the parent's is touched and the tables are aligned.  When the builder
    panics, the parent is left Frozen. *)
Theorem fork_is_transactional reserved parent_lease count forked_at publish_at build w o w' :
  aligned reserved w -> parent_only (slot_id parent_lease) build ->
  lease_granted (w_manager w) forked_at -> lease_granted (w_manager w) publish_at -> forked_at <= publish_at ->
  install_forked_runtimes token_source parent_lease count forked_at publish_at build w = Some (o, w') ->
  match o with
  | Ok ls => length ls = count /\ aligned reserved w' /\
      (exists p, slots (w_manager w) !! slot_id parent_lease = Some p /\
         slots (w_manager w') !! slot_id parent_lease = Some (with_children (Z.of_nat count) (with_state Frozen p))) /\
      forall l, l ∈ ls -> slots (w_manager w) !! slot_id l = Some SlotEntry_empty /\
        exists e rt, slots (w_manager w') !! slot_id l = Some e /\ w_table w' !! slot_id l = Some (Some rt) /\
          state e = Paused /\ parent e = Some (slot_id parent_lease) /\ holds e l publish_at
  | Err _ => slots (w_manager w') = slots (w_manager w) /\ aligned reserved w' /\
      forall i, i <> slot_id parent_lease -> w_table w' !! i = w_table w !! i
  | Panic => exists e, slots (w_manager w') !! slot_id parent_lease = Some e /\ state e = Frozen
  end.
Proof.
  intros Hal Hpo Hg1 Hg2 Hle H. unfold install_forked_runtimes in H. set (pid := slot_id parent_lease) in *.
  pose proof (al_accounted _ _ Hal) as Ha. pose proof (al_freeze _ _ Hal) as Hf.
  apply prog_bind_inv in H as [([] & w0 & H0 & H)|[(e & H0 & ->)|[H0 ->]]]; unfold allocating, manager_read, observe in H0;
    cbn in H0; destruct (check_fork (w_manager w) parent_lease count forked_at) as [[]|err|] eqn:Ec; cbn in H0; try discriminate H0;
    try (exfalso; revert Ec; unfold check_fork; apply bind_not_panic; [apply check_fork_entries_no_panic|done]).
  2:{ by injection H0 as _ <-. }
  injection H0 as <-.
  apply prog_bind_inv in H as [([] & w0 & H0 & H)|[(e & H0 & ->)|[H0 ->]]]; unfold map_err, table_read, observe in H0;
    cbn in H0; destruct (ensure_occupied (w_table w) pid) as [[]|err|] eqn:Eo; cbn in H0; try discriminate H0.
  2:{ by injection H0 as _ <-. }
  2:{ exfalso. revert Eo. unfold ensure_occupied. by destruct (w_table w !! pid) as [[]|]. }
  injection H0 as <-.
  assert (exists rt, w_table w !! pid = Some (Some rt)) as [rt Hrt].
  { unfold ensure_occupied in Eo. destruct (w_table w !! pid) as [[rt|]|]; try done. by exists rt. }
  apply prog_bind_inv in H as [(ls & w1 & H1 & H)|[(e & H1 & ->)|[H1 ->]]]; unfold allocating, manager_op in H1;
    destruct (SlotManager.fork token_source parent_lease count forked_at (w_manager w)) as [[r m1] ev] eqn:Efk; destruct r as [ls'|err|]; try discriminate H1.
  2:{ injection H1 as _ <-. destruct (fork_exact token_source _ _ _ _ _ _ _ Ha Efk) as (_ & Hno & _). destruct (Hno ltac:(done)) as [-> ->].
      split_and!; [done| |done]. by destruct Hal. }
  2:{ exfalso. destruct (check_fork_entries (slots (w_manager w)) parent_lease count forked_at) as [c|err|] eqn:Hc.
      - apply check_fork_entries_ok in Hc as (p & Hp & Hv & Hn & Hcow & Hs & Hlen & _).
        destruct (fork_ok token_source parent_lease count forked_at (w_manager w) p) as (Heq & _); try done. by rewrite Heq in Efk.
      - unfold SlotManager.fork in Efk. by rewrite Hc in Efk.
      - by apply check_fork_entries_no_panic in Hc. }
  injection H1 as <- <-.
  destruct (fork_half_forked _ _ _ _ _ _ _ Ha Hf Hg1 Efk) as (p & Hp & Hs & Hlen & Hn & Httl & Hfk & Hh). fold pid in Hp, Hfk, Hh.
  pose proof (keeps_books _ _ _ (fork_keeps token_source True _ _ _ _ _ _ _ Efk Ha)) as Hbk.
  assert (ls' <> []) as Hne by (intros ->; cbn in Hlen; lia).
  apply or_rollback_inv in H as [(rts & w2 & H2 & H)|[(e & w2 & H2 & H)|[H2 ->]]];
    unfold with_table in H2; cbn [w_env w_manager w_table w_published] in H2;
    destruct (checked_children ls' (build ls') (w_table w, w_env w)) as [[ob [tb vb]]|] eqn:Eb; try discriminate H2; injection H2 as -> <-;
    destruct (parent_only_checked pid build ls' Hpo ls' _ _ _ _ _ Eb) as (Htl & Hto & Htp); specialize (Htp rt Hrt).
  - assert (length rts = length ls') as Hlr.
    { unfold checked_children in Eb. apply prog_bind_inv in Eb as [(rts' & st & _ & Eb)|[(e & _ & [=])|[_ [=]]]].
      destruct (length rts' =? length ls')%nat eqn:El; [|done]. injection Eb as -> _. by apply Nat.eqb_eq. }
    eapply (publish_children_spec reserved parent_lease ls' forked_at publish_at rts p rt w) in H; try done.
    2:{ cbn. intros ttl Ht. apply Hg2. congruence. }
    destruct o as [ls|e|].
    + destruct H as (-> & Hal' & Hpar & Hch). split_and!; [done..| |].
      * exists p. split; [done|]. by rewrite <- Hlen.
      * intros l Hl. split; [by apply Hfk|]. by apply Hch.
    + destruct H as (Hs' & Ht'). split_and!; [done| |intros i Hi; rewrite Ht'; by apply Hto].
      apply (aligned_parent reserved w w' pid p rt); try done; rewrite Ht'; done.
    + eexists. split; [apply (hf_parent _ _ _ _ _ _ H)|]. by destruct ls'.
  - eapply undo_fork in H as (-> & Hs' & Ht'); [|done..]. split_and!; [done| |intros i Hi; rewrite Ht'; by apply Hto].
    apply (aligned_parent reserved w w' pid p rt); try done; rewrite Ht'; done.
  - eexists. split; [apply (hf_parent _ _ _ _ _ _ Hh)|]. by destruct ls'.
Qed.
End Lifecycle.
