(* ===== verification/Boot.v ===== *)
(** * Booting a slot: [dh-vmm/src/boot.rs]

    The ELF loader and the Linux loader: what each writes into guest RAM and how
    it programs the vCPU.  Guest RAM and the vCPU's ioctls are the slot's
    parameters; the VM's MSR filter is the class [MsrFilter].  Formatted messages
    are constructors carrying what they print. *)

From Stdlib Require Import String.
From stdpp Require Import strings.
From S2P Require Import Prelude Msr Kvm SlotVm VcpuState StateHash Restore Bzimage.
Import Linux.
Local Open Scope string_scope.
Local Open Scope list_scope.
Local Open Scope Z_scope.

Module Boot.
Definition LOW_RAM_RESERVED : Z := 0x8000.
Definition PAGE_2M : Z := 2 * 2 ^ 20.
Definition GIB : Z := 2 ^ 30.
Definition LINUX_64BIT_ENTRY_OFFSET : Z := 0x200.
Definition MAX_CMDLINE : nat := #4064.

Inductive BootError :=
| Elf (what : string)
| BzImageFailed (e : BzImageError)
| BzImageRange (what : string)
| LinuxLayout (e : LinuxBootLayoutError)
| MemFailed (what : string) (errno : Z)
| KvmFailed (errno : Z)
| CmdlineTooLong.

Record BootLayout := mkBootLayout { bl_entry : Z; bl_bootinfo_gpa : Z }.

Class MsrFilter (S : Type) := set_msr_filter : list FilterRange -> S -> outcome Z unit * S.

(** ** The ELF image *)

(** [usize] addition. *)
Definition usize_add (a b : Z) : outcome BootError Z := if a + b <=? u64_max then Ok (a + b) else Panic.
(** [elf.get(at..at + n)]. *)
Definition elf_get (elf : bytes) (at_ n : Z) : outcome BootError (option bytes) :=
  to ← usize_add at_ n; Ok (get_range elf at_ to).
Definition elf_le (elf : bytes) (at_ n : Z) : outcome BootError (option Z) :=
  b ← elf_get elf at_ n; Ok (of_le <$> (b : option bytes)).
Definition elf_u16 (elf : bytes) (at_ : Z) := elf_le elf at_ 2.
Definition elf_u64 (elf : bytes) (at_ : Z) := elf_le elf at_ 8.
Definition bad {A} (what : string) (o : option A) : outcome BootError A := ok_or (Elf what) o.
(** A sized read that must succeed, at [base + off]. *)
Definition header_u16 elf at_ : outcome BootError Z := v ← elf_u16 elf at_; bad "truncated header" v.
Definition header_u64 elf at_ : outcome BootError Z := v ← elf_u64 elf at_; bad "truncated header" v.
Definition phdr_u64 elf base off : outcome BootError Z := at_ ← usize_add base off; v ← elf_u64 elf at_; bad "truncated phdr" v.

Record ElfHeader := mkElfHeader { eh_entry : Z; eh_phoff : Z; eh_phentsize : Z; eh_phnum : Z }.
Definition elf_header (elf : bytes) : outcome BootError ElfHeader :=
  magic ← elf_get elf 0 4;
  fail (Elf "not a little-endian ELF64")
    when negb (bool_decide (magic = Some [0x7f; 0x45; 0x4c; 0x46])) || negb (bool_decide (elf !! 4%nat = Some 2)) ||
         negb (bool_decide (elf !! 5%nat = Some 1));
  etype ← elf_u16 elf 16;
  machine ← elf_u16 elf 18;
  fail (Elf "not an x86_64 ET_EXEC image") when negb (bool_decide (etype = Some 2)) || negb (bool_decide (machine = Some 62));
  entry ← header_u64 elf 24;
  phoff ← header_u64 elf 32;
  phentsize ← header_u16 elf 54;
  phnum ← header_u16 elf 56;
  Ok (mkElfHeader entry phoff phentsize phnum).

(** A program header: [None] unless it is PT_LOAD. *)
Record PtLoad := mkPtLoad { pl_vaddr : Z; pl_file : bytes; pl_filesz : Z; pl_memsz : Z }.
Definition program_header (elf : bytes) (h : ElfHeader) (i : Z) : outcome BootError (option PtLoad) :=
  off ← bad "phdr overflow" (try_u64 (i * eh_phentsize h));
  at_ ← bad "phdr overflow" (checked_add (eh_phoff h) off);
  ty ← elf_get elf at_ 4;
  p_type ← bad "truncated phdr" ty;
  if negb (of_le p_type =? 1) then Ok None
  else
    p_offset ← phdr_u64 elf at_ 8;
    p_vaddr ← phdr_u64 elf at_ 16;
    p_filesz ← phdr_u64 elf at_ 32;
    p_memsz ← phdr_u64 elf at_ 40;
    fail (Elf "PT_LOAD overlaps the loader's low-RAM structures") when p_vaddr <? LOW_RAM_RESERVED;
    end_ ← bad "phdr overflow" (checked_add p_offset p_filesz);
    file_bytes ← bad "PT_LOAD beyond file end" (get_range elf p_offset end_);
    Ok (Some (mkPtLoad p_vaddr file_bytes p_filesz p_memsz)).

Section Loader.
Context {S M : Type} `{!SlotMem S, !SlotRam S M, !Vcpu S, !VcpuGets S, !VcpuSets S, !MsrFilter S}.

Definition guest_write (what : string) (b : bytes) (gpa : Z) : prog S BootError unit :=
  map_err (MemFailed what) (io (write_slice b gpa)).

(** [vec![0u8; n]]: a capacity above [isize::MAX] panics. *)
Definition ISIZE_MAX : Z := 2 ^ 63 - 1.
Definition load_segment (g : PtLoad) : prog S BootError unit :=
  _ ← guest_write "PT_LOAD copy" (pl_file g) (pl_vaddr g);
  let tail := saturating_sub (pl_memsz g) (pl_filesz g) in
  if 0 <? tail then
    if ISIZE_MAX <? tail then crash
    else
      at_ ← of_outcome (usize_add (pl_vaddr g) (pl_filesz g));
      guest_write "bss zero-fill" (replicate (Z.to_nat tail) 0) at_
  else pass.

Fixpoint load_segments (elf : bytes) (h : ElfHeader) (is_ : list Z) (any_load : bool) : prog S BootError bool :=
  match is_ with
  | [] => mret any_load
  | i :: is_ =>
      g ← of_outcome (program_header elf h i);
      match g with
      | None => load_segments elf h is_ any_load
      | Some g => _ ← load_segment g; load_segments elf h is_ true
      end
  end.
Definition load_elf (elf : bytes) : prog S BootError Z :=
  h ← of_outcome (elf_header elf);
  any_load ← load_segments elf h (seqZ 0 (eh_phnum h)) false;
  if (any_load : bool) then mret (eh_entry h) else throw (Elf "no PT_LOAD segments").

(** ** Page tables *)

Definition div_ceil (a b : Z) : Z := (a + b - 1) / b.
Fixpoint write_entries (l : list (Z * Z)) : prog S BootError unit :=
  match l with
  | [] => pass
  | (gpa, v) :: l => _ ← guest_write "page table write" (le_bytes 8 v) gpa; write_entries l
  end.
Definition pd_entry (gpa : Z) : Z * Z :=
  let pd := PD_BASE_GPA + (gpa / GIB) * 0x1000 in
  (pd + ((gpa mod GIB) / PAGE_2M) * 8, Z.lor gpa 0x83).
Definition page_table_entries (mem_bytes : Z) : list (Z * Z) :=
  [(PML4_GPA, Z.lor PDPT_GPA 3)] ++
  ((fun gib => (PDPT_GPA + gib * 8, Z.lor (PD_BASE_GPA + gib * 0x1000) 3)) <$> seqZ 0 4) ++
  ((fun page => pd_entry (page * PAGE_2M)) <$> seqZ 0 (div_ceil mem_bytes PAGE_2M)) ++
  [pd_entry MMIO_HOLE_BASE].
Definition write_page_tables (mem_bytes : Z) : prog S BootError unit := write_entries (page_table_entries mem_bytes).

(** ** BootInfo *)

Definition bootinfo_page (mem_bytes : Z) (cmdline : bytes) : bytes :=
  [0x44; 0x48; 0x42; 0x49] ++ le_bytes 4 1 ++ le_bytes 8 mem_bytes ++ le_bytes 8 MMIO_HOLE_BASE ++
  le_bytes 4 (to_u32 (Z.of_nat (length cmdline))) ++ le_bytes 4 0 ++ cmdline.
Definition write_bootinfo (mem_bytes : Z) (cmdline : bytes) : prog S BootError unit :=
  if (MAX_CMDLINE <? length cmdline)%nat then throw CmdlineTooLong
  else guest_write "bootinfo write" (bootinfo_page mem_bytes cmdline) BOOTINFO_GPA.

(** ** Entry *)

Definition apply_default_deny_filter : prog S BootError unit := map_err KvmFailed (io (set_msr_filter default_deny_filter)).

Definition code_segment (limit selector : Z) : kvm_segment := mkSegment 0 limit selector 0xb 1 0 0 1 1 1 0 0 0.
Definition data_segment (limit selector : Z) : kvm_segment := mkSegment 0 limit selector 0x3 1 0 1 1 0 1 0 0 0.
Definition long_mode_sregs (code data : kvm_segment) (s : kvm_sregs) : kvm_sregs :=
  mkSregs code data data data data data (sr_tr s) (sr_ldt s) (sr_gdt s) (sr_idt s)
    0x80000021 (sr_cr2 s) PML4_GPA (foldr Z.lor 0 [2 ^ 5; 2 ^ 9; 2 ^ 10]) (sr_cr8 s) (Z.lor (2 ^ 8) (2 ^ 10)) (sr_apic_base s)
    (sr_interrupt_bitmap s).
Definition get_sregs : prog S BootError kvm_sregs := map_err KvmFailed (observe kvm_get_sregs).
Definition get_regs : prog S BootError kvm_regs := map_err KvmFailed (observe kvm_get_regs).
Definition set_sregs (r : kvm_sregs) : prog S BootError unit := map_err KvmFailed (io (kvm_set_sregs r)).
Definition set_regs (r : kvm_regs) : prog S BootError unit := map_err KvmFailed (io (kvm_set_regs r)).

Definition entry_regs (entry rsi_ : Z) (r : kvm_regs) : kvm_regs :=
  mkRegs (rax r) (rbx r) (rcx r) (rdx r) rsi_ (rdi r) (rsp r) (rbp r) (r8 r) (r9 r) (r10 r) (r11 r) (r12 r) (r13 r) (r14 r) (r15 r)
    entry 2.
Definition linux_regs (entry rsi_ : Z) (r : kvm_regs) : kvm_regs :=
  mkRegs 0 0 0 0 rsi_ 0 0 0 (r8 r) (r9 r) (r10 r) (r11 r) (r12 r) (r13 r) (r14 r) (r15 r) entry 2.

Definition enter_long_mode (entry : Z) : prog S BootError unit :=
  sregs ← get_sregs;
  _ ← set_sregs (long_mode_sregs (code_segment 0xfffff 0x08) (data_segment 0xfffff 0x10) sregs);
  regs ← get_regs;
  set_regs (entry_regs entry BOOTINFO_GPA regs).
Definition enter_linux_64bit (entry boot_params_gpa : Z) : prog S BootError unit :=
  sregs ← get_sregs;
  _ ← set_sregs (long_mode_sregs (code_segment 0xffffffff 0x10) (data_segment 0xffffffff 0x18) sregs);
  regs ← get_regs;
  set_regs (linux_regs entry boot_params_gpa regs).

Definition load_and_enter (elf cmdline : bytes) : prog S BootError BootLayout :=
  entry ← load_elf elf;
  mem_bytes ← observe (fun s => Ok (slot_mem_bytes s));
  _ ← write_page_tables mem_bytes;
  _ ← write_bootinfo mem_bytes cmdline;
  _ ← apply_default_deny_filter;
  _ ← enter_long_mode entry;
  mret (mkBootLayout entry BOOTINFO_GPA).

(** ** The Linux image *)

Definition write_bzimage_plan (bzimage initramfs : bytes) (plan : LinuxBootPlan) : prog S BootError unit :=
  let l := lp_layout plan in
  let start := ll_kernel_image_file_offset l in
  end_ ← of_outcome (ok_or (BzImageRange "kernel image range overflows usize") (checked_add start (lr_len (ll_kernel_image l))));
  kernel_image ← of_outcome (ok_or (BzImageRange "kernel image range exceeds bzImage bytes") (get_range bzimage start end_));
  _ ← guest_write "bzImage kernel image copy" kernel_image (lr_start (ll_kernel_image l));
  _ ← guest_write "Linux boot_params write" (lp_boot_params plan) (lr_start (ll_boot_params l));
  _ ← guest_write "Linux cmdline write" (lp_cmdline_image plan) (lr_start (ll_cmdline l));
  match ll_initramfs l with
  | Some range => guest_write "initramfs copy" initramfs (lr_start range)
  | None => pass
  end.

Definition load_bzimage_and_enter (bzimage initramfs cmdline : bytes) : prog S BootError LinuxBootLayout :=
  mem_bytes ← observe (fun s => Ok (slot_mem_bytes s));
  let initramfs_len := Z.of_nat (length initramfs) in
  header ← of_outcome (err_map BzImageFailed (parse_bzimage bzimage initramfs_len (Z.of_nat (length cmdline)) mem_bytes));
  plan ← of_outcome (err_map LinuxLayout (plan_bzimage_boot header mem_bytes initramfs_len cmdline));
  _ ← write_page_tables mem_bytes;
  _ ← write_bzimage_plan bzimage initramfs plan;
  _ ← apply_default_deny_filter;
  _ ← enter_linux_64bit (lr_start (ll_kernel_image (lp_layout plan)) + LINUX_64BIT_ENTRY_OFFSET)
        (lr_start (ll_boot_params (lp_layout plan)));
  mret (lp_layout plan).
End Loader.
End Boot.
