(* ===== verification/BootOk.v ===== *)
(** * Booting, checked

    What the loaders leave in guest RAM, seen through the processor's own page
    walk and the bytes the guest reads: the identity map, the BootInfo page, the
    ELF segments, the Linux artifacts. *)

From Stdlib Require Import String.
From stdpp Require Import strings.
From S2P Require Import Prelude Msr Kvm SlotVm VcpuState StateHash Restore Bzimage BzimageOk LinuxPlan LinuxPlanOk Boot.
Import Linux Boot.
Local Open Scope string_scope.
Local Open Scope list_scope.
Local Open Scope Z_scope.

(** ** Guest RAM, byte by byte *)

Definition over (a : Z) (b : bytes) (f : Z -> Z) (i : Z) : Z :=
  if (a <=? i) && (i <? a + Z.of_nat (length b)) then default 0 (b !! Z.to_nat (i - a)) else f i.

(** What [vm-memory] documents: a write that succeeds stored its bytes, in range,
    and nothing else; and that the vCPU's and the VM's ioctls are not RAM. *)
Class SlotBytes (S : Type) := byte_at : S -> Z -> Z.
Class SlotBytesOk (S M : Type) `{!SlotMem S, !SlotRam S M, !VcpuSets S, !MsrFilter S, !SlotBytes S} : Prop := {
  slice_written : forall b a s s', write_slice b a s = (Ok tt, s') -> slot_mem_bytes s' = slot_mem_bytes s /\
    0 <= a /\ a + Z.of_nat (length b) <= slot_mem_bytes s /\ forall i, byte_at s' i = over a b (byte_at s) i;
  sregs_leave_ram : forall r s s', kvm_set_sregs r s = (Ok tt, s') -> forall i, byte_at s' i = byte_at s i;
  regs_leave_ram : forall r s s', kvm_set_regs r s = (Ok tt, s') -> forall i, byte_at s' i = byte_at s i;
  filter_leaves_ram : forall f s s', set_msr_filter f s = (Ok tt, s') -> forall i, byte_at s' i = byte_at s i }.

(** ** The page walk *)

Section Walk.
Context {S : Type} `{!SlotBytes S}.
Definition rd64 (s : S) (a : Z) : Z := of_le (byte_at s <$> seqZ a 8).
Definition present (e : Z) : bool := Z.testbit e 0.
Definition page_size_bit (e : Z) : bool := Z.testbit e 7.
(** The address field of an entry that maps [2 ^ n] bytes. *)
Definition address (n : Z) (e : Z) : Z := Z.land e (Z.shiftl (Z.ones (52 - n)) n).

(** Four-level translation of a 48-bit address, to a 2 MiB or a 1 GiB page. *)
Definition page_walk (s : S) (cr3 va : Z) : option Z :=
  let e4 := rd64 s (address 12 cr3 + 8 * ((va / 2 ^ 39) mod 512)) in
  if negb (present e4) then None
  else
    let e3 := rd64 s (address 12 e4 + 8 * ((va / 2 ^ 30) mod 512)) in
    if negb (present e3) then None
    else if page_size_bit e3 then Some (address 30 e3 + va mod 2 ^ 30)
    else
      let e2 := rd64 s (address 12 e3 + 8 * ((va / 2 ^ 21) mod 512)) in
      if present e2 && page_size_bit e2 then Some (address 21 e2 + va mod 2 ^ 21) else None.
End Walk.

(** RAM in whole 2 MiB pages, and the page of the device window, at themselves. *)
Definition identity_map (mem_bytes va : Z) : option Z :=
  if (va / PAGE_2M <? div_ceil mem_bytes PAGE_2M) || (va / PAGE_2M =? MMIO_HOLE_BASE / PAGE_2M) then Some va else None.

Lemma address_lor n a b : 0 <= n <= 52 -> 0 <= a < 2 ^ 52 -> a mod 2 ^ n = 0 -> 0 <= b < 2 ^ n -> address n (Z.lor a b) = a.
Proof.
  intros Hn Ha Ham Hb. unfold address. apply Z.bits_inj'. intros i Hi. rewrite Z.land_spec, Z.lor_spec, Z.shiftl_spec by lia.
  destruct (Z.lt_ge_cases i n) as [Hlt|Hge].
  - rewrite (Z.testbit_neg_r _ (i - n)) by lia. rewrite andb_false_r. symmetry.
    rewrite <- (Z.mod_pow2_bits_low a n i) by lia. by rewrite Ham, Z.bits_0.
  - rewrite (testbit_above b n i), orb_false_r by lia. destruct (Z.lt_ge_cases i 52).
    + by rewrite Z.ones_spec_low, andb_true_r by lia.
    + by rewrite (testbit_above a 52 i) by lia.
Qed.

Section Tables.
Context {S M : Type} `{!SlotMem S, !SlotRam S M, !Vcpu S, !VcpuGets S, !VcpuSets S, !MsrFilter S, !SlotBytes S, !SlotBytesOk S M}.

Lemma guest_wrote what b a (s : S) s' : guest_write what b a s = Some (Ok tt, s') ->
  slot_mem_bytes s' = slot_mem_bytes s /\ 0 <= a /\ a + Z.of_nat (length b) <= slot_mem_bytes s /\
  forall i, byte_at s' i = over a b (byte_at s) i.
Proof.
  unfold guest_write, map_err, io. destruct (write_slice b a s) as [[[]|e|] s1] eqn:Hw; cbn; [|done..].
  intros [= <-]. by apply slice_written.
Qed.

Lemma over_rd64 a v (s s' : S) k : u64 v -> (forall i, byte_at s' i = over k (le_bytes 8 v) (byte_at s) i) ->
  (a - k) mod 8 = 0 -> rd64 s' a = if a =? k then v else rd64 s a.
Proof.
  intros Hv Hw Hm. unfold rd64. destruct (Z.eqb_spec a k) as [->|Hne].
  - transitivity (of_le (le_bytes 8 v)); [|by apply of_le_u64]. f_equal. apply list_eq. intros j. rewrite list_lookup_fmap.
    destruct (decide (j < 8)%nat) as [Hj|Hj].
    + rewrite lookup_seqZ_lt by lia. cbn. rewrite Hw. unfold over. rewrite length_le_bytes.
      replace (k <=? k + Z.of_nat j) with true by lia. replace (k + Z.of_nat j <? k + Z.of_nat 8) with true by lia. cbn [andb].
      replace (Z.to_nat (k + Z.of_nat j - k)) with j by lia.
      destruct (lookup_lt_is_Some_2 (le_bytes 8 v) j) as [x Hx]; [by rewrite length_le_bytes|]. by rewrite Hx.
    + rewrite lookup_seqZ_ge by lia. rewrite lookup_ge_None_2; [done|]. rewrite length_le_bytes. lia.
  - f_equal. apply list_fmap_ext. intros j x Hx%lookup_seqZ. rewrite Hw. unfold over. rewrite length_le_bytes.
    destruct ((k <=? x) && (x <? k + Z.of_nat 8)) eqn:He; [|done]. exfalso.
    assert (a - k = 8 * ((a - k) / 8)) by (pose proof (Z.div_mod (a - k) 8 ltac:(done)); lia). lia.
Qed.

(** The last value written at an address. *)
Definition written (l : list (Z * Z)) (a d : Z) : Z := foldl (fun d (e : Z * Z) => if a =? e.1 then e.2 else d) d l.

Lemma entries_read l : forall (s s' : S), Forall (fun e : Z * Z => e.1 mod 8 = 0 /\ u64 e.2) l -> write_entries l s = Some (Ok tt, s') ->
  slot_mem_bytes s' = slot_mem_bytes s /\ (forall a, a mod 8 = 0 -> rd64 s' a = written l a (rd64 s a)) /\
  forall i, Forall (fun e : Z * Z => i < e.1 \/ e.1 + 8 <= i) l -> byte_at s' i = byte_at s i.
Proof.
  induction l as [|[k v] l IH]; intros s s' Hl; cbn [write_entries].
  - intros [= <-]. done.
  - apply Forall_cons in Hl as [[Hk Hv] Hl]. cbn [fst snd] in *.
    intros [([] & s1 & Hw & Hr)|[(e & Hw & [=])|[_ [=]]]]%prog_bind_inv.
    destruct (guest_wrote _ _ _ _ _ Hw) as (Hm & _ & _ & Hb). destruct (IH _ _ Hl Hr) as (Hm' & Hrd & Hfr).
    split_and!; [congruence| |].
    + intros a Ha. rewrite Hrd by done. change (written ((k, v) :: l) a (rd64 s a)) with (written l a (if a =? k then v else rd64 s a)).
      f_equal. apply over_rd64; [done..|]. by rewrite Zminus_mod, Ha, Hk.
    + intros i [Hi Hfi]%Forall_cons. rewrite Hfr, Hb by done. unfold over. rewrite length_le_bytes. cbn [fst] in Hi.
      by replace ((k <=? i) && (i <? k + Z.of_nat 8)) with false by lia.
Qed.

Lemma written_app l l' a d : written (l ++ l') a d = written l' a (written l a d).
Proof. apply foldl_app. Qed.
Lemma written_family base (val : Z -> Z) a n d :
  written ((fun p => (base + p * 8, val p)) <$> seqZ 0 (Z.of_nat n)) a d =
    if (0 <=? (a - base) / 8) && ((a - base) / 8 <? Z.of_nat n) && ((a - base) mod 8 =? 0) then val ((a - base) / 8) else d.
Proof.
  unfold written. induction n as [|n IH].
  - set (q := (a - base) / 8). by replace ((0 <=? q) && (q <? Z.of_nat 0)) with false by lia.
  - rewrite seqZ_S, fmap_app, foldl_app, IH, Nat2Z.inj_succ. cbn [fmap list_fmap foldl fst snd]. rewrite Z.add_0_l.
    pose proof (Z.div_mod (a - base) 8 ltac:(done)) as Hd. pose proof (Z.mod_pos_bound (a - base) 8 ltac:(done)) as Hb.
    set (q := (a - base) / 8) in *. set (r := (a - base) mod 8) in *.
    destruct (Z.eqb_spec a (base + Z.of_nat n * 8)) as [He|He].
    + assert (q = Z.of_nat n /\ r = 0) as [-> ->] by lia.
      replace (0 <=? Z.of_nat n) with true by lia. by replace (Z.of_nat n <? Z.succ (Z.of_nat n)) with true by lia.
    + destruct (Z.eqb_spec r 0) as [Hr|]; [|by rewrite !andb_false_r]. rewrite !andb_true_r.
      replace (q <? Z.succ (Z.of_nat n)) with (q <? Z.of_nat n) by lia. done.
Qed.

Lemma pd_entry_page p : pd_entry (p * PAGE_2M) = (PD_BASE_GPA + p * 8, Z.lor (p * PAGE_2M) 0x83).
Proof.
  unfold pd_entry. f_equal. unfold GIB. change (2 ^ 30) with (512 * PAGE_2M).
  rewrite Z.div_mul_cancel_r, Z.mul_mod_distr_r, Z.div_mul by (unfold PAGE_2M; lia).
  pose proof (Z.div_mod p 512 ltac:(done)). lia.
Qed.

(** The tables of [mem_bytes] of RAM, as the value at each aligned address. *)
Definition table_value (mem_bytes a d : Z) : Z :=
  if a =? PML4_GPA then Z.lor PDPT_GPA 3
  else if (PDPT_GPA <=? a) && (a <? PDPT_GPA + 32) then Z.lor (PD_BASE_GPA + (a - PDPT_GPA) / 8 * 0x1000) 3
  else let p := (a - PD_BASE_GPA) / 8 in
    if (0 <=? p) && ((p <? div_ceil mem_bytes PAGE_2M) || (p =? MMIO_HOLE_BASE / PAGE_2M)) then Z.lor (p * PAGE_2M) 0x83 else d.
Lemma tables_written mem_bytes a d : 0 <= mem_bytes <= MMIO_HOLE_BASE -> a mod 8 = 0 ->
  written (page_table_entries mem_bytes) a d = table_value mem_bytes a d.
Proof.
  intros Hm Ha. unfold page_table_entries, table_value. rewrite !written_app. change (seqZ 0 4) with (seqZ 0 (Z.of_nat 4)).
  rewrite (written_family PDPT_GPA (fun gib => Z.lor (PD_BASE_GPA + gib * 0x1000) 3)).
  rewrite (list_fmap_ext _ (fun p => (PD_BASE_GPA + p * 8, Z.lor (p * PAGE_2M) 0x83))) by (intros; apply pd_entry_page).
  set (n := div_ceil mem_bytes PAGE_2M).
  assert (0 <= n <= 1664) as Hn.
  { unfold n, div_ceil, PAGE_2M, MMIO_HOLE_BASE in *. Z.to_euclidean_division_equations. lia. }
  replace (seqZ 0 n) with (seqZ 0 (Z.of_nat (Z.to_nat n))) by (f_equal; lia).
  rewrite (written_family PD_BASE_GPA (fun p => Z.lor (p * PAGE_2M) 0x83)). rewrite Z2Nat.id by lia.
  change (pd_entry MMIO_HOLE_BASE) with (pd_entry (1664 * PAGE_2M)). rewrite pd_entry_page.
  change (MMIO_HOLE_BASE / PAGE_2M) with 1664. unfold written. cbn [foldl fst snd].
  rewrite (proj2 (Z.eqb_eq ((a - PDPT_GPA) mod 8) 0)) by (unfold PDPT_GPA; Z.to_euclidean_division_equations; lia).
  rewrite (proj2 (Z.eqb_eq ((a - PD_BASE_GPA) mod 8) 0)) by (unfold PD_BASE_GPA; Z.to_euclidean_division_equations; lia).
  rewrite !andb_true_r. pose proof (Z.div_mod a 8 ltac:(done)) as Hd. rewrite Ha in Hd.
  replace ((a - PDPT_GPA) / 8) with (a / 8 - 0x400) by (unfold PDPT_GPA; Z.to_euclidean_division_equations; lia).
  replace ((a - PD_BASE_GPA) / 8) with (a / 8 - 0x600) by (unfold PD_BASE_GPA; Z.to_euclidean_division_equations; lia).
  set (q := a / 8) in *. clearbody q. unfold PML4_GPA, PDPT_GPA, PD_BASE_GPA.
  destruct (Z.eqb_spec a (12288 + 1664 * 8)) as [E|E].
  - replace (a =? 4096) with false by lia. replace ((8192 <=? a) && (a <? 8192 + 32)) with false by lia.
    replace (q - 1536) with 1664 by lia. cbn [Z.leb Z.eqb Z.compare andb]. by rewrite Pos.eqb_refl, orb_true_r.
  - replace (q - 1536 =? 1664) with false by lia. rewrite orb_false_r. destruct ((0 <=? q - 1536) && (q - 1536 <? n)) eqn:E1.
    + replace (a =? 4096) with false by lia. by replace ((8192 <=? a) && (a <? 8192 + 32)) with false by lia.
    + destruct ((0 <=? q - 1024) && (q - 1024 <? Z.of_nat 4)) eqn:E2.
      * replace (a =? 4096) with false by lia. by replace ((8192 <=? a) && (a <? 8192 + 32)) with true by lia.
      * by replace ((8192 <=? a) && (a <? 8192 + 32)) with false by lia.
Qed.

Definition tables_in (mem_bytes : Z) (s : S) : Prop :=
  forall a, PML4_GPA <= a < BOOTINFO_GPA -> a mod 8 = 0 -> rd64 s a = table_value mem_bytes a 0.

Lemma table_pml4 mem_bytes i : 0 <= i < 512 ->
  table_value mem_bytes (PML4_GPA + 8 * i) 0 = if i =? 0 then Z.lor PDPT_GPA 3 else 0.
Proof.
  intros Hi. unfold table_value, PML4_GPA, PDPT_GPA, PD_BASE_GPA. destruct (Z.eqb_spec i 0) as [->|]; [done|].
  replace (4096 + 8 * i =? 4096) with false by lia. replace (8192 <=? 4096 + 8 * i) with false by lia. cbv zeta. cbn [andb].
  by replace (0 <=? (4096 + 8 * i - 12288) / 8) with false by (Z.to_euclidean_division_equations; lia).
Qed.
Lemma table_pdpt mem_bytes i : 0 <= i < 512 ->
  table_value mem_bytes (PDPT_GPA + 8 * i) 0 = if i <? 4 then Z.lor (PD_BASE_GPA + i * 0x1000) 3 else 0.
Proof.
  intros Hi. unfold table_value, PML4_GPA, PDPT_GPA, PD_BASE_GPA. replace (8192 + 8 * i =? 4096) with false by lia.
  destruct (Z.ltb_spec i 4).
  - replace ((8192 <=? 8192 + 8 * i) && (8192 + 8 * i <? 8192 + 32)) with true by lia. do 3 f_equal. Z.to_euclidean_division_equations. lia.
  - replace ((8192 <=? 8192 + 8 * i) && (8192 + 8 * i <? 8192 + 32)) with false by lia. cbv zeta.
    by replace (0 <=? (8192 + 8 * i - 12288) / 8) with false by (Z.to_euclidean_division_equations; lia).
Qed.
Lemma table_pd mem_bytes p : 0 <= p ->
  table_value mem_bytes (PD_BASE_GPA + 8 * p) 0 =
    if (p <? div_ceil mem_bytes PAGE_2M) || (p =? MMIO_HOLE_BASE / PAGE_2M) then Z.lor (p * PAGE_2M) 0x83 else 0.
Proof.
  intros Hp. unfold table_value, PML4_GPA, PDPT_GPA, PD_BASE_GPA. replace (12288 + 8 * p =? 4096) with false by lia.
  replace ((8192 <=? 12288 + 8 * p) && (12288 + 8 * p <? 8192 + 32)) with false by lia. cbv zeta.
  replace ((12288 + 8 * p - 12288) / 8) with p by (Z.to_euclidean_division_equations; lia). by replace (0 <=? p) with true by lia.
Qed.

Lemma walk_identity mem_bytes (s : S) va : 0 <= mem_bytes <= MMIO_HOLE_BASE -> tables_in mem_bytes s -> 0 <= va < 2 ^ 48 ->
  page_walk s PML4_GPA va = identity_map mem_bytes va.
Proof.
  intros Hm Ht Hva. unfold page_walk. change (address 12 PML4_GPA) with PML4_GPA.
  assert (forall a i, 0 <= i -> PML4_GPA <= a < BOOTINFO_GPA -> a mod 8 = 0 -> a + 8 * i < BOOTINFO_GPA ->
    rd64 s (a + 8 * i) = table_value mem_bytes (a + 8 * i) 0) as Hrd
    by (intros a i Hi Ha Hm8 Hb; apply Ht; [lia|]; rewrite (Z.mul_comm 8); by rewrite Z.mod_add).
  assert (div_ceil mem_bytes PAGE_2M <= 1664) as Hn
    by (unfold div_ceil, PAGE_2M, MMIO_HOLE_BASE in *; Z.to_euclidean_division_equations; lia).
  assert (identity_map mem_bytes va = None \/ va < 2 ^ 32) as Hbig.
  { unfold identity_map. change (MMIO_HOLE_BASE / PAGE_2M) with 1664. set (n := div_ceil mem_bytes PAGE_2M) in *. clearbody n.
    destruct (Z.lt_ge_cases va (2 ^ 32)); [by right|left]. assert (2048 <= va / PAGE_2M) by (apply Z.div_le_lower_bound; [done|unfold PAGE_2M; lia]).
    by replace ((va / PAGE_2M <? n) || (va / PAGE_2M =? 1664)) with false by lia. }
  set (i4 := (va / 2 ^ 39) mod 512). set (i3 := (va / 2 ^ 30) mod 512). set (i2 := (va / 2 ^ 21) mod 512).
  assert (0 <= i4 < 512 /\ 0 <= i3 < 512 /\ 0 <= i2 < 512) as (B4 & B3 & B2) by (split_and!; apply Z.mod_pos_bound; done).
  rewrite Hrd, table_pml4 by (done || (unfold PML4_GPA, BOOTINFO_GPA; lia)). destruct (Z.eqb_spec i4 0) as [E4|E4].
  2:{ destruct Hbig as [->|Hs]; [done|]. exfalso. apply E4. unfold i4. by rewrite Z.div_small by lia. }
  cbv zeta. change (negb (present (Z.lor PDPT_GPA 3))) with false. change (address 12 (Z.lor PDPT_GPA 3)) with PDPT_GPA. cbv iota.
  rewrite Hrd, table_pdpt by (done || (unfold PML4_GPA, PDPT_GPA, BOOTINFO_GPA; lia)). destruct (Z.ltb_spec i3 4) as [E3|E3].
  2:{ destruct Hbig as [->|Hs]; [done|]. exfalso. assert (0 <= va / 2 ^ 30 < 4) by (Z.to_euclidean_division_equations; lia).
      unfold i3 in E3. rewrite Z.mod_small in E3 by lia. lia. }
  assert (0 <= va < 2 ^ 32 /\ va / 2 ^ 21 = i3 * 512 + i2) as [Hs Hp] by (unfold i4, i3, i2 in *; Z.to_euclidean_division_equations; lia).
  clear Hbig E4 B4 i4. clearbody i3 i2.
  assert (negb (present (Z.lor (PD_BASE_GPA + i3 * 4096) 3)) = false /\ page_size_bit (Z.lor (PD_BASE_GPA + i3 * 4096) 3) = false /\
    address 12 (Z.lor (PD_BASE_GPA + i3 * 4096) 3) = PD_BASE_GPA + i3 * 4096) as (-> & -> & ->).
  { assert (i3 = 0 \/ i3 = 1 \/ i3 = 2 \/ i3 = 3) as [->|[->|[->| ->]]] by lia; done. }
  replace (PD_BASE_GPA + i3 * 4096 + 8 * i2) with (PD_BASE_GPA + 8 * (i3 * 512 + i2)) by lia.
  rewrite Hrd, table_pd by (done || (unfold PML4_GPA, PD_BASE_GPA, BOOTINFO_GPA; lia)). rewrite <- Hp.
  unfold identity_map. change (va / PAGE_2M) with (va / 2 ^ 21). destruct (_ || _); [|done].
  assert (present (Z.lor (va / 2 ^ 21 * PAGE_2M) 0x83) && page_size_bit (Z.lor (va / 2 ^ 21 * PAGE_2M) 0x83) = true) as ->
    by (unfold present, page_size_bit; rewrite !Z.lor_spec, !orb_true_r; done).
  rewrite address_lor; [|lia| |by apply Z_mod_mult|lia].
  - pose proof (Z.div_mod va (2 ^ 21) ltac:(done)). f_equal. unfold PAGE_2M. lia.
  - unfold PAGE_2M. Z.to_euclidean_division_equations. lia.
Qed.

Lemma table_entries_ok mem_bytes : 0 <= mem_bytes <= MMIO_HOLE_BASE ->
  Forall (fun e : Z * Z => e.1 mod 8 = 0 /\ u64 e.2 /\ PML4_GPA <= e.1 <= BOOTINFO_GPA - 8) (page_table_entries mem_bytes).
Proof.
  intros Hm. assert (forall p, 0 <= p <= 1664 -> let e := pd_entry (p * PAGE_2M) in e.1 mod 8 = 0 /\ u64 e.2 /\ PML4_GPA <= e.1 <= BOOTINFO_GPA - 8) as Hpd.
  { intros p Hp. rewrite pd_entry_page. cbn [fst snd]. split_and!; [|apply lor_bound; unfold PAGE_2M; lia|unfold PML4_GPA, PD_BASE_GPA, BOOTINFO_GPA; lia..].
    rewrite Z.mod_add; done. }
  unfold page_table_entries. repeat apply Forall_app_2.
  - repeat constructor; done.
  - repeat constructor; done.
  - apply Forall_fmap, Forall_forall. intros p [Hp1 Hp2]%elem_of_seqZ. apply Hpd.
    unfold div_ceil, PAGE_2M, MMIO_HOLE_BASE in *. Z.to_euclidean_division_equations. lia.
  - apply List.Forall_cons; [|done]. apply (Hpd 1664). lia.
Qed.

Lemma tables_built mem_bytes (s s' : S) : 0 <= mem_bytes <= MMIO_HOLE_BASE -> (forall i, PML4_GPA <= i < BOOTINFO_GPA -> byte_at s i = 0) ->
  write_page_tables mem_bytes s = Some (Ok tt, s') ->
  slot_mem_bytes s' = slot_mem_bytes s /\ tables_in mem_bytes s' /\ forall i, i < PML4_GPA \/ BOOTINFO_GPA <= i -> byte_at s' i = byte_at s i.
Proof.
  intros Hm Hz Hw. pose proof (table_entries_ok _ Hm) as Hok.
  destruct (entries_read (page_table_entries mem_bytes) s s') as (Hs & Hrd & Hfr); [|done|].
  { eapply Forall_impl; [exact Hok|]. by intros e (? & ? & _). }
  split_and!; [done| |].
  - intros a Ha Ha8. rewrite Hrd, tables_written by done. assert (rd64 s a = 0) as ->; [|done].
    unfold rd64. assert (a + 8 <= BOOTINFO_GPA) by (unfold BOOTINFO_GPA in *; Z.to_euclidean_division_equations; lia).
    rewrite (list_fmap_ext _ (fun _ => 0)); [by vm_compute|]. intros j x Hx%lookup_seqZ. apply Hz. lia.
  - intros i Hi. apply Hfr. eapply Forall_impl; [exact Hok|]. intros e (_ & _ & He). lia.
Qed.

Lemma tables_kept mem_bytes (s s' : S) : (forall i, PML4_GPA <= i < BOOTINFO_GPA -> byte_at s' i = byte_at s i) ->
  tables_in mem_bytes s -> tables_in mem_bytes s'.
Proof.
  intros Hf Ht a Ha Ha8. rewrite <- (Ht a Ha Ha8). unfold rd64. f_equal. apply list_fmap_ext. intros j x Hx%lookup_seqZ. apply Hf.
  unfold BOOTINFO_GPA in *. Z.to_euclidean_division_equations. lia.
Qed.

(** ** Bytes in place *)

Definition bytes_at (s : S) (a : Z) (b : bytes) : Prop := forall i x, b !! i = Some x -> byte_at s (a + Z.of_nat i) = x.

Lemma wrote_at what b a (s s' : S) : guest_write what b a s = Some (Ok tt, s') ->
  slot_mem_bytes s' = slot_mem_bytes s /\ bytes_at s' a b /\
  forall i, i < a \/ a + Z.of_nat (length b) <= i -> byte_at s' i = byte_at s i.
Proof.
  intros Hw. destruct (guest_wrote _ _ _ _ _ Hw) as (Hm & _ & _ & Hb). split_and!; [done| |].
  - intros i x Hx. rewrite Hb. unfold over. pose proof (lookup_lt_Some _ _ _ Hx).
    replace ((a <=? a + Z.of_nat i) && (a + Z.of_nat i <? a + Z.of_nat (length b))) with true by lia.
    replace (Z.to_nat (a + Z.of_nat i - a)) with i by lia. by rewrite Hx.
  - intros i Hi. rewrite Hb. unfold over. by replace ((a <=? i) && (i <? a + Z.of_nat (length b))) with false by lia.
Qed.
Lemma bytes_kept (s s' : S) a b : (forall i, a <= i < a + Z.of_nat (length b) -> byte_at s' i = byte_at s i) ->
  bytes_at s a b -> bytes_at s' a b.
Proof. intros Hf Hb i x Hx. rewrite Hf; [by apply Hb|]. pose proof (lookup_lt_Some _ _ _ Hx). lia. Qed.

(** ** The vCPU's entry state *)

Definition entered (code data : kvm_segment) (regs_of : kvm_regs -> kvm_regs) (s s' : S) : Prop :=
  exists sregs regs s1, kvm_get_sregs s = Ok sregs /\ kvm_set_sregs (long_mode_sregs code data sregs) s = (Ok tt, s1) /\
    kvm_get_regs s1 = Ok regs /\ kvm_set_regs (regs_of regs) s1 = (Ok tt, s').

Lemma enter_inv code data regs_of (s s' : S) :
  (sregs ← get_sregs; _ ← set_sregs (long_mode_sregs code data sregs); regs ← get_regs; set_regs (regs_of regs)) s = Some (Ok tt, s') ->
  entered code data regs_of s s' /\ forall i, byte_at s' i = byte_at s i.
Proof.
  unfold get_sregs, set_sregs, get_regs, set_regs, mbind, prog_bind, map_err, observe, io.
  destruct (kvm_get_sregs s) as [sregs|e|] eqn:H1; cbn; [|done..].
  destruct (kvm_set_sregs _ s) as [[[]|e|] s1] eqn:H2; cbn; [|done..].
  destruct (kvm_get_regs s1) as [regs|e|] eqn:H3; cbn; [|done..].
  destruct (kvm_set_regs _ s1) as [[[]|e|] s2] eqn:H4; cbn; [|done..]. intros [= <-].
  split; [by exists sregs, regs, s1|]. intros i. by rewrite (regs_leave_ram _ _ _ H4), (sregs_leave_ram _ _ _ H2).
Qed.
Lemma filter_inv (s s' : S) : apply_default_deny_filter s = Some (Ok tt, s') ->
  set_msr_filter default_deny_filter s = (Ok tt, s') /\ forall i, byte_at s' i = byte_at s i.
Proof.
  unfold apply_default_deny_filter, map_err, io. destruct (set_msr_filter _ s) as [[[]|e|] s1] eqn:H; cbn; [|done..].
  intros [= <-]. split; [done|]. by apply (filter_leaves_ram _ _ _ H).
Qed.

(** ** The Linux artifacts *)

Lemma kernel_range bzimage header : header_ok bzimage header ->
  get_range bzimage (bz_kernel_image_file_offset header) (bz_kernel_image_file_offset header + bz_kernel_image_length header) =
    Some (drop (Z.to_nat (bz_setup_bytes header)) bzimage).
Proof.
  intros Hh. pose proof (ho_kernel _ _ Hh) as Hk. pose proof (ho_kernel_pos _ _ Hh). pose proof (ho_sects _ _ Hh).
  pose proof (ho_setup_bytes _ _ Hh) as Hb. rewrite (ho_offset _ _ Hh) in *. unfold SECTOR in Hb. unfold get_range. rewrite Hk.
  replace ((bz_setup_bytes header <=? Z.of_nat (length bzimage)) && (Z.of_nat (length bzimage) <=? Z.of_nat (length bzimage))) with true by lia.
  f_equal. unfold slice. apply take_ge. rewrite length_drop. lia.
Qed.

Lemma plan_written bzimage initramfs cmdline header plan mem_bytes (s s' : S) : header_ok bzimage header ->
  plan_ok bzimage header mem_bytes (Z.of_nat (length initramfs)) cmdline plan ->
  write_bzimage_plan bzimage initramfs plan s = Some (Ok tt, s') ->
  bytes_at s' LINUX_KERNEL_LOAD_GPA (drop (Z.to_nat (bz_setup_bytes header)) bzimage) /\
  bytes_at s' LINUX_BOOT_PARAMS_GPA (lp_boot_params plan) /\ bytes_at s' LINUX_CMDLINE_GPA (cmdline ++ [0]) /\
  match ll_initramfs (lp_layout plan) with Some r => bytes_at s' (lr_start r) initramfs | None => initramfs = [] end /\
  forall i, PML4_GPA <= i < BOOTINFO_GPA -> byte_at s' i = byte_at s i.
Proof.
  intros Hh Hp. destruct (po_kernel _ _ _ _ _ _ Hp) as [Hk1 Hk2]. destruct (po_fixed _ _ _ _ _ _ Hp) as (_ & Hf2 & Hf3).
  destruct (po_cmdline _ _ _ _ _ _ Hp) as [Hc1 Hc2]. pose proof (pr_length _ _ _ (po_page _ _ _ _ _ _ Hp)) as Hpl.
  pose proof (po_chain _ _ _ _ _ _ Hp) as Hch. pose proof (po_initramfs _ _ _ _ _ _ Hp) as Hir.
  unfold write_bzimage_plan. rewrite Hk1, Hk2, Hf2, Hf3, Hc1. cbn [lr_start lr_len].
  pose proof (ho_kernel _ _ Hh) as Hkl.
  intros [(end_ & s0 & [= He <-] & Hb)|[(e & _ & [=])|[_ [=]]]]%prog_bind_inv.
  unfold checked_add, try_u64 in He. destruct (_ <=? _); [|done]. injection He as <-.
  apply prog_bind_inv in Hb as [(kernel & s0 & [= He <-] & Hb)|[(e & _ & [=])|[_ [=]]]].
  rewrite (kernel_range _ _ Hh) in He. injection He as <-. set (kernel := drop _ bzimage) in *.
  apply prog_bind_inv in Hb as [([] & s1 & W1 & Hb)|[(e & _ & [=])|[_ [=]]]]. destruct (wrote_at _ _ _ _ _ W1) as (_ & A1 & F1).
  apply prog_bind_inv in Hb as [([] & s2 & W2 & Hb)|[(e & _ & [=])|[_ [=]]]]. destruct (wrote_at _ _ _ _ _ W2) as (_ & A2 & F2).
  apply prog_bind_inv in Hb as [([] & s3 & W3 & Hb)|[(e & _ & [=])|[_ [=]]]]. destruct (wrote_at _ _ _ _ _ W3) as (_ & A3 & F3).
  assert (Z.of_nat (length kernel) = bz_kernel_image_length header) as Hkl'.
  { unfold kernel. rewrite length_drop. pose proof (ho_kernel_pos _ _ Hh). pose proof (ho_sects _ _ Hh). pose proof (ho_setup_bytes _ _ Hh) as Hb'.
    rewrite (ho_offset _ _ Hh) in Hkl. unfold SECTOR in Hb'. lia. }
  rewrite Hpl in F2. rewrite length_app in F3. cbn [length] in F3.
  assert (exists lo, LINUX_KERNEL_LOAD_GPA + bz_kernel_image_length header <= lo /\ (forall i, i < lo -> byte_at s' i = byte_at s3 i) /\
    match ll_initramfs (lp_layout plan) with Some r => bytes_at s' (lr_start r) initramfs | None => initramfs = [] end) as (lo & Hlo & F4 & A4).
  { destruct (ll_initramfs (lp_layout plan)) as [r|] eqn:Hi.
    - destruct (wrote_at _ _ _ _ _ Hb) as (_ & A4 & F4). exists (lr_start r). split_and!; [|intros; apply F4; lia|done].
      unfold placed in Hch. rewrite Hi, Hk1, Hf2, Hf3 in Hch. change (option_list (Some r)) with [r] in Hch. cbn [app chain] in Hch.
      unfold past in Hch. cbn [lr_start lr_len] in Hch. lia.
    - injection Hb as <-. exists (LINUX_KERNEL_LOAD_GPA + bz_kernel_image_length header). split_and!; [lia|done|].
      destruct (Z.eqb_spec (Z.of_nat (length initramfs)) 0) as [H0|H0]; [destruct initramfs; [done|cbn in H0; lia]|].
      destruct Hir as (st & [=] & _). }
  pose proof (ho_kernel_pos _ _ Hh). clear Hir Hch Hp.
  split_and!; [..|exact A4|].
  - apply (bytes_kept s1); [|done]. intros i Hi. rewrite F4, F3, F2; [done|..]; layout_lia.
  - apply (bytes_kept s2); [|done]. rewrite Hpl. intros i Hi. rewrite F4, F3; [done|..]; layout_lia.
  - apply (bytes_kept s3); [|done]. rewrite length_app. cbn [length]. intros i Hi. apply F4. layout_lia.
  - intros i Hi. rewrite F4, F3, F2, F1; [done|..]; layout_lia.
Qed.

(** C26: what the Linux loader promises, in the guest's own terms.  From a slot
    whose table area is zero, a boot that succeeds leaves a vCPU in long mode on
    page tables that translate every address of RAM and of the device window to
    itself and fault on every other 48-bit address; the whole kernel image,
    the [boot_params] page, the NUL-terminated command line and the initramfs
    are in guest RAM where the plan put them, none overwriting another; the MSR
    filter is the default-deny one; and the vCPU enters the kernel's 64-bit
    entry point with RSI at [boot_params]. *)
Theorem linux_boot_exact bzimage initramfs cmdline layout (s s' : S) :
  bytes_ok bzimage -> 0 <= slot_mem_bytes s -> (forall i, PML4_GPA <= i < BOOTINFO_GPA -> byte_at s i = 0) ->
  load_bzimage_and_enter bzimage initramfs cmdline s = Some (Ok layout, s') ->
  exists header page sf sv, header_ok bzimage header /\ chain PAGE_SIZE (slot_mem_bytes s) (placed layout) /\
    page_reads bzimage layout page /\
    (forall va, 0 <= va < 2 ^ 48 -> page_walk s' PML4_GPA va = identity_map (slot_mem_bytes s) va) /\
    bytes_at s' LINUX_KERNEL_LOAD_GPA (drop (Z.to_nat (bz_setup_bytes header)) bzimage) /\
    bytes_at s' LINUX_BOOT_PARAMS_GPA page /\ bytes_at s' LINUX_CMDLINE_GPA (cmdline ++ [0]) /\
    match ll_initramfs layout with Some r => bytes_at s' (lr_start r) initramfs | None => initramfs = [] end /\
    set_msr_filter default_deny_filter sf = (Ok tt, sv) /\
    entered (code_segment 0xffffffff 0x10) (data_segment 0xffffffff 0x18)
      (linux_regs (LINUX_KERNEL_LOAD_GPA + LINUX_64BIT_ENTRY_OFFSET) LINUX_BOOT_PARAMS_GPA) sv s'.
Proof.
  intros Hb Hm Hz. unfold load_bzimage_and_enter.
  intros [(mem & s0 & [= <- <-] & H)|[(e & _ & [=])|[_ [=]]]]%prog_bind_inv. cbv zeta in H.
  apply prog_bind_inv in H as [(header & s0 & [= Hpe <-] & H)|[(e & _ & [=])|[_ [=]]]].
  apply prog_bind_inv in H as [(plan & s0 & [= Hpl <-] & H)|[(e & _ & [=])|[_ [=]]]].
  pose proof (parse_cases bzimage (Z.of_nat (length initramfs)) (Z.of_nat (length cmdline)) (slot_mem_bytes s)) as Hh.
  destruct (parse_bzimage _ _ _ _) as [header'|e|] eqn:Hpe'; [|done..]. injection Hpe as ->. specialize (Hh Hb).
  pose proof (plan_cases bzimage header (slot_mem_bytes s) (Z.of_nat (length initramfs)) cmdline Hb Hh (parse_length _ _ _ _ _ Hpe') ltac:(lia) Hm) as Hp.
  destruct (plan_bzimage_boot _ _ _ _) as [plan'|e|]; [|done..]. injection Hpl as ->.
  apply prog_bind_inv in H as [([] & s1 & Ht & H)|[(e & _ & [=])|[_ [=]]]].
  apply prog_bind_inv in H as [([] & s2 & Hw & H)|[(e & _ & [=])|[_ [=]]]].
  apply prog_bind_inv in H as [([] & s3 & Hf & H)|[(e & _ & [=])|[_ [=]]]].
  apply prog_bind_inv in H as [([] & s4 & He & [= <- <-])|[(e & _ & [=])|[_ [=]]]].
  destruct (tables_built _ _ _ (conj Hm (po_mem _ _ _ _ _ _ Hp)) Hz Ht) as (_ & Htab & _).
  destruct (plan_written _ _ _ _ _ _ _ _ Hh Hp Hw) as (A1 & A2 & A3 & A4 & Hfr). apply filter_inv in Hf as [Hf Ff].
  destruct (po_kernel _ _ _ _ _ _ Hp) as [Hk1 _]. destruct (po_fixed _ _ _ _ _ _ Hp) as (_ & Hf2 & _).
  rewrite Hk1, Hf2 in He. cbn [lr_start] in He. apply enter_inv in He as [He Fe].
  assert (forall i, byte_at s4 i = byte_at s2 i) as F by (intros i; by rewrite Fe, Ff).
  assert (forall a b, bytes_at s2 a b -> bytes_at s4 a b) as Fb by (intros a b; apply bytes_kept; intros; apply F).
  exists header, (lp_boot_params plan), s2, s3. split_and!; [done|apply (po_chain _ _ _ _ _ _ Hp)|apply (po_page _ _ _ _ _ _ Hp)| |by apply Fb..| |done|done].
  - intros va Hva. apply walk_identity; [split; [done|apply (po_mem _ _ _ _ _ _ Hp)]| |done].
    apply (tables_kept _ s1); [|done]. intros i Hi. rewrite F. by apply Hfr.
  - destruct (ll_initramfs (lp_layout plan)); [by apply Fb|done].
Qed.

(** ** The ELF image *)

(** The segments of the program headers, in order. *)
Fixpoint pt_loads (elf : bytes) (h : ElfHeader) (is_ : list Z) : outcome BootError (list PtLoad) :=
  match is_ with
  | [] => Ok []
  | i :: is_ => g ← program_header elf h i; gs ← pt_loads elf h is_; Ok (option_list g ++ gs)
  end.
(** A segment's memory: its file bytes, then zeros. *)
Definition segment_bytes (g : PtLoad) : bytes := pl_file g ++ replicate (Z.to_nat (pl_memsz g - pl_filesz g)) 0.
Definition overlaid (gs : list PtLoad) (f : Z -> Z) : Z -> Z := foldl (fun f g => over (pl_vaddr g) (segment_bytes g) f) f gs.

Lemma over_app a b c f i : over (a + Z.of_nat (length b)) c (over a b f) i = over a (b ++ c) f i.
Proof.
  unfold over. rewrite length_app, Nat2Z.inj_add.
  destruct (Z.leb_spec (a + Z.of_nat (length b)) i), (Z.ltb_spec i (a + Z.of_nat (length b) + Z.of_nat (length c))),
    (Z.leb_spec a i), (Z.ltb_spec i (a + Z.of_nat (length b))), (Z.ltb_spec i (a + (Z.of_nat (length b) + Z.of_nat (length c))));
    cbn [andb]; try lia; try done.
  - rewrite lookup_app_r by lia. do 2 f_equal. lia.
  - rewrite lookup_app_l by lia. done.
Qed.
Lemma over_nil a f i : over a [] f i = f i.
Proof. unfold over. cbn [length]. by replace ((a <=? i) && (i <? a + Z.of_nat 0)) with false by lia. Qed.
Lemma over_ext a b f g i : f i = g i -> over a b f i = over a b g i.
Proof. intros H. unfold over. by destruct (_ && _). Qed.
Lemma overlaid_ext gs : forall f g i, f i = g i -> overlaid gs f i = overlaid gs g i.
Proof. induction gs as [|x gs IH]; intros f g i H; [done|]. cbn. apply IH. by apply over_ext. Qed.

Lemma phdr_u64_nonneg elf base off v : bytes_ok elf -> phdr_u64 elf base off = Ok v -> 0 <= v.
Proof.
  intros Hb H. unfold phdr_u64, elf_u64, elf_le, elf_get in H. apply bind_ok in H as (a & _ & H). apply bind_ok in H as (o & Ho & H).
  apply bind_ok in Ho as (b & Hg & [= <-]). apply bind_ok in Hg as (to & _ & [= <-]). unfold get_range in H.
  destruct (_ && _); [|done]. injection H as <-. apply of_le_bound. by apply Forall_slice.
Qed.
Lemma program_header_ok elf h i g : bytes_ok elf -> program_header elf h i = Ok (Some g) ->
  LOW_RAM_RESERVED <= pl_vaddr g /\ Z.of_nat (length (pl_file g)) = pl_filesz g.
Proof.
  intros Hbk. unfold program_header. intros H. do 4 (apply bind_ok in H as (? & ? & H)). destruct (negb _); [done|].
  apply bind_ok in H as (off & Ho%phdr_u64_nonneg & H); [|done]. apply bind_ok in H as (va & _ & H).
  apply bind_ok in H as (fsz & Hf%phdr_u64_nonneg & H); [|done].
  apply bind_ok in H as (msz & _ & H). destruct (va <? LOW_RAM_RESERVED) eqn:Hv; [done|].
  apply bind_ok in H as (e & He & H). apply bind_ok in H as (b & Hb & [= <-]). cbn. split; [lia|].
  unfold bad, ok_or, checked_add, try_u64 in *. destruct (off + fsz <=? u64_max); [|done]. injection He as <-.
  unfold get_range in Hb. destruct (_ && _) eqn:Hr; [|done]. injection Hb as <-. rewrite length_slice; lia.
Qed.

Lemma segment_loaded g (s s' : S) : Z.of_nat (length (pl_file g)) = pl_filesz g -> load_segment g s = Some (Ok tt, s') ->
  slot_mem_bytes s' = slot_mem_bytes s /\ forall i, byte_at s' i = over (pl_vaddr g) (segment_bytes g) (byte_at s) i.
Proof.
  intros Hl. unfold load_segment. intros [([] & s1 & W1 & H)|[(e & _ & [=])|[_ [=]]]]%prog_bind_inv.
  destruct (guest_wrote _ _ _ _ _ W1) as (M1 & _ & _ & F1). cbv zeta in H. unfold saturating_sub in H. unfold segment_bytes.
  destruct (Z.ltb_spec 0 (Z.max (pl_memsz g - pl_filesz g) 0)) as [Ht|Ht].
  - destruct (ISIZE_MAX <? _); [done|]. apply prog_bind_inv in H as [(a & s2 & [= Ha <-] & W2)|[(e & _ & [=])|[_ [=]]]].
    unfold usize_add in Ha. destruct (_ <=? u64_max); [|done]. injection Ha as <-. rewrite Z.max_l in W2 by lia.
    destruct (guest_wrote _ _ _ _ _ W2) as (M2 & _ & _ & F2). split; [congruence|]. intros i. rewrite F2, <- Hl.
    rewrite (over_ext _ _ _ _ _ (F1 i)). by rewrite over_app.
  - injection H as <-. split; [done|]. replace (Z.to_nat (pl_memsz g - pl_filesz g)) with 0%nat by lia. cbn [replicate].
    by rewrite app_nil_r.
Qed.

Lemma segments_loaded elf h : bytes_ok elf -> forall is_ any (s s' : S) b, load_segments elf h is_ any s = Some (Ok b, s') ->
  exists gs, pt_loads elf h is_ = Ok gs /\ slot_mem_bytes s' = slot_mem_bytes s /\ b = (any || negb (bool_decide (gs = []))) /\
    Forall (fun g => LOW_RAM_RESERVED <= pl_vaddr g) gs /\ forall i, byte_at s' i = overlaid gs (byte_at s) i.
Proof.
  intros Hb. induction is_ as [|x is_ IH]; intros any s s' b; cbn [load_segments pt_loads].
  - intros [= -> ->]. exists []. split_and!; try done. by rewrite orb_false_r.
  - intros [(g & s0 & [= Hg <-] & H)|[(e & _ & [=])|[_ [=]]]]%prog_bind_inv. rewrite Hg. cbn [mbind outcome_bind]. destruct g as [g|].
    + apply prog_bind_inv in H as [([] & s1 & W1 & H)|[(e & _ & [=])|[_ [=]]]].
      destruct (program_header_ok _ _ _ _ Hb Hg) as [Hv Hl]. destruct (segment_loaded _ _ _ Hl W1) as [M1 F1].
      destruct (IH _ _ _ _ H) as (gs & -> & M2 & -> & Hf & F2). exists (g :: gs). split_and!; [done|congruence| |by constructor|].
      * by rewrite orb_true_r.
      * intros i. rewrite F2. cbn. apply overlaid_ext, F1.
    + destruct (IH _ _ _ _ H) as (gs & -> & M2 & -> & Hf & F2). by exists gs.
Qed.
Lemma overlaid_low gs f i : Forall (fun g => LOW_RAM_RESERVED <= pl_vaddr g) gs -> i < LOW_RAM_RESERVED -> overlaid gs f i = f i.
Proof.
  intros Hg Hi. revert f. induction Hg as [|g gs Hv Hg IH]; intros f; [done|].
  change (overlaid (g :: gs) f i) with (overlaid gs (over (pl_vaddr g) (segment_bytes g) f) i). rewrite IH. unfold over.
  by replace (pl_vaddr g <=? i) with false by lia.
Qed.

(** What a guest reads of its BootInfo page. *)
Lemma bootinfo_reads mem_bytes cmdline : u64 mem_bytes -> (length cmdline <= MAX_CMDLINE)%nat ->
  let page := bootinfo_page mem_bytes cmdline in
  take 4 page = [0x44; 0x48; 0x42; 0x49] /\ of_le (slice 4 4 page) = 1 /\ of_le (slice 8 8 page) = mem_bytes /\
  of_le (slice 16 8 page) = MMIO_HOLE_BASE /\ slice 32 (Z.to_nat (of_le (slice 24 4 page))) page = cmdline /\ (length page <= 4096)%nat.
Proof.
  intros Hm Hc. cbv zeta. unfold bootinfo_page, MAX_CMDLINE in *.
  assert (u32 (Z.of_nat (length cmdline))) as Hu by ulia. rewrite to_u32_small by done.
  split_and!; [done|done| | | |].
  - transitivity (of_le (le_bytes 8 mem_bytes)); [|by apply of_le_u64]. reflexivity.
  - done.
  - replace (slice 24 4 _) with (le_bytes 4 (Z.of_nat (length cmdline))) by done. rewrite of_le_u32, Nat2Z.id by done.
    unfold slice. cbn [app le_bytes drop]. apply firstn_all.
  - rewrite !length_app. cbn [length]. rewrite !length_le_bytes. lia.
Qed.

(** C37: what the ELF loader promises.  From a slot whose table area is zero, a
    boot that succeeds leaves every byte from the reserved low RAM up as the
    program headers say (file bytes, then zeros to the memory size, later
    segments over earlier ones, everything else as it was); the identity map as
    for Linux; a BootInfo page from which the guest reads the memory size, the
    device window and its command line; the default-deny MSR filter; and a
    vCPU entering long mode at the image's entry with RSI at BootInfo. *)
Theorem elf_boot_exact elf cmdline layout (s s' : S) :
  bytes_ok elf -> 0 <= slot_mem_bytes s <= MMIO_HOLE_BASE -> (forall i, PML4_GPA <= i < BOOTINFO_GPA -> byte_at s i = 0) ->
  load_and_enter elf cmdline s = Some (Ok layout, s') ->
  exists h gs sf sv, elf_header elf = Ok h /\ pt_loads elf h (seqZ 0 (eh_phnum h)) = Ok gs /\ gs <> [] /\
    layout = mkBootLayout (eh_entry h) BOOTINFO_GPA /\
    (forall i, LOW_RAM_RESERVED <= i -> byte_at s' i = overlaid gs (byte_at s) i) /\
    (forall va, 0 <= va < 2 ^ 48 -> page_walk s' PML4_GPA va = identity_map (slot_mem_bytes s) va) /\
    bytes_at s' BOOTINFO_GPA (bootinfo_page (slot_mem_bytes s) cmdline) /\
    (let page := bootinfo_page (slot_mem_bytes s) cmdline in
     of_le (slice 8 8 page) = slot_mem_bytes s /\ slice 32 (Z.to_nat (of_le (slice 24 4 page))) page = cmdline) /\
    set_msr_filter default_deny_filter sf = (Ok tt, sv) /\
    entered (code_segment 0xfffff 0x08) (data_segment 0xfffff 0x10) (entry_regs (eh_entry h) BOOTINFO_GPA) sv s'.
Proof.
  intros Hb Hm Hz. unfold load_and_enter.
  intros [(entry & s1 & Hl & H)|[(e & _ & [=])|[_ [=]]]]%prog_bind_inv.
  unfold load_elf in Hl. apply prog_bind_inv in Hl as [(h & s0 & [= Hh <-] & Hl)|[(e & _ & [=])|[_ [=]]]].
  apply prog_bind_inv in Hl as [(any & s0 & Hl & He)|[(e & _ & [=])|[_ [=]]]].
  destruct (segments_loaded _ _ Hb _ _ _ _ _ Hl) as (gs & Hgs & M1 & Hany & Hlow & F1). cbn [orb] in Hany.
  destruct any; [|done]. injection He as <- <-. symmetry in Hany. apply negb_true_iff, bool_decide_eq_false in Hany.
  apply prog_bind_inv in H as [(mem & s2 & [= <- <-] & H)|[(e & _ & [=])|[_ [=]]]]. rewrite M1 in H.
  apply prog_bind_inv in H as [([] & s2 & Ht & H)|[(e & _ & [=])|[_ [=]]]].
  apply prog_bind_inv in H as [([] & s3 & Hi & H)|[(e & _ & [=])|[_ [=]]]].
  apply prog_bind_inv in H as [([] & s4 & Hf & H)|[(e & _ & [=])|[_ [=]]]].
  apply prog_bind_inv in H as [([] & s5 & Hen & [= <- <-])|[(e & _ & [=])|[_ [=]]]].
  assert (forall i, PML4_GPA <= i < BOOTINFO_GPA -> byte_at s0 i = 0) as Hz0.
  { intros i Hi'. rewrite F1, overlaid_low; [by apply Hz|done|]. unfold BOOTINFO_GPA, LOW_RAM_RESERVED in *. lia. }
  destruct (tables_built _ _ _ Hm Hz0 Ht) as (_ & Htab & Fr). unfold write_bootinfo in Hi.
  destruct (MAX_CMDLINE <? length cmdline)%nat eqn:Hc; [done|]. apply Nat.ltb_ge in Hc.
  destruct (bootinfo_reads (slot_mem_bytes s) cmdline) as (_ & _ & R1 & _ & R2 & Rl); [unfold MMIO_HOLE_BASE in *; ulia|done|].
  destruct (wrote_at _ _ _ _ _ Hi) as (_ & A3 & F3). apply filter_inv in Hf as [Hf Ff]. apply enter_inv in Hen as [Hen Fe].
  assert (forall i, byte_at s5 i = byte_at s3 i) as F by (intros i; by rewrite Fe, Ff).
  exists h, gs, s3, s4. split_and!; try done.
  - intros i Hi'. rewrite F, F3, Fr, F1; [done|..]; unfold BOOTINFO_GPA, LOW_RAM_RESERVED, PML4_GPA in *; lia.
  - intros va Hva. apply walk_identity; [done| |done]. apply (tables_kept _ s2); [|done]. intros i Hi'. rewrite F, F3; [done|lia].
  - apply (bytes_kept s3); [|done]. intros. apply F.
Qed.
End Tables.
