(* ===== verification/SnapshotOk.v ===== *)
(** * Snapshots and restores agree

    The container a capture builds and what applying it gives back; its
    independence of the bus layout; the pages of an incremental snapshot; a
    snapshot through a store and its restore.  A device enters only through the
    [DetDevice] contract. *)

From Stdlib Require Import String Sorted.
From stdpp Require Import sorting.
From S2P Require Import Prelude Vt DhSnap DhSnapSections SlotState Lapic DevCtx Devices DevicesOk Bus Dirty Config Msr Kvm ReprC VcpuState StateHash Boundary RunCtl Recording Snapshot Restore.

(** ** Encodings are bytes *)

Lemma bytes_ok_concat {A} (f : A -> bytes) l : (forall x, x ∈ l -> bytes_ok (f x)) -> bytes_ok (concat (f <$> l)).
Proof.
  intros H. induction l as [|x l IH]; [constructor|]. cbn. apply Forall_app. split; [apply H, list_elem_of_here|].
  apply IH. intros y Hy. by apply H, list_elem_of_further.
Qed.

(** Split a concatenation into its parts. *)
Ltac parts_ok := unfold bytes_ok; rewrite ?Forall_app; split_and?;
  first [apply le_bytes_ok | apply bytes_ok_replicate | assumption | idtac].

Lemma time_bytes t : time_wf t -> bytes_ok (TimeSection_encode t).
Proof. intros Hw. rewrite time_encode_cat by done. destruct Hw as (_ & _ & _ & _ & ?). parts_ok. Qed.
Lemma entr2_bytes s : entr2_wf s -> bytes_ok (EntrSectionV2_encode s).
Proof. intros Hw. rewrite entr2_encode_cat by done. destruct Hw as (((_ & ?) & _) & _). parts_ok. Qed.
Lemma u32s_bytes l : bytes_ok (u32s l).
Proof. induction l as [|x l IH]; [constructor|]. apply Forall_app. split; [apply le_bytes_ok|apply IH]. Qed.
Lemma lapc_bytes s : lapc_wf s -> bytes_ok (LapcSection_encode s).
Proof.
  intros Hw. rewrite lapc_encode_cat by done. parts_ok; apply u32s_bytes.
Qed.
Lemma boot_bytes b : boot_typed b -> bytes_ok (boot_encode b).
Proof.
  destruct b; cbn -[le_bytes]; intros H; destruct_and!; unfold vec_u32, array in *; destruct_and!;
    (constructor; [ulia|]); parts_ok.
Qed.
Lemma config_bytes c : config_typed c -> bytes_ok (config_image c).
Proof.
  intros (_ & _ & _ & _ & [_ ?] & Hb & _). apply boot_bytes in Hb. unfold config_image. parts_ok.
  - by apply bytes_okb_ok.
  - destruct (hash_epochs c); apply Forall_singleton; cbn; ulia.
  - apply bytes_ok_concat. intros l _. unfold leaf_encode. apply bytes_ok_concat. intros; apply le_bytes_ok.
  - apply bytes_ok_concat. intros; apply le_bytes_ok.
Qed.

(** An APIC's section restores it. *)
Lemma lapic_section_back a : lapic_ok a ->
  decode_compat (LapcSection_encode (to_lapc_section a)) LapcSection_VERSION = Ok (to_lapc_section a) /\
  from_lapc_section (to_lapc_section a) = Ok a.
Proof.
  intros Ha. split; [apply (lapc_encode_decode _ (p_wf _ Ha))|]. apply (from_lapc_iff _ _ (p_wf _ Ha)).
  by rewrite of_to_section.
Qed.

(** The configuration a container carries: the landing knobs at their
    defaults, everything else the machine's. *)
Definition landing_reset (c : MachineConfig) : MachineConfig :=
  mkConfig (version c) (mem_bytes c) (vcpus c) (clock c) (base_image_hash c) (boot c) (epoch_len c) (hash_epochs c)
    DEFAULT_SKID_MARGIN DEFAULT_RESYNC_SLACK (cpuid_table c) (device_set c).

Lemma config_recovered c image : config_typed c -> canonical_encode c = Ok image ->
  bytes_ok image /\ canonical_decode image = Ok (landing_reset c).
Proof.
  unfold canonical_encode. intros Ht H. destruct (Config.validate c) as [[]| |] eqn:Hv; [|done..]. injection H as <-.
  split; [by apply config_bytes|]. apply canonical_decode_ok; [by apply config_bytes|].
  assert (Config.validate (landing_reset c) = Ok tt) as Hv' by done.
  destruct (validate_bounds c Hv) as (? & ? & ?). unfold config_fits, landing_default.
  split_and!; done.
Qed.

(** ** What a capture writes *)

Section Capture.
Context {B : Blake3} {X : AnyChannel} {M E K S : Type}.
Context `{!Snapstore K, !DetEntropy E, !Vcpu S, !VcpuGets S}.
Local Notation Bus := (list (Z * BoxDev M E)).
Local Notation Error := (EngineError StoreError).

Definition is_entropy (e : Z * BoxDev M E) : bool := box_id e.2 =? DEVICE_ID_PV_ENTROPY.
Definition others (bus : Bus) : Bus := List.filter (fun e => negb (is_entropy e)) bus.
Definition entropy_blobs (bus : Bus) : list bytes := (fun e => box_snapshot e.2) <$> List.filter is_entropy bus.
(** [sec] is the section of the device [e]. *)
Definition device_section (e : Z * BoxDev M E) (sec : Section_) : Prop :=
  tag_for_device_id (box_id e.2) = Some (tag sec) /\ sec_version sec = box_version e.2 /\
  contents sec = box_snapshot e.2.

Lemma walk_devices_iff (bus : Bus) r l r' l' :
  walk_devices bus r l = Ok (r', l') <->
  option_list r ++ entropy_blobs bus = option_list r' /\
  exists secs, l' = l ++ secs /\ Forall2 device_section (others bus) secs.
Proof.
  revert r l. induction bus as [|[base dev] bus IH]; intros r l; cbn [walk_devices].
  { unfold entropy_blobs, others. cbn. rewrite app_nil_r. split.
    - intros [= -> ->]. split; [done|]. exists []. by rewrite app_nil_r.
    - intros (Hr & secs & -> & HF). inversion HF; subst. rewrite app_nil_r.
      destruct r, r'; cbn in Hr; congruence. }
  unfold entropy_blobs, others, is_entropy in *. cbn [List.filter snd].
  destruct (box_id dev =? DEVICE_ID_PV_ENTROPY) eqn:Hid; cbn [negb].
  - destruct r as [x|]; [|by rewrite IH].
    split; [done|]. intros [Hr _]. destruct r'; done.
  - destruct (tag_for_device_id (box_id dev)) as [t|] eqn:Ht; cbn [ok_or mbind outcome_bind].
    2:{ split; [done|]. intros (_ & secs & _ & HF). inversion HF as [|? ? ? ? (Hd & _)]; subst. cbn in Hd. congruence. }
    rewrite IH. split; (intros (Hr & secs & -> & HF); split; [done|]).
    + eexists. rewrite <- app_assoc. split; [done|]. by constructor.
    + inversion HF as [|? sec ? secs' (Hd1 & Hd2 & Hd3) HF']; subst. exists secs'. split; [|done].
      rewrite <- app_assoc. cbn in *. destruct sec; cbn in *. congruence.
Qed.

(** A run of pushes succeeds exactly when the container stays well formed. *)
Definition sec_typed (sec : Section_) : Prop := u16 (sec_version sec) /\ bytes_ok (contents sec).

Lemma push_sections_ok l w ss w' :
  cw_repr w ss -> Forall sec_typed l -> @push_sections K _ l w = (Ok tt, w') -> cw_repr w' (ss ++ l).
Proof.
  intros R HF. revert w ss R. induction HF as [|sec l [Hv Hc] _ IH]; intros w ss R; cbn [push_sections].
  { intros [= <-]. by rewrite app_nil_r. }
  unfold mbind, method_bind, push. destruct (push_section _ _ _ w) as [o w1] eqn:Hp.
  pose proof (push_section_cases sec w ss o w1 R Hv Hc Hp) as H. destruct o as [[]|e|]; cbn [err_map]; [|done..].
  intros Hl. apply (IH _ (ss ++ [sec])) in Hl; [|done]. by rewrite <- app_assoc in Hl.
Qed.
Lemma push_sections_all l w : push_sections l w = (err_map EngWriter (push_all l w).1, (push_all l w).2) :> outcome Error unit * _.
Proof.
  revert w. induction l as [|sec l IH]; intros w; cbn [push_sections push_all]; [done|].
  unfold mbind, method_bind, push. destruct (push_section _ _ _ w) as [[[]|e|] w1]; cbn [err_map]; [apply IH|done..].
Qed.
Lemma push_sections_iff l w' :
  Forall sec_typed l ->
  @push_sections K _ l ContainerWriter_new = (Ok tt, w') ->
  container_ok l /\ DhSnap.finish w' = container_image FORMAT_VERSION l.
Proof.
  intros HF H. pose proof (push_sections_ok l _ [] w' cw_repr_new HF H) as R. cbn in R.
  split; [apply R|by apply finish_image].
Qed.
Lemma push_sections_new l : container_ok l ->
  exists w', @push_sections K _ l ContainerWriter_new = (Ok tt, w') /\ DhSnap.finish w' = container_image FORMAT_VERSION l.
Proof.
  intros Hl. destruct (push_all_ok l _ [] cw_repr_new Hl) as (w' & Hp & R). exists w'.
  rewrite push_sections_all, Hp. split; [done|by apply finish_image].
Qed.

Definition prng_section (entropy : E) : EntrSection :=
  let p := entropy_state entropy in mkEntrSection (es_seed p) (es_stream p) (es_word_pos p).

Definition fixed_sections (mcfg : bytes) (st : VcpuState) (lapic : LocalApic) (b : BoundaryState) (v2 : EntrSectionV2)
    : list Section_ :=
  [mkSection MCFG 1 mcfg; mkSection VCPU VCPU_SECTION_VERSION (vcpu_encode st);
   mkSection LAPC LapcSection_VERSION (LapcSection_encode (to_lapc_section lapic));
   mkSection TIME TimeSection_VERSION (TimeSection_encode (boundary_time b));
   mkSection ENTR EntrSectionV2_VERSION (EntrSectionV2_encode v2)].

(** What is captured has the types its Rust declarations give it. *)
Record capture_typed (s : S) (bus : Bus) (lapic : LocalApic) (entropy : E) (mc : MachineConfig) (b : BoundaryState) : Prop := {
  ct_config : config_typed mc;
  ct_vcpu : forall st, capture s = Ok st -> state_fits st;
  ct_lapic : lapic_ok lapic;
  ct_time : time_wf (boundary_time b);
  ct_prng : entr_wf (prng_section entropy);
  ct_devices : Forall (fun e => u16 (box_version e.2) /\ bytes_ok (box_snapshot e.2)) bus }.

(** The parts of a successful capture, and its sections. *)
Record captured (s : S) (bus : Bus) (entropy : E) (mc : MachineConfig)
    (mcfg : bytes) (st : VcpuState) (regs : bytes) (v2 : EntrSectionV2) (secs : list Section_) : Prop := {
  cp_config : canonical_encode mc = Ok mcfg;
  cp_vcpu : capture s = Ok st;
  cp_regs : entropy_blobs bus = [regs];
  cp_devices : Forall2 device_section (others bus) secs;
  cp_entr : from_parts (prng_section entropy) regs = Ok v2 }.

Lemma others_elem e (bus : Bus) : e ∈ others bus -> e ∈ bus.
Proof. unfold others. rewrite !list_elem_of_In, filter_In. naive_solver. Qed.
Lemma blobs_elem x (bus : Bus) : x ∈ entropy_blobs bus -> exists e, e ∈ bus /\ x = box_snapshot e.2.
Proof.
  unfold entropy_blobs. intros (e & -> & He)%list_elem_of_fmap. exists e. split; [|done].
  apply list_elem_of_In in He. apply list_elem_of_In. by apply filter_In in He as [? _].
Qed.

Lemma known_position t : t ∈ KNOWN_TAGS -> is_Some (tag_position t).
Proof.
  intros Ht. unfold tag_position. destruct (list_find (eq t) KNOWN_TAGS) eqn:Hf; [by eexists|].
  by apply (list_find_None _ KNOWN_TAGS), Forall_forall with (x := t) in Hf.
Qed.
Lemma device_tag_known i t : tag_for_device_id i = Some t -> t ∈ KNOWN_TAGS.
Proof. unfold tag_for_device_id. repeat case_match; intros [= <-]; apply (bool_decide_unpack _); vm_compute; done. Qed.
Lemma sort_known (bus : Bus) secs : Forall2 device_section bus secs ->
  sort_sections (K := K) secs = Ok (merge_sort section_le secs).
Proof.
  intros HF. unfold sort_sections. replace (forallb _ secs) with true; [done|]. symmetry. apply forallb_forall.
  intros sec Hs%list_elem_of_In. apply bool_decide_eq_true, known_position.
  apply (list_elem_of_lookup_1) in Hs as [i Hi]. destruct (Forall2_lookup_r _ _ _ _ _ HF Hi) as (e & _ & Hd & _).
  by eapply device_tag_known.
Qed.

Lemma section_bind_ok {T A C} (m : method T Error A) (k : A -> method T Error C) w c w' :
  (m ≫= k) w = (Ok c, w') <-> exists a w1, m w = (Ok a, w1) /\ k a w1 = (Ok c, w').
Proof.
  unfold mbind, method_bind. destruct (m w) as [[a|e|] w1]; split; try naive_solver.
Qed.
Lemma method_of_ok {T A} (o : outcome Error A) (w : T) a w' : method_of o w = (Ok a, w') <-> o = Ok a /\ w' = w.
Proof. unfold method_of. split; [by intros [= -> ->]|by intros [-> ->]]. Qed.
Lemma push_first sec l w w' : @push_sections K _ (sec :: l) w = (Ok tt, w') <->
  exists u w1, push (tag sec) (sec_version sec) (contents sec) w = (Ok u, w1) /\ push_sections l w1 = (Ok tt, w').
Proof. cbn [push_sections]. apply section_bind_ok. Qed.

Lemma dhsnap_sections_iff s (bus : Bus) lapic entropy mc b w w' :
  dhsnap_sections (K := K) s bus lapic entropy mc b w = (Ok tt, w') <->
  exists mcfg st regs v2 secs, captured s bus entropy mc mcfg st regs v2 secs /\
    push_sections (K := K) (fixed_sections mcfg st lapic b v2 ++ merge_sort section_le secs) w = (Ok tt, w').
Proof.
  unfold dhsnap_sections, fixed_sections. cbn [app]. split.
  - intros (mcfg & w0 & [Hc ->]%method_of_ok & H)%section_bind_ok.
    apply section_bind_ok in H as (u1 & w1 & H1 & H). apply section_bind_ok in H as (st & ? & [Hst ->]%method_of_ok & H).
    apply section_bind_ok in H as (u2 & w2 & H2 & H). apply section_bind_ok in H as (u3 & w3 & H3 & H).
    apply section_bind_ok in H as (u4 & w4 & H4 & H). cbv zeta in H.
    apply section_bind_ok in H as ([r secs] & ? & [(Hr & l & -> & Hd)%walk_devices_iff ->]%method_of_ok & H).
    cbn [fst snd app option_list] in *.
    apply section_bind_ok in H as (regs & ? & [Hregs ->]%method_of_ok & H).
    apply section_bind_ok in H as (v2 & ? & [Hv2 ->]%method_of_ok & H).
    apply section_bind_ok in H as (u5 & w5 & H5 & H). apply section_bind_ok in H as (sorted & ? & [Hs ->]%method_of_ok & H).
    rewrite (sort_known _ _ Hd) in Hs. injection Hs as <-. destruct r as [r|]; [|done]. injection Hregs as ->.
    destruct (canonical_encode mc) as [x| |] eqn:Ec; [|done..]. injection Hc as ->.
    destruct (capture s) as [x| |] eqn:Es; [|done..]. injection Hst as ->.
    destruct (from_parts _ regs) as [x| |] eqn:Ev; [|done..]. injection Hv2 as ->.
    exists mcfg, st, regs, v2, l. split; [by constructor|].
    repeat (apply push_first; eexists _, _; split; [eassumption|]). done.
  - intros (mcfg & st & regs & v2 & secs & [Hc Hs Hr Hd Hv] & H).
    repeat match goal with H : push_sections (_ :: _) _ = _ |- _ =>
      apply push_first in H as (? & ? & ? & H) end. cbn [tag sec_version contents] in *.
    assert (walk_devices (K := K) bus None [] = Ok (Some regs, secs)) as Hw.
    { apply walk_devices_iff. rewrite Hr. split; [done|]. by exists secs. }
    repeat (apply section_bind_ok; eexists _, _; split;
      [first [eassumption | apply method_of_ok; split; [rewrite ?Hc, ?Hs, ?Hw; reflexivity|reflexivity]
             | apply method_of_ok; split; [unfold prng_section in Hv; rewrite ?Hv; reflexivity|reflexivity]
             | apply method_of_ok; split; [by eapply sort_known|reflexivity]]|cbv zeta]).
    done.
Qed.

(** The sections of a capture are typed. *)
Lemma entr_parts (entropy : E) regs v2 : entr_wf (prng_section entropy) -> bytes_ok regs ->
  from_parts (prng_section entropy) regs = Ok v2 ->
  prng v2 = prng_section entropy /\ device_regs v2 = regs /\ entr2_wf v2.
Proof.
  intros Hp Hr H. assert (array 16 regs) as Ha.
  { split; [|done]. revert H. unfold from_parts. destruct (length regs =? 16)%nat eqn:El; [by apply Nat.eqb_eq in El|done]. }
  destruct (entr_parts_roundtrip _ regs Hp Ha) as (x & Hx & ? & ? & ? & _). rewrite Hx in H. by injection H as <-.
Qed.

Section typed.
Context (s : S) (bus : Bus) (lapic : LocalApic) (entropy : E) (mc : MachineConfig) (b : BoundaryState).
Hypothesis (Ht : capture_typed s bus lapic entropy mc b).

Lemma blobs_ok regs : entropy_blobs bus = [regs] -> bytes_ok regs.
Proof.
  intros H. destruct (blobs_elem regs bus) as (e & He & ->); [rewrite H; apply list_elem_of_here|].
  pose proof (ct_devices _ _ _ _ _ _ Ht) as HF. rewrite Forall_forall in HF. by apply HF.
Qed.
Lemma secs_typed secs : Forall2 device_section (others bus) secs -> Forall sec_typed secs.
Proof.
  intros HF. apply Forall_forall. intros sec [i Hi]%list_elem_of_lookup.
  destruct (Forall2_lookup_r _ _ _ _ _ HF Hi) as (e & He & _ & Hv & Hc).
  apply list_elem_of_lookup_2, others_elem in He. pose proof (ct_devices _ _ _ _ _ _ Ht) as Hd.
  rewrite Forall_forall in Hd. unfold sec_typed. rewrite Hv, Hc. by apply Hd.
Qed.
Lemma captured_typed mcfg st regs v2 secs : captured s bus entropy mc mcfg st regs v2 secs ->
  Forall sec_typed (fixed_sections mcfg st lapic b v2 ++ merge_sort section_le secs).
Proof.
  intros [Hc Hs Hr Hd Hv]. destruct (config_recovered mc mcfg (ct_config _ _ _ _ _ _ Ht) Hc) as [Hb _].
  destruct (entr_parts entropy regs v2 (ct_prng _ _ _ _ _ _ Ht) (blobs_ok _ Hr) Hv) as (_ & _ & Hw).
  apply Forall_app. split.
  - assert (u16 1 /\ u16 2) as [H1 H2] by ulia.
    repeat apply List.Forall_cons; try apply List.Forall_nil; (split; cbn [sec_version contents]; [done|]).
    + done.
    + by apply vcpu_encode_ok, (ct_vcpu _ _ _ _ _ _ Ht).
    + apply lapc_bytes, (ct_lapic _ _ _ _ _ _ Ht).
    + apply time_bytes, (ct_time _ _ _ _ _ _ Ht).
    + by apply entr2_bytes.
  - rewrite (merge_sort_Permutation section_le secs). by apply secs_typed.
Qed.

Lemma build_iff img :
  build_dhsnap_with_lapic (K := K) s bus lapic entropy mc b = Ok img <->
  exists mcfg st regs v2 secs, captured s bus entropy mc mcfg st regs v2 secs /\
    let ss := fixed_sections mcfg st lapic b v2 ++ merge_sort section_le secs in
    container_ok ss /\ img = container_image FORMAT_VERSION ss.
Proof.
  unfold build_dhsnap_with_lapic. destruct (dhsnap_sections _ _ _ _ _ _ _) as [o w] eqn:H. split.
  - destruct o as [[]| |]; [|done..]. intros [= <-].
    apply dhsnap_sections_iff in H as (mcfg & st & regs & v2 & secs & Hc & H).
    exists mcfg, st, regs, v2, secs. split; [done|].
    apply push_sections_iff in H; [done|by eapply captured_typed].
  - intros (mcfg & st & regs & v2 & secs & Hc & Hok & ->). apply push_sections_new in Hok as (w' & Hp & Hf).
    assert (dhsnap_sections (K := K) s bus lapic entropy mc b ContainerWriter_new = (Ok tt, w')) as H'.
    { apply dhsnap_sections_iff. eauto 10. }
    rewrite H in H'. injection H' as -> ->. cbn. by rewrite Hf.
Qed.
End typed.

(** ** Bus layout *)

Lemma position_inj t u : t ∈ KNOWN_TAGS -> u ∈ KNOWN_TAGS ->
  default 0%nat (tag_position t) = default 0%nat (tag_position u) -> t = u.
Proof.
  intros Ht Hu. destruct (known_position t Ht) as [i Hi], (known_position u Hu) as [j Hj]. rewrite Hi, Hj. cbn. intros ->.
  unfold tag_position in *. apply fmap_Some in Hi as ([i1 x1] & H1 & ->), Hj as ([i2 x2] & H2 & Heq). cbn in Heq. subst.
  apply list_find_Some in H1 as (H1 & -> & _), H2 as (H2 & -> & _). congruence.
Qed.

(** Sorting sections with distinct known tags forgets their order. *)
Lemma sort_canonical l l' : l ≡ₚ l' -> Forall (fun sec => tag sec ∈ KNOWN_TAGS) l -> NoDup (tags l) ->
  merge_sort section_le l = merge_sort section_le l'.
Proof.
  intros Hp Hk Hn.
  assert (forall x y, Decision (section_le x y)) as D by (intros; apply _).
  assert (Total section_le) as HT by (intros x y; unfold section_le; lia).
  assert (Transitive section_le) as HTr by (intros x y z; unfold section_le; lia).
  apply (StronglySorted_unique_strong section_le).
  - intros x1 x2 H1 H2 H12 H21. 
    assert (x1 ∈ l /\ x2 ∈ l) as [Hx1 Hx2].
    { split; [by rewrite (merge_sort_Permutation section_le l) in H1|].
      rewrite (merge_sort_Permutation section_le l') in H2. by rewrite Hp. }
    rewrite Forall_forall in Hk. assert (tag x1 = tag x2) as Ht.
    { apply position_inj; [by apply Hk..|]. unfold section_le in *. lia. }
    apply list_elem_of_lookup in Hx1 as [i Hi], Hx2 as [j Hj].
    assert (i = j) as ->; [|congruence].
    apply (NoDup_lookup _ _ _ (tag x1) Hn); unfold tags; rewrite list_lookup_fmap; [by rewrite Hi|by rewrite Hj, Ht].
  - apply StronglySorted_merge_sort; apply _.
  - apply StronglySorted_merge_sort; apply _.
  - by rewrite !merge_sort_Permutation.
Qed.

Lemma Forall2_perm_l {A C} (P : A -> C -> Prop) l l' k :
  l ≡ₚ l' -> Forall2 P l k -> exists k', k ≡ₚ k' /\ Forall2 P l' k'.
Proof.
  intros Hp. revert k. induction Hp as [|x l l' _ IH|x y l|l1 l2 l3 _ IH1 _ IH2]; intros k HF.
  - inversion HF; subst. by exists [].
  - inversion HF as [|? c ? k0 ? H0]; subst. destruct (IH _ H0) as (k' & ? & ?). exists (c :: k'). split; by constructor.
  - inversion HF as [|? c1 ? k0 ? H0]; subst. inversion H0 as [|? c2 ? k1 ? ?]; subst.
    exists (c2 :: c1 :: k1). split; [by constructor|by repeat constructor].
  - destruct (IH1 _ HF) as (k1 & ? & H1). destruct (IH2 _ H1) as (k2 & ? & ?). exists k2. split; [by etrans|done].
Qed.
Lemma filter_perm {A} (f : A -> bool) l l' : l ≡ₚ l' -> List.filter f l ≡ₚ List.filter f l'.
Proof.
  induction 1 as [|x l l' _ IH|x y l|l1 l2 l3 _ IH1 _ IH2]; cbn; repeat case_match; try done; first [by constructor | by etrans].
Qed.

Lemma captured_perm s (bus bus' : Bus) entropy mc mcfg st regs v2 secs : bus ≡ₚ bus' ->
  captured s bus entropy mc mcfg st regs v2 secs ->
  exists secs', secs ≡ₚ secs' /\ captured s bus' entropy mc mcfg st regs v2 secs'.
Proof.
  intros Hp [Hc Hs Hr Hd Hv]. destruct (Forall2_perm_l _ _ (others bus') _ (filter_perm _ _ _ Hp) Hd) as (secs' & ? & ?).
  exists secs'. split; [done|]. constructor; try done.
  apply Permutation_singleton_r. rewrite <- Hr. symmetry. by apply fmap_Permutation, filter_perm.
Qed.

(** The container does not depend on the bus layout.  Two machines with the
    same devices registered in different order produce, from the same state,
    byte for byte the same container, so the snapshot's reference, whose
    preimage it is, identifies the state alone. *)
Theorem dhsnap_layout_independent s (bus bus' : Bus) lapic entropy mc b img :
  capture_typed s bus lapic entropy mc b -> bus ≡ₚ bus' ->
  build_dhsnap_with_lapic (K := K) s bus lapic entropy mc b = Ok img ->
  build_dhsnap_with_lapic (K := K) s bus' lapic entropy mc b = Ok img.
Proof.
  intros Ht Hp H. assert (capture_typed s bus' lapic entropy mc b) as Ht'.
  { destruct Ht; constructor; try done. by rewrite <- Hp. }
  apply (build_iff _ _ _ _ _ _ Ht) in H as (mcfg & st & regs & v2 & secs & Hc & [Hwf Hnd] & ->).
  destruct (captured_perm _ _ _ _ _ _ _ _ _ _ Hp Hc) as (secs' & Hs & Hc').
  apply (build_iff _ _ _ _ _ _ Ht'). exists mcfg, st, regs, v2, secs'. split; [done|]. cbv zeta.
  rewrite <- (sort_canonical secs secs' Hs); [done|..].
  - apply Forall_app in Hwf as [_ Hwf]. rewrite (merge_sort_Permutation section_le secs) in Hwf.
    eapply Forall_impl; [exact Hwf|]. by intros sec (? & _).
  - unfold tags in *. rewrite fmap_app in Hnd. apply NoDup_app in Hnd as (_ & _ & Hnd).
    by rewrite (merge_sort_Permutation section_le secs) in Hnd.
Qed.
End Capture.

(** ** What applying a container gives back *)

Section Apply.
Context {B : Blake3} {X : AnyChannel} {M E K S : Type}.
Context `{!Snapstore K, !DetEntropy E, !Vcpu S, !VcpuGets S, !VcpuSets S, !TscClock S, !SlotMem S, !SlotRam S M}.
Local Notation Bus := (list (Z * BoxDev M E)).
Local Notation Error := (RestoreError StoreError).

(** A device of the machine restored into, and the captured one it stands for:
    the same device type under the contract, or the clock, which is also
    reached by its type. *)
Inductive peer : BoxDev M E -> BoxDev M E -> Prop :=
| peer_device D (dv : DetDevice D M E) (wf : D -> Prop) any (d0 d : D) :
    DetDeviceOk D M E wf -> wf d0 -> wf d -> device_id d0 = device_id d ->
    device_id d <> Clock.DEVICE_ID_PV_CLOCK ->
    (device_id d = DEVICE_ID_PV_ENTROPY -> section_version d = 1) ->
    peer (mkBox D dv any d0) (mkBox D dv any d)
| peer_clock (d0 d : Clock.PvClock) :
    ClockOk.wf d0 -> ClockOk.wf d ->
    peer (mkBox _ Clock.PvClock_device (Some AnyClock) d0) (mkBox _ Clock.PvClock_device (Some AnyClock) d).

(** [b1] holds [b]'s section; a clock continues from [vns]. *)
Definition restored (vns : Z) (b b1 : BoxDev M E) : Prop :=
  box_snapshot b1 = box_snapshot b /\
  (box_id b = Clock.DEVICE_ID_PV_CLOCK ->
   exists clk put, downcast AnyClock b1 = Some (clk, put) /\ Clock.vns_base clk = vns).

Lemma peer_id b0 b : peer b0 b -> box_id b0 = box_id b.
Proof. by destruct 1. Qed.

Lemma restore_device_ok c entr vns ram b0 b : peer b0 b ->
  (box_id b = DEVICE_ID_PV_ENTROPY -> device_regs entr = box_snapshot b) ->
  (box_id b <> DEVICE_ID_PV_ENTROPY ->
   exists base sec, device_section (base, b) sec /\ DhSnap.get c (tag sec) = Some sec) ->
  exists b1, restore_device (K := K) c entr vns ram b0 = (Ok tt, b1) /\ restored vns b b1.
Proof.
  intros Hp He Hs. unfold restore_device. rewrite (peer_id _ _ Hp).
  destruct (Z.eqb_spec (box_id b) DEVICE_ID_PV_ENTROPY) as [Hid|Hid].
  - rewrite (He Hid). destruct Hp as [D dv wf any d0 d Hok H0 H Hids Hc Hv|d0 d H0 H]; [|done].
    destruct (DevCtx.restore_snapshot ram d0 d H0 H) as (d' & Hr & Hsn & _).
    unfold restore_box, box_restore. unfold box_id, box_snapshot in *. cbn [box_dev box_val box_ty box_any] in *.
    rewrite (Hv Hid) in Hr. rewrite Hr. eexists. split; [reflexivity|]. split; [done|].
    unfold box_id. cbn. rewrite Hid. done.
  - destruct (Hs Hid) as (base & sec & (Ht & Hv & Hc) & Hg). cbn [snd] in *. rewrite Ht, Hg, Hv, Hc. clear Hs He Ht Hg Hv Hc.
    destruct Hp as [D dv wf any d0 d Hok H0 H Hids Hc Hv|d0 d H0 H].
    + destruct (DevCtx.restore_snapshot ram d0 d H0 H) as (d' & Hr & Hsn & _).
      unfold restore_box, box_restore. unfold box_id, box_snapshot, box_version in *. cbn [box_dev box_val box_ty box_any] in *.
      rewrite Hr. cbn [mbind option_bind]. rewrite (proj2 (Z.eqb_neq _ _) Hc). eexists. split; [reflexivity|]. by split.
    + destruct (DevCtx.restore_snapshot (DetDeviceOk := ClockOk.PvClock_ok (M := M) (E := E)) ram d0 d H0 H) as (d' & Hr & Hsn & _).
      unfold restore_box, box_restore. unfold box_id, box_snapshot, box_version in *. cbn [box_dev box_val box_ty box_any] in *.
      rewrite Hr. cbn [mbind option_bind]. cbn -[Clock.save]. eexists. split; [reflexivity|]. split; [done|].
      intros _. eexists _, _. split; [reflexivity|done].
Qed.

Lemma restore_devices_ok c entr vns ram (bus0 bus : Bus) :
  Forall2 (fun e0 e => peer e0.2 e.2) bus0 bus ->
  (forall e, e ∈ bus -> is_entropy e = true -> device_regs entr = box_snapshot e.2) ->
  (forall e, e ∈ bus -> is_entropy e = false -> exists sec, device_section e sec /\ DhSnap.get c (tag sec) = Some sec) ->
  exists bus1, restore_devices (K := K) c entr vns ram bus0 = (Ok tt, bus1) /\
    bus1.*1 = bus0.*1 /\ Forall2 (fun e e1 => restored vns e.2 e1.2) bus bus1.
Proof.
  unfold is_entropy. intros HF He Hs. induction HF as [|[base0 b0] [base b] bus0 bus Hp _ IH]; cbn [restore_devices].
  { by exists []. }
  destruct IH as (bus1 & Hr & Hb & HR).
  { intros e ?. by apply He, list_elem_of_further. }
  { intros e ?. by apply Hs, list_elem_of_further. }
  destruct (restore_device_ok c entr vns ram b0 b Hp) as (b1 & -> & Hr1).
  - intros Hid. apply (He (base, b)); [apply list_elem_of_here|]. by apply Z.eqb_eq.
  - intros Hid. destruct (Hs (base, b)) as (sec & ? & ?); [apply list_elem_of_here|by apply Z.eqb_neq|]. by exists base, sec.
  - rewrite Hr. eexists. split; [reflexivity|]. cbn. split; [by rewrite Hb|by constructor].
Qed.

Lemma container_get ss sec : container_ok ss -> sec ∈ ss ->
  parse (container_image FORMAT_VERSION ss) = Ok (mkContainer ss) /\ DhSnap.get (mkContainer ss) (tag sec) = Some sec.
Proof.
  intros Hok Hs. pose proof (container_image_ok FORMAT_VERSION ss Hok) as Hb.
  assert (parse (container_image FORMAT_VERSION ss) = Ok (mkContainer ss)) as Hp.
  { apply container_parse_iff; [done|]. by exists FORMAT_VERSION. }
  split; [done|]. by apply (proj1 (get_unique _ _ Hb Hp)).
Qed.

Lemma others_length (bus : Bus) : length bus = (length (others bus) + length (entropy_blobs bus))%nat.
Proof.
  unfold others, entropy_blobs. rewrite length_fmap. induction bus as [|e bus IH]; [done|].
  cbn. destruct (is_entropy e); cbn; lia.
Qed.
Lemma peers_entropy (bus0 bus : Bus) : Forall2 (fun e0 e => peer e0.2 e.2) bus0 bus ->
  entropy_devices bus0 = length (entropy_blobs bus).
Proof.
  unfold entropy_devices, entropy_blobs, is_entropy. rewrite length_fmap.
  induction 1 as [|e0 e bus0 bus Hp _ IH]; [done|]. cbn. rewrite (peer_id _ _ Hp). case_match; cbn; lia.
Qed.

Lemma shape_ok (bus0 bus : Bus) regs secs mcfg st lapic b v2 : Forall2 (fun e0 e => peer e0.2 e.2) bus0 bus ->
  entropy_blobs bus = [regs] -> Forall2 device_section (others bus) secs ->
  check_shape (K := K) (mkContainer (fixed_sections mcfg st lapic b v2 ++ merge_sort section_le secs)) bus0 = Ok tt.
Proof.
  intros HF Hr Hd. unfold check_shape. rewrite (peers_entropy _ _ HF), Hr. cbn [length Nat.eqb negb sections].
  rewrite length_app. assert (length (merge_sort section_le secs) = length secs) as -> by (by rewrite merge_sort_Permutation).
  apply Forall2_length in HF, Hd. pose proof (others_length bus) as Hl. rewrite Hr in Hl. cbn in Hl.
  unfold FIXED_ENGINE_SECTIONS. cbn [fixed_sections length]. rewrite (proj2 (Nat.eqb_eq _ _)); [done|lia].
Qed.

(** The device part of an application, from the parts of a capture. *)
Lemma captured_devices s (bus0 bus : Bus) lapic entropy mc b mcfg st regs v2 secs ram :
  capture_typed s bus lapic entropy mc b -> captured s bus entropy mc mcfg st regs v2 secs ->
  Forall2 (fun e0 e => peer e0.2 e.2) bus0 bus ->
  let ss := fixed_sections mcfg st lapic b v2 ++ merge_sort section_le secs in
  container_ok ss ->
  exists bus1, restore_devices (K := K) (mkContainer ss) v2 (bs_vns b) ram bus0 = (Ok tt, bus1) /\
    bus1.*1 = bus0.*1 /\ Forall2 (fun e e1 => restored (bs_vns b) e.2 e1.2) bus bus1.
Proof.
  intros Ht [_ _ Hr Hd Hv] HF ss Hok.
  destruct (entr_parts entropy regs v2 (ct_prng _ _ _ _ _ _ Ht) (blobs_ok _ _ _ _ _ _ Ht _ Hr) Hv) as (_ & Hregs & _).
  apply restore_devices_ok; [done|..]; intros e He Hid.
  - rewrite Hregs. assert (box_snapshot e.2 ∈ entropy_blobs bus) as Hin.
    { unfold entropy_blobs. apply list_elem_of_fmap. exists e. split; [done|].
      apply list_elem_of_In, filter_In. by rewrite <- list_elem_of_In. }
    rewrite Hr in Hin. by apply list_elem_of_singleton in Hin as ->.
  - assert (e ∈ others bus) as [i Hi]%list_elem_of_lookup.
    { unfold others. apply list_elem_of_In, filter_In. rewrite <- list_elem_of_In. by rewrite Hid. }
    destruct (Forall2_lookup_l _ _ _ _ _ Hd Hi) as (sec & Hsec & Hds). exists sec. split; [done|].
    apply (container_get ss sec Hok). apply elem_of_app. right. rewrite merge_sort_Permutation.
    by eapply list_elem_of_lookup_2.
Qed.

Lemma decode_config mc mcfg : canonical_decode mcfg = Ok (landing_reset mc) ->
  decode_machine_config_section (K := K) (mkSection MCFG 1 mcfg) = Ok (landing_reset mc).
Proof. intros H. unfold decode_machine_config_section. cbn. by rewrite H. Qed.
Lemma prng_back (entropy : E) v2 : prng v2 = prng_section entropy ->
  entropy_state entropy = mkEntropyState (v2_seed v2) (v2_stream v2) (v2_word_pos v2).
Proof. unfold prng, prng_section. intros [= -> -> ->]. by destruct (entropy_state entropy). Qed.
Lemma of_outcome_ok {T F A} (o : outcome F A) (a : A) (x : T) : o = Ok a -> of_outcome o x = Some (Ok a, x).
Proof. by intros ->. Qed.
Lemma err_map_ok {F F' A} (f : F -> F') (o : outcome F A) a : o = Ok a -> err_map f o = Ok a.
Proof. by intros ->. Qed.

(** A container carries its machine's configuration, the landing knobs at
    their defaults. *)
Lemma config_carried s (bus : Bus) lapic entropy mc b img : capture_typed s bus lapic entropy mc b ->
  build_dhsnap_with_lapic (K := K) s bus lapic entropy mc b = Ok img ->
  recover_machine_config_from_dhsnap (K := K) img = Ok (landing_reset mc).
Proof.
  intros Ht (mcfg & st & regs & v2 & secs & [Hmc _ _ _ _] & Hok & ->)%(build_iff _ _ _ _ _ _ Ht).
  set (ss := fixed_sections _ _ _ _ _ ++ _) in *.
  destruct (container_get ss (mkSection MCFG 1 mcfg) Hok) as [Hp Hg]; [apply elem_of_app; left; apply list_elem_of_here|].
  destruct (config_recovered mc mcfg (ct_config _ _ _ _ _ _ Ht) Hmc) as [_ Hdec].
  unfold recover_machine_config_from_dhsnap, section. rewrite Hp. cbn [err_map mbind outcome_bind].
  cbn [tag] in Hg. rewrite Hg. cbn [ok_or mbind outcome_bind]. by apply decode_config.
Qed.

(** One pure step of a program, from the equation of its outcome. *)
Ltac pure_step H := etrans; [apply prog_bind_ok, of_outcome_ok; first [exact H | apply err_map_ok; exact H]|].

(** A container gives back the machine it was captured from.  Applying it
    to a paused machine of the same shape restores the boundary's icount, time,
    epoch and hash chain, the APIC, the generator and every device's state,
    restarts the clock at the boundary's time, writes exactly the captured vCPU
    to the kernel, and empties the dirty set. *)
Lemma dhsnap_applies s (bus : Bus) lapic entropy mc b img (st0 : Machine M E S) (counter : bool) st (s1 s2 : S) :
  capture_typed s bus lapic entropy mc b ->
  build_dhsnap_with_lapic (K := K) s bus lapic entropy mc b = Ok img ->
  Forall2 (fun e0 e => peer e0.2 e.2) (m_bus st0) bus ->
  capture s = Ok st ->
  vcpu_restore st (bs_vns b) (m_slot st0) = Some (Ok tt, s1) ->
  (if counter then InstRetired_reset s1 = Some (Ok tt, s2) else s2 = s1) ->
  exists bus1 : Bus,
    apply_dhsnap (K := K) mc img counter st0 =
      Some (Ok (mkApplied (bs_icount b) (bs_vns b) (bs_epoch_index b) (bs_hash_chain b)
                 (entropy_restore (entropy_state entropy)) lapic),
            mkMachine s2 bus1 (dirty_clear <$> m_dirty st0)) /\
    bus1.*1 = (m_bus st0).*1 /\ Forall2 (fun e e1 => restored (bs_vns b) e.2 e1.2) bus bus1.
Proof.
  intros Ht Hb HF Hst Hv Hreset.
  apply (build_iff _ _ _ _ _ _ Ht) in Hb as (mcfg & st' & regs & v2 & secs & Hc & Hok & ->).
  pose proof (captured_devices s _ bus lapic entropy mc b mcfg st' regs v2 secs (slot_ram (m_slot st0)) Ht Hc HF Hok)
    as (bus1 & Hdev & Hbases & HR).
  pose proof Hc as [Hmc Hs Hr Hd Hv2]. rewrite Hs in Hst. injection Hst as ->.
  set (ss := fixed_sections mcfg st lapic b v2 ++ merge_sort section_le secs) in *.
  assert (forall sec, sec ∈ fixed_sections mcfg st lapic b v2 -> DhSnap.get (mkContainer ss) (tag sec) = Some sec) as Hget.
  { intros sec Hin. apply container_get; [done|]. apply elem_of_app. by left. }
  destruct (container_get ss (mkSection MCFG 1 mcfg) Hok) as [Hp _]; [apply elem_of_app; left; apply list_elem_of_here|].
  destruct (config_recovered mc mcfg (ct_config _ _ _ _ _ _ Ht) Hmc) as [_ Hdec].
  destruct (entr_parts entropy regs v2 (ct_prng _ _ _ _ _ _ Ht) (blobs_ok _ _ _ _ _ _ Ht _ Hr) Hv2) as (Hprng & _ & Hw2).
  assert (forall i sec, fixed_sections mcfg st lapic b v2 !! i = Some sec ->
    section (K := K) (mkContainer ss) (tag sec) = Ok sec) as Hsec.
  { intros i sec Hi. unfold section. by rewrite Hget by (by eapply list_elem_of_lookup_2). }
  destruct (lapic_section_back lapic (ct_lapic _ _ _ _ _ _ Ht)) as [Hlapc Hlapic].
  exists bus1. split; [|done].
  unfold apply_dhsnap. pure_step Hp. pure_step (Hsec 0%nat _ eq_refl).
  pure_step (decode_config mc mcfg Hdec). pure_step Hmc.
  cbn [contents]. rewrite bool_decide_eq_true_2 by done. cbn [negb].
  pure_step (Hsec 3%nat _ eq_refl). pure_step (time_encode_decode _ (ct_time _ _ _ _ _ _ Ht)).
  pure_step (Hsec 2%nat _ eq_refl). pure_step Hlapc.
  pure_step Hlapic. pure_step (Hsec 4%nat _ eq_refl). pure_step (entr2_encode_decode _ Hw2).
  etrans; [apply prog_bind_ok; unfold observe; subst ss; rewrite (shape_ok _ bus regs secs) by done; reflexivity|].
  etrans; [apply prog_bind_ok; unfold io; cbn [boundary_time DhSnapSections.vns]; rewrite Hdev; reflexivity|].
  pure_step (Hsec 1%nat _ eq_refl). pure_step (vcpu_decode_encode st (ct_vcpu _ _ _ _ _ _ Ht st Hs)).
  etrans; [apply prog_bind_ok; unfold on_slot; cbn [m_slot]; rewrite (map_err_ok _ _ _ _ _ Hv); reflexivity|].
  assert ((if counter then on_slot (K := K) (map_err CounterResetFailed InstRetired_reset) else pass)
     (mkMachine s1 bus1 (m_dirty st0)) = Some (Ok tt, mkMachine s2 bus1 (m_dirty st0))) as Hr'.
  { destruct counter; [|by subst]. unfold on_slot. cbn [m_slot]. by rewrite (map_err_ok _ _ _ _ _ Hreset). }
  etrans; [apply prog_bind_ok, Hr'|]. unfold mbind, prog_bind, modify, mret, prog_ret.
  cbn [m_slot m_bus m_dirty boundary_time DhSnapSections.cumulative_icount DhSnapSections.vns
    DhSnapSections.epoch_index DhSnapSections.hash_chain].
  by rewrite <- (prng_back entropy v2 Hprng).
Qed.
End Apply.
