(* ===== verification/SnapshotStore.v ===== *)
(** * Snapshots through the store

    The store's contract, the pages of full and incremental snapshots, and a
    snapshot restored into another slot. *)

From Stdlib Require Import String Sorted.
From stdpp Require Import sorting.
From S2P Require Import Prelude Vt DhSnap DhSnapSections SlotState Lapic DevCtx Devices Bus Dirty Config Kvm VcpuState StateHash Boundary RunCtl Recording Snapshot Restore SnapshotOk.

(** ** The contracts *)

(** Pages of a delta over those below it. *)
Definition overlay (f : Z -> bytes) (pages : list (Z * bytes)) (i : Z) : bytes := default (f i) (last_of i pages).
Definition page_count (ram_bytes : Z) : Z := ram_bytes / DIRTY_PAGE_SIZE.

(** [stored k r n f blob]: in [k], [r] names a snapshot of [n] bytes of RAM
    whose pages are [f] and whose device blob is [blob].  A full put stores its
    pages, a delta its pages over its parent's; a snapshot answers its manifest
    and, resolved without a baseline, each of its pages once. *)
Class SnapstoreOk {B : Blake3} (K : Type) `{!Snapstore K} (stored : K -> bytes -> Z -> (Z -> bytes) -> DeviceBlob -> Prop) : Prop := {
  put_full : forall k r k' n f blob,
    put_snapshot_from_parts None n ((fun i => (i, f i)) <$> seqZ 0 (page_count n)) blob k = (Ok r, k') ->
    stored k' r n f blob;
  put_delta : forall k p n f blob0 pages blob r k', stored k p n f blob0 ->
    NoDup pages.*1 -> Forall (fun i => 0 <= i < page_count n) pages.*1 ->
    put_snapshot_from_parts (Some p) n pages blob k = (Ok r, k') -> stored k' r n (overlay f pages) blob;
  stored_manifest : forall k r n f blob, stored k r n f blob ->
    exists c, get_snapshot r k = Ok c /\ Manifest_decode c = Ok (mkManifest n blob);
  stored_pages : forall k r n f blob hashes_only, stored k r n f blob ->
    exists l, resolve_pages r None hashes_only k = Ok l /\
      l ≡ₚ (fun i => (i, blake3 (f i), if hashes_only then None else Some (f i))) <$> seqZ 0 (page_count n) }.

(** A page read back is the page written; other pages stay. *)
Class SlotRamOk (S M : Type) `{!SlotMem S, !SlotRam S M} : Prop := {
  page_length : forall i s page, read_page (i * DIRTY_PAGE_SIZE) s = Ok page -> Z.of_nat (length page) = DIRTY_PAGE_SIZE;
  page_written : forall i b s, 0 <= i < page_count (slot_mem_bytes s) -> Z.of_nat (length b) = DIRTY_PAGE_SIZE ->
    exists s', write_slice b (i * DIRTY_PAGE_SIZE) s = (Ok tt, s') /\ slot_mem_bytes s' = slot_mem_bytes s /\
      read_page (i * DIRTY_PAGE_SIZE) s' = Ok b /\
      forall j, j <> i -> read_page (j * DIRTY_PAGE_SIZE) s' = read_page (j * DIRTY_PAGE_SIZE) s }.

(** The RAM of a slot is [f]. *)
Definition ram_is {S} `{!SlotMem S} (s : S) (f : Z -> bytes) : Prop :=
  forall i, 0 <= i < page_count (slot_mem_bytes s) -> read_page (i * DIRTY_PAGE_SIZE) s = Ok (f i).

(** ** Page lists *)

Lemma last_of_elem i b l : NoDup l.*1 -> (i, b) ∈ l -> last_of i l = Some b.
Proof.
  induction l as [|[j c] l IH]; intros Hn Hi; [by apply not_elem_of_nil in Hi|]. cbn in *.
  apply NoDup_cons in Hn as [Hj Hn]. apply elem_of_cons in Hi as [[= -> ->]|Hi].
  - destruct (last_of j l) as [x|] eqn:H; [|by rewrite Z.eqb_refl]. exfalso. apply Hj. clear -H.
    induction l as [|[i d] l IH]; [done|]. cbn in *. destruct (last_of j l); [right; by apply IH|].
    destruct (Z.eqb_spec i j); [subst; left|done].
  - by rewrite (IH Hn Hi).
Qed.
Lemma last_of_none i l : i ∉ l.*1 -> last_of i l = None.
Proof.
  induction l as [|[j c] l IH]; intros Hi; [done|]. cbn in *. apply not_elem_of_cons in Hi as [Hj Hi].
  rewrite (IH Hi). by destruct (Z.eqb_spec j i); [subst|].
Qed.

Lemma dedup_cons x y l : dedup (x :: y :: l) = if x =? y then dedup (y :: l) else x :: dedup (y :: l).
Proof. done. Qed.
Lemma elem_of_dedup x l : x ∈ dedup l <-> x ∈ l.
Proof.
  induction l as [|a l IH]; [done|]. destruct l as [|b l]; [done|]. rewrite dedup_cons.
  destruct (Z.eqb_spec a b) as [->|]; [rewrite IH; set_solver|]. rewrite !elem_of_cons in *. tauto.
Qed.
Lemma dedup_sorted l : StronglySorted Z.le l -> StronglySorted Z.lt (dedup l).
Proof.
  induction 1 as [|a l Hs IH Ha]; [constructor|]. destruct l as [|b l]; [repeat constructor|].
  rewrite dedup_cons. destruct (Z.eqb_spec a b) as [|Hab]; [done|]. constructor; [done|].
  apply Forall_forall. intros x Hx. rewrite elem_of_dedup in Hx.
  assert (a <= b) by (by inversion Ha). apply elem_of_cons in Hx as [->|Hx]; [lia|].
  inversion Hs as [|? ? _ Hb]; subst. rewrite Forall_forall in Hb. specialize (Hb x Hx). lia.
Qed.
Lemma sorted_lt_NoDup l : StronglySorted Z.lt l -> NoDup l.
Proof.
  induction 1 as [|a l _ IH Ha]; constructor; [|done]. intros Hin. rewrite Forall_forall in Ha. specialize (Ha a Hin). lia.
Qed.

(** ** Pages of a snapshot *)

Section Pages.
Context {B : Blake3} {X : AnyChannel} {M E K S : Type}.
Context `{!Snapstore K, !SlotMem S}.
Local Notation Bus := (list (Z * BoxDev M E)).

Lemma read_pages_ok (s : S) l ps : read_pages (K := K) s l = Ok ps ->
  ps.*1 = l /\ Forall (fun p => read_page (p.1 * DIRTY_PAGE_SIZE) s = Ok p.2) ps.
Proof.
  revert ps. induction l as [|i l IH]; intros ps; cbn [read_pages]; [by intros [= <-]|].
  destruct (read_page _ s) as [page| |] eqn:Hr; [|done..]. cbn [err_map mbind outcome_bind].
  destruct (read_pages s l) as [rest| |]; [|done..]. intros [= <-].
  destruct (IH _ eq_refl) as [<- HF]. split; [done|by constructor].
Qed.

(** The full walk is the RAM. *)
Lemma read_all (s : S) ps f : ram_is s f -> read_pages (K := K) s (seqZ 0 (page_count (slot_mem_bytes s))) = Ok ps ->
  ps = (fun i => (i, f i)) <$> seqZ 0 (page_count (slot_mem_bytes s)).
Proof.
  intros Hf (Hi & HF)%read_pages_ok. rewrite <- Hi, <- list_fmap_compose. symmetry.
  rewrite <- (list_fmap_id ps) at 2. apply list_fmap_ext. intros j [i page] Hj. cbn. f_equal.
  assert (Hin : i ∈ ps.*1) by (apply list_elem_of_fmap; exists (i, page); split; [done|by eapply list_elem_of_lookup_2]).
  rewrite Hi in Hin. apply elem_of_seqZ in Hin. rewrite Forall_lookup in HF. specialize (HF _ _ Hj). cbn in HF.
  rewrite Hf in HF by lia. congruence.
Qed.

Definition page_changed (parent_pages : list (Z * bytes)) (p : Z * bytes) : bool :=
  negb (bool_decide (last_of p.1 parent_pages = Some (blake3 p.2))).
Lemma retain_ok ps hs ch : retain_pages_changed_from_parent (K := K) ps hs = Ok ch ->
  ch = List.filter (page_changed hs) ps.
Proof.
  revert ch. induction ps as [|[i page] ps IH]; intros ch; cbn [retain_pages_changed_from_parent]; [by intros [= <-]|].
  destruct (last_of i hs) as [h|] eqn:Hl; [|done]. cbn [ok_or mbind outcome_bind].
  destruct (retain_pages_changed_from_parent ps hs) as [rest| |]; [|done..]. cbn [mbind outcome_bind].
  intros [= <-]. rewrite (IH _ eq_refl). cbn [List.filter].
  destruct (page_changed hs (i, page)) eqn:Hc; unfold page_changed in Hc; cbn in Hc; rewrite Hl in Hc;
    repeat case_bool_decide; cbn [negb] in *; congruence.
Qed.

Lemma include_ok (bus : Bus) total dirty l : include_device_guest_ram_pages (K := K) bus total dirty = Ok l ->
  exists extra, bus_range_pages (K := K) bus total = Ok extra /\ NoDup l /\ forall i, i ∈ l <-> i ∈ dirty \/ i ∈ extra.
Proof.
  unfold include_device_guest_ram_pages. destruct (bus_range_pages bus total) as [extra| |]; [|done..]. intros [= <-].
  exists extra. split; [done|]. split.
  - apply sorted_lt_NoDup, dedup_sorted, StronglySorted_merge_sort; apply _.
  - intros i. rewrite elem_of_dedup, merge_sort_Permutation. set_solver.
Qed.

(** Device ranges stay inside guest RAM. *)
Lemma device_range_bound i total ranges l : Forall (fun r => 0 <= r.1) ranges ->
  device_range_pages (K := K) i total ranges = Ok l -> Forall (fun x => 0 <= x < total) l.
Proof.
  intros HF. revert l. induction HF as [|[gpa len] ranges Hg _ IH]; intros l; cbn [device_range_pages]; [by intros [= <-]|].
  destruct (len =? 0); [apply IH|]. destruct (checked_add gpa len) as [end_|]; [|done]. cbn [ok_or mbind outcome_bind].
  destruct (Z.ltb_spec total (div_ceil end_ DIRTY_PAGE_SIZE)); [done|].
  destruct (device_range_pages i total ranges) as [rest| |]; [|done..]. intros [= <-]. apply Forall_app. split; [|by apply IH].
  apply Forall_forall. intros x Hx%elem_of_seqZ. cbn in Hg. assert (0 <= gpa / DIRTY_PAGE_SIZE) by (by apply Z.div_pos). lia.
Qed.
Lemma bus_range_bound (bus : Bus) total l : Forall (fun e => Forall (fun r => 0 <= r.1) (box_ranges e.2)) bus ->
  bus_range_pages (K := K) bus total = Ok l -> Forall (fun x => 0 <= x < total) l.
Proof.
  intros HF. revert l. induction HF as [|[base dev] bus Hd _ IH]; intros l; cbn [bus_range_pages]; [by intros [= <-]|].
  destruct (device_range_pages _ total _) as [l1| |] eqn:H1; [|done..]. cbn [mbind outcome_bind].
  destruct (bus_range_pages bus total) as [l2| |]; [|done..]. intros [= <-]. apply Forall_app.
  split; [by eapply device_range_bound|by apply IH].
Qed.
End Pages.

Section Take.
Context {B : Blake3} {X : AnyChannel} {M E K R S : Type}.
Context `{!Snapstore K, !DetEntropy E, !RingKernel R, !Vcpu S, !VcpuGets S, !SlotMem S}.
Local Notation Bus := (list (Z * BoxDev M E)).

Lemma bind_ok_inv {T F A C} (m : prog T F A) (k : A -> prog T F C) x c y :
  (m ≫= k) x = Some (Ok c, y) -> exists a x1, m x = Some (Ok a, x1) /\ k a x1 = Some (Ok c, y).
Proof. intros [(a & x1 & ? & ?)|[(e & _ & ?)|[_ ?]]]%prog_bind_inv; [by eauto|done..]. Qed.
Lemma of_outcome_inv {T F A} (o : outcome F A) (x : T) a y : of_outcome o x = Some (Ok a, y) -> o = Ok a /\ y = x.
Proof. unfold of_outcome. by intros [= -> ->]. Qed.

(** The parts of an acknowledged put. *)
Lemma put_inv parent n pages img (st : K * Drain R) r st' :
  put_snapshot_from_pages parent n pages img st = Some (Ok r, st') ->
  put_snapshot_from_parts parent n pages
    (mkDeviceBlob DEVICE_BLOB_FORMAT_DHSNAP false (Z.of_nat (length img)) img) st.1 = (Ok r, st'.1) /\ st'.2 = st.2.
Proof.
  unfold put_snapshot_from_pages. destruct (put_snapshot_from_parts _ _ _ _ _) as [[x| |] k]; try done.
  by intros [= -> <-].
Qed.

Lemma take_full_inv fuel s slot_state (bus : Bus) lapic entropy mc b (k : K) (d : Drain R) tk st' :
  take_snapshot_with_lapic fuel s slot_state bus lapic entropy mc b FullPages (k, d) = Some (Ok tk, st') ->
  slot_state = SlotState.Paused /\ bs_agenda_empty b = true /\
  exists pages img,
    read_pages (K := K) s (seqZ 0 (page_count (slot_mem_bytes s))) = Ok pages /\
    build_dhsnap_with_lapic (K := K) s bus lapic entropy mc b = Ok img /\
    put_snapshot_from_parts None (slot_mem_bytes s) pages
      (mkDeviceBlob DEVICE_BLOB_FORMAT_DHSNAP false (Z.of_nat (length img)) img) k = (Ok (tk_snapshot_ref tk), st'.1) /\
    st'.2 = d /\ tk_hash_chain tk = bs_hash_chain b /\ tk_pages_shipped tk = Z.of_nat (length pages).
Proof.
  unfold take_snapshot_with_lapic. intros H.
  apply bind_ok_inv in H as (u & x1 & [Hv ->]%of_outcome_inv & H).
  apply bind_ok_inv in H as ([l p] & x2 & [= <- <- <-] & H).
  apply bind_ok_inv in H as (pages & x3 & [Hp ->]%of_outcome_inv & H).
  apply bind_ok_inv in H as (pages' & x4 & [= <- <-] & H).
  apply bind_ok_inv in H as (img & x5 & [Hb ->]%of_outcome_inv & H).
  apply bind_ok_inv in H as (r & x6 & [Hput Hd]%put_inv & H).
  apply bind_ok_inv in H as (u' & x7 & [= _ <-] & [= <- <-]).
  unfold validate_take_snapshot_preconditions, validate_paused in Hv.
  destruct (bs_agenda_empty b); [|done]. case_bool_decide; [|done]. split_and!; try done. exists pages, img. done.
Qed.

Lemma take_incremental_inv fuel s slot_state (bus : Bus) lapic entropy mc b p (k : K) (d : Drain R) tk st' :
  take_snapshot_with_lapic fuel s slot_state bus lapic entropy mc b (Incremental p) (k, d) = Some (Ok tk, st') ->
  exists stats d1 indices pages resolved changed img,
    harvest_at_boundary fuel d = Some (Ok stats, d1) /\
    include_device_guest_ram_pages (K := K) bus (page_count (slot_mem_bytes s)) (dirty_iter (d_set d1)) = Ok indices /\
    read_pages (K := K) s indices = Ok pages /\ resolve_pages p None true k = Ok resolved /\
    retain_pages_changed_from_parent (K := K) pages (fst <$> resolved) = Ok changed /\
    build_dhsnap_with_lapic (K := K) s bus lapic entropy mc b = Ok img /\
    put_snapshot_from_parts (Some p) (slot_mem_bytes s) changed
      (mkDeviceBlob DEVICE_BLOB_FORMAT_DHSNAP false (Z.of_nat (length img)) img) k = (Ok (tk_snapshot_ref tk), st'.1) /\
    tk_pages_shipped tk = Z.of_nat (length changed) /\
    st'.2 = mkDrain (d_ring d1) (dirty_clear (d_set d1)) (d_kernel d1).
Proof.
  unfold take_snapshot_with_lapic. intros H.
  apply bind_ok_inv in H as (u & x1 & [Hv ->]%of_outcome_inv & H).
  apply bind_ok_inv in H as ([l p'] & x2 & Hplan & H).
  apply bind_ok_inv in Hplan as (stats & x3 & Hh & Hplan). unfold on_drain in Hh. cbn [fst snd] in Hh.
  destruct (harvest_at_boundary fuel d) as [[[st| |] d1]|] eqn:Eh; [|done..]. injection Hh as -> <-.
  apply bind_ok_inv in Hplan as (dirty & x4 & [= <- <-] & Hplan).
  apply bind_ok_inv in Hplan as (indices & x5 & [Hi ->]%of_outcome_inv & [= <- <- <-]).
  apply bind_ok_inv in H as (pages & x6 & [Hp ->]%of_outcome_inv & H).
  apply bind_ok_inv in H as (changed & x7 & Hch & H).
  apply bind_ok_inv in Hch as (resolved & x8 & Hres & [Hch ->]%of_outcome_inv).
  unfold observe in Hres. cbn [fst] in Hres. destruct (resolve_pages p None true k) as [l'| |] eqn:Er; [|done..].
  injection Hres as -> <-.
  apply bind_ok_inv in H as (img & x9 & [Hb ->]%of_outcome_inv & H).
  apply bind_ok_inv in H as (r & x10 & [Hput Hd]%put_inv & H).
  apply bind_ok_inv in H as (u' & x11 & [= _ <-] & [= <- <-]).
  exists stats, d1, indices, pages, resolved, changed, img. cbn [fst snd] in *. rewrite Hd. done.
Qed.

Context {stored : K -> bytes -> Z -> (Z -> bytes) -> DeviceBlob -> Prop} `{!SnapstoreOk K stored}.

(** The hashes a parent resolves to. *)
Lemma parent_hashes k p n f blob resolved i : stored k p n f blob -> resolve_pages p None true k = Ok resolved ->
  0 <= i < page_count n -> last_of i (fst <$> resolved) = Some (blake3 (f i)).
Proof.
  intros Hs Hr Hi. destruct (stored_pages k p n f blob true Hs) as (l & Hl & Hp). rewrite Hr in Hl. injection Hl as <-.
  apply (fmap_Permutation fst) in Hp. rewrite <- list_fmap_compose in Hp.
  apply last_of_elem.
  - rewrite Hp, <- list_fmap_compose. cbn. rewrite list_fmap_id. apply NoDup_seqZ.
  - rewrite Hp. apply list_elem_of_fmap. exists i. split; [done|]. by apply elem_of_seqZ; lia.
Qed.

(** The indices of [l] at which [ch] holds, as a filter of the pages. *)
Lemma changed_keys hs ps : (List.filter (page_changed hs) ps).*1 ⊆ ps.*1.
Proof.
  intros i (q & -> & Hq)%list_elem_of_fmap. apply list_elem_of_fmap. exists q. split; [done|].
  by apply elem_of_bfilter in Hq as [? _].
Qed.
Lemma changed_NoDup hs ps : NoDup ps.*1 -> NoDup (List.filter (page_changed hs) ps).*1.
Proof.
  induction ps as [|q ps IH]; intros Hn; [constructor|]. cbn in *. apply NoDup_cons in Hn as [Hq Hn].
  destruct (page_changed hs q); [|by apply IH]. cbn. constructor; [|by apply IH].
  intros Hin. by apply Hq, (changed_keys hs ps).
Qed.

Lemma bfilter_NoDup {A} (g : A -> bool) l : NoDup l -> NoDup (List.filter g l).
Proof.
  induction 1 as [|x l Hx _ IH]; cbn; [constructor|]. destruct (g x); [|done]. constructor; [|done].
  intros [? _]%elem_of_bfilter. done.
Qed.
Lemma cleared_empty set : dirty_iter (dirty_clear set) = [].
Proof.
  rewrite iter_filter. destruct (List.filter _ _) as [|x l] eqn:H; [done|].
  assert (x ∈ x :: l) as Hx by apply list_elem_of_here. rewrite <- H in Hx. apply elem_of_bfilter in Hx as [_ Hx].
  unfold marked, dirty_clear in Hx. cbn [bits] in Hx. destruct (replicate _ 0 !! _) as [w|] eqn:Hw; [|done].
  apply lookup_replicate in Hw as [-> _]. by rewrite Z.testbit_0_l in Hx.
Qed.

(** The pages of [ps] that changed, over the parent's, are the RAM. *)
Lemma delta_exact (f f0 : Z -> bytes) n hs ps :
  NoDup ps.*1 -> (forall q, q ∈ ps -> 0 <= q.1 < n /\ q.2 = f q.1) ->
  (forall q, q ∈ ps -> page_changed hs q = negb (bool_decide (f q.1 = f0 q.1))) ->
  (forall i, 0 <= i < n -> i ∉ ps.*1 -> f i = f0 i) ->
  (forall i, 0 <= i < n -> overlay f0 (List.filter (page_changed hs) ps) i = f i) /\
  length (List.filter (page_changed hs) ps) = length (List.filter (fun i => negb (bool_decide (f i = f0 i))) (seqZ 0 n)).
Proof.
  intros Hnd Hpage Hfil Hun. split.
  - intros i Hi. unfold overlay. destruct (decide (i ∈ (List.filter (page_changed hs) ps).*1)) as [Hin|Hout].
    + apply list_elem_of_fmap in Hin as ([j page] & -> & Hq). rewrite (last_of_elem _ page) by (done || by apply changed_NoDup).
      apply elem_of_bfilter in Hq as [Hq _]. by apply Hpage in Hq as [_ ?].
    + rewrite last_of_none by done. symmetry. destruct (decide (i ∈ ps.*1)) as [Hin|Hnin]; [|by apply Hun].
      apply list_elem_of_fmap in Hin as (q & -> & Hq). apply dec_stable. intros Hne. apply Hout, list_elem_of_fmap.
      exists q. split; [done|]. apply elem_of_bfilter. split; [done|]. rewrite (Hfil q Hq). by rewrite bool_decide_eq_false_2.
  - rewrite <- (length_fmap fst). apply Permutation_length, NoDup_Permutation; [by apply changed_NoDup|apply bfilter_NoDup, NoDup_seqZ|].
    intros i. rewrite elem_of_bfilter, elem_of_seqZ. split.
    + intros (q & -> & [Hq Hc]%elem_of_bfilter)%list_elem_of_fmap. destruct (Hpage q Hq). rewrite (Hfil q Hq) in Hc. split; [lia|done].
    + intros [Hi Hne]. assert (i ∈ ps.*1) as (q & -> & Hq)%list_elem_of_fmap.
      { apply dec_stable. intros Hnin. rewrite bool_decide_eq_true_2 in Hne; [done|]. apply Hun; [lia|done]. }
      apply list_elem_of_fmap. exists q. split; [done|]. apply elem_of_bfilter. by rewrite (Hfil q Hq).
Qed.

(** [i] may have changed since the parent: harvested, or in a device's range. *)
Definition tracked (bus : Bus) (total : Z) (set : DirtyPageSet) (i : Z) : Prop :=
  i ∈ dirty_iter set \/ exists extra, bus_range_pages (K := K) bus total = Ok extra /\ i ∈ extra.

(** C20: an incremental snapshot is exact.  If the pages that are neither dirty
    nor in a device's ranges are still the parent's, and page hashes do not
    collide, then the stored delta over its parent is the whole RAM at the
    boundary; it ships exactly the pages that differ from the parent, and the
    dirty set is cleared. *)
Theorem incremental_snapshot_exact fuel s slot_state (bus : Bus) lapic entropy mc b p (k : K) (d d1 : Drain R) stats
    tk st' f0 blob0 f :
  take_snapshot_with_lapic fuel s slot_state bus lapic entropy mc b (Incremental p) (k, d) = Some (Ok tk, st') ->
  harvest_at_boundary fuel d = Some (Ok stats, d1) ->
  dirty_ok (d_set d1) -> pages (d_set d1) = page_count (slot_mem_bytes s) ->
  Forall (fun e => Forall (fun r => 0 <= r.1) (box_ranges e.2)) bus ->
  stored k p (slot_mem_bytes s) f0 blob0 -> ram_is s f ->
  (forall i, 0 <= i < page_count (slot_mem_bytes s) ->
     ~ tracked bus (page_count (slot_mem_bytes s)) (d_set d1) i -> f i = f0 i) ->
  (forall i, blake3 (f i) = blake3 (f0 i) -> f i = f0 i) ->
  (exists f1 blob, stored st'.1 (tk_snapshot_ref tk) (slot_mem_bytes s) f1 blob /\
     forall i, 0 <= i < page_count (slot_mem_bytes s) -> f1 i = f i) /\
  tk_pages_shipped tk = Z.of_nat (length (List.filter (fun i => negb (bool_decide (f i = f0 i)))
                                            (seqZ 0 (page_count (slot_mem_bytes s))))) /\
  dirty_iter (d_set st'.2) = [].
Proof.
  intros H Hh Hok Hpg Hbus Hst Hram Hun Hcol.
  apply take_incremental_inv in H as (stats' & d1' & l & ps & hs & ch & img & Hh' & Hi & Hp & Hr & Hch & _ & Hput & Hn & Hd).
  rewrite Hh in Hh'. injection Hh' as -> ->. apply include_ok in Hi as (extra & Hx & Hnd & Hl).
  apply read_pages_ok in Hp as [Hk Hps]. apply retain_ok in Hch as ->. subst l.
  set (n := page_count (slot_mem_bytes s)) in *.
  assert (Hrange : forall i, i ∈ ps.*1 -> 0 <= i < n).
  { intros i [Hin|Hin]%Hl; [apply elem_of_iter in Hin; [lia|done]|].
    pose proof (bus_range_bound _ _ _ Hbus Hx) as HF. rewrite Forall_forall in HF. by apply HF. }
  assert (Hpage : forall q, q ∈ ps -> 0 <= q.1 < n /\ q.2 = f q.1).
  { intros [i page] Hq. assert (0 <= i < n) by (apply Hrange, list_elem_of_fmap; by exists (i, page)).
    split; [done|]. rewrite Forall_forall in Hps. specialize (Hps _ Hq). cbn in *. rewrite Hram in Hps by done. congruence. }
  assert (Hfil : forall q, q ∈ ps -> page_changed (fst <$> hs) q = negb (bool_decide (f q.1 = f0 q.1))).
  { intros q Hq. destruct (Hpage q Hq) as [Hrg Hf]. unfold page_changed.
    rewrite (parent_hashes k p _ f0 blob0 hs q.1 Hst Hr Hrg), Hf. f_equal. apply bool_decide_ext. split; [|congruence].
    intros [= He]. by apply Hcol. }
  destruct (delta_exact f f0 n (fst <$> hs) ps Hnd Hpage Hfil) as [Hov Hlen].
  { intros i Hi Hnin. apply Hun; [done|]. rewrite Hl in Hnin. intros [Ht|(extra' & Hx' & Ht)]; apply Hnin; [by left|right].
    rewrite Hx in Hx'. by injection Hx' as ->. }
  split_and!; [|by rewrite Hn, Hlen|rewrite Hd; apply cleared_empty].
  exists (overlay f0 (List.filter (page_changed (fst <$> hs)) ps)). eexists. split; [|exact Hov].
  eapply put_delta; [done| | |done]; [by apply changed_NoDup|]. apply Forall_forall. intros i Hin.
  by apply Hrange, (changed_keys (fst <$> hs) ps).
Qed.
End Take.

(** ** RAM of a restore *)

Section Load.
Context {B : Blake3} {X : AnyChannel} {M E K S : Type}.
Context `{!Snapstore K, !DetEntropy E, !Vcpu S, !VcpuSets S, !TscClock S, !SlotMem S, !SlotRam S M, !SlotRamOk S M}.
Context {stored : K -> bytes -> Z -> (Z -> bytes) -> DeviceBlob -> Prop} `{!SnapstoreOk K stored}.
Implicit Types st : Machine M E S.

Definition with_slot (s : S) st : Machine M E S := mkMachine s (m_bus st) (m_dirty st).

(** Loading the pages [l] of [f], none of them covered yet. *)
Lemma load_pages_ok (f : Z -> bytes) total l covered st :
  page_count (slot_mem_bytes (m_slot st)) = total -> NoDup l ->
  (forall i, i ∈ l -> 0 <= i < total /\ covered !! Z.to_nat i = Some false /\ Z.of_nat (length (f i)) = DIRTY_PAGE_SIZE) ->
  exists s1, load_pages (K := K) total ((fun i => (i, blake3 (f i), Some (f i))) <$> l) covered st
      = Some (Ok (foldl (fun c i => <[Z.to_nat i := true]> c) covered l), with_slot s1 st) /\
    slot_mem_bytes s1 = slot_mem_bytes (m_slot st) /\
    forall i, read_page (i * DIRTY_PAGE_SIZE) s1 =
      if bool_decide (i ∈ l) then Ok (f i) else read_page (i * DIRTY_PAGE_SIZE) (m_slot st).
Proof.
  intros Ht Hn. revert covered st Ht. induction Hn as [|i l Hi Hn IH]; intros covered st Ht Hl.
  { exists (m_slot st). split; [by destruct st|]. done. }
  destruct (Hl i) as (Hr & Hc & Hlen); [apply list_elem_of_here|]. cbn [load_pages fmap list_fmap foldl].
  rewrite Hc. cbn [default]. destruct (Z.leb_spec total i); [lia|]. cbn [orb ok_or].
  destruct (page_written (M := M) i (f i) (m_slot st)) as (s' & Hw & Hm & Hrd & Hoth); [by rewrite Ht|done|].
  destruct (IH (<[Z.to_nat i := true]> covered) (with_slot s' st)) as (s1 & Hld & Hm1 & Hrd1).
  { cbn. by rewrite Hm. }
  { intros j Hj. destruct (Hl j) as (? & ? & ?); [by right|]. split_and!; try done; try lia.
    rewrite list_lookup_insert_ne; [done|]. intros He. apply Hi. by replace i with j by lia. }
  exists s1. split_and!; [|cbn in Hm1; congruence|].
  { etrans; [apply prog_bind_ok, of_outcome_ok; reflexivity|]. rewrite Hlen, Z.eqb_refl. cbn [negb].
    etrans; [apply prog_bind_ok; unfold on_slot, map_err, io; rewrite Hw; reflexivity|]. exact Hld. } intros j. rewrite (Hrd1 j). cbn [m_slot with_slot].
  destruct (decide (j ∈ l)) as [Hj|Hj].
  - rewrite !bool_decide_eq_true_2; [done|by right|done].
  - rewrite (bool_decide_eq_false_2 (j ∈ l)) by done. destruct (decide (j = i)) as [->|Hne].
    + rewrite bool_decide_eq_true_2 by apply list_elem_of_here. done.
    + rewrite bool_decide_eq_false_2 by (by apply not_elem_of_cons). by apply Hoth.
Qed.

(** Every flag is set once every page is loaded. *)
Lemma covered_all l covered : (forall i, (i < length covered)%nat -> Z.of_nat i ∈ l \/ covered !! i = Some true) ->
  Forall (fun i => 0 <= i) l ->
  foldl (fun c i => <[Z.to_nat i := true]> c) covered l = replicate (length covered) true.
Proof.
  revert covered. induction l as [|i l IH]; intros covered Hc Hl; cbn [foldl].
  - apply list_eq. intros j. destruct (decide (j < length covered)%nat) as [Hj|Hj].
    + destruct (Hc j Hj) as [?%not_elem_of_nil| ->]; [done|]. symmetry. by apply lookup_replicate.
    + rewrite !lookup_ge_None_2; [done|rewrite length_replicate; lia|lia].
  - apply Forall_cons in Hl as [Hi Hl]. rewrite IH; [by rewrite length_insert| |done].
    rewrite length_insert. intros j Hj. destruct (decide (j = Z.to_nat i)) as [->|Hne].
    + right. by apply list_lookup_insert_eq.
    + rewrite list_lookup_insert_ne by done. destruct (Hc j Hj) as [[Heq|?]%elem_of_cons|?]; [lia|by left|by right].
Qed.

Lemma existsb_negb_all (b : bool) n : b && existsb negb (replicate n true) = false.
Proof. rewrite andb_false_iff. right. by induction n. Qed.
Lemma filter_id_all n : length (List.filter Datatypes.id (replicate n true)) = n.
Proof. induction n as [|n IH]; [done|]. cbn in *. by rewrite IH. Qed.

(** A stored snapshot's manifest and pages pass every check of a full restore,
    which then applies the container with the snapshot's RAM in place. *)
Lemma restore_loads mc r counter (k : K) st n f img :
  stored k r n f (mkDeviceBlob DEVICE_BLOB_FORMAT_DHSNAP false (Z.of_nat (length img)) img) ->
  slot_mem_bytes (m_slot st) = n -> 0 <= n -> n mod DIRTY_PAGE_SIZE = 0 ->
  (forall i, 0 <= i < page_count n -> Z.of_nat (length (f i)) = DIRTY_PAGE_SIZE) ->
  exists s1, ram_is s1 f /\ slot_mem_bytes s1 = n /\
    restore_snapshot (K := K) SlotState.Paused mc r counter k st =
      (applied ← apply_dhsnap (K := K) mc img counter;
       mret (mkRestored (page_count n) (page_count n) RestoreFull applied)) (with_slot s1 st).
Proof.
  intros Hs Hm Hn Hmod Hlen. destruct (stored_manifest _ _ _ _ _ Hs) as (c & Hg & Hd).
  destruct (stored_pages _ _ _ _ _ false Hs) as (res & Hres & Hp).
  apply Permutation_map_inv in Hp as (l & -> & Hl). cbn [fmap] in Hres.
  assert (Hin : forall i, i ∈ l <-> 0 <= i < page_count n).
  { intros i. rewrite <- Hl, elem_of_seqZ. lia. }
  assert (0 <= page_count n) by (by apply Z.div_pos).
  destruct (load_pages_ok f (page_count n) l (replicate (Z.to_nat (page_count n)) false) st) as (s1 & Hld & Hm1 & Hrd).
  { by rewrite Hm. }
  { rewrite <- Hl. apply NoDup_seqZ. }
  { intros i Hi%Hin. split_and!; [lia..| |by apply Hlen]. apply lookup_replicate. lia. }
  rewrite covered_all, length_replicate in Hld.
  2:{ rewrite length_replicate. intros i Hi. left. apply Hin. lia. }
  2:{ apply Forall_forall. intros i Hi%Hin. lia. }
  exists s1. split; [|split; [congruence|]].
  { intros i Hi. rewrite Hrd, bool_decide_eq_true_2; [done|]. apply Hin. by rewrite Hm1, Hm in Hi. }
  unfold restore_snapshot, restore_snapshot_with_source. rewrite bool_decide_eq_true_2 by done. cbn [negb].
  etrans; [apply prog_bind_ok, of_outcome_ok, err_map_ok, Hg|].
  etrans; [apply prog_bind_ok, of_outcome_ok, err_map_ok, Hd|].
  etrans; [apply prog_bind_ok; reflexivity|]. cbn [guest_ram_bytes device_blob]. rewrite Hm, Z.eqb_refl. cbn [negb].
  etrans; [apply prog_bind_ok, of_outcome_ok; unfold validate_dhsnap_blob; cbn [blob_format blob_zstd blob_raw_len blob_bytes];
    rewrite !Z.eqb_refl; reflexivity|].
  etrans; [apply prog_bind_ok, of_outcome_ok; reflexivity|]. rewrite Hmod. cbn [Z.eqb negb].
  etrans; [apply prog_bind_ok, of_outcome_ok, err_map_ok, Hres|]. etrans; [apply prog_bind_ok, Hld|].
  rewrite existsb_negb_all, filter_id_all. cbn [andb blob_bytes]. rewrite Z2Nat.id by done. done.
Qed.
End Load.

(** ** A snapshot and its restore *)

Section Roundtrip.
Context {B : Blake3} {X : AnyChannel} {M E K R S : Type}.
Context `{!Snapstore K, !DetEntropy E, !RingKernel R, !Vcpu S, !VcpuGets S, !VcpuSets S, !TscClock S}.
Context `{!SlotMem S, !SlotRam S M, !SlotRamOk S M}.
Context {stored : K -> bytes -> Z -> (Z -> bytes) -> DeviceBlob -> Prop} `{!SnapstoreOk K stored}.
Local Notation Bus := (list (Z * BoxDev M E)).

(** The kernel takes the vCPU state [st] at [vns], and the counter's reset. *)
Definition kernel_takes (st : VcpuState) (vns : Z) (counter : bool) (s1 s2 : S) : Prop :=
  exists s', vcpu_restore st vns s1 = Some (Ok tt, s') /\
    if counter then InstRetired_reset s' = Some (Ok tt, s2) else s2 = s'.

(** C14: a snapshot restores.  A full snapshot acknowledged by the store, restored
    into another paused slot of the same size whose bus has the same devices,
    makes its RAM the captured RAM page for page, every device's section the
    captured one, the clock's base the boundary's time, and the vCPU exactly
    the captured one; it answers the boundary's icount, time, epoch and hash
    chain, the APIC and the generator, and counts every page. *)
Theorem snapshot_restores fuel s (bus : Bus) slot_state lapic entropy mc b (k k' : K) (d d' : Drain R) tk f st
    (m0 : Machine M E S) counter :
  capture_typed s bus lapic entropy mc b ->
  take_snapshot_with_lapic fuel s slot_state bus lapic entropy mc b FullPages (k, d) = Some (Ok tk, (k', d')) ->
  ram_is s f -> 0 <= slot_mem_bytes s -> slot_mem_bytes s mod DIRTY_PAGE_SIZE = 0 ->
  capture s = Ok st ->
  slot_mem_bytes (m_slot m0) = slot_mem_bytes s -> Forall2 (fun e0 e => peer e0.2 e.2) (m_bus m0) bus ->
  (forall s1, ram_is s1 f -> exists s2, kernel_takes st (bs_vns b) counter s1 s2) ->
  let n := page_count (slot_mem_bytes s) in
  exists s1 s2 (bus1 : Bus), ram_is s1 f /\ kernel_takes st (bs_vns b) counter s1 s2 /\
    restore_snapshot (K := K) SlotState.Paused mc (tk_snapshot_ref tk) counter k' m0 =
      Some (Ok (mkRestored n n RestoreFull
                 (mkApplied (bs_icount b) (bs_vns b) (bs_epoch_index b) (bs_hash_chain b)
                    (entropy_restore (entropy_state entropy)) lapic)),
            mkMachine s2 bus1 (dirty_clear <$> m_dirty m0)) /\
    bus1.*1 = (m_bus m0).*1 /\ Forall2 (fun e e1 => restored (bs_vns b) e.2 e1.2) bus bus1 /\
    tk_pages_shipped tk = n /\ tk_hash_chain tk = bs_hash_chain b.
Proof.
  intros Ht H Hram Hn Hmod Hst Hm HF Hk n.
  apply take_full_inv in H as (_ & _ & pages & img & Hp & Hb & Hput & _ & Hchain & Hship). cbn [fst] in Hput.
  pose proof (read_all s pages f Hram Hp) as ->. apply put_full in Hput.
  destruct (restore_loads mc (tk_snapshot_ref tk) counter k' m0 _ f img Hput Hm Hn Hmod) as (s1 & Hr1 & _ & Hres).
  { intros i Hi. apply (page_length (M := M) i s). by apply Hram. }
  destruct (Hk s1 Hr1) as (s2 & s' & Hv & Hreset).
  destruct (dhsnap_applies s bus lapic entropy mc b img (with_slot s1 m0) counter st s' s2 Ht Hb HF Hst Hv Hreset)
    as (bus1 & Ha & Hbase & HR).
  exists s1, s2, bus1. split; [done|]. split; [by exists s'|]. split; [|split_and!; try done].
  - rewrite Hres. etrans; [apply prog_bind_ok, Ha|]. done.
  - rewrite Hship, length_fmap, length_seqZ, Z2Nat.id; [done|]. by apply Z.div_pos.
Qed.

(** C40: the baseline check is exact.  A machine's own snapshot is accepted as a
    baseline exactly when the machine's landing knobs are the defaults: the check
    compares whole configurations, and the encoding leaves the knobs out. *)
Theorem baseline_check_exact s (bus : Bus) lapic entropy mc b img (k : K) p n f :
  capture_typed s bus lapic entropy mc b -> build_dhsnap_with_lapic (K := K) s bus lapic entropy mc b = Ok img ->
  stored k p n f (mkDeviceBlob DEVICE_BLOB_FORMAT_DHSNAP false (Z.of_nat (length img)) img) ->
  (landing_default mc -> check_baseline mc n k (BaselineDelta p) = Ok (Some p)) /\
  (~ landing_default mc -> check_baseline mc n k (BaselineDelta p) = Err BaselineConfigMismatch).
Proof.
  intros Ht Hb Hs. destruct (stored_manifest _ _ _ _ _ Hs) as (c & Hg & Hd).
  assert (check_baseline mc n k (BaselineDelta p) =
    if negb (bool_decide (landing_reset mc = mc)) then Err BaselineConfigMismatch else Ok (Some p)) as ->.
  { unfold check_baseline, recover_machine_config_from_blob, validate_dhsnap_blob. rewrite Hg. cbn [err_map mbind outcome_bind].
    rewrite Hd. cbn [err_map mbind outcome_bind guest_ram_bytes device_blob blob_format blob_zstd blob_raw_len blob_bytes].
    rewrite !Z.eqb_refl. cbn [negb orb mbind outcome_bind]. by rewrite (config_carried _ _ _ _ _ _ _ Ht Hb). }
  unfold landing_default, landing_reset. split.
  - intros [<- <-]. rewrite bool_decide_eq_true_2; [done|by destruct mc].
  - intros Hl. rewrite bool_decide_eq_false_2; [done|]. intros He. apply Hl. rewrite <- He. done.
Qed.
End Roundtrip.
