(* ===== verification/SnapshotCompare.v ===== *)
(** * Comparing two snapshots: [dh-worker/src/snapshot_compare.rs]

    The registers that differ, and the first pages that differ.  The encoding of
    the register list is the [postcard] crate's: the class [Postcard]. *)

From Stdlib Require Import String Sorted.
From stdpp Require Import sorting.
From S2P Require Import Prelude DhSnap DhSnapSections Lapic DevCtx Devices Bus Dirty Config Kvm ReprC VcpuState Snapshot Restore SnapshotOk SnapshotStore.

Definition DIFF_PAGE_LIMIT : nat := 64.

Inductive SnapshotSide := Expected | Actual.

Record RegDiff := mkRegDiff { rd_name : string; rd_expected : bytes; rd_actual : bytes }.

Class Postcard := to_allocvec : list RegDiff -> outcome unit bytes.

Record SnapshotComparison := mkComparison {
  cmp_rip_expected : Z; cmp_rip_actual : Z; cmp_reg_diffs : list RegDiff; cmp_reg_diff : bytes;
  cmp_diff_page_idx : list Z }.

Record MachineSnapshot := mkMachineSnapshot { ms_vcpu : VcpuState; ms_lapic : LocalApic }.

Inductive SnapshotComparisonError (X : Type) :=
| CmpGetSnapshot (side : SnapshotSide) (e : X)
| CmpResolvePages (side : SnapshotSide) (e : X)
| CmpManifest (side : SnapshotSide) (e : X)
| UnsupportedDeviceBlob (side : SnapshotSide) (format : Z) (zstd : bool)
| CmpDhsnap (side : SnapshotSide) (e : DhSnap.ReadError)
| CmpMissingSection (side : SnapshotSide) (t : bytes)
| CmpVcpu (side : SnapshotSide) (e : StateError)
| CmpLapcDecode (side : SnapshotSide) (e : SectionError)
| CmpLapc (side : SnapshotSide) (e : LapicError)
| RegDiffEncode.
Arguments CmpGetSnapshot {X}. Arguments CmpResolvePages {X}. Arguments CmpManifest {X}. Arguments UnsupportedDeviceBlob {X}.
Arguments CmpDhsnap {X}. Arguments CmpMissingSection {X}. Arguments CmpVcpu {X}. Arguments CmpLapcDecode {X}.
Arguments CmpLapc {X}. Arguments RegDiffEncode {X}.

(** ** Derived equality *)

#[export] Instance kvm_regs_eq_dec : EqDecision kvm_regs.
Proof. solve_decision. Defined.
#[export] Instance kvm_segment_eq_dec : EqDecision kvm_segment.
Proof. solve_decision. Defined.
#[export] Instance kvm_dtable_eq_dec : EqDecision kvm_dtable.
Proof. solve_decision. Defined.
#[export] Instance kvm_sregs_eq_dec : EqDecision kvm_sregs.
Proof. solve_decision. Defined.
#[export] Instance kvm_fpu_eq_dec : EqDecision kvm_fpu.
Proof. solve_decision. Defined.
#[export] Instance kvm_xcrs_eq_dec : EqDecision kvm_xcrs.
Proof. solve_decision. Defined.
#[export] Instance kvm_vcpu_events_eq_dec : EqDecision kvm_vcpu_events.
Proof. solve_decision. Defined.
#[export] Instance kvm_debugregs_eq_dec : EqDecision kvm_debugregs.
Proof. solve_decision. Defined.
#[export] Instance kvm_msr_entry_eq_dec : EqDecision kvm_msr_entry.
Proof. solve_decision. Defined.
#[export] Instance VcpuState_eq_dec : EqDecision VcpuState.
Proof. solve_decision. Defined.
#[export] Instance LocalApic_eq_dec : EqDecision LocalApic.
Proof. solve_decision. Defined.

(** ** Registers *)

Definition push_u64_diff (name : string) (expected actual : Z) (diffs : list RegDiff) : list RegDiff :=
  if negb (expected =? actual) then diffs ++ [mkRegDiff name (le_bytes 8 expected) (le_bytes 8 actual)] else diffs.

(** The named general registers, in the order they are compared. *)
Definition gprs : list (string * (kvm_regs -> Z)) :=
  [("rax", rax); ("rbx", rbx); ("rcx", rcx); ("rdx", rdx); ("rsi", rsi); ("rdi", rdi); ("rsp", rsp); ("rbp", rbp);
   ("r8", r8); ("r9", r9); ("r10", r10); ("r11", r11); ("r12", r12); ("r13", r13); ("r14", r14); ("r15", r15);
   ("rip", rip); ("rflags", rflags)]%string.

Definition compare_vcpu (expected actual : VcpuState) : list RegDiff :=
  let diffs := foldl (fun diffs r => push_u64_diff r.1 (r.2 (vs_regs expected)) (r.2 (vs_regs actual)) diffs) [] gprs in
  let actual_without_gpr_diffs :=
    mkVcpuState (vs_regs expected) (vs_sregs actual) (vs_fpu actual) (vs_xsave actual) (vs_xcrs actual) (vs_msrs actual)
      (vs_events actual) (vs_dbg actual) in
  if negb (bool_decide (expected = actual_without_gpr_diffs))
  then diffs ++ [mkRegDiff "vcpu_non_gpr" (vcpu_encode expected) (vcpu_encode actual)] else diffs.

Definition push_lapic_diff (expected actual : LocalApic) (diffs : list RegDiff) : list RegDiff :=
  if negb (bool_decide (expected = actual))
  then diffs ++ [mkRegDiff "lapic" (LapcSection_encode (to_lapc_section expected))
                   (LapcSection_encode (to_lapc_section actual))]
  else diffs.

(** ** Pages *)

Definition index_le (a b : Z * bytes) : Prop := a.1 <= b.1.
#[export] Instance index_le_dec a b : Decision (index_le a b).
Proof. unfold index_le. apply _. Defined.

(** The merge loop; [room] is what the limit leaves. *)
Fixpoint diff_loop (fuel room : nat) (expected actual : list (Z * bytes)) : list Z :=
  match fuel, room with
  | O, _ | _, O => []
  | S fuel, S room' =>
      match expected, actual with
      | (ei, eh) :: e, (ai, ah) :: a =>
          if ei =? ai then
            if negb (bool_decide (eh = ah)) then ei :: diff_loop fuel room' e a else diff_loop fuel room e a
          else if ei <? ai then ei :: diff_loop fuel room' e actual
          else ai :: diff_loop fuel room' expected a
      | (ei, _) :: e, [] => ei :: diff_loop fuel room' e []
      | [], (ai, _) :: a => ai :: diff_loop fuel room' [] a
      | [], [] => []
      end
  end.

Definition first_diff_page_indices (expected actual : list (Z * bytes)) : list Z :=
  diff_loop (length expected + length actual) DIFF_PAGE_LIMIT (merge_sort index_le expected) (merge_sort index_le actual).

(** ** The comparison *)

Section Compare.
Context {K : Type} `{!Snapstore K, !Postcard}.
Local Notation Error := (SnapshotComparisonError StoreError).

Definition decode_machine_snapshot (container : bytes) (side : SnapshotSide) : outcome Error MachineSnapshot :=
  manifest ← err_map (CmpManifest side) (Manifest_decode container);
  let blob := device_blob manifest in
  if negb (blob_format blob =? DEVICE_BLOB_FORMAT_DHSNAP) || blob_zstd blob
  then Err (UnsupportedDeviceBlob side (blob_format blob) (blob_zstd blob))
  else
    dhsnap ← err_map (CmpDhsnap side) (DhSnap.parse (blob_bytes blob));
    v ← ok_or (CmpMissingSection side DhSnap.VCPU) (DhSnap.get dhsnap DhSnap.VCPU);
    vcpu ← err_map (CmpVcpu side) (vcpu_decode (DhSnap.contents v) (DhSnap.sec_version v));
    l ← ok_or (CmpMissingSection side DhSnap.LAPC) (DhSnap.get dhsnap DhSnap.LAPC);
    lapc ← err_map (CmpLapcDecode side) (decode_compat (DhSnap.contents l) (DhSnap.sec_version l));
    lapic ← err_map (CmpLapc side) (from_lapc_section lapc);
    Ok (mkMachineSnapshot vcpu lapic).

Definition resolve_page_hashes (r : bytes) (k : K) : outcome StoreError (list (Z * bytes)) :=
  match resolve_pages r None true k with Ok pages => Ok (fst <$> pages) | Err e => Err e | Panic => Panic end.

Definition compare_snapshots (k : K) (expected_ref actual_ref : bytes) : outcome Error SnapshotComparison :=
  expected_container ← err_map (CmpGetSnapshot Expected) (get_snapshot expected_ref k);
  actual_container ← err_map (CmpGetSnapshot Actual) (get_snapshot actual_ref k);
  expected ← decode_machine_snapshot expected_container Expected;
  actual ← decode_machine_snapshot actual_container Actual;
  let reg_diffs := push_lapic_diff (ms_lapic expected) (ms_lapic actual) (compare_vcpu (ms_vcpu expected) (ms_vcpu actual)) in
  reg_diff ← err_map (fun _ => RegDiffEncode) (to_allocvec reg_diffs);
  expected_pages ← err_map (CmpResolvePages Expected) (resolve_page_hashes expected_ref k);
  actual_pages ← err_map (CmpResolvePages Actual) (resolve_page_hashes actual_ref k);
  Ok (mkComparison (rip (vs_regs (ms_vcpu expected))) (rip (vs_regs (ms_vcpu actual))) reg_diffs reg_diff
        (first_diff_page_indices expected_pages actual_pages)).
End Compare.

(** ** The pages found are the first that differ *)

Definition keys_sorted (l : list (Z * bytes)) : Prop := StronglySorted Z.lt l.*1.

Lemma keys_sorted_cons k h l : keys_sorted ((k, h) :: l) -> keys_sorted l /\ k ∉ l.*1 /\ forall i, i ∈ l.*1 -> k < i.
Proof.
  intros H. inversion H as [|? ? Hs HF]; subst. rewrite Forall_forall in HF. split_and!; [done| |done].
  intros Hk. specialize (HF k Hk). lia.
Qed.
Lemma last_of_some_key i l b : last_of i l = Some b -> i ∈ l.*1.
Proof. intros H. apply dec_stable. intros Hn. by rewrite last_of_none in H. Qed.
Lemma last_of_cons i k h l : k ∉ l.*1 -> last_of i ((k, h) :: l) = if i =? k then Some h else last_of i l.
Proof.
  intros Hk. cbn. destruct (Z.eqb_spec i k) as [->|Hne].
  - by rewrite last_of_none, Z.eqb_refl by done.
  - destruct (Z.eqb_spec k i); [congruence|]. by destruct (last_of i l).
Qed.

(** [d] lists, ascending, the indices at which the two page sets differ. *)
Definition differences (e a : list (Z * bytes)) (d : list Z) : Prop :=
  StronglySorted Z.lt d /\ forall i, i ∈ d <-> last_of i e <> last_of i a.

Lemma differences_key e a d i : differences e a d -> i ∈ d -> i ∈ e.*1 \/ i ∈ a.*1.
Proof.
  intros [_ Hd] Hi%Hd. destruct (last_of i e) eqn:He; [left; by eapply last_of_some_key|].
  destruct (last_of i a) eqn:Ha; [right; by eapply last_of_some_key|done].
Qed.

(** A first difference at [k], before all the others. *)
Lemma differences_first k e a e' a' d : differences e' a' d -> (forall i, i ∈ e'.*1 \/ i ∈ a'.*1 -> k < i) ->
  last_of k e <> last_of k a -> (forall i, i <> k -> last_of i e = last_of i e' /\ last_of i a = last_of i a') ->
  differences e a (k :: d).
Proof.
  intros Hd Hk Hne Hsame. split.
  - constructor; [apply Hd|]. apply Forall_forall. intros i Hi. by eapply Hk, differences_key.
  - intros i. rewrite elem_of_cons. destruct (decide (i = k)) as [->|Hi]; [tauto|].
    destruct (Hsame i Hi) as [-> ->]. rewrite (proj2 Hd i). tauto.
Qed.

Lemma diff_loop_spec fuel e a : (length e + length a <= fuel)%nat -> keys_sorted e -> keys_sorted a ->
  exists d, differences e a d /\ forall room, diff_loop fuel room e a = take room d.
Proof.
  revert e a. induction fuel as [|fuel IH]; intros [|[ei eh] e] [|[ai ah] a] Hl He Ha; cbn [length] in Hl; try lia.
  1-2: exists []; split; [split; [constructor|]; intros i; cbn; split; [by intros ?%not_elem_of_nil|done]|by intros []].
  - apply keys_sorted_cons in Ha as (Ha & Hk & Hlt). destruct (IH [] a) as (d & Hd & Hloop); [cbn; lia|done..|].
    exists (ai :: d). split; [|intros [|room]; [done|]; cbn; by rewrite Hloop].
    apply (differences_first ai _ _ [] a d Hd); [intros i [?%not_elem_of_nil|?]; [done|by apply Hlt]| |].
    + by rewrite (last_of_cons ai), Z.eqb_refl by done.
    + intros i Hi. rewrite (last_of_cons i) by done. by rewrite (proj2 (Z.eqb_neq _ _) Hi).
  - apply keys_sorted_cons in He as (He & Hk & Hlt). destruct (IH e []) as (d & Hd & Hloop); [cbn; lia|done..|].
    exists (ei :: d). split; [|intros [|room]; [done|]; cbn; by rewrite Hloop].
    apply (differences_first ei _ _ e [] d Hd); [intros i [?|?%not_elem_of_nil]; [by apply Hlt|done]| |].
    + by rewrite (last_of_cons ei), Z.eqb_refl by done.
    + intros i Hi. rewrite (last_of_cons i) by done. by rewrite (proj2 (Z.eqb_neq _ _) Hi).
  - cbn [diff_loop]. pose proof He as He0. pose proof Ha as Ha0.
    apply keys_sorted_cons in He as (He & Hke & Hlte). apply keys_sorted_cons in Ha as (Ha & Hka & Hlta).
    destruct (Z.eqb_spec ei ai) as [->|Hne]; [|destruct (Z.ltb_spec ei ai) as [Hlt|Hge]].
    + destruct (IH e a) as (d & Hd & Hloop); [lia|done..|]. case_bool_decide as Hh; cbn [negb].
      * exists d. split; [|intros [|room]; [done|]; by rewrite Hloop]. split; [apply Hd|]. intros i.
        rewrite (proj2 Hd i), !last_of_cons by done. subst. destruct (Z.eqb_spec i ai) as [->|]; [|done].
        rewrite !last_of_none by done. tauto.
      * exists (ai :: d). split; [|intros [|room]; [done|]; cbn; by rewrite Hloop].
        apply (differences_first ai _ _ e a d Hd); [intros i [?|?]; auto| |].
        -- rewrite !last_of_cons, Z.eqb_refl by done. congruence.
        -- intros i Hi. rewrite !last_of_cons by done. by rewrite (proj2 (Z.eqb_neq _ _) Hi).
    + destruct (IH e ((ai, ah) :: a)) as (d & Hd & Hloop); [cbn; lia|done..|].
      exists (ei :: d). split; [|intros [|room]; [done|]; cbn [take]; by rewrite <- Hloop].
      assert (forall i, i ∈ ((ai, ah) :: a).*1 -> ei < i) as Hall.
      { intros i [->|Hi]%elem_of_cons; [done|]. specialize (Hlta i Hi). lia. }
      apply (differences_first ei _ _ e ((ai, ah) :: a) d Hd); [intros i [?|?]; auto| |].
      * rewrite (last_of_cons ei ei), Z.eqb_refl by done. rewrite last_of_none; [done|]. intros Hin. specialize (Hall ei Hin). lia.
      * intros i Hi. rewrite (last_of_cons i ei) by done. by rewrite (proj2 (Z.eqb_neq _ _) Hi).
    + destruct (IH ((ei, eh) :: e) a) as (d & Hd & Hloop); [cbn; lia|done..|].
      exists (ai :: d). split; [|intros [|room]; [done|]; cbn [take]; by rewrite <- Hloop].
      assert (forall i, i ∈ ((ei, eh) :: e).*1 -> ai < i) as Hall.
      { intros i [->|Hi]%elem_of_cons; [cbn; lia|]. specialize (Hlte i Hi). lia. }
      apply (differences_first ai _ _ ((ei, eh) :: e) a d Hd); [intros i [?|?]; auto| |].
      * rewrite (last_of_cons ai ai), Z.eqb_refl by done. rewrite last_of_none; [done|]. intros Hin. specialize (Hall ai Hin). lia.
      * intros i Hi. rewrite (last_of_cons i ai) by done. by rewrite (proj2 (Z.eqb_neq _ _) Hi).
Qed.

Lemma sort_keys l : NoDup l.*1 -> keys_sorted (merge_sort index_le l) /\ forall i, last_of i (merge_sort index_le l) = last_of i l.
Proof.
  intros Hn. assert (Total index_le) by (intros x y; unfold index_le; lia).
  assert (Transitive index_le) by (intros x y z; unfold index_le; lia).
  pose proof (merge_sort_Permutation index_le l) as Hp.
  assert (NoDup (merge_sort index_le l).*1) as Hn' by (by rewrite Hp). split.
  - pose proof (StronglySorted_merge_sort index_le l) as Hs. clear Hp Hn. unfold keys_sorted.
    induction Hs as [|[k h] m _ IH HF]; [constructor|]. cbn in *. apply NoDup_cons in Hn' as [Hk Hn].
    constructor; [by apply IH|]. apply Forall_forall. intros i Hi. pose proof Hi as (q & -> & Hq)%list_elem_of_fmap.
    rewrite Forall_forall in HF. specialize (HF q Hq). unfold index_le in HF. cbn in HF.
    assert (k <> q.1) by congruence. lia.
  - intros i. destruct (last_of i l) as [b|] eqn:Hb.
    + apply last_of_elem; [done|]. rewrite Hp. clear -Hb. induction l as [|[k h] l IH]; [done|]. cbn in Hb.
      destruct (last_of i l) as [x|]; [right; by apply IH|]. destruct (Z.eqb_spec k i); [|done]. injection Hb as ->. subst. left.
    + apply last_of_none. rewrite Hp. intros (q & -> & Hq)%list_elem_of_fmap. destruct q as [k h].
      by rewrite (last_of_elem k h) in Hb.
Qed.

Lemma first_diffs e a : NoDup e.*1 -> NoDup a.*1 ->
  exists d, differences e a d /\ first_diff_page_indices e a = take DIFF_PAGE_LIMIT d.
Proof.
  intros He Ha. destruct (sort_keys e He) as [Hse Hle], (sort_keys a Ha) as [Hsa Hla].
  destruct (diff_loop_spec (length e + length a) (merge_sort index_le e) (merge_sort index_le a)) as (d & [Hs Hd] & Hloop);
    [by rewrite !merge_sort_Permutation|done..|].
  exists d. split; [split; [done|]|apply Hloop]. intros i. by rewrite Hd, Hle, Hla.
Qed.

(** ** The registers named are those that differ *)

Lemma foldl_push_diffs (l : list (string * (kvm_regs -> Z))) e a acc :
  foldl (fun diffs r => push_u64_diff r.1 (r.2 e) (r.2 a) diffs) acc l
  = acc ++ ((fun r => mkRegDiff r.1 (le_bytes 8 (r.2 e)) (le_bytes 8 (r.2 a))) <$>
            List.filter (fun r => negb (r.2 e =? r.2 a)) l).
Proof.
  revert acc. induction l as [|r l IH]; intros acc; cbn; [by rewrite app_nil_r|]. rewrite IH. unfold push_u64_diff.
  destruct (r.2 e =? r.2 a); cbn; [done|]. by rewrite <- app_assoc.
Qed.
Lemma filter_negb_nil {A} (g : A -> bool) l : List.filter (fun x => negb (g x)) l = [] <-> forallb g l = true.
Proof. induction l as [|x l IH]; cbn; [done|]. destruct (g x); cbn; [apply IH|done]. Qed.
Lemma fmap_nil {A C} (g : A -> C) l : g <$> l = [] <-> l = [].
Proof. by destruct l. Qed.
Lemma gprs_cover e a : forallb (fun r : string * (kvm_regs -> Z) => r.2 e =? r.2 a) gprs = true <-> e = a.
Proof.
  split; [|intros ->; apply forallb_forall; intros r _; apply Z.eqb_refl].
  destruct e, a. cbn. intros H.
  repeat (apply andb_prop in H as [->%Z.eqb_eq H]). done.
Qed.

Lemma compare_vcpu_nil e a : compare_vcpu e a = [] <-> e = a.
Proof.
  unfold compare_vcpu. rewrite foldl_push_diffs. cbn [app]. case_bool_decide as Heq; cbn [negb].
  - rewrite fmap_nil, filter_negb_nil, gprs_cover. split; [|by intros ->].
    intros Hr. rewrite Heq. destruct a. cbn in *. by subst.
  - split; [intros H; by apply app_nil in H as [_ H]|]. intros ->. destruct Heq. by destruct a.
Qed.

(** A general register is named exactly when it differs, with both values. *)
Lemma compare_vcpu_gpr e a n f : (n, f) ∈ gprs -> f (vs_regs e) <> f (vs_regs a) ->
  mkRegDiff n (le_bytes 8 (f (vs_regs e))) (le_bytes 8 (f (vs_regs a))) ∈ compare_vcpu e a.
Proof.
  intros Hin Hne. unfold compare_vcpu. rewrite foldl_push_diffs. cbn [app].
  assert (forall l (x : RegDiff) c, x ∈ l -> x ∈ (if c : bool then l ++ [mkRegDiff "vcpu_non_gpr" (vcpu_encode e) (vcpu_encode a)] else l)) as Happ.
  { intros l x [] Hx; [apply elem_of_app; by left|done]. }
  apply Happ, list_elem_of_fmap. exists (n, f). split; [done|].
  apply list_elem_of_In, filter_In. rewrite <- list_elem_of_In. split; [done|].
  cbn [snd]. by rewrite (proj2 (Z.eqb_neq _ _) Hne).
Qed.

Lemma push_lapic_nil e a l : push_lapic_diff e a l = [] <-> e = a /\ l = [].
Proof.
  unfold push_lapic_diff. case_bool_decide; cbn [negb]; [tauto|]. split; [by intros [_ ?]%app_nil|tauto].
Qed.

(** ** Two stored machines *)

Section Stored.
Context {B : Blake3} {X : AnyChannel} {M E K S : Type}.
Context `{!Snapstore K, !DetEntropy E, !Vcpu S, !VcpuGets S, !Postcard}.
Context {stored : K -> bytes -> Z -> (Z -> bytes) -> DeviceBlob -> Prop} `{!SnapstoreOk K stored}.

Definition dhsnap_blob (img : bytes) : DeviceBlob :=
  mkDeviceBlob DEVICE_BLOB_FORMAT_DHSNAP false (Z.of_nat (length img)) img.

Lemma bind_value {F A C} (o : outcome F A) (a : A) (g : A -> outcome F C) : o = Ok a -> (o ≫= g) = g a.
Proof. by intros ->. Qed.
Lemma decode_built s (bus : list (Z * BoxDev M E)) lapic entropy mc b img st c n side :
  capture_typed s bus lapic entropy mc b ->
  build_dhsnap_with_lapic (K := K) s bus lapic entropy mc b = Ok img -> capture s = Ok st ->
  Manifest_decode c = Ok (mkManifest n (dhsnap_blob img)) ->
  decode_machine_snapshot (K := K) c side = Ok (mkMachineSnapshot st lapic).
Proof.
  intros Ht (mcfg & st' & regs & v2 & secs & [_ Hs _ _ _] & Hok & ->)%(build_iff _ _ _ _ _ _ Ht) Hst Hm.
  rewrite Hs in Hst. injection Hst as ->. set (ss := fixed_sections _ _ _ _ _ ++ _) in *.
  assert (forall sec, sec ∈ fixed_sections mcfg st lapic b v2 ->
    DhSnap.parse (container_image DhSnap.FORMAT_VERSION ss) = Ok (DhSnap.mkContainer ss) /\
    DhSnap.get (DhSnap.mkContainer ss) (DhSnap.tag sec) = Some sec) as Hget.
  { intros sec Hin. apply container_get; [done|]. apply elem_of_app. by left. }
  destruct (Hget (DhSnap.mkSection DhSnap.VCPU VCPU_SECTION_VERSION (vcpu_encode st))) as [Hp Hv]; [right; left|].
  destruct (Hget (DhSnap.mkSection DhSnap.LAPC LapcSection_VERSION (LapcSection_encode (to_lapc_section lapic)))) as [_ Hl];
    [right; right; left|]. cbn [DhSnap.tag] in Hv, Hl.
  destruct (lapic_section_back lapic (ct_lapic _ _ _ _ _ _ Ht)) as [Hc Hf].
  unfold decode_machine_snapshot. rewrite (bind_value _ _ _ (err_map_ok _ _ _ Hm)).
  cbn [device_blob dhsnap_blob blob_format blob_zstd blob_bytes]. rewrite Z.eqb_refl. cbn [negb orb].
  rewrite (bind_value _ _ _ (err_map_ok _ _ _ Hp)), Hv. cbn [ok_or]. rewrite (bind_value _ _ _ eq_refl).
  rewrite (bind_value _ _ _ (err_map_ok _ _ _ (vcpu_decode_encode st (ct_vcpu _ _ _ _ _ _ Ht st Hs)))), Hl.
  cbn [ok_or]. rewrite (bind_value _ _ _ eq_refl), (bind_value _ _ _ (err_map_ok _ _ _ Hc)).
  by rewrite (bind_value _ _ _ (err_map_ok _ _ _ Hf)).
Qed.

Lemma stored_hashes k r n f blob : stored k r n f blob ->
  exists l, resolve_page_hashes r k = Ok l /\ NoDup l.*1 /\
    forall i, last_of i l = if bool_decide (0 <= i < page_count n) then Some (blake3 (f i)) else None.
Proof.
  intros Hs. destruct (stored_pages k r n f blob true Hs) as (l & Hl & Hp).
  apply (fmap_Permutation fst) in Hp. rewrite <- list_fmap_compose in Hp.
  assert (NoDup (fst <$> l).*1) as Hn.
  { rewrite Hp, <- list_fmap_compose. cbn. rewrite list_fmap_id. apply NoDup_seqZ. }
  exists (fst <$> l). unfold resolve_page_hashes. rewrite Hl. split_and!; [done..|]. intros i. case_bool_decide as Hi.
  - apply last_of_elem; [done|]. rewrite Hp. apply list_elem_of_fmap. exists i. split; [done|]. apply elem_of_seqZ. lia.
  - apply last_of_none. rewrite Hp, <- list_fmap_compose. cbn. rewrite list_fmap_id, elem_of_seqZ. lia.
Qed.

(** The comparison of two stored snapshots is exact.  It reports the two
    instruction pointers; it names no register exactly when vCPU and APIC
    agree, and names every general register that differs with both values; and
    its page indices are the first 64, ascending, at which the page hashes
    differ. *)
Theorem comparison_exact k r1 r2 n f1 f2 s1 s2 (bus1 bus2 : list (Z * BoxDev M E)) lapic1 lapic2 ent1 ent2 mc1 mc2 b1 b2
    img1 img2 st1 st2 :
  capture_typed s1 bus1 lapic1 ent1 mc1 b1 -> capture_typed s2 bus2 lapic2 ent2 mc2 b2 ->
  build_dhsnap_with_lapic (K := K) s1 bus1 lapic1 ent1 mc1 b1 = Ok img1 ->
  build_dhsnap_with_lapic (K := K) s2 bus2 lapic2 ent2 mc2 b2 = Ok img2 ->
  capture s1 = Ok st1 -> capture s2 = Ok st2 ->
  stored k r1 n f1 (dhsnap_blob img1) -> stored k r2 n f2 (dhsnap_blob img2) ->
  (forall l, exists e, to_allocvec l = Ok e) ->
  exists c d, compare_snapshots k r1 r2 = Ok c /\
    cmp_rip_expected c = rip (vs_regs st1) /\ cmp_rip_actual c = rip (vs_regs st2) /\
    (cmp_reg_diffs c = [] <-> st1 = st2 /\ lapic1 = lapic2) /\
    (forall name f, (name, f) ∈ gprs -> f (vs_regs st1) <> f (vs_regs st2) ->
       mkRegDiff name (le_bytes 8 (f (vs_regs st1))) (le_bytes 8 (f (vs_regs st2))) ∈ cmp_reg_diffs c) /\
    cmp_diff_page_idx c = take DIFF_PAGE_LIMIT d /\ StronglySorted Z.lt d /\
    (forall i, i ∈ d <-> 0 <= i < page_count n /\ blake3 (f1 i) <> blake3 (f2 i)).
Proof.
  intros Ht1 Ht2 Hb1 Hb2 Hc1 Hc2 Hs1 Hs2 Henc.
  destruct (stored_manifest _ _ _ _ _ Hs1) as (c1 & Hg1 & Hm1), (stored_manifest _ _ _ _ _ Hs2) as (c2 & Hg2 & Hm2).
  destruct (stored_hashes _ _ _ _ _ Hs1) as (l1 & Hr1 & Hn1 & Hl1), (stored_hashes _ _ _ _ _ Hs2) as (l2 & Hr2 & Hn2 & Hl2).
  destruct (first_diffs l1 l2 Hn1 Hn2) as (d & [Hsd Hd] & Hidx).
  set (diffs := push_lapic_diff lapic1 lapic2 (compare_vcpu st1 st2)). destruct (Henc diffs) as [enc He].
  exists (mkComparison (rip (vs_regs st1)) (rip (vs_regs st2)) diffs enc (first_diff_page_indices l1 l2)), d.
  cbn [cmp_rip_expected cmp_rip_actual cmp_reg_diffs cmp_diff_page_idx]. split_and!; try done.
  - unfold compare_snapshots. rewrite Hg1, Hg2. cbn [err_map mbind outcome_bind].
    rewrite (decode_built _ _ _ _ _ _ _ _ _ _ Expected Ht1 Hb1 Hc1 Hm1), (decode_built _ _ _ _ _ _ _ _ _ _ Actual Ht2 Hb2 Hc2 Hm2).
    cbn [mbind outcome_bind ms_vcpu ms_lapic]. fold diffs. rewrite He, Hr1, Hr2. done.
  - unfold diffs. rewrite push_lapic_nil, compare_vcpu_nil. tauto.
  - intros name f Hin Hne. unfold diffs, push_lapic_diff.
    case_match; [apply elem_of_app; left|]; by apply compare_vcpu_gpr.
  - intros i. rewrite Hd, Hl1, Hl2. case_bool_decide; [|naive_solver]. split; [intros Hne; split; [done|]; congruence|naive_solver].
Qed.
End Stored.
