(* ===== verification/Fork.v ===== *)
(** * Forking a slot: [dh-worker/src/fork_engine.rs]

    The parent's container, built and applied in memory to a child whose RAM
    shares the parent's pages copy-on-write.  The class [ForkVm] is what the
    engine asks of [KvmSystem::fork_slot_vm], and [ForkVmOk] what it relies on;
    [SlotVm]'s fork discharges it. *)

From S2P Require Import Prelude DhSnap DhSnapSections SlotState Lapic DevCtx Devices Bus Dirty Config Kvm SlotVm VcpuState StateHash Boundary RunCtl Recording Snapshot Restore SnapshotOk SnapshotStore.

(** [Kvm] is two constructors: the child's VM, and the application. *)
Inductive ForkError (X : Type) :=
| ForkAgendaNotEmpty
| ParentNotFrozen (state : SlotState)
| ForkCapture (e : EngineError X)
| ForkVmFailed (e : KvmError)
| ForkBuildBus
| ForkKvm (e : RestoreError X)
| ForkApply (e : RestoreError X).
Arguments ForkAgendaNotEmpty {X}. Arguments ParentNotFrozen {X}. Arguments ForkCapture {X}. Arguments ForkVmFailed {X}.
Arguments ForkBuildBus {X}. Arguments ForkKvm {X}. Arguments ForkApply {X}.

Class ForkVm (S : Type) := fork_child : S -> outcome KvmError S.
Class ForkVmOk (S : Type) `{!ForkVm S, !SlotMem S} : Prop := {
  fork_ram : forall p c f, fork_child p = Ok c -> ram_is p f -> ram_is c f;
  fork_size : forall p c, fork_child p = Ok c -> slot_mem_bytes c = slot_mem_bytes p }.

Record ForkOutcome (E S : Type) := mkForkOutcome { fk_child : S; fk_machine : AppliedMachine E }.
Arguments mkForkOutcome {E S}. Arguments fk_child {E S}. Arguments fk_machine {E S}.

Section Fork.
Context {X : AnyChannel} {M E K S : Type}.
Context `{!Snapstore K, !DetEntropy E, !Vcpu S, !VcpuGets S, !VcpuSets S, !TscClock S, !SlotMem S, !SlotRam S M, !ForkVm S}.
Local Notation Bus := (list (Z * BoxDev M E)).
Local Notation Error := (ForkError StoreError).

Definition prepare_parent_dhsnap (parent : S) (parent_state : SlotState) (parent_bus : Bus) (parent_lapic : LocalApic)
    (parent_entropy : E) (machine_config : MachineConfig) (boundary : BoundaryState) : outcome Error bytes :=
  if negb (bs_agenda_empty boundary) then Err ForkAgendaNotEmpty
  else if negb (bool_decide (parent_state = Frozen)) then Err (ParentNotFrozen parent_state)
  else err_map ForkCapture (build_dhsnap_with_lapic (K := K) parent parent_bus parent_lapic parent_entropy machine_config boundary).

(** [RestoreError::Kvm] is the kernel's: page writes, the vCPU and the counter. *)
Definition is_kvm (e : RestoreError StoreError) : bool :=
  match e with PageWrite _ | VcpuRestoreFailed _ | CounterResetFailed _ => true | _ => false end.
Definition apply_failed (e : RestoreError StoreError) : Error := if is_kvm e then ForkKvm e else ForkApply e.

Definition reseed (entropy_seed : option bytes) (continued : E) : E :=
  match entropy_seed with
  | Some seed => if bool_decide (seed = replicate 32 0) then continued else entropy_from_seed seed
  | None => continued
  end.

(** The child bus is the caller's: a failed application leaves it half restored. *)
Definition finish_fork (child : S) (machine_config : MachineConfig) (dhsnap : bytes) (entropy_seed : option bytes)
    (counter : bool) : prog Bus Error (ForkOutcome E S) := fun child_bus =>
  match apply_dhsnap (K := K) machine_config dhsnap counter (mkMachine child child_bus None) with
  | Some (Ok a, m) =>
      Some (Ok (mkForkOutcome (m_slot m)
                 (mkApplied (am_cumulative_icount a) (am_vns a) (am_epoch_index a) (am_chain a)
                    (reseed entropy_seed (am_entropy a)) (am_lapic a))), m_bus m)
  | Some (Err e, m) => Some (Err (apply_failed e), m_bus m)
  | Some (Panic, m) => Some (Panic, m_bus m)
  | None => None
  end.

Definition fork_slot_with_lapic (parent : S) (parent_state : SlotState) (parent_bus : Bus) (parent_lapic : LocalApic)
    (parent_entropy : E) (machine_config : MachineConfig) (boundary : BoundaryState) (entropy_seed : option bytes)
    (counter : bool) : prog Bus Error (ForkOutcome E S) :=
  dhsnap ← of_outcome (prepare_parent_dhsnap parent parent_state parent_bus parent_lapic parent_entropy machine_config boundary);
  child ← of_outcome (err_map ForkVmFailed (fork_child parent));
  finish_fork child machine_config dhsnap entropy_seed counter.

(** [fork_slot]: the parent's APIC is a reset one. *)
Definition fork_slot (parent : S) (parent_state : SlotState) (parent_bus : Bus) (parent_entropy : E)
    (machine_config : MachineConfig) (boundary : BoundaryState) (entropy_seed : option bytes) (counter : bool)
    : prog Bus Error (ForkOutcome E S) :=
  fork_slot_with_lapic parent parent_state parent_bus LocalApic_default parent_entropy machine_config boundary entropy_seed counter.

(** The variant that builds the child's bus over the child's mapping. *)
Definition fork_slot_with_child_bus_with_lapic (parent : S) (parent_state : SlotState) (parent_bus : Bus)
    (parent_lapic : LocalApic) (parent_entropy : E) (machine_config : MachineConfig) (boundary : BoundaryState)
    (entropy_seed : option bytes) (counter : bool) (build_child_bus : S -> option Bus)
    : option (outcome Error (ForkOutcome E S * Bus)) :=
  match prepare_parent_dhsnap parent parent_state parent_bus parent_lapic parent_entropy machine_config boundary with
  | Err e => Some (Err e)
  | Panic => Some Panic
  | Ok dhsnap =>
      match fork_child parent with
      | Err e => Some (Err (ForkVmFailed e))
      | Panic => Some Panic
      | Ok child =>
          match build_child_bus child with
          | None => Some (Err ForkBuildBus)
          | Some child_bus =>
              match finish_fork child machine_config dhsnap entropy_seed counter child_bus with
              | Some (Ok out, child_bus) => Some (Ok (out, child_bus))
              | Some (Err e, _) => Some (Err e)
              | Some (Panic, _) => Some Panic
              | None => None
              end
          end
      end
  end.

Definition fork_slot_with_child_bus (parent : S) (parent_state : SlotState) (parent_bus : Bus) (parent_entropy : E)
    (machine_config : MachineConfig) (boundary : BoundaryState) (entropy_seed : option bytes) (counter : bool)
    (build_child_bus : S -> option Bus) : option (outcome Error (ForkOutcome E S * Bus)) :=
  fork_slot_with_child_bus_with_lapic parent parent_state parent_bus LocalApic_default parent_entropy machine_config boundary
    entropy_seed counter build_child_bus.
End Fork.

(** ** The fork of [SlotVm] is such a fork *)

(** The bytes of a region; a private mapping starts with its file's. *)
Class RegionBytes (R : Type) := region_page : Z -> R -> outcome Z bytes.
Class RegionBytesOk (R : Type) `{!RamKernel R, !RegionBytes R} : Prop :=
  private_bytes : forall r n r', private_region r n = Ok r' -> forall a, region_page a r' = region_page a r.

Section Discharge.
Context {V R : Type} `{!VmKernel V, !RamKernel R, !RamKernelOk R, !RegionBytes R, !RegionBytesOk R}.
#[local] Instance SlotVm_mem : SlotMem (SlotVm R) := {
  slot_mem_bytes := sv_mem_bytes;
  read_page a s := region_page a (guest_mem s) }.
#[local] Instance SlotVm_fork (sys : KvmSystem) (host : list VmCall * V) : ForkVm (SlotVm R) := fun p =>
  match fork_slot_vm sys p host with Some (o, _) => o | None => Panic end.
Lemma SlotVm_fork_ok sys host : ForkVmOk (SlotVm R) (ForkVm0 := SlotVm_fork sys host).
Proof.
  assert (forall p c, @fork_child _ (SlotVm_fork sys host) p = Ok c -> sv_mem_bytes c = sv_mem_bytes p /\
    forall a, region_page a (guest_mem c) = region_page a (guest_mem p)) as H.
  { intros p c. unfold fork_child, SlotVm_fork. destruct (fork_slot_vm sys p host) as [[o h']|] eqn:Hf; [|done]. intros ->.
    destruct (fork_maps sys p c host h' Hf) as [Hr Hm]. split; [done|]. by eapply private_bytes. }
  constructor.
  - intros p c f Hc Hf i Hi. destruct (H p c Hc) as [Hm Hp]. cbn in *. rewrite Hp. apply Hf. cbn. by rewrite <- Hm.
  - intros p c Hc. apply (H p c Hc).
Qed.
End Discharge.

(** ** A fork is transparent *)

Section ForkOk.
Context {B : Blake3} {X : AnyChannel} {M E K S : Type}.
Context `{!Snapstore K, !DetEntropy E, !Vcpu S, !VcpuGets S, !VcpuSets S, !TscClock S, !SlotMem S, !SlotRam S M}.
Context `{!ForkVm S, !ForkVmOk S}.
Local Notation Bus := (list (Z * BoxDev M E)).

(** C22: a fork is transparent.  Forking a frozen parent at a boundary gives a
    child with the parent's RAM, every device holding the parent's section, the
    clock continued from the boundary, exactly the parent's vCPU written, the
    parent's icount, time, epoch, hash chain and APIC, and the parent's
    generator unless a nonzero seed asks for a fresh one; a parent that is not
    frozen, or whose agenda is not empty, is refused before anything is built. *)
Theorem fork_transparent (p c : S) state (bus child_bus : Bus) lapic entropy mc b seed counter st img f s2 :
  capture_typed p bus lapic entropy mc b ->
  build_dhsnap_with_lapic (K := K) p bus lapic entropy mc b = Ok img ->
  fork_child p = Ok c -> ram_is p f -> capture p = Ok st ->
  Forall2 (fun e0 e => peer e0.2 e.2) child_bus bus ->
  kernel_takes st (bs_vns b) counter c s2 ->
  if bs_agenda_empty b && bool_decide (state = Frozen) then
    exists bus1 : Bus, ram_is c f /\
      fork_slot_with_lapic (K := K) p state bus lapic entropy mc b seed counter child_bus =
        Some (Ok (mkForkOutcome s2 (mkApplied (bs_icount b) (bs_vns b) (bs_epoch_index b) (bs_hash_chain b)
                (reseed seed (entropy_restore (entropy_state entropy))) lapic)), bus1) /\
      bus1.*1 = child_bus.*1 /\ Forall2 (fun e e1 => restored (bs_vns b) e.2 e1.2) bus bus1
  else fork_slot_with_lapic (K := K) p state bus lapic entropy mc b seed counter child_bus =
    Some (Err (if bs_agenda_empty b then ParentNotFrozen state else ForkAgendaNotEmpty), child_bus).
Proof.
  intros Ht Hb Hf Hram Hst HF (s' & Hv & Hreset). unfold fork_slot_with_lapic, prepare_parent_dhsnap.
  destruct (bs_agenda_empty b); [|done]. case_bool_decide as Hs; cbn [andb negb]; [|done].
  destruct (dhsnap_applies p bus lapic entropy mc b img (mkMachine c child_bus None) counter st s' s2 Ht Hb HF Hst Hv Hreset)
    as (bus1 & Ha & Hbase & HR).
  exists bus1. split; [by eapply fork_ram|]. split; [|done].
  etrans; [apply prog_bind_ok, of_outcome_ok, err_map_ok, Hb|]. etrans; [apply prog_bind_ok, of_outcome_ok, err_map_ok, Hf|].
  unfold finish_fork. by rewrite Ha.
Qed.
End ForkOk.
