(* ===== verification/SnapshotExample.v ===== *)
(** * A snapshot of a small machine

    A slot of two pages, a bus with the clock, the entropy device and the pad,
    and a store that keeps its snapshots in a list: the theorems of
    [SnapshotOk] and [SnapshotStore] at work. *)

From Stdlib Require Import String.
From S2P Require Import Prelude Vt DhSnap DhSnapSections SlotState Lapic DevCtx Devices DevicesOk Bus Dirty Config Msr Kvm ReprC VcpuState StateHash Boundary RunCtl Recording Snapshot Restore SnapshotOk SnapshotStore SnapshotCompare Fork.

Module SnapExample.
(** A digest that is enough for an example. *)
Definition sum_hash : Blake3 := fun b => le_bytes 32 (foldl Z.add 0 b).
#[local] Existing Instances sum_hash no_channel.

(** ** The slot *)

Record Slot := mkSlot { sl_regs : kvm_regs; sl_ram : Z -> bytes }.

#[export] Instance Slot_vcpu : Vcpu Slot := {
  kvm_run s := (Exited Hlt, s);
  kvm_get_regs s := Ok (sl_regs s);
  kvm_set_guest_debug _ s := (Ok tt, s);
  kvm_get_vcpu_events _ := Ok (zeroed r_events);
  kvm_interrupt _ s := (Ok tt, s);
  set_kvm_immediate_exit _ s := s;
  ready_for_interrupt_injection _ := 1;
  if_flag _ := 1;
  perf_read _ := Ok (replicate 24 0);
  perf_ioctl _ s := (Ok tt, s) }.
#[export] Instance Slot_gets : VcpuGets Slot := {
  kvm_cap_xsave2 _ := 4096;
  kvm_get_sregs _ := Ok (zeroed r_sregs);
  kvm_get_fpu _ := Ok (zeroed r_fpu);
  kvm_get_xsave _ := Ok (replicate #1024 0);
  kvm_get_xcrs _ := Ok (zeroed r_xcrs);
  kvm_get_msrs l s := Ok ((fun i => mkMsr i 7) <$> l);
  kvm_get_debug_regs _ := Ok (zeroed r_debugregs);
  component_layout _ := [] }.
#[export] Instance Slot_sets : VcpuSets Slot := {
  kvm_set_sregs _ s := (Ok tt, s);
  kvm_set_regs r s := (Ok tt, mkSlot r (sl_ram s));
  kvm_set_fpu _ s := (Ok tt, s);
  kvm_set_xcrs _ s := (Ok tt, s);
  kvm_set_xsave _ s := (Ok tt, s);
  kvm_set_debug_regs _ s := (Ok tt, s);
  kvm_set_vcpu_events _ s := (Ok tt, s);
  kvm_set_msrs l s := (Ok (length l), s) }.
#[export] Instance Slot_tsc : TscClock Slot := {
  rdtsc s := (12345, s);
  kvm_set_tsc_offset _ s := (Ok tt, s) }.
Definition page_of (b : bytes) : bytes := take #4096 (b ++ replicate #4096 0).
#[export] Instance Slot_mem : SlotMem Slot := {
  slot_mem_bytes _ := 8192;
  read_page a s := Ok (page_of (sl_ram s (a / 4096))) }.
#[export] Instance Slot_ram : SlotRam Slot VecGuestMem := {
  slot_ram s := sl_ram s 0 ++ sl_ram s 1;
  write_slice b a s := (Ok tt, mkSlot (sl_regs s) (fun i => if i =? a / 4096 then b else sl_ram s i)) }.

Lemma page_at i : i * DIRTY_PAGE_SIZE / 4096 = i.
Proof. by apply Z.div_mul. Qed.
Lemma whole_page (b : bytes) : Z.of_nat (length b) = DIRTY_PAGE_SIZE -> page_of b = b.
Proof. intros H. unfold page_of. rewrite take_app_le, take_ge; unfold DIRTY_PAGE_SIZE in H; lia || done. Qed.
#[export] Instance Slot_ram_ok : SlotRamOk Slot VecGuestMem.
Proof.
  split.
  - intros i s page [= <-]. unfold page_of. rewrite length_take, length_app, length_replicate. unfold DIRTY_PAGE_SIZE. lia.
  - intros i b s _ Hb. eexists. split; [reflexivity|]. split; [done|]. cbn [read_page Slot_mem sl_ram].
    rewrite page_at, Z.eqb_refl. split; [by rewrite whole_page|]. intros j Hj. rewrite page_at.
    by rewrite (proj2 (Z.eqb_neq _ _) Hj).
Qed.

(** ** The store *)

Definition Store : Type := list (Z * (Z -> bytes) * DeviceBlob).
Definition store_page (pages : list (Z * bytes)) (below : Z -> bytes) : Z -> bytes := overlay below pages.
Definition container_of (n : Z) (b : DeviceBlob) : bytes :=
  n :: blob_format b :: (if blob_zstd b then 1 else 0) :: blob_raw_len b :: blob_bytes b.
Definition find_ref (r : bytes) (k : Store) : option (Z * (Z -> bytes) * DeviceBlob) :=
  match r with i :: _ => if i <? 0 then None else k !! Z.to_nat i | [] => None end.
(** The next reference: the snapshot's place, in 32 bytes. *)
Definition next_ref (k : Store) : bytes := Z.of_nat (length k) :: replicate 31 0.

#[export] Instance Store_ops : Snapstore Store := {
  StoreError := unit;
  get_snapshot r k := match find_ref r k with Some (n, _, b) => Ok (container_of n b) | None => Err tt end;
  Manifest_decode c :=
    match c with n :: f :: z :: l :: b => Ok (mkManifest n (mkDeviceBlob f (z =? 1) l b)) | _ => Err tt end;
  resolve_pages r baseline hashes_only k :=
    match find_ref r k, baseline with
    | Some (n, f, _), None =>
        Ok ((fun i => (i, blake3 (f i), if hashes_only then None else Some (f i))) <$> seqZ 0 (page_count n))
    | _, _ => Err tt
    end;
  put_snapshot_from_parts parent n pages b k :=
    match parent with
    | None => (Ok (next_ref k), k ++ [(n, store_page pages (fun _ => []), b)])
    | Some p =>
        match find_ref p k with
        | Some (_, f, _) => (Ok (next_ref k), k ++ [(n, store_page pages f, b)])
        | None => (Err tt, k)
        end
    end }.

Definition stored (k : Store) (r : bytes) (n : Z) (f : Z -> bytes) (b : DeviceBlob) : Prop :=
  exists g, find_ref r k = Some (n, g, b) /\ forall i, 0 <= i < page_count n -> g i = f i.

Lemma find_new (k : Store) x : find_ref (next_ref k) (k ++ [x]) = Some x.
Proof.
  unfold find_ref, next_ref. destruct (Z.ltb_spec (Z.of_nat (length k)) 0); [lia|]. rewrite Nat2Z.id. by apply list_lookup_middle.
Qed.
#[export] Instance Store_ok : SnapstoreOk Store stored.
Proof.
  split.
  - intros k r k' n f b [= <- <-]. eexists. split; [apply find_new|]. intros i Hi. unfold store_page, overlay.
    rewrite (last_of_elem i (f i)); [done| |].
    + rewrite <- list_fmap_compose. cbn. rewrite list_fmap_id. apply NoDup_seqZ.
    + apply list_elem_of_fmap. exists i. split; [done|]. apply elem_of_seqZ. lia.
  - intros k p n f b0 pages b r k' (g & Hg & Hf) _ _. cbn. rewrite Hg. intros [= <- <-]. eexists.
    split; [apply find_new|]. intros i Hi. unfold store_page, overlay. by rewrite Hf.
  - intros k r n f b (g & Hg & _). cbn. rewrite Hg. eexists. split; [reflexivity|].
    destruct b as [fm z l bs]. cbn. by destruct z.
  - intros k r n f b h (g & Hg & Hf). cbn [resolve_pages Store_ops]. rewrite Hg. eexists. split; [reflexivity|].
    apply reflexive_eq, list_fmap_ext. intros j i Hi%lookup_seqZ. destruct h; rewrite Hf by lia; done.
Qed.

(** ** The machine *)

#[export] Instance ex_prng : DetEntropy EntropyState := {
  entropy_from_seed seed := mkEntropyState seed 0 0;
  entropy_state e := e;
  entropy_restore e := e }.
#[export] Instance ex_fill : EntropySource EntropyState := fun e n => (replicate n 0, e).

Definition clock_box (c : Clock.PvClock) : BoxDev VecGuestMem EntropyState := mkBox _ Clock.PvClock_device (Some AnyClock) c.
Definition entropy_box (d : Entropy.PvEntropy) : BoxDev VecGuestMem EntropyState := mkBox _ Entropy.PvEntropy_device None d.
Definition pad_box (d : Pad.PvPad) : BoxDev VecGuestMem EntropyState := mkBox _ Pad.PvPad_device (Some AnyPad) d.

Definition ex_bus : list (Z * BoxDev VecGuestMem EntropyState) :=
  [(0xD0000000, pad_box (Pad.mkPvPad [1; 2; 3; 4] 33 9)); (0xD0001000, clock_box (Clock.mkPvClock 1 2 5 700 48));
   (0xD0002000, entropy_box (Entropy.mkPvEntropy 4096 64 1))].
Definition fresh_bus : list (Z * BoxDev VecGuestMem EntropyState) :=
  [(0xD0000000, pad_box Pad.PvPad_new); (0xD0001000, clock_box (Clock.PvClock_new 1 2));
   (0xD0002000, entropy_box Entropy.PvEntropy_new)].

Definition ex_regs : kvm_regs := mkRegs 1 2 3 4 5 6 7 8 9 10 11 12 13 14 15 16 4096 2.
Definition ex_ram (i : Z) : bytes := replicate #4096 (i mod 256).
Definition ex_slot : Slot := mkSlot ex_regs ex_ram.
Definition ex_boundary : BoundaryState := mkBoundaryState 1000 2000 3 (replicate 32 5) true.
Definition ex_entropy : EntropyState := mkEntropyState (replicate 32 9) 1 77.
Definition ex_vcpu : VcpuState :=
  mkVcpuState ex_regs (zeroed r_sregs) (zeroed r_fpu) (replicate #4096 0) (zeroed r_xcrs)
    ((fun i => mkMsr i 7) <$> RESTORE_MSR_LIST) (zeroed r_events) (zeroed r_debugregs).

Lemma ex_capture : capture ex_slot = Ok ex_vcpu.
Proof. vm_compute. reflexivity. Qed.
Lemma ex_vcpu_fits : state_fits ex_vcpu.
Proof.
  refine (conj _ (conj (zeroed_fits r_sregs) (conj (zeroed_fits r_fpu) (conj _
    (conj (zeroed_fits r_xcrs) (conj _ (conj _ (conj (zeroed_fits r_events) (zeroed_fits r_debugregs))))))))).
  - assert (of_bytes r_regs (to_bytes r_regs ex_regs) = ex_regs) as H by (vm_compute; reflexivity).
    cbn [vs_regs ex_vcpu]. rewrite <- H. apply to_of; [vm_compute; reflexivity|by apply bytes_okb_ok; vm_compute].
  - split; [apply length_replicate|apply bytes_ok_replicate; unfold u8; lia].
  - reflexivity.
  - apply Forall_fmap, Forall_true. intros e. unfold u64. cbn. lia.
Qed.

Lemma ex_typed : capture_typed ex_slot ex_bus LocalApic_default ex_entropy example_config ex_boundary.
Proof.
  split.
  - apply example_config_typed.
  - intros st H. rewrite ex_capture in H. injection H as <-. apply ex_vcpu_fits.
  - apply lapic_default_ok.
  - split_and!; try (cbn; ulia). by apply replicate_array; ulia.
  - split_and!; try (cbn; ulia). by apply replicate_array; ulia.
  - repeat apply List.Forall_cons; try apply List.Forall_nil; cbn [snd]; split;
      first [by apply bytes_okb_ok; vm_compute | split; by vm_compute].
Qed.

Lemma pads_ok l v n : (length l = 4)%nat -> Forall u32 l -> u32 v -> u32 n -> PadOk.wf (Pad.mkPvPad l v n).
Proof. done. Qed.
Lemma ex_peers : Forall2 (fun e0 e => peer e0.2 e.2) fresh_bus ex_bus.
Proof.
  assert (forall a b c d, u32 a -> u32 b -> u32 c -> u32 d -> Forall u32 [a; b; c; d]) as HF.
  { intros. repeat first [apply Forall_nil_2 | apply Forall_cons_2]; done. }
  repeat apply Forall2_cons_2; try apply Forall2_nil_2; cbn [snd].
  - apply peer_device with (wf := PadOk.wf); [apply PadOk.PvPad_ok|..]; try done; apply pads_ok; try done; apply HF; ulia.
  - apply peer_clock; unfold ClockOk.wf; cbn; split_and!; done || ulia.
  - apply peer_device with (wf := EntropyOk.wf); [apply EntropyOk.PvEntropy_ok|..]; try done; unfold EntropyOk.wf; cbn; split_and!; ulia.
Qed.

(** ** A container *)

Definition is_ok {F A} (o : outcome F A) : bool := match o with Ok _ => true | _ => false end.
Lemma is_ok_value {F A} (o : outcome F A) : is_ok o = true -> exists a, o = Ok a.
Proof. destruct o; try done. eauto. Qed.

Lemma ex_builds : exists img,
  build_dhsnap_with_lapic (K := Store) ex_slot ex_bus LocalApic_default ex_entropy example_config ex_boundary = Ok img.
Proof. apply is_ok_value. vm_compute. reflexivity. Qed.

Lemma dhsnap_layout_independent_witness : exists img,
  build_dhsnap_with_lapic (K := Store) ex_slot ex_bus LocalApic_default ex_entropy example_config ex_boundary = Ok img /\
  build_dhsnap_with_lapic (K := Store) ex_slot (rev ex_bus) LocalApic_default ex_entropy example_config ex_boundary = Ok img.
Proof.
  destruct ex_builds as [img H]. exists img. split; [exact H|].
  apply (dhsnap_layout_independent ex_slot ex_bus (rev ex_bus) LocalApic_default ex_entropy example_config ex_boundary img
    ex_typed); [apply Permutation_rev|exact H].
Defined.

(** ** A full snapshot, restored *)

Definition ex_drain : Drain ToyRing :=
  mkDrain (mkDirtyRing 0 4) (DirtyPageSet_new 8192) (mkToyRing (replicate 4 (mkGfn 0 0 0)) 0 0).
#[local] Existing Instance ToyRing_kernel.
Definition ex_machine : Machine VecGuestMem EntropyState Slot :=
  mkMachine (mkSlot (zeroed r_regs) (fun _ => [])) fresh_bus (Some (DirtyPageSet_new 8192)).

Local Notation take_from k d source := (take_snapshot_with_lapic 5 ex_slot SlotState.Paused ex_bus LocalApic_default
  ex_entropy example_config ex_boundary source (k, d)).

Definition took {F A T} (r : option (outcome F A * T)) : bool := match r with Some (Ok _, _) => true | _ => false end.
Lemma took_value {F A T} (r : option (outcome F A * T)) : took r = true -> exists a x, r = Some (Ok a, x).
Proof. destruct r as [[[a| |] x]|]; try done. eauto. Qed.

Lemma ex_ram_is s : sl_ram s = ex_ram -> ram_is s ex_ram.
Proof.
  intros H i _. cbn [read_page Slot_mem]. rewrite H, page_at, whole_page; [done|]. unfold ex_ram. by rewrite length_replicate.
Qed.
Lemma ex_kernel s : exists s2, kernel_takes ex_vcpu 2000 true s s2.
Proof.
  assert (length (vs_xsave ex_vcpu) = XSAVE_AREA_LEN) as Hl by (apply length_replicate).
  eexists. eexists. split; [|reflexivity]. unfold vcpu_restore. rewrite Hl, Nat.eqb_refl. cbn [negb].
  unfold mbind, prog_bind, kvm_set, map_err, io. cbn [kvm_set_sregs kvm_set_regs kvm_set_fpu kvm_set_xcrs kvm_set_xsave
    kvm_set_debug_regs kvm_set_vcpu_events kvm_set_msrs Slot_sets err_map].
  by rewrite Nat.eqb_refl.
Qed.

Lemma snapshot_restores_witness : exists tk (k' : Store) (d' : Drain ToyRing),
  take_from ([] : Store) ex_drain FullPages = Some (Ok tk, (k', d')) /\
  exists s1 s2 (bus1 : list (Z * BoxDev VecGuestMem EntropyState)), ram_is s1 ex_ram /\ kernel_takes ex_vcpu 2000 true s1 s2 /\
    restore_snapshot SlotState.Paused example_config (tk_snapshot_ref tk) true k' ex_machine =
      Some (Ok (mkRestored 2 2 RestoreFull (mkApplied 1000 2000 3 (replicate 32 5) ex_entropy LocalApic_default)),
            mkMachine s2 bus1 (Some (dirty_clear (DirtyPageSet_new 8192)))) /\
    bus1.*1 = fresh_bus.*1 /\ Forall2 (fun e e1 => restored 2000 e.2 e1.2) ex_bus bus1 /\
    tk_pages_shipped tk = 2 /\ tk_hash_chain tk = replicate 32 5.
Proof.
  destruct (took_value (take_from ([] : Store) ex_drain FullPages)) as (tk & [k' d'] & H); [vm_compute; reflexivity|].
  exists tk, k', d'. split; [exact H|].
  apply (snapshot_restores (stored := stored) 5 ex_slot ex_bus SlotState.Paused LocalApic_default ex_entropy example_config
    ex_boundary [] k' ex_drain d' tk ex_ram ex_vcpu ex_machine true ex_typed H);
    [by apply ex_ram_is|done|reflexivity|apply ex_capture|reflexivity|apply ex_peers|intros; apply ex_kernel].
Defined.

(** ** An incremental snapshot *)

(** The parent holds page 1 as it was before the guest wrote it. *)
Definition old_ram (i : Z) : bytes := if i =? 1 then replicate #4096 0 else ex_ram i.
Definition old_blob : DeviceBlob := mkDeviceBlob 0 false 0 [].
Definition parent_store : Store := [(8192, old_ram, old_blob)].
Definition written_ring : Drain ToyRing :=
  mkDrain (mkDirtyRing 0 4) (DirtyPageSet_new 8192)
    (mkToyRing [mkGfn 1 0 1; mkGfn 0 0 0; mkGfn 0 0 0; mkGfn 0 0 0] 0 1).
Definition harvested_ring : Drain ToyRing :=
  mkDrain (mkDirtyRing 1 4) (mkDirtyPageSet [2] 2 1) (mkToyRing (replicate 4 (mkGfn 0 0 0)) 1 1).

Lemma written_page_hash : blake3 (ex_ram 1) <> blake3 (old_ram 1).
Proof.
  assert (bool_decide (blake3 (ex_ram 1) = blake3 (old_ram 1)) = false) as Hb by (vm_compute; reflexivity).
  by apply bool_decide_eq_false in Hb.
Qed.
Lemma old_elsewhere i : i <> 1 -> old_ram i = ex_ram i.
Proof. intros Hn. unfold old_ram. rewrite (proj2 (Z.eqb_neq _ _) Hn). reflexivity. Qed.
Lemma old_ram_hash i : blake3 (ex_ram i) = blake3 (old_ram i) -> ex_ram i = old_ram i.
Proof.
  intros H. destruct (decide (i = 1)) as [->|Hn]; [exfalso; exact (written_page_hash H)|]. symmetry. by apply old_elsewhere.
Qed.
Lemma harvested_ok : dirty_ok (d_set harvested_ring).
Proof.
  split; try done. cbn [d_set harvested_ring pages bits]. intros x Hx. unfold marked.
  destruct (Z.to_nat (x / 64)) as [|n] eqn:Hn; [|done]. assert (x < 64) by (clear -Hn Hx; Z.to_euclidean_division_equations; lia).
  rewrite Z.mod_small by lia. apply (Z.bits_above_log2 2); [done|]. change (Z.log2 2) with 1. lia.
Qed.

Lemma incremental_snapshot_exact_witness : exists tk (k' : Store) (d' : Drain ToyRing),
  take_from parent_store written_ring (Incremental [0]) = Some (Ok tk, (k', d')) /\
  (exists f1 blob, stored k' (tk_snapshot_ref tk) 8192 f1 blob /\ forall i, 0 <= i < 2 -> f1 i = ex_ram i) /\
  tk_pages_shipped tk = 1 /\ dirty_iter (d_set d') = [].
Proof.
  destruct (took_value (take_from parent_store written_ring (Incremental [0]))) as (tk & [k' d'] & H); [vm_compute; reflexivity|].
  exists tk, k', d'. split; [exact H|].
  assert (Z.of_nat (length (List.filter (fun i => negb (bool_decide (ex_ram i = old_ram i))) (seqZ 0 2))) = 1) as <-
    by (vm_compute; reflexivity).
  apply (incremental_snapshot_exact (stored := stored) 5 ex_slot SlotState.Paused ex_bus LocalApic_default ex_entropy example_config
    ex_boundary [0] parent_store written_ring harvested_ring (mkHarvestStats 1 1) tk (k', d') old_ram old_blob ex_ram H);
    [vm_compute; reflexivity|apply harvested_ok|reflexivity| |exists old_ram; by split|by apply ex_ram_is| |apply old_ram_hash].
  - repeat apply List.Forall_cons; apply List.Forall_nil.
  - intros i Hi Ht. unfold old_ram. destruct (Z.eqb_spec i 1) as [->|]; [|done]. exfalso. apply Ht. left.
    apply (bool_decide_unpack _). vm_compute. done.
Defined.

(** ** A baseline with other landing knobs *)

Definition tuned_config : MachineConfig :=
  mkConfig (version example_config) (mem_bytes example_config) (vcpus example_config) (clock example_config)
    (base_image_hash example_config) (boot example_config) (epoch_len example_config) (hash_epochs example_config)
    16384 1024 (cpuid_table example_config) (device_set example_config).
Lemma tuned_typed : capture_typed ex_slot ex_bus LocalApic_default ex_entropy tuned_config ex_boundary.
Proof. destruct ex_typed. by constructor. Qed.

Lemma baseline_check_exact_witness : exists img,
  build_dhsnap_with_lapic (K := Store) ex_slot ex_bus LocalApic_default ex_entropy tuned_config ex_boundary = Ok img /\
  check_baseline tuned_config 8192
    [(8192, ex_ram, mkDeviceBlob DEVICE_BLOB_FORMAT_DHSNAP false (Z.of_nat (length img)) img)] (BaselineDelta [0])
  = Err BaselineConfigMismatch.
Proof.
  destruct (is_ok_value (build_dhsnap_with_lapic (K := Store) ex_slot ex_bus LocalApic_default ex_entropy tuned_config ex_boundary))
    as [img H]; [vm_compute; reflexivity|]. exists img. split; [exact H|].
  apply (baseline_check_exact (stored := stored) ex_slot ex_bus LocalApic_default ex_entropy tuned_config ex_boundary img _ [0] 8192
    ex_ram tuned_typed H); [exists ex_ram; by split|]. intros [Hl _]. vm_compute in Hl. discriminate Hl.
Defined.

(** ** Two snapshots that differ in one page *)

#[export] Instance ex_postcard : Postcard := fun l => Ok [Z.of_nat (length l)].
Definition old_slot : Slot := mkSlot ex_regs old_ram.
Lemma old_typed : capture_typed old_slot ex_bus LocalApic_default ex_entropy example_config ex_boundary.
Proof. destruct ex_typed. by constructor. Qed.

Lemma old_capture : capture old_slot = Ok ex_vcpu.
Proof. exact ex_capture. Qed.
Lemma old_builds :
  build_dhsnap_with_lapic (K := Store) old_slot ex_bus LocalApic_default ex_entropy example_config ex_boundary =
  build_dhsnap_with_lapic (K := Store) ex_slot ex_bus LocalApic_default ex_entropy example_config ex_boundary.
Proof. unfold build_dhsnap_with_lapic, dhsnap_sections. by rewrite old_capture, ex_capture. Qed.

Lemma comparison_exact_witness : exists img c,
  build_dhsnap_with_lapic (K := Store) ex_slot ex_bus LocalApic_default ex_entropy example_config ex_boundary = Ok img /\
  compare_snapshots ([(8192, ex_ram, dhsnap_blob img); (8192, old_ram, dhsnap_blob img)] : Store) [0] [1] = Ok c /\
  cmp_rip_expected c = 4096 /\ cmp_reg_diffs c = [] /\ 1 ∈ cmp_diff_page_idx c.
Proof.
  destruct ex_builds as [img H].
  destruct (comparison_exact (stored := stored) [(8192, ex_ram, dhsnap_blob img); (8192, old_ram, dhsnap_blob img)] [0] [1] 8192
    ex_ram old_ram ex_slot old_slot ex_bus ex_bus LocalApic_default LocalApic_default ex_entropy ex_entropy example_config
    example_config ex_boundary ex_boundary img img ex_vcpu ex_vcpu ex_typed old_typed H
    (eq_trans old_builds H) ex_capture old_capture)
    as (c & d & Hc & Hr & _ & Hd & _ & Hp & Hsd & Hi).
  - exists ex_ram; by split.
  - exists old_ram; by split.
  - intros l. by eexists.
  - exists img, c. split; [exact H|]. split; [exact Hc|]. split; [exact Hr|]. split; [apply Hd; split; reflexivity|]. rewrite Hp.
    assert (d = [1]) as ->.
    { assert (forall i, i ∈ d <-> i = 1) as Hall.
      { intros i. rewrite Hi. change (page_count 8192) with 2. split.
        - intros [Hr2 Hne]. destruct (decide (i = 1)) as [|Hn]; [done|]. destruct Hne. rewrite (old_elsewhere i Hn). reflexivity.
        - intros ->. split; [lia|exact written_page_hash]. }
      destruct d as [|x d]; [exfalso; exact (not_elem_of_nil 1 (proj2 (Hall 1) eq_refl))|].
      assert (x = 1) as -> by (apply Hall; left). destruct d as [|y d]; [done|].
      assert (y = 1) as -> by (apply Hall; right; left). apply sorted_lt_NoDup in Hsd. apply NoDup_cons in Hsd as [Hn _].
      destruct Hn. left. }
    left.
Defined.

(** ** A fork *)

#[export] Instance Slot_fork : ForkVm Slot := fun p => Ok p.
#[export] Instance Slot_fork_ok : ForkVmOk Slot.
Proof. constructor; [by intros p c f [= <-]|by intros p c [= <-]]. Qed.

Lemma fork_transparent_witness : exists s2 (bus1 : list (Z * BoxDev VecGuestMem EntropyState)),
  ram_is ex_slot ex_ram /\
  fork_slot_with_lapic (K := Store) ex_slot SlotState.Frozen ex_bus LocalApic_default ex_entropy example_config ex_boundary
    (Some (replicate 32 0)) true fresh_bus =
    Some (Ok (mkForkOutcome s2 (mkApplied 1000 2000 3 (replicate 32 5) ex_entropy LocalApic_default)), bus1) /\
  bus1.*1 = fresh_bus.*1 /\ Forall2 (fun e e1 => restored 2000 e.2 e1.2) ex_bus bus1.
Proof.
  destruct ex_builds as [img H]. destruct (ex_kernel ex_slot) as [s2 Hk]. exists s2.
  exact (fork_transparent ex_slot ex_slot SlotState.Frozen ex_bus fresh_bus LocalApic_default ex_entropy example_config
    ex_boundary (Some (replicate 32 0)) true ex_vcpu img ex_ram s2 ex_typed H eq_refl (ex_ram_is ex_slot eq_refl) ex_capture
    ex_peers Hk).
Defined.
End SnapExample.
