(* ===== verification/BootExample.v ===== *)
(** * Two boots

    A slot of 4 MiB boots a small ELF image and a small bzImage: the theorems of
    [LinuxPlanOk] and [BootOk] at work. *)

From Stdlib Require Import String.
From S2P Require Import Prelude Msr Kvm ReprC VcpuState StateHash Restore DevCtx Bzimage BzimageOk LinuxPlan LinuxPlanOk Boot BootOk SnapshotExample.
Import Linux Boot SnapExample.

Module BootExample.
Record BSlot := mkBSlot { b_size : Z; b_ram : Z -> Z; b_regs : kvm_regs; b_sregs : kvm_sregs }.

#[export] Instance BSlot_vcpu : Vcpu BSlot := {
  kvm_run s := (Exited Hlt, s);
  kvm_get_regs s := Ok (b_regs s);
  kvm_set_guest_debug _ s := (Ok tt, s);
  kvm_get_vcpu_events _ := Ok (zeroed r_events);
  kvm_interrupt _ s := (Ok tt, s);
  set_kvm_immediate_exit _ s := s;
  ready_for_interrupt_injection _ := 1;
  if_flag _ := 1;
  perf_read _ := Ok (replicate 24 0);
  perf_ioctl _ s := (Ok tt, s) }.
#[export] Instance BSlot_gets : VcpuGets BSlot := {
  kvm_cap_xsave2 _ := 4096;
  kvm_get_sregs s := Ok (b_sregs s);
  kvm_get_fpu _ := Ok (zeroed r_fpu);
  kvm_get_xsave _ := Ok (replicate #1024 0);
  kvm_get_xcrs _ := Ok (zeroed r_xcrs);
  kvm_get_msrs l s := Ok ((fun i => mkMsr i 7) <$> l);
  kvm_get_debug_regs _ := Ok (zeroed r_debugregs);
  component_layout _ := [] }.
#[export] Instance BSlot_sets : VcpuSets BSlot := {
  kvm_set_sregs r s := (Ok tt, mkBSlot (b_size s) (b_ram s) (b_regs s) r);
  kvm_set_regs r s := (Ok tt, mkBSlot (b_size s) (b_ram s) r (b_sregs s));
  kvm_set_fpu _ s := (Ok tt, s);
  kvm_set_xcrs _ s := (Ok tt, s);
  kvm_set_xsave _ s := (Ok tt, s);
  kvm_set_debug_regs _ s := (Ok tt, s);
  kvm_set_vcpu_events _ s := (Ok tt, s);
  kvm_set_msrs l s := (Ok (length l), s) }.
#[export] Instance BSlot_filter : MsrFilter BSlot := fun _ s => (Ok tt, s).
#[export] Instance BSlot_mem : SlotMem BSlot := { slot_mem_bytes := b_size; read_page a s := Ok (b_ram s <$> seqZ a 4096) }.
#[export] Instance BSlot_ram : SlotRam BSlot VecGuestMem := {
  slot_ram s := b_ram s <$> seqZ 0 (b_size s);
  write_slice b a s :=
    if (0 <=? a) && (a + Z.of_nat (length b) <=? b_size s) then (Ok tt, mkBSlot (b_size s) (over a b (b_ram s)) (b_regs s) (b_sregs s))
    else (Err 14, s) }.
#[export] Instance BSlot_bytes : SlotBytes BSlot := b_ram.
#[export] Instance BSlot_ok : SlotBytesOk BSlot VecGuestMem.
Proof.
  split.
  - intros b a s s'. cbn [write_slice BSlot_ram]. destruct (_ && _) eqn:H; [|done]. intros [= <-]. cbn. split_and!; try done; lia.
  - by intros r s s' [= <-] i.
  - by intros r s s' [= <-] i.
  - by intros f s s' [= <-] i.
Qed.
Definition blank : BSlot := mkBSlot 0x400000 (fun _ => 0) (zeroed r_regs) (zeroed r_sregs).

(** ** A kernel of sixteen bytes after one setup sector *)

Definition small_bzimage : bytes :=
  foldr (fun w => put w.1 w.2) (replicate #1040 7)
    [(SETUP_SECTS_OFF, [1]); (SETUP_HEADER_LEN_OFF, [0x66]); (HEADER_MAGIC_OFF, HEADER_MAGIC); (PROTOCOL_VERSION_OFF, le_bytes 2 0x20f);
     (LOADFLAGS_OFF, [1]); (XLOADFLAGS_OFF, le_bytes 2 3); (KERNEL_ALIGNMENT_OFF, le_bytes 4 0x200000); (RELOCATABLE_KERNEL_OFF, [1]);
     (PREF_ADDRESS_OFF, le_bytes 8 0x1000000); (PAYLOAD_OFFSET_OFF, le_bytes 4 0); (PAYLOAD_LENGTH_OFF, le_bytes 4 16);
     (INIT_SIZE_OFF, le_bytes 4 0x2001); (HARDWARE_SUBARCH_OFF, le_bytes 4 0); (HARDWARE_SUBARCH_DATA_OFF, le_bytes 8 0);
     (SETUP_DATA_OFF, le_bytes 8 0); (CMDLINE_SIZE_OFF, le_bytes 4 255); (INITRD_ADDR_MAX_OFF, le_bytes 4 0x37ffffff)].
Definition small_initramfs : bytes := [1; 2; 3].
Definition small_cmdline : bytes := [0x71; 0x75; 0x69; 0x65; 0x74].

Lemma small_bzimage_ok : bytes_ok small_bzimage.
Proof. apply bytes_okb_ok. vm_compute. reflexivity. Qed.

Lemma linux_plan_sound_witness : exists header plan,
  parse_bzimage small_bzimage 3 5 0x400000 = Ok header /\ plan_bzimage_boot header 0x400000 3 small_cmdline = Ok plan /\
  plan_ok small_bzimage header 0x400000 3 small_cmdline plan.
Proof.
  destruct (is_ok_value (parse_bzimage small_bzimage 3 5 0x400000)) as [header Hh]; [vm_compute; reflexivity|].
  assert (SnapExample.is_ok (h ← parse_bzimage small_bzimage 3 5 0x400000; err_map (fun _ => PayloadOverflow) (plan_bzimage_boot h 0x400000 3 small_cmdline)) = true) as Hp
    by (vm_compute; reflexivity).
  rewrite Hh in Hp. cbn [mbind outcome_bind] in Hp.
  destruct (plan_bzimage_boot header 0x400000 3 small_cmdline) as [plan| |] eqn:Hpl; [|done..].
  pose proof (linux_plan_sound small_bzimage 0x400000 3 small_cmdline small_bzimage_ok ltac:(done) ltac:(done)) as H. cbv zeta in H.
  change (Z.of_nat (length small_cmdline)) with 5 in H. rewrite Hh in H. cbn [err_map mbind outcome_bind] in H. rewrite Hpl in H.
  exists header, plan. split; [done|]. split; [done|]. apply H.
Defined.

Lemma linux_boot_exact_witness : exists layout (s' : BSlot),
  load_bzimage_and_enter small_bzimage small_initramfs small_cmdline blank = Some (Ok layout, s') /\
  (forall va, 0 <= va < 2 ^ 48 -> page_walk s' PML4_GPA va = identity_map 0x400000 va) /\
  bytes_at s' LINUX_CMDLINE_GPA (small_cmdline ++ [0]).
Proof.
  destruct (took_value (load_bzimage_and_enter small_bzimage small_initramfs small_cmdline blank)) as (layout & s' & H);
    [vm_compute; reflexivity|].
  assert (forall i, PML4_GPA <= i < BOOTINFO_GPA -> byte_at blank i = 0) as Hz by (intros; reflexivity).
  assert (0 <= slot_mem_bytes blank) as Hm by (cbn; lia).
  destruct (linux_boot_exact (M := VecGuestMem) small_bzimage small_initramfs small_cmdline layout blank s' small_bzimage_ok Hm Hz H) as (header & page & sf & sv & _ & _ & _ & Hw & _ & _ & Hc & _).
  exists layout, s'. split; [exact H|]. split; [exact Hw|exact Hc].
Defined.

(** ** An image of one segment, four bytes of file in eight of memory *)

Definition small_elf : bytes :=
  foldr (fun w => put w.1 w.2) (replicate 124 0)
    [(0%nat, [0x7f; 0x45; 0x4c; 0x46; 2; 1]); (16%nat, le_bytes 2 2); (18%nat, le_bytes 2 62); (24%nat, le_bytes 8 0x100000);
     (32%nat, le_bytes 8 64); (54%nat, le_bytes 2 56); (56%nat, le_bytes 2 1); (64%nat, le_bytes 4 1); (72%nat, le_bytes 8 120);
     (80%nat, le_bytes 8 0x100000); (96%nat, le_bytes 8 4); (104%nat, le_bytes 8 8); (120%nat, [0xeb; 0xfe; 0x90; 0x90])].

Lemma elf_boot_exact_witness : exists layout (s' : BSlot), load_and_enter small_elf small_cmdline blank = Some (Ok layout, s') /\
  (forall va, 0 <= va < 2 ^ 48 -> page_walk s' PML4_GPA va = identity_map 0x400000 va) /\
  bytes_at s' BOOTINFO_GPA (bootinfo_page 0x400000 small_cmdline).
Proof.
  destruct (took_value (load_and_enter small_elf small_cmdline blank)) as (layout & s' & H); [vm_compute; reflexivity|].
  assert (bytes_ok small_elf) as Hb by (apply bytes_okb_ok; vm_compute; reflexivity).
  assert (forall i, PML4_GPA <= i < BOOTINFO_GPA -> byte_at blank i = 0) as Hz by (intros; reflexivity).
  assert (0 <= slot_mem_bytes blank <= SlotVm.MMIO_HOLE_BASE) as Hm by (split; cbn; [lia|done]).
  destruct (elf_boot_exact (M := VecGuestMem) small_elf small_cmdline layout blank s' Hb Hm Hz H) as (h & gs & sf & sv & _ & _ & _ & _ & _ & Hw & Hi & _).
  exists layout, s'. split; [exact H|]. split; [exact Hw|exact Hi].
Defined.
End BootExample.
