(* ===== verification/Replay.v ===== *)
(** * Replay against a log: [dh-worker/src/replay_engine.rs], its pure parts

    The fault plan a replay answers queries from, the terminal SDK event a tail
    must see again, and the comparison of the resealed log with the recording.
    A record travels with its decoded body. *)

From Stdlib Require Import String.
From S2P Require Import Prelude DhiLog LogReader Bisect DevCtx Detchannel RunCtl.
Import DetChannel.

Notation logrec := (Rec * RecordBody)%type.

(** The records an iterator yields, each with its body. *)
Fixpoint with_bodies {F} (rs : list Rec) : outcome F (list logrec) :=
  match rs with
  | [] => Ok []
  | r :: rs => b ← infallible (body r); l ← with_bodies rs; Ok ((r, b) :: l)
  end.
Definition log_records {F} (rd : LogReader) : outcome F (list logrec) := rs ← infallible (records rd); with_bodies rs.
Definition log_canonical {F} (rd : LogReader) : outcome F (list logrec) := rs ← infallible (canonical rd); with_bodies rs.
Definition log_aux {F} (rd : LogReader) : outcome F (list logrec) := rs ← infallible (aux rd); with_bodies rs.

Record ReplayDiagnosticDivergence := mkDiagnostic {
  dg_what : string; dg_at_icount : Z; dg_expected : bytes; dg_got : bytes }.

Definition u32_hash (v : Z) : bytes := put 0 (le_bytes 4 v) (replicate 32 0).
Definition u64_hash (v : Z) : bytes := put 0 (le_bytes 8 v) (replicate 32 0).

(** ** The recorded answers *)

Record RecordedInjectAnswer := mkAnswer {
  an_occurrence : Z; an_seq : Z; an_icount : Z; an_boundary_rip : Z; an_value : Z }.
Inductive ReplayInjectPlanSourceError := MalformedPioAnswer (seq : Z).
Inductive ReplayInjectPlanError :=
| Missing (occurrence : Z) (iseq name_id : option Z) (name : option bytes)
| Mismatch (answer : RecordedInjectAnswer) (got_value : Z).

Definition decode_pio_answer (data : bytes) : option (Z * Z) :=
  if negb (length data =? 8)%nat then None else Some (of_le (slice 0 2 data), of_le (slice 4 4 data)).

Definition into_divergence (e : ReplayInjectPlanError) (at_icount : Z) : ReplayDiagnosticDivergence :=
  match e with
  | Missing occurrence iseq name_id name =>
      mkDiagnostic "pio_answer_missing" at_icount (replicate 32 0)
        (u32_hash (Z.lxor (Z.lxor (Z.lxor occurrence (default 0 iseq)) (default 0 name_id)) (if name then 1 else 0)))
  | Mismatch answer got_value =>
      mkDiagnostic "pio_answer_mismatch" at_icount (u32_hash (an_value answer)) (u32_hash got_value)
  end.

Record ReplayInjectFaultPlan := mkReplayPlan {
  rp_answers : list RecordedInjectAnswer;
  rp_cursor : nat;
  rp_last_error : option ReplayInjectPlanError;
  rp_consumed_current_in : option RecordedInjectAnswer }.
Definition replay_plan (answers : list RecordedInjectAnswer) : ReplayInjectFaultPlan := mkReplayPlan answers 0 None None.

Section Plan.
Context {M : Type} `{!GuestSdk M}.

(** [ReplayInjectPlanSource::from_reader]: the loop over the canonical records. *)
Fixpoint inject_answers (occurrence : Z) (rs : list logrec) : outcome ReplayInjectPlanSourceError (list RecordedInjectAnswer) :=
  match rs with
  | [] => Ok []
  | (r, DevEvent device_id event_type data) :: rs =>
      if (device_id =? DEVICE_ID_DETCHANNEL) && (event_type =? EVENT_PIO_ANSWER) then
        pv ← ok_or (MalformedPioAnswer (seq r)) (decode_pio_answer data);
        let '(port, value) := pv : Z * Z in
        if negb (port =? PORT_INJECT) then inject_answers occurrence rs
        else
          l ← inject_answers (Z.min (occurrence + 1) u32_max) rs;
          Ok (mkAnswer occurrence (seq r) (icount r) (boundary_rip r) value :: l)
      else inject_answers occurrence rs
  | _ :: rs => inject_answers occurrence rs
  end.
Definition plan_source_from_reader (rd : LogReader) : outcome ReplayInjectPlanSourceError (list RecordedInjectAnswer) :=
  rs ← log_canonical rd; inject_answers 0 rs.

Definition occurrence_now (p : ReplayInjectFaultPlan) : Z := default u32_max (try_u32 (Z.of_nat (rp_cursor p))).

Definition consume_expected (iseq name_id : option Z) (name : option bytes) :
    method ReplayInjectFaultPlan ReplayInjectPlanError RecordedInjectAnswer := fun p =>
  match rp_answers p !! rp_cursor p with
  | None => (Err (Missing (occurrence_now p) iseq name_id name), p)
  | Some answer => (Ok answer, mkReplayPlan (rp_answers p) (S (rp_cursor p)) (rp_last_error p) (rp_consumed_current_in p))
  end.

Definition validate_answer (answer : RecordedInjectAnswer) (got_value : Z) : option ReplayInjectPlanError :=
  if negb (got_value =? an_value answer) then Some (Mismatch answer got_value) else None.

Definition set_last_error (e : option ReplayInjectPlanError) (p : ReplayInjectFaultPlan) : ReplayInjectFaultPlan :=
  mkReplayPlan (rp_answers p) (rp_cursor p) e (rp_consumed_current_in p).
Definition set_consumed (a : option RecordedInjectAnswer) (p : ReplayInjectFaultPlan) : ReplayInjectFaultPlan :=
  mkReplayPlan (rp_answers p) (rp_cursor p) (rp_last_error p) a.

Definition finish_inject_in (got_value : Z) (p : ReplayInjectFaultPlan) : option ReplayInjectPlanError * ReplayInjectFaultPlan :=
  let consumed := rp_consumed_current_in p in
  let p := set_consumed None p in
  match rp_last_error p with
  | Some error => (Some error, set_last_error None p)
  | None =>
      match consumed with
      | Some answer => (validate_answer answer got_value, p)
      | None =>
          match consume_expected None None None p with
          | (Ok answer, p) => (validate_answer answer got_value, p)
          | (Err error, p) => (Some error, p)
          | (Panic, p) => (None, p)
          end
      end
  end.

Definition unconsumed_error (p : ReplayInjectFaultPlan) : option ReplayInjectPlanError :=
  if (rp_cursor p <? length (rp_answers p))%nat then Some (Missing (occurrence_now p) None None None) else None.

#[export] Instance ReplayInjectFaultPlan_plan : FaultPlan M ReplayInjectFaultPlan := fun iseq name_id name p =>
  match consume_expected (Some iseq) (Some name_id) name p with
  | (Ok answer, p) =>
      let p := set_consumed (Some answer) p in
      let decision := unpack (an_value answer) in
      match validate_answer answer (pack decision) with
      | Some error => (decision, set_last_error (Some error) p)
      | None => (decision, p)
      end
  | (Err error, p) => (Proceed, set_last_error (Some error) p)
  | (Panic, p) => (Proceed, p)
  end.

(** [replay_detchannel_device]: its plan factory always starts the same source. *)
#[export] Instance replay_factory : PlanFactory (list RecordedInjectAnswer) ReplayInjectFaultPlan :=
  fun source => (replay_plan source, source).
Definition replay_detchannel_device (source : list RecordedInjectAnswer) :
    DetChannelDevice M ReplayInjectFaultPlan (list RecordedInjectAnswer) :=
  DetChannelDevice_new (replay_plan source) source.
End Plan.

(** ** The terminal SDK event *)

Record ReplaySdkEvent := mkSdkEvent { se_stream : Z; se_len : Z; se_digest8 : Z }.
#[export] Instance ReplaySdkEvent_eq_dec : EqDecision ReplaySdkEvent.
Proof. solve_decision. Defined.
Record ReplaySdkEventTarget := mkTarget { tg_icount : Z; tg_event : ReplaySdkEvent }.

Definition replay_sdk_event {B : Blake3} {M} `{!GuestSdk M} (ev : GuestEvent Region) : option ReplaySdkEvent :=
  k ← stream_guest_event_payload ev;
  len ← try_u32 (Z.of_nat (length k.2));
  Some (mkSdkEvent k.1 len (digest8 k.2)).

Definition terminal_sdk_finish_tail_matches_recording (finish_reason : StopReason) (finish_icount observed end_icount : Z)
    (expected_reason : StopReason) : bool :=
  if bool_decide (finish_reason = BudgetReached) && (finish_icount =? end_icount) then true
  else bool_decide (expected_reason = BudgetReached) && bool_decide (finish_reason = GuestHalted) &&
       ((observed <=? finish_icount) && (finish_icount <=? end_icount)).

Definition note_terminal_sdk_target_observed (observed : option Z) (icount : Z) : option Z :=
  Some (match observed with Some previous => Z.min previous icount | None => icount end).

Definition terminal_sdk_recorded_end_hash_substitution_allowed (tail : option SegmentOutcome) (observed : option Z)
    (end_icount : Z) (expected_reason : StopReason) : bool :=
  match tail, observed with
  | Some out, Some observed_icount =>
      bool_decide (expected_reason = BudgetReached) && bool_decide (reason out = GuestHalted) &&
      ((observed_icount <=? Boundary.b_icount (boundary out)) && (Boundary.b_icount (boundary out) <? end_icount))
  | _, _ => false
  end.

Definition stop_reason_from_u8 (b : Z) : option StopReason :=
  if b =? 1 then Some BudgetReached
  else if b =? 2 then Some GoalSatisfied
  else if b =? 3 then Some NextSdkEvent
  else if b =? 4 then Some HardCapReached
  else if b =? 5 then Some Paused
  else if b =? 6 then Some GuestHalted
  else None.

Definition sdk_events_of (rs : list logrec) : list (Z * ReplaySdkEvent) :=
  omap (fun '(r, b) => match b with SdkEvent stream len d => Some (icount r, mkSdkEvent stream len d) | _ => None end) rs.
(** The last event at the end of the segment. *)
Definition terminal_sdk_target_for_tail (rs : list logrec) (end_icount : Z) : option ReplaySdkEventTarget :=
  e ← last (List.filter (fun e => e.1 =? end_icount) (sdk_events_of rs));
  Some (mkTarget e.1 e.2).

(** ** The resealed log against the recording *)

Record ComparableReplayHeader := mkComparableHeader {
  ch_version : Z; ch_flags_without_has_aux : Z; ch_base_snapshot_id : bytes; ch_end_snapshot_id : bytes;
  ch_entropy_seed : bytes; ch_machine_config_hash : bytes; ch_clock_num : Z; ch_clock_den : Z; ch_end_icount : Z;
  ch_end_vns : Z; ch_end_state_hash : bytes; ch_encoder_fingerprint : Z }.
#[export] Instance ComparableReplayHeader_eq_dec : EqDecision ComparableReplayHeader.
Proof. solve_decision. Defined.
Record ComparableReplayRecord := mkComparable {
  cr_kind : Z; cr_rflags : Z; cr_icount : Z; cr_boundary_rip : Z; cr_payload : bytes }.
#[export] Instance ComparableReplayRecord_eq_dec : EqDecision ComparableReplayRecord.
Proof. solve_decision. Defined.

Definition comparable_replay_header (h : Header) : ComparableReplayHeader :=
  mkComparableHeader (h_version h) (Z.land (h_flags h) (Z.lnot FLAG_HAS_AUX)) (h_base_snapshot_id h) (h_end_snapshot_id h)
    (h_entropy_seed h) (h_machine_config_hash h) (h_clock_num h) (h_clock_den h) (h_end_icount h) (h_end_vns h)
    (h_end_state_hash h) (h_encoder_fingerprint h).

Definition is_bisection_checkpoint (b : RecordBody) : bool :=
  match b with BisectionCheckpoint _ _ _ _ _ _ => true | _ => false end.
Definition has_bisection_checkpoint (rs : list logrec) : bool := existsb (fun rb => is_bisection_checkpoint rb.2) rs.

Definition detchannel_exit_generated_event (device_id event_type : Z) : bool :=
  (device_id =? DEVICE_ID_DETCHANNEL) &&
  ((event_type =? EVENT_PIO_ANSWER) || (event_type =? EVENT_RING_PUSH) || (event_type =? EVENT_CONS_BUMP)).
Definition generated (b : RecordBody) : bool :=
  match b with
  | SdkEvent _ _ _ => true
  | DevEvent device_id event_type _ => detchannel_exit_generated_event device_id event_type
  | _ => false
  end.

Definition comparable_record (normalize : bool) (rb : logrec) : ComparableReplayRecord :=
  let '(r, b) := rb in
  let normalize_position := normalize && generated b in
  mkComparable (kind r) (rflags r) (if normalize_position then 0 else icount r)
    (if normalize_position then 0 else boundary_rip r) (payload r).
Definition without_checkpoints (rs : list logrec) : list logrec :=
  List.filter (fun rb => negb (is_bisection_checkpoint rb.2)) rs.
Definition comparable_replay_records_with_options (rs : list logrec) (normalize : bool) : list ComparableReplayRecord :=
  comparable_record normalize <$> without_checkpoints rs.
Definition comparable_replay_records (rs : list logrec) : list ComparableReplayRecord :=
  comparable_replay_records_with_options rs false.

Section Reseal.
Context {B : Blake3}.

Definition reseal_equivalent_ignoring_bisection_checkpoints (resealed : bytes) (recorded : LogReader) : outcome ReadError bool :=
  replayed ← LogReader_parse resealed;
  if negb (bool_decide (comparable_replay_header (rd_header replayed) = comparable_replay_header (rd_header recorded))) then Ok false
  else
    rs1 ← log_records replayed;
    rs2 ← log_records recorded;
    let same := bool_decide (comparable_replay_records rs1 = comparable_replay_records rs2) in
    if (has_bisection_checkpoint rs2 || has_bisection_checkpoint rs1) && same then Ok true
    else Ok (negb same &&
      bool_decide (comparable_replay_records_with_options rs1 true = comparable_replay_records_with_options rs2 true)).

Definition record_hash (r : Rec) : bytes :=
  blake3 ([kind r] ++ [rflags r] ++ le_bytes 8 (icount r) ++ le_bytes 8 (boundary_rip r) ++ payload r).
Definition record_pair_hash (r : option logrec) : bytes :=
  match r with Some (r, _) => record_hash r | None => replicate 32 0 end.
Definition detchannel_record_event_type (b : RecordBody) : option Z :=
  match b with
  | DevEvent device_id event_type _ => if device_id =? DEVICE_ID_DETCHANNEL then Some event_type else None
  | _ => None
  end.

Definition normalized_generated_record_equal (left right : logrec) : bool :=
  let '(l, lb) := left in
  let '(r, rb) := right in
  if negb (kind l =? kind r) || negb (rflags l =? rflags r) then false
  else if negb (bool_decide (payload l = payload r)) then false
  else
    let normalize_position :=
      match lb, rb with
      | SdkEvent _ _ _, SdkEvent _ _ _ => true
      | DevEvent device_id event_type _, DevEvent right_device_id right_event_type _ =>
          (device_id =? right_device_id) && (event_type =? right_event_type) &&
          detchannel_exit_generated_event device_id event_type
      | _, _ => false
      end in
    normalize_position || ((icount l =? icount r) && (boundary_rip l =? boundary_rip r)).

Definition is_event (o : option logrec) (event_type : Z) : bool :=
  bool_decide ((rb ← o; detchannel_record_event_type rb.2) = Some event_type).
Definition is_canonical (o : option logrec) : bool := match o with Some (r, _) => negb (is_aux r) | None => false end.

Definition classify_reseal_record_drift (index : nat) (expected got : option logrec) : option ReplayDiagnosticDivergence :=
  if match expected, got with Some e, Some g => normalized_generated_record_equal e g | _, _ => false end then None
  else
    let at_icount := match expected, got with
                     | Some (r, _), _ | None, Some (r, _) => icount r
                     | None, None => Z.of_nat index
                     end in
    let report what := Some (mkDiagnostic what at_icount (record_pair_hash expected) (record_pair_hash got)) in
    if is_event expected EVENT_PIO_ANSWER || is_event got EVENT_PIO_ANSWER then report "pio_answer_mismatch"%string
    else if is_event expected EVENT_CONS_BUMP || is_event got EVENT_CONS_BUMP then report "channel_mutation_drift"%string
    else if is_canonical expected || is_canonical got then report "skipped_input"%string
    else None.

Fixpoint first_drift (index n : nat) (recorded replayed : list logrec) : option ReplayDiagnosticDivergence :=
  match n with
  | O => None
  | S n =>
      match classify_reseal_record_drift index (recorded !! index) (replayed !! index) with
      | Some d => Some d
      | None => first_drift (S index) n recorded replayed
      end
  end.
Definition classify_reseal_divergence (resealed : bytes) (recorded : LogReader) :
    outcome ReadError (option ReplayDiagnosticDivergence) :=
  replayed ← LogReader_parse resealed;
  rs1 ← log_records replayed;
  rs2 ← log_records recorded;
  let replayed_records := without_checkpoints rs1 in
  let recorded_records := without_checkpoints rs2 in
  Ok (first_drift 0 (Nat.max (length recorded_records) (length replayed_records)) recorded_records replayed_records).
End Reseal.
