(* ===== verification/ReplayOk.v ===== *)
(** * What a silent replay proves

    A replay that reports no plan error gave the guest the recorded answers, and
    a resealed log without a reported drift has every recorded input. *)

From Stdlib Require Import String.
From S2P Require Import Prelude BTree DhiLog LogReader Bisect DevCtx Devices Detchannel DetchannelOk RunCtl Replay.
Import DetChannel.

(** ** The answers *)

Section Answers.
Context {B : Blake3} {M E : Type} `{!GuestSdk M, !GuestSdkOk M}.
Local Notation Host := (DetChannelHost M ReplayInjectFaultPlan).
Local Notation Ctx := (DevCtx M E).
Local Notation Op := (host_op (M := M) (P := ReplayInjectFaultPlan)).

(** The detcalls of a replay: an [IN] from the inject port closes with the plan's
    check, and the first complaint ends the run.  The values are those the guest
    received. *)
Fixpoint replay_ops (ops : list Op) (hc : Host * Ctx) : list Z * option ReplayInjectPlanError * (Host * Ctx) :=
  match ops with
  | [] => ([], None, hc)
  | op :: ops =>
      match op with
      | HIn port =>
          let '(v, h, c) := pio_in port hc.1 hc.2 in
          if port =? PORT_INJECT then
            let '(e, h) := with_inject_plan_mut (finish_inject_in v) h in
            match e with
            | Some e => ([v], Some e, (h, c))
            | None => let '(vs, e, hc) := replay_ops ops (h, c) in (v :: vs, e, hc)
            end
          else replay_ops ops (h, c)
      | _ => replay_ops ops (host_step op hc)
      end
  end.
Definition not_restore (op : Op) : Prop := match op with HRestore _ _ _ => False | _ => True end.

(** Between two answers the plan is at rest. *)
Definition at_rest (answers : list RecordedInjectAnswer) (n : nat) (p : ReplayInjectFaultPlan) : Prop :=
  p = mkReplayPlan answers n None None.

Lemma foldl_note_plan evs : forall (h : Host) (c : Ctx), responder (foldl note_event (h, c) evs).1 = responder h.
Proof.
  induction evs as [|ev evs IH]; intros h c; [done|]. cbn [foldl]. unfold note_event at 2.
  assert (responder (note_query ev h) = responder h) as Hq by (unfold note_query; by destruct (ev_payload ev)).
  destruct (sdk_event_digest ev) as [[[? ?] ?]|]; rewrite IH; done.
Qed.
Lemma drain_plan (h : Host) (c : Ctx) : responder (drain h c).1.2 = responder h.
Proof.
  unfold drain. destruct (channel h); [|done]. destruct (drain_events _ _) as [[[[evs|e] calls] ch] m]; [|done].
  pose proof (foldl_note_plan evs (set_channel (Some ch) h) (sink_all calls m c)) as H.
  by destruct (foldl note_event _ evs).
Qed.
Lemma push_plan op (h : Host) (c : Ctx) : responder (push_with op h c).1.2 = responder h.
Proof. unfold push_with. destruct (channel h); [|done]. by destruct (op _ _) as [[[? ?] ?] ?]. Qed.
Lemma init_plan size m (h : Host) : responder (channel_init size m h).2 = responder h.
Proof. unfold channel_init. repeat (case_match; try done). Qed.

Lemma pio_out_plan port value (h : Host) (c : Ctx) : responder (pio_out port value h c).1.2 = responder h.
Proof.
  unfold pio_out. pose proof (init_plan value (ctx_mem c) h) as Hi.
  destruct (port =? PORT_INIT_LO); [done|]. destruct (port =? PORT_INIT_HI); [done|].
  destruct (port =? PORT_INIT_GO); [by destruct (channel_init _ _ _)|].
  destruct (port =? PORT_DOORBELL); [destruct (Z.land _ _ =? 0); [done|apply drain_plan]|].
  destruct (port =? PORT_INJECT); [by rewrite drain_plan|]. by destruct (port =? PORT_QUIESCE_ACK).
Qed.

Lemma step_plan (op : Op) (hc : Host * Ctx) : not_restore op -> (forall port, op <> HIn port) ->
  responder (host_step op hc).1 = responder hc.1.
Proof.
  destruct hc as [h c]. intros Hr Hi. destruct op as [port v|port| |cmd|rec| |seqs|b ver plan]; cbn [host_step]; try done.
  - pose proof (pio_out_plan port v h c) as H. by destruct (pio_out port v h c) as [[? ?] ?].
  - by destruct (Hi port).
  - pose proof (drain_plan h c) as H. unfold drain_at_pause. by destruct (drain h c) as [[? ?] ?].
  - pose proof (push_plan (channel_push_command cmd) h c) as H. unfold push_command. by destruct (push_with _ h c) as [[? ?] ?].
  - pose proof (push_plan (channel_push_workload_ctrl rec) h c) as H. unfold push_workload_ctrl. by destruct (push_with _ h c) as [[? ?] ?].
Qed.

Lemma pio_in_plan port (h : Host) (c : Ctx) : port <> PORT_INJECT -> responder (pio_in port h c).1.2 = responder h.
Proof. intros Hp. unfold pio_in. repeat (case_match; try done). lia. Qed.

(** What the plan does with one question. *)
Lemma plan_question answers n iseq id name :
  let '(d, p) := plan_decide (M := M) iseq id name (mkReplayPlan answers n None None) in
  match answers !! n with
  | Some a => d = unpack (an_value a) /\
      p = mkReplayPlan answers (S n) (validate_answer a (pack d)) (Some a)
  | None => d = Proceed /\ exists e, p = mkReplayPlan answers n (Some e) None
  end.
Proof.
  unfold plan_decide, ReplayInjectFaultPlan_plan, consume_expected. cbn [rp_answers rp_cursor]. destruct (answers !! n) as [a|].
  - destruct (validate_answer a (pack (unpack (an_value a)))) eqn:Ev; cbn; by rewrite Ev.
  - cbn. eauto.
Qed.

(** One [IN]: silent only with the next recorded value. *)
Lemma finish_exact answers n v p :
  (p = mkReplayPlan answers n None None \/
   exists iseq id name, v = pack (plan_decide (M := M) iseq id name (mkReplayPlan answers n None None)).1 /\
     p = (plan_decide (M := M) iseq id name (mkReplayPlan answers n None None)).2) ->
  let '(e, p') := finish_inject_in v p in
  e = None -> exists a, answers !! n = Some a /\ v = an_value a /\ p' = mkReplayPlan answers (S n) None None.
Proof.
  assert (forall a, validate_answer a v = None -> v = an_value a) as Hv.
  { intros a. unfold validate_answer. case_match; [done|]. intros _. lia. }
  intros [->|(iseq & id & name & -> & ->)]; unfold finish_inject_in, consume_expected, set_consumed, set_last_error;
    cbn [rp_answers rp_cursor rp_last_error rp_consumed_current_in].
  - destruct (answers !! n) as [a|]; cbn; [|done]. intros H. eauto.
  - pose proof (plan_question answers n iseq id name) as H. destruct (plan_decide _ _ _ _) as [d p]. cbn [fst snd] in *.
    destruct (answers !! n) as [a|].
    + destruct H as [-> ->]. cbn. destruct (validate_answer a (pack (unpack (an_value a)))) eqn:Ev; [done|]. intros _. eauto.
    + by destruct H as [-> [e ->]].
Qed.

Lemma inject_in_asks (h : Host) (c : Ctx) :
  let '(v, h', _) := pio_in PORT_INJECT h c in
  plan_of (responder h') = plan_of (responder h) \/
  exists iseq id name, v = pack (plan_decide (M := M) iseq id name (plan_of (responder h))).1 /\
    plan_of (responder h') = (plan_decide (M := M) iseq id name (plan_of (responder h))).2.
Proof.
  pose proof (inject_port (M := M)) as Hp. rewrite !Forall_cons in Hp. destruct Hp as (P1 & P2 & P3 & P4 & P5 & P6 & _).
  unfold pio_in. repeat match goal with |- context [PORT_INJECT =? ?p] => destruct (Z.eqb_spec PORT_INJECT p); [by congruence|] end.
  cbn [orb]. rewrite Z.eqb_refl. unfold inject_answer. destruct (inject_iseq h) as [iseq|]; [|by left].
  cbn [channel set_inject_iseq]. destruct (channel h) as [ch|]; [|by left]. cbn [restored_pending_injects set_inject_iseq].
  destruct (bt_get iseq (restored_pending_injects h)) as [pd|].
  - set (name := match intern_name ch _ with Some _ => _ | None => _ end).
    destruct (plan_decide _ _ _ _) as [d p] eqn:Ed. right. exists iseq, (pend_name_id pd), name. cbn in Ed |- *. rewrite Ed. split; [done|]. apply plan_set.
  - pose proof (answer_asks ReplayInjectFaultPlan plan_decide (ctx_mem c) ch iseq (responder (set_inject_iseq None h))) as Ha.
    destruct (responder_answer plan_decide _ _ _ _) as [[[[v calls] ch'] m'] r']. cbn in Ha |- *.
    destruct Ha as [Ha|(id & name & -> & Ha)]; [by left|right; eauto].
Qed.

Lemma replay_ops_exact answers ops : forall n (hc : Host * Ctx), Forall not_restore ops ->
  at_rest answers n (plan_of (responder hc.1)) ->
  let '(vs, e, hc') := replay_ops ops hc in
  e = None -> at_rest answers (n + length vs) (plan_of (responder hc'.1)) /\
    vs = take (length vs) (drop n (an_value <$> answers)) /\ (n + length vs <= length answers \/ vs = [])%nat.
Proof.
  induction ops as [|op ops IH]; intros n hc Hf Hr; cbn [replay_ops].
  { intros _. cbn [length]. rewrite Nat.add_0_r, take_0. auto. }
  apply Forall_cons in Hf as [Ho Hf]. destruct hc as [h c]. cbn [fst snd] in *.
  assert ((forall port, op <> HIn port) -> let '(vs, e, hc') := replay_ops ops (host_step op (h, c)) in
    e = None -> at_rest answers (n + length vs) (plan_of (responder hc'.1)) /\
    vs = take (length vs) (drop n (an_value <$> answers)) /\ (n + length vs <= length answers \/ vs = [])%nat) as Hother.
  { intros Hi. apply IH; [done|]. by rewrite step_plan. }
  destruct op as [| port | | | | | | ]; try by apply Hother. destruct (Z.eqb_spec port PORT_INJECT) as [->|Hp].
  - pose proof (inject_in_asks h c) as Ha. destruct (pio_in PORT_INJECT h c) as [[v h1] c1]. unfold with_inject_plan_mut.
    pose proof (finish_exact answers n v (plan_of (responder h1))) as Hfin. unfold at_rest in Hr. rewrite Hr in Ha. specialize (Hfin Ha).
    destruct (finish_inject_in v (plan_of (responder h1))) as [[e|] p']; [done|]. destruct (Hfin eq_refl) as (a & Hl & -> & ->).
    specialize (IH (S n) (set_responder (set_plan (mkReplayPlan answers (S n) None None) (responder h1)) h1, c1) Hf).
    destruct (replay_ops ops _) as [[vs e] hc']. intros ->. destruct IH as (H1 & H2 & H3); [cbn; apply plan_set|done|].
    cbn [length]. replace (n + S (length vs))%nat with (S n + length vs)%nat by lia. split; [done|]. split.
    + assert ((an_value <$> answers) !! n = Some (an_value a)) as Hd%drop_S by (by rewrite list_lookup_fmap, Hl). rewrite Hd. cbn [take]. by f_equal.
    + left. apply lookup_lt_Some in Hl. destruct H3 as [?| ->]; cbn [length]; lia.
  - pose proof (pio_in_plan port h c Hp) as Hq. destruct (pio_in port h c) as [[v h1] c1]. cbn in Hq. apply IH; [done|]. cbn. by rewrite Hq.
Qed.

(** A replay that reports no plan error and leaves no recorded answer unused
    has answered the guest's inject queries with exactly the recorded values, in
    order and all of them, whatever else the guest did and whichever way the
    host found each answer. *)
Theorem replay_answers_exact answers ops (h : Host) (c : Ctx) vs e h' c' : Forall not_restore ops ->
  plan_of (responder h) = replay_plan answers ->
  replay_ops ops (h, c) = (vs, e, (h', c')) -> e = None -> unconsumed_error (plan_of (responder h')) = None ->
  vs = an_value <$> answers.
Proof.
  intros Hf Hp Hr -> Hu. pose proof (replay_ops_exact answers ops 0 (h, c) Hf Hp) as H. rewrite Hr in H.
  destruct (H eq_refl) as (Hrest & Hvs & Hle). unfold at_rest in Hrest. cbn [fst] in Hrest. rewrite Hrest in Hu.
  unfold unconsumed_error in Hu. cbn [rp_cursor rp_answers Nat.add] in Hu.
  destruct (Nat.ltb_spec (length vs) (length answers)) as [|Hge]; [done|]. rewrite Hvs, drop_0. apply take_ge. rewrite length_fmap. lia.
Qed.
End Answers.

(** ** The resealed log *)

Lemma body_ext r r' : kind r = kind r' -> payload r = payload r' -> body r = body r'.
Proof. unfold body. by intros -> ->. Qed.

Lemma with_bodies_ok {F} rs : Forall rec_valid rs ->
  exists l, with_bodies (F := F) rs = Ok l /\ l.*1 = rs /\ Forall (fun rb => rec_valid rb.1 /\ body rb.1 = Ok rb.2) l.
Proof.
  induction 1 as [|r rs Hr _ (l & IH & Hl & Hf)]; cbn [with_bodies]; [by exists []|].
  destruct (body_ok r Hr) as [b Hb]. rewrite Hb. cbn. rewrite IH. exists ((r, b) :: l). cbn. by rewrite Hl; auto.
Qed.

Lemma log_records_ok {F} {B : Blake3} `{!Blake3Spec B} b rd : bytes_ok b -> LogReader_parse b = Ok rd ->
  exists l, log_records (F := F) rd = Ok l /\ Forall (fun rb => rec_valid rb.1 /\ body rb.1 = Ok rb.2) l.
Proof.
  intros Hb (pre & e & Hr & _ & Hs)%parsed_records; [|done]. unfold log_records. rewrite Hr. cbn [infallible mbind outcome_bind].
  destruct (with_bodies_ok (F := F) (pre ++ [e]) (sl_valid _ _ _ Hs)) as (l & Hl & _ & Hf). eauto.
Qed.

(** Two records the same but for the position of a generated output. *)
Lemma normalized_equal_iff x y : body x.1 = Ok x.2 -> body y.1 = Ok y.2 ->
  normalized_generated_record_equal x y = true <-> comparable_record true x = comparable_record true y.
Proof.
  destruct x as [r b], y as [r' b']. cbn [fst snd]. intros Hb Hb'. unfold normalized_generated_record_equal, comparable_record. cbn [andb].
  destruct (Z.eqb_spec (kind r) (kind r')) as [Hk|Hk]; cbn [negb orb]; [|split; [done|by intros [=]]].
  destruct (Z.eqb_spec (rflags r) (rflags r')) as [Hf|Hf]; cbn [negb]; [|split; [done|by intros [=]]].
  case_bool_decide as Hp; cbn [negb]; [|split; [done|by intros [=]]].
  assert (b = b') as <- by (rewrite (body_ext r r' Hk Hp), Hb' in Hb; congruence). rewrite Hk, Hf, Hp.
  assert (match b, b with
          | SdkEvent _ _ _, SdkEvent _ _ _ => true
          | DevEvent d t _, DevEvent d' t' _ => (d =? d') && (t =? t') && detchannel_exit_generated_event d t
          | _, _ => false
          end = generated b) as -> by (destruct b; cbn; rewrite ?Z.eqb_refl; done).
  destruct (generated b); cbn [orb]; [done|]. rewrite andb_true_iff, !Z.eqb_eq. split; [by intros [-> ->]|by intros [= -> ->]].
Qed.

(** Device events are inputs. *)
Lemma dev_event_canonical r d t x : rec_valid r -> body r = Ok (DevEvent d t x) -> is_aux r = false.
Proof.
  intros [_ Hv] Hb. assert (kind r = KIND_DEV_EVENT) as Hk.
  { unfold body in Hb. repeat (match type of Hb with context [if kind r =? ?k then _ else _] => destruct (Z.eqb_spec (kind r) k) end;
      [first [done|repeat apply bind_ok in Hb as (? & _ & Hb); discriminate]|]). discriminate. }
  rewrite Hk in Hv. unfold validate_kind in Hv. cbn in Hv. by destruct (is_aux r).
Qed.

Section Reseal.
Context {B : Blake3} `{!Blake3Spec B}.

(** Both sides hold the same record there, or neither holds an input. *)
Definition input_safe (x y : option logrec) : Prop :=
  (exists e g, x = Some e /\ y = Some g /\ comparable_record true e = comparable_record true g) \/
  (is_canonical x = false /\ is_canonical y = false).

Lemma is_event_canonical o t : (forall rb, o = Some rb -> rec_valid rb.1 /\ body rb.1 = Ok rb.2) ->
  is_event o t = true -> is_canonical o = true.
Proof.
  unfold is_event, is_canonical. intros Hv H%bool_decide_eq_true. destruct o as [[r b]|]; [|done]. destruct (Hv _ eq_refl) as [Hr Hb].
  cbn in *. destruct b; try done. by rewrite (dev_event_canonical r _ _ _ Hr Hb).
Qed.

Lemma classify_none_iff i x y :
  (forall rb, x = Some rb -> rec_valid rb.1 /\ body rb.1 = Ok rb.2) -> (forall rb, y = Some rb -> rec_valid rb.1 /\ body rb.1 = Ok rb.2) ->
  classify_reseal_record_drift i x y = None <-> input_safe x y.
Proof.
  intros Hx Hy. unfold classify_reseal_record_drift, input_safe.
  destruct (match x, y with Some e, Some g => normalized_generated_record_equal e g | _, _ => false end) eqn:Heq.
  - destruct x as [e|], y as [g|]; try done. split; [|done]. intros _. left. exists e, g. split_and!; [done..|].
    by apply normalized_equal_iff; [apply Hx|apply Hy|].
  - assert (~ (exists e g, x = Some e /\ y = Some g /\ comparable_record true e = comparable_record true g)) as Hne.
    { intros (e & g & -> & -> & H). apply normalized_equal_iff in H; [congruence|by apply Hx|by apply Hy]. }
    pose proof (fun t => is_event_canonical x t Hx) as Ex. pose proof (fun t => is_event_canonical y t Hy) as Ey.
    destruct (is_event x EVENT_PIO_ANSWER || is_event y EVENT_PIO_ANSWER) eqn:E1.
    { split; [done|]. intros [?|[H1 H2]]; [done|]. apply orb_true_iff in E1 as [E1%Ex|E1%Ey]; congruence. }
    destruct (is_event x EVENT_CONS_BUMP || is_event y EVENT_CONS_BUMP) eqn:E2.
    { split; [done|]. intros [?|[H1 H2]]; [done|]. apply orb_true_iff in E2 as [E2%Ex|E2%Ey]; congruence. }
    destruct (is_canonical x || is_canonical y) eqn:E3.
    + split; [done|]. intros [?|[H1 H2]]; [done|]. by rewrite H1, H2 in E3.
    + split; [|done]. intros _. right. by apply orb_false_iff in E3.
Qed.

Lemma first_drift_none_iff n i l l' : first_drift i n l l' = None <->
  forall j, (i <= j < i + n)%nat -> classify_reseal_record_drift j (l !! j) (l' !! j) = None.
Proof.
  revert i. induction n as [|n IH]; intros i; cbn [first_drift]; [split; [lia|done]|].
  destruct (classify_reseal_record_drift i (l !! i) (l' !! i)) eqn:E.
  - split; [done|]. intros H. rewrite H in E by lia. done.
  - rewrite IH. split; intros H j Hj; [|apply H; lia]. destruct (decide (j = i)) as [->|]; [done|]. apply H. lia.
Qed.

Lemma without_checkpoints_ok (P : logrec -> Prop) l : Forall P l -> Forall P (without_checkpoints l).
Proof. rewrite !Forall_forall. intros H x Hx. apply elem_of_bfilter in Hx as [Hx _]. by apply H. Qed.

(** Equal records are equal up to positions. *)
Lemma raw_equal_normalized l l' : Forall (fun rb : logrec => body rb.1 = Ok rb.2) l -> Forall (fun rb : logrec => body rb.1 = Ok rb.2) l' ->
  comparable_record false <$> l = comparable_record false <$> l' -> comparable_record true <$> l = comparable_record true <$> l'.
Proof.
  intros H. revert l'. induction H as [|[r b] l Hb _ IH]; intros [|[r' b'] l'] H'; try done. apply Forall_cons in H' as [Hb' H'].
  rewrite !fmap_cons. intros [= Hk Hf Hi Hr Hp He]. f_equal; [|by apply IH]. cbn in *.
  assert (b = b') as -> by (rewrite (body_ext r r' Hk Hp), Hb' in Hb; congruence). by rewrite Hk, Hf, Hi, Hr, Hp.
Qed.

(** The verdict on a resealed log is exact.  A drift is reported unless, at
    every index, the two logs without their checkpoints hold the same record (up
    to the position of a regenerated detchannel output) or neither holds an
    input: no lost, added or altered input goes unreported.  Logs judged
    equivalent have no drift, the same header fields and the same records up to
    those positions. *)
Theorem reseal_verdict_exact b1 b2 rd1 rd2 : bytes_ok b1 -> bytes_ok b2 ->
  LogReader_parse b1 = Ok rd1 -> LogReader_parse b2 = Ok rd2 ->
  exists l1 l2 drift same,
    log_records (F := ReadError) rd1 = Ok l1 /\ log_records (F := ReadError) rd2 = Ok l2 /\
    classify_reseal_divergence b1 rd2 = Ok drift /\ reseal_equivalent_ignoring_bisection_checkpoints b1 rd2 = Ok same /\
    (drift = None <-> forall i, input_safe (without_checkpoints l2 !! i) (without_checkpoints l1 !! i)) /\
    (same = true -> drift = None /\ comparable_replay_header (rd_header rd1) = comparable_replay_header (rd_header rd2) /\
       comparable_replay_records_with_options l1 true = comparable_replay_records_with_options l2 true).
Proof.
  intros Hb1 Hb2 Hp1 Hp2. destruct (log_records_ok (F := ReadError) b1 rd1 Hb1 Hp1) as (l1 & Hl1 & Hf1).
  destruct (log_records_ok (F := ReadError) b2 rd2 Hb2 Hp2) as (l2 & Hl2 & Hf2).
  set (w1 := without_checkpoints l1). set (w2 := without_checkpoints l2).
  pose proof (without_checkpoints_ok _ l1 Hf1) as Hw1. pose proof (without_checkpoints_ok _ l2 Hf2) as Hw2. fold w1 in Hw1. fold w2 in Hw2.
  set (drift := first_drift 0 (Nat.max (length w2) (length w1)) w2 w1).
  assert (drift = None <-> forall i, input_safe (w2 !! i) (w1 !! i)) as Hd.
  { unfold drift. rewrite first_drift_none_iff. rewrite Forall_lookup in Hw1, Hw2. split; intros H i.
    - destruct (decide (i < Nat.max (length w2) (length w1))%nat).
      + apply (classify_none_iff i); [intros rb Hrb; by eapply Hw2|intros rb Hrb; by eapply Hw1|]. apply H. lia.
      + rewrite !lookup_ge_None_2 by lia. by right.
    - intros _. apply classify_none_iff; [intros rb Hrb; by eapply Hw2|intros rb Hrb; by eapply Hw1|]. apply H. }
  assert (comparable_replay_records_with_options l1 true = comparable_replay_records_with_options l2 true -> drift = None) as Hsame.
  { intros He. apply Hd. intros i. unfold comparable_replay_records_with_options in He. fold w1 w2 in He.
    assert (comparable_record true <$> (w1 !! i) = comparable_record true <$> (w2 !! i)) as Hi by by rewrite <- !list_lookup_fmap, He.
    destruct (w1 !! i) as [g|], (w2 !! i) as [e|]; try done; [|by right]. left. exists e, g. cbn in Hi. by injection Hi. }
  unfold classify_reseal_divergence, reseal_equivalent_ignoring_bisection_checkpoints. rewrite Hp1. cbn [mbind outcome_bind].
  rewrite Hl1, Hl2. cbn [mbind outcome_bind]. exists l1, l2, drift.
  assert (comparable_replay_records l1 = comparable_replay_records l2 ->
    comparable_replay_records_with_options l1 true = comparable_replay_records_with_options l2 true) as Hraw.
  { apply raw_equal_normalized; (eapply Forall_impl; [apply Hw1 || apply Hw2|]); by intros x [_ ?]. }
  destruct (decide (comparable_replay_header (rd_header rd1) = comparable_replay_header (rd_header rd2))) as [Hh|Hh].
  2:{ rewrite bool_decide_false by done. exists false. by split_and!. }
  rewrite bool_decide_true by done. cbn [negb].
  destruct ((has_bisection_checkpoint l2 || has_bisection_checkpoint l1) &&
    bool_decide (comparable_replay_records l1 = comparable_replay_records l2)) eqn:Eb.
  - apply andb_true_iff in Eb as [_ Eb%bool_decide_eq_true]. exists true. by split_and!; auto.
  - eexists. split; [done|]. split; [done|]. split; [done|]. split; [reflexivity|]. split; [done|].
    intros [_ Hn%bool_decide_eq_true]%andb_true_iff. auto.
Qed.
End Reseal.

(** ** A short replay *)

Section Witnesses.
Import ToySdk.
#[local] Existing Instances example_hash example_hash_spec.

Definition ex_answers : list RecordedInjectAnswer := [mkAnswer 0 4 10 0x40 77; mkAnswer 1 9 12 0x44 78].
(** Attach, then answer the two queries the guest left in its ring. *)
Definition ex_replay : list (host_op (M := VecGuestMem) (P := ReplayInjectFaultPlan)) :=
  [HOut 0xD374 0x200000; HOut 0xD37C 512; HOut 0xD384 5; HIn 0xD384; HIn 0xD370; HOut 0xD384 3; HIn 0xD384].
Local Notation ex_run := (replay_ops (E := unit) ex_replay (DetChannelHost_new (replay_plan ex_answers), toy_ctx)).

Lemma ex_run_values : ex_run.1 = ([77; 78], None).
Proof. vm_compute. reflexivity. Qed.
Lemma ex_run_used : unconsumed_error (plan_of (responder ex_run.2.1)) = None.
Proof. vm_compute. reflexivity. Qed.

Lemma replay_answers_exact_witness : ex_run.1.1 = an_value <$> ex_answers.
Proof.
  pose proof ex_run_values as H1. pose proof ex_run_used as H2.
  destruct ex_run as [[vs e] [h' c']] eqn:Hr. cbn [fst snd] in *. injection H1 as Hvs He.
  apply (replay_answers_exact ex_answers ex_replay (DetChannelHost_new (replay_plan ex_answers)) toy_ctx vs e h' c').
  - repeat constructor.
  - reflexivity.
  - exact Hr.
  - exact He.
  - exact H2.
Defined.

Lemma reseal_verdict_exact_witness :
  exists l drift same,
    log_records (F := ReadError) example_reader = Ok l /\
    classify_reseal_divergence example_image example_reader = Ok drift /\
    reseal_equivalent_ignoring_bisection_checkpoints example_image example_reader = Ok same /\
    (drift = None <-> forall i, input_safe (without_checkpoints l !! i) (without_checkpoints l !! i)).
Proof.
  destruct (reseal_verdict_exact example_image example_image example_reader example_reader example_image_ok example_image_ok
    example_parses example_parses) as (l1 & l2 & drift & same & H1 & H2 & H3 & H4 & H5 & _).
  assert (l1 = l2) as -> by congruence. exists l2, drift, same. auto.
Defined.
End Witnesses.
