(* ===== verification/Verify.v ===== *)
(** * Verdicts: the crate [dh-verify]

    [verify.rs], the events a verification reports and the report that collects
    them; [gate.rs], the zero-divergence gate over repeated runs; [skid.rs], the
    histogram of landing skid and its margin rule.  The text artifacts are left
    out. *)

From Stdlib Require Import String.
From stdpp Require Import strings.
From S2P Require Import Prelude BTree.

(** ** [verify.rs] *)

Inductive BisectionMode := ReplayVsReplay | ReplayVsRecorded.

Record BisectionEvidence := mkEvidence {
  bv_mode : BisectionMode;
  bv_expected_checkpoint_ref : option bytes;
  bv_actual_probe_ref : option bytes;
  bv_coverage_icount_lo : Z;
  bv_coverage_icount_hi : Z }.

Record BisectionDivergence := mkBisectionDivergence {
  bd_first_bad_epoch : option Z;
  bd_icount_lo : Z;
  bd_icount_hi : Z;
  bd_rip_expected : Z;
  bd_rip_actual : Z;
  bd_reg_diff : bytes;
  bd_diff_page_idx : list Z;
  bd_suspected_cause : string;
  bd_evidence : BisectionEvidence }.

Inductive VerifyProgress :=
| EpochOk (epoch_index icount : Z)
| Done (total_icount : Z) (end_state_hash : bytes)
| Diverged (first_bad_epoch : option Z) (at_icount : Z) (what : string) (expected got : bytes)
| BisectionDiverged (d : BisectionDivergence).

(** [VerifyReport]: its events, in order. *)
Definition report_push (e : VerifyProgress) (events : list VerifyProgress) : list VerifyProgress := events ++ [e].
Definition as_done (e : VerifyProgress) : option (Z * bytes) := match e with Done i h => Some (i, h) | _ => None end.
Definition is_divergence (e : VerifyProgress) : bool :=
  match e with Diverged _ _ _ _ _ | BisectionDiverged _ => true | _ => false end.
Definition is_epoch_ok (e : VerifyProgress) : bool := match e with EpochOk _ _ => true | _ => false end.
Definition report_done (events : list VerifyProgress) : option (Z * bytes) := head (omap as_done events).
Definition report_divergence (events : list VerifyProgress) : option VerifyProgress := List.find is_divergence events.
Definition report_verified (events : list VerifyProgress) : bool :=
  match report_done events, report_divergence events with Some _, None => true | _, _ => false end.
Definition epochs_ok (events : list VerifyProgress) : nat := length (List.filter is_epoch_ok events).

(** A stream of epochs closed by one terminal event is verified exactly when
    the terminal event is [Done]. *)
Lemma report_terminal l t : Forall (fun e => is_epoch_ok e = true) l -> is_epoch_ok t = false ->
  report_verified (report_push t l) = match as_done t with Some _ => true | None => false end /\
  report_done (report_push t l) = as_done t /\ epochs_ok (report_push t l) = length l.
Proof.
  unfold report_push. intros Hl Ht. induction Hl as [|e l He Hl (IH1 & IH2 & IH3)].
  - destruct t; by split_and!.
  - unfold report_verified, report_done, report_divergence, epochs_ok in *.
    destruct e; try done. cbn in *. split_and!; [done..|]. by rewrite IH3.
Qed.

(** ** [gate.rs] *)

Record GateReport := mkGate { gate_name : string; fingerprints : list string; first_divergence : option nat }.
Definition gate_passed (g : GateReport) : bool :=
  match first_divergence g, fingerprints g with None, _ :: _ => true | _, _ => false end.

Section Gate.
(** The run's machinery, and what it fails with. *)
Context {S F : Type} (run : nat -> S -> outcome F string * S).

(** The loop from run [i], [n] runs left. *)
Fixpoint gate_loop (n i : nat) (seen : list string) : S -> outcome (nat * F) (list string * option nat) * S := fun s =>
  match n with
  | O => (Ok (seen, None), s)
  | Datatypes.S n =>
      match run i s with
      | (Ok f, s) =>
          if (0 <? i)%nat && negb (bool_decide (head seen = Some f)) then (Ok (seen ++ [f], Some i), s)
          else gate_loop n (Datatypes.S i) (seen ++ [f]) s
      | (Err e, s) => (Err (i, e), s)
      | (Panic, s) => (Panic, s)
      end
  end.
Definition zero_divergence (name : string) (runs : nat) : S -> outcome (nat * F) GateReport * S := fun s =>
  match gate_loop runs 0 [] s with
  | (Ok (fs, d), s) => (Ok (mkGate name fs d), s)
  | (Err e, s) => (Err e, s)
  | (Panic, s) => (Panic, s)
  end.

Lemma gate_loop_spec n : forall i seen s fs d s', length seen = i ->
  (forall f, f ∈ seen -> head seen = Some f) -> gate_loop n i seen s = (Ok (fs, d), s') ->
  exists new, fs = seen ++ new /\
    match d with
    | None => length new = n /\ forall f, f ∈ fs -> head fs = Some f
    | Some k => (0 < k)%nat /\ exists f, last fs = Some f /\ head fs <> Some f /\ length fs = Datatypes.S k /\ (length new <= n)%nat
    end.
Proof.
  induction n as [|n IH]; cbn [gate_loop]; intros i seen s fs d s' Hi Hs.
  - intros [= <- <- <-]. exists []. by rewrite app_nil_r.
  - destruct (run i s) as [[f|e|] s1]; [|done..].
    destruct ((0 <? i)%nat && negb (bool_decide (head seen = Some f))) eqn:Hd.
    + intros [= <- <- <-]. exists [f]. split; [done|]. apply andb_true_iff in Hd as [Hp Hn%negb_true_iff].
      apply Nat.ltb_lt in Hp. apply bool_decide_eq_false in Hn. split; [done|]. exists f. rewrite last_snoc.
      destruct seen as [|x seen]; [cbn in Hi; lia|]. rewrite length_app, Hi. cbn in *. split_and!; [done..|lia|lia].
    + intros H. apply IH in H as (new & -> & H).
      * exists (f :: new). rewrite <- (assoc_L (++)) in H |- *. split; [done|].
        destruct d as [k|]; [|cbn; destruct H; split; [lia|done]]. destruct H as (Hk & g & ? & ? & ? & ?). cbn. eauto 8 with lia.
      * rewrite length_app. cbn. lia.
      * intros g. rewrite elem_of_app, list_elem_of_singleton. destruct seen as [|x seen]; cbn in *.
        -- intros [Hg| ->]; [by apply elem_of_nil in Hg|done].
        -- intros [Hg| ->]; [by apply Hs|]. destruct i; [done|]. cbn in Hd. by apply negb_false_iff, bool_decide_eq_true in Hd.
Qed.

(** The gate passes exactly when it collected every run, at least one, and all
    of them agree; a reported divergence is a run that differs from the first. *)
Lemma gate_exact name runs s g s' : zero_divergence name runs s = (Ok g, s') ->
  (gate_passed g = true <-> (0 < runs)%nat /\ length (fingerprints g) = runs /\
     forall f, f ∈ fingerprints g -> head (fingerprints g) = Some f) /\
  forall k, first_divergence g = Some k -> (0 < k < runs)%nat /\ head (fingerprints g) <> fingerprints g !! k.
Proof.
  unfold zero_divergence. destruct (gate_loop runs 0 [] s) as [[[fs d]|e|] s1] eqn:Hg; [|done..]. intros [= <- <-].
  apply gate_loop_spec in Hg as (new & -> & H); [|done|by intros f Hf%elem_of_nil]. cbn in *.
  unfold gate_passed. cbn. destruct d as [k|].
  - destruct H as (Hk & f & Hl & Hh & Hlen & Hn). split.
    + split; [done|]. intros (_ & _ & Hall). destruct Hh. apply Hall. by apply last_Some_elem_of.
    + intros k' [= <-]. split; [lia|]. rewrite last_lookup, Hlen in Hl. cbn in Hl. by rewrite Hl.
  - destruct H as [Hn Hall]. split; [|done]. destruct new as [|x new]; cbn in *.
    + split; [done|]. intros (? & ? & _). lia.
    + split; [|done]. intros _. split; [lia|]. split; [done|]. exact Hall.
Qed.
End Gate.

(** ** [skid.rs] *)

Record SkidHistogram := mkSkid { buckets : btree Z; skid_samples : Z; skid_sum : Z }.
Record MarginViolation := mkViolation { mv_max_skid : Z; mv_skid_margin : Z }.
Definition SkidHistogram_default : SkidHistogram := mkSkid [] 0 0.
(** The counters are u64, the sum u128: an overflow panics. *)
Definition skid_record (skid : Z) (h : SkidHistogram) : outcome unit SkidHistogram :=
  let n := default 0 (bt_get skid (buckets h)) + 1 in
  if (u64_max <? n) || (u64_max <? skid_samples h + 1) || (2 ^ 128 <=? skid_sum h + skid) then Panic
  else Ok (mkSkid (bt_insert skid n (buckets h)) (skid_samples h + 1) (skid_sum h + skid)).
Definition skid_max (h : SkidHistogram) : option Z := bt_last_key (buckets h).
Definition skid_min (h : SkidHistogram) : option Z := head (buckets h).*1.
Definition assert_margin (skid_margin : Z) (h : SkidHistogram) : outcome MarginViolation unit :=
  match skid_max h with
  | Some max => if max <? skid_margin / 2 then Ok tt else Err (mkViolation max skid_margin)
  | None => Err (mkViolation u64_max skid_margin)
  end.

Fixpoint record_all (l : list Z) (h : SkidHistogram) : outcome unit SkidHistogram :=
  match l with [] => Ok h | x :: l => h ← skid_record x h; record_all l h end.
Lemma record_all_keys l : forall h h', bt_sorted (buckets h) -> record_all l h = Ok h' ->
  bt_sorted (buckets h') /\ forall x, x ∈ (buckets h').*1 <-> x ∈ (buckets h).*1 \/ x ∈ l.
Proof.
  induction l as [|x l IH]; intros h h' Hs; cbn [record_all].
  - intros [= <-]. split; [done|]. intros x. rewrite elem_of_nil. tauto.
  - intros (h1 & H1 & H)%bind_ok. unfold skid_record in H1. case_match; [done|]. simplify_eq.
    apply IH in H as [Hs' Hk]; [|by apply bt_insert_sorted]. split; [done|]. intros y.
    rewrite Hk. cbn [buckets]. rewrite bt_keys_insert, elem_of_cons. tauto.
Qed.

(** The margin holds exactly when something was measured and every sample is
    under half of it; a violation names the largest sample. *)
Lemma margin_exact l h margin : record_all l SkidHistogram_default = Ok h ->
  assert_margin margin h = Ok tt /\ l <> [] /\ Forall (fun x => x < margin / 2) l \/
  (exists m, assert_margin margin h = Err (mkViolation m margin) /\
     (l = [] /\ m = u64_max \/ m ∈ l /\ margin / 2 <= m /\ Forall (fun x => x <= m) l)).
Proof.
  intros H. apply record_all_keys in H as [Hs Hk]; [|constructor]. cbn in Hk. unfold assert_margin, skid_max.
  assert (forall x, x ∈ (buckets h).*1 <-> x ∈ l) as Hkl by (intros x; rewrite Hk, elem_of_nil; tauto).
  destruct (bt_last_key (buckets h)) as [m|] eqn:Hm.
  - destruct (bt_last_key_max _ _ Hs Hm) as [Hin Hmax]. rewrite Forall_forall in Hmax.
    assert (Forall (fun x => x <= m) l) as Hle by (apply Forall_forall; intros x Hx; by apply Hmax, Hkl).
    destruct (Z.ltb_spec m (margin / 2)); [left|right].
    + split; [done|]. split; [intros ->; apply Hkl, elem_of_nil in Hin; done|]. eapply Forall_impl; [done|]. cbn. lia.
    + exists m. split; [done|]. right. by rewrite <- Hkl.
  - right. exists u64_max. split; [done|]. left. split; [|done]. unfold bt_last_key in Hm.
    apply last_None in Hm. rewrite Hm in Hkl. destruct l as [|x l]; [done|].
    exfalso. apply (not_elem_of_nil x), Hkl. left.
Qed.
