(* ===== verification/ReplayRun.v ===== *)
(** * The replay executor: [dh-worker/src/replay_engine.rs]

    From a base snapshot and a log: restore, land on every canonical record and
    apply it, check every epoch hash at its link, run out the tail, compare the
    end identity and the resealed log.  The world of the run is the slot and the
    [Cells] the source's closures share; the segment's hash chain travels
    beside it, as in [RunCtl].  The rail's memory handle and the slot's RAM are
    one memory: the class [RamAlias] puts back what a device wrote through the
    handle.  [ExitPage] is the mapped exit a handler answers into.  Formatted
    messages are constructors carrying what they print. *)

From Stdlib Require Import String.
From stdpp Require Import strings.
From S2P Require Import Prelude Hex Vt DhiLog LogReader Bisect SlotState Lapic DevCtx Devices Detchannel Bus Config Kvm VcpuState StateHash Boundary RunCtl Recording Snapshot Restore SnapshotCompare Replay Verify.
Import DetChannel.

Class ExitPage (S : Type) := fill_exit : Answer -> S -> S.
Class RamAlias (S M : Type) := ram_put : M -> S -> S.

(** Captured worlds, as for [Vcpu]. *)
Section captured.
Context {S L : Type} `{!VcpuGets S, !SlotMem S, !TscClock S}.
#[export] Instance VcpuGets_captured : VcpuGets (S * L) := {
  kvm_cap_xsave2 p := kvm_cap_xsave2 p.1;
  component_layout p := component_layout p.1;
  kvm_get_sregs p := kvm_get_sregs p.1;
  kvm_get_fpu p := kvm_get_fpu p.1;
  kvm_get_xcrs p := kvm_get_xcrs p.1;
  kvm_get_xsave p := kvm_get_xsave p.1;
  kvm_get_debug_regs p := kvm_get_debug_regs p.1;
  kvm_get_msrs l p := kvm_get_msrs l p.1 }.
#[export] Instance SlotMem_captured : SlotMem (S * L) := {
  slot_mem_bytes p := slot_mem_bytes p.1;
  read_page a p := read_page a p.1 }.
#[export] Instance TscClock_captured : TscClock (S * L) := {
  rdtsc := on_fst rdtsc;
  kvm_set_tsc_offset o := on_fst (kvm_set_tsc_offset o) }.
End captured.

(** ** Exits *)

Definition detcall_port (port : Z) : bool := (PIO_DETCALL_BASE <=? port) && (port <? PIO_DETCALL_BASE + PIO_DETCALL_LEN).

(** The texts of the [BoundaryError::Exit] a replayed exit fails with. *)
Inductive ReplayFault :=
| RailFailed (f : RailFault)
| NoDetChannelDevice
| DrainAnomaly
| FrameDrainAnomaly
| PauseDrainAnomaly
| PauseDrainLogFault (e : WriteError).
Inductive ReplayServiceExitError :=
| ServiceBoundary (f : ReplayFault)
| ServiceDivergence (d : ReplayDiagnosticDivergence).

Section Exits.
Context {B : Blake3} {M E : Type} `{!GuestSdk M}.
Local Notation ReplayDetChannel := (DetChannelDevice M ReplayInjectFaultPlan (list RecordedInjectAnswer)).
#[local] Instance replay_channel : AnyChannel := ReplayDetChannel.
Local Notation Bus := (list (Z * BoxDev M E)).
Local Notation Rail := (DeviceRail M E).
Local Notation Host := (DetChannelHost M ReplayInjectFaultPlan).
Local Notation Ctx := (DevCtx M E).

(** [replay_detchannel_mut]: the first device with the id and the type; and the
    bus with its host replaced. *)
Fixpoint replay_detchannel (bus : Bus) : option (Host * (Host -> Bus)) :=
  match bus with
  | [] => None
  | (base, dev) :: bus =>
      match (if box_id dev =? DEVICE_ID_DETCHANNEL then downcast AnyDetChannel dev else None) with
      | Some (v, put) => Some (host v, fun h => (base, put (mkDevice h (factory v))) :: bus)
      | None => hp ← replay_detchannel bus; Some (hp.1, fun h => (base, dev) :: hp.2 h)
      end
  end.

Definition exit_events : Type := outcome ReplayServiceExitError (list ReplaySdkEvent) * Answer * Rail.
Definition events_unless_fault (fault : option WriteError) (evs : list ReplaySdkEvent) (a : Answer) (r : Rail) : exit_events :=
  match fault with Some e => (Err (ServiceBoundary (RailFailed (LogFault e))), a, r) | None => (Ok evs, a, r) end.

(** The value of an OUT: at most four bytes, zero-extended. *)
Definition out_word (data : bytes) : Z := of_le (take 4 data).
(** The buffer of an IN: zeros, then at most four bytes of the value. *)
Definition in_fill (value : Z) (len : nat) : bytes := take len (le_bytes 4 value) ++ replicate (len - 4) 0.

Definition replay_detcall_out (icount port : Z) (data : bytes) (r : Rail) : exit_events :=
  match replay_detchannel (rail_bus r) with
  | None => (Err (ServiceBoundary NoDetChannelDevice), NoAnswer, r)
  | Some (h, put) =>
      let '(events, h, c) := pio_out port (out_word data) h (rail_ctx icount r) in
      let r := with_ctx (put h) c r in
      if any_anomaly (metrics h) then (Err (ServiceBoundary DrainAnomaly), NoAnswer, r)
      else events_unless_fault (log_fault c) (omap replay_sdk_event events) NoAnswer r
  end.

Definition replay_detcall_in (icount port : Z) (len : nat) (r : Rail) : exit_events :=
  match replay_detchannel (rail_bus r) with
  | None => (Err (ServiceBoundary NoDetChannelDevice), NoAnswer, r)
  | Some (h, put) =>
      let '(value, h, c) := pio_in port h (rail_ctx icount r) in
      let '(error, h) := if port =? PORT_INJECT then with_inject_plan_mut (finish_inject_in value) h else (None, h) in
      let r := with_ctx (put h) c r in
      let a := Filled (in_fill value len) in
      match error with
      | Some e => (Err (ServiceDivergence (into_divergence e icount)), a, r)
      | None =>
          if any_anomaly (metrics h) then (Err (ServiceBoundary DrainAnomaly), a, r)
          else events_unless_fault (log_fault c) [] a r
      end
  end.

(** [replay_detchannel_drain_for_exit], on the bus and context of the exit. *)
Definition replay_detchannel_drain_for_exit (bus : Bus) (c : Ctx) : outcome ReplayFault (list ReplaySdkEvent) * Bus * Ctx :=
  match replay_detchannel bus with
  | None => (Ok [], bus, c)
  | Some (h, put) =>
      let '(events, h, c) := drain_at_pause h c in
      (if any_anomaly (metrics h) then Err FrameDrainAnomaly else Ok (omap replay_sdk_event events), put h, c)
  end.

Definition replay_detchannel_drain_at_pause (icount : Z) (r : Rail) : outcome ReplayFault (list ReplaySdkEvent) * Rail :=
  match replay_detchannel (rail_bus r) with
  | None => (Ok [], r)
  | Some (h, put) =>
      let '(events, h, c) := drain_at_pause h (rail_ctx icount r) in
      let r := with_ctx (put h) c r in
      if any_anomaly (metrics h) then (Err PauseDrainAnomaly, r)
      else match log_fault c with
           | Some e => (Err (PauseDrainLogFault e), r)
           | None => (Ok (omap replay_sdk_event events), r)
           end
  end.

(** A bus write; the frame counter's also drains the detchannel. *)
Definition replay_bus_write (icount gpa : Z) (data : bytes) (r : Rail) : exit_events :=
  match Bus.write gpa data (rail_ctx icount r) (rail_bus r) with
  | (Ok _, bus, c) =>
      if (gpa =? frame_mark_gpa) && (length data =? 4)%nat then
        match replay_detchannel_drain_for_exit bus c with
        | (Ok evs, bus, c) => events_unless_fault (log_fault c) evs NoAnswer (with_ctx bus c r)
        | (Err e, bus, c) => (Err (ServiceBoundary e), NoAnswer, with_ctx bus c r)
        | (Panic, bus, c) => (Panic, NoAnswer, with_ctx bus c r)
        end
      else events_unless_fault (log_fault c) [] NoAnswer (with_ctx bus c r)
  | (Err e, bus, c) => (Err (ServiceBoundary (RailFailed (BusWrite gpa e))), NoAnswer, with_ctx bus c r)
  | (Panic, bus, c) => (Panic, NoAnswer, with_ctx bus c r)
  end.

(** The arms the source repeats from [service_exit] are [service_exit]'s. *)
Definition rail_exit (icount : Z) (e : VcpuExit) (r : Rail) : exit_events :=
  match service_exit icount e r with
  | (Ok _, a, r) => (Ok [], a, r)
  | (Err f, a, r) => (Err (ServiceBoundary (RailFailed f)), a, r)
  | (Panic, a, r) => (Panic, a, r)
  end.
Definition replay_service_exit (icount : Z) (e : VcpuExit) (r : Rail) : exit_events :=
  match e with
  | IoOut port data => if detcall_port port then replay_detcall_out icount port data r else rail_exit icount e r
  | IoIn port len => if detcall_port port then replay_detcall_in icount port len r else rail_exit icount e r
  | MmioWrite gpa data => if contains_mmio gpa then rail_exit icount e r else replay_bus_write icount gpa data r
  | _ => rail_exit icount e r
  end.
End Exits.

(** ** Errors *)

Inductive PreconditionMsg :=
| RequiresCheckpoints
| NoEpochEvidence (epoch_index at_icount : Z)
| NoTerminalEvidence (end_icount : Z)
| ProbeLandedElsewhere (boundary_icount checkpoint_icount : Z)
| ProbeVnsOverflow (boundary_icount : Z)
| ProbeVnsMismatch (boundary_icount log_vns vns : Z)
| NotCheckpointSafe (icount : Z)
| CannotSelect (e_idx e_icount icount : Z)
| ExtraEpoch (idx icount : Z)
| TerminalProbeMissing (seq checkpoint_icount : Z).
Inductive ApplyMsg :=
| ConfigHash (e : ConfigError)
| BehindPosition (target start : Z)
| SdkHardCapOverflow
| FrameHardCapOverflow
| HltRetryOverflow
| RecordRefused (e : RecordError)
| EpochLogFailed (e : RecordError)
| UnexpectedCanonical (b : RecordBody)
| UnknownStopReason (b : Z)
| ResealFailed (e : RecordError).
Inductive RunMsg :=
| StartVnsOverflow
| CounterUnread (e : CounterError)
| SegmentFailed (e : RunError)
| ReplayVnsOverflow
| FinalLink (e : HashError)
| DidNotLand (target : Z) (why : StopReason) (icount : Z)
| FrameMarkMissed (mark_icount : Z) (o : option SegmentOutcome)
| PauseDrain (f : ReplayFault)
| TargetUnobserved (e : ReplaySdkEvent) (end_icount : Z)
| TailStopped (why : StopReason) (icount : Z) (expected : StopReason) (end_icount : Z).
Inductive ReplayError (X : Type) :=
| ReplayRestore (e : RestoreError X)
| ReplayLog (e : ReadError)
| HeaderMismatch (what : string)
| ReplayDivergence (what : string) (at_icount : Z) (expected got : bytes)
| ReplayBisection (d : BisectionDivergence)
| BisectionPrecondition (m : PreconditionMsg)
| BisectionCapture (e : EngineError X)
| BisectionCompare (e : SnapshotComparisonError X)
| NotYetWired (what : string)
| Cancelled (what : string)
| ReplayApply (m : ApplyMsg)
| ReplayRan (m : RunMsg).
Arguments ReplayRestore {X}. Arguments ReplayLog {X}. Arguments HeaderMismatch {X}. Arguments ReplayDivergence {X}.
Arguments ReplayBisection {X}. Arguments BisectionPrecondition {X}. Arguments BisectionCapture {X}.
Arguments BisectionCompare {X}. Arguments NotYetWired {X}. Arguments Cancelled {X}. Arguments ReplayApply {X}.
Arguments ReplayRan {X}.

Record ReplayOutcome := mkReplayOutcome {
  ro_records_applied : Z;
  ro_epoch_hashes_verified : Z;
  ro_end_icount : Z;
  ro_end_state_hash : bytes;
  ro_resealed : bytes }.

Record ActualBisectionProbe := mkProbe { pb_checkpoint_position : RecordPosition; pb_snapshot_ref : bytes }.
Record ReplayBisectionBase := mkBisectionBase {
  rb_cumulative_icount : Z; rb_vns : Z; rb_epoch_index : Z; rb_segment_start_vns : Z }.
Record PendingBisectionDivergence := mkPending {
  pd_selected : SelectedBisectionCheckpoint; pd_what : string; pd_expected_hash : bytes; pd_got_hash : bytes }.

(** What the callers' messages say when an exit handler or an epoch sink fails. *)
Definition EXIT_COUNTER : Z := 1.
Definition EXIT_SERVICE : Z := 2.
Definition EXIT_DIAGNOSTIC : Z := 3.
Definition EXIT_BISECTION : Z := 4.
Definition EXIT_EPOCH_LOG : Z := 5.
Definition EXIT_DIVERGENCE : Z := 6.
Definition EXIT_PROBE : Z := 7.
Definition EXIT_PROGRESS : Z := 8.

(** [hex32]. *)
Definition hex32 (b : bytes) : string := hex_string b.

Definition runtime_hash_device_sections {X : AnyChannel} {M E} (bus : list (Z * BoxDev M E)) (lapic : LocalApic) : bytes :=
  lapic_section lapic ++ device_sections bus.

Definition selected_checkpoint_is_at_epoch (selected : SelectedBisectionCheckpoint) (epoch_index icount : Z) : bool :=
  let h := ic_preceding_epoch_hash (sel_checkpoint selected) in
  (ie_epoch_index h =? epoch_index) && (p_icount (ie_position h) =? icount).

Definition select_epoch_bisection {X} (index : option BisectionCheckpointIndex) (epoch_index at_icount : Z) :
    outcome (ReplayError X) SelectedBisectionCheckpoint :=
  index ← ok_or (BisectionPrecondition RequiresCheckpoints) index;
  ok_or (BisectionPrecondition (NoEpochEvidence epoch_index at_icount))
    (select_for_divergence index (TargetEpochHash epoch_index at_icount)).
Definition select_terminal_bisection {X} (index : option BisectionCheckpointIndex) (end_icount : Z) :
    outcome (ReplayError X) SelectedBisectionCheckpoint :=
  index ← ok_or (BisectionPrecondition RequiresCheckpoints) index;
  ok_or (BisectionPrecondition (NoTerminalEvidence end_icount)) (select_for_divergence index (TerminalEndState end_icount)).

(** ** The executor *)

Local Open Scope string_scope.
Local Open Scope list_scope.
Local Open Scope Z_scope.

Section Executor.
Context {B : Blake3} {M E K S Q : Type}.
Context `{!GuestSdk M, !GuestMem M, !Snapstore K, !Postcard, !DetEntropy E}.
Context `{!Vcpu S, !VcpuGets S, !VcpuSets S, !TscClock S, !SlotMem S, !SlotRam S M, !ExitPage S, !RamAlias S M}.
#[local] Instance executor_channel : AnyChannel := DetChannelDevice M ReplayInjectFaultPlan (list RecordedInjectAnswer).
Local Notation Rail := (DeviceRail M E).
Local Notation Error := (ReplayError StoreError).

(** The cells the closures share: the rail, the store, the progress callback's
    state, and the side channels of a quantum. *)
Record Cells := mkCells {
  c_rail : Rail;
  c_store : K;
  c_progress : Q;
  c_verified : nat;
  c_last_epoch_icount : option Z;
  c_divergence : option (string * Z * bytes * bytes);
  c_diagnostic : option ReplayDiagnosticDivergence;
  c_bisection_error : option Error;
  c_pending : option PendingBisectionDivergence;
  c_progress_error : option Error;
  c_observed : option Z;
  c_probe : option ActualBisectionProbe;
  c_feed : Z }.
Local Notation World := (S * Cells)%type.

Definition set_rail (r : Rail) (c : Cells) : Cells :=
  mkCells r (c_store c) (c_progress c) (c_verified c) (c_last_epoch_icount c) (c_divergence c) (c_diagnostic c)
    (c_bisection_error c) (c_pending c) (c_progress_error c) (c_observed c) (c_probe c) (c_feed c).
Definition set_store (k : K) (c : Cells) : Cells :=
  mkCells (c_rail c) k (c_progress c) (c_verified c) (c_last_epoch_icount c) (c_divergence c) (c_diagnostic c)
    (c_bisection_error c) (c_pending c) (c_progress_error c) (c_observed c) (c_probe c) (c_feed c).
Definition set_progress (q : Q) (c : Cells) : Cells :=
  mkCells (c_rail c) (c_store c) q (c_verified c) (c_last_epoch_icount c) (c_divergence c) (c_diagnostic c)
    (c_bisection_error c) (c_pending c) (c_progress_error c) (c_observed c) (c_probe c) (c_feed c).
(** [verified.set(i + 1); last_epoch_icount.set(Some(icount))]. *)
Definition count_verified (icount : Z) (c : Cells) : Cells :=
  mkCells (c_rail c) (c_store c) (c_progress c) (Datatypes.S (c_verified c)) (Some icount) (c_divergence c) (c_diagnostic c)
    (c_bisection_error c) (c_pending c) (c_progress_error c) (c_observed c) (c_probe c) (c_feed c).
Definition set_divergence (d : option (string * Z * bytes * bytes)) (c : Cells) : Cells :=
  mkCells (c_rail c) (c_store c) (c_progress c) (c_verified c) (c_last_epoch_icount c) d (c_diagnostic c)
    (c_bisection_error c) (c_pending c) (c_progress_error c) (c_observed c) (c_probe c) (c_feed c).
Definition set_diagnostic (d : option ReplayDiagnosticDivergence) (c : Cells) : Cells :=
  mkCells (c_rail c) (c_store c) (c_progress c) (c_verified c) (c_last_epoch_icount c) (c_divergence c) d
    (c_bisection_error c) (c_pending c) (c_progress_error c) (c_observed c) (c_probe c) (c_feed c).
Definition set_bisection_error (e : option Error) (c : Cells) : Cells :=
  mkCells (c_rail c) (c_store c) (c_progress c) (c_verified c) (c_last_epoch_icount c) (c_divergence c) (c_diagnostic c)
    e (c_pending c) (c_progress_error c) (c_observed c) (c_probe c) (c_feed c).
Definition set_pending_bisection (p : PendingBisectionDivergence) (c : Cells) : Cells :=
  mkCells (c_rail c) (c_store c) (c_progress c) (c_verified c) (c_last_epoch_icount c) (c_divergence c) (c_diagnostic c)
    (c_bisection_error c) (Some p) (c_progress_error c) (c_observed c) (c_probe c) (c_feed c).
Definition set_progress_error (e : option Error) (c : Cells) : Cells :=
  mkCells (c_rail c) (c_store c) (c_progress c) (c_verified c) (c_last_epoch_icount c) (c_divergence c) (c_diagnostic c)
    (c_bisection_error c) (c_pending c) e (c_observed c) (c_probe c) (c_feed c).
Definition note_observed (icount : Z) (c : Cells) : Cells :=
  mkCells (c_rail c) (c_store c) (c_progress c) (c_verified c) (c_last_epoch_icount c) (c_divergence c) (c_diagnostic c)
    (c_bisection_error c) (c_pending c) (c_progress_error c) (note_terminal_sdk_target_observed (c_observed c) icount)
    (c_probe c) (c_feed c).
Definition set_probe (p : ActualBisectionProbe) (c : Cells) : Cells :=
  mkCells (c_rail c) (c_store c) (c_progress c) (c_verified c) (c_last_epoch_icount c) (c_divergence c) (c_diagnostic c)
    (c_bisection_error c) (c_pending c) (c_progress_error c) (c_observed c) (Some p) (c_feed c).
Definition set_feed (n : Z) (c : Cells) : Cells :=
  mkCells (c_rail c) (c_store c) (c_progress c) (c_verified c) (c_last_epoch_icount c) (c_divergence c) (c_diagnostic c)
    (c_bisection_error c) (c_pending c) (c_progress_error c) (c_observed c) (c_probe c) n.

(** An operation on the rail, its memory handle being the slot's RAM. *)
Definition on_rail {A} (f : Rail -> A * Rail) (w : World) : A * World :=
  let r := c_rail w.2 in
  let '(a, r) := f (with_device (rail_bus r) (slot_ram w.1) r) in
  (a, (ram_put (rail_mem r) w.1, set_rail r w.2)).
Definition cells {F} (f : Cells -> Cells) : prog World F unit := modify (fun w => (w.1, f w.2)).
Definition sections_now (w : World) : bytes :=
  runtime_hash_device_sections (rail_bus (c_rail w.2)) (rail_lapic (c_rail w.2)).

Section Segment.
(** What is fixed once the base is restored: the arguments, the expected epoch
    hashes, the terminal checkpoint and the terminal SDK event. *)
Context (fuel : nat) (machine_config : MachineConfig) (bisection_index : option BisectionCheckpointIndex).
Context (on_epoch_ok : Z -> Z -> bytes -> Q -> outcome Error unit * Q).
Context (base : ReplayBisectionBase) (expected_epochs : list (Z * Z * bytes)).
Context (terminal_selection : option SelectedBisectionCheckpoint) (terminal_sdk_target : option ReplaySdkEventTarget).

Definition probe_boundary (boundary_icount vns : Z) (chain_value : bytes) : BoundaryState :=
  mkBoundaryState
    (saturating_add (rb_cumulative_icount base) boundary_icount)
    (saturating_add (rb_vns base) (saturating_sub vns (rb_segment_start_vns base)))
    (saturating_add (rb_epoch_index base) (boundary_icount / Z.max (Config.epoch_len machine_config) 1))
    chain_value false.

Definition capture_bisection_probe (checkpoint : IndexedBisectionCheckpoint) (boundary_icount : Z) (chain_value : bytes) :
    prog World Error ActualBisectionProbe :=
  if negb (boundary_icount =? ic_icount checkpoint)
  then throw (BisectionPrecondition (ProbeLandedElsewhere boundary_icount (ic_icount checkpoint)))
  else
    vns ← of_outcome (ok_or (BisectionPrecondition (ProbeVnsOverflow boundary_icount))
            (vns_from_icount (Config.clock machine_config) boundary_icount));
    if negb (vns =? ic_vns checkpoint)
    then throw (BisectionPrecondition (ProbeVnsMismatch boundary_icount (ic_vns checkpoint) vns))
    else fun w =>
      let r := c_rail w.2 in
      match capture_bisection_checkpoint_snapshot_with_lapic w.1 SlotState.Paused (rail_bus r) (rail_lapic r)
              (rail_entropy r) machine_config (probe_boundary boundary_icount vns chain_value) (c_store w.2, tt) with
      | Some (o, (k, _)) =>
          Some (match o with
                | Ok taken => Ok (mkProbe (ic_position checkpoint) (tk_snapshot_ref taken))
                | Err e => Err (BisectionCapture e)
                | Panic => Panic
                end, (w.1, set_store k w.2))
      | None => None
      end.

Definition suspected_cause (what : string) (expected_hash got_hash : bytes) : string :=
  ("replay-vs-recorded:" ++ what ++ "; expected_hash=" ++ hex32 expected_hash ++ "; got_hash=" ++ hex32 got_hash)%string.

Definition bisection_divergence_from_probe (selected : SelectedBisectionCheckpoint) (actual_probe_ref : bytes)
    (what : string) (expected_hash got_hash : bytes) : prog World Error BisectionDivergence :=
  let expected_ref := ic_snapshot_ref (sel_checkpoint selected) in
  c ← observe (fun w => err_map BisectionCompare (compare_snapshots (c_store w.2) expected_ref actual_probe_ref));
  mret (mkBisectionDivergence
    (match sel_divergence selected with EpochHashSite epoch_index _ => Some epoch_index | TerminalSite _ => None end)
    (sel_coverage_icount_lo selected) (sel_coverage_icount_hi selected)
    (cmp_rip_expected c) (cmp_rip_actual c) (cmp_reg_diff c) (cmp_diff_page_idx c)
    (suspected_cause what expected_hash got_hash)
    (mkEvidence ReplayVsRecorded (Some expected_ref) (Some actual_probe_ref)
       (sel_coverage_icount_lo selected) (sel_coverage_icount_hi selected))).

(** Capture a probe here and refine the divergence with it. *)
Definition probe_divergence (selected : SelectedBisectionCheckpoint) (icount : Z) (value : bytes)
    (what : string) (expected_hash got_hash : bytes) : prog World Error BisectionDivergence :=
  probe ← capture_bisection_probe (sel_checkpoint selected) icount value;
  bisection_divergence_from_probe selected (pb_snapshot_ref probe) what expected_hash got_hash.

(** *** The exit handler *)

Definition exit_failed (code : Z) : BoundaryError := Exit (handler_failed code).
Definition event_seen (evs : list ReplaySdkEvent) : bool :=
  match terminal_sdk_target with Some t => bool_decide (tg_event t ∈ evs) | None => false end.

Definition replay_on_exit (event_stop : bool) : handler World := fun e =>
  icount ← map_err (fun _ => exit_failed EXIT_COUNTER) (observe InstRetired_read);
  res ← io (fun w =>
    let '((o, a), w) := on_rail (replay_service_exit icount e) w in (Ok o, (fill_exit a w.1, w.2)));
  match res with
  | Ok evs =>
      if event_seen evs then
        _ ← cells (note_observed icount);
        if event_stop then cells (fun c => set_feed (c_feed c + 1) c) else pass
      else pass
  | Err (ServiceBoundary _) => throw (exit_failed EXIT_SERVICE)
  | Err (ServiceDivergence d) => _ ← cells (set_diagnostic (Some d)); throw (exit_failed EXIT_DIAGNOSTIC)
  | Panic => crash
  end.

(** *** The epoch sink *)

(** [bisection_error.replace(Some(e)); return Err(BoundaryError::Exit(..))]. *)
Definition sink_fails (code : Z) (e : Error) : prog World BoundaryError unit :=
  _ ← cells (set_bisection_error (Some e)); throw (exit_failed code).
Definition log_epoch (idx icount : Z) (value : bytes) : prog World RecordError unit :=
  io (on_rail (log_epoch_hash idx icount value)).
Definition sink_log (idx icount : Z) (value : bytes) : prog World BoundaryError unit :=
  map_err (fun _ => exit_failed EXIT_EPOCH_LOG) (log_epoch idx icount value).
(** The probe's verdict, in the cell either way. *)
Definition sink_probe (checkpointable : bool) (selected : SelectedBisectionCheckpoint) (icount : Z) (value : bytes)
    (what : string) (expected_hash got_hash : bytes) : prog World BoundaryError unit :=
  if negb checkpointable then sink_fails EXIT_BISECTION (BisectionPrecondition (NotCheckpointSafe icount))
  else
    o ← reify (probe_divergence selected icount value what expected_hash got_hash);
    match o with
    | Ok d => sink_fails EXIT_BISECTION (ReplayBisection d)
    | Err e => sink_fails EXIT_BISECTION e
    | Panic => crash
    end.

(** The link of an epoch whose hash matched. *)
Definition sink_matched (idx icount : Z) (value : bytes) (checkpointable : bool) : prog World BoundaryError unit :=
  _ ← cells (count_verified icount);
  _ ← match terminal_selection with
      | Some selected =>
          if selected_checkpoint_is_at_epoch selected idx icount then
            if negb checkpointable then sink_fails EXIT_PROBE (BisectionPrecondition (NotCheckpointSafe icount))
            else
              o ← reify (capture_bisection_probe (sel_checkpoint selected) icount value);
              match o with
              | Ok probe => cells (set_probe probe)
              | Err e => sink_fails EXIT_PROBE e
              | Panic => crash
              end
          else pass
      | None => pass
      end;
  _ ← sink_log idx icount value;
  o ← io (fun w => let '(o, q) := on_epoch_ok idx icount value (c_progress w.2) in (Ok o, (w.1, set_progress q w.2)));
  match o with
  | Ok _ => pass
  | Err e => _ ← cells (set_progress_error (Some e)); throw (exit_failed EXIT_PROGRESS)
  | Panic => crash
  end.

(** The link of an epoch whose hash did not. *)
Definition sink_mismatched (e_idx e_icount : Z) (e_value : bytes) (idx icount : Z) (value : bytes) (checkpointable : bool) :
    prog World BoundaryError unit :=
  match bisection_index with
  | Some _ =>
      if negb (e_icount =? icount) then sink_fails EXIT_BISECTION (BisectionPrecondition (CannotSelect e_idx e_icount icount))
      else
        match select_epoch_bisection bisection_index e_idx icount with
        | Ok selected =>
            if selected_checkpoint_is_at_epoch selected idx icount
            then sink_probe checkpointable selected icount value "EPOCH_HASH chain value" e_value value
            else
              _ ← cells (set_pending_bisection (mkPending selected "EPOCH_HASH chain value" e_value value));
              sink_log idx icount value
        | Err e => sink_fails EXIT_BISECTION e
        | Panic => crash
        end
  | None =>
      _ ← cells (set_divergence (Some ("EPOCH_HASH chain value"%string, icount, e_value, value)));
      throw (exit_failed EXIT_DIVERGENCE)
  end.

Definition sink_extra (idx icount : Z) (value : bytes) : prog World BoundaryError unit :=
  match bisection_index with
  | Some _ => sink_fails EXIT_BISECTION (BisectionPrecondition (ExtraEpoch idx icount))
  | None =>
      _ ← cells (set_divergence (Some ("EPOCH_HASH the recording does not have"%string, icount, replicate 32 0, value)));
      throw (exit_failed EXIT_DIVERGENCE)
  end.

Definition replay_epoch_sink (idx : Z) (b : Boundary) (value : bytes) (checkpointable : bool) : prog World BoundaryError unit :=
  let icount := b_icount b in
  pending ← observe (fun w : World => Ok (c_pending w.2));
  match pending with
  | Some p =>
      if selected_checkpoint_is_at_epoch (pd_selected p) idx icount
      then sink_probe checkpointable (pd_selected p) icount value (pd_what p) (pd_expected_hash p) (pd_got_hash p)
      else sink_log idx icount value
  | None =>
      i ← observe (fun w : World => Ok (c_verified w.2));
      match expected_epochs !! i with
      | Some (e_idx, e_icount, e_value) =>
          if (e_idx =? idx) && (e_icount =? icount) && bool_decide (e_value = value)
          then sink_matched idx icount value checkpointable
          else sink_mismatched e_idx e_icount e_value idx icount value checkpointable
      | None => sink_extra idx icount value
      end
  end.

(** *** One run quantum *)

Local Notation State := (World * StateHashChain)%type.
(** A step that leaves the chain alone. *)
Definition on_world {F A} (m : prog World F A) : prog State F A := RunCtl.lift m.

(** The side channels are taken in this order. *)
Definition take_error (e : RunError) : prog World Error (option SegmentOutcome) := fun w =>
  let c := w.2 in
  match c_progress_error c with
  | Some e => Some (Err e, (w.1, set_progress_error None c))
  | None =>
      match c_bisection_error c with
      | Some e => Some (Err e, (w.1, set_bisection_error None c))
      | None =>
          match c_divergence c with
          | Some (what, at_icount, expected, got) =>
              Some (Err (ReplayDivergence what at_icount expected got), (w.1, set_divergence None c))
          | None =>
              match c_diagnostic c with
              | Some d =>
                  Some (Err (ReplayDivergence (dg_what d) (dg_at_icount d) (dg_expected d) (dg_got d)),
                        (w.1, set_diagnostic None c))
              | None => Some (Err (ReplayRan (SegmentFailed e)), w)
              end
          end
      end
  end.

Definition read_counter_now : prog World Error Z :=
  map_err (fun e => ReplayRan (CounterUnread e)) (observe InstRetired_read).

Definition quantum_until (event_stop : bool) (frame_budget : option Z) (target start : Z) : outcome Error Until :=
  if event_stop then
    if u64_max <? target - start + 1000000 then Err (ReplayApply SdkHardCapOverflow)
    else Ok (UntilSdkEvent (target - start + 1000000))
  else
    match frame_budget with
    | Some frames =>
        if u64_max <? saturating_sub target start + 1000000 then Err (ReplayApply FrameHardCapOverflow)
        else Ok (UntilFrames frames (saturating_sub target start + 1000000))
    | None => Ok (UntilIcount (target - start))
    end.

Definition quantum_segment (event_stop : bool) (start : Z) : Segment World :=
  mkSegmentIn machine_config start [] None (fun w => (false, w))
    (if event_stop then Some (fun w => c_feed w.2) else None) (Some sections_now).

Definition run_to (target : Z) (hash_final_stop hash_final_epoch stop_on_terminal_sdk_target : bool)
    (frame_budget : option Z) : prog State Error (option SegmentOutcome) :=
  start ← on_world read_counter_now;
  if target <? start then throw (ReplayApply (BehindPosition target start))
  else
    let event_stop := stop_on_terminal_sdk_target && bool_decide (is_Some terminal_sdk_target) in
    if (target =? start) && negb event_stop && bool_decide (frame_budget = None) then mret None
    else
      _ ← on_world (cells (set_feed 0));
      until ← of_outcome (quantum_until event_stop frame_budget target start);
      o ← reify (run_segment_with_epoch_options fuel (quantum_segment event_stop start) until (fun w => (false, w))
             (replay_on_exit event_stop) (mkRunOptions false hash_final_stop hash_final_epoch) replay_epoch_sink);
      match o with
      | Ok out => mret (Some out)
      | Err e => on_world (take_error e)
      | Panic => crash
      end.

(** *** An epoch link after the inputs of its boundary *)

(** [chain.push_final_link] over the slot and the rail's devices. *)
Definition push_link_here (icount vns : Z) : prog State Error unit := fun st =>
  match push_final_link st.1 (sections_now st.1) icount vns st.2 with
  | Ok c => Some (Ok tt, (st.1, c))
  | Err e => Some (Err (ReplayRan (FinalLink e)), st)
  | Panic => Some (Panic, st)
  end.
Definition log_current_epoch (idx icount : Z) (value : bytes) : prog World Error unit :=
  map_err (fun e => ReplayApply (EpochLogFailed e)) (log_epoch idx icount value).

Definition current_matched (idx icount : Z) (value : bytes) : prog World Error unit :=
  _ ← cells (count_verified icount);
  _ ← match terminal_selection with
      | Some selected =>
          if selected_checkpoint_is_at_epoch selected idx icount then
            probe ← capture_bisection_probe (sel_checkpoint selected) icount value;
            cells (set_probe probe)
          else pass
      | None => pass
      end;
  _ ← log_current_epoch idx icount value;
  io (fun w => let '(o, q) := on_epoch_ok idx icount value (c_progress w.2) in (o, (w.1, set_progress q w.2))).

Definition current_mismatched (e_idx e_icount : Z) (e_value : bytes) (idx icount : Z) (value : bytes) : prog World Error unit :=
  match bisection_index with
  | Some _ =>
      if negb (e_icount =? icount) then throw (BisectionPrecondition (CannotSelect e_idx e_icount icount))
      else
        selected ← of_outcome (select_epoch_bisection bisection_index e_idx icount);
        if selected_checkpoint_is_at_epoch selected idx icount then
          d ← probe_divergence selected icount value "EPOCH_HASH chain value" e_value value;
          throw (ReplayBisection d)
        else
          _ ← cells (set_pending_bisection (mkPending selected "EPOCH_HASH chain value" e_value value));
          log_current_epoch idx icount value
  | None => throw (ReplayDivergence "EPOCH_HASH chain value" icount e_value value)
  end.

Definition check_current (e_idx e_icount : Z) (e_value : bytes) (idx icount : Z) (value : bytes) : prog World Error unit :=
  pending ← observe (fun w : World => Ok (c_pending w.2));
  match pending with
  | Some p =>
      if selected_checkpoint_is_at_epoch (pd_selected p) idx icount then
        d ← probe_divergence (pd_selected p) icount value (pd_what p) (pd_expected_hash p) (pd_got_hash p);
        throw (ReplayBisection d)
      else log_current_epoch idx icount value
  | None =>
      if (e_idx =? idx) && (e_icount =? icount) && bool_decide (e_value = value)
      then current_matched idx icount value
      else current_mismatched e_idx e_icount e_value idx icount value
  end.

Definition verify_current_epoch (icount : Z) : prog State Error bool :=
  i ← on_world (observe (fun w : World => Ok (c_verified w.2)));
  match expected_epochs !! i with
  | None => mret false
  | Some (e_idx, e_icount, e_value) =>
      if negb (e_icount =? icount) then mret false
      else
        vns ← of_outcome (ok_or (ReplayRan ReplayVnsOverflow) (vns_from_icount (Config.clock machine_config) icount));
        _ ← push_link_here icount vns;
        value ← observe (fun st : State => Ok st.2);
        _ ← on_world (check_current e_idx e_icount e_value (icount / Z.max (Config.epoch_len machine_config) 1) icount value);
        mret true
  end.

(** *** Landing on the records *)

Definition require_landed (o : option SegmentOutcome) (target : Z) : outcome Error unit :=
  match o with
  | None => Ok tt
  | Some o =>
      if bool_decide (reason o = BudgetReached) && (b_icount (boundary o) =? target) then Ok tt
      else Err (ReplayRan (DidNotLand target (reason o) (b_icount (boundary o))))
  end.

Definition frame_replayed (mark_icount : Z) (o : option SegmentOutcome) : bool :=
  match o with
  | Some out =>
      bool_decide (reason out = BudgetReached) && (b_icount (boundary out) =? mark_icount) && (frames_elapsed out =? 1)
  | None => false
  end.

(** [replay_frame_marks_before!]; the marks are [(seq, icount, frame)], the
    result those still to come. *)
Fixpoint replay_frame_marks_before (seq_limit icount_limit : Z) (defer_same_icount_epoch : bool)
    (marks : list (Z * Z * Z)) : prog State Error (list (Z * Z * Z)) :=
  match marks with
  | [] => mret []
  | (seq, mark_icount, _) :: rest =>
      if (icount_limit <? mark_icount) || ((mark_icount =? icount_limit) && (seq_limit <=? seq)) then mret marks
      else
        o ← run_to mark_icount false (negb ((mark_icount =? icount_limit) && defer_same_icount_epoch)) false (Some 1);
        if frame_replayed mark_icount o then replay_frame_marks_before seq_limit icount_limit defer_same_icount_epoch rest
        else throw (ReplayRan (FrameMarkMissed mark_icount o))
  end.

(** A record's application through the rail. *)
Definition apply_on_rail (f : method Rail RecordError (option Z)) : prog World Error (option Z) :=
  map_err (fun e => ReplayApply (RecordRefused e)) (io (on_rail f)).

Definition land_and_apply (icount : Z) (epoch_after_canonical : bool) (f : method Rail RecordError (option Z)) :
    prog State Error unit :=
  o ← run_to icount false (negb epoch_after_canonical) false None;
  _ ← of_outcome (require_landed o icount);
  _ ← on_world (apply_on_rail f);
  pass.

Definition has_detchannel (w : World) : bool :=
  match replay_detchannel (rail_bus (c_rail w.2)) with Some _ => true | None => false end.

Inductive Applied := Regenerated | AppliedNow | ReachedEnd.
Definition apply_record (epoch_after_canonical : bool) (rec : logrec) : prog State Error Applied :=
  let '(r, b) := rec in
  let landed f := _ ← land_and_apply (icount r) epoch_after_canonical f; mret AppliedNow in
  match b with
  | End _ _ => mret ReachedEnd
  | PadSet port buttons frame_hint => landed (apply_pad_set (icount r) (boundary_rip r) port buttons frame_hint)
  | NetRx frame => landed (apply_net_rx (icount r) (boundary_rip r) frame)
  | DevEvent device_id event_type data =>
      here ← on_world (observe (fun w => Ok (has_detchannel w)));
      if detchannel_exit_generated_event device_id event_type && here then mret Regenerated
      else landed (apply_dev_event (icount r) (boundary_rip r) device_id event_type data)
  | other => throw (ReplayApply (UnexpectedCanonical other))
  end.

(** The walk over the canonical records: how many were applied, and the marks left. *)
Fixpoint walk_canonical (epoch_after : list Z) (canonical : list logrec) (marks : list (Z * Z * Z)) (applied : Z) :
    prog State Error (Z * list (Z * Z * Z)) :=
  match canonical with
  | [] => mret (applied, marks)
  | rec :: rest =>
      let at_icount := icount rec.1 in
      let epoch_after_canonical := bool_decide (at_icount ∈ epoch_after) in
      marks ← replay_frame_marks_before (seq rec.1) at_icount epoch_after_canonical marks;
      a ← apply_record epoch_after_canonical rec;
      match a with
      | ReachedEnd => mret (applied, marks)
      | Regenerated => walk_canonical epoch_after rest marks applied
      | AppliedNow =>
          quiet ← on_world (observe (fun w => Ok (bool_decide (rail_irqs (c_rail w.2) = []))));
          if negb quiet then throw (NotYetWired "vectored input replay needs run control's injection scheduling")
          else
            let last_here := match rest with next :: _ => negb (icount next.1 =? at_icount) | [] => true end in
            _ ← (if last_here && epoch_after_canonical then _ ← verify_current_epoch at_icount; pass else pass);
            walk_canonical epoch_after rest marks (applied + 1)
      end
  end.

(** *** The tail and the end identity *)

Section Tail.
Context (header : Header) (expected_reason : StopReason).

Definition terminal_bisection_divergence (what : string) (expected_hash got_hash : bytes) : prog World Error BisectionDivergence :=
  selected ← of_outcome (select_terminal_bisection bisection_index (h_end_icount header));
  probe ← observe (fun w : World => Ok (c_probe w.2));
  let missing := BisectionPrecondition (TerminalProbeMissing (p_seq (ic_position (sel_checkpoint selected)))
                   (ic_icount (sel_checkpoint selected))) in
  match probe with
  | Some probe =>
      if bool_decide (pb_checkpoint_position probe = ic_position (sel_checkpoint selected))
      then bisection_divergence_from_probe selected (pb_snapshot_ref probe) what expected_hash got_hash
      else throw missing
  | None => throw missing
  end.

(** A divergence at the end, refined when there is an index. *)
Definition end_divergence {A} (what : string) (expected_hash got_hash : bytes) : prog State Error A :=
  match bisection_index with
  | Some _ =>
      d ← on_world (terminal_bisection_divergence what expected_hash got_hash);
      throw (ReplayBisection d)
  | None => throw (ReplayDivergence what (h_end_icount header) expected_hash got_hash)
  end.
Definition check_end_vns (vns : Z) : prog State Error unit :=
  if negb (vns =? h_end_vns header) then end_divergence "end_vns" (u64_hash (h_end_vns header)) (u64_hash vns) else pass.
Definition tail_stopped (out : SegmentOutcome) : Error :=
  ReplayRan (TailStopped (reason out) (b_icount (boundary out)) expected_reason (h_end_icount header)).

(** The tail of a recording that ends on an SDK event. *)
Definition sdk_tail (target : ReplaySdkEventTarget) : prog State Error (option SegmentOutcome) :=
  tail ← run_to (h_end_icount header) false true false None;
  drained ← on_world (map_err (fun f => ReplayRan (PauseDrain f))
              (io (on_rail (replay_detchannel_drain_at_pause (h_end_icount header)))));
  _ ← (if bool_decide (tg_event target ∈ drained) then on_world (cells (note_observed (h_end_icount header))) else pass);
  observed ← on_world (observe (fun w : World => Ok (c_observed w.2)));
  match observed with
  | None => throw (ReplayRan (TargetUnobserved (tg_event target) (h_end_icount header)))
  | Some observed_target_icount =>
      match tail with
      | None => mret tail
      | Some out =>
          if negb (terminal_sdk_finish_tail_matches_recording (reason out) (b_icount (boundary out)) observed_target_icount
                     (h_end_icount header) expected_reason)
          then throw (tail_stopped out)
          else
            let at_end := b_icount (boundary out) =? h_end_icount header in
            _ ← (if at_end then check_end_vns (RunCtl.vns out) else pass);
            _ ← (if at_end then push_link_here (h_end_icount header) (h_end_vns header) else pass);
            mret tail
      end
  end.

Definition plain_tail : prog State Error (option SegmentOutcome) :=
  tail ← run_to (h_end_icount header) true true false None;
  match tail with
  | None => mret tail
  | Some out =>
      let reason_ok := bool_decide (reason out = BudgetReached) ||
        (bool_decide (reason out = GuestHalted) && bool_decide (expected_reason = GuestHalted)) in
      if negb reason_ok || negb (b_icount (boundary out) =? h_end_icount header) then throw (tail_stopped out)
      else _ ← check_end_vns (RunCtl.vns out); mret tail
  end.

(** No tail was run: the final link, unless an epoch's is already there. *)
Definition link_without_tail (tail : option SegmentOutcome) : prog State Error unit :=
  at_ ← on_world read_counter_now;
  last ← on_world (observe (fun w : World => Ok (c_last_epoch_icount w.2)));
  if bool_decide (tail = None) && (at_ =? h_end_icount header) && negb (bool_decide (last = Some (h_end_icount header)))
  then push_link_here (h_end_icount header) (h_end_vns header) else pass.

Definition tail_landed (tail : option SegmentOutcome) : bool :=
  match tail with
  | Some out => bool_decide (reason out = BudgetReached) && (b_icount (boundary out) =? h_end_icount header)
  | None => false
  end.

(** The retry past a terminal HLT; the end hash it leaves. *)
Definition halt_retry (chain_before_tail live_end : bytes) : prog State Error bytes :=
  _ ← modify (fun st : State => (st.1, chain_before_tail));
  if u64_max <? h_end_icount header + 1 then throw (ReplayApply HltRetryOverflow)
  else
    o ← run_to (h_end_icount header + 1) true true false None;
    match o with
    | Some out =>
        if bool_decide (reason out = GuestHalted) && (b_icount (boundary out) =? h_end_icount header)
        then _ ← check_end_vns (RunCtl.vns out); observe (fun st : State => Ok st.2)
        else mret live_end
    | None => mret live_end
    end.

(** The end hash: the chain's, the recording's where the SDK tail allows it, or
    the retry's. *)
Definition live_end_hash (tail : option SegmentOutcome) (verified_before_tail : nat) (chain_before_tail : bytes) :
    prog State Error bytes :=
  st ← observe (fun st : State => Ok st);
  let live_end := (st : State).2 in
  let differs h := negb (bool_decide (h = h_end_state_hash header)) in
  let sdk := bool_decide (is_Some terminal_sdk_target) in
  let live_end :=
    if differs live_end && sdk && terminal_sdk_recorded_end_hash_substitution_allowed tail (c_observed st.1.2)
         (h_end_icount header) expected_reason
    then h_end_state_hash header else live_end in
  if differs live_end && negb sdk && bool_decide (expected_reason = BudgetReached) && tail_landed tail &&
     (c_verified st.1.2 =? verified_before_tail)%nat
  then halt_retry chain_before_tail live_end else mret live_end.

Definition unconsumed (w : World) : option ReplayInjectPlanError :=
  h ← replay_detchannel (rail_bus (c_rail w.2)); (with_inject_plan_mut (fun p => (unconsumed_error p, p)) h.1).1.

Definition check_end (live_end : bytes) : prog State Error unit :=
  verified ← on_world (observe (fun w : World => Ok (c_verified w.2)));
  if negb (verified =? length expected_epochs)%nat
  then end_divergence "EPOCH_HASH count (recording has more than replay produced)" (replicate 32 0) (replicate 32 0)
  else if negb (bool_decide (live_end = h_end_state_hash header))
  then end_divergence "end_state_hash" (h_end_state_hash header) live_end
  else
    error ← on_world (observe (fun w => Ok (unconsumed w)));
    match error with
    | Some e =>
        let d := into_divergence e (h_end_icount header) in
        throw (ReplayDivergence (dg_what d) (dg_at_icount d) (dg_expected d) (dg_got d))
    | None => pass
    end.

(** *** The reseal *)

Definition outcome_like (live_end : bytes) : SegmentOutcome :=
  mkSegmentOutcome expected_reason (mkBoundary (h_end_icount header) 0 0) (h_end_vns header) live_end 0 None 0.

Fixpoint first_diff (i : Z) (a b : bytes) : Z :=
  match a, b with x :: a, y :: b => if x =? y then first_diff (i + 1) a b else i | _, _ => i end.

Definition check_reseal (log : LogReader) (log_bytes resealed : bytes) : outcome Error unit :=
  if bool_decide (resealed = log_bytes) then Ok tt
  else
    same ← err_map ReplayLog (reseal_equivalent_ignoring_bisection_checkpoints resealed log);
    if (same : bool) then Ok tt
    else
      d ← err_map ReplayLog (classify_reseal_divergence resealed log);
      match d with
      | Some d => Err (ReplayDivergence (dg_what d) (dg_at_icount d) (dg_expected d) (dg_got d))
      | None => Err (ReplayDivergence "resealed log bytes (at_icount = first differing byte offset)"
                  (first_diff 0 resealed log_bytes) (h_body_hash header) (replicate 32 0))
      end.

(** What the run of the segment leaves for the verdict: the records applied, the
    epochs verified and the chain's value before the tail, and the tail. *)
Record SegmentRun := mkSegmentRun {
  sr_applied : Z;
  sr_verified_before_tail : nat;
  sr_chain_before_tail : bytes;
  sr_tail : option SegmentOutcome }.
(** From the restored base to the recording's end. *)
Definition replay_run (epoch_after : list Z) (canonical : list logrec) (marks : list (Z * Z * Z)) : prog State Error SegmentRun :=
  walked ← walk_canonical epoch_after canonical marks 0;
  _ ← replay_frame_marks_before u32_max (h_end_icount header) false walked.2;
  before ← observe (fun st : State => Ok (c_verified st.1.2, st.2));
  tail ← match terminal_sdk_target with Some target => sdk_tail target | None => plain_tail end;
  _ ← link_without_tail tail;
  mret (mkSegmentRun walked.1 before.1 before.2 tail).

(** From the restored base to the verdict. *)
Definition replay_body (log : LogReader) (log_bytes : bytes) (epoch_after : list Z) (canonical : list logrec)
    (marks : list (Z * Z * Z)) : prog State Error ReplayOutcome :=
  run ← replay_run epoch_after canonical marks;
  live_end ← live_end_hash (sr_tail run) (sr_verified_before_tail run) (sr_chain_before_tail run);
  _ ← check_end live_end;
  resealed ← observe (fun st : State => err_map (fun e => ReplayApply (ResealFailed e))
               (seal_rail (outcome_like live_end) (h_end_snapshot_id header) (c_rail st.1.2)));
  _ ← of_outcome (check_reseal log log_bytes resealed);
  mret (mkReplayOutcome (sr_applied run) (Z.of_nat (length expected_epochs)) (h_end_icount header) live_end resealed).
End Tail.
End Segment.

(** *** The entry points *)

Definition expected_epochs_of (aux : list logrec) : list (Z * Z * bytes) :=
  omap (fun rb : logrec => match rb.2 with EpochHash idx value => Some (idx, icount rb.1, value) | _ => None end) aux.
Definition frame_marks_of (aux : list logrec) : list (Z * Z * Z) :=
  omap (fun rb : logrec => match rb.2 with LogReader.FrameMark frame => Some (seq rb.1, icount rb.1, frame) | _ => None end) aux.

(** The icounts at which an epoch hash follows a canonical input. *)
Fixpoint epochs_after_canonical (current : option Z) (saw : bool) (found : list Z) (rs : list logrec) : list Z :=
  match rs with
  | [] => found
  | (r, b) :: rs =>
      let saw := if bool_decide (current = Some (icount r)) then saw else false in
      match b with
      | PadSet _ _ _ | NetRx _ | DevEvent _ _ _ => epochs_after_canonical (Some (icount r)) true found rs
      | EpochHash _ _ =>
          epochs_after_canonical (Some (icount r)) saw
            (if saw && negb (bool_decide (icount r ∈ found)) then found ++ [icount r] else found) rs
      | End _ _ => found
      | _ => epochs_after_canonical (Some (icount r)) saw found rs
      end
  end.

Definition check_header (header : Header) (machine_config : MachineConfig) (base_snapshot : bytes) : outcome Error unit :=
  if negb (bool_decide (h_base_snapshot_id header = base_snapshot)) then Err (HeaderMismatch "base_snapshot_id")
  else
    hash ← err_map (fun e => ReplayApply (ConfigHash e)) (config_hash machine_config);
    if negb (bool_decide (h_machine_config_hash header = hash)) then Err (HeaderMismatch "machine_config_hash")
    else if negb (h_clock_num header =? clock_num (Config.clock machine_config)) ||
            negb (h_clock_den header =? clock_den (Config.clock machine_config))
    then Err (HeaderMismatch "clock ratio") else Ok tt.

(** The rail once the base is restored into its bus. *)
Definition restored_rail (header : Header) (applied : AppliedMachine E) (bus : list (Z * BoxDev M E)) (rail : Rail) : Rail :=
  mkRail bus (am_lapic applied) (rail_serial rail)
    (if bool_decide (h_entropy_seed header = replicate 32 0) then am_entropy applied else entropy_from_seed (h_entropy_seed header))
    (rail_log rail) (rail_mem rail) (rail_irqs rail).
Definition fresh_cells (rail : Rail) (store : K) (progress : Q) : Cells :=
  mkCells rail store progress 0 None None None None None None None None 0.

(** The slot, the store and the callback's state outlive the call; the rail does not. *)
Local Notation Outer := (S * K * Q)%type.
Definition run_body {A} (m : prog (S * Cells * StateHashChain) Error A) (rail : Rail) (chain : StateHashChain) :
    prog Outer Error A := fun out =>
  match m (out.1.1, fresh_cells rail out.1.2 out.2, chain) with
  | Some (o, (s, c, _)) => Some (o, (s, c_store c, c_progress c))
  | None => None
  end.
Definition restore_base (machine_config : MachineConfig) (base_snapshot : bytes) (rail : Rail) :
    prog Outer Error (RestoreOutcome E * list (Z * BoxDev M E)) := fun out =>
  match restore_snapshot SlotState.Paused machine_config base_snapshot true out.1.2 (mkMachine out.1.1 (rail_bus rail) None) with
  | Some (o, m) =>
      Some (match o with Ok r => Ok (r, m_bus m) | Err e => Err (ReplayRestore e) | Panic => Panic end,
            (m_slot m, out.1.2, out.2))
  | None => None
  end.

(** What is known before the guest runs: the log and what is read off it, and the
    rail and the chain of the restored base. *)
Record Prepared := mkPrepared {
  pr_log : LogReader;
  pr_base : ReplayBisectionBase;
  pr_expected_epochs : list (Z * Z * bytes);
  pr_terminal : option SelectedBisectionCheckpoint;
  pr_sdk_target : option ReplaySdkEventTarget;
  pr_expected_reason : StopReason;
  pr_epoch_after : list Z;
  pr_canonical : list logrec;
  pr_marks : list (Z * Z * Z);
  pr_rail : Rail;
  pr_chain : StateHashChain }.
Definition replay_prepare (rail : Rail) (machine_config : MachineConfig) (base_snapshot log_bytes : bytes)
    (bisection_index : option BisectionCheckpointIndex) : prog Outer Error Prepared :=
  log ← of_outcome (err_map ReplayLog (LogReader_parse log_bytes));
  let header := rd_header log in
  _ ← of_outcome (check_header header machine_config base_snapshot);
  base ← restore_base machine_config base_snapshot rail;
  let '(restored, bus) := (base : RestoreOutcome E * list (Z * BoxDev M E)) in
  let applied := ro_machine restored in
  start_vns ← of_outcome (ok_or (ReplayRan StartVnsOverflow) (vns_from_icount (Config.clock machine_config) 0));
  aux ← of_outcome (log_aux log);
  records ← of_outcome (log_records log);
  en ← of_outcome (infallible (LogReader_end log));
  expected_reason ← of_outcome (ok_or (ReplayApply (UnknownStopReason en.1)) (stop_reason_from_u8 en.1));
  canonical ← of_outcome (log_canonical log);
  mret (mkPrepared log
    (mkBisectionBase (am_cumulative_icount applied) (am_vns applied) (am_epoch_index applied) start_vns)
    (expected_epochs_of aux)
    (index ← bisection_index; select_for_divergence index (TerminalEndState (h_end_icount header)))
    (terminal_sdk_target_for_tail records (h_end_icount header))
    expected_reason (epochs_after_canonical None false [] records) canonical (frame_marks_of aux)
    (restored_rail header applied bus rail) (am_chain applied)).

Definition replay_segment_with_epoch_progress_and_bisection (fuel : nat) (rail : Rail) (machine_config : MachineConfig)
    (base_snapshot log_bytes : bytes) (bisection_index : option BisectionCheckpointIndex)
    (on_epoch_ok : Z -> Z -> bytes -> Q -> outcome Error unit * Q) : prog Outer Error ReplayOutcome :=
  p ← replay_prepare rail machine_config base_snapshot log_bytes bisection_index;
  run_body
    (replay_body fuel machine_config bisection_index on_epoch_ok (pr_base p) (pr_expected_epochs p) (pr_terminal p) (pr_sdk_target p)
       (rd_header (pr_log p)) (pr_expected_reason p) (pr_log p) log_bytes (pr_epoch_after p) (pr_canonical p) (pr_marks p))
    (pr_rail p) (pr_chain p).

Definition replay_segment_with_epoch_progress (fuel : nat) (rail : Rail) (machine_config : MachineConfig)
    (base_snapshot log_bytes : bytes) on_epoch_ok : prog Outer Error ReplayOutcome :=
  replay_segment_with_epoch_progress_and_bisection fuel rail machine_config base_snapshot log_bytes None on_epoch_ok.
Definition replay_segment (fuel : nat) (rail : Rail) (machine_config : MachineConfig) (base_snapshot log_bytes : bytes) :
    prog Outer Error ReplayOutcome :=
  replay_segment_with_epoch_progress fuel rail machine_config base_snapshot log_bytes (fun _ _ _ q => (Ok tt, q)).
End Executor.
