(* ===== verification/RunService.v ===== *)
(** * Running a slot: [dh-worker/src/service.rs], [drive_recorded_run]

    One [Run] of a slot on its actor thread: the recording rail is attached, the
    segment is driven with the worker's exit handler and sinks, and the slot ends
    Paused at the stop boundary or Faulted.  As in [ReplayRun], the world of the
    segment is the slot and the [Cells] its closures share.  A streaming run also
    takes live inputs: the [InjectInputs] calls other threads complete before the
    run takes the side channel's lock are [arrivals].  Locks are not poisoned;
    metrics are left out. *)

From Stdlib Require Import String.
From stdpp Require Import strings.
From S2P Require Import Prelude Vt DhiLog SlotState SlotManager Status Lapic DevCtx Devices Detchannel Bus Dirty Config Kvm VcpuState StateHash Boundary RunCtl Recording Snapshot Restore RuntimeTable Runtime Inputs Capture Worker Replay ReplayRun.
Import DetChannel.
Local Open Scope string_scope.
Local Open Scope list_scope.
Local Open Scope Z_scope.

(** ** Requests *)

Definition segment_vns_from_icount (config : MachineConfig) (segment_icount : Z) : outcome Status Z :=
  ok_or (failed_precondition [Lit "segment vns conversion overflow"]) (vns_from_icount (Config.clock config) segment_icount).
Definition hard_icount_cap (raw : Z) : Z := if raw =? 0 then 10000000000 else raw.

(** [sdk_event_filter] is [None] when the run does not wait for an event. *)
Record RunUntil := mkRunUntil { ru_until : Until; ru_sdk_event_filter : option (option Z) }.
Inductive WireUntil := WIcountBudget (n : Z) | WVnsBudget (n : Z) | WFrameBudget (n : Z) | WNextSdkEvent (stream : option Z) | WGoal.
Definition until_from_run_request (u : option WireUntil) (hard_cap : Z) : outcome Status RunUntil :=
  u ← ok_or (invalid_argument [Lit "RunRequest.until is required"]) u;
  match u with
  | WIcountBudget n => Ok (mkRunUntil (UntilIcount n) None)
  | WVnsBudget n => Ok (mkRunUntil (UntilVns n) None)
  | WFrameBudget n => Ok (mkRunUntil (UntilFrames n (hard_icount_cap hard_cap)) None)
  | WNextSdkEvent stream => Ok (mkRunUntil (UntilSdkEvent (hard_icount_cap hard_cap)) (Some stream))
  | WGoal => Err (unimplemented_status "Run goal")
  end.
Inductive WireFrameUntil := FIcountBudget (n : Z) | FVnsBudget (n : Z).
Definition until_from_frame_capture_request (u : option WireFrameUntil) : outcome Status RunUntil :=
  u ← ok_or (invalid_argument [Lit "RunWithFrameCaptureRequest.until is required"]) u;
  match u with
  | FIcountBudget n => Ok (mkRunUntil (UntilIcount n) None)
  | FVnsBudget n => Ok (mkRunUntil (UntilVns n) None)
  end.

Definition run_error_to_status (e : RunError) : Status :=
  match e with
  | RunAgenda _ | ClockOverflow | MissingSdkEventFeed => failed_precondition [Shown e]
  | RunBoundary _ | RunInject _ | RunKvm _ => data_loss [Shown e]
  end.

(** ** Exits *)

(** The texts of the [BoundaryError::Exit] an exit fails with. *)
Inductive ServiceFault :=
| OnRail (f : RailFault)
| PioWithoutChannel
| ChannelAnomaly
| FrameAnomaly
| EventNotEncoded.

Section Exits.
Context {B : Blake3} {M E P F : Type} `{!GuestSdk M, !FaultPlan M P}.
#[local] Instance exits_channel : AnyChannel := DetChannelDevice M P F.
Local Notation Bus := (list (Z * BoxDev M E)).
Local Notation Rail := (DeviceRail M E).
Local Notation runtime_detchannel := (runtime_detchannel (P := P) (F := F)).
Local Notation Host := (DetChannelHost M P).
Local Notation Ctx := (DevCtx M E).

Definition drained_guest_event_to_runtime (icount : Z) (ev : GuestEvent Region) : outcome ServiceFault DrainedGuestEvent :=
  k ← ok_or EventNotEncoded (stream_guest_event_payload ev);
  Ok (mkDrained (k : Z * bytes).1 icount (ev_vnanos ev) k.2).
Definition drained_guest_events_to_runtime (events : list (GuestEvent Region)) (event_icount : Z) :
    outcome ServiceFault (list DrainedGuestEvent) := mapM (drained_guest_event_to_runtime event_icount) events.

Definition served : Type := outcome ServiceFault (list DrainedGuestEvent) * Answer * Rail.
(** The check of the sticky log fault at the end. *)
Definition served_unless_fault (fault : option WriteError) (o : outcome ServiceFault (list DrainedGuestEvent)) (a : Answer) (r : Rail) : served :=
  (match o, fault with Ok _, Some e => Err (OnRail (LogFault e)) | _, _ => o end, a, r).

Definition detcall_out (log_icount event_icount port : Z) (data : bytes) (r : Rail) : served :=
  match runtime_detchannel (rail_bus r) with
  | None => (Err PioWithoutChannel, NoAnswer, r)
  | Some (h, put) =>
      let '(events, h, c) := pio_out port (out_word data) h (rail_ctx log_icount r) in
      let r := with_ctx (put h) c r in
      if any_anomaly (metrics h) then (Err ChannelAnomaly, NoAnswer, r)
      else served_unless_fault (log_fault c) (drained_guest_events_to_runtime events event_icount) NoAnswer r
  end.
Definition detcall_in (log_icount port : Z) (len : nat) (r : Rail) : served :=
  match runtime_detchannel (rail_bus r) with
  | None => (Err PioWithoutChannel, NoAnswer, r)
  | Some (h, put) =>
      let '(value, h, c) := pio_in port h (rail_ctx log_icount r) in
      let r := with_ctx (put h) c r in
      let a := Filled (in_fill value len) in
      if any_anomaly (metrics h) then (Err ChannelAnomaly, a, r) else served_unless_fault (log_fault c) (Ok []) a r
  end.

Definition drain_runtime_detchannel_for_exit (event_icount : Z) (bus : Bus) (c : Ctx) :
    outcome ServiceFault (list DrainedGuestEvent) * Bus * Ctx :=
  match runtime_detchannel bus with
  | None => (Ok [], bus, c)
  | Some (h, put) =>
      let '(events, h, c) := drain_at_pause h c in
      (if any_anomaly (metrics h) then Err FrameAnomaly else drained_guest_events_to_runtime events event_icount, put h, c)
  end.
(** A bus write; the frame counter's also drains the channel. *)
Definition bus_write (log_icount event_icount gpa : Z) (data : bytes) (r : Rail) : served :=
  match Bus.write gpa data (rail_ctx log_icount r) (rail_bus r) with
  | (Ok _, bus, c) =>
      if (gpa =? frame_mark_gpa) && (length data =? 4)%nat then
        let '(o, bus, c) := drain_runtime_detchannel_for_exit event_icount bus c in
        served_unless_fault (log_fault c) o NoAnswer (with_ctx bus c r)
      else served_unless_fault (log_fault c) (Ok []) NoAnswer (with_ctx bus c r)
  | (Err e, bus, c) => (Err (OnRail (BusWrite gpa e)), NoAnswer, with_ctx bus c r)
  | (Panic, bus, c) => (Panic, NoAnswer, with_ctx bus c r)
  end.

(** The arms the source repeats from [service_exit] are [service_exit]'s. *)
Definition rail_served (log_icount : Z) (e : VcpuExit) (r : Rail) : served :=
  match service_exit log_icount e r with
  | (Ok _, a, r) => (Ok [], a, r)
  | (Err f, a, r) => (Err (OnRail f), a, r)
  | (Panic, a, r) => (Panic, a, r)
  end.
Definition service_exit_with_detchannel (log_icount event_icount : Z) (e : VcpuExit) (r : Rail) : served :=
  match e with
  | IoOut port data => if detcall_port port then detcall_out log_icount event_icount port data r else rail_served log_icount e r
  | IoIn port len => if detcall_port port then detcall_in log_icount port len r else rail_served log_icount e r
  | MmioWrite gpa data => if contains_mmio gpa then rail_served log_icount e r else bus_write log_icount event_icount gpa data r
  | _ => rail_served log_icount e r
  end.
End Exits.

(** ** The segment and its sinks *)

Definition EXIT_INPUT : Z := 20.
Definition EXIT_CHECKPOINT : Z := 21.
Definition EXIT_FRAME_CAPTURE : Z := 22.
Definition EXIT_LIVE_IRQ : Z := 23.

Record CapturedFrame := mkCapturedFrame { cf_frame_index : Z; cf_icount : Z; cf_fb_lz4 : bytes; cf_fb_info : FbInfo }.
Record RunResponse := mkRunResponse {
  rs_reason : StopReason;
  rs_icount : Z;
  rs_vns : Z;
  rs_state_hash : bytes;
  rs_frames_elapsed : Z;
  rs_sdk_event : option DrainedGuestEvent;
  rs_capture : CaptureOutput }.

Section Service.
Context {B : Blake3} {Lz : Lz4} {M E K R S P F Q : Type}.
Context `{!GuestSdk M, !FaultPlan M P, !RegionSdk M, !GuestMem M, !Snapstore K, !DetEntropy E}.
Context `{!Vcpu S, !VcpuGets S, !TscClock S, !SlotMem S, !SlotRam S M, !ExitPage S, !RamAlias S M, !PauseFlag S, !ThreadHost S}.
#[local] Instance service_channel : AnyChannel := DetChannelDevice M P F.
Local Notation Rail := (DeviceRail M E).
Local Notation Runtime := (SlotRuntime M E R S).
Local Notation runtime_detchannel := (runtime_detchannel (P := P) (F := F)).

(** What the closures share: the rail, the store, what the run collects, the
    side channel of a streaming run, and the other threads. *)
Record Cells := mkCells {
  c_rail : Rail;
  c_store : K;
  c_consumed : list Z;
  c_drained : list DrainedGuestEvent;
  c_feed : Z;
  c_first : option DrainedGuestEvent;
  c_anchor : Z;
  c_live : SlotLiveInputs;
  c_env : Q }.
Local Notation World := (S * Cells)%type.

Definition set_rail (r : Rail) (c : Cells) : Cells :=
  mkCells r (c_store c) (c_consumed c) (c_drained c) (c_feed c) (c_first c) (c_anchor c) (c_live c) (c_env c).
Definition set_store (k : K) (c : Cells) : Cells :=
  mkCells (c_rail c) k (c_consumed c) (c_drained c) (c_feed c) (c_first c) (c_anchor c) (c_live c) (c_env c).
Definition consume (order : Z) (c : Cells) : Cells :=
  mkCells (c_rail c) (c_store c) (c_consumed c ++ [order]) (c_drained c) (c_feed c) (c_first c) (c_anchor c) (c_live c) (c_env c).
Definition set_anchor (a : Z) (c : Cells) : Cells :=
  mkCells (c_rail c) (c_store c) (c_consumed c) (c_drained c) (c_feed c) (c_first c) a (c_live c) (c_env c).
Definition set_live (l : SlotLiveInputs) (q : Q) (c : Cells) : Cells :=
  mkCells (c_rail c) (c_store c) (c_consumed c) (c_drained c) (c_feed c) (c_first c) (c_anchor c) l q.
Definition set_env (q : Q) (c : Cells) : Cells := set_live (c_live c) q c.

(** An operation on the rail, its memory handle being the slot's RAM. *)
Definition on_rail {A} (f : Rail -> A * Rail) (w : World) : A * World :=
  let r := c_rail w.2 in
  let '(a, r) := f (with_device (rail_bus r) (slot_ram w.1) r) in
  (a, (ram_put (rail_mem r) w.1, set_rail r w.2)).
Definition cells {X} (f : Cells -> Cells) : prog World X unit := modify (fun w => (w.1, f w.2)).

Section Sinks.
(** What is fixed when the run starts. *)
Context (start : SlotPosition) (start_segment_vns : Z) (machine_config : MachineConfig).
Context (checkpoints has_store streaming : bool) (sdk_event_filter : option (option Z)) (pending_inputs : list QueuedInput).
Context (frame_hook : option (CapturedFrame -> Q -> FrameSinkFlow * Q)).
Context (arrivals : Q -> list (list ScheduledEvent) * Q).

Definition epoch_len_ : Z := Z.max (Config.epoch_len machine_config) 1.
Definition event_icount_at (icount : Z) : Z := cumulative_event_icount (segment_icount start) (cumulative_icount start) icount.

(** The events of one exit. *)
Definition note_events (events : list DrainedGuestEvent) (c : Cells) : Cells :=
  let matching := match sdk_event_filter with Some filter => List.filter (sdk_event_matches filter) events | None => [] end in
  mkCells (c_rail c) (c_store c) (c_consumed c) (trim_guest_events_to_retention_cap (c_drained c ++ events))
    (c_feed c + Z.of_nat (length matching))
    (match c_first c with Some e => Some e | None => head matching end) (c_anchor c) (c_live c) (c_env c).

Definition service_on_exit : handler World := fun e =>
  icount ← map_err (fun _ => exit_failed EXIT_COUNTER) (observe InstRetired_read);
  res ← io (fun w =>
    let '((o, a), w) := on_rail (service_exit_with_detchannel icount (event_icount_at icount) e) w in (Ok o, (fill_exit a w.1, w.2)));
  match res with
  | Ok events => cells (note_events events)
  | Err _ => throw (exit_failed EXIT_SERVICE)
  | Panic => crash
  end.

Definition apply_here (input : QueuedInput) (b : Boundary) : prog World BoundaryError (list Z) :=
  map_err (fun _ => exit_failed EXIT_INPUT) (io (on_rail (apply_queued_input input b))).
Definition service_input_sink (idx : nat) (b : Boundary) : prog World BoundaryError (list Z) :=
  input ← of_outcome (ok_or (exit_failed EXIT_INPUT) (pending_inputs !! idx));
  vectors ← apply_here input b;
  _ ← cells (consume (q_order input));
  mret vectors.

(** Whether an input waits past the boundary. *)
Definition waits_past (icount : Z) (q : QueuedInput) : bool :=
  match q_at q with QIcount at_ => icount <? at_ | QFrame _ => true end.
Definition checkpoint_boundary (icount checkpoint_vns : Z) (chain_value : bytes) : BoundaryState :=
  mkBoundaryState
    (saturating_add (cumulative_icount start) (saturating_sub icount (segment_icount start)))
    (saturating_add (pos_vns start) (saturating_sub checkpoint_vns start_segment_vns))
    (saturating_add (pos_epoch_index start) (saturating_sub (icount / epoch_len_) (segment_icount start / epoch_len_)))
    chain_value (negb (existsb (waits_past icount) pending_inputs)).
(** The snapshot's reference, the boundary's virtual time and the covered gap. *)
Definition capture_epoch_bisection_checkpoint (icount : Z) (chain_value : bytes) : prog World BoundaryError (bytes * Z * Z) := fun w =>
  let failed := Some (Err (exit_failed EXIT_CHECKPOINT), w) in
  match segment_vns_from_icount machine_config icount with
  | Ok checkpoint_vns =>
      let gap := saturating_sub icount (c_anchor w.2) in
      if u32_max <? gap then failed
      else
        let r := c_rail w.2 in
        match capture_bisection_checkpoint_snapshot_with_lapic w.1 SlotState.Paused (rail_bus r) (rail_lapic r)
                (rail_entropy r) machine_config (checkpoint_boundary icount checkpoint_vns chain_value) (c_store w.2, tt) with
        | Some (o, (k, _)) =>
            Some (match o with
                  | Ok taken => Ok (tk_snapshot_ref taken, checkpoint_vns, gap)
                  | Err _ => Err (exit_failed EXIT_CHECKPOINT)
                  | Panic => Panic
                  end, (w.1, set_store k w.2))
        | None => None
        end
  | Err _ => failed
  | Panic => Some (Panic, w)
  end.
Definition service_epoch_sink (epoch_index : Z) (b : Boundary) (chain_value : bytes) (checkpointable : bool) : prog World BoundaryError unit :=
  let icount := b_icount b in
  taken ← (if checkpointable && checkpoints then
             if has_store then c ← capture_epoch_bisection_checkpoint icount chain_value; mret (Some c)
             else throw (exit_failed EXIT_CHECKPOINT)
           else mret None);
  _ ← map_err (fun _ => exit_failed EXIT_EPOCH_LOG) (io (on_rail (log_epoch_hash epoch_index icount chain_value)));
  match (taken : option (bytes * Z * Z)) with
  | Some (snapshot_ref, checkpoint_vns, gap) =>
      _ ← map_err (fun _ => exit_failed EXIT_CHECKPOINT)
            (io (on_rail (log_bisection_checkpoint icount (b_rip b) gap snapshot_ref checkpoint_vns)));
      cells (set_anchor icount)
  | None => pass
  end.

(** The framebuffer at a frame mark, handed to the caller's hook. *)
Definition service_frame_sink (mark : FrameMark) : prog World BoundaryError FrameSinkFlow :=
  match frame_hook with
  | None => mret Continue
  | Some hook =>
      fb ← observe (fun w : World =>
        err_map (fun _ => exit_failed EXIT_FRAME_CAPTURE)
          (region ← read_framebuffer_region_from_bus (P := P) (F := F) (slot_ram w.1) (rail_bus (c_rail w.2)) RunWithFrameCapture;
           framebuffer_capture (region.1 : Z) region.2 (fm_frame mark)));
      io (fun w : World =>
        let frame := mkCapturedFrame (fm_frame mark) (event_icount_at (fm_icount mark))
                       (compress_prepend_size (fb : bytes * FbInfo).1) fb.2 in
        let '(flow, q) := hook frame (c_env w.2) in (Ok flow, (w.1, set_env q w.2)))
  end.

(** The calls of other threads that come first, then [f] under the lock. *)
Definition serve_calls (calls : list (list ScheduledEvent)) (l : SlotLiveInputs) : SlotLiveInputs :=
  foldl (fun l events => (with_active (live_inject_from_proto events) l).2) l calls.
Definition under_live_lock {A} (f : SlotLiveInputs -> A * SlotLiveInputs) (c : Cells) : A * Cells :=
  let '(calls, q) := arrivals (c_env c) in
  let '(a, l) := f (serve_calls calls (c_live c)) in
  (a, set_live l q c).
Fixpoint apply_live (due : list QueuedInput) (b : Boundary) : prog World BoundaryError unit :=
  match due with
  | [] => pass
  | input :: due =>
      vectors ← apply_here input b;
      match vectors with [] => apply_live due b | _ => throw (exit_failed EXIT_LIVE_IRQ) end
  end.
Definition service_live_sink (frame : Z) (b : Boundary) : prog World BoundaryError unit :=
  if streaming then
    due ← io (fun w : World => let '(due, c) := under_live_lock (observe_frame frame) w.2 in (Ok due, (w.1, c)));
    apply_live due b
  else pass.

Definition load_pause (w : World) : bool * World := let '(b, s) := pause_load w.1 in (b, (s, w.2)).
Definition service_sections (w : World) : bytes := runtime_hash_device_sections (rail_bus (c_rail w.2)) (rail_lapic (c_rail w.2)).
Definition service_segment : Segment World :=
  mkSegmentIn machine_config (segment_icount start) [] None load_pause
    (match sdk_event_filter with Some _ => Some (fun w => c_feed w.2) | None => None end) (Some service_sections).
Definition scheduled_input_icounts : list Z :=
  (fun q => match q_at q with QIcount icount => icount | QFrame _ => segment_icount start end) <$> pending_inputs.
Definition scheduled_frame_inputs : list ScheduledFrameInput :=
  omap (fun p => match q_at p.2 with QFrame frame => Some (mkScheduledFrameInput frame p.1) | QIcount _ => None end)
    (imap pair pending_inputs).
Definition service_run (fuel : nat) (u : Until) : prog (World * StateHashChain) RunError SegmentOutcome :=
  run_segment_with_frame_captures fuel service_segment u (fun w => (false, w)) service_on_exit
    scheduled_input_icounts scheduled_frame_inputs (pos_frame_counter start)
    service_input_sink service_epoch_sink service_frame_sink service_live_sink.
End Sinks.

(** ** The handler *)

(** What a run works on: the slot table, the events it published, the slot's
    runtime, the store, the slot's side channel and the other threads. *)
Record RunWorld := mkRunWorld {
  rw_manager : SlotManager;
  rw_published : list SlotInfo;
  rw_runtime : Runtime;
  rw_store : K;
  rw_live : SlotLiveInputs;
  rw_env : Q }.
Definition put_runtime (rt : Runtime) (w : RunWorld) : RunWorld :=
  mkRunWorld (rw_manager w) (rw_published w) rt (rw_store w) (rw_live w) (rw_env w).
Definition put_live (l : SlotLiveInputs) (w : RunWorld) : RunWorld :=
  mkRunWorld (rw_manager w) (rw_published w) (rw_runtime w) (rw_store w) l (rw_env w).
Definition on_runtime {X} (f : Runtime -> Runtime) : prog RunWorld X unit := modify (fun w => put_runtime (f (rw_runtime w)) w).
Definition on_manager {A} (f : op A) : prog RunWorld SlotError A := fun w =>
  let '(o, m, ev) := f (rw_manager w) in
  Some (o, mkRunWorld m (rw_published w ++ ev) (rw_runtime w) (rw_store w) (rw_live w) (rw_env w)).

(** [frame_counter_from_bus]: of the first pad that downcasts. *)
Fixpoint frame_counter_from_bus (bus : list (Z * BoxDev M E)) : Z :=
  match bus with
  | [] => 0
  | (_, dev) :: bus =>
      match (if box_id dev =? Pad.DEVICE_ID_PV_PAD then downcast AnyPad dev else None) with
      | Some (pad, _) => Pad.frame_counter pad
      | None => frame_counter_from_bus bus
      end
  end.

(** The rail of the runtime, over its slot's RAM; and the runtime with what the
    rail owned moved back. *)
Definition runtime_rail (log : LogWriter) (rt : Runtime) : Rail :=
  with_lapic (rt_lapic rt) (DeviceRail_new (rt_bus rt) (rt_entropy rt) log (slot_ram (rt_slot rt))).
Definition return_rail (r : Rail) (rt : Runtime) : Runtime :=
  with_devices (rail_bus r) (rail_lapic r) (rail_entropy r) (Some (rail_log r)) rt.
(** What the moves into the rail leave when it never comes back. *)
Definition rail_lost (rt : Runtime) : Runtime := with_devices [] LocalApic_default (entropy_from_seed (replicate 32 0)) None rt.

(** [drain_runtime_detchannel_at_pause] *)
Definition pause_drain (log_icount event_icount : Z) (r : Rail) : outcome Status (list DrainedGuestEvent) * Rail :=
  match runtime_detchannel (rail_bus r) with
  | None => (Ok [], r)
  | Some (h, put) =>
      let '(events, h, c) := drain_at_pause h (rail_ctx log_icount r) in
      let r := with_ctx (put h) c r in
      (if any_anomaly (metrics h) then Err (data_loss [Lit "detchannel pause drain anomaly"])
       else match log_fault c with
            | Some e => Err (data_loss [Lit "detchannel pause drain log fault: "; Shown e])
            | None => err_map (fun e => data_loss [Shown e]) (drained_guest_events_to_runtime events event_icount)
            end, r)
  end.
Definition drain_runtime_detchannel_at_pause : method Runtime Status unit := fun rt =>
  match rt_log rt with
  | None => (Err (failed_precondition [Lit "slot has no active DHILOG segment"]), rt)
  | Some log =>
      let p := rt_position rt in
      let '(o, r) := pause_drain (segment_icount p) (cumulative_icount p) (runtime_rail log rt) in
      let rt := with_slot (ram_put (rail_mem r) (rt_slot rt)) (return_rail r rt) in
      match o with
      | Ok events => (Ok tt, with_events (append_guest_events_with_retention_cap (rt_events rt) events) rt)
      | Err e => (Err e, rt)
      | Panic => (Panic, rt)
      end
  end.
Definition on_runtime_method {A} (f : method Runtime Status A) : prog RunWorld Status A := fun w =>
  let '(o, rt) := f (rw_runtime w) in Some (o, put_runtime rt w).

(** Mark the slot Faulted for the status a step failed with. *)
Definition fault_runtime (context : list piece) (slot : nat) (status : Status) : prog RunWorld Status Status :=
  _ ← on_runtime (with_thread (ThreadFaulted (context ++ Lit ": " :: quoted status)));
  o ← reify (on_manager (mark_faulted slot));
  match o with
  | Err fault => mret (internal (context ++ Lit " failed with " :: quoted status ++ [Lit "; also failed to mark slot faulted: "; Shown fault]))
  | _ => mret status
  end.

(** Inputs a streaming run accepted and never reached, with fresh orders. *)
Definition requeue_one (rt : Runtime) (input : QueuedInput) : Runtime :=
  with_queue (rt_queued rt ++ [with_order (rt_next_order rt) input]) (saturating_add (rt_next_order rt) 1) rt.
Definition requeue (leftovers : list QueuedInput) (rt : Runtime) : Runtime :=
  match leftovers with
  | [] => rt
  | _ => let rt := foldl requeue_one rt leftovers in with_queue (sort_queue (rt_queued rt)) (rt_next_order rt) rt
  end.

(** The live window, opened before the bus moves into the rail. *)
Definition live_run_of (rt : Runtime) : LiveInputRun :=
  mkLiveRun (pos_frame_counter (rt_position rt)) [] (2 ^ 63) (rt_config rt)
    (frame_scheduled_irq_precondition (rt_bus rt) (QPadSet 0 0 0)) (frame_scheduled_irq_precondition (rt_bus rt) (QNetRx [])).

Section Drive.
Context (fuel : nat) (checkpoints has_store streaming : bool) (l : Lease) (run_until : RunUntil) (capture : option CaptureSpec).
Context (frame_hook : option (CapturedFrame -> Q -> FrameSinkFlow * Q)) (arrivals : Q -> list (list ScheduledEvent) * Q).
(** The clock's readings at [mark_running] and at [mark_paused_at_position]. *)
Context (started_ms stopped_ms : Z).

(** Drive the segment, take the rail apart and close the live window. *)
Definition run_recorded (log : LogWriter) (start_segment_vns : Z) : prog RunWorld Status (outcome RunError SegmentOutcome * Cells) := fun w =>
  let rt := rw_runtime w in
  let cells := mkCells (runtime_rail log rt) (rw_store w) [] [] 0 None (rt_anchor rt) (rw_live w) (rw_env w) in
  match service_run (rt_position rt) start_segment_vns (rt_config rt) checkpoints has_store streaming (ru_sdk_event_filter run_until)
          (rt_queued rt) frame_hook arrivals fuel (ru_until run_until) ((rt_slot rt, cells), rt_chain rt) with
  | Some (Panic, ((s, c), chain)) =>
      let rt := with_chain chain (with_slot s (rail_lost rt)) in
      Some (Panic, mkRunWorld (rw_manager w) (rw_published w) rt (c_store c) (c_live c) (c_env c))
  | Some (o, ((s, c), chain)) =>
      let rt := with_chain chain (with_slot s (return_rail (c_rail c) rt)) in
      let rt := with_events (append_guest_events_with_retention_cap (rt_events rt) (c_drained c)) rt in
      let '(leftovers, c) := if streaming then under_live_lock arrivals deactivate c else ([], c) in
      let rt := requeue leftovers rt in
      Some (Ok (o, c), mkRunWorld (rw_manager w) (rw_published w) rt (c_store c) (c_live c) (c_env c))
  | None => None
  end.

(** The position after a segment that stopped at [out]. *)
Definition advanced (start : SlotPosition) (start_segment_vns epoch_len : Z) (out : SegmentOutcome) : SlotPosition :=
  let at_ := b_icount (boundary out) in
  mkPosition
    (saturating_add (cumulative_icount start) (saturating_sub at_ (segment_icount start))) at_
    (saturating_add (pos_vns start) (saturating_sub (RunCtl.vns out) start_segment_vns))
    (saturating_add (pos_epoch_index start) (saturating_sub (at_ / epoch_len) (segment_icount start / epoch_len)))
    (pos_frame_counter start).
Definition stopped (start_segment_vns : Z) (out : SegmentOutcome) (c : Cells) (rt : Runtime) : Runtime :=
  let p := advanced (rt_position rt) start_segment_vns (Z.max (Config.epoch_len (rt_config rt)) 1) out in
  let rt := clear_pause_request (with_thread Parked rt) in
  let rt := set_boundary (cumulative_icount p) (segment_icount p) (pos_vns p) (pos_epoch_index p) (rt_chain rt) rt in
  let rt := set_frame_counter (frame_counter_from_bus (rt_bus rt)) (with_anchor (c_anchor c) rt) in
  with_queue (List.filter (fun q => negb (bool_decide (q_order q ∈ c_consumed c))) (rt_queued rt)) (rt_next_order rt) rt.

(** The pause-time drain, the capture and the answer. *)
Definition answer_paused (p : SlotPosition) (out : SegmentOutcome) (c : Cells) : prog RunWorld Status RunResponse :=
  o ← reify (on_runtime_method drain_runtime_detchannel_at_pause);
  match o with
  | Ok _ =>
      taken ← observe (fun w => let rt := rw_runtime w in
        capture_at_boundary (P := P) (F := F) (slot_ram (rt_slot rt)) (rt_bus rt) capture (pos_frame_counter (rt_position rt)));
      mret (mkRunResponse (reason out) (cumulative_icount p) (pos_vns p) (state_hash out) (frames_elapsed out)
              (if bool_decide (reason out = NextSdkEvent) then c_first c else None) taken)
  | Err e => status ← fault_runtime [Lit "detchannel pause drain"] (slot_id l) e; throw status
  | Panic => crash
  end.

(** The manager learns where the runtime stands. *)
Definition settle_paused (out : SegmentOutcome) (c : Cells) : prog RunWorld Status RunResponse :=
  rt ← observe (fun w => Ok (rw_runtime w));
  let p := rt_position (rt : Runtime) in
  _ ← map_err slot_error_to_status (on_manager (mark_paused_at_position l (cumulative_icount p) (rt_base rt) stopped_ms));
  answer_paused p out c.

(** After a segment that returned. *)
Definition land_paused (start_segment_vns : Z) (out : SegmentOutcome) (c : Cells) : prog RunWorld Status RunResponse :=
  _ ← on_runtime (stopped start_segment_vns out c);
  settle_paused out c.

(** The segment, and what its result makes of the slot. *)
Definition run_and_land (log : LogWriter) (start_segment_vns : Z) : prog RunWorld Status RunResponse :=
  ran ← run_recorded log start_segment_vns;
  match (ran : outcome RunError SegmentOutcome * Cells) with
  | (Ok out, c) => land_paused start_segment_vns out c
  | (Err e, c) =>
      _ ← on_runtime (with_thread (ThreadFaulted [Shown e]));
      _ ← reify (E := SlotError) (on_manager (mark_faulted (slot_id l)));
      throw (run_error_to_status e)
  | (Panic, _) => crash
  end.

Definition drive_recorded_run : prog RunWorld Status RunResponse :=
  rt ← observe (fun w => Ok (rw_runtime w));
  start_segment_vns ← of_outcome (segment_vns_from_icount (rt_config (rt : Runtime)) (segment_icount (rt_position rt)));
  if checkpoints && negb (bool_decide (Config.hash_epochs (rt_config rt) = EpochsOn))
  then throw (failed_precondition [Lit "bisection checkpoint recording requires hash_epochs=EPOCHS_ON"])
  else
    _ ← map_err slot_error_to_status (on_manager (mark_running l started_ms));
    _ ← on_runtime (fun rt => clear_pause_request (with_thread (ThreadRunning (current_tid (rt_slot rt))) rt));
    if negb (rt_counter rt) then throw (failed_precondition [Lit "slot actor has no InstRetired counter"])
    else
      _ ← (if streaming then modify (fun w => put_live (activate (live_run_of rt) (rw_live w)) w) else pass);
      log ← of_outcome (ok_or (failed_precondition [Lit "slot has no active DHILOG segment"]) (rt_log rt));
      run_and_land log start_segment_vns.
End Drive.
End Service.
