(* ===== verification/RunServiceOk.v ===== *)
(** * What a run leaves behind

    When a [Run] returns, the slot table and the slot's runtime agree about it:
    the slot is Paused where the runtime stands, or Faulted, or untouched, unless
    its lease ran out; a segment that panics leaves the slot Running. *)

From Stdlib Require Import String.
From stdpp Require Import strings.
From S2P Require Import Prelude Vt DhiLog SlotState SlotManager Status Lapic DevCtx Devices Detchannel Bus Dirty Config Kvm VcpuState StateHash Boundary RunCtl RunKeeps Recording Snapshot Restore RuntimeTable Runtime Inputs Capture Worker WorkerOk Replay ReplayRun RunService.
Import DetChannel.
Local Open Scope string_scope.
Local Open Scope list_scope.
Local Open Scope Z_scope.

(** ** The slot table's side *)

Lemma mark_running_inv l now m e o m' ev :
  slots m !! slot_id l = Some e -> mark_running l now m = (o, m', ev) ->
  (exists err, o = Err err /\ m' = m /\ ev = []) \/
  o = Ok tt /\ state e = SlotState.Paused /\ validate_entry e l now = Ok tt /\ m' = with_slots (<[slot_id l := with_state Running e]> (slots m)) m.
Proof.
  intros He. unfold mark_running, on_entry, get_entry. rewrite He. cbn [ok_or mbind outcome_bind].
  destruct (validate_entry e l now) as [[]|err|] eqn:Ev; cbn [mbind outcome_bind].
  - destruct (state e) eqn:Es; cbn; intros [= <- <- <-]; eauto 7.
  - intros [= <- <- <-]. left. eauto.
  - exfalso. revert Ev. unfold validate_entry. by repeat case_match.
Qed.

Lemma mark_paused_at_inv l ic base now m e o m' ev :
  slots m !! slot_id l = Some e -> state e = Running -> mark_paused_at_position l ic base now m = (o, m', ev) ->
  (exists err, o = Err err /\ m' = m /\ validate_entry e l now = Err err) \/
  o = Ok tt /\ m' = with_slots (<[slot_id l := with_state SlotState.Paused (with_position ic base e)]> (slots m)) m.
Proof.
  intros He Hs. unfold mark_paused_at_position, get_entry. rewrite He. cbn [ok_or].
  destruct (validate_entry e l now) as [[]|err|] eqn:Ev.
  - cbn. rewrite Hs. cbn. intros [= <- <- <-]. right. split; [done|]. unfold with_slots. cbn. by rewrite list_insert_insert_eq.
  - intros [= <- <- <-]. left. eauto.
  - exfalso. revert Ev. unfold validate_entry. by repeat case_match.
Qed.

Lemma mark_faulted_inv slot m e :
  slots m !! slot = Some e -> state e = Running \/ state e = SlotState.Paused ->
  mark_faulted slot m = (Ok tt, with_slots (<[slot := with_state SlotState.Faulted e]> (slots m)) m, [info_of (with_state SlotState.Faulted e) slot]).
Proof. intros He Hs. unfold mark_faulted, on_entry, get_entry. rewrite He. cbn. by destruct Hs as [-> | ->]. Qed.

Section Service.
Context {B : Blake3} {Lz : Lz4} {M E K R S P F Q : Type}.
Context `{!GuestSdk M, !FaultPlan M P, !RegionSdk M, !GuestMem M, !Snapstore K, !DetEntropy E}.
Context `{!Vcpu S, !VcpuGets S, !TscClock S, !SlotMem S, !SlotRam S M, !ExitPage S, !RamAlias S M, !PauseFlag S, !ThreadHost S}.
Local Notation Runtime := (@SlotRuntime (service_channel (M := M) (P := P) (F := F)) M E R S).
Local Notation RunWorld := (RunWorld (M := M) (E := E) (K := K) (R := R) (S := S) (P := P) (F := F) (Q := Q)).
Implicit Types (rt : Runtime) (w : RunWorld).

(** Neither the place of a runtime nor what it is based on. *)
Definition same_place rt rt' : Prop :=
  rt_position rt' = rt_position rt /\ rt_base rt' = rt_base rt /\ rt_thread rt' = rt_thread rt.
#[local] Instance same_place_preorder : PreOrder same_place.
Proof. split; [done|]. intros a b c (? & ? & ?) (? & ? & ?). unfold same_place. split_and!; congruence. Qed.

Lemma requeue_one_place rt q : same_place rt (requeue_one rt q).
Proof. done. Qed.
Lemma requeue_place l rt : same_place rt (requeue l rt).
Proof.
  unfold requeue. destruct l as [|q l]; [done|]. assert (same_place rt (foldl requeue_one rt (q :: l))) as Hsame; [|exact Hsame].
  revert rt. generalize (q :: l). intros l'. induction l' as [|x l' IH]; intros rt; [done|]. cbn.
  etrans; [|apply IH]. apply requeue_one_place.
Qed.

Lemma drain_place rt o rt' : drain_runtime_detchannel_at_pause rt = (o, rt') -> same_place rt rt'.
Proof.
  unfold drain_runtime_detchannel_at_pause. destruct (rt_log rt); [|by intros [= <- <-]].
  cbv zeta. destruct (pause_drain _ _ _) as [[ev|e|] r]; by intros [= <- <-].
Qed.

Lemma mapM_no_panic {X A A2} (f : A -> outcome X A2) l : (forall a, f a <> Panic) -> mapM f l <> Panic.
Proof.
  intros Hf. induction l as [|a l IH]; [done|]. cbn. apply bind_not_panic; [done|intros b _]. by apply bind_not_panic.
Qed.
Lemma drain_no_panic rt o rt' : drain_runtime_detchannel_at_pause rt = (o, rt') -> o <> Panic.
Proof.
  unfold drain_runtime_detchannel_at_pause. destruct (rt_log rt); [|by intros [= <- <-]]. cbv zeta.
  destruct (pause_drain _ _ _) as [od r] eqn:Ed. assert (od <> Panic) as Hd; [|destruct od; by intros [= <- <-]].
  unfold pause_drain in Ed. destruct (runtime_detchannel _) as [[h put]|]; [|by injection Ed as <- _].
  destruct (drain_at_pause _ _) as [[ev h'] c]. injection Ed as <- _. destruct (any_anomaly _); [done|]. destruct (log_fault c); [done|].
  pose proof (mapM_no_panic (drained_guest_event_to_runtime (cumulative_icount (rt_position rt))) ev) as Hm.
  unfold drained_guest_events_to_runtime. destruct (mapM _ ev); [done..|]. cbn. intros _. apply Hm; [|done]. intros a.
  unfold drained_guest_event_to_runtime. apply bind_not_panic; [by destruct (stream_guest_event_payload a)|done].
Qed.

Section Drive.
Context (fuel : nat) (checkpoints has_store streaming : bool) (l : Lease) (run_until : RunUntil) (capture : option CaptureSpec).
Context (frame_hook : option (CapturedFrame -> Q -> FrameSinkFlow * Q)) (arrivals : Q -> list (list ScheduledEvent) * Q).
Context (started_ms stopped_ms : Z).
Local Notation run_recorded := (run_recorded (R := R) fuel checkpoints has_store streaming run_until frame_hook arrivals).
Local Notation answer_paused := (answer_paused (R := R) (Q := Q) (K := K) l capture).
Local Notation settle_paused := (settle_paused (R := R) (Q := Q) (K := K) l capture stopped_ms).
Local Notation run_and_land := (run_and_land (R := R) fuel checkpoints has_store streaming l run_until capture frame_hook arrivals stopped_ms).
Local Notation land_paused := (land_paused (R := R) (Q := Q) (K := K) l capture stopped_ms).
Local Notation drive := (drive_recorded_run (R := R) fuel checkpoints has_store streaming l run_until capture frame_hook arrivals started_ms stopped_ms).

(** The segment does not touch the table, nor the place of the runtime. *)
Lemma run_recorded_inv log vns w o w' :
  run_recorded log vns w = Some (o, w') ->
  rw_manager w' = rw_manager w /\ (forall e, o <> Err e) /\
  (o = Panic -> rt_thread (rw_runtime w') = rt_thread (rw_runtime w) /\ rt_log (rw_runtime w') = None /\ rt_bus (rw_runtime w') = []) /\
  forall oc, o = Ok oc -> same_place (rw_runtime w) (rw_runtime w') /\ (oc.1 <> Panic) /\ (streaming = true -> rw_live w' = None).
Proof.
  unfold run_recorded. destruct (service_run _ _ _ _ _ _ _ _ _ _ _ _ _) as [[[out|e|] [[s c] chain]]|]; [| | |done]; cbv zeta.
  3:{ by intros [= <- <-]. }
  all: destruct (if streaming then under_live_lock arrivals deactivate c else ([], c)) as [leftovers c'] eqn:El; intros [= <- <-];
    split_and!; [done..|]; intros oc [= <-]; split_and!; [|done|];
    [etrans; [|apply requeue_place]; done|];
    intros ->; unfold under_live_lock in El; destruct (arrivals (c_env c)) as [calls q]; cbn in El; by injection El as <- <-.
Qed.

(** From entry [e], the run ends Paused where the runtime is, Faulted, or, when
    the lease was [late], Running.  A panic leaves the slot Running, its runtime
    without the log and the devices that had moved into the rail. *)
Definition ends (late : Prop) (e : SlotEntry) (w w' : RunWorld) (o : outcome Status RunResponse) : Prop :=
  exists e', slots (rw_manager w') = <[slot_id l := e']> (slots (rw_manager w)) /\
    lease e' = lease e /\ live_children e' = live_children e /\ parent e' = parent e /\ ram_is_cow e' = ram_is_cow e /\
    match o with
    | Ok r => state e' = SlotState.Paused /\ runtime_position (rw_runtime w') = (SlotManager.icount e', base_snapshot_id e') /\
        rs_icount r = SlotManager.icount e' /\ rs_vns r = pos_vns (rt_position (rw_runtime w')) /\ rt_thread (rw_runtime w') = Parked
    | Err _ =>
        state e' = SlotState.Faulted /\ (exists why, rt_thread (rw_runtime w') = ThreadFaulted why) \/
        rt_thread (rw_runtime w') = Parked /\
          (state e' = SlotState.Paused /\ runtime_position (rw_runtime w') = (SlotManager.icount e', base_snapshot_id e') \/
           state e' = Running /\ late)
    | Panic =>
        state e' = Running /\ (exists tid, rt_thread (rw_runtime w') = ThreadRunning tid) /\
        rt_log (rw_runtime w') = None /\ rt_bus (rw_runtime w') = []
    end.

Lemma ends_after late e e1 w w1 w' o :
  slots (rw_manager w1) = <[slot_id l := e1]> (slots (rw_manager w)) ->
  lease e1 = lease e -> live_children e1 = live_children e -> parent e1 = parent e -> ram_is_cow e1 = ram_is_cow e ->
  ends late e1 w1 w' o -> ends late e w w' o.
Proof.
  intros Hs Hl Hc Hp Hr (e' & Hs' & Hl' & Hc' & Hp' & Hr' & Ho). exists e'. rewrite Hs', Hs, list_insert_insert_eq.
  split; [done|]. split_and!; [congruence..|exact Ho].
Qed.

Lemma ends_weaken (late late' : Prop) e w w' o : (late -> late') -> ends late e w w' o -> ends late' e w w' o.
Proof.
  intros Hi (e' & Hs & Hl & Hc & Hp & Hr & Ho). exists e'. do 5 (split; [done|]).
  destruct o; [exact Ho| |exact Ho]. destruct Ho as [?|[? [?|[? ?]]]]; eauto 7.
Qed.

Lemma fault_runtime_inv e what st w :
  slots (rw_manager w) !! slot_id l = Some e -> state e = Running \/ state e = SlotState.Paused ->
  exists w', fault_runtime what (slot_id l) st w = Some (Ok st, w') /\
    slots (rw_manager w') = <[slot_id l := with_state SlotState.Faulted e]> (slots (rw_manager w)) /\
    exists why, rt_thread (rw_runtime w') = ThreadFaulted why.
Proof.
  intros He Hs. eexists. split.
  - unfold fault_runtime, mbind, prog_bind, on_runtime, modify, reify, on_manager. cbn [rw_manager put_runtime].
    rewrite (mark_faulted_inv _ _ e) by done. reflexivity.
  - split; [reflexivity|]. eexists. reflexivity.
Qed.

Lemma answer_paused_inv e p out c w o w' :
  slots (rw_manager w) !! slot_id l = Some e -> state e = SlotState.Paused -> rt_thread (rw_runtime w) = Parked ->
  runtime_position (rw_runtime w) = (SlotManager.icount e, base_snapshot_id e) -> p = rt_position (rw_runtime w) ->
  answer_paused p out c w = Some (o, w') -> ends False e w w' o.
Proof.
  intros He Hs Ht Hpos -> H. unfold RunService.answer_paused in H.
  assert (forall rt, same_place (rw_runtime w) rt -> rt_thread rt = Parked /\ runtime_position rt = (SlotManager.icount e, base_snapshot_id e) /\
    rt_position rt = rt_position (rw_runtime w)) as Hsame.
  { intros rt (Hp & Hb & Hth). unfold runtime_position in *. rewrite Hp, Hb, Hth. done. }
  unfold mbind at 1, prog_bind at 1, reify, on_runtime_method in H.
  destruct (drain_runtime_detchannel_at_pause (rw_runtime w)) as [od rt3] eqn:Ed.
  pose proof (drain_no_panic _ _ _ Ed) as Hnp. apply drain_place, Hsame in Ed as (Ht3 & Hp3 & Hq3). clear Hsame.
  assert (slots (rw_manager (put_runtime rt3 w)) = <[slot_id l := e]> (slots (rw_manager w))) as Hw3.
  { cbn. by rewrite list_insert_id. }
  destruct od as [[]|st|].
  - unfold mbind, prog_bind, observe in H. cbn [rw_runtime put_runtime] in H.
    destruct (capture_at_boundary _ _ _ _) as [taken|x|] eqn:Ec; [| |by apply capture_no_panic in Ec];
      injection H as <- <-; exists e; (split; [exact Hw3|]); do 4 (split; [reflexivity|]);
      [|right; split; [exact Ht3|by left]].
    split; [exact Hs|]. split; [exact Hp3|]. cbn [rs_icount rs_vns rw_runtime put_runtime]. rewrite Hq3.
    split; [by injection Hpos|]. split; [reflexivity|exact Ht3].
  - destruct (fault_runtime_inv e [Lit "detchannel pause drain"] st (put_runtime rt3 w)) as (w4 & Hf & Hw4 & Hth); [done|by right|].
    unfold mbind, prog_bind in H. rewrite Hf in H. injection H as <- <-. exists (with_state SlotState.Faulted e).
    split; [exact Hw4|]. do 4 (split; [reflexivity|]). left. split; [reflexivity|exact Hth].
  - done.
Qed.

(** The lease no longer holds when the run stops. *)
Definition run_out (e : SlotEntry) : Prop := exists err, validate_entry e l stopped_ms = Err err.

Lemma settle_paused_inv e out c w o w' :
  slots (rw_manager w) !! slot_id l = Some e -> state e = Running -> rt_thread (rw_runtime w) = Parked ->
  settle_paused out c w = Some (o, w') -> ends (run_out e) e w w' o.
Proof.
  intros He Hs Ht H. pose proof (lookup_lt_Some _ _ _ He) as Hlt. unfold RunService.settle_paused in H.
  unfold mbind at 1, prog_bind at 1, observe in H. cbv zeta in H. set (p := rt_position (rw_runtime w)) in H.
  unfold mbind at 1, prog_bind at 1, map_err, on_manager in H.
  destruct (mark_paused_at_position l (cumulative_icount p) (rt_base (rw_runtime w)) stopped_ms (rw_manager w)) as [[om m2] ev] eqn:Em.
  apply (mark_paused_at_inv _ _ _ _ _ e) in Em as [(err & -> & -> & Hv)|(-> & ->)]; [| |done|done].
  - injection H as <- <-. exists e. split; [cbn; by rewrite list_insert_id|]. do 4 (split; [reflexivity|]).
    right. split; [exact Ht|]. right. split; [exact Hs|]. by exists err.
  - set (e2 := with_state SlotState.Paused (with_position (cumulative_icount p) (rt_base (rw_runtime w)) e)) in *.
    eapply (ends_after _ _ e2); [..|eapply ends_weaken, (answer_paused_inv e2); [done|..|exact H]]; try reflexivity; [|exact Ht].
    cbn. by rewrite list_lookup_insert_eq.
Qed.

Lemma land_paused_inv e vns out c w o w' :
  slots (rw_manager w) !! slot_id l = Some e -> state e = Running ->
  land_paused vns out c w = Some (o, w') -> ends (run_out e) e w w' o.
Proof.
  intros He Hs H. unfold RunService.land_paused in H. unfold mbind, prog_bind, on_runtime, modify in H.
  eapply (ends_after _ _ e); [..|eapply settle_paused_inv; [..|exact H]]; [|reflexivity..| | |reflexivity]; cbn; try done.
  by rewrite list_insert_id.
Qed.

(** Landing does not touch the live queue. *)
Definition keeps_live {A} (m : prog RunWorld Status A) : Prop :=
  forall w o w', m w = Some (o, w') -> rw_live w' = rw_live w.
Lemma keeps_live_bind {A A'} (m : prog RunWorld Status A) (k : A -> prog RunWorld Status A') :
  keeps_live m -> (forall a, keeps_live (k a)) -> keeps_live (m ≫= k).
Proof.
  intros Hm Hk w o w' H. apply prog_bind_inv in H as [(a & w1 & H1 & H2)|[(x & H & _)|[H _]]]; [|eauto..].
  by rewrite (Hk _ _ _ _ H2), (Hm _ _ _ H1).
Qed.
Lemma keeps_live_runtime f : keeps_live (on_runtime f).
Proof. by intros w o w' [= <- <-]. Qed.
Lemma keeps_live_observe {A} (f : RunWorld -> outcome Status A) : keeps_live (observe f).
Proof. by intros w o w' [= <- <-]. Qed.
Lemma keeps_live_faulted slot : keeps_live (reify (E := SlotError) (on_manager (mark_faulted slot))).
Proof.
  intros w o w'. unfold reify, on_manager. destruct (mark_faulted _ _) as [[[]m]ev]; by intros [= <- <-].
Qed.

Lemma land_paused_live vns out c : keeps_live (land_paused vns out c).
Proof.
  apply keeps_live_bind; [apply keeps_live_runtime|intros _]. apply keeps_live_bind; [apply keeps_live_observe|intros rt].
  apply keeps_live_bind; [|intros _].
  { intros w o w'. unfold map_err, on_manager. destruct (mark_paused_at_position _ _ _ _ _) as [[[]m]ev]; by intros [= <- <-]. }
  apply keeps_live_bind.
  { intros w o w'. unfold reify, on_runtime_method. destruct (drain_runtime_detchannel_at_pause _) as [[] rt']; by intros [= <- <-]. }
  intros [a|st|]; [| |by intros w o w' [= <- <-]].
  - apply keeps_live_bind; [apply keeps_live_observe|]. by intros taken w o w' [= <- <-].
  - apply keeps_live_bind; [|by intros s w o w' [= <- <-]].
    apply keeps_live_bind; [apply keeps_live_runtime|intros _]. apply keeps_live_bind; [apply keeps_live_faulted|].
    intros [] w o w'; by intros [= <- <-].
Qed.

Lemma run_and_land_inv e log vns w o w' :
  slots (rw_manager w) !! slot_id l = Some e -> state e = Running -> (exists tid, rt_thread (rw_runtime w) = ThreadRunning tid) ->
  run_and_land log vns w = Some (o, w') -> ends (run_out e) e w w' o /\ (streaming = true -> o <> Panic -> rw_live w' = None).
Proof.
  intros He Hs [tid Ht] H. unfold RunService.run_and_land in H.
  apply prog_bind_inv in H as [([res c] & w1 & Hr & H)|[(x & Hr & ->)|[Hr ->]]]; apply run_recorded_inv in Hr as (Hm & Herr & Hpan & Hok).
  2:{ by destruct (Herr x). }
  2:{ split; [|done]. exists e. rewrite Hm, list_insert_id by done. do 5 (split; [reflexivity|]).
       destruct (Hpan eq_refl) as (-> & Hlog & Hbus). split; [exact Hs|]. split; [by exists tid|by split]. }
  destruct (Hok _ eq_refl) as (_ & Hnp & Hlive). clear Hok Herr. rewrite <- Hm in He.
  destruct res as [out|er|]; [| |done].
  - split.
    + destruct (land_paused_inv _ _ _ _ _ _ _ He Hs H) as (e' & Hs' & Hrest). exists e'. rewrite Hs', Hm. by split.
    + intros Hst _. rewrite (land_paused_live _ _ _ _ _ _ H). by apply Hlive.
  - unfold mbind at 1, prog_bind at 1, on_runtime, modify in H.
    unfold mbind at 1, prog_bind at 1, reify, on_manager in H. cbn [rw_manager put_runtime] in H.
    rewrite (mark_faulted_inv _ _ e) in H by eauto. injection H as <- <-. split; [|by intros Hst _; apply Hlive].
    exists (with_state SlotState.Faulted e). split; [cbn; by rewrite Hm|]. do 4 (split; [reflexivity|]).
    left. split; [reflexivity|]. by eexists.
Qed.

(** C12: a run over a slot with its counter and its log either is refused with
    nothing changed, or started from a Paused slot whose lease held, and then
    the table holds the same slots with only this one moved: Paused exactly
    where the runtime is parked and where the response says, when it answers;
    Faulted in the table and in the runtime, when the segment or the
    pause-time drain failed; Paused, when only the capture was refused; and
    Running when the lease ran out before the run stopped, or when the segment
    panicked.  A panic is caught by nothing here: the slot stays Running under a
    lease that may still hold, with no fault recorded, and the log and the
    devices are lost with the rail.  In every other case the live queue is
    inactive again afterwards.  Nothing after the segment panics. *)
Theorem run_lands_or_faults e w o w' :
  slots (rw_manager w) !! slot_id l = Some e -> rt_counter (rw_runtime w) = true -> is_Some (rt_log (rw_runtime w)) ->
  drive w = Some (o, w') ->
  (exists st, o = Err st) /\ w' = w \/
  state e = SlotState.Paused /\ validate_entry e l started_ms = Ok tt /\ ends (run_out e) e w w' o /\
  (streaming = true -> o <> Panic -> rw_live w' = None).
Proof.
  intros He Hc [log Hlog] H. unfold drive_recorded_run in H.
  unfold mbind at 1, prog_bind at 1, observe in H.
  unfold mbind at 1, prog_bind at 1, of_outcome in H.
  destruct (segment_vns_from_icount _ _) as [vns|st|] eqn:Ev; [|injection H as <- <-; left; by split; [eexists|]|by apply ok_or_no_panic in Ev].
  destruct (checkpoints && _); [injection H as <- <-; left; by split; [eexists|]|].
  unfold mbind at 1, prog_bind at 1, map_err, on_manager in H.
  destruct (mark_running l started_ms (rw_manager w)) as [[om m1] ev] eqn:Em.
  apply (mark_running_inv _ _ _ e) in Em as [(err & -> & -> & ->)|(-> & Hp & Hv & ->)]; [| |done].
  { injection H as <- <-. left. split; [by eexists|]. rewrite app_nil_r. by destruct w. }
  right. split; [exact Hp|]. split; [exact Hv|].
  set (e1 := with_state Running e) in *. set (w1 := mkRunWorld _ _ _ _ _ _) in H.
  unfold mbind at 1, prog_bind at 1, on_runtime at 1, modify at 1 in H. rewrite Hc in H. cbn [negb] in H.
  set (w2 := put_runtime _ w1) in H.
  assert (exists w3, run_and_land log vns w3 = Some (o, w') /\ rw_manager w3 = rw_manager w1 /\
    exists tid, rt_thread (rw_runtime w3) = ThreadRunning tid) as (w3 & H3 & Hm3 & Ht3).
  { unfold mbind at 1, prog_bind at 1 in H. rewrite Hlog in H. destruct streaming; eexists; (split; [exact H|]); (split; [reflexivity|]); by eexists. }
  apply (run_and_land_inv e1) in H3 as [Hends Hlive]; [|rewrite Hm3; apply list_lookup_insert_eq; by eapply lookup_lt_Some|done|exact Ht3].
  split; [|exact Hlive]. eapply (ends_after _ _ e1); [rewrite Hm3; reflexivity|reflexivity..|exact Hends].
Qed.
End Drive.
End Service.
