(* ===== verification/VerifyReplay.v ===== *)
(** * Verification of a recording: [dh-worker/src/verify_replay.rs]

    The replay executor's epochs and verdict as [dh-verify]'s events. *)

From Stdlib Require Import String.
From stdpp Require Import strings.
From S2P Require Import Prelude Vt DhiLog LogReader Bisect DevCtx Detchannel Config Kvm VcpuState StateHash RunCtl Recording Snapshot Restore SnapshotCompare Replay Verify ReplayRun.
Import DetChannel.
Local Open Scope string_scope.
Local Open Scope list_scope.
Local Open Scope Z_scope.

(** An epoch is named only when its own link diverged. *)
Definition first_bad_epoch_for (what : string) (at_icount epoch_len : Z) : option Z :=
  if String.prefix "EPOCH_HASH chain value" what || String.prefix "EPOCH_HASH the recording does not have" what
  then Some (at_icount / Z.max epoch_len 1) else None.

Section Verifier.
Context {B : Blake3} {M E K S Q : Type}.
Context `{!GuestSdk M, !GuestMem M, !Snapstore K, !Postcard, !DetEntropy E}.
Context `{!Vcpu S, !VcpuGets S, !VcpuSets S, !TscClock S, !SlotMem S, !SlotRam S M, !ExitPage S, !RamAlias S M}.
#[local] Existing Instance executor_channel.
Local Notation Rail := (DeviceRail M E).
Local Notation Error := (ReplayError StoreError).

Definition verify_replay_with_bisection_progress (fuel : nat) (rail : Rail) (machine_config : MachineConfig)
    (base_snapshot log_bytes : bytes) (bisection_index : option BisectionCheckpointIndex)
    (on_progress : VerifyProgress -> Q -> outcome Error unit * Q) : prog (S * K * Q) Error VerifyProgress :=
  o ← reify (replay_segment_with_epoch_progress_and_bisection fuel rail machine_config base_snapshot log_bytes bisection_index
        (fun epoch_index icount _ => on_progress (EpochOk epoch_index icount)));
  match o with
  | Ok out => mret (Done (ro_end_icount out) (ro_end_state_hash out))
  | Err (ReplayDivergence what at_icount expected got) =>
      mret (Diverged (first_bad_epoch_for what at_icount (Config.epoch_len machine_config)) at_icount what expected got)
  | Err (ReplayBisection d) => mret (BisectionDiverged d)
  | Err other => throw other
  | Panic => crash
  end.
Definition verify_replay_with_progress (fuel : nat) (rail : Rail) (machine_config : MachineConfig)
    (base_snapshot log_bytes : bytes) (on_progress : VerifyProgress -> Q -> outcome Error unit * Q) :
    prog (S * K * Q) Error VerifyProgress :=
  verify_replay_with_bisection_progress fuel rail machine_config base_snapshot log_bytes None on_progress.
End Verifier.

Section Collected.
Context {B : Blake3} {M E K S : Type}.
Context `{!GuestSdk M, !GuestMem M, !Snapstore K, !Postcard, !DetEntropy E}.
Context `{!Vcpu S, !VcpuGets S, !VcpuSets S, !TscClock S, !SlotMem S, !SlotRam S M, !ExitPage S, !RamAlias S M}.
#[local] Existing Instance executor_channel.

(** The report of a run: its epochs, then the terminal event. *)
Definition verify_replay (fuel : nat) (rail : DeviceRail M E) (machine_config : MachineConfig)
    (base_snapshot log_bytes : bytes) : prog (S * K) (ReplayError StoreError) (list VerifyProgress) := fun sk =>
  match verify_replay_with_progress fuel rail machine_config base_snapshot log_bytes
          (fun event report => (Ok tt, report_push event report)) (sk, []) with
  | Some (o, (sk, report)) =>
      Some (match o with Ok terminal => Ok (report_push terminal report) | Err e => Err e | Panic => Panic end, sk)
  | None => None
  end.
End Collected.
