(* ===== verification/ReplayRunOk.v ===== *)
(** * What an accepted replay proves

    A replay that returns has met every recorded epoch hash at its place, in
    order, told its caller of each, and resealed the recording; a pending
    divergence under bisection never ends as an acceptance. *)

From Stdlib Require Import String.
From stdpp Require Import strings.
From S2P Require Import Prelude Vt DhiLog LogReader Bisect SlotState Lapic DevCtx Devices Detchannel Bus Config Kvm VcpuState StateHash Boundary RunCtl RunKeeps Recording Snapshot Restore SnapshotCompare Replay Verify ReplayRun VerifyReplay.
Import DetChannel.
Local Open Scope string_scope.
Local Open Scope list_scope.
Local Open Scope Z_scope.

Lemma observe_bind {T F A C} (f : T -> outcome F A) (k : A -> prog T F C) s :
  (observe f ≫= k) s = match f s with Ok a => k a s | Err e => Some (Err e, s) | Panic => Some (Panic, s) end.
Proof. unfold mbind, prog_bind, observe. by destruct (f s). Qed.

(** ** Quiet steps *)

Section Epochs.
Context {B : Blake3} {M E K S Q : Type}.
Context `{!GuestSdk M, !GuestMem M, !Snapstore K, !Postcard, !DetEntropy E}.
Context `{!Vcpu S, !VcpuGets S, !VcpuSets S, !TscClock S, !SlotMem S, !SlotRam S M, !ExitPage S, !RamAlias S M}.
#[local] Existing Instance executor_channel.
Local Notation Rail := (DeviceRail M E).
Local Notation Error := (ReplayError StoreError).
Local Notation Cells := (Cells (M := M) (E := E) (K := K) (Q := Q)).
Local Notation World := (S * Cells)%type.
Local Notation State := (World * StateHashChain)%type.

(** What the epoch bookkeeping looks at. *)
Definition core (c : Cells) : nat * Q * option PendingBisectionDivergence := (c_verified c, c_progress c, c_pending c).
(** A property of the bookkeeping, as one of the world. *)
Definition of_core (P : nat -> Q -> option PendingBisectionDivergence -> Prop) (w : World) : Prop :=
  P (c_verified w.2) (c_progress w.2) (c_pending w.2).

Section Kept.
Context (P : nat -> Q -> option PendingBisectionDivergence -> Prop).
Local Notation I := (of_core P).

#[export] Instance of_core_unseen : Unseen I.
Proof.
  constructor; intros; destruct s as [s c0]; unfold of_core in *; cbn in *; unfold on_fst; cbn;
    repeat match goal with |- context [let '(_, _) := ?x in _] => destruct x end; done.
Qed.
#[export] Instance of_core_unseen_tsc : UnseenTsc I.
Proof.
  constructor; intros; destruct s as [s c0]; unfold of_core in *; cbn in *; unfold on_fst; cbn;
    repeat match goal with |- context [let '(_, _) := ?x in _] => destruct x end; done.
Qed.

Lemma keeps_cells {F} f : (forall c, core (f c) = core c) -> keeps I (cells (F := F) f).
Proof.
  intros Hf. apply keeps_modify. intros [s c]. unfold of_core. cbn. specialize (Hf c). unfold core in Hf.
  injection Hf as -> -> ->. done.
Qed.
Lemma of_core_rail {A} (f : Rail -> A * Rail) w : I w -> I (on_rail f w).2.
Proof. unfold of_core, on_rail. by destruct (f _). Qed.
Lemma keeps_rail {F A} (f : Rail -> outcome F A * Rail) : keeps I (io (on_rail f)).
Proof. apply keeps_io. intros w. apply of_core_rail. Qed.
Lemma keeps_log_epoch idx icount value : keeps I (log_epoch idx icount value).
Proof. apply keeps_rail. Qed.
Lemma keeps_capture mc base cp icount value : keeps I (capture_bisection_probe mc base cp icount value).
Proof.
  unfold capture_bisection_probe. destruct (negb _); [apply keeps_throw|]. apply keeps_bind; [apply keeps_outcome|intros vns].
  destruct (negb _); [apply keeps_throw|]. intros w o w' Hw.
  destruct (capture_bisection_checkpoint_snapshot_with_lapic _ _ _ _ _ _ _ _) as [[o1 [k u]]|]; [|done]. by intros [= _ <-].
Qed.
Lemma keeps_from_probe sel r what e g : keeps I (bisection_divergence_from_probe (S := S) sel r what e g : prog World Error _).
Proof. unfold bisection_divergence_from_probe. keep. Qed.
Lemma keeps_probe_divergence mc base sel icount value what e g : keeps I (probe_divergence mc base sel icount value what e g).
Proof. unfold probe_divergence. apply keeps_bind; [apply keeps_capture|intros; apply keeps_from_probe]. Qed.
Hint Resolve keeps_log_epoch keeps_capture keeps_from_probe keeps_probe_divergence : keeps.

Lemma keeps_on_exit target stop e : keeps I (replay_on_exit target stop e).
Proof.
  unfold replay_on_exit. apply keeps_bind; [apply keeps_map_err, keeps_observe|intros icount]. apply keeps_bind.
  - apply keeps_io. intros w Hw. pose proof (of_core_rail (replay_service_exit icount e) w Hw) as Hr.
    destruct (on_rail _ w) as [[o a] [s c]]. exact Hr.
  - intros [evs|[f|d]|].
    + destruct (event_seen target evs); [|apply keeps_pass]. apply keeps_bind; [by apply keeps_cells|intros _].
      destruct stop; [by apply keeps_cells|apply keeps_pass].
    + apply keeps_throw.
    + apply keeps_bind; [by apply keeps_cells|intros _; apply keeps_throw].
    + apply keeps_crash.
Qed.
Lemma keeps_sink_fails code e : keeps I (sink_fails code e).
Proof. apply keeps_bind; [by apply keeps_cells|intros _; apply keeps_throw]. Qed.
Lemma keeps_sink_log idx icount value : keeps I (sink_log idx icount value).
Proof. apply keeps_map_err, keeps_log_epoch. Qed.
Lemma keeps_sink_probe mc base ck sel icount value what e g : keeps I (sink_probe mc base ck sel icount value what e g).
Proof.
  pose proof keeps_sink_fails. unfold sink_probe. destruct (negb ck); [done|].
  apply keeps_bind; [apply keeps_reify, keeps_probe_divergence|]. intros []; [done|done|apply keeps_crash].
Qed.
End Kept.

(** ** Epochs *)

Section Sink.
Context (fuel : nat) (mc : MachineConfig) (index : option BisectionCheckpointIndex).
Context (on_epoch_ok : Z -> Z -> bytes -> Q -> outcome Error unit * Q).
Context (base : ReplayBisectionBase) (expected : list (Z * Z * bytes)).
Context (terminal : option SelectedBisectionCheckpoint) (target : option ReplaySdkEventTarget) (q0 : Q).

Definition tell (e : Z * Z * bytes) (q : Q) : outcome Error unit * Q := on_epoch_ok e.1.1 e.1.2 e.2 q.
(** The callback, told of each epoch in order and accepting each. *)
Fixpoint told (l : list (Z * Z * bytes)) (q : Q) : option Q :=
  match l with
  | [] => Some q
  | e :: l => match tell e q with (Ok _, q) => told l q | _ => None end
  end.
Lemma told_snoc l e q q1 q2 : told l q = Some q1 -> tell e q1 = (Ok tt, q2) -> told (l ++ [e]) q = Some q2.
Proof.
  revert q. induction l as [|x l IH]; intros q; cbn.
  - intros [= ->]. intros He. by rewrite He.
  - destruct (tell x q) as [[[]|?|] q']; [|done..]. apply IH.
Qed.

(** The caller has been told of the verified epochs, and a pending divergence
    leaves at least one that is not. *)
Definition in_step (v : nat) (q : Q) (p : option PendingBisectionDivergence) : Prop :=
  told (take v expected) q0 = Some q /\ (v <= length expected)%nat /\ (is_Some p -> (v < length expected)%nat).
(** Where a failure leaves the caller: told of some of them, or refusing the next. *)
Definition stopped (v : nat) (q : Q) (p : option PendingBisectionDivergence) : Prop :=
  exists n q1, (n <= length expected)%nat /\ told (take n expected) q0 = Some q1 /\
    (q = q1 \/ exists e o, expected !! n = Some e /\ tell e q1 = (o, q) /\ o <> Ok tt).
(** Between the count of an epoch and the call. *)
Definition counted (e : Z * Z * bytes) (v : nat) (q : Q) (p : option PendingBisectionDivergence) : Prop :=
  exists n, v = Datatypes.S n /\ expected !! n = Some e /\ p = None /\ told (take n expected) q0 = Some q.

Local Notation Step := (of_core in_step).
Local Notation Stop := (of_core stopped).
Lemma step_stops (w : World) : Step w -> Stop w.
Proof. intros (Ht & Hl & _). eexists _, _. split; [done|]. split; [done|by left]. Qed.
Lemma counted_stops e (w : World) : of_core (counted e) w -> Stop w.
Proof.
  intros (n & _ & He & _ & Ht). exists n, (c_progress w.2). apply lookup_lt_Some in He. split; [lia|]. split; [done|by left].
Qed.
Lemma step_kept {F A} (m : prog World F A) : keeps Step m -> keeps_ok Stop Step m.
Proof. apply keeps_is_ok, step_stops. Qed.
Lemma counted_kept {F A} e (m : prog World F A) : keeps (of_core (counted e)) m -> keeps_ok Stop (of_core (counted e)) m.
Proof. apply keeps_is_ok, counted_stops. Qed.

(** From one property to another. *)
Definition leads {F A} (P P' : World -> Prop) (m : prog World F A) : Prop := forall w o w', P w -> m w = Some (o, w') ->
  match o with Ok _ => P' w' | _ => Stop w' end.
Lemma leads_bind {F A C} P P1 P2 (m : prog World F A) (k : A -> prog World F C) :
  leads P P1 m -> (forall a, leads P1 P2 (k a)) -> leads P P2 (m ≫= k).
Proof.
  intros Hm Hk w o w' Hw Hb. apply prog_bind_inv in Hb as [(a & w1 & H1 & H2)|[(e & H1 & ->)|[H1 ->]]].
  - eapply Hk; [|exact H2]. exact (Hm _ _ _ Hw H1).
  - exact (Hm _ _ _ Hw H1).
  - exact (Hm _ _ _ Hw H1).
Qed.

Lemma count_leads {F} e : leads (F := F) (fun w => Step w /\ c_pending w.2 = None /\ expected !! c_verified w.2 = Some e)
  (of_core (counted e)) (cells (count_verified e.1.2)).
Proof.
  intros [s c] o w' ((Ht & _) & Hp & He) [= <- <-]. exists (c_verified c). unfold of_core in *. cbn in *. by split_and!.
Qed.
(** The call that ends a matched epoch. *)
Lemma tell_steps e (w : World) o q : of_core (counted e) w -> tell e (c_progress w.2) = (o, q) ->
  match o with Ok _ => Step (w.1, set_progress q w.2) | _ => Stop (w.1, set_progress q w.2) end.
Proof.
  intros (n & Hv & He & Hp & Ht) Hq. destruct w as [s c]. unfold of_core in *. cbn in *.
  assert (o = Ok tt \/ o <> Ok tt) as [->|Ho] by (destruct o as [[]|?|]; auto).
  - unfold in_step. rewrite Hv, Hp. rewrite (take_S_r _ _ _ He). pose proof (lookup_lt_Some _ _ _ He).
    split; [by eapply told_snoc|]. split; [lia|]. by intros [? [=]].
  - assert (stopped (c_verified c) q (c_pending c)) as Hs.
    { exists n, (c_progress c). pose proof (lookup_lt_Some _ _ _ He). split; [lia|]. split; [done|]. right. eauto. }
    destruct o as [[]|?|]; done.
Qed.

Lemma sink_matched_steps e ck : leads (fun w => Step w /\ c_pending w.2 = None /\ expected !! c_verified w.2 = Some e) Step
  (sink_matched mc on_epoch_ok base terminal e.1.1 e.1.2 e.2 ck).
Proof.
  unfold sink_matched. eapply leads_bind; [apply count_leads|intros _].
  eapply leads_bind; [apply counted_kept|intros _].
  { pose proof (keeps_sink_fails (counted e)). destruct terminal as [sel|]; [|apply keeps_pass].
    destruct (selected_checkpoint_is_at_epoch _ _ _); [|apply keeps_pass]. destruct (negb ck); [done|].
    apply keeps_bind; [apply keeps_reify, keeps_capture|]. intros [pr|x|]; [by apply keeps_cells|done|apply keeps_crash]. }
  eapply leads_bind; [apply counted_kept, keeps_sink_log|intros _].
  intros [s c] o w' Hw Hb. apply prog_bind_inv in Hb as [(a & w1 & H1 & H2)|[(x & H1 & ->)|[H1 ->]]];
    unfold io in H1; destruct (on_epoch_ok _ _ _ _) as [o1 q1] eqn:Hq; simplify_eq.
  pose proof (tell_steps e (s, c) _ _ Hw Hq) as Ht. destruct a as [u|x|].
  - by injection H2 as <- <-.
  - injection H2 as <- <-. exact Ht.
  - by injection H2 as <- <-.
Qed.

(** A step from a stronger property. *)
Lemma leads_pre {F A} P P' P1 (m : prog World F A) : (forall w, P1 w -> P w) -> leads P P' m -> leads P1 P' m.
Proof. intros Hi Hm w o w' Hw. apply Hm, Hi, Hw. Qed.
Lemma pending_steps {F} p e : leads (F := F) (fun w => Step w /\ expected !! c_verified w.2 = Some e) Step
  (cells (set_pending_bisection p)).
Proof.
  intros [s c] o w' ((Ht & Hl & _) & He) [= <- <-]. unfold of_core, in_step in *. cbn in *.
  apply lookup_lt_Some in He. by split_and!.
Qed.

Lemma sink_mismatched_steps e idx icount value ck : leads (fun w => Step w /\ expected !! c_verified w.2 = Some e) Step
  (sink_mismatched mc index base e.1.1 e.1.2 e.2 idx icount value ck).
Proof.
  pose proof (keeps_sink_fails in_step) as Hf. unfold sink_mismatched.
  destruct index as [ix|].
  - destruct (negb _); [eapply leads_pre; [by intros w [Hw _]|by apply step_kept]|].
    destruct (select_epoch_bisection _ _ _) as [sel|x|]; [|eapply leads_pre; [by intros w [Hw _]|by apply step_kept]|
      eapply leads_pre; [by intros w [Hw _]|apply step_kept, keeps_crash]].
    destruct (selected_checkpoint_is_at_epoch _ _ _).
    + eapply leads_pre; [by intros w [Hw _]|]. apply step_kept, keeps_sink_probe.
    + eapply leads_bind; [apply pending_steps|intros _]. apply step_kept, keeps_sink_log.
  - eapply leads_pre; [by intros w [Hw _]|]. apply step_kept.
    apply keeps_bind; [by apply keeps_cells|intros _; apply keeps_throw].
Qed.

Lemma sink_steps idx b value ck :
  keeps_ok Stop Step (replay_epoch_sink mc index on_epoch_ok base expected terminal idx b value ck).
Proof.
  intros w o w' Hw. unfold replay_epoch_sink. rewrite observe_bind.
  destruct (c_pending w.2) as [p|] eqn:Hp.
  - destruct (selected_checkpoint_is_at_epoch _ _ _); apply step_kept; [apply keeps_sink_probe|done|apply keeps_sink_log|done].
  - rewrite observe_bind.
    destruct (expected !! c_verified w.2) as [[[e_idx e_icount] e_value]|] eqn:He.
    + destruct (_ && _) eqn:Hm.
      * apply andb_true_iff in Hm as [[->%Z.eqb_eq ->%Z.eqb_eq]%andb_true_iff ->%bool_decide_eq_true].
        by apply (sink_matched_steps (idx, b_icount b, value)).
      * by apply (sink_mismatched_steps (e_idx, e_icount, e_value)).
    + unfold sink_extra. apply step_kept; [|done]. destruct index; [apply keeps_sink_fails|].
      apply keeps_bind; [by apply keeps_cells|intros _; apply keeps_throw].
Qed.

(** ** Quanta *)

Local Notation JStep := (beside (L := StateHashChain) Step).
Local Notation JStop := (beside (L := StateHashChain) Stop).
Local Notation run_to := (run_to fuel mc index on_epoch_ok base expected terminal target).
Lemma state_kept {F A} (m : prog State F A) : keeps JStep m -> keeps_ok JStop JStep m.
Proof. apply keeps_is_ok. intros w. apply step_stops. Qed.
Lemma world_kept {F A} (m : prog World F A) : keeps Step m -> keeps_ok JStop JStep (on_world m).
Proof. intros Hm. by apply state_kept, keeps_lift. Qed.
Lemma world_leads {F A} (m : prog World F A) : keeps_ok Stop Step m -> keeps_ok JStop JStep (on_world m).
Proof. apply keeps_ok_lift. Qed.

Lemma take_error_stops e (w : World) o w' : Stop w -> take_error e w = Some (o, w') -> Stop w' /\ forall a, o <> Ok a.
Proof.
  unfold take_error. destruct w as [s c]. cbn.
  destruct (c_progress_error c); [|destruct (c_bisection_error c); [|destruct (c_divergence c) as [[[[? ?] ?] ?]|]; [|destruct (c_diagnostic c)]]];
    by intros Hw [= <- <-].
Qed.

Lemma run_to_steps t hs he st fb : keeps_ok JStop JStep (run_to t hs he st fb).
Proof.
  unfold ReplayRun.run_to. apply keeps_ok_bind; [apply world_kept, keeps_map_err, keeps_observe|intros start].
  destruct (t <? start); [apply state_kept, keeps_throw|]. cbn zeta.
  destruct (_ && _ && _); [apply state_kept, keeps_ret|].
  apply keeps_ok_bind; [by apply world_kept, keeps_cells|intros _].
  apply keeps_ok_bind; [apply state_kept, keeps_outcome|intros u].
  set (ev := st && bool_decide (is_Some target)). clearbody ev.
  intros [w ch] o [w' ch'] Hw. unfold mbind, prog_bind, reify.
  destruct (run_segment_with_epoch_options _ _ _ _ _ _ _ _) as [[o1 [w2 ch2]]|] eqn:Hr; [|done].
  unfold run_segment_with_epoch_options in Hr.
  apply (segment_keeps Stop Step step_stops) in Hr; [|constructor; cbn; try done|exact Hw].
  2:{ intros x. apply keeps_on_exit. } 2:{ intros; apply keeps_ret. } 2:{ intros; apply keeps_ret. }
  2:{ intros; apply keeps_pass. } 2:{ intros; apply sink_steps. }
  destruct o1 as [out|e|].
  - by intros [= <- <- <-].
  - unfold on_world, RunCtl.lift. cbn. destruct (take_error e w2) as [[o3 w3]|] eqn:He; [|done].
    intros [= <- <- <-]. destruct (take_error_stops _ _ _ _ Hr He) as [Hs Hn]. destruct o3 as [a|?|]; [by destruct (Hn a)|done..].
  - by intros [= <- <- <-].
Qed.

(** ** The epoch after a boundary's inputs *)

Lemma keeps_log_current idx icount value : keeps Step (log_current_epoch idx icount value).
Proof. apply keeps_map_err, keeps_log_epoch. Qed.
Lemma current_matched_steps e : leads (fun w => Step w /\ c_pending w.2 = None /\ expected !! c_verified w.2 = Some e) Step
  (current_matched mc on_epoch_ok base terminal e.1.1 e.1.2 e.2).
Proof.
  unfold current_matched. eapply leads_bind; [apply count_leads|intros _].
  eapply leads_bind; [apply counted_kept|intros _].
  { destruct terminal as [sel|]; [|apply keeps_pass]. destruct (selected_checkpoint_is_at_epoch _ _ _); [|apply keeps_pass].
    apply keeps_bind; [apply keeps_capture|intros; by apply keeps_cells]. }
  eapply leads_bind; [apply counted_kept, keeps_map_err, keeps_log_epoch|intros _].
  intros [s c] o w' Hw. unfold io. destruct (on_epoch_ok _ _ _ _) as [o1 q1] eqn:Hq. intros [= <- <-].
  exact (tell_steps e (s, c) _ _ Hw Hq).
Qed.
Lemma current_mismatched_steps e idx icount value : leads (fun w => Step w /\ expected !! c_verified w.2 = Some e) Step
  (current_mismatched mc index base e.1.1 e.1.2 e.2 idx icount value).
Proof.
  unfold current_mismatched. destruct index as [ix|]; [|eapply leads_pre; [by intros w [Hw _]|apply step_kept, keeps_throw]].
  destruct (negb _); [eapply leads_pre; [by intros w [Hw _]|apply step_kept, keeps_throw]|].
  eapply (leads_bind _ (fun w => Step w /\ expected !! c_verified w.2 = Some e)).
  { intros w o w' Hw [= <- <-]. destruct (select_epoch_bisection _ _ _); [done|..]; exact (step_stops _ (proj1 Hw)). }
  intros sel. destruct (selected_checkpoint_is_at_epoch _ _ _).
  - eapply leads_pre; [by intros w [Hw _]|]. apply step_kept, keeps_bind; [apply keeps_probe_divergence|intros; apply keeps_throw].
  - eapply leads_bind; [apply pending_steps|intros _]. apply step_kept, keeps_log_current.
Qed.
Lemma check_current_steps e idx icount value : leads (fun w => Step w /\ expected !! c_verified w.2 = Some e) Step
  (check_current mc index on_epoch_ok base terminal e.1.1 e.1.2 e.2 idx icount value).
Proof.
  intros w o w' [Hw He]. unfold check_current. rewrite observe_bind. destruct (c_pending w.2) as [p|] eqn:Hp.
  - destruct (selected_checkpoint_is_at_epoch _ _ _); apply step_kept; try done; [|apply keeps_log_current].
    apply keeps_bind; [apply keeps_probe_divergence|intros; apply keeps_throw].
  - destruct (_ && _) eqn:Hm; [|by apply current_mismatched_steps].
    apply andb_true_iff in Hm as [[Hi%Z.eqb_eq Hc%Z.eqb_eq]%andb_true_iff Hv%bool_decide_eq_true]. rewrite <- Hi, <- Hc, <- Hv.
    by apply current_matched_steps.
Qed.
Lemma keeps_push_link icount vns : keeps JStep (push_link_here (S := S) icount vns : prog State Error unit).
Proof. intros w o w' Hw. unfold push_link_here. destruct (push_final_link _ _ _ _ _); by intros [= _ <-]. Qed.

Lemma verify_current_steps icount :
  keeps_ok JStop JStep (verify_current_epoch mc index on_epoch_ok base expected terminal icount).
Proof.
  intros [w ch] o [w' ch'] Hw. unfold verify_current_epoch.
  intros Hb. apply prog_bind_inv in Hb as [(i & w1 & [= <- <-] & Hb)|[(x & [=] & _)|[[=] _]]]. cbn [fst snd] in Hb.
  destruct (expected !! c_verified w.2) as [e|] eqn:He; [|by injection Hb as <- <- <-].
  destruct e as [[e_idx e_icount] e_value]. destruct (negb _); [by injection Hb as <- <- <-|].
  apply prog_bind_inv in Hb as [(vns & w1 & [= _ <-] & Hb)|[(x & [= _ <- <-] & ->)|[[= _ <- <-] ->]]]; [|by apply step_stops..].
  apply prog_bind_inv in Hb as [(u & [w1 ch1] & Hp & Hb)|[(x & Hp & ->)|[Hp ->]]].
  2,3: apply keeps_push_link in Hp; [by apply step_stops|done].
  assert (w1 = w) as -> by (unfold push_link_here in Hp; cbn [fst snd] in Hp; by destruct (push_final_link _ _ _ _ _); simplify_eq).
  apply prog_bind_inv in Hb as [(v & w1 & [= <- <-] & Hb)|[(x & [=] & _)|[[=] _]]].
  apply prog_bind_inv in Hb as [(u' & [w1 ch2] & Hc & Hb)|[(x & Hc & ->)|[Hc ->]]];
    unfold on_world, RunCtl.lift in Hc; cbn [fst snd] in Hc; destruct (check_current _ _ _ _ _ _ _ _ _ _ _ w) as [[o1 w2]|] eqn:Hcc;
    [|done| |done| |done]; apply (check_current_steps (e_idx, e_icount, e_value)) in Hcc; try done;
    injection Hc as -> <- <-; [injection Hb as <- <- <-|..]; done.
Qed.

(** ** The walk and the tail *)

Lemma frame_marks_step seq_limit icount_limit defer marks : keeps_ok JStop JStep
  (replay_frame_marks_before fuel mc index on_epoch_ok base expected terminal target seq_limit icount_limit defer marks).
Proof.
  induction marks as [|[[sq mi] f] rest IH]; cbn [replay_frame_marks_before]; [apply state_kept, keeps_ret|].
  destruct (_ || _); [apply state_kept, keeps_ret|]. apply keeps_ok_bind; [apply run_to_steps|intros o].
  destruct (frame_replayed mi o); [done|apply state_kept, keeps_throw].
Qed.
Lemma land_and_apply_steps icount after f : keeps_ok JStop JStep
  (land_and_apply fuel mc index on_epoch_ok base expected terminal target icount after f).
Proof.
  unfold land_and_apply. apply keeps_ok_bind; [apply run_to_steps|intros o].
  apply keeps_ok_bind; [apply state_kept, keeps_outcome|intros _].
  apply keeps_ok_bind; [apply world_kept, keeps_map_err, keeps_rail|intros _]. apply state_kept, keeps_pass.
Qed.
Lemma apply_record_steps after rec : keeps_ok JStop JStep
  (apply_record fuel mc index on_epoch_ok base expected terminal target after rec).
Proof.
  destruct rec as [r b]. unfold apply_record. cbv zeta.
  assert (forall f, keeps_ok JStop JStep (_ ← land_and_apply fuel mc index on_epoch_ok base expected terminal target (icount r) after f;
    mret AppliedNow)) as Hl.
  { intros f. apply keeps_ok_bind; [apply land_and_apply_steps|intros _]. apply state_kept, keeps_ret. }
  destruct b; try apply Hl; try apply state_kept, keeps_throw; try apply state_kept, keeps_ret.
  apply keeps_ok_bind; [apply world_kept, keeps_observe|intros here]. destruct (_ && _); [apply state_kept, keeps_ret|apply Hl].
Qed.
Lemma walk_steps after rs : forall marks n, keeps_ok JStop JStep
  (walk_canonical fuel mc index on_epoch_ok base expected terminal target after rs marks n).
Proof.
  induction rs as [|rec rs IH]; intros marks n; cbn [walk_canonical]; [apply state_kept, keeps_ret|]. cbv zeta.
  apply keeps_ok_bind; [apply frame_marks_step|intros m1]. apply keeps_ok_bind; [apply apply_record_steps|].
  intros []; [apply IH| |apply state_kept, keeps_ret].
  apply keeps_ok_bind; [apply world_kept, keeps_observe|intros quiet]. destruct (negb quiet); [apply state_kept, keeps_throw|].
  apply keeps_ok_bind; [|intros _; apply IH]. destruct (_ && _); [|apply state_kept, keeps_pass].
  apply keeps_ok_bind; [apply verify_current_steps|intros _; apply state_kept, keeps_pass].
Qed.

Section TailOk.
Context (header : Header) (expected_reason : StopReason).
Lemma end_divergence_kept {A} what e g : keeps JStep (end_divergence index header what e g : prog State Error A).
Proof.
  unfold end_divergence. destruct index as [ix|]; [|apply keeps_throw].
  apply keeps_bind; [apply keeps_lift|intros; apply keeps_throw]. unfold terminal_bisection_divergence.
  apply keeps_bind; [apply keeps_outcome|intros sel]. apply keeps_bind; [apply keeps_observe|]. intros [pr|]; [|apply keeps_throw].
  destruct (bool_decide _); [apply keeps_from_probe|apply keeps_throw].
Qed.
Lemma end_vns_kept vns : keeps JStep (check_end_vns index header vns : prog State Error unit).
Proof. unfold check_end_vns. destruct (negb _); [apply end_divergence_kept|apply keeps_pass]. Qed.
Lemma sdk_tail_steps t : keeps_ok JStop JStep
  (sdk_tail fuel mc index on_epoch_ok base expected terminal target header expected_reason t).
Proof.
  unfold sdk_tail. apply keeps_ok_bind; [apply run_to_steps|intros tail].
  apply keeps_ok_bind; [apply world_kept, keeps_map_err, keeps_rail|intros drained].
  apply keeps_ok_bind; [destruct (bool_decide _); [by apply world_kept, keeps_cells|apply state_kept, keeps_pass]|intros _].
  apply keeps_ok_bind; [apply world_kept, keeps_observe|]. intros [observed|]; [|apply state_kept, keeps_throw].
  destruct tail as [out|]; [|apply state_kept, keeps_ret]. destruct (negb _); [apply state_kept, keeps_throw|]. cbv zeta.
  apply keeps_ok_bind; [apply state_kept; destruct (_ =? _); [apply end_vns_kept|apply keeps_pass]|intros _].
  apply keeps_ok_bind; [apply state_kept; destruct (_ =? _); [apply keeps_push_link|apply keeps_pass]|intros _].
  apply state_kept, keeps_ret.
Qed.
Lemma plain_tail_steps : keeps_ok JStop JStep
  (plain_tail fuel mc index on_epoch_ok base expected terminal target header expected_reason).
Proof.
  unfold plain_tail. apply keeps_ok_bind; [apply run_to_steps|]. intros [out|]; [|apply state_kept, keeps_ret]. cbv zeta.
  destruct (_ || _); [apply state_kept, keeps_throw|].
  apply keeps_ok_bind; [apply state_kept, end_vns_kept|intros _; apply state_kept, keeps_ret].
Qed.
Lemma tail_steps tg : keeps_ok JStop JStep
  (match tg with
   | Some t => sdk_tail fuel mc index on_epoch_ok base expected terminal target header expected_reason t
   | None => plain_tail fuel mc index on_epoch_ok base expected terminal target header expected_reason
   end).
Proof. destruct tg; [apply sdk_tail_steps|apply plain_tail_steps]. Qed.
Lemma link_steps tail : keeps JStep (link_without_tail (S := S) header tail : prog State Error unit).
Proof.
  unfold link_without_tail. apply keeps_bind; [apply keeps_lift, keeps_map_err, keeps_observe|intros at_].
  apply keeps_bind; [apply keeps_lift, keeps_observe|intros last]. destruct (_ && _ && _); [apply keeps_push_link|apply keeps_pass].
Qed.
Lemma halt_retry_steps c l : keeps_ok JStop JStep
  (halt_retry fuel mc index on_epoch_ok base expected terminal target header c l).
Proof.
  unfold halt_retry. apply keeps_ok_bind; [by apply state_kept, keeps_modify|intros _].
  destruct (_ <? _); [apply state_kept, keeps_throw|]. apply keeps_ok_bind; [apply run_to_steps|].
  intros [out|]; [|apply state_kept, keeps_ret]. destruct (_ && _); [|apply state_kept, keeps_ret].
  apply keeps_ok_bind; [apply state_kept, end_vns_kept|intros _; apply state_kept, keeps_observe].
Qed.
Lemma live_end_steps tail v c : keeps_ok JStop JStep
  (live_end_hash fuel mc index on_epoch_ok base expected terminal target header expected_reason tail v c).
Proof.
  unfold live_end_hash. apply keeps_ok_bind; [apply state_kept, keeps_observe|intros st]. cbv zeta.
  destruct (_ && _ && _ && _ && _); [apply halt_retry_steps|apply state_kept, keeps_ret].
Qed.
Lemma check_end_steps l : keeps JStep (check_end index expected header l : prog State Error unit).
Proof.
  unfold ReplayRun.check_end. apply keeps_bind; [apply keeps_lift, keeps_observe|intros v].
  destruct (negb _); [apply end_divergence_kept|]. destruct (negb _); [apply end_divergence_kept|].
  apply keeps_bind; [apply keeps_lift, keeps_observe|]. intros [e|]; [apply keeps_throw|apply keeps_pass].
Qed.

(** ** The verdict *)

Lemma end_divergence_never {A} what e g (st : State) a st' :
  (end_divergence index header what e g : prog State Error A) st <> Some (Ok a, st').
Proof.
  unfold end_divergence. destruct index as [ix|]; [|done]. intros Hb.
  by apply prog_bind_inv in Hb as [(d & w1 & _ & [=])|[(x & _ & [=])|[_ [=]]]].
Qed.
Lemma check_end_ok l (st : State) u st' : check_end index expected header l st = Some (Ok u, st') ->
  st' = st /\ c_verified st.1.2 = length expected /\ l = h_end_state_hash header /\ unconsumed st.1 = None.
Proof.
  unfold ReplayRun.check_end. intros Hb. apply prog_bind_inv in Hb as [(v & w1 & [= <- <-] & Hb)|[(x & _ & [=])|[_ [=]]]].
  destruct (negb (_ =? _)%nat) eqn:Hv; [by apply end_divergence_never in Hb|].
  destruct (negb (bool_decide _)) eqn:Hl; [by apply end_divergence_never in Hb|].
  apply prog_bind_inv in Hb as [(e & w1 & [= <- <-] & Hb)|[(x & _ & [=])|[_ [=]]]]. cbn [fst] in *.
  apply negb_false_iff, Nat.eqb_eq in Hv. apply negb_false_iff, bool_decide_eq_true in Hl. destruct st as [w ch]. cbn [fst snd] in *.
  destruct (unconsumed w) as [e|] eqn:Hu; [done|]. injection Hb as _ <-. by split_and!.
Qed.

Local Notation run_to_end := (ReplayRun.run_to fuel mc index on_epoch_ok base expected terminal target).
Lemma end_vns_ok vns (st : State) u st' : check_end_vns index header vns st = Some (Ok u, st') -> st' = st /\ vns = h_end_vns header.
Proof.
  unfold check_end_vns. destruct (vns =? h_end_vns header) eqn:Ev; cbn [negb]; [|by intros Hb%end_divergence_never].
  apply Z.eqb_eq in Ev. by intros [= _ <-].
Qed.

(** Why the end hash of a run that left [st] is the recording's.  Either it is the
    live chain's value there; or the recording ends on an SDK event, and the guest
    showed that event and then halted inside the last epoch, where the live chain
    has no value to compare; or the recording's end is a halt that the agenda
    stopped just short of: the run one instruction further, on the chain from
    before the tail, halts at the recorded end and its chain has the value. *)
Inductive settled (run : SegmentRun) (st : State) : State -> Prop :=
| SettledChain : st.2 = h_end_state_hash header -> settled run st st
| SettledSdkHalt out seen :
    is_Some target -> expected_reason = BudgetReached -> sr_tail run = Some out -> reason out = GuestHalted ->
    c_observed st.1.2 = Some seen -> seen <= b_icount (boundary out) < h_end_icount header -> settled run st st
| SettledRetry landed out st' :
    target = None -> expected_reason = BudgetReached ->
    sr_tail run = Some landed -> reason landed = BudgetReached -> b_icount (boundary landed) = h_end_icount header ->
    c_verified st.1.2 = sr_verified_before_tail run ->
    run_to_end (h_end_icount header + 1) true true false None (st.1, sr_chain_before_tail run) = Some (Ok (Some out), st') ->
    reason out = GuestHalted -> b_icount (boundary out) = h_end_icount header -> RunCtl.vns out = h_end_vns header ->
    st'.2 = h_end_state_hash header -> settled run st st'.

Lemma halt_retry_ok c l (st : State) st' : l <> h_end_state_hash header ->
  halt_retry fuel mc index on_epoch_ok base expected terminal target header c l st = Some (Ok (h_end_state_hash header), st') ->
  exists out, run_to_end (h_end_icount header + 1) true true false None (st.1, c) = Some (Ok (Some out), st') /\
    reason out = GuestHalted /\ b_icount (boundary out) = h_end_icount header /\ RunCtl.vns out = h_end_vns header /\
    st'.2 = h_end_state_hash header.
Proof.
  intros Hl. unfold halt_retry. intros Hb. apply prog_bind_inv in Hb as [(v & w1 & [= _ <-] & Hb)|[(x & _ & [=])|[_ [=]]]].
  destruct (_ <? _); [done|]. apply prog_bind_inv in Hb as [(o & w2 & Hr & Hb)|[(x & _ & [=])|[_ [=]]]].
  destruct o as [out|]; [|by injection Hb as ? _]. destruct (_ && _) eqn:Eh; [|by injection Hb as ? _].
  apply andb_true_iff in Eh as [Eh%bool_decide_eq_true Ei%Z.eqb_eq].
  apply prog_bind_inv in Hb as [(o & w3 & [-> Hv]%end_vns_ok & Hb)|[(x & _ & [=])|[_ [=]]]]. injection Hb as Hc <-. by exists out.
Qed.
Lemma substitution_inv tail seen : terminal_sdk_recorded_end_hash_substitution_allowed tail seen (h_end_icount header) expected_reason = true ->
  exists out n, tail = Some out /\ seen = Some n /\ expected_reason = BudgetReached /\ reason out = GuestHalted /\
    n <= b_icount (boundary out) < h_end_icount header.
Proof.
  unfold terminal_sdk_recorded_end_hash_substitution_allowed. destruct tail as [out|], seen as [n|]; [|done..].
  intros [[He%bool_decide_eq_true Hr%bool_decide_eq_true]%andb_true_iff Hi]%andb_true_iff. exists out, n. split_and!; try done; lia.
Qed.
Lemma live_end_ok run (st : State) st' :
  live_end_hash fuel mc index on_epoch_ok base expected terminal target header expected_reason
    (sr_tail run) (sr_verified_before_tail run) (sr_chain_before_tail run) st = Some (Ok (h_end_state_hash header), st') ->
  settled run st st'.
Proof.
  unfold live_end_hash. intros Hb. apply prog_bind_inv in Hb as [(st1 & w1 & [= <- <-] & Hb)|[(x & _ & [=])|[_ [=]]]].
  cbv beta zeta in Hb.
  match type of Hb with context [if ?x then h_end_state_hash header else st.2] => destruct x eqn:Hs end.
  - rewrite (bool_decide_true (h_end_state_hash header = h_end_state_hash header)) in Hb by done.
    cbn [negb andb] in Hb. injection Hb as <-.
    apply andb_true_iff in Hs as [[_ Ht%bool_decide_eq_true]%andb_true_iff Ha].
    apply substitution_inv in Ha as (out & n & Htail & Hseen & He & Hr & Hi). by eapply SettledSdkHalt.
  - clear Hs. match type of Hb with context [bool_decide ?x] => destruct (bool_decide x) eqn:Hd end; cbn [negb andb] in Hb.
    + apply bool_decide_eq_true in Hd. injection Hb as _ <-. by apply SettledChain.
    + apply bool_decide_eq_false in Hd. destruct (_ && _ && _ && _) eqn:Hc; [|by injection Hb as ? _].
      apply andb_true_iff in Hc as [[[Ht He]%andb_true_iff Hl]%andb_true_iff Hv%Nat.eqb_eq].
      apply negb_true_iff, bool_decide_eq_false in Ht. apply bool_decide_eq_true in He.
      unfold tail_landed in Hl. destruct (sr_tail run) as [t|] eqn:Etail; [|done].
      apply andb_true_iff in Hl as [Hb1%bool_decide_eq_true Hb2%Z.eqb_eq].
      apply halt_retry_ok in Hb as (out & Hr & Hh & Hi & Hvns & Hend); [|done].
      eapply (SettledRetry _ _ t out); try done. destruct target; [by destruct Ht|done].
Qed.

Lemma check_reseal_ok log log_bytes resealed u : check_reseal (K := K) header log log_bytes resealed = Ok u ->
  resealed = log_bytes \/ reseal_equivalent_ignoring_bisection_checkpoints resealed log = Ok true.
Proof.
  unfold check_reseal. case_bool_decide as Hr; [by left|]. intros Hb. right.
  destruct (reseal_equivalent_ignoring_bisection_checkpoints resealed log) as [[]|x|]; [done| |done..]. cbn in Hb.
  by destruct (classify_reseal_divergence resealed log) as [[d|]|x|].
Qed.

Local Notation replay_run := (ReplayRun.replay_run fuel mc index on_epoch_ok base expected terminal target header expected_reason).
Lemma run_steps after rs marks : keeps_ok JStop JStep (replay_run after rs marks).
Proof.
  unfold ReplayRun.replay_run. apply keeps_ok_bind; [apply walk_steps|intros walked].
  apply keeps_ok_bind; [apply frame_marks_step|intros _]. apply keeps_ok_bind; [apply state_kept, keeps_observe|intros before].
  apply keeps_ok_bind; [apply tail_steps|intros tail]. apply keeps_ok_bind; [apply state_kept, link_steps|intros _].
  apply state_kept, keeps_ret.
Qed.

(** No recorded answer is left in the plan of the channel's host. *)
Definition answers_consumed (w : World) : Prop :=
  forall h put, replay_detchannel (rail_bus (c_rail w.2)) = Some (h, put) ->
    (length (rp_answers (plan_of (responder h))) <= rp_cursor (plan_of (responder h)))%nat.
Lemma unconsumed_none (w : World) : unconsumed w = None -> answers_consumed w.
Proof.
  unfold unconsumed. intros Hu h put Hd. rewrite Hd in Hu. cbn [mbind option_bind] in Hu. unfold with_inject_plan_mut, unconsumed_error in Hu.
  destruct (_ <? _)%nat eqn:El; [done|]. by apply Nat.ltb_ge in El.
Qed.

Lemma replay_body_ok log log_bytes after rs marks (st : State) out st' : JStep st ->
  replay_body fuel mc index on_epoch_ok base expected terminal target header expected_reason log log_bytes after rs marks st =
    Some (Ok out, st') ->
  exists run st1, replay_run after rs marks st = Some (Ok run, st1) /\ settled run st1 st' /\
    answers_consumed st'.1 /\ told expected q0 = Some (c_progress st'.1.2) /\
    seal_rail (outcome_like header expected_reason (h_end_state_hash header)) (h_end_snapshot_id header) (c_rail st'.1.2) =
      Ok (ro_resealed out) /\
    (ro_resealed out = log_bytes \/ reseal_equivalent_ignoring_bisection_checkpoints (ro_resealed out) log = Ok true) /\
    out = mkReplayOutcome (sr_applied run) (Z.of_nat (length expected)) (h_end_icount header) (h_end_state_hash header) (ro_resealed out).
Proof.
  intros Hw. unfold replay_body. intros Hb.
  apply prog_bind_inv in Hb as [(run & s1 & H1 & Hb)|[(x & _ & [=])|[_ [=]]]].
  apply prog_bind_inv in Hb as [(live & s2 & H2 & Hb)|[(x & _ & [=])|[_ [=]]]].
  apply prog_bind_inv in Hb as [(u & s3 & H3 & Hb)|[(x & _ & [=])|[_ [=]]]].
  apply check_end_ok in H3 as (-> & Hv & -> & Hu). pose proof (live_end_ok _ _ _ H2) as He.
  apply live_end_steps in H2 as (Ht & _); [|by apply run_steps in H1]. rewrite Hv, firstn_all in Ht.
  apply prog_bind_inv in Hb as [(rs' & s3 & [= Hr <-] & Hb)|[(x & _ & [=])|[_ [=]]]].
  apply prog_bind_inv in Hb as [(u' & s3 & [= Hc <-] & [= <- <-])|[(x & _ & [=])|[_ [=]]]]. cbn.
  apply check_reseal_ok in Hc. destruct (seal_rail _ _ _) as [resealed| |] eqn:Eseal; [|done..]. injection Hr as ->.
  exists run, s1. split_and!; try done. by apply unconsumed_none.
Qed.

Lemma body_steps log log_bytes after rs marks : keeps_ok JStop JStep
  (replay_body fuel mc index on_epoch_ok base expected terminal target header expected_reason log log_bytes after rs marks).
Proof.
  unfold replay_body. apply keeps_ok_bind; [apply run_steps|intros run]. apply keeps_ok_bind; [apply live_end_steps|intros live].
  apply keeps_ok_bind; [apply state_kept, check_end_steps|intros _].
  apply keeps_ok_bind; [apply state_kept, keeps_observe|intros resealed].
  apply keeps_ok_bind; [apply state_kept, keeps_outcome|intros _]. apply state_kept, keeps_ret.
Qed.
End TailOk.
End Sink.

(** ** The entry *)

(** The epoch hashes of a log, in order. *)
Definition recorded_epochs (log_bytes : bytes) : list (Z * Z * bytes) :=
  match LogReader_parse log_bytes with
  | Ok log => match log_aux (F := Error) log with Ok aux => expected_epochs_of aux | _ => [] end
  | _ => []
  end.

(** The log belongs to the base and the configuration. *)
Definition belongs (h : Header) (mc : MachineConfig) (base_snapshot : bytes) : Prop :=
  h_base_snapshot_id h = base_snapshot /\ config_hash mc = Ok (h_machine_config_hash h) /\
  h_clock_num h = clock_num (Config.clock mc) /\ h_clock_den h = clock_den (Config.clock mc).
Lemma check_header_ok h mc base_snapshot u : check_header (K := K) h mc base_snapshot = Ok u -> belongs h mc base_snapshot.
Proof.
  unfold check_header, belongs. case_bool_decide; [|done]. cbn [negb]. destruct (config_hash mc) as [hash| |]; [|done..].
  cbn. case_bool_decide; [|done]. cbn [negb]. destruct (_ || _) eqn:Hc; [done|].
  apply orb_false_iff in Hc as [Hn%negb_false_iff%Z.eqb_eq Hd%negb_false_iff%Z.eqb_eq]. subst. intros _. by split_and!.
Qed.

Section Entry.
Context (fuel : nat) (rail : Rail) (mc : MachineConfig) (base_snapshot log_bytes : bytes) (index : option BisectionCheckpointIndex).
Context (on_epoch_ok : Z -> Z -> bytes -> Q -> outcome Error unit * Q).

Local Notation prepare := (replay_prepare rail mc base_snapshot log_bytes index).
(** Where the guest starts. *)
Definition prepared_state (p : Prepared (M := M) (E := E)) (x : S * K * Q) : State := (x.1.1, fresh_cells (pr_rail p) x.1.2 x.2, pr_chain p).

Lemma prepare_inv (x : S * K * Q) o x' : prepare x = Some (o, x') ->
  x'.2 = x.2 /\ forall p, o = Ok p ->
    LogReader_parse log_bytes = Ok (pr_log p) /\ belongs (rd_header (pr_log p)) mc base_snapshot /\
    pr_expected_epochs p = recorded_epochs log_bytes.
Proof.
  unfold replay_prepare. intros Hb.
  apply prog_bind_inv in Hb as [(log & x1 & [= Hl <-] & Hb)|[(e & [= _ <-] & ->)|[[= _ <-] ->]]]; [|done..].
  cbv zeta in Hb. apply prog_bind_inv in Hb as [(u & x1 & [= Hh <-] & Hb)|[(e & [= _ <-] & ->)|[[= _ <-] ->]]]; [|done..].
  apply check_header_ok in Hh. apply prog_bind_inv in Hb as [([restored bus] & x1 & H1 & Hb)|[(e & H1 & ->)|[H1 ->]]];
    unfold restore_base in H1; destruct (restore_snapshot _ _ _ _ _ _) as [[o1 m]|]; try done;
    [|injection H1 as _ <-; done|injection H1 as _ <-; done].
  assert (x1.2 = x.2) as Hq by (by injection H1 as _ <-). clear H1. rewrite <- Hq.
  apply prog_bind_inv in Hb as [(vns & x2 & [= _ <-] & Hb)|[(e & [= _ <-] & ->)|[[= _ <-] ->]]]; [|done..].
  apply prog_bind_inv in Hb as [(aux & x2 & [= Ha <-] & Hb)|[(e & [= _ <-] & ->)|[[= _ <-] ->]]]; [|done..].
  apply prog_bind_inv in Hb as [(records & x2 & [= _ <-] & Hb)|[(e & [= _ <-] & ->)|[[= _ <-] ->]]]; [|done..].
  apply prog_bind_inv in Hb as [(en & x2 & [= _ <-] & Hb)|[(e & [= _ <-] & ->)|[[= _ <-] ->]]]; [|done..].
  apply prog_bind_inv in Hb as [(why & x2 & [= _ <-] & Hb)|[(e & [= _ <-] & ->)|[[= _ <-] ->]]]; [|done..].
  apply prog_bind_inv in Hb as [(rs & x2 & [= _ <-] & Hb)|[(e & [= _ <-] & ->)|[[= _ <-] ->]]]; [|done..].
  injection Hb as <- <-. split; [done|]. intros p [= <-]. cbn.
  assert (LogReader_parse log_bytes = Ok log) as Hp by (destruct (LogReader_parse log_bytes); cbn in Hl; congruence).
  split; [done|]. split; [done|]. unfold recorded_epochs. by rewrite Hp, Ha.
Qed.

(** A replay that got as far as its body, and one that did not. *)
Lemma replay_inv (x : S * K * Q) o x' :
  replay_segment_with_epoch_progress_and_bisection fuel rail mc base_snapshot log_bytes index on_epoch_ok x = Some (o, x') ->
  (exists p x1 (st' : State), prepare x = Some (Ok p, x1) /\ x1.2 = x.2 /\
     LogReader_parse log_bytes = Ok (pr_log p) /\ belongs (rd_header (pr_log p)) mc base_snapshot /\
     pr_expected_epochs p = recorded_epochs log_bytes /\
     replay_body fuel mc index on_epoch_ok (pr_base p) (pr_expected_epochs p) (pr_terminal p) (pr_sdk_target p) (rd_header (pr_log p))
       (pr_expected_reason p) (pr_log p) log_bytes (pr_epoch_after p) (pr_canonical p) (pr_marks p) (prepared_state p x1) = Some (o, st') /\
     x' = (st'.1.1, c_store st'.1.2, c_progress st'.1.2)) \/
  x'.2 = x.2 /\ forall out, o <> Ok out.
Proof.
  unfold replay_segment_with_epoch_progress_and_bisection. intros Hb.
  apply prog_bind_inv in Hb as [(p & x1 & Hp & Hb)|[(e & Hp & ->)|[Hp ->]]]; pose proof Hp as Hp'; apply prepare_inv in Hp' as [Hq Hok];
    [|by right..]. left. destruct (Hok _ eq_refl) as (Hl & Hbel & He).
  unfold run_body in Hb. destruct (replay_body _ _ _ _ _ _ _ _ _ _ _ _ _ _ _ _) as [[o2 [[s2 c2] ch2]]|] eqn:Hr; [|done].
  injection Hb as <- <-. exists p, x1, (s2, c2, ch2). by split_and!.
Qed.

Lemma fresh_in_step expected (s : S) rl k q ch :
  beside (L := StateHashChain) (of_core (in_step on_epoch_ok expected q)) (s, fresh_cells rl k q, ch).
Proof. unfold beside, of_core, in_step. cbn. split; [done|]. split; [lia|]. by intros [? [=]]. Qed.

(** C6: an accepted replay is a verified one, bisection or not.  When the executor
    returns, the log belongs to the base snapshot and the configuration, and the
    guest was run from the restored base, through the recorded inputs, to the
    recording's end ([st1]).  The caller was told of every recorded epoch hash, at
    its index and icount with its value, in order, none missing or added, and
    accepted each.  The end hash is the recording's, and is the value of the live
    chain in [st1], or that of the retry past a terminal halt, or replaced under
    the rule for a terminal SDK event whose guest halted inside the last epoch:
    [settled].  In the state that leaves, every recorded inject answer is
    consumed, and the log of the rail seals to the recording, byte for byte or up
    to what the reseal comparison ignores.  A divergence held pending for a
    bisection checkpoint never ends as an acceptance. *)
Theorem replay_acceptance_sound (x : S * K * Q) out x' :
  replay_segment_with_epoch_progress_and_bisection fuel rail mc base_snapshot log_bytes index on_epoch_ok x = Some (Ok out, x') ->
  exists p x1 run (st1 st2 : State), prepare x = Some (Ok p, x1) /\ LogReader_parse log_bytes = Ok (pr_log p) /\
    let header := rd_header (pr_log p) in
    belongs header mc base_snapshot /\
    replay_run fuel mc index on_epoch_ok (pr_base p) (recorded_epochs log_bytes) (pr_terminal p) (pr_sdk_target p) header
      (pr_expected_reason p) (pr_epoch_after p) (pr_canonical p) (pr_marks p) (prepared_state p x1) = Some (Ok run, st1) /\
    settled fuel mc index on_epoch_ok (pr_base p) (recorded_epochs log_bytes) (pr_terminal p) (pr_sdk_target p) header
      (pr_expected_reason p) run st1 st2 /\
    answers_consumed st2.1 /\ x' = (st2.1.1, c_store st2.1.2, c_progress st2.1.2) /\
    told on_epoch_ok (recorded_epochs log_bytes) x.2 = Some x'.2 /\
    seal_rail (outcome_like header (pr_expected_reason p) (h_end_state_hash header)) (h_end_snapshot_id header) (c_rail st2.1.2) =
      Ok (ro_resealed out) /\
    (ro_resealed out = log_bytes \/ reseal_equivalent_ignoring_bisection_checkpoints (ro_resealed out) (pr_log p) = Ok true) /\
    out = mkReplayOutcome (sr_applied run) (Z.of_nat (length (recorded_epochs log_bytes))) (h_end_icount header)
            (h_end_state_hash header) (ro_resealed out).
Proof.
  intros Hr. apply replay_inv in Hr as [(p & x1 & st2 & Hp & Hq & Hl & Hb & He & Hbody & ->)|[_ Hn]]; [|by destruct (Hn out)].
  rewrite He in Hbody.
  destruct (replay_body_ok _ _ _ _ _ _ _ _ _ _ _ _ _ _ _ _ _ _ _ (fresh_in_step _ _ _ _ _ _) Hbody)
    as (run & st1 & Hrun & Hs & Hc & Ht & Hseal & Heq & Hout).
  rewrite Hq in Ht. exists p, x1, run, st1, st2. cbv zeta. by split_and!.
Qed.

(** However the replay ends, its caller was told of a prefix of the recorded epochs. *)
Lemma replay_tells_prefix (x : S * K * Q) o x' :
  replay_segment_with_epoch_progress_and_bisection fuel rail mc base_snapshot log_bytes index on_epoch_ok x = Some (o, x') ->
  exists v, stopped on_epoch_ok (recorded_epochs log_bytes) x.2 v x'.2 None.
Proof.
  intros Hr. exists 0%nat. apply replay_inv in Hr as [(p & x1 & st2 & Hp & Hq & Hl & Hb & He & Hbody & ->)|[-> _]].
  - rewrite He in Hbody. apply (body_steps _ _ _ _ _ _ _ _ x.2) in Hbody; [|rewrite <- Hq; apply fresh_in_step].
    destruct o; [apply step_stops in Hbody|..]; exact Hbody.
  - exists 0%nat, x.2. split; [lia|]. split; [done|by left].
Qed.
End Entry.
End Epochs.

(** ** The report *)

Section Report.
Context {B : Blake3} {M E K S : Type}.
Context `{!GuestSdk M, !GuestMem M, !Snapstore K, !Postcard, !DetEntropy E}.
Context `{!Vcpu S, !VcpuGets S, !VcpuSets S, !TscClock S, !SlotMem S, !SlotRam S M, !ExitPage S, !RamAlias S M}.
#[local] Existing Instance executor_channel.
Local Notation Error := (ReplayError StoreError).

Definition epoch_event (e : Z * Z * bytes) : VerifyProgress := EpochOk e.1.1 e.1.2.
Definition collect (epoch_index icount : Z) (_ : bytes) (report : list VerifyProgress) : outcome Error unit * list VerifyProgress :=
  (Ok tt, report_push (EpochOk epoch_index icount) report).
Lemma told_collect l : forall report, told collect l report = Some (report ++ (epoch_event <$> l)).
Proof.
  induction l as [|e l IH]; intros report; cbn; [by rewrite app_nil_r|]. rewrite IH. unfold report_push. by rewrite <- (assoc_L (++)).
Qed.
Lemma stopped_collect expected v q : stopped collect expected [] v q None -> exists n, q = epoch_event <$> take n expected.
Proof.
  intros (n & q1 & _ & Ht & [->|(e & o & _ & [= <- _] & Hn)]); [|done]. rewrite told_collect in Ht. exists n. by injection Ht as <-.
Qed.

(** C8: a report never overstates.  Whatever the verifier reports is a prefix of
    the recorded epochs, in order, and then one terminal event.  The report
    counts as verified exactly when that event is [Done]; then every recorded
    epoch is there, the log belongs to the base and the configuration, and
    [Done] carries the recording's own end position and hash. *)
Theorem verify_report_sound fuel (rail : DeviceRail M E) mc base_snapshot log_bytes (x : S * K) report x' :
  verify_replay fuel rail mc base_snapshot log_bytes x = Some (Ok report, x') ->
  exists n t, report = (epoch_event <$> take n (recorded_epochs (K := K) log_bytes)) ++ [t] /\
    is_epoch_ok t = false /\ epochs_ok report = length (take n (recorded_epochs (K := K) log_bytes)) /\
    (report_verified report = true <-> exists i h, t = Done i h) /\
    (report_verified report = true -> exists log, LogReader_parse log_bytes = Ok log /\ belongs (rd_header log) mc base_snapshot /\
       take n (recorded_epochs (K := K) log_bytes) = recorded_epochs (K := K) log_bytes /\
       t = Done (h_end_icount (rd_header log)) (h_end_state_hash (rd_header log))).
Proof.
  unfold verify_replay, verify_replay_with_progress, verify_replay_with_bisection_progress, mbind, prog_bind, reify.
  destruct (replay_segment_with_epoch_progress_and_bisection _ _ _ _ _ _ _ _) as [[o [[s k] q]]|] eqn:Hr; [|done].
  destruct (replay_tells_prefix _ _ _ _ _ _ _ _ _ _ Hr) as (v & Hs). apply stopped_collect in Hs as [n Hq]. cbn in Hq.
  assert (forall t, is_epoch_ok t = false -> let r := report_push t q in
    report_verified r = (match as_done t with Some _ => true | None => false end) /\ epochs_ok r = length q) as Hterm.
  { intros t Ht. destruct (report_terminal q t) as (? & _ & ?); [|done|by split]. rewrite Hq. apply Forall_fmap, Forall_true. done. }
  destruct o as [out|e|]; [| |done].
  - intros [= <- <-]. apply replay_inv in Hr as [(p & x1 & st2 & Hp & Hx & Hl & Hb & Hex & Hbody & [= -> -> Hqq])|[_ Hn]]; [|by destruct (Hn out)].
    rewrite Hex in Hbody.
    destruct (replay_body_ok _ _ _ _ _ _ _ _ _ _ _ _ _ _ _ _ _ _ _ (fresh_in_step _ _ _ _ _ _ _) Hbody)
      as (run & st1 & _ & _ & _ & Ht & _ & _ & Hout).
    assert (ro_end_icount out = h_end_icount (rd_header (pr_log p)) /\ ro_end_state_hash out = h_end_state_hash (rd_header (pr_log p)))
      as [Hi He] by (by rewrite Hout).
    rewrite Hx in Ht. cbn in Ht. rewrite told_collect in Ht. exists (length (recorded_epochs (K := K) log_bytes)), (Done (ro_end_icount out) (ro_end_state_hash out)).
    rewrite firstn_all. destruct (Hterm (Done (ro_end_icount out) (ro_end_state_hash out)) eq_refl) as [Hver Hn].
    injection Ht as Ht. rewrite <- Hqq in Ht. unfold report_push at 1. rewrite <- Ht.
    split; [done|]. split; [done|]. split; [rewrite Ht, Hn, <- Ht; apply length_fmap|]. rewrite Ht, Hver. split; [by split; eauto|].
    intros _. exists (pr_log p). by rewrite Hi, He.
  - intros Ho. assert (exists t, is_epoch_ok t = false /\ as_done t = None /\ report = report_push t q) as (t & Ht & Hd & ->).
    { destruct e; cbn in Ho; try discriminate Ho; injection Ho as Ho _; eexists; (split; [|split; [|exact (eq_sym Ho)]]); done. }
    exists n, t. destruct (Hterm t Ht) as [Hver Hn]. rewrite Hver, Hd, Hn, Hq. split; [done|]. split; [done|].
    split; [apply length_fmap|]. split; [|done]. split; [done|]. intros (i & h & ->). done.
Qed.
End Report.
