(* ===== verification/ReplayExample.v ===== *)
(** * A recording, replayed

    A machine of two pages whose guest retires one instruction per step, based
    on a stored snapshot; a log of six instructions with a pad input at the
    second and an epoch hash every fourth.  The executor accepts it and the
    verifier reports it verified. *)

From Stdlib Require Import String.
From stdpp Require Import strings.
From S2P Require Import Prelude Vt DhiLog LogReader SlotState Lapic DevCtx Devices Detchannel DetchannelOk Bus Dirty Config Msr Kvm ReprC VcpuState StateHash Boundary RunCtl Recording Snapshot Restore SnapshotExample Replay Verify ReplayRun VerifyReplay ReplayRunOk.
Import DetChannel SnapExample.

Module ReplayExample.
Import ToySdk.
#[local] Existing Instances sum_hash executor_channel ToyRing_kernel.

(** ** The machine *)

Record Mach := mkMach { m_regs : kvm_regs; m_ram : Z -> bytes; m_count : Z; m_armed : bool; m_deadline : Z }.
(** [n] instructions further. *)
Definition advance (n : Z) (r : kvm_regs) : kvm_regs :=
  let '(mkRegs a b c d si di sp bp e f g h i j k l ip fl) := r in mkRegs a b c d si di sp bp e f g h i j k l (ip + n) fl.
Definition retire (n : Z) (s : Mach) : Mach := mkMach (advance n (m_regs s)) (m_ram s) (m_count s + n) (m_armed s) (m_deadline s).

#[export] Instance Mach_vcpu : Vcpu Mach := {
  kvm_run s := if m_armed s then (Exited Debug, retire 1 s) else (RunErrno EINTR, retire (m_deadline s - m_count s + 2) s);
  kvm_get_regs s := Ok (m_regs s);
  kvm_set_guest_debug w s := (Ok tt, mkMach (m_regs s) (m_ram s) (m_count s) (negb (w =? 0)) (m_deadline s));
  kvm_get_vcpu_events _ := Ok (zeroed r_events);
  kvm_interrupt _ s := (Ok tt, s);
  set_kvm_immediate_exit _ s := s;
  ready_for_interrupt_injection _ := 1;
  if_flag _ := 1;
  perf_read s := Ok (le_bytes 8 (m_count s) ++ le_bytes 8 1 ++ le_bytes 8 1);
  perf_ioctl c s :=
    (Ok tt, match c with
            | PERIOD p => mkMach (m_regs s) (m_ram s) (m_count s) (m_armed s) (m_count s + p)
            | _ => s
            end) }.
#[export] Instance Mach_gets : VcpuGets Mach := {
  kvm_cap_xsave2 _ := 4096;
  kvm_get_sregs _ := Ok (zeroed r_sregs);
  kvm_get_fpu _ := Ok (zeroed r_fpu);
  kvm_get_xsave _ := Ok (replicate #1024 0);
  kvm_get_xcrs _ := Ok (zeroed r_xcrs);
  kvm_get_msrs l s := Ok ((fun i => mkMsr i 7) <$> l);
  kvm_get_debug_regs _ := Ok (zeroed r_debugregs);
  component_layout _ := [] }.
#[export] Instance Mach_sets : VcpuSets Mach := {
  kvm_set_sregs _ s := (Ok tt, s);
  kvm_set_regs r s := (Ok tt, mkMach r (m_ram s) (m_count s) (m_armed s) (m_deadline s));
  kvm_set_fpu _ s := (Ok tt, s);
  kvm_set_xcrs _ s := (Ok tt, s);
  kvm_set_xsave _ s := (Ok tt, s);
  kvm_set_debug_regs _ s := (Ok tt, s);
  kvm_set_vcpu_events _ s := (Ok tt, s);
  kvm_set_msrs l s := (Ok (length l), s) }.
#[export] Instance Mach_tsc : TscClock Mach := {
  rdtsc s := (12345, s);
  kvm_set_tsc_offset _ s := (Ok tt, s) }.
#[export] Instance Mach_mem : SlotMem Mach := {
  slot_mem_bytes _ := 8192;
  read_page a s := Ok (page_of (m_ram s (a / 4096))) }.
Definition with_page (i : Z) (b : bytes) (s : Mach) : Mach :=
  mkMach (m_regs s) (fun j => if j =? i then b else m_ram s j) (m_count s) (m_armed s) (m_deadline s).
#[export] Instance Mach_ram : SlotRam Mach VecGuestMem := {
  slot_ram s := page_of (m_ram s 0) ++ page_of (m_ram s 1);
  write_slice b a s := (Ok tt, with_page (a / 4096) b s) }.
#[export] Instance Mach_alias : RamAlias Mach VecGuestMem := fun m s =>
  with_page 0 (take #4096 m) (with_page 1 (drop #4096 m) s).
#[export] Instance Mach_page : ExitPage Mach := fun _ s => s.

(** ** The recording *)

Local Notation Box := (BoxDev VecGuestMem EntropyState).
Definition rp_bus (d : Pad.PvPad) : list (Z * Box) :=
  [(0xD0000000, mkBox _ Pad.PvPad_device (Some AnyPad) d);
   (0xD0001000, mkBox _ Clock.PvClock_device (Some AnyClock) (Clock.PvClock_new 1 2));
   (0xD0002000, mkBox _ Entropy.PvEntropy_device None Entropy.PvEntropy_new)].
Definition rp_config : MachineConfig :=
  mkConfig 1 (64 * 1024 * 1024) 1 (mkClockRatio 1 2) (replicate 32 17)
    (BzImage (replicate 32 34) (replicate 32 51) (cmdline_of (mkExtras true (Some 3)))) 4 EpochsOn 8192 1024
    [mkLeaf 0 0 0 13 0 0 0] [1; 2; 9].
Definition base_slot : Mach := mkMach ex_regs ex_ram 0 false 0.
Definition base_store : Store :=
  match take_snapshot_with_lapic (R := ToyRing) 5 base_slot SlotState.Paused (rp_bus Pad.PvPad_new) LocalApic_default ex_entropy
          rp_config ex_boundary FullPages ([], ex_drain) with
  | Some (Ok _, (k, _)) => k
  | _ => []
  end.
Definition base_ref : bytes := 0 :: replicate 31 0.
Definition rp_hash : bytes := match config_hash rp_config with Ok h => h | _ => [] end.
Definition rp_header : SegmentHeader := mkSegmentHeader base_ref (replicate 32 0) rp_hash 1 2 0.
Definition rp_rail : DeviceRail VecGuestMem EntropyState :=
  mkRail (rp_bus Pad.PvPad_new) LocalApic_default Serial.DebugSerial_new ex_entropy (LogWriter_new rp_header) [] [].
Definition blank_slot : Mach := mkMach (zeroed r_regs) (fun _ => []) 0 false 0.
(** The log with the given epoch value and end hash. *)
Definition log_with (epoch final : bytes) : bytes :=
  let w := LogWriter_new rp_header in
  let w := (pad_set 2 4098 0 5 u32_max w).2 in
  let w := (epoch_hash 4 0 1 epoch w).2 in
  match seal (mkSealParams (replicate 32 0) 6 3 final 1) w with Ok b => b | _ => [] end.

Local Notation replays log :=
  (replay_segment_with_epoch_progress_and_bisection 40 rp_rail rp_config base_ref log None
     (fun _ icount _ seen => (Ok tt, seen ++ [icount])) (blank_slot, base_store, [] : list Z)).
Local Notation verifies log := (verify_replay 40 rp_rail rp_config base_ref log (blank_slot, base_store)).

(** What a divergence says the replay got. *)
Definition got {T} (r : option (outcome (ReplayError unit) ReplayOutcome * T)) : bytes :=
  match r with Some (Err (ReplayDivergence _ _ _ g), _) => g | _ => [] end.
Definition rp_epoch : bytes := Eval vm_compute in got (replays (log_with (replicate 32 0) (replicate 32 0))).
Definition rp_final : bytes := Eval vm_compute in got (replays (log_with rp_epoch (replicate 32 0))).
Definition rp_log : bytes := log_with rp_epoch rp_final.

Lemma replay_acceptance_sound_witness : exists out x' p x1, replays rp_log = Some (Ok out, x') /\
  replay_prepare rp_rail rp_config base_ref rp_log None (blank_slot, base_store, [] : list Z) = Some (Ok p, x1) /\
  LogReader_parse rp_log = Ok (pr_log p) /\ belongs (rd_header (pr_log p)) rp_config base_ref /\
  told (K := Store) (fun _ icount _ seen => (Ok tt, seen ++ [icount])) (recorded_epochs (K := Store) rp_log) [] = Some x'.2 /\
  (ro_resealed out = rp_log \/ reseal_equivalent_ignoring_bisection_checkpoints (ro_resealed out) (pr_log p) = Ok true).
Proof.
  destruct (took_value (replays rp_log)) as (out & x' & H); [vm_compute; reflexivity|].
  destruct (replay_acceptance_sound _ _ _ _ _ _ _ _ _ _ H) as (p & x1 & run & st1 & st2 & Hp & Hl & Hb & _ & _ & _ & _ & Ht & _ & Hr & _).
  exists out, x', p, x1. exact (conj H (conj Hp (conj Hl (conj Hb (conj Ht Hr))))).
Defined.

Lemma verify_report_sound_witness : exists report x' n t, verifies rp_log = Some (Ok report, x') /\
  report_verified report = true /\ report = (epoch_event <$> take n (recorded_epochs (K := Store) rp_log)) ++ [t] /\
  exists log, LogReader_parse rp_log = Ok log /\ belongs (rd_header log) rp_config base_ref /\
    t = Done (h_end_icount (rd_header log)) (h_end_state_hash (rd_header log)).
Proof.
  destruct (took_value (verifies rp_log)) as (report & x' & H); [vm_compute; reflexivity|].
  assert (match verifies rp_log with Some (Ok r, _) => report_verified r | _ => false end = true) as Hv by (vm_compute; reflexivity).
  rewrite H in Hv. destruct (verify_report_sound _ _ _ _ _ _ _ _ H) as (n & t & Hr & _ & _ & _ & Hd).
  destruct (Hd Hv) as (log & Hp & Hb & _ & Ht). exists report, x', n, t. repeat (split; [done|]). exists log. by split_and!.
Defined.
End ReplayExample.
