(* ===== verification/WorkerExample.v ===== *)
(** * The worker's lifecycle, exercised

    A worker of three slots on the machine of [ReplayExample]: a VM is created,
    and a VM is forked into two children. *)

From Stdlib Require Import String.
From S2P Require Import Prelude SlotState SlotManager SlotInvariants Status Lapic DevCtx Devices Bus Dirty Config Kvm Boundary RuntimeTable Runtime Inputs Worker WorkerOk SnapshotExample ReplayExample.
Import SnapExample ReplayExample.
Local Open Scope string_scope.
Local Open Scope list_scope.
Local Open Scope Z_scope.

(** The machine beside its pause flag, on a thread of id 77. *)
Local Notation Threaded := (Mach * bool)%type.
#[export] Instance Threaded_pause : PauseFlag Threaded := {
  pause_load s := (s.2, s);
  pause_store b s := (s.1, b) }.
#[export] Instance Threaded_host : ThreadHost Threaded := {
  thread_spawn s := (Ok tt, s);
  current_tid _ := 77;
  install_kick_handler s := (Ok tt, s);
  pin_current_thread _ s := (Ok tt, s);
  set_current_thread_fifo s := (Err 1, s);
  InstRetired_open s := (Ok tt, s);
  route_overflow_to_thread _ s := (Ok tt, s) }.

Local Notation Rt := (@SlotRuntime no_channel unit unit unit Threaded).
Local Notation Books := (World Rt unit).
Definition worker_rt (icount : Z) (base : option bytes) : Rt :=
  mkRuntime (base_slot, false) [] LocalApic_default tt None example_live_config
    (mkDrain (mkDirtyRing 0 0) (DirtyPageSet_new 0) tt) [] false base (mkPosition icount icount icount 0 0) 0 [] [] 0 Parked.
Definition worker_token (n : nat) : bytes := [Z.of_nat n].

(** ** Aligned worlds *)

Definition idle_manager (n : nat) (core_ids : list Z) (ttl : option Z) : SlotManager :=
  mkSlotManager (replicate n SlotEntry_empty) core_ids ttl 0.
Definition idle_world (n : nat) (core_ids : list Z) (ttl : option Z) : Books :=
  mkWorld (idle_manager n core_ids ttl) (replicate n None) [] tt.

Lemma children_idle n i : children (replicate n SlotEntry_empty) i = 0.
Proof. induction n as [|n IH]; [done|]. cbn. by rewrite IH. Qed.

(** A worker that starts. *)
Lemma idle_aligned n core_ids ttl : Z.of_nat n <= u32_max -> aligned [] (idle_world n core_ids ttl).
Proof.
  intros Hn. split; cbn.
  - split; [by rewrite length_replicate|]. intros i e [-> _]%lookup_replicate.
    split; [by split|]. intros _. by rewrite children_idle.
  - by intros i e [-> _]%lookup_replicate.
  - by rewrite !length_replicate.
  - intros i e o [-> _]%lookup_replicate [-> _]%lookup_replicate. split; [by left|done].
  - by intros i e _ Hi%not_elem_of_nil.
  - by intros i e rt _ [? _]%lookup_replicate.
Qed.

(** ** Creating a VM *)

Definition idle : Books := idle_world 3 [2; 3; 4] (Some 1000).
Definition creates : option (outcome Status Lease * Books) :=
  install_allocated_runtime worker_token "CreateVm" 10 20 (fun _ => mret (worker_rt 0 (Some [9]))) idle.

Lemma granted_1000 m now : ttl_ms m = Some 1000 -> now < 1000 -> lease_granted m now.
Proof. intros Hm Hn ttl Ht. simplify_eq. split; [lia|]. unfold u64_max. lia. Qed.

Lemma install_is_transactional_witness : exists l w', creates = Some (Ok l, w') /\
  exists e, slots (w_manager w') = <[slot_id l := e]> (slots (w_manager idle)) /\ state e = Paused /\ holds e l 20 /\ aligned [] w'.
Proof.
  destruct (took_value creates) as (l & w' & E); [vm_compute; reflexivity|]. exists l, w'. split; [exact E|].
  destruct (install_is_transactional worker_token [] "CreateVm" 10 20 (fun _ => mret (worker_rt 0 (Some [9]))) idle (Ok l) w')
    as (rt & actor & e & _ & _ & _ & _ & Hs & Hp & Hh & _ & Ha);
    [apply idle_aligned; vm_compute; discriminate|apply granted_1000; [reflexivity|lia]..|lia|exact E|].
  exists e. exact (conj Hs (conj Hp (conj Hh Ha))).
Defined.

(** ** Forking it *)

Definition parent_entry : SlotEntry := mkSlotEntry Paused (Some ([7], Some 1020)) 0 None false 5 (Some [9]).
Definition parent_lease : Lease := mkLease 1 [7].
Definition one_vm : Books :=
  mkWorld (mkSlotManager (<[1%nat := parent_entry]> (slots (w_manager idle))) [2; 3; 4] (Some 1000) 1)
    (<[1%nat := Some (worker_rt 5 (Some [9]))]> (w_table idle)) [] tt.
Lemma one_vm_aligned : aligned [] one_vm.
Proof.
  apply (aligned_publish worker_token [] idle one_vm 1 parent_entry (worker_rt 5 (Some [9]))); try reflexivity.
  - apply idle_aligned. vm_compute. discriminate.
  - by split_and!.
Qed.

(** Children that start where the parent is. *)
Definition copies (ls : list Lease) : prog (RuntimeTable Rt * unit) Status (list Rt) := mret ((fun _ => worker_rt 5 (Some [9])) <$> ls).
Definition forks : option (outcome Status (list Lease) * Books) :=
  install_forked_runtimes worker_token parent_lease 2 30 40 copies one_vm.

Lemma fork_is_transactional_witness : exists ls w', forks = Some (Ok ls, w') /\ length ls = 2%nat /\ aligned [] w' /\
  forall l, l ∈ ls -> exists e rt, slots (w_manager w') !! slot_id l = Some e /\ w_table w' !! slot_id l = Some (Some rt) /\
    parent e = Some 1%nat /\ holds e l 40.
Proof.
  destruct (took_value forks) as (ls & w' & E); [vm_compute; reflexivity|]. exists ls, w'. split; [exact E|].
  destruct (fork_is_transactional worker_token [] parent_lease 2 30 40 copies one_vm (Ok ls) w') as (Hl & Ha & _ & Hc);
    [apply one_vm_aligned| |apply granted_1000; [reflexivity|lia]..|lia|exact E|].
  { intros ls0 t v o t' v' H. injection H as <- <- <-. split_and!; [done..|]. intros rt Hrt. exists rt. split; [exact Hrt|reflexivity]. }
  split_and!; [done..|]. intros l Hin. destruct (Hc l Hin) as (_ & e & rt & He & Hrt & _ & Hp & Hh). exists e, rt. exact (conj He (conj Hrt (conj Hp Hh))).
Defined.
