(* ===== verification/GuestExample.v ===== *)
(** * A concrete guest

    A small machine that behaves as [Follows] and [Takes] document, with the
    awkward parts: a device write at icount 5 whose exit consumes the
    single-step arming, queued kicks, a skid of two instructions, interrupt
    windows that close every fourth boundary, and deliveries that retire three
    instructions before the trap.  It instantiates the engine's theorems. *)

From S2P Require Import Prelude Kvm ReprC Msr Xsave VcpuState StateHash Boundary Inject.

Record Toy := mkToy {
  t_count : Z;        (* retired instructions *)
  t_armed : bool;     (* the trap is armed *)
  t_control : Z;      (* the debug control word *)
  t_deadline : Z;     (* icount at which the period elapses *)
  t_kicks : nat;      (* queued kicks *)
  t_served : bool;    (* the device write of the current instruction is done *)
  t_until : Z }.      (* the trap after the last queued vector *)

Definition toy_regs (n : Z) : kvm_regs := mkRegs 0 0 n 0 0 0 0 0 0 0 0 0 0 0 0 0 (1000 + n) 2.
Definition toy_events (shadow : Z) : kvm_vcpu_events :=
  mkEvents 0 0 0 0 0 0 0 0 shadow 0 0 0 0 0 0 0 0 0 0 0 [] 0 0.

Definition at_write (s : Toy) : bool := (t_count s =? 5) && negb (t_served s).
Definition toy_shadow (n : Z) : Z := if n mod 4 =? 1 then 1 else 0.

Definition toy_run (s : Toy) : RunResult * Toy :=
  let '(mkToy c a w d k v u) := s in
  match k with
  | Datatypes.S k => (RunErrno EINTR, mkToy c a w d k v u)
  | O =>
      if a then
        if c <? u then (Exited Debug, mkToy u a w d 0 false u)
        else if at_write s then (Exited (MmioWrite 0xD000 [1]), mkToy c false w d 0 v u)
        else (Exited Debug, mkToy (c + 1) a w d 0 false u)
      else if (c <? 5) && (5 <? d + 2) || at_write s then (Exited (MmioWrite 0xD000 [1]), mkToy 5 a w d 0 false u)
      else (RunErrno EINTR, mkToy (d + 2) a w d 0 false u)
  end.

#[export] Instance Toy_vcpu : Vcpu Toy := {
  kvm_run := toy_run;
  kvm_get_regs s := Ok (toy_regs (t_count s));
  kvm_set_guest_debug w s :=
    (Ok tt, mkToy (t_count s) (negb (w =? 0)) w (t_deadline s) (t_kicks s) (t_served s) (t_until s));
  kvm_get_vcpu_events s := Ok (toy_events (toy_shadow (t_count s)));
  kvm_interrupt v s :=
    (Ok tt, mkToy (t_count s) (t_armed s) (t_control s) (t_deadline s) (t_kicks s) (t_served s) (t_count s + 3));
  set_kvm_immediate_exit _ s := s;
  ready_for_interrupt_injection _ := 1;
  if_flag _ := 1;
  perf_read s := Ok (le_bytes 8 (t_count s) ++ le_bytes 8 1 ++ le_bytes 8 1);
  perf_ioctl c s :=
    (Ok tt, match c with
            | PERIOD p => mkToy (t_count s) (t_armed s) (t_control s) (t_count s + p) (t_kicks s) (t_served s) (t_until s)
            | _ => s
            end) }.

#[export] Instance Toy_probe : Probe Toy := {
  armed := t_armed;
  deadline := t_deadline;
  work s := (t_kicks s + (if at_write s then 1 else 0))%nat }.

(** The device accepts its write and refuses everything else. *)
Definition toy_exit : handler Toy := fun e s =>
  match e with
  | MmioWrite 0xD000 _ =>
      Some (Ok tt, mkToy (t_count s) (t_armed s) (t_control s) (t_deadline s) (t_kicks s) true (t_until s))
  | _ => Some (Err (Exit (handler_failed 1)), s)
  end.

Definition toy_horizon : Z := 2 ^ 40.
Definition toy_flight (u n : Z) (s : Toy) : Prop :=
  t_count s = n /\ t_until s = u /\ 0 <= n <= toy_horizon /\ (t_kicks s <= 3)%nat.
Definition toy_track (u : Z) : Track Toy := {|
  path n s := toy_flight u n s /\ t_served s = false;
  flight := toy_flight u;
  settle := u;
  horizon := toy_horizon;
  regs_at := toy_regs;
  quiet e := e = MmioWrite 0xD000 [1];
  work_max := 4;
  skid := 3 |}.

Lemma toy_follows u : Follows (toy_track u) toy_exit.
Proof.
  split; unfold toy_track, toy_flight; cbn [path flight settle horizon regs_at quiet work_max skid].
  - by intros n s [? ?].
  - done.
  - naive_solver.
  - intros n s (<- & _). exists 1, 1. split_and!; try (unfold u64; lia); try done; by right.
  - intros n s [(<- & _) _]. done.
  - intros n s (? & ? & ? & ?). cbn. destruct (at_write s); lia.
  - intros n s c (? & ? & ? & ?). eexists. split; [reflexivity|]. cbn. split_and!; try done; tauto.
  - intros n s p (? & ? & ? & ?). eexists. split; [reflexivity|]. cbn. split_and!; try done; try tauto; lia.
  - intros n [c a w d k v u'] (Hc & Hu & Hn & Hk) Ha Hd Hh. cbn in Hc, Hu, Hk, Ha, Hd, Hh |- *. subst c u' a.
    destruct k as [|k]; cbn [toy_run].
    + destruct ((n <? 5) && (5 <? d + 2) || at_write _) eqn:E.
      * eexists _, 5. unfold at_write in *. cbn in *. destruct v; cbn in *; split_and!; try reflexivity; try done; try lia.
        all: destruct (decide (n = 5)); [right; subst; cbn; lia|left; lia].
      * eexists _, (d + 2). cbn. split_and!; try reflexivity; try done; try lia.
    + eexists _, n. cbn. split_and!; try reflexivity; unfold at_write; cbn; try done; try lia.
  - intros n [c a w d k v u'] (Hc & Hu & Hn & Hk) Ha Hs. cbn in Hc, Hu, Hk, Ha, Hs |- *. subst c u' a.
    destruct k as [|k]; cbn [toy_run].
    + replace (n <? u) with false by lia. destruct (at_write _) eqn:E.
      * eexists. unfold at_write in *. cbn in *. split_and!; try reflexivity; try done.
        left. destruct (n =? 5), v; cbn in *; try done; split_and!; try done; rewrite ?andb_false_r; lia.
      * eexists. cbn. split_and!; try reflexivity; try done. right. split_and!; try done; try lia.
    + eexists. cbn. split_and!; try reflexivity; try done.
      left. unfold at_write. cbn. split_and!; try done; lia.
  - intros n [c a w d k v u'] (Hc & Hu & Hn & Hk) Ha Hs. cbn in Hc, Hu, Hk, Ha, Hs |- *. subst c u' a.
    destruct k as [|k]; cbn [toy_run].
    + replace (n <? u) with true by lia. eexists. cbn. split_and!; try reflexivity; try done.
      left. split_and!; try done; lia.
    + eexists. cbn. split_and!; try reflexivity; try done. right. split; [done|]. exists n.
      unfold at_write. cbn. split_and!; try done; lia.
Qed.

(** ** Witnesses *)

Definition toy_guest : Guest Toy Z := {|
  track := toy_track;
  window _ n := negb (n mod 4 =? 1);
  queued _ n _ := n + 3 |}.

Lemma toy_takes : Takes toy_guest toy_exit.
Proof.
  split; cbn [track window queued toy_guest].
  - apply toy_follows.
  - by intros h.
  - intros h n s [(<- & _) _]. eexists. split; [reflexivity|]. cbn. unfold toy_shadow.
    by destruct (t_count s mod 4 =? 1).
  - intros h n v s [(<- & ? & ? & ?) ?] _ _. eexists. split; [reflexivity|].
    cbn. unfold toy_flight. cbn. split_and!; try done; lia.
  - intros. cbn. lia.
  - done.
Qed.

(** Two kicks are queued and the device write lies on the way. *)
Definition toy_start : Toy := mkToy 0 false 0 0 2 false 0.
Definition toy_margins : Margins := mkMargins 3 1.
Lemma toy_margins_ok u : margins_ok (toy_track u) toy_margins.
Proof. split_and!; cbn; ulia. Qed.
Lemma toy_start_path : path (toy_track 0) 0 toy_start.
Proof. unfold toy_start. cbn. unfold toy_flight, toy_horizon. cbn. split_and!; try done; lia. Qed.

Lemma land_at_exact_witness :
  exists s', land_at 200 9 toy_margins toy_exit toy_start = Some (Ok (mkBoundary 9 1009 9), s') /\
    path (toy_track 0) 9 s' /\ armed s' = false.
Proof.
  apply (land_at_exact (toy_track 0) toy_exit toy_margins 9 0 toy_start 200);
    [apply toy_follows|apply toy_margins_ok|apply toy_start_path|reflexivity|cbn; unfold toy_horizon; lia|
     cbn; lia|vm_compute; lia].
Defined.

#[export] Instance Toy_control : DebugControl Toy.
Proof.
  refine {| control := t_control |}; try done.
  - intros [c a w d [|k] v u]; cbn; [|done]. by repeat case_match.
  - by intros [] [].
Defined.

Lemma toy_exit_triple b e :
  triple (holds b) (toy_exit e) (fun _ => holds b) (fun x _ => exists msg, x = Exit msg).
Proof. intros s Hs. unfold toy_exit. destruct e; eauto. repeat case_match; simplify_eq; eauto. Qed.

Definition landed (o : option (outcome BoundaryError Boundary * Toy)) : Toy :=
  match o with Some (_, s) => s | None => toy_start end.

Lemma land_at_drops_single_step_witness :
  control (landed (land_at 200 9 toy_margins toy_exit toy_start)) = 0.
Proof.
  apply (land_at_drops_single_step toy_exit toy_margins 9 200 toy_start (Ok (mkBoundary 9 1009 9)) _
    toy_exit_triple eq_refl). vm_compute. reflexivity.
Defined.

(** The device write refused by the handler. *)
Definition toy_refuse : handler Toy := fun _ => throw (Exit guest_halted).
Definition toy_at_write : Toy := mkToy 5 false 0 0 0 false 0.

Lemma land_at_exit_error_keeps_single_step_witness :
  exists s', land_at 1 6 toy_margins toy_refuse toy_at_write = Some (Err (Exit guest_halted), s') /\
    control s' = STEPPING.
Proof.
  eexists. apply (land_at_exit_error_keeps_single_step toy_refuse toy_margins 6 0 toy_at_write 5
    (mkToy 5 false 0 (5 + NEVER_FIRES_PERIOD) 0 false 0)
    (mkToy 5 true 3 (5 + NEVER_FIRES_PERIOD) 0 false 0) (MmioWrite 0xD000 [1])
    (mkToy 5 false 3 (5 + NEVER_FIRES_PERIOD) 0 false 0));
    [reflexivity|cbn; lia|cbn; ulia|reflexivity|reflexivity|reflexivity|discriminate|reflexivity|reflexivity].
Defined.

Lemma inject_first_window_witness :
  exists s', inject_at_boundary 200 48 (mkBoundary 5 1005 5) toy_margins 4 toy_exit toy_at_write
      = Some (Ok (mkInjection 48 5 6 1006), s') /\
    path (toy_track 9) 6 s' /\ armed s' = false.
Proof.
  apply (inject_first_window toy_guest toy_exit toy_margins 0 5 toy_at_write 4 200 toy_takes toy_margins_ok);
    [|reflexivity|cbn; lia|lia|cbn; unfold toy_horizon; lia|vm_compute; lia|lia|lia|reflexivity|].
  - cbn. unfold toy_flight, toy_horizon. cbn. split_and!; try done; lia.
  - intros x Hx. by replace x with 5 by lia.
Defined.

(** ** The machine as a slot *)

#[export] Instance Toy_gets : VcpuGets Toy := {
  kvm_cap_xsave2 _ := 4096;
  kvm_get_sregs _ := Ok (zeroed r_sregs);
  kvm_get_fpu _ := Ok (zeroed r_fpu);
  kvm_get_xsave _ := Ok (replicate #1024 7);
  kvm_get_xcrs _ := Ok (zeroed r_xcrs);
  kvm_get_msrs l s := Ok ((fun i => mkMsr i (t_count s)) <$> l);
  kvm_get_debug_regs _ := Ok (zeroed r_debugregs);
  component_layout _ := [] }.
#[export] Instance Toy_mem : SlotMem Toy := {
  slot_mem_bytes _ := 8192;
  read_page a s := Ok (replicate PAGE_SIZE ((t_count s + a / 4096) mod 256)) }.

(** Two paused slots that differ only in what the host has queued for them. *)
Definition slot_a : Toy := mkToy 9 false 0 0 0 false 0.
Definition slot_b : Toy := mkToy 9 false 0 70 3 false 0.

Definition slot_view :=
  vcpu_view (toy_regs 9) (zeroed r_sregs) (zeroed r_fpu) 7
    (match xsave_area slot_a with Ok (_, a) => a | _ => [] end) (toy_events (toy_shadow 9)) (zeroed r_debugregs)
    ((fun i => mkMsr i 9) <$> MSR_CAPTURE_LIST) 18.

Lemma slot_views c k :
  let s := mkToy 9 false 0 c k false 0 in views s 18 slot_view.
Proof.
  intros s. subst s. apply (views_intro _ 18 (toy_regs 9) (zeroed r_sregs) (zeroed r_fpu) (replicate #1024 7));
    try reflexivity.
Qed.

Lemma slot_fits : fits v_vcpu slot_view.
Proof.
  assert (of_bytes v_vcpu (to_bytes v_vcpu slot_view) = slot_view) as <- by (vm_compute; reflexivity).
  apply to_of; [vm_compute; reflexivity|].
  assert (bool_decide (Forall (fun x => 0 <= x < 256) (to_bytes v_vcpu slot_view)) = true) as H
    by (vm_compute; reflexivity).
  apply bool_decide_eq_true in H. exact H.
Qed.

Lemma slot_readable c k : ram_readable (mkToy 9 false 0 c k false 0).
Proof.
  split; [cbn; lia|]. intros idx _. eexists. split; [reflexivity|]. apply length_replicate.
Qed.

Definition slot_link : bytes :=
  match @push_final_link example_hash _ _ _ _ slot_a [4; 2] 9 18 (replicate 32 5) with Ok h => h | _ => [] end.

Lemma slot_links s :
  s = slot_a \/ s = slot_b ->
  @push_final_link example_hash _ _ _ _ s [4; 2] 9 18 (replicate 32 5) = Ok slot_link.
Proof.
  assert (forall c k, exists ps, walk_pages 2 0 slot_a = Ok ps /\
    @push_final_link example_hash _ _ _ _ (mkToy 9 false 0 c k false 0) [4; 2] 9 18 (replicate 32 5)
    = Ok (example_hash (preimage (replicate 32 5) (mkLink (to_bytes v_vcpu slot_view) [4; 2] ps 9 18)))) as H.
  { intros c k. destruct (@push_final_link_spec example_hash Toy _ _ _ (mkToy 9 false 0 c k false 0) [4; 2] 9 18
      (replicate 32 5) slot_view (slot_views c k) slot_fits (slot_readable c k)) as (ps & Hp & E & _).
    exists ps. by split. }
  unfold slot_link. destruct (H 0 0%nat) as (ps & Hp & E), (H 70 3%nat) as (ps' & Hp' & E').
  fold slot_a in E. fold slot_b in E'. rewrite Hp in Hp'. injection Hp' as <-. rewrite E.
  by intros [-> | ->].
Qed.

Lemma final_link_binds_machine_witness :
  walk_pages (ram_pages slot_a) 0 slot_a = walk_pages (ram_pages slot_b) 0 slot_b.
Proof.
  apply (@final_link_binds_machine example_hash Toy _ _ _ slot_a [4; 2] 9 18 (replicate 32 5)
    slot_view slot_b [4; 2] 9 18 (replicate 32 5) slot_view slot_link eq_refl eq_refl
    (slot_views _ _) (slot_views _ _) slot_fits slot_fits (slot_readable _ _) (slot_readable _ _)).
  1-6: unfold u64; cbn [length]; lia.
  1-2: apply slot_links; tauto.
  intros ps ps' H H'. change (walk_pages (ram_pages slot_b) 0 slot_b) with (walk_pages (ram_pages slot_a) 0 slot_a) in H'.
  rewrite H in H'. injection H' as ->. done.
Defined.
