(* ===== verification/RunServiceExample.v ===== *)
(** * A run request, served

    The machine of [ReplayExample] behind a leased slot, with a pad input queued
    at its second instruction, run for six instructions while recording. *)

From Stdlib Require Import String.
From stdpp Require Import strings.
From S2P Require Import Prelude Vt DhiLog SlotState SlotManager Status Lapic DevCtx Devices Detchannel DetchannelOk Bus Dirty Config Kvm VcpuState StateHash Boundary RunCtl Recording Snapshot SnapshotExample RuntimeTable Runtime Inputs Capture Worker ReplayRun ReplayExample RunService RunServiceOk.
Import DetChannel SnapExample ReplayExample ToySdk.
Local Open Scope string_scope.
Local Open Scope list_scope.
Local Open Scope Z_scope.

#[local] Existing Instance sum_hash.
#[local] Instance Mach_pause : PauseFlag Mach := {
  pause_load s := (false, s);
  pause_store _ s := s }.
#[local] Instance Mach_host : ThreadHost Mach := {
  thread_spawn s := (Ok tt, s);
  current_tid _ := 77;
  install_kick_handler s := (Ok tt, s);
  pin_current_thread _ s := (Ok tt, s);
  set_current_thread_fifo s := (Err 1, s);
  InstRetired_open s := (Ok tt, s);
  route_overflow_to_thread _ s := (Ok tt, s) }.
(** A framebuffer, and a region of layout 7. *)
#[local] Instance toy_regions : RegionSdk VecGuestMem := {
  REGION_FLAG_FRAMEBUFFER := 1;
  entries _ := [mkEntry true 0 [114]; mkEntry true 1 [102; 98]];
  resolve _ name := if bool_decide (name = [102; 98]) then Some (mkResolved 229376 1)
                    else if bool_decide (name = [114]) then Some (mkResolved 16 7) else None;
  read_region _ _ name offset n := inr (replicate n (offset + 3)) }.
#[local] Instance toy_reads : RegionReads.
Proof. intros mem ch name offset n b [= <-]. apply length_replicate. Qed.
#[local] Instance plain_lz4 : Lz4 := fun b => le_bytes 4 (Z.of_nat (length b)) ++ b.

Local Notation Rt := (@SlotRuntime (service_channel (M := VecGuestMem) (P := unit) (F := unit)) VecGuestMem EntropyState ToyRing Mach).
Local Notation Served := (RunWorld (M := VecGuestMem) (E := EntropyState) (K := Store) (R := ToyRing) (S := Mach) (P := unit) (F := unit) (Q := unit)).
#[local] Existing Instance service_channel.

(** ** A capture *)

#[local] Instance toy_factory : PlanFactory unit unit := fun f => (tt, f).
Definition talking_bus : list (Z * BoxDev VecGuestMem EntropyState) :=
  [(0xD0000000, mkBox _ Pad.PvPad_device (Some AnyPad) Pad.PvPad_new);
   (0xD0003000, mkBox _ DetChannelDevice_device (Some AnyDetChannel)
      (mkDevice (set_channel (Some (mkSeqs 0 0)) (DetChannelHost_new tt)) tt))].
Definition asked_for : CaptureSpec := mkCaptureSpec [mkRange [114] 7 4 5; mkRange [114] 7 0 16] true.
Local Notation captures := (capture_at_boundary [] talking_bus (Some asked_for) 12).

Lemma capture_exact_witness : exists out, captures = Ok out /\ captured [] talking_bus asked_for 12 out /\
  co_feature_bytes out = replicate 5 7 ++ replicate 16 3 /\ co_fb_info out = Some (mkFbInfo 256 224 1024 1 12).
Proof.
  assert ((match captures with Ok out => Some (co_feature_bytes out, co_fb_info out) | _ => None end) =
    Some (replicate 5 7 ++ replicate 16 3, Some (mkFbInfo 256 224 1024 1 12))) as Hout by (vm_compute; reflexivity).
  destruct captures as [out|e|] eqn:H; [|discriminate Hout..]. exists out. split; [reflexivity|].
  split; [|injection Hout as Hb Hi; exact (conj Hb Hi)].
  apply (capture_exact [] talking_bus asked_for 12 out); [repeat constructor; discriminate|exact H].
Defined.

(** ** A run *)

Definition held_entry : SlotEntry := mkSlotEntry SlotState.Paused (Some ([7], Some 1020)) 0 None false 0 (Some [9]).
Definition held_lease : Lease := mkLease 1 [7].
Definition pressed : QueuedInput := mkQueued (QIcount 2) 0 (QPadSet 0 5 u32_max).
Definition served_rt (pad : Pad.PvPad) : Rt :=
  mkRuntime base_slot
    [(0xD0000000, mkBox _ Pad.PvPad_device (Some AnyPad) pad);
     (0xD0001000, mkBox _ Clock.PvClock_device (Some AnyClock) (Clock.PvClock_new 1 2));
     (0xD0002000, mkBox _ Entropy.PvEntropy_device None Entropy.PvEntropy_new)]
    LocalApic_default ex_entropy (Some (LogWriter_new rp_header)) rp_config ex_drain (replicate 32 0) true (Some [9])
    (mkPosition 0 0 0 0 0) 0 [pressed] [] 1 Parked.
Definition served (pad : Pad.PvPad) : Served :=
  mkRunWorld (mkSlotManager [SlotEntry_empty; held_entry; SlotEntry_empty] [2; 3; 4] (Some 1000) 1) [] (served_rt pad) [] None tt.
Local Notation serves pad :=
  (drive_recorded_run 60 false true false held_lease (mkRunUntil (UntilIcount 6) None) None None (fun q => ([], q)) 20 30 (served pad)).

Lemma run_lands_or_faults_witness : exists r w' e', serves Pad.PvPad_new = Some (Ok r, w') /\
  slots (rw_manager w') = [SlotEntry_empty; e'; SlotEntry_empty] /\ state e' = SlotState.Paused /\
  runtime_position (rw_runtime w') = (SlotManager.icount e', base_snapshot_id e') /\ rs_icount r = SlotManager.icount e'.
Proof.
  destruct (took_value (serves Pad.PvPad_new)) as (r & w' & H); [vm_compute; reflexivity|]. exists r, w'.
  pose proof (run_lands_or_faults 60 false true false held_lease (mkRunUntil (UntilIcount 6) None) None None (fun q => ([], q)) 20 30
    held_entry (served Pad.PvPad_new) (Ok r) w' eq_refl eq_refl (ex_intro _ _ eq_refl) H) as T.
  destruct T as [[[st Hn] _]|(_ & _ & (e' & Hs & _ & _ & _ & _ & Hp & Hpos & Hic & _) & _)]; [discriminate Hn|].
  exists e'. exact (conj H (conj Hs (conj Hp (conj Hpos Hic)))).
Defined.

(** With an interrupt vector in the pad, the same input panics the segment, which
    the service runs without a timer: the slot is left Running though its lease
    holds. *)
Definition armed_pad : Pad.PvPad := Pad.mkPvPad (replicate Pad.NUM_PORTS 0) 48 0.
Example input_irq_strands_slot :
  match serves armed_pad with
  | Some (Panic, w') =>
      (state <$> slots (rw_manager w')) = [SlotState.Empty; SlotState.Running; SlotState.Empty] /\
      validate_entry held_entry held_lease 30 = Ok tt /\ rw_published w' = [info_of (with_state SlotState.Running held_entry) 1]
  | _ => False
  end.
Proof. vm_compute. split; [reflexivity|split; reflexivity]. Qed.
