(* ===== verification/RunExample.v ===== *)
(** * A run of the example guest

    A segment with a deferred injection, an input that queues a vector, a timer
    and two epochs, on the guest of [GuestExample]. *)

From S2P Require Import Prelude Vt Agenda Kvm ReprC VcpuState StateHash Config Boundary Inject RunCtl RunCtlOk GuestExample.

#[export] Instance Toy_tsc : TscClock Toy := {
  rdtsc s := (12345, s);
  kvm_set_tsc_offset _ s := (Ok tt, s) }.
#[export] Instance Toy_marks : Marks Toy := fun _ => (0, 0).

(** A digest that is enough for an example. *)
Definition length_hash : Blake3 := fun b => replicate 32 (Z.of_nat (length b) mod 256).
#[local] Existing Instance length_hash.

Definition toy_at (n : Z) : Toy := mkToy n false 0 0 0 false 0.
Definition toy_blob (n vns : Z) : bytes :=
  match canonical_vcpu_blob (toy_at n) vns with Ok b => b | _ => [] end.
Definition toy_pages (n : Z) : list (Z * bytes) :=
  match walk_pages 2 0 (toy_at n) with Ok ps => ps | _ => [] end.

Definition toy_config : MachineConfig :=
  mkConfig 1 (2 * 1024 * 1024) 1 (mkClockRatio 2 1) (replicate 32 0) (Elf (replicate 32 0) []) 16 EpochsOn 3 1 [] [].
Definition toy_segment : Segment Toy :=
  mkSegmentIn toy_config 0 [mkScheduledInjection 5 48] (Some (mkTimerArm 56 49)) (fun s => (false, s)) None None.
(** The input of index 1 queues a vector. *)
Definition toy_input (idx : nat) (b : Boundary) : prog Toy BoundaryError (list Z) :=
  mret (if (idx =? 1)%nat then [80] else []).
Definition toy_request : Request Toy :=
  mkRequest toy_segment (UntilIcount 40) RunOptions_default [10; 20] [] 0
    (mkSinks (fun s => (false, s)) toy_exit toy_input no_epochs no_frames no_live).

Definition toy_machine : Machine Toy Z := {|
  guest := toy_guest;
  input_at h n idx := (if (idx =? 1)%nat then [80] else [], h);
  goal_at _ _ := false;
  asked _ _ := false;
  blob_at _ := toy_blob;
  pages_at _ := toy_pages;
  sections_at _ _ := [];
  marks_at _ _ := (0, 0) |}.

Lemma toy_blob_ok s vns : canonical_vcpu_blob s vns = Ok (toy_blob (t_count s) vns).
Proof.
  assert (exists xs, forall s : Toy, xsave_area s = Ok xs) as [xs Hxs].
  { eexists. intros s'. vm_compute. reflexivity. }
  unfold toy_blob, canonical_vcpu_blob. rewrite !Hxs. reflexivity.
Qed.

Lemma toy_runs : Runs toy_machine toy_request.
Proof.
  split; cbn [toy_machine toy_request guest input_at goal_at asked blob_at pages_at sections_at marks_at sinks seg
    on_exit input_sink goal pause epoch_sink hash_sections toy_segment].
  - apply toy_takes.
  - split; try done. intros e s s' He. unfold marks, Toy_marks. destruct e as [| | |gpa data| | | | | | |]; try done.
    (unfold seen_frame_mark; destruct (gpa =? frame_mark_gpa) eqn:E; [|done]; apply Z.eqb_eq in E as ->; discriminate He).
  - split; done.
  - intros h. split.
    + intros e He. cbn in He. subst e. split; [done|]. exists None. reflexivity.
    + intros n s e s' f Hf Hk Hm. exfalso. destruct s as [c a w d [|k] v u]; cbn in Hk; [|discriminate].
      repeat case_match; simplify_eq; discriminate Hm.
  - done.
  - intros h n s idx b Hp Ha. exists s. done.
  - done.
  - intros h n s Hp Ha. by exists s.
  - intros h n s Hp Ha. by exists s.
  - intros h n s i b c k Hp Ha. by exists s.
  - intros h n s v Hp Ha. by exists s.
  - intros h n s vns [(<- & _) _]. apply toy_blob_ok.
  - intros h n s [(<- & _) _]. reflexivity.
  - done.
Qed.

Lemma toy_fuel : exists fuel : nat, (run_fuel toy_machine toy_request 0%Z <= fuel)%nat.
Proof. eexists. apply le_n. Qed.

(** Two kicks are queued. *)
Definition toy_begin : Toy := mkToy 0 false 0 0 2 false 0.
Lemma toy_begin_path : path (track (guest toy_machine) 0) (seg_start_icount (seg toy_request)) toy_begin.
Proof. cbn. unfold toy_flight, toy_horizon. cbn. split_and!; try done; lia. Qed.

(** Injection deferred from 5 to 6, input vector at 20, timer at 28, epochs at 16
    and 32, stop at 40. *)
Definition toy_outcome (h : bytes) : outcome RunError SegmentOutcome :=
  Ok (mkSegmentOutcome BudgetReached (mkBoundary 40 1040 40) 80 h 3 (Some (mkTimerFired 49 56 28)) 0).
Lemma toy_outcome_ok : exists h,
  spec_segment toy_machine (marks toy_begin).1 toy_request
    (mkSpot 0 (seg_start_icount (seg toy_request)) (replicate 32 1) 0 None) = Some (toy_outcome h).
Proof. eexists. vm_compute. reflexivity. Qed.
Lemma toy_knobs_ok h : margins_ok (track (guest toy_machine) h) (mkMargins 3 1).
Proof. apply toy_margins_ok. Qed.

(** The outcome with margins 3 and 1. *)
Lemma run_segment_deterministic_witness :
  exists fuel h s' c',
    run_segment_inner fuel (reland 3 1 toy_request) (toy_begin, replicate 32 1) = Some (toy_outcome h, (s', c')).
Proof.
  destruct toy_outcome_ok as [h Hh], toy_fuel as [fuel Hfuel]. exists fuel, h.
  destruct (run_segment_deterministic toy_machine toy_request 3 1 fuel 0 toy_begin (replicate 32 1) (toy_outcome h)
    toy_runs toy_knobs_ok Hfuel toy_begin_path eq_refl eq_refl Hh) as (s' & c' & Hr & _).
  exists s', c'. exact Hr.
Defined.

(** ** The same guest without a timer *)

Definition quiet_segment : Segment Toy :=
  mkSegmentIn toy_config 0 [] None (fun s => (false, s)) None None.
Definition quiet_request : Request Toy :=
  mkRequest quiet_segment (UntilIcount 40) RunOptions_default [10; 20] [] 0
    (mkSinks (fun s => (false, s)) toy_exit toy_input no_epochs no_frames no_live).
Definition at_twenty : Toy * Run := (mkToy 20 false 0 0 0 false 0, run_new quiet_request (replicate 32 1)).

Lemma input_vector_without_timer_panics_witness :
  exists w', deliver 100 quiet_request (mkPlan None [] None) true [(80, None)] (mkBoundary 20 1020 20)
      (fun _ => crash) at_twenty = Some (Panic, w').
Proof.
  eexists. eapply (input_vector_without_timer_panics 100 quiet_request None [] None 80 [] (mkBoundary 20 1020 20)
    (fun _ => crash) at_twenty (mkInjection 80 20 20 1020)); [reflexivity|reflexivity|].
  vm_compute. reflexivity.
Defined.
